(* ===== verification/_CoqProject ===== *)
-Q . S2P
Prelude.v
Effects.v
GoStrings.v
Paths.v
Decimal.v
Regex.v
Schema.v
Http.v
CryptoLib.v
Refresh.v
Challenge.v
Cipher.v
TwoFactor.v
Rbac.v
RbacTeams.v
Routing.v
Docker.v
Apps.v
Tags.v
Volumes.v
Secrets.v
ApiTokens.v
RateLimit.v
AuthApi.v
Domains.v
Zones.v
Instance.v
Caddy.v
Swap.v
Compose.v
Deploy.v
Servers.v
Launch.v
Backup.v
Cleanup.v
ComposeSpec.v
GitUrl.v
GitSources.v
Build.v
GitApi.v
AppsApi.v
AppParts.v
DeployApi.v
OrgApi.v
AdminApi.v
Startup.v
Router.v
Providers.v
Client.v
EventBus.v
Terminal.v
Divergences.v
