(* ===== verification/Prelude.v ===== *)
(** * Prexel: a verification of the server and of its client

    Prexel is a self-hosted deployment platform.  One Go process keeps its
    state in SQLite, drives the Docker engines of its servers, and configures
    a Caddy reverse proxy through its admin API; the same binary is a command
    line that talks to that process.  This library models src/internal: who may
    do what, what a deployment does to running applications, and what the
    endpoints make of it, and proves what makes them correct.

    ** The program and the files

    Common ground: [Prelude] (this file: lists and counting), [Effects] (the
    monad), [GoStrings], [Decimal], [Regex], [Paths] (Go's strings, decimal
    numbers, regular expressions, file paths), [Schema] (the rows of the
    database), [Http] (answers of handlers), [CryptoLib] (cryptographic
    libraries).

    Services:
    - Sessions (internal/auth: refresh.go, jwt.go, bcrypt.go,
      password_change.go): [Refresh]; login challenges (challenge.go):
      [Challenge]; two-factor authentication (twofactor_service.go, totp.go,
      recovery.go, password_validation.go): [TwoFactor]; encryption at rest
      (internal/crypto): [Cipher]; personal API tokens (internal/apitoken):
      [ApiTokens]; the limit on login requests
      (api/apimiddleware/ratelimit.go): [RateLimit].
    - Roles and authorization (internal/rbac): [Rbac]; members and teams:
      [RbacTeams].
    - Apps (internal/app): [Apps], with their tags ([Tags]), volumes
      ([Volumes]) and secrets ([Secrets]).
    - Domains (internal/domains): [Domains], the table, the DNS and certificate
      status machine, host ports; DNS zones (internal/dnszone): [Zones].
    - The instance (internal/setup, internal/instance, the gates of
      apimiddleware): [Instance]; the configuration and the public address
      (internal/config, domains/publicip.go): [Startup]; backups and their
      restoration (internal/backup, cli/command/restore.go): [Backup].
    - Servers (internal/server, internal/ssh): [Servers].
    - The reverse proxy: [Routing] is the interface its clients see, [Caddy]
      the client (internal/caddy) over the admin API.
    - Docker (internal/dockersvc): [Docker], the helpers over the daemon's API;
      [Providers], the clients and their keys.
    - Deployments (internal/deploy): [Swap] replaces the container of an app,
      [Compose] those of a compose app, [Deploy] has the runs, rollbacks,
      restarts and stops around them, admission, and the reconciliation at
      startup; [Launch] joins stored rows, builds and swaps; [ComposeSpec] reads
      compose files (internal/composespec).
    - Git and builds (internal/gitsrc, internal/build): [GitUrl] has the gate
      on URLs, [GitSources] the sources, clones and GitHub apps, [Build] what
      Docker is asked for.
    - Clean-up (internal/appcleanup, instance/cleanup.go): [Cleanup].  Events
      (internal/eventbus): [EventBus].

    Endpoints (internal/api/handler): [AuthApi] (auth.go, twofactor.go),
    [AppsApi] (app.go), [AppParts] (appvolume.go, tag.go, secret.go),
    [DeployApi] (deployment.go), [OrgApi] (rbac.go), [GitApi] (gitsource.go,
    webhook.go), [AdminApi] (dnszone.go, instance.go, backup.go, apitoken.go,
    domain.go, server.go), [Terminal] (container_exec.go, container_logs.go,
    event.go); the wizard's are in [Instance].  [Router] (api/router.go) has the
    routes and the middleware before them.

    The command line's client (internal/cli/client, internal/cli/config):
    [Client].  [Divergences] shows, on the models, behaviours that a comment or
    another part of the code contradicts; so do the modules [Examples].

    ** How the parts interact

    The handlers run the services on one state and ask [Rbac] first, where the
    code does ([Examples] has where it does not).  [Deploy]
    reads the rows of [Apps], [Servers] and [Domains], calls [Docker] and the
    proxy, and publishes events.  A component that is used through an interface
    is a class with laws, which its own file implements: [CaddyClient] and
    [RouteLaws] ([Caddy]), [TagLister] ([Tags]), [ZoneRegistry] ([Zones], in
    [Instance]).

    ** How code is translated

    - A method is a computation of the monad [M S E] of [Effects]: from a state
      and a list of faults to a state, the remaining faults and an error or a
      result.  [query] and [exec] are calls that can fail (of the database, of
      files): each takes the next fault of the list, and an exhausted list means
      no more faults, so a theorem over every list of faults is about a failure
      of any of the calls, in any combination.  A failed [exec] changes nothing;
      a transaction restores the state it started from when its body fails.
      [wp m Q s] is the weakest precondition over every list of faults, [run]
      the run without faults; [preserves] and [returns] are their invariant and
      result forms.
    - A table is a list of rows in insertion order ([Schema]), with the
      UNIQUE and PRIMARY KEY constraints, the ON DELETE actions and the ORDER
      BY clauses that the statements rely on; a WHERE clause is a bool function
      used by [sel], [upd], [del] and [cnt] of [Prelude].
    - int, int64 and Unix times are [Z], with the wrap-around written out where
      a computation can reach it.  Strings are bytes; case mapping and character
      classes beyond ASCII are the class [Unicode].
    - What a method reads of the world is an argument: clocks, UUIDs, random
      bytes, DNS answers, the network, the answers of a host.  Sequential
      requests are sequences of calls, each a step.  Where the code is
      concurrent it is a step relation over threads or sections: admission in
      [Deploy], the bus in [EventBus], the pumps in [Terminal], the worker in
      [Cleanup].
    - A request is decoded JSON, [None] when it cannot be decoded; an answer is
      a [Reply] with its status.
    - Libraries the sources call are classes with laws, and each has an
      instance that satisfies them: cryptography ([CryptoLib], AES in [Cipher],
      [BackupLib]), certificates ([ClientLib]), SSH ([SshLib]), floats and ports
      ([Floats], [Nat], [Float64]), addresses ([NetIP]), names
      ([PublicSuffix]), URLs ([UrlLib]), YAML ([YamlLib]), GitHub ([GitHubLib]),
      Docker ([DockerDaemon], [DockerHost]), Caddy's admin API ([AdminAPI]).
    - The fuel of [scan_ports] is one more than the fifty ports it tries, and
      that of [uniqueSlug] the thousand candidates of its loop; [Itoa] produces
      twenty digits, more than an int64 has.  All other recursion is
      structural.

    ** What is proved

    - Deployments: while an app with domains is deployed as a container or
      rolled back behind a steady proxy ([Routing.steady]: it does not refuse
      the PATCH of a route and accept the POST after it), every host that is
      served stays routed to a running container after every call to Docker or
      the proxy, whatever fails ([Deploy.zero_downtime]); a candidate that is
      not healthy changes nothing else, except that an app without a domain has
      given its old container up by then ([Swap.failed_candidate_harmless]); at
      most one run per app and a bounded number in total, over any interleaving
      ([Deploy.admission_control]); rows that went through the services, with
      limits of at most 300 characters, never fail on their text
      ([Launch.stored_rows_launch]).
    - Authorization: the checks answer exactly what a declarative policy says,
      or fail ([Rbac.decisions_follow_policy]); no history of calls breaks the
      references between the tables ([RbacTeams.org_invariant]); each family of
      endpoints is refused without a change, or has the permission it asks and
      changes only the rows it names ([AppsApi.requests_authorized],
      [AppParts.parts_confined], [OrgApi.org_authorized],
      [AdminApi.admin_guarded], [Terminal.streams_guarded]); which requests ask
      none is part of these statements (secrets, domains, servers, deployments,
      avatars, the logs and events of an app).  No handler but the public ones
      runs without a session ([Router.routes_guarded]).
    - Sessions, passwords and second factors: rotation and families
      ([Refresh.rotation_effect], [Refresh.sessions_invariant]), no replay and
      bounded attempts ([TwoFactor]), what a login may answer ([AuthApi]), how many
      logins of an address fail, given how many are in flight, and how many
      refreshes get through ([RateLimit.rate_bounded]), tokens ([ApiTokens.token_lifecycle]).
    - State: histories keep the tables valid ([Domains.domains_invariant],
      [Apps.apps_typed]); the wizard completes once ([Instance.wizard_once]).
    - Refinement: the proxy's client implements a table of routes, in every run
      for the other hosts and in the runs of a steady proxy for its own
      ([Caddy.client_correct]); the critical sections of the bus, the goroutine
      that replays among them, implement a specification of bounded queues
      ([EventBus.bus_refines]); its calls never wait for a reader
      ([EventBus.calls_finish]).
    - Round trips: secrets ([Secrets.secrets_roundtrip]), the database file in a
      backup ([Backup.backup_roundtrip]), the stream of events from the server's
      writer to the client's reader ([Client.sse_roundtrip]).
    - The outside: URLs ([GitUrl.url_gate]), clones with a source, builds and
      webhooks ([GitSources], [Build], [GitApi]), host keys
      ([Servers.host_key_pinned]), certificates along redirects
      ([Client.requests_pinned]), restorations ([Backup.restore_safe]), clean-up
      ([Cleanup]).

    ** What is not modelled

    The commands and the terminal interface of the command line (flags, prompts,
    tables), the web interface, the wiring of services (serve.go, wire.go and
    the constructors of router.go), the matching of paths (chi), the opening and migration of the database, the
    generation of TLS certificates, and the encodings of JSON, of HTTP and of
    build contexts: they pass values on or call libraries.  Of the modelled
    components: file modes, timeouts and the tickers of the background passes
    (each pass is a step), log files, the -wal file of the database beside
    prexel.db, the files git writes, the clients of their own that the health
    check and the setup commands of the command line use, and interleavings
    inside one transaction, which SQLite serialises. *)

From stdpp Require Export base list strings option.
From Stdlib Require Export Ascii ZArith Lia.
From Stdlib Require Import Permutation Sorted.

(** ** Notation scope of the development *)

Declare Scope prexel_scope.
Delimit Scope prexel_scope with prexel.

(** Go's [==] on strings. *)
Notation "a =s b" := (String.eqb a b) (at level 70, no associativity) : prexel_scope.

(** Go's [p != nil] on a pointer modelled as an option. *)
Abbreviation is_some o := (match o with Some _ => true | None => false end).

#[global] Open Scope string_scope.
#[global] Open Scope list_scope.
#[global] Open Scope nat_scope.
#[global] Open Scope prexel_scope.

(** Concatenation of Go strings. *)
Notation "a ^^ b" := (String.append a b) (at level 60, right associativity) : prexel_scope.

(** [len(l) == 0]. *)
Definition is_nil {A} (l : list A) : bool := match l with [] => true | _ => false end.

(** ** Automation *)

Create HintDb prexel.

(** [bool_simp] turns boolean tests of the code into the propositions they
    decide, in hypotheses and goal. *)
Ltac bool_simp :=
  repeat match goal with
  | H : (_ =? _)%string = true |- _ => apply String.eqb_eq in H
  | H : (_ =? _)%string = false |- _ => apply String.eqb_neq in H
  | H : (_ =? _)%Z = true |- _ => apply Z.eqb_eq in H
  | H : (_ =? _)%Z = false |- _ => apply Z.eqb_neq in H
  | H : (_ <? _)%Z = true |- _ => apply Z.ltb_lt in H
  | H : (_ <? _)%Z = false |- _ => apply Z.ltb_ge in H
  | H : (_ <=? _)%Z = true |- _ => apply Z.leb_le in H
  | H : (_ <=? _)%Z = false |- _ => apply Z.leb_gt in H
  | H : (_ && _) = true |- _ => apply andb_true_iff in H; destruct H
  | H : (_ || _) = false |- _ => apply orb_false_iff in H; destruct H
  | H : negb _ = true |- _ => apply negb_true_iff in H
  | H : negb _ = false |- _ => apply negb_false_iff in H
  | |- (_ =? _)%string = true => apply String.eqb_eq
  | |- (_ =? _)%string = false => apply String.eqb_neq
  | |- (_ && _) = true => apply andb_true_iff; split
  end.

(** Case analysis on the innermost undecided test of goal or hypotheses. *)
Ltac cases :=
  repeat (case_match; simplify_eq/=); bool_simp; simplify_eq/=.

(** ** Tables: a SQL table is the list of its rows in insertion order *)

Section Table.
Context {row : Type}.

(** [SELECT ... WHERE p] of one row. *)
Definition sel (p : row → bool) (t : list row) : option row := List.find p t.

(** [UPDATE ... SET f WHERE p]. *)
Definition upd (p : row → bool) (f : row → row) (t : list row) : list row :=
  List.map (λ r, if p r then f r else r) t.

(** [DELETE ... WHERE p]. *)
Definition del (p : row → bool) (t : list row) : list row :=
  List.filter (λ r, negb (p r)) t.

(** [SELECT COUNT( * ) ... WHERE p]. *)
Definition cnt (p : row → bool) (t : list row) : nat :=
  List.length (List.filter p t).
End Table.

Section TableFacts.
Context {row : Type}.
Implicit Types (p q : row → bool) (f : row → row) (t : list row).

Lemma sel_Some p t r : sel p t = Some r → r ∈ t ∧ p r = true.
Proof.
  intros H. apply List.find_some in H as [H ?]. by apply list_elem_of_In in H.
Qed.

Lemma sel_None p t r : sel p t = None → r ∈ t → p r = false.
Proof. intros H Hin. eapply List.find_none; [exact H|]. by apply list_elem_of_In. Qed.

Lemma sel_is_Some p t r : r ∈ t → p r = true → ∃ r', sel p t = Some r'.
Proof.
  intros Hin Hp. destruct (sel p t) as [r'|] eqn:E; [by eexists|].
  rewrite (sel_None _ _ _ E Hin) in Hp. done.
Qed.

Lemma elem_of_upd p f t r :
  r ∈ upd p f t ↔ ∃ r0, r0 ∈ t ∧ r = if p r0 then f r0 else r0.
Proof.
  unfold upd. rewrite list_elem_of_In, List.in_map_iff.
  setoid_rewrite list_elem_of_In.
  split; intros (r0 & H1 & H2); exists r0; auto.
Qed.

Lemma elem_of_del p t r : r ∈ del p t ↔ r ∈ t ∧ p r = false.
Proof.
  unfold del. rewrite !list_elem_of_In, List.filter_In, negb_true_iff. done.
Qed.

(** An update that does not change what [p] reads commutes with selection. *)
Lemma sel_upd p q f t :
  (∀ r, p (f r) = p r) →
  sel p (upd q f t) = (λ r, if q r then f r else r) <$> sel p t.
Proof.
  intros Hp. induction t as [|r t IH]; [done|]. simpl.
  destruct (q r) eqn:Hq; rewrite ?Hp; destruct (p r); simpl; rewrite ?Hq; done.
Qed.

Lemma sel_app p t t' : sel p (t ++ t') = match sel p t with Some r => Some r | None => sel p t' end.
Proof. induction t as [|r t IH]; [done|]. simpl. by destruct (p r). Qed.

(** Deleting other rows does not change what is selected. *)
Lemma sel_del p q t : (∀ r, p r = true → q r = false) → sel p (del q t) = sel p t.
Proof.
  intros Hpq. induction t as [|r t IH]; [done|]. simpl. destruct (p r) eqn:Ep.
  - rewrite (Hpq r Ep). simpl. by rewrite Ep.
  - destruct (q r); simpl; [|rewrite Ep]; done.
Qed.

(** A row is selected by a key that no other row has. *)
Lemma sel_key {K} (key : row → K) p t r :
  (∀ r', p r' = true ↔ key r' = key r) →
  NoDup (key <$> t) → r ∈ t → sel p t = Some r.
Proof.
  intros Hp. induction t as [|r' t IH]; intros Hnd Hin; [by apply not_elem_of_nil in Hin|].
  rewrite fmap_cons, list.NoDup_cons in Hnd. destruct Hnd as [Hni Hnd]. simpl.
  destruct (p r') eqn:E.
  - apply Hp in E. apply elem_of_cons in Hin as [->|Hin]; [done|].
    exfalso. apply Hni. rewrite E. by apply list_elem_of_fmap_2.
  - apply elem_of_cons in Hin as [<-|Hin]; [|auto].
    assert (p r = true) by (by apply Hp). congruence.
Qed.

Lemma length_upd p f t : length (upd p f t) = length t.
Proof. apply List.length_map. Qed.

Lemma map_upd {B} (g : row → B) p f t :
  (∀ r, g (f r) = g r) → List.map g (upd p f t) = List.map g t.
Proof.
  intros Hg. unfold upd. rewrite List.map_map. apply List.map_ext.
  intros r. by destruct (p r).
Qed.

Lemma cnt_app p t t' : cnt p (t ++ t') = cnt p t + cnt p t'.
Proof. unfold cnt. by rewrite List.filter_app, List.length_app. Qed.

Lemma cnt_cons p r t : cnt p (r :: t) = (if p r then 1 else 0) + cnt p t.
Proof. unfold cnt. simpl. by destruct (p r). Qed.

Lemma cnt_0 p t : cnt p t = 0 ↔ ∀ r, r ∈ t → p r = false.
Proof.
  induction t as [|r t IH]; simpl.
  - split; [|done]. intros _ r Hr. by apply not_elem_of_nil in Hr.
  - rewrite cnt_cons. destruct (p r) eqn:E; simpl.
    + split; [done|]. intros H. rewrite (H r) in E by left. done.
    + rewrite IH. setoid_rewrite elem_of_cons. naive_solver.
Qed.

Lemma cnt_pos p t r : r ∈ t → p r = true → 0 < cnt p t.
Proof.
  intros Hin Hp. destruct (cnt p t) eqn:E; [|lia].
  rewrite cnt_0 in E. by rewrite E in Hp.
Qed.

(** An update that creates no row of [p] does not increase their number... *)
Lemma cnt_upd_le p q f t :
  (∀ r, p (f r) = true → p r = true) → cnt p (upd q f t) ≤ cnt p t.
Proof.
  intros Hf. induction t as [|r t IH]; [done|].
  simpl. rewrite !cnt_cons. pose proof (Hf r).
  destruct (q r), (p (f r)) eqn:?, (p r) eqn:?; simpl; try lia;
    exfalso; destruct (p r); naive_solver.
Qed.

(** ... and one that takes a row of [p] out of [p] decreases it. *)
Lemma cnt_upd_lt p q f t r :
  (∀ r, p (f r) = true → p r = true) →
  r ∈ t → q r = true → p r = true → p (f r) = false →
  cnt p (upd q f t) < cnt p t.
Proof.
  intros Hf Hin Hq Hp Hfr. induction t as [|r' t IH]; [by apply not_elem_of_nil in Hin|].
  simpl. rewrite !cnt_cons. apply elem_of_cons in Hin as [->|Hin].
  - rewrite Hq, Hp, Hfr. pose proof (cnt_upd_le p q f t Hf). simpl. lia.
  - specialize (IH Hin). pose proof (Hf r').
    destruct (q r'), (p (f r')) eqn:?, (p r') eqn:?; simpl; try lia;
      exfalso; naive_solver.
Qed.

Lemma cnt_del_le p q t : cnt p (del q t) ≤ cnt p t.
Proof.
  unfold cnt, del. induction t as [|r t IH]; [done|]. simpl.
  destruct (negb (q r)); simpl; destruct (p r); simpl; lia.
Qed.

Lemma upd_upd p f g t : (∀ r, p (g r) = p r) → upd p f (upd p g t) = upd p (λ r, f (g r)) t.
Proof.
  intros Hg. induction t as [|r t IH]; [done|]. simpl. rewrite IH.
  destruct (p r) eqn:E; by rewrite ?Hg, E.
Qed.

Lemma upd_ext p f g t : (∀ r, r ∈ t → p r = true → f r = g r) → upd p f t = upd p g t.
Proof.
  intros Hg. apply List.map_ext_in. intros r Hr%list_elem_of_In. destruct (p r) eqn:E; auto.
Qed.

Lemma upd_id p t : upd p (λ r, r) t = t.
Proof. unfold upd. induction t as [|r t IH]; [done|]. simpl. rewrite IH. by destruct (p r). Qed.

Lemma upd_none p f t : (∀ r, r ∈ t → p r = false) → upd p f t = t.
Proof.
  intros Hp. induction t as [|r t IH]; [done|]. simpl. rewrite Hp by left. f_equal.
  apply IH. intros; apply Hp; by right.
Qed.

(** An update that does not change what [p] reads. *)
Lemma cnt_upd_eq p q f t : (∀ r, p (f r) = p r) → cnt p (upd q f t) = cnt p t.
Proof.
  intros Hf. induction t as [|r t IH]; [done|]. simpl. rewrite !cnt_cons, IH.
  destruct (q r); by rewrite ?Hf.
Qed.

(** Changing the one row with a key adds at most one row of [p]. *)
Lemma cnt_upd_key {K} (key : row → K) p q f t id :
  (∀ r, q r = true → key r = id) → NoDup (key <$> t) → cnt p (upd q f t) ≤ cnt p t + 1.
Proof.
  intros Hq. induction t as [|r t IH]; [intros; apply Nat.le_0_l|]. rewrite fmap_cons, list.NoDup_cons. intros [Hr Ht].
  simpl. rewrite !cnt_cons. destruct (q r) eqn:E.
  - assert (G : upd q f t = t).
    { clear IH Ht. induction t as [|x t IH]; [done|]. rewrite fmap_cons, elem_of_cons in Hr. simpl.
      destruct (q x) eqn:E2.
      - exfalso. apply Hr. left. by rewrite (Hq r E), (Hq x E2).
      - f_equal. apply IH. tauto. }
    rewrite G. destruct (p (f r)), (p r); simpl; lia.
  - specialize (IH Ht). lia.
Qed.
End TableFacts.

(** Rows of other keys are kept by an append, an update and a deletion of the
    rows of a key. *)
Lemma append_other {A} (key : A → string) x l y : key x ≠ key y → y ∈ l ++ [x] ↔ y ∈ l.
Proof. intros Hk. rewrite elem_of_app, list_elem_of_singleton. naive_solver. Qed.
Lemma del_key {A} (key : A → string) k l y : key y ≠ k → y ∈ del (λ x, key x =s k) l ↔ y ∈ l.
Proof. intros Hk. rewrite elem_of_del, String.eqb_neq. tauto. Qed.
Lemma upd_key {A} (key : A → string) k f l y : key y ≠ k → (∀ x, key (f x) = key x) → y ∈ upd (λ x, key x =s k) f l ↔ y ∈ l.
Proof.
  intros Hk Hf. rewrite elem_of_upd. split.
  - intros (x & Hx & ->). destruct (key x =s k) eqn:E; [|done]. apply String.eqb_eq in E. by rewrite Hf in Hk.
  - intros Hy. exists y. split; [done|]. apply String.eqb_neq in Hk. by rewrite Hk.
Qed.

(** Only the rows of the key [k] may differ. *)
Definition same_but {A} (key : A → string) (k : string) (l l' : list A) : Prop := ∀ y, key y ≠ k → y ∈ l' ↔ y ∈ l.

Section SameBut.
Context {A : Type} (key : A → string) (k : string).
Lemma same_but_refl l : same_but key k l l.
Proof. done. Qed.
Lemma same_but_append x l l' : key x = k → same_but key k l l' → same_but key k l (l' ++ [x]).
Proof. intros Hx Hl y Hy. rewrite (append_other key) by congruence. by apply Hl. Qed.
Lemma same_but_upd f l l' : (∀ x, key (f x) = key x) → same_but key k l l' → same_but key k l (upd (λ x, key x =s k) f l').
Proof. intros Hf Hl y Hy. rewrite upd_key by done. by apply Hl. Qed.
Lemma same_but_del l l' : same_but key k l l' → same_but key k l (del (λ x, key x =s k) l').
Proof. intros Hl y Hy. rewrite del_key by done. by apply Hl. Qed.
End SameBut.

#[export] Hint Resolve cnt_upd_le cnt_del_le : prexel.

Lemma existsb_false_elem {A} (p : A → bool) l x : List.existsb p l = false → x ∈ l → p x = false.
Proof.
  intros E Hx. apply not_true_iff_false. intros Hp. apply not_true_iff_false in E. apply E.
  apply List.existsb_exists. exists x. split; [by apply list_elem_of_In|done].
Qed.

Lemma existsb_witness {A} (p : A → bool) l : List.existsb p l = true → ∃ x, x ∈ l ∧ p x = true.
Proof. intros (x & Hx & ?)%List.existsb_exists. exists x. split; [by apply list_elem_of_In|done]. Qed.

Lemma NoDup_snoc {A} (l : list A) x : NoDup l → x ∉ l → NoDup (l ++ [x]).
Proof.
  intros Hl Hx. apply list.NoDup_app. split; [done|]. split; [|apply NoDup_singleton].
  by intros y Hy ->%list_elem_of_singleton.
Qed.

Lemma NoDup_fmap_filter {A B} (g : A → B) p l : NoDup (g <$> l) → NoDup (g <$> List.filter p l).
Proof.
  induction l as [|x l IH]; [done|]. rewrite fmap_cons, list.NoDup_cons. intros [Hx Hl]. simpl.
  destruct (p x); [|auto]. rewrite fmap_cons, list.NoDup_cons. split; [|auto].
  intros (y & Hy & Hin)%list_elem_of_fmap. apply Hx. rewrite Hy. apply list_elem_of_fmap_2.
  apply list_elem_of_In, List.filter_In in Hin as [? _]. by apply list_elem_of_In.
Qed.

Lemma NoDup_fmap_inj {A B} (g : A → B) l x y : NoDup (g <$> l) → x ∈ l → y ∈ l → g x = g y → x = y.
Proof.
  induction l as [|z l IH]; [by intros _ ?%not_elem_of_nil|]. rewrite fmap_cons, list.NoDup_cons.
  intros [Hz Hl] [->|Hx]%elem_of_cons [->|Hy]%elem_of_cons E; [done| | |auto]; exfalso; apply Hz.
  - rewrite E. by apply list_elem_of_fmap_2.
  - rewrite <- E. by apply list_elem_of_fmap_2.
Qed.

Lemma filter_nothing {A} (p : A → bool) l : (∀ x, x ∈ l → p x = false) → List.filter p l = [].
Proof.
  induction l as [|x l IH]; [done|]. intros Hp. simpl. rewrite Hp by left. apply IH. intros; apply Hp; by right.
Qed.

Lemma filter_same {A} (p q : A → bool) l : (∀ x, x ∈ l → p x = q x) → List.filter p l = List.filter q l.
Proof.
  induction l as [|x l IH]; [done|]. intros Hp. simpl. rewrite Hp, IH; [done| |left]. intros; apply Hp; by right.
Qed.

Lemma elem_of_filter_b {A} (p : A → bool) l x : x ∈ List.filter p l ↔ x ∈ l ∧ p x = true.
Proof. by rewrite !list_elem_of_In, List.filter_In. Qed.

(** ** Sorting: [ORDER BY], sort.Strings, sort.Slice

    Elements that compare equal keep their order. *)

Section Sort.
Context {A : Type} (le : A → A → bool).

Fixpoint insert_by (x : A) (l : list A) : list A :=
  match l with
  | [] => [x]
  | y :: l' => if le x y then x :: l else y :: insert_by x l'
  end.
Definition sort_by (l : list A) : list A := foldr insert_by [] l.

Lemma insert_by_perm x l : Permutation (insert_by x l) (x :: l).
Proof.
  induction l as [|y l IH]; simpl; [done|]. destruct (le x y); [done|]. rewrite IH. apply perm_swap.
Qed.

Lemma sort_by_perm l : Permutation (sort_by l) l.
Proof. induction l as [|x l IH]; simpl; [done|]. rewrite insert_by_perm. by constructor. Qed.

Lemma sort_by_elem x l : x ∈ sort_by l ↔ x ∈ l.
Proof. rewrite !list_elem_of_In. split; apply Permutation_in; [|symmetry]; apply sort_by_perm. Qed.

Hypothesis le_total : ∀ x y, le x y = false → le y x = true.

Lemma insert_by_sorted x l : Sorted (λ a b, le a b = true) l → Sorted (λ a b, le a b = true) (insert_by x l).
Proof.
  induction 1 as [|y l Hs IH Hd]; simpl; [by repeat constructor|].
  destruct (le x y) eqn:E; [by repeat constructor|]. constructor; [done|]. apply le_total in E.
  destruct l as [|z l]; simpl in *; [by constructor|]. destruct (le x z); constructor; [done|by inversion Hd].
Qed.

Lemma sort_by_sorted l : Sorted (λ a b, le a b = true) (sort_by l).
Proof. induction l; simpl; [constructor|]. by apply insert_by_sorted. Qed.

Hypothesis le_trans : ∀ x y z, le x y = true → le y z = true → le x z = true.

Lemma sort_by_strongly l : StronglySorted (λ a b, le a b = true) (sort_by l).
Proof. apply Sorted_StronglySorted; [intros x y z; apply le_trans|apply sort_by_sorted]. Qed.

(** The head is a least element. *)
Lemma sort_by_head l x : head (sort_by l) = Some x → x ∈ l ∧ ∀ y, y ∈ l → y ≠ x → le x y = true.
Proof.
  intros Hx. pose proof (sort_by_strongly l) as Hs. destruct (sort_by l) as [|x' t] eqn:E; [done|]. simplify_eq/=.
  split; [rewrite <- sort_by_elem, E; left|]. intros y Hy Hne. rewrite <- sort_by_elem, E in Hy.
  apply elem_of_cons in Hy as [->|Hy]; [done|]. inversion_clear Hs as [|? ? _ Hall].
  rewrite List.Forall_forall in Hall. by apply Hall, list_elem_of_In.
Qed.
End Sort.

(** The order of strings. *)
Lemma string_leb_total x y : String.leb x y = false → String.leb y x = true.
Proof. unfold String.leb. rewrite String.compare_antisym. by destruct (String.compare y x). Qed.

Lemma string_leb_trans x y z : String.leb x y = true → String.leb y z = true → String.leb x z = true.
Proof.
  unfold String.leb. revert y z. induction x as [|a x IH]; intros [|b y] [|c z]; simpl; try done.
  unfold Ascii.compare. specialize (IH y z).
  destruct (N.compare_spec (N_of_ascii a) (N_of_ascii b)), (N.compare_spec (N_of_ascii b) (N_of_ascii c)),
    (N.compare_spec (N_of_ascii a) (N_of_ascii c)); try done; lia.
Qed.
