(* ===== verification/Effects.v ===== *)
(** * Effects

    The effect discipline shared by the services.  A service method is a
    computation [M S E A] over the state [S] it owns, which returns a value of
    [A] or an error of [E].  Every SQL statement and every call of a library
    that can fail consumes one element of a list of faults chosen by the
    environment: [true] makes the call fail.  A theorem that quantifies over
    the faults therefore covers every way in which the storage can fail in the
    middle of a method; [run] is the execution in which nothing fails.

    As in the Go code an error return does not undo what was written before
    it, unless the writes happened inside a transaction ([tx]). *)

From S2P Require Import Prelude.

Definition M (S E A : Type) : Type := S → list bool → S * list bool * (E + A).

Section Operations.
Context {S E : Type}.

Definition ret {A} (a : A) : M S E A := λ s fs, (s, fs, inr a).

Definition throw {A} (e : E) : M S E A := λ s fs, (s, fs, inl e).

Definition bind {A B} (m : M S E A) (k : A → M S E B) : M S E B := λ s fs,
  match m s fs with
  | (s', fs', inl e) => (s', fs', inl e)
  | (s', fs', inr a) => k a s' fs'
  end.

(** A call that may fail with [e]; a failed call has no effect. *)
Definition fallible {A} (e : E) (f : S → S * A) : M S E A := λ s fs,
  match fs with
  | true :: fs' => (s, fs', inl e)
  | _ => ((f s).1, tail fs, inr (f s).2)
  end.

(** A statement that may additionally be rejected by a constraint. *)
Definition checked {A} (e : E) (f : S → E + S * A) : M S E A := λ s fs,
  match fs with
  | true :: fs' => (s, fs', inl e)
  | _ => match f s with
         | inl e' => (s, tail fs, inl e')
         | inr (s', a) => (s', tail fs, inr a)
         end
  end.

Definition query {A} (e : E) (f : S → A) : M S E A := fallible e (λ s, (s, f s)).
Definition exec (e : E) (f : S → S) : M S E unit := fallible e (λ s, (f s, tt)).

(** In-memory state: reads and writes that cannot fail. *)
Definition gets {A} (f : S → A) : M S E A := λ s fs, (s, fs, inr (f s)).
Definition modify (f : S → S) : M S E unit := λ s fs, (f s, fs, inr tt).

(** The result of a pure validation. *)
Definition of_result {A} (r : E + A) : M S E A := λ s fs, (s, fs, r).

(** [err := m(); if err != nil {...}]: the error becomes a value. *)
Definition attempt {A} (m : M S E A) : M S E (E + A) := λ s fs,
  match m s fs with (s', fs', r) => (s', fs', inr r) end.

(** [_ = m()]: the error is dropped. *)
Definition ignore {A} (m : M S E A) : M S E unit := λ s fs,
  match m s fs with (s', fs', _) => (s', fs', inr tt) end.

(** [tx, err := db.Begin(); defer tx.Rollback(); ...; tx.Commit()]. *)
Definition tx {A} (ebegin ecommit : E) (body : M S E A) : M S E A := λ s fs,
  match fs with
  | true :: fs' => (s, fs', inl ebegin)
  | _ =>
    match body s (tail fs) with
    | (_, fs', inl e) => (s, fs', inl e)
    | (s', fs', inr a) =>
      match fs' with
      | true :: fs'' => (s, fs'', inl ecommit)
      | _ => (s', tail fs', inr a)
      end
    end
  end.

(** [for _, x := range l { f(x) }] with early return on error. *)
Fixpoint each {A} (f : A → M S E unit) (l : list A) : M S E unit :=
  match l with
  | [] => ret tt
  | x :: l => bind (f x) (λ _, each f l)
  end.

(** The execution in which no call fails. *)
Definition run {A} (m : M S E A) (s : S) : S * (E + A) :=
  let '(s', _, r) := m s [] in (s', r).
End Operations.

#[export] Instance M_ret {S E} : MRet (M S E) := λ A a, ret a.
#[export] Instance M_bind {S E} : MBind (M S E) := λ A B k m, bind m k.

(** Errors without state: the early returns of a validation. *)
#[export] Instance sum_ret {E} : MRet (sum E) := λ A a, inr a.
#[export] Instance sum_bind {E} : MBind (sum E) := λ A B k m,
  match m with inl e => inl e | inr a => k a end.

(** [when c m]: an [if] without [else]. *)
Definition when {S E} (c : bool) (m : M S E unit) : M S E unit :=
  if c then m else ret tt.

(** A computation on a component [S] of a larger state [T], its errors wrapped. *)
Definition zoom {S T E F A} (get : T → S) (put : S → T → T) (wrap : E → F)
    (m : M S E A) : M T F A := λ t fs,
  match m (get t) fs with
  | (s', fs', inl e) => (put s' t, fs', inl (wrap e))
  | (s', fs', inr a) => (put s' t, fs', inr a)
  end.

(** ** Weakest preconditions

    [wp m Q s]: run from [s], under every choice of faults, [m] ends in a
    state and with a result that satisfy [Q]. *)

Definition wp {S E A} (m : M S E A) (Q : S → E + A → Prop) (s : S) : Prop :=
  ∀ fs, Q (m s fs).1.1 (m s fs).2.

(** [preserves I m]: [I] is an invariant of [m], whatever fails in it. *)
Definition preserves {S E A} (I : S → Prop) (m : M S E A) : Prop :=
  ∀ s, I s → wp m (λ s' _, I s') s.

Section Wp.
Context {S E : Type}.
Implicit Types s : S.

Lemma wp_mono {A} (m : M S E A) (Q Q' : S → E + A → Prop) s :
  wp m Q s → (∀ s' r, Q s' r → Q' s' r) → wp m Q' s.
Proof. intros H HQ fs. apply HQ, H. Qed.

Lemma wp_and {A} (m : M S E A) (Q Q' : S → E + A → Prop) s :
  wp m Q s → wp m Q' s → wp m (λ s' r, Q s' r ∧ Q' s' r) s.
Proof. intros H1 H2 fs. split; [apply H1|apply H2]. Qed.

Lemma wp_run {A} (m : M S E A) (Q : S → E + A → Prop) s :
  wp m Q s → Q (run m s).1 (run m s).2.
Proof. intros H. specialize (H []). unfold run. by destruct (m s []) as [[??] ?]. Qed.

Lemma wp_ret {A} (a : A) (Q : S → E + A → Prop) s : Q s (inr a) → wp (ret a) Q s.
Proof. by intros H fs. Qed.

Lemma wp_throw {A} (e : E) (Q : S → E + A → Prop) s : Q s (inl e) → wp (throw e) Q s.
Proof. by intros H fs. Qed.

Lemma wp_bind {A B} (m : M S E A) (k : A → M S E B) (Q : S → E + B → Prop) s :
  wp m (λ s' r, match r with inl e => Q s' (inl e) | inr a => wp (k a) Q s' end) s →
  wp (bind m k) Q s.
Proof.
  intros H fs. specialize (H fs). unfold bind.
  destruct (m s fs) as [[s' fs'] [e|a]]; [exact H | apply H].
Qed.

Lemma wp_fallible {A} (e : E) (f : S → S * A) (Q : S → E + A → Prop) s :
  Q s (inl e) → Q (f s).1 (inr (f s).2) → wp (fallible e f) Q s.
Proof. intros H1 H2 [|[] fs]; simpl; done. Qed.

Lemma wp_query {A} (e : E) (f : S → A) (Q : S → E + A → Prop) s :
  Q s (inl e) → Q s (inr (f s)) → wp (query e f) Q s.
Proof. intros. by apply wp_fallible. Qed.

Lemma wp_exec (e : E) (f : S → S) (Q : S → E + unit → Prop) s :
  Q s (inl e) → Q (f s) (inr tt) → wp (exec e f) Q s.
Proof. intros. by apply wp_fallible. Qed.

Lemma wp_checked {A} (e : E) (f : S → E + S * A) (Q : S → E + A → Prop) s :
  Q s (inl e) →
  (match f s with inl e' => Q s (inl e') | inr (s', a) => Q s' (inr a) end) →
  wp (checked e f) Q s.
Proof. intros H1 H2 [|[] fs]; simpl; try done; destruct (f s) as [|[??]]; done. Qed.

Lemma wp_gets {A} (f : S → A) (Q : S → E + A → Prop) s :
  Q s (inr (f s)) → wp (gets f) Q s.
Proof. by intros H fs. Qed.

Lemma wp_modify (f : S → S) (Q : S → E + unit → Prop) s :
  Q (f s) (inr tt) → wp (modify f) Q s.
Proof. by intros H fs. Qed.

Lemma wp_of_result {A} (r : E + A) (Q : S → E + A → Prop) s : Q s r → wp (of_result r) Q s.
Proof. by intros H fs. Qed.

Lemma wp_attempt {A} (m : M S E A) (Q : S → E + (E + A) → Prop) s :
  wp m (λ s' r, Q s' (inr r)) s → wp (attempt m) Q s.
Proof.
  intros H fs. specialize (H fs). unfold attempt. by destruct (m s fs) as [[??] ?].
Qed.

Lemma wp_ignore {A} (m : M S E A) (Q : S → E + unit → Prop) s :
  wp m (λ s' _, Q s' (inr tt)) s → wp (ignore m) Q s.
Proof.
  intros H fs. specialize (H fs). unfold ignore. by destruct (m s fs) as [[??] ?].
Qed.

Lemma wp_tx {A} (eb ec : E) (body : M S E A) (Q : S → E + A → Prop) s :
  Q s (inl eb) →
  wp body (λ s' r, match r with
                   | inl e => Q s (inl e)
                   | inr a => Q s (inl ec) ∧ Q s' (inr a)
                   end) s →
  wp (tx eb ec body) Q s.
Proof.
  intros Hb H fs. unfold tx. destruct fs as [|[] fs]; simpl; [|done|].
  - specialize (H []). destruct (body s []) as [[s' fs'] [e|a]]; [done|].
    destruct H. by destruct fs' as [|[] ?].
  - specialize (H fs). destruct (body s fs) as [[s' fs'] [e|a]]; [done|].
    destruct H. by destruct fs' as [|[] ?].
Qed.

Lemma wp_zoom {T F A} (get : T → S) (put : S → T → T) (wrap : E → F) (m : M S E A) (Q : T → F + A → Prop) t :
  wp m (λ s r, Q (put s t) (match r with inl e => inl (wrap e) | inr a => inr a end)) (get t) →
  wp (zoom get put wrap m) Q t.
Proof. intros HW fs. specialize (HW fs). unfold zoom. by destruct (m (get t) fs) as [[s' fs'] [e|a]]. Qed.

Lemma wp_if {A} (b : bool) (m n : M S E A) (Q : S → E + A → Prop) s :
  (b = true → wp m Q s) → (b = false → wp n Q s) → wp (if b then m else n) Q s.
Proof. destruct b; auto. Qed.

(** [if b { return e }]. *)
Lemma wp_guard {B} (b : bool) (e : E) (k : unit → M S E B) (Q : S → E + B → Prop) s :
  Q s (inl e) → (b = false → wp (k tt) Q s) → wp (bind (when b (throw e)) k) Q s.
Proof. intros He Hk. apply wp_bind. destruct b; [by apply wp_throw|]. by apply wp_ret, Hk. Qed.

(** A loop keeps what each of its iterations keeps. *)
Lemma wp_each {A} (f : A → M S E unit) (I : S → Prop) (Q : S → E + unit → Prop) l s :
  I s →
  (∀ x s', x ∈ l → I s' → wp (f x) (λ s'' r, match r with
                                            | inl e => Q s'' (inl e)
                                            | inr _ => I s''
                                            end) s') →
  (∀ s', I s' → Q s' (inr tt)) →
  wp (each f l) Q s.
Proof.
  intros HI Hf HQ. revert s HI. induction l as [|x l IH]; intros s HI; simpl.
  - apply wp_ret; auto.
  - apply wp_bind. eapply wp_mono; [apply Hf; [left|done]|].
    intros s' [e|[]]; [done|]. intros. apply IH; [|done]. intros; apply Hf; [by right|done].
Qed.

(** [run] of the primitives, for the fault-free executions. *)
Lemma run_bind {A B} (m : M S E A) (k : A → M S E B) s s' a :
  m s [] = (s', [], inr a) → run (bind m k) s = run (k a) s'.
Proof. intros H. unfold run, bind. by rewrite H. Qed.
End Wp.

(** ** Fault-free executions

    [runs m s s' a]: when no call fails, [m] takes [s] to [s'] and returns [a]. *)

Definition runs {S E A} (m : M S E A) (s s' : S) (a : A) : Prop := m s [] = (s', [], inr a).

Section Runs.
Context {S E : Type}.

Lemma runs_bind {A B} (m : M S E A) (k : A → M S E B) s s1 s2 a b : runs m s s1 a → runs (k a) s1 s2 b → runs (bind m k) s s2 b.
Proof. intros H1 H2. unfold runs, bind. by rewrite H1. Qed.

Lemma runs_ret {A} s (a : A) : runs (ret (S := S) (E := E) a) s s a.
Proof. done. Qed.

Lemma runs_of_result {A} s (a : A) : runs (of_result (S := S) (E := E) (inr a)) s s a.
Proof. done. Qed.

Lemma runs_query {A} (e : E) (f : S → A) s a : f s = a → runs (query e f) s s a.
Proof. by intros <-. Qed.

Lemma runs_fallible {A} (e : E) (f : S → S * A) s : runs (fallible e f) s (f s).1 (f s).2.
Proof. done. Qed.

Lemma runs_exec (e : E) (f : S → S) s : runs (exec e f) s (f s) tt.
Proof. done. Qed.

Lemma runs_checked {A} (e : E) (f : S → E + S * A) s s' a : f s = inr (s', a) → runs (checked e f) s s' a.
Proof. intros Hf. unfold runs, checked. by rewrite Hf. Qed.

Lemma runs_attempt {A} (m : M S E A) s s' a : runs m s s' a → runs (attempt m) s s' (inr a).
Proof. intros H. unfold runs, attempt. by rewrite H. Qed.

Lemma runs_ignore {A} (m : M S E A) s s' a : runs m s s' a → runs (ignore m) s s' tt.
Proof. intros H. unfold runs, ignore. by rewrite H. Qed.

Lemma runs_guard {B} (b : bool) (e : E) (k : unit → M S E B) s s' c : b = false → runs (k tt) s s' c → runs (bind (when b (throw e)) k) s s' c.
Proof. by intros ->. Qed.

Lemma runs_run {A} (m : M S E A) s s' a : runs m s s' a → run m s = (s', inr a).
Proof. intros H. unfold run. by rewrite H. Qed.

(** A loop whose iterations each establish something that the later ones keep. *)
Lemma runs_each {A} (f : A → M S E unit) (R : S → S → Prop) (P : A → S → Prop) `{!PreOrder R} l :
  (∀ x s, x ∈ l → ∃ s', runs (f x) s s' tt ∧ R s s' ∧ P x s') → (∀ x s s', P x s → R s s' → P x s') →
  ∀ s, ∃ s', runs (each f l) s s' tt ∧ R s s' ∧ ∀ x, x ∈ l → P x s'.
Proof.
  intros Hf HP. induction l as [|x l IH]; intros s.
  - exists s. split_and!; [done|done|]. by intros x ?%not_elem_of_nil.
  - destruct (Hf x s) as (s1 & H1 & R1 & P1); [by left|].
    destruct (IH ltac:(intros; apply Hf; by right) s1) as (s2 & H2 & R2 & P2).
    exists s2. split_and!; [by eapply runs_bind|by transitivity s1|].
    intros y [->|Hy]%elem_of_cons; [by eapply HP|by apply P2].
Qed.

(** What every execution satisfies, the fault-free one does. *)
Lemma runs_wp {A} (m : M S E A) (Q : S → E + A → Prop) s s' a : runs m s s' a → wp m Q s → Q s' (inr a).
Proof. intros H HQ. specialize (HQ []). by rewrite H in HQ. Qed.
End Runs.

(** ** Results

    [returns P m]: whatever fails and wherever it starts, a value returned by
    [m] satisfies [P]. *)

Definition returns {S E A} (P : A → Prop) (m : M S E A) : Prop :=
  ∀ s, wp m (λ _ r, ∀ a, r = inr a → P a) s.

Lemma returns_bind {S E A B} (P : B → Prop) (m : M S E A) (k : A → M S E B) :
  (∀ a, returns P (k a)) → returns P (mbind k m).
Proof.
  intros Hk s. apply wp_bind. intros fs. destruct (m s fs) as [[s' fs'] [e|a]]; simpl; [done|apply Hk].
Qed.

Lemma returns_bind_with {S E A B} (P : A → Prop) (Q : B → Prop) (m : M S E A) (k : A → M S E B) :
  returns P m → (∀ a, P a → returns Q (k a)) → returns Q (mbind k m).
Proof.
  intros Hm Hk s. apply wp_bind. intros fs. pose proof (Hm s fs) as HP.
  destruct (m s fs) as [[s' fs'] [e|a]]; simpl; [done|]. by apply Hk, HP.
Qed.

Lemma returns_ret {S E A} (P : A → Prop) (a : A) : P a → returns P (ret (S := S) (E := E) a).
Proof. intros HP s fs x. by intros [= <-]. Qed.

Lemma returns_throw {S E A} (P : A → Prop) (e : E) : returns P (throw (S := S) (A := A) e).
Proof. by intros s fs x. Qed.

(** ** Invariants *)

Section Preserves.
Context {S E : Type}.
Implicit Types (I : S → Prop).

Lemma preserves_bind {A B} I (m : M S E A) (k : A → M S E B) :
  preserves I m → (∀ a, preserves I (k a)) → preserves I (mbind k m).
Proof.
  intros Hm Hk d Hd. apply wp_bind. eapply wp_mono; [by apply Hm|].
  intros d' [e|a] H; [done|by apply Hk].
Qed.

Lemma preserves_and {A} I I' (m : M S E A) :
  preserves I m → preserves I' m → preserves (λ s, I s ∧ I' s) m.
Proof. intros H1 H2 s [Hs Hs']. by apply wp_and; [apply H1|apply H2]. Qed.

(** The first step of a method keeps [I]; the rest starts from a state in [I]. *)
Lemma wp_keep {A B} I (m : M S E A) (k : A → M S E B) (Q : S → E + B → Prop) s :
  preserves I m → I s → (∀ s' e, I s' → Q s' (inl e)) → (∀ s' a, I s' → wp (k a) Q s') →
  wp (mbind k m) Q s.
Proof. intros Hm Hs He Hk. apply wp_bind. eapply wp_mono; [by apply Hm|]. intros s' [e|a] Hs'; auto. Qed.

Lemma preserves_ret {A} I (a : A) : preserves I (ret (E := E) a).
Proof. intros d Hd. by apply wp_ret. Qed.

Lemma preserves_throw {A} I (e : E) : preserves I (throw (A := A) e).
Proof. intros d Hd. by apply wp_throw. Qed.

Lemma preserves_query {A} I (e : E) (f : S → A) : preserves I (query e f).
Proof. intros d Hd. by apply wp_query. Qed.

Lemma preserves_of_result {A} I (r : E + A) : preserves I (of_result r).
Proof. intros d Hd. by apply wp_of_result. Qed.

Lemma preserves_when I b (m : M S E unit) : preserves I m → preserves I (when b m).
Proof. destruct b; [done|]. intros _ d Hd. by apply wp_ret. Qed.

Lemma preserves_attempt {A} I (m : M S E A) : preserves I m → preserves I (attempt m).
Proof. intros H d Hd. apply wp_attempt. eapply wp_mono; [by apply H|done]. Qed.

Lemma preserves_ignore {A} I (m : M S E A) : preserves I m → preserves I (ignore m).
Proof. intros H d Hd. apply wp_ignore. eapply wp_mono; [by apply H|done]. Qed.

Lemma preserves_exec I (e : E) f : (∀ d, I d → I (f d)) → preserves I (exec e f).
Proof. intros Hf d Hd. apply wp_exec; auto. Qed.

Lemma preserves_modify I f : (∀ d, I d → I (f d)) → preserves I (modify (E := E) f).
Proof. intros Hf d Hd. apply wp_modify; auto. Qed.

Lemma preserves_checked {A} I (e : E) (f : S → E + S * A) :
  (∀ d, I d → match f d with inl _ => True | inr (d', _) => I d' end) → preserves I (checked e f).
Proof.
  intros Hf d Hd. apply wp_checked; [done|]. specialize (Hf d Hd). by destruct (f d) as [|[? ?]].
Qed.

Lemma preserves_tx {A} I (eb ec : E) (body : M S E A) : preserves I body → preserves I (tx eb ec body).
Proof.
  intros H d Hd. apply wp_tx; [done|]. eapply wp_mono; [by apply H|]. by intros d' [e|a].
Qed.

Lemma each_preserves {A} I (f : A → M S E unit) l : (∀ x, preserves I (f x)) → preserves I (each f l).
Proof.
  intros Hf d Hd. apply (wp_each f I); [done| |done].
  intros x d' _ Hd'. eapply wp_mono; [by apply Hf|]. intros d2 [e|[]] H; exact H.
Qed.
End Preserves.

(** ** Stepping through a method

    [wp_go] applies the rules to the head of a method and leaves the
    conditions its branches must establish. *)
Ltac wp_step :=
  match goal with
  | |- wp (mbind _ _) _ _ => apply wp_bind
  | |- wp (bind _ _) _ _ => apply wp_bind
  | |- wp (mret _) _ _ => apply wp_ret
  | |- wp (ret _) _ _ => apply wp_ret
  | |- wp (throw _) _ _ => apply wp_throw
  | |- wp (query _ _) _ _ => apply wp_query
  | |- wp (exec _ _) _ _ => apply wp_exec
  | |- wp (fallible _ _) _ _ => apply wp_fallible
  | |- wp (checked _ _) _ _ => apply wp_checked
  | |- wp (gets _) _ _ => apply wp_gets
  | |- wp (of_result _) _ _ => apply wp_of_result
  | |- wp (modify _) _ _ => apply wp_modify
  | |- wp (attempt _) _ _ => apply wp_attempt
  | |- wp (ignore _) _ _ => apply wp_ignore
  | |- wp (tx _ _ _) _ _ => apply wp_tx
  | |- wp (when _ _) _ _ => unfold when
  | |- wp (if _ then _ else _) _ _ => apply wp_if; intros
  | |- wp (match ?x with _ => _ end) _ _ => destruct x eqn:?
  end; cbv beta iota zeta; simpl.

Ltac wp_go := repeat wp_step.
