(* ===== verification/GoStrings.v ===== *)
(** * Go strings

    The functions of Go's [strings], [unicode], [unicode/utf8] and
    [encoding/base64] packages the services use.  A Go string is its bytes, a
    Rocq [string]; a rune is a [Z].  The Unicode tables above U+007F are a
    class of functions ([Unicode]); the ASCII part is written out, and
    [ascii_only] is an instance for evaluation. *)

From S2P Require Import Prelude.

Definition byte (c : ascii) : Z := Z.of_N (N_of_ascii c).
Definition of_byte (z : Z) : ascii := ascii_of_N (Z.to_N z).
Definition in_range (lo hi z : Z) : bool := (lo <=? z)%Z && (z <=? hi)%Z.
Definition len (s : string) : Z := Z.of_nat (String.length s).

(** ** Substrings *)

Definition HasPrefix (s p : string) : bool := String.prefix p s.

Definition HasSuffix (s p : string) : bool :=
  let n := String.length s in let k := String.length p in
  (k <=? n)%nat && (String.substring (n - k) k s =s p).

(** [s[n:]] and [s[:n]]. *)
Definition drop_s (n : nat) (s : string) : string := String.substring n (String.length s - n) s.
Definition take_s (n : nat) (s : string) : string := String.substring 0 n s.

Definition TrimPrefix (s p : string) : string :=
  if HasPrefix s p then drop_s (String.length p) s else s.

Definition TrimSuffix (s p : string) : string :=
  if HasSuffix s p then take_s (String.length s - String.length p) s else s.

(** [strings.Index]: [None] is -1. *)
Definition Index (s sub : string) : option nat := String.index 0 sub s.
Definition Contains (s sub : string) : bool := is_some (Index s sub).

(** [strings.ReplaceAll] for a non-empty [old]; [skip] bytes of the current
    match are still to be dropped. *)
Fixpoint replace_from (old new s : string) (skip : nat) : string :=
  match s with
  | "" => ""
  | String c s' =>
    match skip with
    | S k => replace_from old new s' k
    | O => if String.prefix old s
           then new ^^ replace_from old new s' (String.length old - 1)
           else String c (replace_from old new s' 0)
    end
  end.

Definition ReplaceAll (s old new : string) : string := replace_from old new s 0.

(** [strings.Split] for a non-empty separator: [acc] is the current field. *)
Fixpoint split_from (sep acc s : string) (skip : nat) : list string :=
  match s with
  | "" => [acc]
  | String c s' =>
    match skip with
    | S k => split_from sep acc s' k
    | O => if String.prefix sep s
           then acc :: split_from sep "" s' (String.length sep - 1)
           else split_from sep (acc ^^ String c "") s' 0
    end
  end.

Definition Split (s sep : string) : list string := split_from sep "" s 0.

Definition Join (l : list string) (sep : string) : string := String.concat sep l.

(** ** White space: [strings.TrimSpace]

    The UTF-8 encodings of the runes [unicode.IsSpace] accepts, by length. *)

Definition space1 (a : ascii) : bool := in_range 9 13 (byte a) || (byte a =? 32)%Z.

Definition space2 (a b : ascii) : bool :=
  (byte a =? 0xC2)%Z && ((byte b =? 0x85)%Z || (byte b =? 0xA0)%Z).

Definition space3 (a b c : ascii) : bool :=
  ((byte a =? 0xE1) && (byte b =? 0x9A) && (byte c =? 0x80))%Z
  || ((byte a =? 0xE2) && (byte b =? 0x80) &&
      (in_range 0x80 0x8A (byte c) || (byte c =? 0xA8) || (byte c =? 0xA9) || (byte c =? 0xAF)))%Z
  || ((byte a =? 0xE2) && (byte b =? 0x81) && (byte c =? 0x9F))%Z
  || ((byte a =? 0xE3) && (byte b =? 0x80) && (byte c =? 0x80))%Z.

Fixpoint trim_left (l : list ascii) : list ascii :=
  match l with
  | a :: l1 =>
    if space1 a then trim_left l1 else
    match l1 with
    | b :: l2 =>
      if space2 a b then trim_left l2 else
      match l2 with
      | c :: l3 => if space3 a b c then trim_left l3 else l
      | [] => l
      end
    | [] => l
    end
  | [] => []
  end.

(** The same from the end of the string, on the reversed bytes. *)
Fixpoint trim_right_rev (l : list ascii) : list ascii :=
  match l with
  | a :: l1 =>
    if space1 a then trim_right_rev l1 else
    match l1 with
    | b :: l2 =>
      if space2 b a then trim_right_rev l2 else
      match l2 with
      | c :: l3 => if space3 c b a then trim_right_rev l3 else l
      | [] => l
      end
    | [] => l
    end
  | [] => []
  end.

Definition TrimSpace (s : string) : string :=
  String.string_of_list_ascii
    (rev (trim_right_rev (rev (trim_left (String.list_ascii_of_string s))))).

(** The length of the white space a string starts with. *)
Definition space_width (l : list ascii) : nat :=
  match l with
  | a :: l1 =>
    if space1 a then 1 else
    match l1 with
    | b :: l2 =>
      if space2 a b then 2 else
      match l2 with c :: _ => if space3 a b c then 3 else 0 | [] => 0 end
    | [] => 0
    end
  | [] => 0
  end.

(** [strings.Fields]; [cur]: the field so far, reversed; [skip] bytes of the
    current space are still to be dropped. *)
Fixpoint fields_from (cur l : list ascii) (skip : nat) : list string :=
  let flush := match cur with [] => [] | _ => [String.string_of_list_ascii (rev cur)] end in
  match l with
  | [] => flush
  | a :: l' =>
    match skip with
    | S k => fields_from cur l' k
    | O => match space_width l with
           | O => fields_from (a :: cur) l' 0
           | S k => flush ++ fields_from [] l' k
           end
    end
  end.
Definition Fields (s : string) : list string := fields_from [] (String.list_ascii_of_string s) 0.

(** ** UTF-8 *)

Definition RuneError : Z := 0xFFFD.

Definition cont (lo hi : Z) (c : ascii) : bool := in_range lo hi (byte c).

(** Bounds of the second byte, by first byte (the [acceptRanges] of
    unicode/utf8). *)
Definition second_lo (b : Z) : Z := if (b =? 0xE0)%Z then 0xA0 else if (b =? 0xF0)%Z then 0x90 else 0x80.
Definition second_hi (b : Z) : Z := if (b =? 0xED)%Z then 0x9F else if (b =? 0xF4)%Z then 0x8F else 0xBF.

(** [utf8.DecodeRune]: rune and width; an invalid encoding is [RuneError] of
    width 1. *)
Definition decode_rune (l : list ascii) : Z * nat :=
  match l with
  | [] => (RuneError, 0)
  | a :: l1 =>
    let b0 := byte a in
    if (b0 <? 0x80)%Z then (b0, 1)
    else match l1 with
    | c1 :: l2 =>
      if in_range 0xC2 0xDF b0 && cont 0x80 0xBF c1
      then (Z.land b0 0x1F * 64 + Z.land (byte c1) 0x3F, 2%nat)%Z
      else if in_range 0xE0 0xEF b0 then
        match l2 with
        | c2 :: _ =>
          if cont (second_lo b0) (second_hi b0) c1 && cont 0x80 0xBF c2
          then (Z.land b0 0x0F * 4096 + Z.land (byte c1) 0x3F * 64 + Z.land (byte c2) 0x3F, 3%nat)%Z
          else (RuneError, 1)
        | [] => (RuneError, 1)
        end
      else if in_range 0xF0 0xF4 b0 then
        match l2 with
        | c2 :: c3 :: _ =>
          if cont (second_lo b0) (second_hi b0) c1 && cont 0x80 0xBF c2 && cont 0x80 0xBF c3
          then (Z.land b0 0x07 * 262144 + Z.land (byte c1) 0x3F * 4096
                + Z.land (byte c2) 0x3F * 64 + Z.land (byte c3) 0x3F, 4%nat)%Z
          else (RuneError, 1)
        | _ => (RuneError, 1)
        end
      else (RuneError, 1)
    | [] => (RuneError, 1)
    end
  end.

(** [for _, r := range s]; [skip] bytes of the current rune remain. *)
Fixpoint runes_from (l : list ascii) (skip : nat) : list Z :=
  match l with
  | [] => []
  | _ :: l' =>
    match skip with
    | S k => runes_from l' k
    | O => let '(r, w) := decode_rune l in r :: runes_from l' (w - 1)
    end
  end.

Definition runes (s : string) : list Z := runes_from (String.list_ascii_of_string s) 0.

(** [utf8.AppendRune]. *)
Definition encode_rune (r : Z) : string :=
  let b z := of_byte z in
  let e3 r := String (b (0xE0 + r / 4096)%Z) (String (b (0x80 + Z.land (r / 64) 0x3F)%Z)
                (String (b (0x80 + Z.land r 0x3F)%Z) "")) in
  if in_range 0 0x7F r then String (b r) ""
  else if in_range 0x80 0x7FF r then String (b (0xC0 + r / 64)%Z) (String (b (0x80 + Z.land r 0x3F)%Z) "")
  else if in_range 0x800 0xFFFF r && negb (in_range 0xD800 0xDFFF r) then e3 r
  else if in_range 0x10000 0x10FFFF r then
    String (b (0xF0 + r / 262144)%Z) (String (b (0x80 + Z.land (r / 4096) 0x3F)%Z)
      (String (b (0x80 + Z.land (r / 64) 0x3F)%Z) (String (b (0x80 + Z.land r 0x3F)%Z) "")))
  else e3 RuneError.

(** [utf8.ValidString]: an invalid byte would come back as [RuneError], longer. *)
Definition ValidString (s : string) : bool := String.eqb (String.concat "" (List.map encode_rune (runes s))) s.

(** ** encoding/hex *)

Definition nibble (n : Z) : ascii := of_byte (if (n <? 10)%Z then 48 + n else 87 + n).
(** [hex.EncodeToString]. *)
Fixpoint EncodeHex (s : string) : string :=
  match s with
  | "" => ""
  | String c s => String (nibble (byte c / 16)) (String (nibble (byte c mod 16)) (EncodeHex s))
  end.
Definition lower_hex (z : Z) : bool := in_range 48 57 z || in_range 97 102 z.

(** ** Unicode tables *)

Class Unicode := {
  hi_lower : Z → Z;
  hi_upper : Z → Z;
  hi_is_upper : Z → bool;
  hi_is_digit : Z → bool;
  hi_is_letter : Z → bool;
}.

#[local] Instance ascii_only : Unicode := {|
  hi_lower r := r;
  hi_upper r := r;
  hi_is_upper _ := false;
  hi_is_digit _ := false;
  hi_is_letter _ := false;
|}.

Section Unicode.
Context `{Unicode}.

Definition is_ascii (r : Z) : bool := in_range 0 0x7F r.

Definition IsUpper (r : Z) : bool :=
  if is_ascii r then in_range 65 90 r else hi_is_upper r.
Definition IsDigit (r : Z) : bool :=
  if is_ascii r then in_range 48 57 r else hi_is_digit r.
Definition IsLetter (r : Z) : bool :=
  if is_ascii r then in_range 65 90 r || in_range 97 122 r else hi_is_letter r.

Definition rune_lower (r : Z) : Z :=
  if is_ascii r then (if in_range 65 90 r then r + 32 else r)%Z else hi_lower r.
Definition rune_upper (r : Z) : Z :=
  if is_ascii r then (if in_range 97 122 r then r - 32 else r)%Z else hi_upper r.

(** [strings.ToLower] and [strings.ToUpper]; as in Go an invalid byte comes
    out as the encoding of [RuneError]. *)
Definition ToLower (s : string) : string :=
  String.concat "" (List.map (λ r, encode_rune (rune_lower r)) (runes s)).
Definition ToUpper (s : string) : string :=
  String.concat "" (List.map (λ r, encode_rune (rune_upper r)) (runes s)).
End Unicode.

(** ** Decimal numbers: [strconv.Itoa] *)

Definition digit (n : Z) : ascii := of_byte (48 + n).

Fixpoint itoa_fuel (fuel : nat) (n : Z) (acc : string) : string :=
  match fuel with
  | O => acc
  | S k => let acc := String (digit (n mod 10)) acc in
           if (n <? 10)%Z then acc else itoa_fuel k (n / 10) acc
  end.

(** Twenty digits cover every 64-bit integer. *)
Definition Itoa (n : Z) : string :=
  if (n <? 0)%Z then "-" ^^ itoa_fuel 20 (- n) "" else itoa_fuel 20 n "".

(** ** Facts *)

Lemma string_app_cons c a b : String c a ^^ b = String c (a ^^ b).
Proof. done. Qed.

Lemma string_nil_app a : "" ^^ a = a.
Proof. done. Qed.

Ltac string_induction s :=
  induction s as [|? s IH]; rewrite ?string_nil_app, ?string_app_cons; simpl;
  [try done|rewrite ?string_app_cons; try (by rewrite IH)].

Lemma string_app_nil s : s ^^ "" = s.
Proof. string_induction s. Qed.

Lemma string_app_assoc a b c : (a ^^ b) ^^ c = a ^^ b ^^ c.
Proof. string_induction a. Qed.

Lemma string_app_length a b : String.length (a ^^ b) = String.length a + String.length b.
Proof. string_induction a. Qed.

Lemma string_app_inj_l p a b : p ^^ a = p ^^ b → a = b.
Proof. string_induction p. intros [=]. auto. Qed.

Lemma byte_range c : (0 ≤ byte c < 256)%Z.
Proof.
  unfold byte. pose proof (N_ascii_bounded c). lia.
Qed.

Lemma of_byte_byte c : of_byte (byte c) = c.
Proof. unfold of_byte, byte. by rewrite N2Z.id, ascii_N_embedding. Qed.

Lemma byte_of_byte z : (0 ≤ z < 256)%Z → byte (of_byte z) = z.
Proof. intros. unfold of_byte, byte. rewrite N_ascii_embedding; lia. Qed.

Lemma byte_inj a b : byte a = byte b → a = b.
Proof. intros E. rewrite <- (of_byte_byte a), <- (of_byte_byte b). by rewrite E. Qed.

(** Trimming removes no byte that is not white space: a string without white
    space at its ends is unchanged. *)
Lemma trim_left_idem l : trim_left (trim_left l) = trim_left l.
Proof.
  induction l as [l IH] using (induction_ltof1 _ (@length ascii)). unfold ltof in IH.
  destruct l as [|a l1]; [done|]. simpl.
  destruct (space1 a) eqn:E1; [apply IH; simpl; lia|].
  destruct l1 as [|b l2]; [by simpl; rewrite E1|].
  destruct (space2 a b) eqn:E2; [apply IH; simpl; lia|].
  destruct l2 as [|c l3]; [by simpl; rewrite E1, E2|].
  destruct (space3 a b c) eqn:E3; [apply IH; simpl; lia|].
  simpl. by rewrite E1, E2, E3.
Qed.

(** *** Plain text: bytes that satisfy a test *)

Definition all_bytes (p : Z → bool) (s : string) : bool :=
  List.forallb (λ c, p (byte c)) (String.list_ascii_of_string s).

(** ASCII without space or control characters. *)
Definition graphic (z : Z) : bool := in_range 33 126 z.
Definition is_lower_ascii (z : Z) : bool := in_range 97 122 z.
Definition is_upper_ascii (z : Z) : bool := in_range 65 90 z.

Lemma in_range_spec lo hi z : in_range lo hi z = true ↔ (lo ≤ z ≤ hi)%Z.
Proof. unfold in_range. rewrite andb_true_iff, !Z.leb_le. done. Qed.

Lemma in_range_false lo hi z : in_range lo hi z = false ↔ (z < lo ∨ hi < z)%Z.
Proof.
  rewrite <- not_true_iff_false, in_range_spec. lia.
Qed.

Lemma all_bytes_nil p : all_bytes p "" = true.
Proof. done. Qed.

Lemma all_bytes_cons p c s : all_bytes p (String c s) = p (byte c) && all_bytes p s.
Proof. done. Qed.

Lemma all_bytes_app p a b : all_bytes p (a ^^ b) = all_bytes p a && all_bytes p b.
Proof.
  induction a as [|c a IH]; [done|]. rewrite string_app_cons, !all_bytes_cons, IH. apply andb_assoc.
Qed.

Lemma all_bytes_mono (p q : Z → bool) s :
  (∀ z, p z = true → q z = true) → all_bytes p s = true → all_bytes q s = true.
Proof.
  intros Hpq. induction s as [|c s IH]; [done|]. rewrite !all_bytes_cons, !andb_true_iff. naive_solver.
Qed.

Lemma decode_rune_ascii c l : (byte c < 128)%Z → decode_rune (c :: l) = (byte c, 1).
Proof. intros H. unfold decode_rune. apply Z.ltb_lt in H. by rewrite H. Qed.

Lemma runes_cons c s : (byte c < 128)%Z → runes (String c s) = byte c :: runes s.
Proof.
  intros Hc. unfold runes. change (String.list_ascii_of_string (String c s)) with
    (c :: String.list_ascii_of_string s).
  cbn [runes_from]. by rewrite decode_rune_ascii.
Qed.

Lemma encode_rune_ascii z : (0 ≤ z < 128)%Z → encode_rune z = String (of_byte z) "".
Proof.
  intros H. unfold encode_rune.
  by rewrite (proj2 (in_range_spec 0 0x7F z)) by lia.
Qed.

Lemma concat_cons s l : String.concat "" (s :: l) = s ^^ String.concat "" l.
Proof. destruct l; simpl; [by rewrite string_app_nil|done]. Qed.

Section UnicodeFacts.
Context `{Unicode}.

Lemma ToUpper_cons c s : (byte c < 128)%Z →
  ToUpper (String c s) = encode_rune (rune_upper (byte c)) ^^ ToUpper s.
Proof. intros Hc. unfold ToUpper. rewrite runes_cons by done. apply concat_cons. Qed.

Lemma ToLower_cons c s : (byte c < 128)%Z →
  ToLower (String c s) = encode_rune (rune_lower (byte c)) ^^ ToLower s.
Proof. intros Hc. unfold ToLower. rewrite runes_cons by done. apply concat_cons. Qed.

Lemma rune_upper_id z :
  (0 ≤ z < 128)%Z → is_lower_ascii z = false → rune_upper z = z.
Proof.
  intros Hz Hl. unfold rune_upper, is_ascii. fold (is_lower_ascii z). rewrite Hl.
  by rewrite (proj2 (in_range_spec 0 0x7F z)) by lia.
Qed.

Lemma rune_lower_id z :
  (0 ≤ z < 128)%Z → is_upper_ascii z = false → rune_lower z = z.
Proof.
  intros Hz Hl. unfold rune_lower, is_ascii. fold (is_upper_ascii z). rewrite Hl.
  by rewrite (proj2 (in_range_spec 0 0x7F z)) by lia.
Qed.

(** Text without letters of the other case is unchanged. *)
Lemma ToUpper_id s :
  all_bytes (λ z, (z <? 128)%Z && negb (is_lower_ascii z)) s = true → ToUpper s = s.
Proof.
  induction s as [|c s IH]; [done|]. rewrite all_bytes_cons. intros Hs. bool_simp.
  pose proof (byte_range c). rewrite ToUpper_cons, IH, rune_upper_id, encode_rune_ascii by (done || lia).
  by rewrite of_byte_byte.
Qed.

Lemma ToLower_id s :
  all_bytes (λ z, (z <? 128)%Z && negb (is_upper_ascii z)) s = true → ToLower s = s.
Proof.
  induction s as [|c s IH]; [done|]. rewrite all_bytes_cons. intros Hs. bool_simp.
  pose proof (byte_range c). rewrite ToLower_cons, IH, rune_lower_id, encode_rune_ascii by (done || lia).
  by rewrite of_byte_byte.
Qed.
End UnicodeFacts.

(** Trimming stops at a graphic character. *)
Lemma graphic_not_space1 a : graphic (byte a) = true → space1 a = false.
Proof.
  unfold graphic, space1. rewrite in_range_spec. intros.
  rewrite (proj2 (in_range_false 9 13 (byte a))) by lia. by apply Z.eqb_neq; lia.
Qed.

Lemma ascii_not_space2 a b : (byte a < 128)%Z → space2 a b = false.
Proof.
  intros. unfold space2. destruct (Z.eqb_spec (byte a) 0xC2); [lia|done].
Qed.

Lemma ascii_not_space3 a b c : (byte a < 128)%Z → space3 a b c = false.
Proof.
  intros. unfold space3.
  destruct (Z.eqb_spec (byte a) 0xE1), (Z.eqb_spec (byte a) 0xE2), (Z.eqb_spec (byte a) 0xE3); try lia; done.
Qed.

Lemma ascii_not_space2_last a b : (byte b < 128)%Z → space2 a b = false.
Proof.
  intros. unfold space2.
  destruct (Z.eqb_spec (byte b) 0x85), (Z.eqb_spec (byte b) 0xA0); try lia; apply andb_false_r.
Qed.

Lemma ascii_not_space3_last a b c : (byte c < 128)%Z → space3 a b c = false.
Proof.
  intros. unfold space3. rewrite (proj2 (in_range_false 0x80 0x8A (byte c))) by lia.
  destruct (Z.eqb_spec (byte c) 0x80), (Z.eqb_spec (byte c) 0xA8), (Z.eqb_spec (byte c) 0xA9),
    (Z.eqb_spec (byte c) 0xAF), (Z.eqb_spec (byte c) 0x9F); try lia.
Qed.

Lemma trim_left_graphic a l : graphic (byte a) = true → trim_left (a :: l) = a :: l.
Proof.
  intros Ha. simpl. rewrite graphic_not_space1 by done. unfold graphic in Ha.
  apply in_range_spec in Ha. destruct l as [|b [|c l]]; [done|..];
    rewrite ascii_not_space2 by lia; [done|]. by rewrite ascii_not_space3 by lia.
Qed.

Lemma trim_right_graphic a l : graphic (byte a) = true → trim_right_rev (a :: l) = a :: l.
Proof.
  intros Ha. simpl. rewrite graphic_not_space1 by done. unfold graphic in Ha.
  apply in_range_spec in Ha. destruct l as [|b [|c l]]; [done|..];
    rewrite ascii_not_space2_last by lia; [done|]. by rewrite ascii_not_space3_last by lia.
Qed.

Lemma TrimSpace_id s : all_bytes graphic s = true → TrimSpace s = s.
Proof.
  intros Hs. unfold TrimSpace. unfold all_bytes in Hs. rewrite List.forallb_forall in Hs.
  rewrite <- (String.string_of_list_ascii_of_string s) at 2. f_equal.
  destruct (String.list_ascii_of_string s) as [|a l]; [done|].
  rewrite trim_left_graphic by (apply Hs; by left).
  destruct (rev (a :: l)) as [|b l'] eqn:E.
  { apply (f_equal (@length _)) in E. rewrite List.length_rev in E. done. }
  rewrite trim_right_graphic, <- E, List.rev_involutive; [done|].
  apply Hs, List.in_rev. rewrite E. by left.
Qed.

(** A field of graphic characters before a space. *)
Lemma space_width_graphic a l : graphic (byte a) = true → space_width (a :: l) = 0.
Proof.
  intros Ha. simpl. rewrite graphic_not_space1 by done. unfold graphic in Ha.
  apply in_range_spec in Ha. destruct l as [|b [|c l]]; [done|..];
    rewrite ascii_not_space2 by lia; [done|]. by rewrite ascii_not_space3 by lia.
Qed.

Lemma fields_word w cur rest : Forall (λ c, graphic (byte c) = true) w → rev cur ++ w ≠ [] →
  fields_from cur (w ++ " "%char :: rest) 0 = String.string_of_list_ascii (rev cur ++ w) :: fields_from [] rest 0 ∧
  fields_from cur w 0 = [String.string_of_list_ascii (rev cur ++ w)].
Proof.
  revert cur. induction w as [|a w IH]; intros cur Hw Hne.
  - rewrite app_nil_r in *. destruct cur as [|c cur]; [done|]. done.
  - pose proof (Forall_inv Hw) as Ha. pose proof (Forall_inv_tail Hw) as Hw'.
    assert (E : rev cur ++ a :: w = rev (a :: cur) ++ w) by (simpl; by rewrite <- app_assoc).
    rewrite E in *. destruct (IH (a :: cur) Hw' Hne) as [H1 H2].
    cbn [fields_from app]. rewrite !space_width_graphic by done. by split.
Qed.

(** Removing a character that does not occur. *)
Lemma ReplaceAll_none c new s :
  all_bytes (λ z, negb (z =? byte c)%Z) s = true → ReplaceAll s (String c "") new = s.
Proof.
  unfold ReplaceAll. induction s as [|a s IH]; [done|].
  rewrite all_bytes_cons. intros Hs. bool_simp. simpl.
  destruct (ascii_dec c a) as [->|_]; [done|]. by rewrite IH.
Qed.

Lemma replace_from_app c new a b :
  replace_from (String c "") new (a ^^ b) 0 =
    replace_from (String c "") new a 0 ^^ replace_from (String c "") new b 0.
Proof.
  induction a as [|x a IH]; [done|]. rewrite string_app_cons. simpl.
  replace (String.prefix "" (a ^^ b)) with true by (by destruct (a ^^ b)).
  replace (String.prefix "" a) with true by (by destruct a).
  destruct (ascii_dec c x); rewrite IH; [by rewrite string_app_assoc|done].
Qed.

(** Cutting a concatenation where it was joined. *)
Lemma take_drop_app a b n : String.length a = n → take_s n (a ^^ b) = a ∧ drop_s n (a ^^ b) = b.
Proof.
  intros <-. unfold take_s, drop_s. rewrite string_app_length.
  replace (String.length a + String.length b - String.length a) with (String.length b) by lia.
  induction a as [|c a IH]; rewrite ?string_nil_app, ?string_app_cons; simpl.
  - split; [by destruct b|]. clear. induction b as [|x b IH]; simpl; [done|by rewrite IH].
  - destruct IH as [E1 E2]. by rewrite E1, E2.
Qed.

(** A rune that begins with a byte above 127 is above 127. *)
Lemma land_low z : Z.land z 63 = (z mod 64)%Z ∧ Z.land z 31 = (z mod 32)%Z ∧ Z.land z 15 = (z mod 16)%Z ∧ Z.land z 7 = (z mod 8)%Z.
Proof. split_and!; [apply (Z.land_ones z 6)|apply (Z.land_ones z 5)|apply (Z.land_ones z 4)|apply (Z.land_ones z 3)]; lia. Qed.

Lemma second_hi_le b : (second_hi b <= 191)%Z.
Proof. unfold second_hi. destruct (b =? 237)%Z; [lia|]. destruct (b =? 244)%Z; lia. Qed.

Lemma decode_rune_big c l : (128 <= byte c)%Z → (128 <= (decode_rune (c :: l)).1)%Z.
Proof.
  intros Hc. cbn [decode_rune]. cbv zeta. rewrite (proj2 (Z.ltb_ge (byte c) 128)) by lia.
  destruct l as [|c1 l]; [simpl; unfold RuneError; lia|]. pose proof (byte_range c1).
  pose proof (second_hi_le (byte c)). pose proof (land_low (byte c)) as (_ & -> & -> & ->). rewrite (proj1 (land_low (byte c1))).
  destruct (in_range 194 223 (byte c) && _) eqn:E1.
  { apply andb_true_iff in E1 as [E1 _]. apply in_range_spec in E1. simpl. Z.div_mod_to_equations. lia. }
  clear E1. destruct (in_range 224 239 (byte c)) eqn:E2.
  { apply in_range_spec in E2. destruct l as [|c2 l]; [simpl; unfold RuneError; lia|]. destruct (_ && _) eqn:E3; [|simpl; unfold RuneError; lia].
    apply andb_true_iff in E3 as [E3 _]. unfold cont, second_lo in E3. apply in_range_spec in E3. simpl.
    rewrite !(proj1 (land_low _)). revert E3. destruct (Z.eqb_spec (byte c) 224) as [E4|E4]; intros E3; Z.div_mod_to_equations; lia. }
  destruct (in_range 240 244 (byte c)) eqn:E3; [|simpl; unfold RuneError; lia]. clear E2. apply in_range_spec in E3.
  destruct l as [|c2 [|c3 l]]; [simpl; unfold RuneError; lia..|]. destruct (_ && _) eqn:E4; [|simpl; unfold RuneError; lia].
  apply andb_true_iff in E4 as [E4 _]. apply andb_true_iff in E4 as [E4 _]. unfold cont, second_lo in E4. apply in_range_spec in E4. simpl.
  rewrite !(proj1 (land_low _)).
  assert ((byte c =? 224)%Z = false) as E5 by (apply Z.eqb_neq; lia). rewrite E5 in E4. revert E4.
  destruct (Z.eqb_spec (byte c) 240) as [E6|E6]; intros E4; Z.div_mod_to_equations; lia.
Qed.

(** A string falls apart at any position. *)
Lemma cut n s : n ≤ String.length s → s = take_s n s ^^ drop_s n s ∧ String.length (take_s n s) = n.
Proof.
  revert s. induction n as [|n IH]; intros s Hn.
  - split; [|by destruct s]. unfold take_s, drop_s. rewrite Nat.sub_0_r. destruct (take_drop_app "" s 0 eq_refl) as [_ E].
    unfold drop_s in E. rewrite string_nil_app, Nat.sub_0_r in E. rewrite E. by destruct s.
  - destruct s as [|c s]; simpl in Hn; [lia|]. destruct (IH s ltac:(lia)) as [E L]. split.
    + change (take_s (S n) (String c s)) with (String c (take_s n s)). change (drop_s (S n) (String c s)) with (drop_s n s).
      rewrite string_app_cons. by rewrite <- E.
    + change (take_s (S n) (String c s)) with (String c (take_s n s)). simpl. by rewrite L.
Qed.

Lemma TrimSuffix_bytes p s t : all_bytes p s = true → all_bytes p (TrimSuffix s t) = true.
Proof.
  intros Hs. unfold TrimSuffix. destruct (HasSuffix s t); [|done].
  destruct (cut (String.length s - String.length t) s ltac:(lia)) as [E _]. rewrite E, all_bytes_app in Hs.
  by apply andb_true_iff in Hs as [? _].
Qed.

(** A set of ASCII runes is a set of bytes. *)
Lemma runes_ascii p s : (∀ z, p z = true → (z < 128)%Z) → List.forallb p (runes s) = true → all_bytes p s = true.
Proof.
  intros Hp. induction s as [|c s IH]; [done|]. intros Hr. rewrite all_bytes_cons.
  destruct (Z.ltb_spec (byte c) 128).
  - rewrite runes_cons in Hr by done. cbn [List.forallb] in Hr. apply andb_true_iff in Hr as [-> Hr]. by rewrite IH.
  - exfalso. pose proof (decode_rune_big c (String.list_ascii_of_string s) ltac:(lia)) as Hb.
    unfold runes in Hr. cbn [String.list_ascii_of_string runes_from] in Hr. destruct (decode_rune _) as [r w]. cbn [List.forallb fst] in Hr, Hb.
    apply andb_true_iff in Hr as [Hr _]. specialize (Hp r Hr). lia.
Qed.

(** Splitting at a single byte. *)
Lemma split_from_app c acc s t : all_bytes (λ z, negb (z =? byte c)%Z) s = true →
  split_from (String c "") acc (s ^^ String c t) 0 = (acc ^^ s) :: Split t (String c "").
Proof.
  revert acc. induction s as [|a s IH]; intros acc Hs.
  - rewrite string_nil_app, string_app_nil. simpl. destruct (ascii_dec c c); [|done]. by destruct t.
  - rewrite all_bytes_cons in Hs. bool_simp. rewrite string_app_cons. cbn [split_from String.prefix].
    destruct (ascii_dec c a) as [->|_]; [done|]. rewrite IH by done. by rewrite string_app_assoc, string_app_cons, string_nil_app.
Qed.

(** The first field of [s ^^ t] extends [s] by a prefix of [t]. *)
Lemma split_from_head c acc s t : all_bytes (λ z, negb (z =? byte c)%Z) s = true →
  ∃ r l, split_from (String c "") acc (s ^^ t) 0 = (acc ^^ s ^^ r) :: l ∧ (r = "" ∨ ∃ a t' r', t = String a t' ∧ r = String a r').
Proof.
  revert acc. induction s as [|a s IH]; intros acc Hs.
  - rewrite string_nil_app. clear Hs. setoid_rewrite string_nil_app. destruct t as [|a t]; [exists "", []; simpl; rewrite string_app_nil; auto|].
    cbn [split_from String.prefix]. destruct (ascii_dec c a) as [->|_].
    + destruct (String.prefix "" t) eqn:E; [|by destruct t]. exists "". rewrite string_app_nil. eauto.
    + assert (Hx : ∀ acc, ∃ r l, split_from (String c "") acc t 0 = (acc ^^ r) :: l).
      { clear acc. induction t as [|b t IH]; intros acc; [exists "", []; simpl; by rewrite string_app_nil|].
        cbn [split_from String.prefix]. destruct (ascii_dec c b).
        - destruct (String.prefix "" t) eqn:E; [|by destruct t]. exists "". rewrite string_app_nil. eauto.
        - destruct (IH (acc ^^ String b "")) as (r & l & ->). exists (String b r), l. by rewrite string_app_assoc, string_app_cons, string_nil_app. }
      destruct (Hx (acc ^^ String a "")) as (r & l & ->). exists (String a r), l.
      rewrite string_app_assoc, string_app_cons, string_nil_app. split; [done|]. right. eauto.
  - rewrite all_bytes_cons in Hs. bool_simp. rewrite string_app_cons. cbn [split_from String.prefix].
    destruct (ascii_dec c a) as [->|_]; [done|]. destruct (IH (acc ^^ String a "")) as (r & l & -> & Hr); [done|].
    exists r, l. by rewrite string_app_assoc, !string_app_cons, string_nil_app.
Qed.

(** [strings.EqualFold]: simple folding of the ASCII letters, and of the two
    runes above them that fold into ASCII (U+017F and U+212A).  It is exact when
    one of the two strings is ASCII. *)
Definition fold_rune (r : Z) : Z :=
  if in_range 65 90 r then (r + 32)%Z
  else if (r =? 0x17F)%Z then 115%Z
  else if (r =? 0x212A)%Z then 107%Z
  else r.

Definition EqualFold (s t : string) : bool :=
  bool_decide (List.map fold_rune (runes s) = List.map fold_rune (runes t)).

(** [strings.TrimRight(s, cutset)] and [strings.Trim(s, cutset)] for a cutset of
    ASCII characters. *)
Fixpoint trim_right_where (p : ascii → bool) (l : list ascii) : list ascii :=
  match l with
  | [] => []
  | x :: l' => match trim_right_where p l' with
               | [] => if p x then [] else [x]
               | r => x :: r
               end
  end.
Fixpoint trim_left_where (p : ascii → bool) (l : list ascii) : list ascii :=
  match l with
  | [] => []
  | x :: l' => if p x then trim_left_where p l' else l
  end.
Definition in_cutset (cutset : string) (x : ascii) : bool :=
  List.existsb (Ascii.eqb x) (String.list_ascii_of_string cutset).
Definition TrimRight (s cutset : string) : string :=
  String.string_of_list_ascii (trim_right_where (in_cutset cutset) (String.list_ascii_of_string s)).
Definition Trim (s cutset : string) : string :=
  String.string_of_list_ascii
    (trim_left_where (in_cutset cutset) (trim_right_where (in_cutset cutset) (String.list_ascii_of_string s))).
