(* ===== verification/Paths.v ===== *)
(** * Scanning and file paths

    Facts on [strings.Index], [strings.Split] and [strings.HasPrefix] for a
    single byte, and the lexical operations of package path/filepath on Unix:
    cleaning, joining and the relative path between two paths. *)

From S2P Require Import Prelude GoStrings.

(** ** Scanning *)

(** [c] does not occur in [s]. *)
Definition free_of (c : ascii) (s : string) : Prop := all_bytes (λ z, negb (z =? byte c)%Z) s = true.

Lemma free_of_cons c a s : free_of c (String a s) ↔ a ≠ c ∧ free_of c s.
Proof.
  unfold free_of. rewrite all_bytes_cons, andb_true_iff, negb_true_iff, Z.eqb_neq. split; intros [H ?]; (split; [|done]).
  - by intros ->.
  - by intros E%byte_inj.
Qed.
Lemma free_of_app c a b : free_of c (a ^^ b) ↔ free_of c a ∧ free_of c b.
Proof. unfold free_of. by rewrite all_bytes_app, andb_true_iff. Qed.

Lemma prefix1 c a s : String.prefix (String c "") (String a s) = Ascii.eqb c a.
Proof.
  simpl. destruct (ascii_dec c a) as [->|N]; [by rewrite Ascii.eqb_refl; destruct s|]. symmetry. by apply Ascii.eqb_neq.
Qed.

Lemma Index_char c s n : Index s (String c "") = Some n ↔ ∃ a b, s = a ^^ String c b ∧ String.length a = n ∧ free_of c a.
Proof.
  unfold Index. revert n. induction s as [|x s IH]; intros n.
  - simpl. split; [done|]. intros ([|] & b & E & _); done.
  - cbn [String.index]. rewrite prefix1. destruct (Ascii.eqb c x) eqn:E.
    + apply Ascii.eqb_eq in E as <-. split; [intros [= <-]; exists "", s; by split_and!|].
      intros ([|y a] & b & Es & L & F); [by simpl in L; subst|]. rewrite string_app_cons in Es. simplify_eq. by apply free_of_cons in F as [? _].
    + apply Ascii.eqb_neq in E. destruct (String.index 0 (String c "") s) as [k|].
      * split.
        -- intros [= <-]. destruct (proj1 (IH k) eq_refl) as (a & b & -> & <- & F). exists (String x a), b. split_and!; [done..|]. by apply free_of_cons.
        -- intros ([|y a] & b & Es & <- & F); [rewrite string_nil_app in Es; by simplify_eq|]. rewrite string_app_cons in Es. simplify_eq. apply free_of_cons in F as [_ F]. f_equal.
           assert (Some k = Some (String.length a)) as [= ->]; [|done]. apply IH. by exists a, b.
      * split; [done|]. intros ([|y a] & b & Es & <- & F); [rewrite string_nil_app in Es; by simplify_eq|]. rewrite string_app_cons in Es. simplify_eq. apply free_of_cons in F as [_ F].
        assert (None = Some (String.length a)); [|done]. apply IH. by exists a, b.
Qed.

Lemma Contains_char c s : Contains s (String c "") = false ↔ free_of c s.
Proof.
  unfold Contains. destruct (Index s (String c "")) as [n|] eqn:E.
  - apply Index_char in E as (a & b & -> & _). split; [done|]. rewrite free_of_app, free_of_cons. tauto.
  - split; [|done]. intros _. induction s as [|x s IH]; [done|]. apply free_of_cons.
    unfold Index in E. cbn [String.index] in E. rewrite prefix1 in E. destruct (Ascii.eqb c x) eqn:Ex; [done|]. apply Ascii.eqb_neq in Ex.
    split; [by intros ->|]. apply IH. unfold Index. by destruct (String.index 0 (String c "") s).
Qed.

Lemma split_free c s acc : free_of c s → split_from (String c "") acc s 0 = [acc ^^ s].
Proof.
  revert acc. induction s as [|x s IH]; intros acc; [by rewrite string_app_nil|]. rewrite free_of_cons. intros [Hx Hs].
  cbn [split_from]. rewrite prefix1, (proj2 (Ascii.eqb_neq c x)) by done. rewrite IH by done. by rewrite string_app_assoc.
Qed.
Lemma split_nonempty sep s : ∀ acc k, split_from sep acc s k ≠ [].
Proof. induction s as [|x s IH]; intros acc k; [done|]. cbn [split_from]. destruct k; [destruct (String.prefix _ _); [done|]|]; apply IH. Qed.
Lemma split_last c u h acc : free_of c h → List.last (split_from (String c "") acc (u ^^ String c h) 0) "" = h.
Proof.
  intros Hh. revert acc. induction u as [|x u IH]; intros acc.
  - rewrite string_nil_app. cbn [split_from]. rewrite prefix1, Ascii.eqb_refl. simpl String.length. cbn [Nat.sub]. by rewrite split_free.
  - rewrite string_app_cons. cbn [split_from]. rewrite prefix1. destruct (Ascii.eqb c x); [|apply IH]. simpl String.length. cbn [Nat.sub].
    specialize (IH ""). cbn [List.last]. by destruct (split_from (String c "") "" (u ^^ String c h) 0) eqn:E; [apply split_nonempty in E|].
Qed.

Lemma has_prefix_app s p : HasPrefix s p = true ↔ ∃ t, s = p ^^ t.
Proof.
  unfold HasPrefix. revert s. induction p as [|c p IH]; intros s; [split; [by exists s|by destruct s]|].
  destruct s as [|a s]; simpl; [split; [done|by intros [? ?]]|]. destruct (ascii_dec c a) as [->|Hc].
  - rewrite IH. split; intros [t Ht]; exists t; [by rewrite Ht|by injection Ht].
  - split; [done|]. intros [t Ht]. by injection Ht.
Qed.

(** ** Paths *)

(** [filepath.Clean]: the segments of a path, the last first. *)
Definition clean_step (rooted : bool) (out : list string) (seg : string) : list string :=
  if (seg =s "") || (seg =s ".") then out
  else if seg =s ".." then
    match out with
    | top :: rest => if top =s ".." then seg :: out else rest
    | [] => if rooted then [] else [seg]
    end
  else seg :: out.
Definition Clean (p : string) : string :=
  if p =s "" then "."
  else
    let rooted := HasPrefix p "/" in
    let out := GoStrings.Join (reverse (foldl (clean_step rooted) [] (Split p "/"))) "/" in
    if rooted then "/" ^^ out else if out =s "" then "." else out.
Definition IsAbs (p : string) : bool := HasPrefix p "/".


(** [filepath.Join]: the elements that are not empty, cleaned. *)
Definition PathJoin (l : list string) : string :=
  let l := List.filter (λ s, negb (s =s "")) l in
  if is_nil l then "" else Clean (GoStrings.Join l "/").

(** The segments of a clean path; the root has none. *)
Definition segments (p : string) : list string := List.filter (λ s, negb (s =s "")) (Split p "/").

Fixpoint strip_common (base targ : list string) : list string * list string :=
  match base, targ with
  | b :: base', t :: targ' => if b =s t then strip_common base' targ' else (base, targ)
  | _, _ => (base, targ)
  end.

(** [filepath.Rel]. *)
Definition Rel (basepath targpath : string) : option string :=
  let base := Clean basepath in
  let targ := Clean targpath in
  if targ =s base then Some "."
  else if negb (Bool.eqb (IsAbs base) (IsAbs targ)) then None
  else
    let base := if base =s "." then [] else segments base in
    let '(up, down) := strip_common base (segments targ) in
    if List.hd "" up =s ".." then None
    else Some (GoStrings.Join (List.map (λ _, "..") up ++ down) "/").

(** *** Rooted paths *)

Definition seg_ok (s : string) : Prop := s ≠ "" ∧ s ≠ "." ∧ s ≠ ".." ∧ free_of "/" s.
Definition abs_path (l : list string) : string := "/" ^^ GoStrings.Join l "/".

Lemma split_pieces c s : ∀ acc k, free_of c acc → Forall (free_of c) (split_from (String c "") acc s k).
Proof.
  induction s as [|x s IH]; intros acc k Ha; [by repeat constructor|]. cbn [split_from]. destruct k; [|by apply IH].
  rewrite prefix1. destruct (Ascii.eqb c x) eqn:E; [constructor; [done|by apply IH]|]. apply IH, free_of_app. split; [done|].
  apply free_of_cons. split; [|done]. intros ->. by rewrite Ascii.eqb_refl in E.
Qed.

Lemma clean_step_ok out seg : Forall seg_ok out → free_of "/" seg → Forall seg_ok (clean_step true out seg).
Proof.
  intros Ho Hs. unfold clean_step. destruct (seg =s "") eqn:E1; [done|]. destruct (seg =s ".") eqn:E2; [done|]. cbn [orb].
  destruct (seg =s "..") eqn:E3.
  - destruct out as [|top out]; [done|]. inversion_clear Ho as [|? ? H1 H2]. destruct (top =s "..") eqn:E4; [|done]. destruct H1 as (_ & _ & H1 & _). bool_simp. by subst.
  - constructor; [|done]. bool_simp. by split_and!.
Qed.

Lemma clean_fold_ok l out : Forall seg_ok out → Forall (free_of "/") l → Forall seg_ok (foldl (clean_step true) out l).
Proof. intros Ho Hl. revert out Ho. induction Hl as [|s l Hs Hl IH]; intros out Ho; [done|]. by apply IH, clean_step_ok. Qed.

(** Cleaning a rooted path leaves its segments. *)
Lemma clean_rooted p : IsAbs p = true → ∃ l, Forall seg_ok l ∧ Clean p = abs_path l.
Proof.
  intros Hr. exists (reverse (foldl (clean_step true) [] (Split p "/"))). split.
  - apply Forall_reverse, clean_fold_ok; [constructor|]. by apply (split_pieces "/").
  - unfold Clean, IsAbs in *. destruct (p =s "") eqn:E; [bool_simp; by subst|]. by rewrite Hr.
Qed.

Lemma split_join l acc : Forall (free_of "/") l → l ≠ [] → split_from "/" acc (GoStrings.Join l "/") 0 = match l with [] => [] | s :: l => (acc ^^ s) :: l end.
Proof.
  intros Hl. revert acc. induction Hl as [|s l Hs Hl IH]; intros acc Hne; [done|]. unfold GoStrings.Join. destruct l as [|s' l].
  - simpl. by apply (split_free "/").
  - change (String.concat "/" (s :: s' :: l)) with (s ^^ "/" ^^ String.concat "/" (s' :: l)).
    change ("/" ^^ String.concat "/" (s' :: l)) with (String "/" (String.concat "/" (s' :: l))). rewrite (split_from_app "/") by done.
    f_equal. unfold Split. change (String.concat "/" (s' :: l)) with (GoStrings.Join (s' :: l) "/"). rewrite IH by done. by rewrite string_nil_app.
Qed.

Lemma segments_abs l : Forall seg_ok l → segments (abs_path l) = l.
Proof.
  intros Hl. unfold segments, abs_path, Split. change ("/" ^^ GoStrings.Join l "/") with ("" ^^ String "/" (GoStrings.Join l "/")).
  rewrite (split_from_app "/") by done. unfold Split. cbn [List.filter]. rewrite string_nil_app. cbn [String.eqb negb].
  assert (Hf : List.filter (λ s, negb (s =s "")) l = l).
  { clear -Hl. induction Hl as [|s l (Hs & _) _ IH]; [done|]. cbn [List.filter]. rewrite (proj2 (String.eqb_neq _ _) Hs). cbn [negb]. by rewrite IH. }
  destruct l as [|s l]; [done|]. rewrite split_join; [|eapply List.Forall_impl; [|done]; by intros x (_ & _ & _ & ?)|done]. by rewrite string_nil_app.
Qed.

Lemma clean_fold_id l : Forall seg_ok l → ∀ out, foldl (clean_step true) out l = reverse l ++ out.
Proof.
  induction 1 as [|s l (H1 & H2 & H3 & _) _ IH]; intros out; [done|]. cbn [foldl]. unfold clean_step at 2.
  rewrite (proj2 (String.eqb_neq _ _) H1), (proj2 (String.eqb_neq _ _) H2), (proj2 (String.eqb_neq _ _) H3). cbn [orb]. rewrite IH, reverse_cons. by rewrite <- app_assoc.
Qed.

Lemma clean_abs l : Forall seg_ok l → Clean (abs_path l) = abs_path l.
Proof.
  intros Hl. assert (E : foldl (clean_step true) [] (Split (abs_path l) "/") = reverse l).
  { unfold abs_path, Split. change ("/" ^^ GoStrings.Join l "/") with ("" ^^ String "/" (GoStrings.Join l "/")).
    rewrite (split_from_app "/") by done. unfold Split. cbn [foldl]. change (clean_step true [] ("" ^^ "")) with (@nil string).
    destruct l as [|s l]; [done|]. rewrite split_join; [|eapply List.Forall_impl; [|done]; by intros x (_ & _ & _ & ?)|done]. rewrite string_nil_app.
    rewrite clean_fold_id by done. by rewrite app_nil_r. }
  unfold Clean. assert ((abs_path l =s "") = false) as -> by done. assert (HasPrefix (abs_path l) "/" = true) as -> by (unfold abs_path; simpl; by destruct (GoStrings.Join l "/")).
  rewrite E, reverse_involutive. done.
Qed.

Lemma abs_path_inj l l' : Forall seg_ok l → Forall seg_ok l' → abs_path l = abs_path l' → l = l'.
Proof. intros Hl Hl' E. by rewrite <- (segments_abs l), <- (segments_abs l'), E. Qed.

Lemma strip_common_spec b t up down : strip_common b t = (up, down) → ∃ pre, b = pre ++ up ∧ t = pre ++ down.
Proof.
  revert t. induction b as [|x b IH]; intros t; [intros [= <- <-]; by exists []|]. destruct t as [|y t]; [intros [= <- <-]; by exists []|].
  simpl. destruct (x =s y) eqn:E; [|intros [= <- <-]; by exists []]. intros (pre & -> & ->)%IH. bool_simp. subst. by exists (y :: pre).
Qed.

(** A joined path that the relative path does not climb out of lies inside. *)
Lemma join_inside D ctx rel : Forall seg_ok D → Rel (abs_path D) (PathJoin [abs_path D; ctx]) = Some rel → HasPrefix rel ".." = false →
  ∃ down, Forall seg_ok down ∧ PathJoin [abs_path D; ctx] = abs_path (D ++ down).
Proof.
  intros HD. assert (∃ T, Forall seg_ok T ∧ PathJoin [abs_path D; ctx] = abs_path T) as (T & HT & ->).
  { unfold PathJoin. cbn [List.filter]. assert (negb (abs_path D =s "") = true) as -> by done. destruct (ctx =s ""); cbn [negb is_nil]; apply clean_rooted.
    - unfold GoStrings.Join, IsAbs. cbn. unfold abs_path. simpl. by destruct (GoStrings.Join D "/").
    - unfold GoStrings.Join, IsAbs. cbn. unfold abs_path. by destruct (GoStrings.Join D "/"). }
  unfold Rel. rewrite !clean_abs by done. destruct (abs_path T =s abs_path D) eqn:E.
  - intros _ _. bool_simp. exists []. rewrite app_nil_r. by split.
  - assert (A : ∀ l, IsAbs (abs_path l) = true) by (intros l; unfold IsAbs, abs_path; simpl; by destruct (GoStrings.Join l "/")). rewrite !A. cbn [Bool.eqb negb].
    assert ((abs_path D =s ".") = false) as -> by done. rewrite !segments_abs by done.
    destruct (strip_common D T) as [up down] eqn:Es. apply strip_common_spec in Es as (pre & -> & ->).
    destruct up as [|u up].
    + intros _ _. exists down. split; [|by rewrite app_nil_r]. by apply Forall_app in HT as [_ HT].
    + apply Forall_app in HD as [_ HD]. inversion_clear HD as [|? ? (_ & _ & Hu & _) _].
      cbn [List.hd]. rewrite (proj2 (String.eqb_neq _ _) Hu). intros [= <-] Hp. exfalso.
      assert (G : ∀ l, HasPrefix (GoStrings.Join (".." :: l) "/") ".." = true); [|by pose proof (eq_trans (eq_sym (G (List.map (λ _, "..") up ++ down))) Hp)].
      intros [|s l]; [done|]. apply has_prefix_app. by eexists.
Qed.
