(* ===== verification/Decimal.v ===== *)
(** * Decimal numbers

    What [strconv.Itoa] prints reads back, and strings of digits of the same
    width are ordered as the numbers they denote. *)

From S2P Require Import Prelude GoStrings.

Definition is_digit (c : ascii) : bool := in_range 48 57 (byte c).

(** The number a string of digits denotes. *)
Fixpoint num (l : list ascii) : Z :=
  match l with
  | [] => 0
  | c :: l => (byte c - 48) * 10 ^ Z.of_nat (length l) + num l
  end.

Lemma list_of_app a b :
  String.list_ascii_of_string (a ^^ b) = String.list_ascii_of_string a ++ String.list_ascii_of_string b.
Proof. induction a as [|c a IH]; [done|]. simpl. by rewrite <- IH. Qed.

Lemma list_of_inj a b : String.list_ascii_of_string a = String.list_ascii_of_string b → a = b.
Proof.
  intros E. rewrite <- (String.string_of_list_ascii_of_string a), E. apply String.string_of_list_ascii_of_string.
Qed.

Lemma list_of_length s : length (String.list_ascii_of_string s) = String.length s.
Proof. induction s as [|c s IH]; [done|]. simpl. by rewrite IH. Qed.

Lemma digit_is n : (0 <= n < 10)%Z → is_digit (digit n) = true ∧ byte (digit n) = (48 + n)%Z.
Proof.
  intros. assert (byte (digit n) = (48 + n)%Z) as E by (unfold digit; apply byte_of_byte; lia).
  split; [|done]. unfold is_digit. rewrite E. apply in_range_spec. lia.
Qed.

Lemma num_snoc l c : num (l ++ [c]) = (10 * num l + (byte c - 48))%Z.
Proof.
  induction l as [|d l IH]; [simpl; lia|]. simpl. rewrite IH, length_app, Nat2Z.inj_add, Z.pow_add_r by lia. simpl. lia.
Qed.

Lemma itoa_fuel_spec k n acc : (0 <= n < 10 ^ Z.of_nat (S k))%Z → ∃ ds,
  String.list_ascii_of_string (itoa_fuel (S k) n acc) = ds ++ String.list_ascii_of_string acc ∧
  Forall (λ c, is_digit c = true) ds ∧ num ds = n.
Proof.
  revert n acc. induction k as [|k IH]; intros n acc Hn; cbn [itoa_fuel].
  - assert (n < 10)%Z by (simpl in Hn; lia). rewrite (proj2 (Z.ltb_lt n 10)) by done.
    exists [digit (n mod 10)]. rewrite Z.mod_small by lia. destruct (digit_is n) as [? E]; [lia|].
    split; [done|]. split; [by constructor|]. simpl. rewrite E. lia.
  - pose proof (Z.div_mod n 10 ltac:(lia)). pose proof (Z.mod_pos_bound n 10 ltac:(lia)).
    destruct (digit_is (n mod 10)) as [Hd E]; [lia|]. destruct (n <? 10)%Z eqn:El.
    + apply Z.ltb_lt in El. exists [digit (n mod 10)]. split; [done|]. split; [by constructor|]. simpl. rewrite E.
      rewrite Z.mod_small by lia. lia.
    + apply Z.ltb_ge in El. destruct (IH (n / 10)%Z (String (digit (n mod 10)) acc)) as (ds & Hl & Hf & Hs).
      { rewrite Nat2Z.inj_succ, Z.pow_succ_r in Hn by lia. split; [apply Z.div_pos; lia|apply Z.div_lt_upper_bound; lia]. }
      exists (ds ++ [digit (n mod 10)]). split; [|split].
      * etransitivity; [exact Hl|]. simpl. by rewrite <- app_assoc.
      * apply Forall_app. split; [done|by constructor].
      * rewrite num_snoc, Hs, E. lia.
Qed.

Lemma Itoa_spec n : (0 <= n < 10 ^ 20)%Z →
  Forall (λ c, is_digit c = true) (String.list_ascii_of_string (Itoa n)) ∧ num (String.list_ascii_of_string (Itoa n)) = n.
Proof.
  intros Hn. unfold Itoa. rewrite (proj2 (Z.ltb_ge n 0)) by lia.
  destruct (itoa_fuel_spec 19 n "") as (ds & -> & Hf & Hs); [exact Hn|]. simpl. by rewrite app_nil_r.
Qed.

Lemma Itoa_inj n n' : (0 <= n < 10 ^ 20)%Z → (0 <= n' < 10 ^ 20)%Z → Itoa n = Itoa n' → n = n'.
Proof. intros Hn Hn' E. rewrite <- (proj2 (Itoa_spec n Hn)), E. by apply Itoa_spec. Qed.

(** A separator that does not occur on its right is found again. *)
Lemma last_sep {A} (x : A) l1 l2 r1 r2 : x ∉ r1 → x ∉ r2 → l1 ++ x :: r1 = l2 ++ x :: r2 → l1 = l2 ∧ r1 = r2.
Proof.
  intros H1 H2. revert l2. induction l1 as [|a l1 IH]; intros [|b l2] E; simpl in E; simplify_eq.
  - done.
  - destruct H1. apply elem_of_app. right. left.
  - destruct H2. apply elem_of_app. right. left.
  - destruct (IH l2) as [-> ->]; done.
Qed.

Lemma digits_no_char c l : is_digit c = false → Forall (λ c, is_digit c = true) l → c ∉ l.
Proof. intros Hc Hf Hin. rewrite list.Forall_forall in Hf. specialize (Hf c Hin). congruence. Qed.

Lemma num_bound l : Forall (λ c, is_digit c = true) l → (0 <= num l < 10 ^ Z.of_nat (length l))%Z.
Proof.
  induction 1 as [|c l Hc Hl IH]; [simpl; lia|]. cbn [num length]. unfold is_digit in Hc. apply in_range_spec in Hc.
  rewrite Nat2Z.inj_succ, Z.pow_succ_r by lia. nia.
Qed.

(** Digits of one width: the order of the bytes is the order of the numbers. *)
Lemma digits_compare s t x y :
  Forall (λ c, is_digit c = true) (String.list_ascii_of_string s) →
  Forall (λ c, is_digit c = true) (String.list_ascii_of_string t) →
  String.length s = String.length t →
  (num (String.list_ascii_of_string s) < num (String.list_ascii_of_string t))%Z →
  String.compare (s ^^ x) (t ^^ y) = Lt.
Proof.
  revert t. induction s as [|c s IH]; intros [|d t] Hs Ht Hl Hn; simpl in Hl; [simpl in Hn; lia|done|done|].
  cbn [String.list_ascii_of_string] in Hs, Ht, Hn. inversion Hs as [|? ? Hc Hs']; inversion Ht as [|? ? Hd Ht']; subst.
  pose proof (num_bound _ Hs') as B1. pose proof (num_bound _ Ht') as B2. simpl in Hn.
  rewrite !list_of_length in *. injection Hl as Hl. rewrite Hl in *.
  rewrite !string_app_cons. cbn [String.compare]. unfold is_digit in Hc, Hd. apply in_range_spec in Hc, Hd.
  destruct (Ascii.compare c d) eqn:E; unfold Ascii.compare in E.
  - apply N.compare_eq in E. assert (byte c = byte d) as Eb by (unfold byte; lia).
    apply IH; [done..|]. rewrite Eb in Hn. lia.
  - done.
  - apply N.compare_gt_iff in E. assert (byte d < byte c)%Z by (unfold byte; lia). nia.
Qed.

Lemma compare_common p x y : String.compare (p ^^ x) (p ^^ y) = String.compare x y.
Proof.
  induction p as [|c p IH]; [done|]. rewrite !string_app_cons. cbn [String.compare].
  unfold Ascii.compare. by rewrite N.compare_refl.
Qed.

Lemma leb_lt a b : String.compare a b = Lt → String.leb a b = true ∧ String.leb b a = false.
Proof. intros E. unfold String.leb. by rewrite (String.compare_antisym b a), E. Qed.

Lemma string_compare_refl s : String.compare s s = Eq.
Proof. induction s as [|c s IH]; [done|]. cbn [String.compare]. unfold Ascii.compare. by rewrite N.compare_refl. Qed.

(** ** [strconv.Atoi] *)

Definition all_digits (l : list ascii) : bool := negb (is_nil l) && List.forallb is_digit l.
Definition Atoi (s : string) : option Z :=
  match String.list_ascii_of_string s with
  | c :: l =>
    if Ascii.eqb c "-"%char then (if all_digits l && (num l <=? 2 ^ 63)%Z then Some (- num l)%Z else None)
    else
      let l := if Ascii.eqb c "+"%char then l else c :: l in
      if all_digits l && (num l <? 2 ^ 63)%Z then Some (num l) else None
  | [] => None
  end.

Lemma digit_not_sign c : is_digit c = true → Ascii.eqb c "-"%char = false ∧ Ascii.eqb c "+"%char = false.
Proof. intros Hc. split; apply not_true_iff_false; intros E%Ascii.eqb_eq; by subst. Qed.

Lemma Atoi_digits l : l ≠ [] → Forall (λ c, is_digit c = true) l → (num l < 2 ^ 63)%Z → Atoi (String.string_of_list_ascii l) = Some (num l).
Proof.
  intros Hne Hd Hr. unfold Atoi. rewrite String.list_ascii_of_string_of_list_ascii. destruct l as [|c l]; [done|].
  assert (Ha : all_digits (c :: l) = true).
  { apply andb_true_iff. split; [done|]. apply List.forallb_forall. intros x Hx%list_elem_of_In. by apply (proj1 (list.Forall_forall _ _) Hd). }
  assert (Hc : is_digit c = true) by (by apply (proj1 (list.Forall_forall _ _) Hd c); left). destruct (digit_not_sign c Hc) as [-> ->]. rewrite Ha, (proj2 (Z.ltb_lt _ _) Hr). done.
Qed.

Lemma Atoi_below s n : Atoi s = Some n → (n < 2 ^ 63)%Z.
Proof.
  unfold Atoi. destruct (String.list_ascii_of_string s) as [|c l]; [done|]. cbv zeta. destruct (Ascii.eqb c "-").
  - destruct (all_digits l && _) eqn:E; [|done]. apply andb_true_iff in E as [[_ E]%andb_true_iff _]. intros [= <-].
    assert (0 <= num l)%Z; [|lia]. apply num_bound, list.Forall_forall. intros x Hx%list_elem_of_In. by apply (proj1 (List.forallb_forall _ _) E).
  - destruct (all_digits _ && _) eqn:E; [|done]. apply andb_true_iff in E as [_ E%Z.ltb_lt]. by intros [= <-].
Qed.

Lemma itoa_fuel_nonempty k n acc : itoa_fuel (S k) n acc ≠ "".
Proof.
  revert n acc. induction k as [|k IH]; intros n acc; cbn [itoa_fuel]; destruct (n <? 10)%Z; try done. apply IH.
Qed.

(** Printing and reading agree. *)
Lemma Atoi_Itoa n : (0 <= n < 2 ^ 63)%Z → Atoi (Itoa n) = Some n.
Proof.
  intros Hn. destruct (Itoa_spec n ltac:(lia)) as [Hd E]. rewrite <- (String.string_of_list_ascii_of_string (Itoa n)).
  rewrite <- E at 2. apply Atoi_digits; [|done|lia]. intros He.
  assert (Hi : Itoa n = "") by by rewrite <- (String.string_of_list_ascii_of_string (Itoa n)), He.
  revert Hi. unfold Itoa. rewrite (proj2 (Z.ltb_ge n 0)) by lia. apply itoa_fuel_nonempty.
Qed.
