(* ===== verification/Regex.v ===== *)
(** * Regular expressions (the package regexp)

    The validations of the services match strings against anchored regular
    expressions over classes of ASCII characters.  [re] is their syntax,
    [MatchString] matches a string by derivatives, and [denotes] is the
    language of an expression; [MatchString_spec] relates the two.  All classes
    are ASCII, so that matching the bytes and matching the decoded runes is the
    same. *)

From S2P Require Import Prelude GoStrings Decimal.

Inductive re :=
  | Never
  | Empty
  | Cls (p : Z → bool)
  | Cat (r1 r2 : re)
  | Alt (r1 r2 : re)
  | Star (r : re).

(** [r?], [r+], a literal, [r{n}]. *)
Definition Opt (r : re) : re := Alt Empty r.
Definition Plus (r : re) : re := Cat r (Star r).
Definition Lit (c : ascii) : re := Cls (λ z, (z =? byte c)%Z).
Fixpoint Times (n : nat) (r : re) : re := match n with 0 => Empty | S n => Cat r (Times n r) end.

(** ** Character classes *)

Definition az (z : Z) : bool := in_range 97 122 z.
Definition AZ (z : Z) : bool := in_range 65 90 z.
Definition d09 (z : Z) : bool := in_range 48 57 z.
Definition alnum (z : Z) : bool := az z || AZ z || d09 z.
Definition one_of (cs : string) (z : Z) : bool := in_cutset cs (of_byte z).

(** [uuidRegex] (app/service.go). *)
Definition hex_digit (z : Z) : bool := d09 z || in_range 97 102 z || in_range 65 70 z.
Definition uuidRegex : re :=
  let hex n := Times n (Cls hex_digit) in
  Cat (hex 8) (Cat (Lit "-") (Cat (hex 4) (Cat (Lit "-") (Cat (hex 4) (Cat (Lit "-") (Cat (hex 4) (Cat (Lit "-") (hex 12)))))))).

(** ** Matching *)

Fixpoint nullable (r : re) : bool :=
  match r with
  | Never | Cls _ => false
  | Empty | Star _ => true
  | Cat r1 r2 => nullable r1 && nullable r2
  | Alt r1 r2 => nullable r1 || nullable r2
  end.

(** Sequencing and choice that drop dead branches. *)
Definition cat (r1 r2 : re) : re := match r1 with Never => Never | Empty => r2 | _ => Cat r1 r2 end.
Definition alt (r1 r2 : re) : re := match r1, r2 with Never, _ => r2 | _, Never => r1 | _, _ => Alt r1 r2 end.

Fixpoint derive (c : ascii) (r : re) : re :=
  match r with
  | Never | Empty => Never
  | Cls p => if p (byte c) then Empty else Never
  | Cat r1 r2 => if nullable r1 then alt (cat (derive c r1) r2) (derive c r2) else cat (derive c r1) r2
  | Alt r1 r2 => alt (derive c r1) (derive c r2)
  | Star r' => cat (derive c r') (Star r')
  end.

Fixpoint matches (r : re) (s : string) : bool :=
  match s with
  | EmptyString => nullable r
  | String c s => matches (derive c r) s
  end.

(** [regexp.MustCompile("^r$").MatchString(s)]. *)
Definition MatchString (r : re) (s : string) : bool := matches r s.

(** ** The language of an expression *)

Inductive denotes : re → string → Prop :=
  | den_empty : denotes Empty ""
  | den_cls (p : Z → bool) c : p (byte c) = true → denotes (Cls p) (String c "")
  | den_cat r1 r2 s1 s2 : denotes r1 s1 → denotes r2 s2 → denotes (Cat r1 r2) (s1 ^^ s2)
  | den_left r1 r2 s : denotes r1 s → denotes (Alt r1 r2) s
  | den_right r1 r2 s : denotes r2 s → denotes (Alt r1 r2) s
  | den_nil r : denotes (Star r) ""
  | den_more r s1 s2 : denotes r s1 → denotes (Star r) s2 → denotes (Star r) (s1 ^^ s2).
#[local] Hint Constructors denotes : core.

(** Inversion on the head constructor. *)
Ltac re_inv H :=
  match type of H with
  | denotes Never _ => by inversion H
  | denotes Empty _ => inversion H; subst; clear H
  | denotes (Cls _) _ => inversion H; subst; clear H
  | denotes (Cat _ _) _ => inversion H; subst; clear H
  | denotes (Alt _ _) _ => inversion H; subst; clear H
  end.

Lemma app_empty a b : a ^^ b = "" → a = "" ∧ b = "".
Proof. by destruct a. Qed.

Lemma nullable_spec r : nullable r = true ↔ denotes r "".
Proof.
  induction r as [| |p|r1 IH1 r2 IH2|r1 IH1 r2 IH2|r IH]; simpl.
  - split; [done|]. by inversion 1.
  - by split.
  - split; [done|]. by inversion 1.
  - rewrite andb_true_iff, IH1, IH2. split.
    + intros [H1 H2]. by apply (den_cat r1 r2 "" "").
    + inversion 1 as [| |? ? s1 s2 H1 H2 E H' | | | |]. by apply app_empty in H' as [-> ->].
  - rewrite orb_true_iff, IH1, IH2. split; [intros [?|?]; auto|]. inversion 1; auto.
  - by split.
Qed.

Lemma cat_denotes r1 r2 s : denotes (cat r1 r2) s ↔ denotes (Cat r1 r2) s.
Proof.
  destruct r1; simpl; try done.
  - split; [by inversion 1|]. intros H. re_inv H. by match goal with H : denotes Never _ |- _ => inversion H end.
  - split; [intros H; by apply (den_cat Empty r2 "")|]. intros H. re_inv H.
    by match goal with H : denotes Empty _ |- _ => inversion H; subst end.
Qed.

Lemma alt_denotes r1 r2 s : denotes (alt r1 r2) s ↔ denotes (Alt r1 r2) s.
Proof. destruct r1, r2; simpl; split; intros H; auto; inversion H; subst; auto; by match goal with H : denotes Never _ |- _ => inversion H end. Qed.

(** A word of a repetition that is not empty starts with a word that is not. *)
Lemma star_step r c0 s0 : denotes (Star r) (String c0 s0) →
  ∃ s1 s2, s0 = s1 ^^ s2 ∧ denotes r (String c0 s1) ∧ denotes (Star r) s2.
Proof.
  intros H. remember (Star r) as q eqn:Eq. remember (String c0 s0) as t eqn:Et. revert c0 s0 Et.
  induction H as [| | | | | |r' s1 s2 H1 _ H2 IH]; intros c0 s0 Et; try discriminate. injection Eq as ->.
  destruct s1 as [|c' s1].
  - simpl in Et. subst. by apply IH.
  - simpl in Et. injection Et as -> <-. by exists s1, s2.
Qed.

Lemma derive_spec r : ∀ c s, denotes (derive c r) s ↔ denotes r (String c s).
Proof.
  induction r as [| |p|r1 IH1 r2 IH2|r1 IH1 r2 IH2|r IH]; intros c s; simpl.
  - split; by inversion 1.
  - split; by inversion 1.
  - destruct (p (byte c)) eqn:E.
    + split; inversion 1; subst; auto.
    + split; inversion 1; subst. congruence.
  - assert (Hc : denotes (Cat (derive c r1) r2) s ↔ ∃ s1 s2, s = s1 ^^ s2 ∧ denotes r1 (String c s1) ∧ denotes r2 s2).
    { split.
      - intros H. re_inv H. eexists _, _. split; [reflexivity|]. split; [by apply IH1|done].
      - intros (s1 & s2 & -> & H1 & H2). constructor; [by apply IH1|done]. }
    assert (Hs : denotes (Cat r1 r2) (String c s) ↔
      (∃ s1 s2, s = s1 ^^ s2 ∧ denotes r1 (String c s1) ∧ denotes r2 s2) ∨ (denotes r1 "" ∧ denotes r2 (String c s))).
    { split.
      - intros H. inversion H as [| |q1 q2 s1 s2 H1 H2 E H'| | | |]. subst q1 q2. destruct s1 as [|c' s1]; simpl in H'.
        + right. by subst.
        + injection H' as -> <-. left. by exists s1, s2.
      - intros [(s1 & s2 & -> & H1 & H2)|[H1 H2]]; [by apply (den_cat r1 r2 (String c s1) s2)|by apply (den_cat r1 r2 "")]. }
    destruct (nullable r1) eqn:N.
    + apply nullable_spec in N. rewrite alt_denotes, Hs. split.
      * inversion 1; subst; [left; by apply Hc, cat_denotes|right; by rewrite <- IH2].
      * intros [H|[_ H]]; [apply den_left, cat_denotes, Hc, H|apply den_right, IH2, H].
    + assert (¬ denotes r1 "") by (rewrite <- nullable_spec; congruence). rewrite cat_denotes, Hc, Hs. tauto.
  - rewrite alt_denotes. split; inversion 1; subst; [apply den_left|apply den_right|apply den_left|apply den_right];
      first [by apply IH1|by apply IH2].
  - rewrite cat_denotes. split.
    + intros H. re_inv H. match goal with H : denotes (derive _ _) _ |- _ => apply IH in H end.
      by apply (den_more r (String c s1) s2).
    + intros (s1 & s2 & -> & H1 & H2)%star_step. constructor; [by apply IH|done].
Qed.

Lemma MatchString_spec r s : MatchString r s = true ↔ denotes r s.
Proof.
  unfold MatchString. revert r. induction s as [|c s IH]; intros r; simpl; [apply nullable_spec|].
  rewrite IH. apply derive_spec.
Qed.

(** ** Words over a class *)

Lemma star_cls p s : denotes (Star (Cls p)) s ↔ all_bytes p s = true.
Proof.
  induction s as [|c s IH].
  - split; [done|]. auto.
  - rewrite all_bytes_cons, andb_true_iff, <- IH. split.
    + intros (s1 & s2 & -> & H1 & H2)%star_step. inversion H1; subst. by rewrite string_nil_app.
    + intros [Hp Hs]. apply (den_more _ (String c "") s); auto.
Qed.

(** What a match says about the bytes of the string. *)
Fixpoint within (p : Z → bool) (r : re) : Prop :=
  match r with
  | Never | Empty => True
  | Cls q => ∀ c, q (byte c) = true → p (byte c) = true
  | Cat r1 r2 | Alt r1 r2 => within p r1 ∧ within p r2
  | Star r => within p r
  end.

Lemma within_all p r s : within p r → denotes r s → all_bytes p s = true.
Proof.
  intros Hw H. induction H as [|q c Hq|r1 r2 s1 s2 H1 IH1 H2 IH2|r1 r2 s H IH|r1 r2 s H IH| |r s1 s2 H1 IH1 H2 IH2];
    simpl in Hw; try done.
  - rewrite all_bytes_cons, (Hw _ Hq). done.
  - rewrite all_bytes_app, IH1, IH2; tauto.
  - apply IH; tauto.
  - apply IH; tauto.
  - rewrite all_bytes_app, IH1, IH2; done.
Qed.
