(* ===== verification/Schema.v ===== *)
(** * Schema

    The SQLite database of the instance: one record per table row (the
    columns of migrations/*.up.sql, NULL columns as options), one record for
    the whole database.  Tables are lists of rows in insertion order.  The
    [updated_at] columns, maintained by triggers and read by no code of the
    services modelled here, are left out; so are the [created_at] columns that
    no query orders by, and the table [instance_settings], which no modelled
    service reads. *)

From S2P Require Import Prelude.
From stdpp Require Export gmap.

(** A TEXT column that holds a JSON array of strings: text that decodes to a
    list, or any other text (which [json.Unmarshal] rejects). *)
Inductive json_text :=
  | JStrings (l : list string)
  | JRaw (s : string).

Record User := mkUser {
  u_id : string;
  u_email : string;
  u_password_hash : string;
  u_role : string;
  u_name : option string;
  u_avatar_path : option string;
  u_status : string;
  u_role_id : option string;
  u_2fa_enabled : bool;
  u_2fa_secret : option string;
  u_2fa_pending : option string;
  u_2fa_confirmed_at : option Z;
  u_2fa_recovery : option json_text;
  u_created_at : Z;
}.

Record RefreshToken := mkRefreshToken {
  rt_id : string;
  rt_user_id : string;
  rt_family_id : string;
  rt_token_hash : string;
  rt_revoked_at : option Z;
  rt_expires_at : Z;
}.

Record TotpUsed := mkTotpUsed {
  tu_user_id : string;
  tu_code : string;
  tu_window_ts : Z;
}.

Record RoleRow := mkRole {
  ro_id : string;
  ro_slug : string;
  ro_name : string;
  ro_description : string;
  ro_scope : string;
  ro_is_admin : bool;
  ro_is_system : bool;
  ro_permissions : json_text;
}.

Record TeamRow := mkTeam {
  tm_id : string;
  tm_name : string;
  tm_slug : string;
  tm_description : option string;
  tm_color : string;
  tm_avatar_path : option string;
}.

Record TeamMemberRow := mkTeamMember {
  mb_team_id : string;
  mb_user_id : string;
  mb_role_id : option string;
}.

Record Server := mkServer {
  sv_id : string;
  sv_name : string;
  sv_type : string;
  sv_host : option string;
  sv_port : Z;
  sv_user : option string;
  sv_private_key : option string;
  sv_host_key_fingerprint : option string;
  sv_status : string;
  sv_docker_version : option string;
  sv_last_checked_at : option Z;
  sv_created_at : Z;
}.

(** The row of [apps]. *)
Record App := mkApp {
  a_id : string;
  a_name : string;
  a_description : option string;
  a_team_id : option string;
  a_server_id : option string;
  a_git_source_id : option string;
  a_repo_url : option string;
  a_branch : string;
  a_git_commit_sha : option string;
  a_build_type : string;
  a_dockerfile_path : string;
  a_build_context : string;
  a_dockerfile_inline : option string;
  a_compose_file : option string;
  a_compose_inline : option string;
  a_image_name : option string;
  a_image_tag : string;
  a_install_command : option string;
  a_build_command : option string;
  a_start_command : option string;
  a_pre_deploy_command : option string;
  a_post_deploy_command : option string;
  a_port : option Z;
  a_host_port : option Z;
  a_container_name : option string;
  a_health_check_enabled : bool;
  a_health_check_path : string;
  a_health_check_method : string;
  a_health_check_port : option Z;
  a_health_check_return_code : Z;
  a_health_check_interval : Z;
  a_health_check_timeout : Z;
  a_health_check_retries : Z;
  a_health_check_start_period : Z;
  a_limits_memory : option string;
  a_limits_cpus : option string;
  a_limits_memory_swap : option string;
  a_limits_memory_swappiness : option Z;
  a_limits_memory_reservation : option string;
  a_limits_cpuset : option string;
  a_limits_cpu_shares : option Z;
  a_restart_policy : string;
  a_auto_deploy_branch : option string;
  a_build_args_inject : bool;
  a_build_args_source_commit : bool;
  a_docker_labels : gmap string string;
  a_env_vars : gmap string string;
  a_status : string;
  a_created_at : Z;
}.

(** The columns of an UPDATE of an app: the map [sets] of the code, whose keys
    are column names; [None] is a column that is not set. *)
Record AppSets := mkAppSets {
  s_name : option string;
  s_description : option (option string);
  s_team_id : option (option string);
  s_server_id : option (option string);
  s_git_source_id : option (option string);
  s_repo_url : option (option string);
  s_branch : option string;
  s_git_commit_sha : option (option string);
  s_build_type : option string;
  s_dockerfile_path : option string;
  s_build_context : option string;
  s_dockerfile_inline : option (option string);
  s_compose_file : option (option string);
  s_compose_inline : option (option string);
  s_image_name : option (option string);
  s_image_tag : option string;
  s_install_command : option (option string);
  s_build_command : option (option string);
  s_start_command : option (option string);
  s_pre_deploy_command : option (option string);
  s_post_deploy_command : option (option string);
  s_port : option (option Z);
  s_host_port : option (option Z);
  s_container_name : option (option string);
  s_health_check_enabled : option bool;
  s_health_check_path : option string;
  s_health_check_method : option string;
  s_health_check_port : option (option Z);
  s_health_check_return_code : option Z;
  s_health_check_interval : option Z;
  s_health_check_timeout : option Z;
  s_health_check_retries : option Z;
  s_health_check_start_period : option Z;
  s_limits_memory : option (option string);
  s_limits_cpus : option (option string);
  s_limits_memory_swap : option (option string);
  s_limits_memory_swappiness : option (option Z);
  s_limits_memory_reservation : option (option string);
  s_limits_cpuset : option (option string);
  s_limits_cpu_shares : option (option Z);
  s_restart_policy : option string;
  s_auto_deploy_branch : option (option string);
  s_build_args_inject : option bool;
  s_build_args_source_commit : option bool;
  s_docker_labels : option (gmap string string);
  s_env_vars : option (gmap string string);
  s_status : option string;
}.
Definition no_sets : AppSets :=
  mkAppSets None None None None None None None None None None None None None None None None None None None
    None None None None None None None None None None None None None None None None None None None None None
    None None None None None None None.
Definition apply_app_sets (s : AppSets) (a : App) : App :=
  mkApp (a_id a) (default (a_name a) (s_name s)) (default (a_description a) (s_description s))
    (default (a_team_id a) (s_team_id s)) (default (a_server_id a) (s_server_id s))
    (default (a_git_source_id a) (s_git_source_id s)) (default (a_repo_url a) (s_repo_url s))
    (default (a_branch a) (s_branch s)) (default (a_git_commit_sha a) (s_git_commit_sha s))
    (default (a_build_type a) (s_build_type s)) (default (a_dockerfile_path a) (s_dockerfile_path s))
    (default (a_build_context a) (s_build_context s))
    (default (a_dockerfile_inline a) (s_dockerfile_inline s))
    (default (a_compose_file a) (s_compose_file s)) (default (a_compose_inline a) (s_compose_inline s))
    (default (a_image_name a) (s_image_name s)) (default (a_image_tag a) (s_image_tag s))
    (default (a_install_command a) (s_install_command s)) (default (a_build_command a) (s_build_command s))
    (default (a_start_command a) (s_start_command s))
    (default (a_pre_deploy_command a) (s_pre_deploy_command s))
    (default (a_post_deploy_command a) (s_post_deploy_command s)) (default (a_port a) (s_port s))
    (default (a_host_port a) (s_host_port s)) (default (a_container_name a) (s_container_name s))
    (default (a_health_check_enabled a) (s_health_check_enabled s))
    (default (a_health_check_path a) (s_health_check_path s))
    (default (a_health_check_method a) (s_health_check_method s))
    (default (a_health_check_port a) (s_health_check_port s))
    (default (a_health_check_return_code a) (s_health_check_return_code s))
    (default (a_health_check_interval a) (s_health_check_interval s))
    (default (a_health_check_timeout a) (s_health_check_timeout s))
    (default (a_health_check_retries a) (s_health_check_retries s))
    (default (a_health_check_start_period a) (s_health_check_start_period s))
    (default (a_limits_memory a) (s_limits_memory s)) (default (a_limits_cpus a) (s_limits_cpus s))
    (default (a_limits_memory_swap a) (s_limits_memory_swap s))
    (default (a_limits_memory_swappiness a) (s_limits_memory_swappiness s))
    (default (a_limits_memory_reservation a) (s_limits_memory_reservation s))
    (default (a_limits_cpuset a) (s_limits_cpuset s))
    (default (a_limits_cpu_shares a) (s_limits_cpu_shares s))
    (default (a_restart_policy a) (s_restart_policy s))
    (default (a_auto_deploy_branch a) (s_auto_deploy_branch s))
    (default (a_build_args_inject a) (s_build_args_inject s))
    (default (a_build_args_source_commit a) (s_build_args_source_commit s))
    (default (a_docker_labels a) (s_docker_labels s)) (default (a_env_vars a) (s_env_vars s))
    (default (a_status a) (s_status s)) (a_created_at a).
Definition is_none {A} (x : option A) : bool := match x with None => true | Some _ => false end.
(** [len(sets) == 0]. *)
Definition sets_empty (s : AppSets) : bool :=
  is_none (s_name s) && is_none (s_description s) && is_none (s_team_id s) && is_none (s_server_id s)
  && is_none (s_git_source_id s) && is_none (s_repo_url s) && is_none (s_branch s)
  && is_none (s_git_commit_sha s) && is_none (s_build_type s) && is_none (s_dockerfile_path s)
  && is_none (s_build_context s) && is_none (s_dockerfile_inline s) && is_none (s_compose_file s)
  && is_none (s_compose_inline s) && is_none (s_image_name s) && is_none (s_image_tag s)
  && is_none (s_install_command s) && is_none (s_build_command s) && is_none (s_start_command s)
  && is_none (s_pre_deploy_command s) && is_none (s_post_deploy_command s) && is_none (s_port s)
  && is_none (s_host_port s) && is_none (s_container_name s) && is_none (s_health_check_enabled s)
  && is_none (s_health_check_path s) && is_none (s_health_check_method s)
  && is_none (s_health_check_port s) && is_none (s_health_check_return_code s)
  && is_none (s_health_check_interval s) && is_none (s_health_check_timeout s)
  && is_none (s_health_check_retries s) && is_none (s_health_check_start_period s)
  && is_none (s_limits_memory s) && is_none (s_limits_cpus s) && is_none (s_limits_memory_swap s)
  && is_none (s_limits_memory_swappiness s) && is_none (s_limits_memory_reservation s)
  && is_none (s_limits_cpuset s) && is_none (s_limits_cpu_shares s) && is_none (s_restart_policy s)
  && is_none (s_auto_deploy_branch s) && is_none (s_build_args_inject s)
  && is_none (s_build_args_source_commit s) && is_none (s_docker_labels s) && is_none (s_env_vars s)
  && is_none (s_status s).

(** Replacing one column of an app row. *)
Definition set_app_team (v : option string) (a : App) : App :=
  mkApp (a_id a) (a_name a) (a_description a) v (a_server_id a) (a_git_source_id a) (a_repo_url a)
    (a_branch a) (a_git_commit_sha a) (a_build_type a) (a_dockerfile_path a) (a_build_context a)
    (a_dockerfile_inline a) (a_compose_file a) (a_compose_inline a) (a_image_name a) (a_image_tag a)
    (a_install_command a) (a_build_command a) (a_start_command a) (a_pre_deploy_command a)
    (a_post_deploy_command a) (a_port a) (a_host_port a) (a_container_name a) (a_health_check_enabled a)
    (a_health_check_path a) (a_health_check_method a) (a_health_check_port a) (a_health_check_return_code a)
    (a_health_check_interval a) (a_health_check_timeout a) (a_health_check_retries a)
    (a_health_check_start_period a) (a_limits_memory a) (a_limits_cpus a) (a_limits_memory_swap a)
    (a_limits_memory_swappiness a) (a_limits_memory_reservation a) (a_limits_cpuset a)
    (a_limits_cpu_shares a) (a_restart_policy a) (a_auto_deploy_branch a) (a_build_args_inject a)
    (a_build_args_source_commit a) (a_docker_labels a) (a_env_vars a) (a_status a) (a_created_at a).
Definition set_app_status (v : string) (a : App) : App :=
  mkApp (a_id a) (a_name a) (a_description a) (a_team_id a) (a_server_id a) (a_git_source_id a)
    (a_repo_url a) (a_branch a) (a_git_commit_sha a) (a_build_type a) (a_dockerfile_path a)
    (a_build_context a) (a_dockerfile_inline a) (a_compose_file a) (a_compose_inline a) (a_image_name a)
    (a_image_tag a) (a_install_command a) (a_build_command a) (a_start_command a) (a_pre_deploy_command a)
    (a_post_deploy_command a) (a_port a) (a_host_port a) (a_container_name a) (a_health_check_enabled a)
    (a_health_check_path a) (a_health_check_method a) (a_health_check_port a) (a_health_check_return_code a)
    (a_health_check_interval a) (a_health_check_timeout a) (a_health_check_retries a)
    (a_health_check_start_period a) (a_limits_memory a) (a_limits_cpus a) (a_limits_memory_swap a)
    (a_limits_memory_swappiness a) (a_limits_memory_reservation a) (a_limits_cpuset a)
    (a_limits_cpu_shares a) (a_restart_policy a) (a_auto_deploy_branch a) (a_build_args_inject a)
    (a_build_args_source_commit a) (a_docker_labels a) (a_env_vars a) v (a_created_at a).
Definition set_app_container (v : option string) (a : App) : App :=
  mkApp (a_id a) (a_name a) (a_description a) (a_team_id a) (a_server_id a) (a_git_source_id a)
    (a_repo_url a) (a_branch a) (a_git_commit_sha a) (a_build_type a) (a_dockerfile_path a)
    (a_build_context a) (a_dockerfile_inline a) (a_compose_file a) (a_compose_inline a) (a_image_name a)
    (a_image_tag a) (a_install_command a) (a_build_command a) (a_start_command a) (a_pre_deploy_command a)
    (a_post_deploy_command a) (a_port a) (a_host_port a) v (a_health_check_enabled a)
    (a_health_check_path a) (a_health_check_method a) (a_health_check_port a) (a_health_check_return_code a)
    (a_health_check_interval a) (a_health_check_timeout a) (a_health_check_retries a)
    (a_health_check_start_period a) (a_limits_memory a) (a_limits_cpus a) (a_limits_memory_swap a)
    (a_limits_memory_swappiness a) (a_limits_memory_reservation a) (a_limits_cpuset a)
    (a_limits_cpu_shares a) (a_restart_policy a) (a_auto_deploy_branch a) (a_build_args_inject a)
    (a_build_args_source_commit a) (a_docker_labels a) (a_env_vars a) (a_status a) (a_created_at a).
Definition set_app_commit (v : option string) (a : App) : App :=
  mkApp (a_id a) (a_name a) (a_description a) (a_team_id a) (a_server_id a) (a_git_source_id a)
    (a_repo_url a) (a_branch a) v (a_build_type a) (a_dockerfile_path a) (a_build_context a)
    (a_dockerfile_inline a) (a_compose_file a) (a_compose_inline a) (a_image_name a) (a_image_tag a)
    (a_install_command a) (a_build_command a) (a_start_command a) (a_pre_deploy_command a)
    (a_post_deploy_command a) (a_port a) (a_host_port a) (a_container_name a) (a_health_check_enabled a)
    (a_health_check_path a) (a_health_check_method a) (a_health_check_port a) (a_health_check_return_code a)
    (a_health_check_interval a) (a_health_check_timeout a) (a_health_check_retries a)
    (a_health_check_start_period a) (a_limits_memory a) (a_limits_cpus a) (a_limits_memory_swap a)
    (a_limits_memory_swappiness a) (a_limits_memory_reservation a) (a_limits_cpuset a)
    (a_limits_cpu_shares a) (a_restart_policy a) (a_auto_deploy_branch a) (a_build_args_inject a)
    (a_build_args_source_commit a) (a_docker_labels a) (a_env_vars a) (a_status a) (a_created_at a).
Definition set_app_host_port (v : option Z) (a : App) : App :=
  mkApp (a_id a) (a_name a) (a_description a) (a_team_id a) (a_server_id a) (a_git_source_id a)
    (a_repo_url a) (a_branch a) (a_git_commit_sha a) (a_build_type a) (a_dockerfile_path a)
    (a_build_context a) (a_dockerfile_inline a) (a_compose_file a) (a_compose_inline a) (a_image_name a)
    (a_image_tag a) (a_install_command a) (a_build_command a) (a_start_command a) (a_pre_deploy_command a)
    (a_post_deploy_command a) (a_port a) v (a_container_name a) (a_health_check_enabled a)
    (a_health_check_path a) (a_health_check_method a) (a_health_check_port a) (a_health_check_return_code a)
    (a_health_check_interval a) (a_health_check_timeout a) (a_health_check_retries a)
    (a_health_check_start_period a) (a_limits_memory a) (a_limits_cpus a) (a_limits_memory_swap a)
    (a_limits_memory_swappiness a) (a_limits_memory_reservation a) (a_limits_cpuset a)
    (a_limits_cpu_shares a) (a_restart_policy a) (a_auto_deploy_branch a) (a_build_args_inject a)
    (a_build_args_source_commit a) (a_docker_labels a) (a_env_vars a) (a_status a) (a_created_at a).

(** An app with the defaults of the schema, running. *)
Definition bare_app (id name : string) (server : option string) (container : option string) (hc : bool) : App :=
  mkApp id name None None server None None "main" None "dockerfile" "Dockerfile" "." None None None None "latest"
    None None None None None (Some 8080%Z) None container hc "/" "GET" None 200 5 5 3 10 None None None None None
    None None "unless-stopped" None true false ∅ ∅ "running" 0.

Record Domain := mkDomain {
  d_id : string;
  d_name : string;
  d_app_id : option string;
  d_is_primary : bool;
  d_ssl_status : string;
  d_ssl_expires_at : option Z;
  d_dns_verified : bool;
  d_dns_verified_at : option Z;
  d_dns_last_check : option Z;
  d_dns_check_count : Z;
  d_zone_id : option string;
  d_covered_by_wildcard : bool;
  d_service : option string;
  d_port : option Z;
  d_force_https : bool;
  d_created_at : Z;
}.

Record Deployment := mkDeployment {
  dp_id : string;
  dp_app_id : string;
  dp_commit_sha : option string;
  dp_commit_msg : option string;
  dp_branch : option string;
  dp_image_tag : option string;
  dp_rollback_of : option string;
  dp_status : string;
  dp_log_path : option string;
  dp_error_message : option string;
  dp_started_at : option Z;
  dp_finished_at : option Z;
  dp_created_at : Z;
}.

(** Replacing one column of a deployment row. *)
Definition set_dp_status (v : string) (d : Deployment) : Deployment :=
  mkDeployment (dp_id d) (dp_app_id d) (dp_commit_sha d) (dp_commit_msg d) (dp_branch d)
    (dp_image_tag d) (dp_rollback_of d) v (dp_log_path d) (dp_error_message d)
    (dp_started_at d) (dp_finished_at d) (dp_created_at d).
Definition set_dp_commit_sha (v : option string) (d : Deployment) : Deployment :=
  mkDeployment (dp_id d) (dp_app_id d) v (dp_commit_msg d) (dp_branch d) (dp_image_tag
    d) (dp_rollback_of d) (dp_status d) (dp_log_path d) (dp_error_message d)
    (dp_started_at d) (dp_finished_at d) (dp_created_at d).
Definition set_dp_image_tag (v : option string) (d : Deployment) : Deployment :=
  mkDeployment (dp_id d) (dp_app_id d) (dp_commit_sha d) (dp_commit_msg d) (dp_branch d)
    v (dp_rollback_of d) (dp_status d) (dp_log_path d) (dp_error_message d)
    (dp_started_at d) (dp_finished_at d) (dp_created_at d).
Definition set_dp_error_message (v : option string) (d : Deployment) : Deployment :=
  mkDeployment (dp_id d) (dp_app_id d) (dp_commit_sha d) (dp_commit_msg d) (dp_branch d)
    (dp_image_tag d) (dp_rollback_of d) (dp_status d) (dp_log_path d) v (dp_started_at
    d) (dp_finished_at d) (dp_created_at d).
Definition set_dp_started_at (v : option Z) (d : Deployment) : Deployment :=
  mkDeployment (dp_id d) (dp_app_id d) (dp_commit_sha d) (dp_commit_msg d) (dp_branch d)
    (dp_image_tag d) (dp_rollback_of d) (dp_status d) (dp_log_path d) (dp_error_message
    d) v (dp_finished_at d) (dp_created_at d).
Definition set_dp_finished_at (v : option Z) (d : Deployment) : Deployment :=
  mkDeployment (dp_id d) (dp_app_id d) (dp_commit_sha d) (dp_commit_msg d) (dp_branch d)
    (dp_image_tag d) (dp_rollback_of d) (dp_status d) (dp_log_path d) (dp_error_message
    d) (dp_started_at d) v (dp_created_at d).

Record Volume := mkVolume {
  v_id : string;
  v_app_id : string;
  v_service : option string;
  v_mount_path : string;
  v_host_path : option string;
  v_is_named : bool;
  v_read_only : bool;
}.

Record GitSource := mkGitSource {
  gs_id : string;
  gs_type : string;
  gs_name : string;
  gs_installation_id : option string;
  gs_private_key : option string;
  gs_public_key : option string;
  gs_token : option string;
  gs_app_id : option string;
  gs_app_slug : option string;
  gs_app_private_key : option string;
  gs_account_login : option string;
  gs_account_type : option string;
  gs_webhook_secret : option string;
  gs_created_at : Z;
}.

Record SecretRow := mkSecret {
  se_id : string;
  se_app_id : string;
  se_key : string;
  se_value : string;
  se_is_build_time : bool;
  se_is_multiline : bool;
}.

Record ApiToken := mkApiToken {
  at_id : string;
  at_user_id : string;
  at_name : string;
  at_token_hash : string;
  at_last_four : string;
  at_expires_at : option Z;
  at_last_used_at : option Z;
  at_revoked_at : option Z;
  at_created_at : Z;
}.

Record Tag := mkTag { tg_id : string; tg_name : string; tg_color : option string }.

Record AppTag := mkAppTag { ag_app_id : string; ag_tag_id : string }.

Record DnsZone := mkDnsZone {
  dz_id : string;
  dz_apex : string;
  dz_target_ip : option string;
  dz_apex_verified : bool;
  dz_apex_verified_at : option Z;
  dz_apex_last_check : option Z;
  dz_wildcard_verified : bool;
  dz_wildcard_verified_at : option Z;
  dz_wildcard_last_check : option Z;
  dz_notes : option string;
  dz_created_at : Z;
}.

Record Db := mkDb {
  users : list User;
  refresh_tokens : list RefreshToken;
  totp_used : list TotpUsed;
  roles : list RoleRow;
  teams : list TeamRow;
  team_members : list TeamMemberRow;
  servers : list Server;
  apps : list App;
  domains : list Domain;
  deployments : list Deployment;
  app_volumes : list Volume;
  git_sources : list GitSource;
  secrets : list SecretRow;
  api_tokens : list ApiToken;
  tags : list Tag;
  app_tags : list AppTag;
  dns_zones : list DnsZone;
  settings : list (string * string);
}.

Definition empty_db : Db := mkDb [] [] [] [] [] [] [] [] [] [] [] [] [] [] [] [] [] [].

(** Replacing one table of the database. *)
Definition on_users (f : list User → list User) (d : Db) : Db :=
  mkDb (f (users d)) (refresh_tokens d) (totp_used d) (roles d) (teams d) (team_members d) (servers d)
    (apps d) (domains d) (deployments d) (app_volumes d) (git_sources d) (secrets d) (api_tokens d) (tags d)
    (app_tags d) (dns_zones d) (settings d).
Definition on_refresh_tokens (f : list RefreshToken → list RefreshToken) (d : Db) : Db :=
  mkDb (users d) (f (refresh_tokens d)) (totp_used d) (roles d) (teams d) (team_members d) (servers d)
    (apps d) (domains d) (deployments d) (app_volumes d) (git_sources d) (secrets d) (api_tokens d) (tags d)
    (app_tags d) (dns_zones d) (settings d).
Definition on_totp_used (f : list TotpUsed → list TotpUsed) (d : Db) : Db :=
  mkDb (users d) (refresh_tokens d) (f (totp_used d)) (roles d) (teams d) (team_members d) (servers d)
    (apps d) (domains d) (deployments d) (app_volumes d) (git_sources d) (secrets d) (api_tokens d) (tags d)
    (app_tags d) (dns_zones d) (settings d).
Definition on_roles (f : list RoleRow → list RoleRow) (d : Db) : Db :=
  mkDb (users d) (refresh_tokens d) (totp_used d) (f (roles d)) (teams d) (team_members d) (servers d)
    (apps d) (domains d) (deployments d) (app_volumes d) (git_sources d) (secrets d) (api_tokens d) (tags d)
    (app_tags d) (dns_zones d) (settings d).
Definition on_teams (f : list TeamRow → list TeamRow) (d : Db) : Db :=
  mkDb (users d) (refresh_tokens d) (totp_used d) (roles d) (f (teams d)) (team_members d) (servers d)
    (apps d) (domains d) (deployments d) (app_volumes d) (git_sources d) (secrets d) (api_tokens d) (tags d)
    (app_tags d) (dns_zones d) (settings d).
Definition on_team_members (f : list TeamMemberRow → list TeamMemberRow) (d : Db) : Db :=
  mkDb (users d) (refresh_tokens d) (totp_used d) (roles d) (teams d) (f (team_members d)) (servers d)
    (apps d) (domains d) (deployments d) (app_volumes d) (git_sources d) (secrets d) (api_tokens d) (tags d)
    (app_tags d) (dns_zones d) (settings d).
Definition on_servers (f : list Server → list Server) (d : Db) : Db :=
  mkDb (users d) (refresh_tokens d) (totp_used d) (roles d) (teams d) (team_members d) (f (servers d))
    (apps d) (domains d) (deployments d) (app_volumes d) (git_sources d) (secrets d) (api_tokens d) (tags d)
    (app_tags d) (dns_zones d) (settings d).
Definition on_apps (f : list App → list App) (d : Db) : Db :=
  mkDb (users d) (refresh_tokens d) (totp_used d) (roles d) (teams d) (team_members d) (servers d)
    (f (apps d)) (domains d) (deployments d) (app_volumes d) (git_sources d) (secrets d) (api_tokens d)
    (tags d) (app_tags d) (dns_zones d) (settings d).
Definition on_domains (f : list Domain → list Domain) (d : Db) : Db :=
  mkDb (users d) (refresh_tokens d) (totp_used d) (roles d) (teams d) (team_members d) (servers d) (apps d)
    (f (domains d)) (deployments d) (app_volumes d) (git_sources d) (secrets d) (api_tokens d) (tags d)
    (app_tags d) (dns_zones d) (settings d).
Definition on_deployments (f : list Deployment → list Deployment) (d : Db) : Db :=
  mkDb (users d) (refresh_tokens d) (totp_used d) (roles d) (teams d) (team_members d) (servers d) (apps d)
    (domains d) (f (deployments d)) (app_volumes d) (git_sources d) (secrets d) (api_tokens d) (tags d)
    (app_tags d) (dns_zones d) (settings d).
Definition on_app_volumes (f : list Volume → list Volume) (d : Db) : Db :=
  mkDb (users d) (refresh_tokens d) (totp_used d) (roles d) (teams d) (team_members d) (servers d) (apps d)
    (domains d) (deployments d) (f (app_volumes d)) (git_sources d) (secrets d) (api_tokens d) (tags d)
    (app_tags d) (dns_zones d) (settings d).
Definition on_git_sources (f : list GitSource → list GitSource) (d : Db) : Db :=
  mkDb (users d) (refresh_tokens d) (totp_used d) (roles d) (teams d) (team_members d) (servers d) (apps d)
    (domains d) (deployments d) (app_volumes d) (f (git_sources d)) (secrets d) (api_tokens d) (tags d)
    (app_tags d) (dns_zones d) (settings d).
Definition on_secrets (f : list SecretRow → list SecretRow) (d : Db) : Db :=
  mkDb (users d) (refresh_tokens d) (totp_used d) (roles d) (teams d) (team_members d) (servers d) (apps d)
    (domains d) (deployments d) (app_volumes d) (git_sources d) (f (secrets d)) (api_tokens d) (tags d)
    (app_tags d) (dns_zones d) (settings d).
Definition on_api_tokens (f : list ApiToken → list ApiToken) (d : Db) : Db :=
  mkDb (users d) (refresh_tokens d) (totp_used d) (roles d) (teams d) (team_members d) (servers d) (apps d)
    (domains d) (deployments d) (app_volumes d) (git_sources d) (secrets d) (f (api_tokens d)) (tags d)
    (app_tags d) (dns_zones d) (settings d).
Definition on_tags (f : list Tag → list Tag) (d : Db) : Db :=
  mkDb (users d) (refresh_tokens d) (totp_used d) (roles d) (teams d) (team_members d) (servers d) (apps d)
    (domains d) (deployments d) (app_volumes d) (git_sources d) (secrets d) (api_tokens d) (f (tags d))
    (app_tags d) (dns_zones d) (settings d).
Definition on_app_tags (f : list AppTag → list AppTag) (d : Db) : Db :=
  mkDb (users d) (refresh_tokens d) (totp_used d) (roles d) (teams d) (team_members d) (servers d) (apps d)
    (domains d) (deployments d) (app_volumes d) (git_sources d) (secrets d) (api_tokens d) (tags d)
    (f (app_tags d)) (dns_zones d) (settings d).
Definition on_dns_zones (f : list DnsZone → list DnsZone) (d : Db) : Db :=
  mkDb (users d) (refresh_tokens d) (totp_used d) (roles d) (teams d) (team_members d) (servers d) (apps d)
    (domains d) (deployments d) (app_volumes d) (git_sources d) (secrets d) (api_tokens d) (tags d)
    (app_tags d) (f (dns_zones d)) (settings d).
Definition on_settings (f : list (string * string) → list (string * string)) (d : Db) : Db :=
  mkDb (users d) (refresh_tokens d) (totp_used d) (roles d) (teams d) (team_members d) (servers d) (apps d)
    (domains d) (deployments d) (app_volumes d) (git_sources d) (secrets d) (api_tokens d) (tags d)
    (app_tags d) (dns_zones d) (f (settings d)).
