(* ===== verification/Http.v ===== *)
(** * Answers of the handlers (internal/api/httpx, internal/api/handler)

    A handler always answers: its errors have the empty type, and the errors of
    the services it calls come back as values.  The body of an answer is a
    parameter; a refusal carries the code of its JSON body. *)

From S2P Require Import Prelude Effects Schema.

Inductive Reply (B : Type) :=
  | Refuse (status : Z) (code : string)
  | Answer (status : Z) (body : B)
  | Bare (status : Z).
Arguments Refuse {B}. Arguments Answer {B}. Arguments Bare {B}.

Definition is_refusal {B} (r : Reply B) : bool := match r with Refuse _ _ => true | _ => false end.

(** A call of a service on a component [T] of the state of the handlers. *)
Definition calling {S T E A} (get : S → T) (put : T → S → S) (m : M T E A) : M S Empty_set (E + A) := λ s fs,
  match m (get s) fs with (t, fs', r) => (put t s, fs', inr r) end.

Lemma wp_calling {S T E A} (get : S → T) (put : T → S → S) (m : M T E A) (Q : S → Empty_set + (E + A) → Prop) s :
  wp m (λ t r, Q (put t s) (inr r)) (get s) → wp (calling get put m) Q s.
Proof. intros HW fs. specialize (HW fs). unfold calling. by destruct (m (get s) fs) as [[t fs'] r]. Qed.

Lemma runs_calling {S T E A} (get : S → T) (put : T → S → S) (m : M T E A) s t a :
  runs m (get s) t a → runs (calling get put m) s (put t s) (inr a).
Proof. intros HR. unfold runs, calling. by rewrite HR. Qed.

(** What a service keeps of its component, the handler keeps of its state. *)
Lemma preserves_calling {S T E A} (get : S → T) (put : T → S → S) (I : T → Prop) (m : M T E A) :
  (∀ t s, get (put t s) = t) → preserves I m → preserves (λ s, I (get s)) (calling get put m).
Proof. intros Hgp Hm s Hs. apply wp_calling. eapply wp_mono; [by apply Hm|]. intros t r. by rewrite Hgp. Qed.
