(* ===== verification/CryptoLib.v ===== *)
(** * Cryptographic libraries

    Code that is not part of the repository and that the authentication
    services call: SHA-256 with hex encoding, bcrypt (golang.org/x/crypto) and
    the HS256 signer and parser of golang-jwt.  They are operations of a class;
    what the services rely on is a second class of laws, so that a theorem
    names the laws it uses.  [toy_lib] is a concrete instance that satisfies
    them, for the evaluations. *)

From S2P Require Import Prelude.
From stdpp Require Import countable.

(** The claims of an access token ([jwt.MapClaims] in auth/jwt.go). *)
Record Claims := mkClaims {
  cl_sub : string;
  cl_iss : string;
  cl_iat : Z;
  cl_exp : Z;
}.

Class CryptoLib := {
  sha256_hex : string → string;
  (** [bcrypt_hash cost salt password]; [None] is bcrypt's error return. *)
  bcrypt_hash : Z → string → string → option string;
  bcrypt_compare : string → string → bool;
  (** [jwt_sign secret claims]: the compact HS256 token, or the signer's error. *)
  jwt_sign : string → Claims → option string;
  (** [jwt_parse keyfunc now raw]: [Some] when [keyfunc] accepts the
      algorithm of the header, the signature verifies with the key it returns
      and the token is not expired at [now]. *)
  jwt_parse : (string → option string) → Z → string → option Claims;
}.

(** Documented behaviour of the libraries. *)
Class CryptoLaws `{CryptoLib} := {
  bcrypt_roundtrip : ∀ cost salt pw h,
    bcrypt_hash cost salt pw = Some h → bcrypt_compare h pw = true;
  (** A password of at most 72 bytes and a cost between 4 and 31 hash. *)
  bcrypt_total : ∀ cost salt pw,
    (4 ≤ cost ≤ 31)%Z → (Z.of_nat (String.length pw) ≤ 72)%Z → ∃ h, bcrypt_hash cost salt pw = Some h;
  bcrypt_nonempty : ∀ cost salt pw h, bcrypt_hash cost salt pw = Some h → h ≠ "";
  (** HMAC signing with a byte-slice key does not fail. *)
  jwt_signs : ∀ secret c, ∃ raw, jwt_sign secret c = Some raw;
  jwt_roundtrip : ∀ keyfunc secret now c raw,
    jwt_sign secret c = Some raw →
    keyfunc "HS256" = Some secret → (now < cl_exp c)%Z →
    jwt_parse keyfunc now raw = Some c;
}.

(** ** A concrete instance, for evaluation *)

Fixpoint pos_bits (p : positive) : string :=
  match p with
  | xH => ""
  | xO p => String "0"%char (pos_bits p)
  | xI p => String "1"%char (pos_bits p)
  end.

Fixpoint bits_pos (s : string) : positive :=
  match s with
  | "" => xH
  | String c s => if Ascii.eqb c "1"%char then xI (bits_pos s) else xO (bits_pos s)
  end.

Lemma bits_pos_bits p : bits_pos (pos_bits p) = p.
Proof. induction p; simpl; congruence. Qed.

#[local] Instance toy_lib : CryptoLib := {|
  sha256_hex s := s;
  bcrypt_hash cost salt pw :=
    if (72 <? Z.of_nat (String.length pw))%Z then None else Some ("$2a$" ^^ pw);
  bcrypt_compare h pw := h =s ("$2a$" ^^ pw);
  jwt_sign secret c := Some (pos_bits (encode (secret, cl_sub c, cl_iss c, cl_iat c, cl_exp c)));
  jwt_parse keyfunc now raw :=
    match decode (bits_pos raw), keyfunc "HS256" with
    | Some (secret, sub, iss, iat, exp), Some key =>
      if (secret =s key) && (now <? exp)%Z then Some (mkClaims sub iss iat exp) else None
    | _, _ => None
    end;
|}.

#[local] Instance toy_laws : CryptoLaws.
Proof.
  split; simpl.
  - intros _ _ pw h Hh. case_match; simplify_eq. apply String.eqb_refl.
  - intros _ _ pw _ Hlen. rewrite (proj2 (Z.ltb_ge _ _)) by done. eauto.
  - intros _ _ pw h Hh. by case_match; simplify_eq.
  - eauto.
  - intros keyfunc secret now [sub iss iat exp] raw [= <-] Hk Hexp. simpl in *.
    rewrite bits_pos_bits, decode_encode, Hk, String.eqb_refl.
    apply Z.ltb_lt in Hexp. by rewrite Hexp.
Qed.
