(* ===== verification/Refresh.v ===== *)
(** * Refresh tokens (internal/auth/refresh.go, jwt.go, password_change.go)

    Token-family rotation over the [refresh_tokens] table, access tokens and
    the password change that revokes a user's sessions.  The clock readings,
    random tokens and UUIDs a method draws are its arguments. *)

From S2P Require Import Prelude Effects Schema CryptoLib.

Inductive AuthErr :=
  | ErrInvalidRefreshToken
  | ErrTokenReuse
  | ErrUserNotFound
  | ErrJwtSecretTooShort
  | ErrSign
  | ErrInvalidToken
  | ErrWrongIssuer
  | ErrMissingSub
  | ErrEmptyPassword
  | ErrBcrypt
  | ErrRand
  | ErrSql (where_ : string).

Definition RefreshTokenTTL : Z := 7 * 24 * 3600.
Definition AccessTokenTTL : Z := 15 * 60.
Definition JWTIssuer : string := "prexel".
Definition BcryptCost : Z := 12.

(** The row [t] would violate the primary key or UNIQUE(token_hash). *)
Definition clashes (t : RefreshToken) (l : list RefreshToken) : bool :=
  List.existsb (λ r, (rt_id r =s rt_id t) || (rt_token_hash r =s rt_token_hash t)) l.

(** [INSERT INTO refresh_tokens]: primary key, UNIQUE(token_hash) and the
    foreign key to [users]. *)
Definition insert_refresh (e : AuthErr) (t : RefreshToken) : M Db AuthErr unit :=
  checked e (λ d,
    if clashes t (refresh_tokens d)
       || negb (List.existsb (λ u, u_id u =s rt_user_id t) (users d))
    then inl e
    else inr (on_refresh_tokens (λ l, l ++ [t]) d, tt)).

Definition set_revoked (now : Z) (t : RefreshToken) : RefreshToken :=
  mkRefreshToken (rt_id t) (rt_user_id t) (rt_family_id t) (rt_token_hash t)
    (Some now) (rt_expires_at t).

Definition live (t : RefreshToken) : bool :=
  match rt_revoked_at t with None => true | Some _ => false end.

Definition set_password (h : string) (u : User) : User :=
  mkUser (u_id u) (u_email u) h (u_role u) (u_name u) (u_avatar_path u) (u_status u)
    (u_role_id u) (u_2fa_enabled u) (u_2fa_secret u) (u_2fa_pending u)
    (u_2fa_confirmed_at u) (u_2fa_recovery u) (u_created_at u).

Section Auth.
Context `{CryptoLib}.

Definition HashToken (raw : string) : string := sha256_hex raw.

(** auth/bcrypt.go *)
Definition HashPassword (salt plain : string) : AuthErr + string :=
  if plain =s "" then inl ErrEmptyPassword
  else match bcrypt_hash BcryptCost salt plain with
       | None => inl ErrBcrypt
       | Some h => inr h
       end.

Definition VerifyPassword (hash plain : string) : bool :=
  if (hash =s "") || (plain =s "") then false else bcrypt_compare hash plain.

(** auth/jwt.go *)
Definition IssueAccessToken (secret userID : string) (now : Z) : AuthErr + (string * Z) :=
  if (Z.of_nat (String.length secret) <? 32)%Z then inl ErrJwtSecretTooShort
  else
    let exp := (now + AccessTokenTTL)%Z in
    match jwt_sign secret (mkClaims userID JWTIssuer now exp) with
    | None => inl ErrSign
    | Some signed => inr (signed, exp)
    end.

Definition ParseAccessToken (secret raw : string) (now : Z) : AuthErr + string :=
  match jwt_parse (λ alg, if alg =s "HS256" then Some secret else None) now raw with
  | None => inl ErrInvalidToken
  | Some c =>
    if negb (cl_iss c =s JWTIssuer) then inl ErrWrongIssuer
    else if cl_sub c =s "" then inl ErrMissingSub
    else inr (cl_sub c)
  end.

(** Login: a token in a fresh family. *)
Definition IssueRefreshTokenInFamily (userID raw family id : string) (now : Z)
    : M Db AuthErr (string * string * Z) :=
  _ ← fallible ErrRand (λ d, (d, tt));
  let exp := (now + RefreshTokenTTL)%Z in
  _ ← insert_refresh (ErrSql "insert refresh")
        (mkRefreshToken id userID family (HashToken raw) None exp);
  mret (raw, family, exp).

Definition issueInFamily (userID familyID raw id : string) (now : Z)
    : M Db AuthErr (string * Z) :=
  _ ← fallible ErrRand (λ d, (d, tt));
  let exp := (now + RefreshTokenTTL)%Z in
  _ ← insert_refresh (ErrSql "insert refresh")
        (mkRefreshToken id userID familyID (HashToken raw) None exp);
  mret (raw, exp).

(** The transaction of [RotateRefreshToken]: [None] is the branch that
    commits the revocation of the family and then reports reuse. *)
Definition rotate_body (jwtSecret raw : string) (now now' now'' : Z) (newRaw newID : string)
    : M Db AuthErr (option (string * string * Z)) :=
  row ← query (ErrSql "select refresh")
          (λ d, sel (λ t, rt_token_hash t =s HashToken raw) (refresh_tokens d));
  match row with
  | None => throw ErrInvalidRefreshToken
  | Some t =>
    if (rt_expires_at t <? now)%Z then throw ErrInvalidRefreshToken
    else if negb (live t) then
      _ ← exec (ErrSql "revoke family")
            (on_refresh_tokens (upd (λ r, (rt_family_id r =s rt_family_id t) && live r)
                                    (set_revoked now)));
      mret None
    else
      _ ← exec (ErrSql "revoke current")
            (on_refresh_tokens (upd (λ r, rt_id r =s rt_id t) (set_revoked now)));
      _ ← fallible ErrRand (λ d, (d, tt));
      let exp := (now' + RefreshTokenTTL)%Z in
      _ ← insert_refresh (ErrSql "insert new refresh")
            (mkRefreshToken newID (rt_user_id t) (rt_family_id t) (HashToken newRaw) None exp);
      match IssueAccessToken jwtSecret (rt_user_id t) now'' with
      | inl e => throw e
      | inr (access, _) => mret (Some (newRaw, access, exp))
      end
  end.

Definition RotateRefreshToken (jwtSecret raw : string) (now now' now'' : Z) (newRaw newID : string)
    : M Db AuthErr (string * string * Z) :=
  if raw =s "" then throw ErrInvalidRefreshToken
  else
    r ← tx (ErrSql "begin") (ErrSql "commit")
           (rotate_body jwtSecret raw now now' now'' newRaw newID);
    match r with
    | None => throw ErrTokenReuse
    | Some res => mret res
    end.

(** Logout. *)
Definition RevokeRefreshToken (raw : string) (now : Z) : M Db AuthErr unit :=
  if raw =s "" then mret tt
  else exec (ErrSql "revoke")
         (on_refresh_tokens (upd (λ t, (rt_token_hash t =s HashToken raw) && live t)
                                 (set_revoked now))).

(** auth/password_change.go *)
Definition ChangePassword (userID newPlain salt : string) (now : Z) : M Db AuthErr unit :=
  match HashPassword salt newPlain with
  | inl e => throw e
  | inr hash =>
    tx (ErrSql "begin") (ErrSql "commit") (
      n ← fallible (ErrSql "update user") (λ d,
            (on_users (upd (λ u, u_id u =s userID) (set_password hash)) d,
             cnt (λ u, u_id u =s userID) (users d)));
      if Nat.eqb n 0 then throw ErrUserNotFound
      else exec (ErrSql "revoke refresh tokens")
             (on_refresh_tokens (upd (λ t, (rt_user_id t =s userID) && live t)
                                     (set_revoked now))))
  end.
End Auth.

(** ** What the table promises *)

Definition family_live (f : string) (t : RefreshToken) : bool :=
  (rt_family_id t =s f) && live t.

(** Token hashes are unique and a family has at most one usable token. *)
Record sessions_wf (d : Db) : Prop := {
  wf_hash : NoDup (rt_token_hash <$> refresh_tokens d);
  wf_live : ∀ f, cnt (family_live f) (refresh_tokens d) ≤ 1;
}.

(** [t'] is a later version of the row [t]: same token, and revoked if [t] is. *)
Definition later_row (t t' : RefreshToken) : Prop :=
  rt_id t' = rt_id t ∧ rt_user_id t' = rt_user_id t ∧ rt_family_id t' = rt_family_id t ∧
  rt_token_hash t' = rt_token_hash t ∧ rt_expires_at t' = rt_expires_at t ∧
  (live t = false → live t' = false).

Definition evolves (d d' : Db) : Prop :=
  ∀ t, t ∈ refresh_tokens d → ∃ t', t' ∈ refresh_tokens d' ∧ later_row t t'.

#[export] Instance later_row_preorder : PreOrder later_row.
Proof.
  split; [by intros t; repeat split|]. unfold later_row.
  intros x y z (?&?&?&?&?&?) (?&?&?&?&?&?). repeat split; try congruence. auto.
Qed.

#[export] Instance evolves_preorder : PreOrder evolves.
Proof.
  split; [intros d t Ht; by exists t|].
  intros x y z H1 H2 t Ht. apply H1 in Ht as (t1 & Ht1 & ?).
  apply H2 in Ht1 as (t2 & ? & ?). exists t2. split; [done|]. by etrans.
Qed.

Lemma later_row_revoke now t : later_row t (set_revoked now t).
Proof. by repeat split. Qed.

Lemma live_set_revoked now t : live (set_revoked now t) = false.
Proof. done. Qed.

Lemma family_live_revoke f now t : family_live f (set_revoked now t) = true → family_live f t = true.
Proof. unfold family_live. rewrite live_set_revoked, andb_false_r. done. Qed.

#[export] Hint Resolve later_row_revoke family_live_revoke : prexel.

(** Revoking rows of any kind keeps the table well formed. *)
Lemma revoke_evolves q now d : evolves d (on_refresh_tokens (upd q (set_revoked now)) d).
Proof.
  intros t Ht. exists (if q t then set_revoked now t else t). split.
  - simpl. apply elem_of_upd. by exists t.
  - destruct (q t); [apply later_row_revoke|done].
Qed.

Lemma revoke_wf q now d : sessions_wf d → sessions_wf (on_refresh_tokens (upd q (set_revoked now)) d).
Proof.
  intros [Hh Hl]. split; simpl.
  - change (NoDup (List.map rt_token_hash (upd q (set_revoked now) (refresh_tokens d)))).
    rewrite map_upd; done.
  - intros f. etrans; [apply cnt_upd_le; eauto with prexel|done].
Qed.

(** Appending a row whose hash is new and whose family has no usable token. *)
Lemma append_wf t d :
  sessions_wf d →
  clashes t (refresh_tokens d) = false →
  (live t = true → cnt (family_live (rt_family_id t)) (refresh_tokens d) = 0) →
  sessions_wf (on_refresh_tokens (λ l, l ++ [t]) d).
Proof.
  intros [Hh Hl] Hnew Hfam. split; simpl.
  - rewrite fmap_app. apply list.NoDup_app. split; [done|]. split; [|apply NoDup_singleton].
    intros h Hin Hh'. apply list_elem_of_singleton in Hh' as ->.
    apply list_elem_of_fmap in Hin as (r & Hr & Hin). apply list_elem_of_In in Hin.
    apply not_true_iff_false in Hnew. apply Hnew, List.existsb_exists.
    exists r. split; [done|]. rewrite Hr, String.eqb_refl. apply orb_true_r.
  - intros f. rewrite cnt_app. specialize (Hl f). unfold cnt at 2. simpl.
    destruct (family_live f t) eqn:E; simpl; [|lia].
    unfold family_live in E. bool_simp. subst f. rewrite Hfam by done. lia.
Qed.

Lemma append_evolves t d : evolves d (on_refresh_tokens (λ l, l ++ [t]) d).
Proof. intros r Hr. exists r. split; [|done]. simpl. apply elem_of_app. by left. Qed.

Section AuthTheorems.
Context `{CryptoLib}.

Lemma wp_insert_refresh e t (Q : Db → AuthErr + unit → Prop) d :
  Q d (inl e) →
  (clashes t (refresh_tokens d) = false →
   List.existsb (λ u, u_id u =s rt_user_id t) (users d) = true →
   Q (on_refresh_tokens (λ l, l ++ [t]) d) (inr tt)) →
  wp (insert_refresh e t) Q d.
Proof.
  intros He Hok. apply wp_checked; [done|]. case_match eqn:E; simplify_eq.
  - by case_match; simplify_eq.
  - case_match eqn:E2; simplify_eq. bool_simp. auto.
Qed.

(** What one rotation does to the database, on every branch. *)
Definition rotate_post (jwtSecret raw : string) (now now' now'' : Z) (newRaw newID : string)
    (d d' : Db) (r : AuthErr + (string * string * Z)) : Prop :=
  match r with
  | inr (raw', _, exp) =>
    ∃ t, sel (λ t, rt_token_hash t =s HashToken raw) (refresh_tokens d) = Some t ∧
      live t = true ∧ (now ≤ rt_expires_at t)%Z ∧
      raw' = newRaw ∧ exp = (now' + RefreshTokenTTL)%Z ∧
      let new := mkRefreshToken newID (rt_user_id t) (rt_family_id t) (HashToken newRaw) None exp in
      clashes new (refresh_tokens d) = false ∧
      d' = on_refresh_tokens (λ l, upd (λ r, rt_id r =s rt_id t) (set_revoked now) l ++ [new]) d
  | inl ErrTokenReuse =>
    ∃ t, sel (λ t, rt_token_hash t =s HashToken raw) (refresh_tokens d) = Some t ∧
      live t = false ∧ (now ≤ rt_expires_at t)%Z ∧
      d' = on_refresh_tokens (upd (λ r, (rt_family_id r =s rt_family_id t) && live r)
                                  (set_revoked now)) d
  | inl _ => d' = d
  end.

Lemma clashes_upd q now t l : clashes t (upd q (set_revoked now) l) = clashes t l.
Proof. unfold clashes. induction l as [|r l IH]; [done|]. simpl. rewrite IH. by destruct (q r). Qed.

Lemma rotate_wp jwtSecret raw now now' now'' newRaw newID d :
  wp (RotateRefreshToken jwtSecret raw now now' now'' newRaw newID)
     (rotate_post jwtSecret raw now now' now'' newRaw newID d) d.
Proof.
  unfold RotateRefreshToken. apply wp_if; intros; [by apply wp_throw|].
  apply wp_bind, wp_tx; [done|]. unfold rotate_body.
  apply wp_bind, wp_query; [done|]. simpl.
  case_match eqn:Hsel; [|by apply wp_throw].
  apply wp_if; intros; [by apply wp_throw|]. bool_simp.
  apply wp_if; intros Hlive; bool_simp.
  - wp_go; try done. split; [done|]. wp_go. simpl. eauto 10.
  - apply wp_bind, wp_exec; [done|]. apply wp_bind, wp_fallible; [done|]. simpl.
    apply wp_bind, wp_insert_refresh; [done|]. simpl. intros Hfresh Hfk.
    rewrite clashes_upd in Hfresh.
    destruct (IssueAccessToken _ _ _) as [e|[access exp]] eqn:Hacc.
    + apply wp_throw. unfold IssueAccessToken in Hacc. by repeat case_match; simplify_eq.
    + apply wp_ret. split; [done|]. apply wp_ret. simpl.
      exists r. repeat split; try done; lia.
Qed.

Lemma wf_rotated t d now new :
  sessions_wf d → t ∈ refresh_tokens d → live t = true →
  clashes new (refresh_tokens d) = false →
  rt_family_id new = rt_family_id t →
  sessions_wf (on_refresh_tokens (λ l, upd (λ r, rt_id r =s rt_id t) (set_revoked now) l ++ [new]) d).
Proof.
  intros Hwf Hin Hlive Hnew Hfam.
  change (sessions_wf (on_refresh_tokens (λ l, l ++ [new])
            (on_refresh_tokens (upd (λ r, rt_id r =s rt_id t) (set_revoked now)) d))).
  apply append_wf; [by apply revoke_wf|by simpl; rewrite clashes_upd|].
  intros _. rewrite Hfam. simpl.
  assert (cnt (family_live (rt_family_id t))
            (upd (λ r, rt_id r =s rt_id t) (set_revoked now) (refresh_tokens d)) <
          cnt (family_live (rt_family_id t)) (refresh_tokens d)).
  { apply cnt_upd_lt with t; [eauto with prexel|done|apply String.eqb_refl| |];
      unfold family_live; rewrite String.eqb_refl, ?Hlive; done. }
  pose proof (wf_live d Hwf (rt_family_id t)). lia.
Qed.

(** Every method of the service keeps the table well formed and only ever
    revokes rows, whatever fails in it. *)
Definition safe_change (d d' : Db) : Prop := sessions_wf d' ∧ evolves d d'.

Lemma rotate_safe jwtSecret raw now now' now'' newRaw newID d :
  sessions_wf d →
  wp (RotateRefreshToken jwtSecret raw now now' now'' newRaw newID) (λ d' _, safe_change d d') d.
Proof.
  intros Hwf. eapply wp_mono; [apply rotate_wp|]. intros d' [e|[[raw' acc] exp]] Hpost.
  - destruct e; simpl in Hpost; try (subst; split; [done|reflexivity]).
    destruct Hpost as (t & _ & _ & _ & ->). split; [by apply revoke_wf|apply revoke_evolves].
  - destruct Hpost as (t & Hsel & Hlive & _ & _ & _ & Hnew & ->).
    apply sel_Some in Hsel as [Hin _]. split; [by apply wf_rotated|].
    etrans; [apply (revoke_evolves (λ r, rt_id r =s rt_id t) now)|]. apply append_evolves.
Qed.

Lemma revoke_safe raw now d :
  sessions_wf d → wp (RevokeRefreshToken raw now) (λ d' _, safe_change d d') d.
Proof.
  intros Hwf. unfold RevokeRefreshToken. wp_go; try (by split).
  split; [by apply revoke_wf|apply revoke_evolves].
Qed.

Lemma change_password_safe userID newPlain salt now d :
  sessions_wf d → wp (ChangePassword userID newPlain salt now) (λ d' _, safe_change d d') d.
Proof.
  intros Hwf. unfold ChangePassword. case_match; wp_go; try (by split).
  split; [by split|].
  set (d1 := on_users _ d). assert (sessions_wf d1) by (by destruct Hwf).
  split; [by apply revoke_wf|apply (revoke_evolves _ now d1)].
Qed.

Lemma issue_safe userID raw family id now d :
  sessions_wf d → (∀ t, t ∈ refresh_tokens d → rt_family_id t ≠ family) →
  wp (IssueRefreshTokenInFamily userID raw family id now) (λ d' _, safe_change d d') d.
Proof.
  intros Hwf Hfam. unfold IssueRefreshTokenInFamily.
  apply wp_bind, wp_fallible; [by split|]. simpl.
  apply wp_bind, wp_insert_refresh; [by split|]. intros Hnew _. wp_go.
  split; [|apply append_evolves]. apply append_wf; [done|done|].
  intros _. apply cnt_0. intros r Hr. unfold family_live.
  apply Hfam, String.eqb_neq in Hr. simpl. by rewrite Hr.
Qed.
End AuthTheorems.

(** ** Histories of sessions

    One step is one call of the service, under any faults; a login draws a
    family identifier that no row has (a fresh UUID). *)
Inductive session_step `{CryptoLib} : Db → Db → Prop :=
  | step_login d userID raw family id now fs :
      (∀ t, t ∈ refresh_tokens d → rt_family_id t ≠ family) →
      session_step d (IssueRefreshTokenInFamily userID raw family id now d fs).1.1
  | step_rotate d jwtSecret raw now now' now'' newRaw newID fs :
      session_step d (RotateRefreshToken jwtSecret raw now now' now'' newRaw newID d fs).1.1
  | step_logout d raw now fs :
      session_step d (RevokeRefreshToken raw now d fs).1.1
  | step_password d userID newPlain salt now fs :
      session_step d (ChangePassword userID newPlain salt now d fs).1.1.

Section Histories.
Context `{CryptoLib}.

Lemma session_step_safe d d' : session_step d d' → sessions_wf d → safe_change d d'.
Proof.
  intros Hstep Hwf. destruct Hstep.
  - by apply issue_safe.
  - by apply rotate_safe.
  - by apply revoke_safe.
  - by apply change_password_safe.
Qed.

Lemma session_steps_safe d d' : rtc session_step d d' → sessions_wf d → safe_change d d'.
Proof.
  induction 1 as [d|d d1 d' Hstep _ IH]; intros Hwf; [by split|].
  destruct (session_step_safe _ _ Hstep Hwf) as [Hwf1 Hev].
  destruct (IH Hwf1) as [? ?]. split; [done|by etrans].
Qed.

(** Presenting the token of a revoked row, in a table where hashes are
    unique: the whole family goes. *)
Lemma rotate_revoked jwtSecret raw now now' now'' newRaw newID d t :
  sessions_wf d → t ∈ refresh_tokens d → rt_token_hash t = HashToken raw →
  live t = false → raw ≠ "" → (now ≤ rt_expires_at t)%Z →
  run (RotateRefreshToken jwtSecret raw now now' now'' newRaw newID) d =
    (on_refresh_tokens (upd (λ r, (rt_family_id r =s rt_family_id t) && live r)
                            (set_revoked now)) d, inl ErrTokenReuse).
Proof.
  intros Hwf Hin Hhash Hlive Hraw Hexp. apply String.eqb_neq in Hraw.
  assert (Hsel : sel (λ t, rt_token_hash t =s HashToken raw) (refresh_tokens d) = Some t).
  { eapply (sel_key rt_token_hash); [|apply Hwf|done].
    intros r. rewrite String.eqb_eq, Hhash. done. }
  apply Z.ltb_ge in Hexp. unfold run, RotateRefreshToken, mbind, M_bind, bind, tx, rotate_body.
  rewrite Hraw. simpl. unfold mbind, M_bind, bind. simpl. rewrite Hsel, Hexp, Hlive. done.
Qed.

Lemma family_revoked f now d t :
  t ∈ refresh_tokens (on_refresh_tokens (upd (λ r, (rt_family_id r =s f) && live r)
                                             (set_revoked now)) d) →
  rt_family_id t = f → live t = false.
Proof.
  simpl. rewrite elem_of_upd. intros (r & _ & ->) Hf.
  destruct ((rt_family_id r =s f) && live r) eqn:E; [done|].
  subst. rewrite String.eqb_refl in E. done.
Qed.
End Histories.

(** ** Properties *)

(** C3: a rotation either succeeds, revoking exactly the presented row and
    adding exactly one row of the same user and family; or reports reuse,
    revoking exactly the usable rows of the family of the presented revoked
    token; or fails and leaves the database unchanged.  This holds whatever
    statement, random draw or commit fails. *)
Theorem rotation_effect `{CryptoLib} jwtSecret raw now now' now'' newRaw newID d :
  wp (RotateRefreshToken jwtSecret raw now now' now'' newRaw newID)
     (rotate_post jwtSecret raw now now' now'' newRaw newID d) d.
Proof. apply rotate_wp. Qed.

(** C10: along every history of logins, rotations, logouts and password
    changes, with storage faults anywhere, token hashes stay unique, a family
    never has two usable refresh tokens, and a revoked token never becomes
    usable again. *)
Theorem sessions_invariant `{CryptoLib} d d' :
  rtc session_step d d' → sessions_wf d → sessions_wf d' ∧ evolves d d'.
Proof. apply session_steps_safe. Qed.

(** theft detection.  Once a token has been used (its row is revoked),
    presenting it at any later point of any history, before its expiry, is
    answered with the reuse error, and afterwards no token of its family is
    usable. *)
Theorem reuse_revokes_family `{CryptoLib} d d' t raw jwtSecret now now' now'' newRaw newID :
  sessions_wf d → t ∈ refresh_tokens d → rt_token_hash t = HashToken raw →
  live t = false → rtc session_step d d' → raw ≠ "" → (now ≤ rt_expires_at t)%Z →
  ∃ d'', run (RotateRefreshToken jwtSecret raw now now' now'' newRaw newID) d' =
           (d'', inl ErrTokenReuse) ∧
         ∀ t', t' ∈ refresh_tokens d'' → rt_family_id t' = rt_family_id t → live t' = false.
Proof.
  intros Hwf Hin Hhash Hlive Hsteps Hraw Hexp.
  destruct (session_steps_safe _ _ Hsteps Hwf) as [Hwf' Hev].
  destruct (Hev t Hin) as (t1 & Hin1 & (_ & _ & Hf & Hh & He & Hl)).
  eexists. split.
  - apply (rotate_revoked _ _ _ _ _ _ _ _ t1); try done; [congruence|by apply Hl|lia].
  - intros t' Hin' Hf'. eapply family_revoked; [exact Hin'|congruence].
Qed.

(** a password change is all or nothing under every fault: when it
    succeeds the user's stored hash verifies the new password and no refresh
    token of the user is usable; when it reports an error the database is
    unchanged. *)
Theorem change_password_effect `{CryptoLib} `{!CryptoLaws} userID newPlain salt now d :
  wp (ChangePassword userID newPlain salt now) (λ d' r,
    match r with
    | inl _ => d' = d
    | inr _ =>
      (∃ u, u ∈ users d' ∧ u_id u = userID) ∧
      (∀ u, u ∈ users d' → u_id u = userID → VerifyPassword (u_password_hash u) newPlain = true) ∧
      (∀ t, t ∈ refresh_tokens d' → rt_user_id t = userID → live t = false)
    end) d.
Proof.
  unfold ChangePassword, HashPassword.
  destruct (newPlain =s "") eqn:Hp; [by apply wp_throw|].
  destruct (bcrypt_hash BcryptCost salt newPlain) as [h|] eqn:Hh; [|by apply wp_throw].
  wp_go; try done. split; [done|]. split; [|split].
  - bool_simp. destruct (sel (λ u, u_id u =s userID) (users d)) as [u|] eqn:Hs.
    + apply sel_Some in Hs as [Hin Hu]. exists (set_password h u). split.
      * apply elem_of_upd. exists u. by rewrite Hu.
      * by bool_simp.
    + exfalso. apply Nat.eqb_neq in H1. apply H1, cnt_0. intros u Hin. exact (sel_None _ _ _ Hs Hin).
  - intros u Hu Hid. apply elem_of_upd in Hu as (u0 & _ & ->).
    unfold VerifyPassword. destruct (u_id u0 =s userID) eqn:E.
    + simpl. rewrite Hp, orb_false_r.
      rewrite (proj2 (String.eqb_neq _ _) (bcrypt_nonempty _ _ _ _ Hh)). by eapply bcrypt_roundtrip.
    + by bool_simp.
  - intros t Ht Hid. apply elem_of_upd in Ht as (t0 & _ & ->). simpl in *.
    destruct ((rt_user_id t0 =s userID) && live t0) eqn:E; [done|].
    rewrite Hid, String.eqb_refl in E. done.
Qed.

(** an access token issued for a user parses back to that user under the
    same secret at any time before its expiry, fifteen minutes later; a secret
    shorter than 32 bytes issues nothing. *)
Theorem access_token_roundtrip `{CryptoLib} `{!CryptoLaws} secret userID now later :
  userID ≠ "" → (later < now + AccessTokenTTL)%Z →
  if (Z.of_nat (String.length secret) <? 32)%Z
  then IssueAccessToken secret userID now = inl ErrJwtSecretTooShort
  else ∃ raw, IssueAccessToken secret userID now = inr (raw, (now + AccessTokenTTL)%Z) ∧
              ParseAccessToken secret raw later = inr userID.
Proof.
  intros Hu Hl. destruct (Z.ltb_spec (Z.of_nat (String.length secret)) 32) as [Hlt|Hge].
  - unfold IssueAccessToken. apply Z.ltb_lt in Hlt. by rewrite Hlt.
  - unfold IssueAccessToken. apply Z.ltb_ge in Hge. rewrite Hge.
    destruct (jwt_signs secret (mkClaims userID JWTIssuer now (now + AccessTokenTTL))) as [raw Hraw].
    rewrite Hraw. eexists. split; [reflexivity|]. unfold ParseAccessToken.
    rewrite (jwt_roundtrip _ secret _ _ _ Hraw) by done. simpl.
    apply String.eqb_neq in Hu. by rewrite Hu.
Qed.

(** ** Evaluations *)

Definition ada : User :=
  mkUser "u1" "ada@example.org" "$2a$old" "admin" None None "active" None false None None None None 0.

Definition used : RefreshToken := mkRefreshToken "r1" "u1" "f1" "tok1" (Some 10%Z) 1000.
Definition current : RefreshToken := mkRefreshToken "r2" "u1" "f1" "tok2" None 1010.

Definition sessions_db : Db := on_users (λ _, [ada]) (on_refresh_tokens (λ _, [used; current]) empty_db).

Lemma sessions_db_wf : sessions_wf sessions_db.
Proof.
  split.
  - apply (bool_decide_unpack _). vm_compute. exact I.
  - intros f. change (refresh_tokens sessions_db) with [used; current]. rewrite !cnt_cons.
    unfold family_live, live. simpl. rewrite andb_false_r.
    match goal with |- context [if ?b then 1 else 0] => destruct b end; simpl; unfold cnt; simpl; lia.
Defined.

Lemma sessions_invariant_witness :
  let d' := (RevokeRefreshToken (H := toy_lib) "tok2" 20 sessions_db []).1.1 in
  sessions_wf d' ∧ evolves sessions_db d'.
Proof.
  apply (sessions_invariant (H := toy_lib)); [|apply sessions_db_wf].
  apply rtc_once. apply (step_logout (H := toy_lib) sessions_db "tok2" 20 []).
Defined.

Lemma reuse_revokes_family_witness :
  ∃ d'', run (RotateRefreshToken (H := toy_lib) "0123456789abcdef0123456789abcdef" "tok1" 20 21 21 "tok3" "r3")
             sessions_db = (d'', inl ErrTokenReuse) ∧
         ∀ t', t' ∈ refresh_tokens d'' → rt_family_id t' = "f1" → live t' = false.
Proof.
  apply (reuse_revokes_family (H := toy_lib) sessions_db sessions_db used "tok1").
  - apply sessions_db_wf.
  - left.
  - reflexivity.
  - reflexivity.
  - apply rtc_refl.
  - discriminate.
  - unfold used. simpl. lia.
Defined.

Lemma change_password_effect_witness :
  ∃ u, u ∈ users (ChangePassword (H := toy_lib) "u1" "correct horse" "salt" 30 sessions_db []).1.1 ∧ u_id u = "u1".
Proof.
  exact (proj1 (change_password_effect (H := toy_lib) (H0 := toy_laws)
                  "u1" "correct horse" "salt" 30 sessions_db [])).
Defined.

Lemma access_token_roundtrip_witness :
  ∃ raw, IssueAccessToken (H := toy_lib) "0123456789abcdef0123456789abcdef" "u1" 100 = inr (raw, 1000%Z) ∧
         ParseAccessToken (H := toy_lib) "0123456789abcdef0123456789abcdef" raw 999 = inr "u1".
Proof.
  apply (access_token_roundtrip (H := toy_lib) (H0 := toy_laws)
           "0123456789abcdef0123456789abcdef" "u1" 100 999).
  - discriminate.
  - unfold AccessTokenTTL. lia.
Defined.
