(* ===== verification/Challenge.v ===== *)
(** * Pending second-factor challenges (internal/auth/challenge.go)

    The in-memory store of login challenges.  Instants are nanoseconds; the
    clock reading of a method and the UUID [Create] draws are arguments.  The
    mutex makes each method atomic, so a history of the store is a sequence of
    calls; [StartCleanup] runs [cleanup] at any point of it. *)

From S2P Require Import Prelude.
From stdpp Require Export gmap.

Definition Second : Z := 10 ^ 9.
Definition ChallengeTTL : Z := 5 * 60 * Second.
Definition MaxChallengeAttempts : Z := 5.

Inductive ChErr := ErrChallengeNotFound | ErrChallengeExpired | ErrChallengeExhausted.

Record Challenge := mkChallenge {
  ch_ID : string;
  ch_UserID : string;
  ch_ExpiresAt : Z;
  ch_Attempts : Z;
}.

Abbreviation ChallengeStore := (gmap string Challenge).

Definition Create (now : Z) (uuid userID : string) (s : ChallengeStore) : ChallengeStore * Challenge :=
  let c := mkChallenge uuid userID (now + ChallengeTTL) 0 in
  (<[ch_ID c := c]> s, c).

Definition Get (now : Z) (id : string) (s : ChallengeStore) : ChallengeStore * (ChErr + Challenge) :=
  match s !! id with
  | None => (s, inl ErrChallengeNotFound)
  | Some c =>
    if (ch_ExpiresAt c <? now)%Z then (delete id s, inl ErrChallengeExpired)
    else (s, inr c)
  end.

Definition bump (c : Challenge) : Challenge :=
  mkChallenge (ch_ID c) (ch_UserID c) (ch_ExpiresAt c) (ch_Attempts c + 1).

(** The challenge is returned next to [ErrChallengeExhausted], as in the code. *)
Definition IncrementAttempts (now : Z) (id : string) (s : ChallengeStore)
    : ChallengeStore * (option Challenge * option ChErr) :=
  match s !! id with
  | None => (s, (None, Some ErrChallengeNotFound))
  | Some c =>
    if (ch_ExpiresAt c <? now)%Z then (delete id s, (None, Some ErrChallengeExpired))
    else
      let c := bump c in
      if (MaxChallengeAttempts <=? ch_Attempts c)%Z
      then (delete id s, (Some c, Some ErrChallengeExhausted))
      else (<[id := c]> s, (Some c, None))
  end.

Definition Consume (now : Z) (id : string) (s : ChallengeStore) : ChallengeStore * (ChErr + Challenge) :=
  match s !! id with
  | None => (s, inl ErrChallengeNotFound)
  | Some c =>
    if (ch_ExpiresAt c <? now)%Z then (delete id s, inl ErrChallengeExpired)
    else (delete id s, inr c)
  end.

Definition cleanup (now : Z) (s : ChallengeStore) : ChallengeStore :=
  filter (λ kc, (now <= ch_ExpiresAt (kc.2))%Z) s.

(** ** Histories *)

Inductive chal_op :=
  | OpCreate (uuid userID : string)
  | OpGet (id : string)
  | OpIncrement (id : string)
  | OpConsume (id : string)
  | OpCleanup.

(** What a call let through: a failed attempt that may be retried, or the end
    of a successful exchange, at what time. *)
Inductive chal_out := OutRetry (id : string) | OutDone (id userID : string) | OutNone.

Definition chal_step (now : Z) (op : chal_op) (s : ChallengeStore) : ChallengeStore * chal_out :=
  match op with
  | OpCreate uuid userID => ((Create now uuid userID s).1, OutNone)
  | OpGet id => ((Get now id s).1, OutNone)
  | OpIncrement id =>
    match IncrementAttempts now id s with
    | (s', (_, None)) => (s', OutRetry id)
    | (s', _) => (s', OutNone)
    end
  | OpConsume id =>
    match Consume now id s with
    | (s', inr c) => (s', OutDone id (ch_UserID c))
    | (s', _) => (s', OutNone)
    end
  | OpCleanup => (cleanup now s, OutNone)
  end.

(** The state after a sequence of calls and, for each, its time and outcome. *)
Fixpoint chal_run (ops : list (Z * chal_op)) (s : ChallengeStore)
    : ChallengeStore * list (Z * chal_out) :=
  match ops with
  | [] => (s, [])
  | (now, op) :: ops =>
    let '(s1, o) := chal_step now op s in
    let '(s2, os) := chal_run ops s1 in
    (s2, (now, o) :: os)
  end.

(** No call of the history draws the identifier [id] (UUIDs are fresh). *)
Definition no_create (id : string) (ops : list (Z * chal_op)) : Prop :=
  ∀ now uuid u, (now, OpCreate uuid u) ∈ ops → uuid ≠ id.

Definition retries (id : string) (os : list (Z * chal_out)) : nat :=
  cnt (λ o, match o.2 with OutRetry i => i =s id | _ => false end) os.
Definition dones (id : string) (os : list (Z * chal_out)) : nat :=
  cnt (λ o, match o.2 with OutDone i _ => i =s id | _ => false end) os.

(** ** Invariant of the store *)

Definition store_wf (s : ChallengeStore) : Prop :=
  ∀ id c, s !! id = Some c → ch_ID c = id ∧ (0 ≤ ch_Attempts c < MaxChallengeAttempts)%Z.

Lemma store_wf_delete id s : store_wf s → store_wf (delete id s).
Proof. intros H i c. rewrite lookup_delete_Some. intros [_ E]. by apply H. Qed.

Lemma store_wf_insert id c s :
  store_wf s → ch_ID c = id → (0 ≤ ch_Attempts c < MaxChallengeAttempts)%Z → store_wf (<[id := c]> s).
Proof.
  intros H Hid Hb i c'. rewrite lookup_insert_Some. intros [[<- <-]|[_ E]]; [done|by apply H].
Qed.

#[export] Hint Resolve store_wf_delete store_wf_insert : prexel.

Lemma chal_step_wf now op s : store_wf s → store_wf (chal_step now op s).1.
Proof.
  intros H. destruct op as [uuid u|id|id|id|]; simpl.
  - by apply store_wf_insert.
  - unfold Get. cases; eauto with prexel.
  - unfold IncrementAttempts. destruct (s !! id) as [c|] eqn:E; [|done].
    destruct (ch_ExpiresAt c <? now)%Z; [by apply store_wf_delete|].
    destruct (MaxChallengeAttempts <=? ch_Attempts (bump c))%Z eqn:E2; [by apply store_wf_delete|].
    simpl. destruct (H _ _ E). apply store_wf_insert; simpl in *; bool_simp; [done..|lia].
  - unfold Consume. cases; eauto with prexel.
  - intros i c E. apply map_lookup_filter_Some in E as [E _]. by apply H.
Qed.

(** What [id] can still obtain from the store. *)
Definition budget (id : string) (s : ChallengeStore) : nat :=
  match s !! id with
  | Some c => Z.to_nat (MaxChallengeAttempts - 1 - ch_Attempts c)
  | None => 0
  end.
Definition present (id : string) (s : ChallengeStore) : nat :=
  if is_some (s !! id) then 1 else 0.

Definition deadline (id : string) (s : ChallengeStore) (t : Z) : Prop :=
  ∀ c, s !! id = Some c → (ch_ExpiresAt c ≤ t)%Z.

(** Who the challenge [id] belongs to, if it exists. *)
Definition owner (id : string) (s : ChallengeStore) (u : string) : Prop :=
  ∀ c, s !! id = Some c → ch_UserID c = u.

(** What an outcome takes from the budget of [id]; it is let through before
    the deadline and for the owner. *)
Definition spends (id : string) (t : Z) (u : string) (now : Z) (o : chal_out) (s s' : ChallengeStore) : Prop :=
  match o with
  | OutRetry i => i = id → (now ≤ t)%Z ∧ S (budget id s') ≤ budget id s
  | OutDone i v => i = id → (now ≤ t)%Z ∧ v = u ∧ present id s' = 0 ∧ present id s = 1
  | OutNone => True
  end.

(** [s'] offers [id] at most what [s] does. *)
Definition shrinks (id : string) (s s' : ChallengeStore) : Prop :=
  s' !! id = None ∨
  ∃ c c', s !! id = Some c ∧ s' !! id = Some c' ∧ ch_ExpiresAt c' = ch_ExpiresAt c ∧
          ch_UserID c' = ch_UserID c ∧ (ch_Attempts c ≤ ch_Attempts c')%Z.

Lemma shrinks_refl id s : shrinks id s s.
Proof.
  unfold shrinks. destruct (s !! id) as [c|] eqn:E; [right; exists c, c; repeat split; lia|by left].
Qed.

Lemma shrinks_eq id s s' : s' !! id = s !! id → shrinks id s s'.
Proof. unfold shrinks. intros ->. apply shrinks_refl. Qed.

Lemma shrinks_le id s s' t u :
  shrinks id s s' → deadline id s t → owner id s u →
  budget id s' ≤ budget id s ∧ present id s' ≤ present id s ∧ deadline id s' t ∧ owner id s' u.
Proof.
  unfold budget, present, deadline, owner. intros [E|(c & c' & E & E' & He & Hu & Ha)] Hd Ho.
  - rewrite E. repeat split; try done; lia.
  - rewrite E, E'. repeat split; [lia|lia| |]; intros ? [= <-].
    + rewrite He. by apply Hd.
    + rewrite Hu. by apply Ho.
Qed.

Lemma shrinks_delete id i s : shrinks id s (delete i s).
Proof.
  destruct (decide (i = id)) as [->|Hne].
  - left. apply lookup_delete_eq.
  - apply shrinks_eq. by apply lookup_delete_ne.
Qed.

#[export] Hint Resolve shrinks_refl shrinks_delete shrinks_eq : prexel.

Lemma increment_shrinks id now i s :
  shrinks id s (IncrementAttempts now i s).1.
Proof.
  unfold IncrementAttempts. destruct (s !! i) as [c|] eqn:E; simpl; [|eauto with prexel].
  destruct (ch_ExpiresAt c <? now)%Z; simpl; [eauto with prexel|].
  destruct (MaxChallengeAttempts <=? _)%Z; simpl; [eauto with prexel|].
  destruct (decide (i = id)) as [->|Hne].
  - right. exists c, (bump c). rewrite lookup_insert_eq. repeat split; [done|simpl; lia].
  - apply shrinks_eq. by apply lookup_insert_ne.
Qed.

Lemma chal_step_shrinks id now op s :
  (∀ uuid u, op = OpCreate uuid u → uuid ≠ id) → shrinks id s (chal_step now op s).1.
Proof.
  intros Hnc. destruct op as [uuid u|i|i|i|]; simpl.
  - apply shrinks_eq, lookup_insert_ne. by eapply Hnc.
  - unfold Get. cases; eauto with prexel.
  - pose proof (increment_shrinks id now i s).
    by destruct (IncrementAttempts now i s) as [s' [? [?|]]].
  - unfold Consume. cases; eauto with prexel.
  - destruct (cleanup now s !! id) as [c|] eqn:E; [|by left].
    unfold cleanup in E. pose proof E as E'. apply map_lookup_filter_Some in E' as [E' _]. apply shrinks_eq. unfold cleanup. congruence.
Qed.

Lemma chal_step_spends id now op s t u :
  store_wf s → deadline id s t → owner id s u →
  spends id t u now (chal_step now op s).2 s (chal_step now op s).1.
Proof.
  intros Hwf Hd Ho. destruct op as [uuid v|i|i|i|]; simpl; try done.
  - unfold IncrementAttempts. destruct (s !! i) as [c|] eqn:E; [|done].
    destruct (ch_ExpiresAt c <? now)%Z eqn:E1; [done|].
    destruct (MaxChallengeAttempts <=? ch_Attempts (bump c))%Z eqn:E2; [done|].
    simpl. intros ->. bool_simp. unfold budget. rewrite lookup_insert_eq, E. simpl in *.
    pose proof (Hd _ E). destruct (Hwf _ _ E). split; lia.
  - unfold Consume. destruct (s !! i) as [c|] eqn:E; [|done].
    destruct (ch_ExpiresAt c <? now)%Z eqn:E1; [done|]. simpl. intros ->. bool_simp.
    unfold present. rewrite lookup_delete_eq, E. pose proof (Hd _ E). pose proof (Ho _ E).
    repeat split; [lia|done].
Qed.

Lemma retries_cons id now o os :
  retries id ((now, o) :: os) = (match o with OutRetry i => if i =s id then 1 else 0 | _ => 0 end) + retries id os.
Proof. unfold retries. rewrite cnt_cons. simpl. by destruct o. Qed.

Lemma dones_cons id now o os :
  dones id ((now, o) :: os) = (match o with OutDone i _ => if i =s id then 1 else 0 | _ => 0 end) + dones id os.
Proof. unfold dones. rewrite cnt_cons. simpl. by destruct o. Qed.

(** What a history lets through on [id] is bounded by what the store holds. *)
Definition bounded_by (id : string) (t : Z) (u : string) (b p : nat) (os : list (Z * chal_out)) : Prop :=
  retries id os ≤ b ∧ dones id os ≤ p ∧
  (∀ now, (now, OutRetry id) ∈ os → (now ≤ t)%Z) ∧
  (∀ now v, (now, OutDone id v) ∈ os → (now ≤ t)%Z ∧ v = u).

Lemma bounded_cons id t u now o os s s' b' p' :
  spends id t u now o s s' → budget id s' ≤ budget id s → present id s' ≤ present id s →
  bounded_by id t u b' p' os → b' ≤ budget id s' → p' ≤ present id s' →
  bounded_by id t u (budget id s) (present id s) ((now, o) :: os).
Proof.
  intros Hsp Hb Hp (Hr & Hd & Hrt & Hdt) Hb' Hp'. unfold bounded_by.
  rewrite retries_cons, dones_cons. repeat split.
  - destruct o as [i|i v|]; try lia. destruct (i =s id) eqn:E; [|lia].
    bool_simp. destruct (Hsp E). lia.
  - destruct o as [i|i v|]; try lia. destruct (i =s id) eqn:E; [|lia].
    bool_simp. destruct (Hsp E) as (_ & _ & H1 & H2). lia.
  - intros n Hin. apply elem_of_cons in Hin as [[= -> <-]|Hin]; [by apply Hsp|by apply Hrt].
  - apply elem_of_cons in H as [[= -> <-]|Hin]; [by apply Hsp|by eapply Hdt].
  - apply elem_of_cons in H as [[= -> <-]|Hin]; [by apply Hsp|by eapply Hdt].
Qed.

Lemma chal_run_bounded id t u ops : ∀ s,
  no_create id ops → store_wf s → deadline id s t → owner id s u →
  bounded_by id t u (budget id s) (present id s) (chal_run ops s).2.
Proof.
  induction ops as [|[now op] ops IH]; intros s Hnc Hwf Hd Ho; simpl.
  - unfold bounded_by, retries, dones, cnt. simpl.
    split; [lia|]. split; [lia|].
    split; [intros n Hin|intros n v Hin]; by apply elem_of_nil in Hin.
  - assert (Hsh : shrinks id s (chal_step now op s).1).
    { apply chal_step_shrinks. intros uuid v ->. eapply Hnc. left. }
    pose proof (chal_step_spends id now op s t u Hwf Hd Ho) as Hsp.
    pose proof (chal_step_wf now op s Hwf) as Hwf'.
    destruct (shrinks_le _ _ _ _ _ Hsh Hd Ho) as (Hb & Hp & Hd' & Ho').
    destruct (chal_step now op s) as [s1 o] eqn:E. simpl in *.
    assert (no_create id ops) by (intros n uuid v Hin; eapply Hnc; by right).
    specialize (IH s1 H Hwf' Hd' Ho'). destruct (chal_run ops s1) as [s2 os]. simpl in *.
    by eapply bounded_cons.
Qed.

(** ** Properties *)

(** brute-force bound and single use.  After a challenge is created, in
    every sequence of calls by any number of clients, at most four failed
    attempts on it are answered with a retry and at most one exchange on it
    completes; both happen only within its five minutes, and completion
    returns the user it was created for. *)
Theorem challenge_bounds now id userID s ops :
  store_wf s → no_create id ops →
  let os := (chal_run ops (Create now id userID s).1).2 in
  retries id os ≤ 4 ∧ dones id os ≤ 1 ∧
  (∀ n, (n, OutRetry id) ∈ os → (n ≤ now + ChallengeTTL)%Z) ∧
  (∀ n v, (n, OutDone id v) ∈ os → (n ≤ now + ChallengeTTL)%Z ∧ v = userID).
Proof.
  intros Hwf Hnc os. set (s1 := (Create now id userID s).1).
  assert (E : s1 !! id = Some (mkChallenge id userID (now + ChallengeTTL) 0)) by apply lookup_insert_eq.
  assert (bounded_by id (now + ChallengeTTL) userID (budget id s1) (present id s1) (chal_run ops s1).2) as HB.
  { apply chal_run_bounded; [done|by apply store_wf_insert| |];
      intros c E'; rewrite E in E'; by simplify_eq. }
  unfold budget, present in HB. rewrite E in HB. exact HB.
Qed.

Lemma challenge_bounds_witness :
  let os := (chal_run [(1%Z, OpIncrement "c"); (2%Z, OpGet "c"); (3%Z, OpConsume "c"); (4%Z, OpConsume "c")]
               (Create 0 "c" "u1" ∅).1).2 in
  retries "c" os = 1 ∧ dones "c" os = 1 ∧ dones "c" os ≤ 1.
Proof.
  pose proof (challenge_bounds 0 "c" "u1" ∅
    [(1%Z, OpIncrement "c"); (2%Z, OpGet "c"); (3%Z, OpConsume "c"); (4%Z, OpConsume "c")]) as W.
  split; [vm_compute; reflexivity|]. split; [vm_compute; reflexivity|].
  apply W.
  - intros i c E. by rewrite lookup_empty in E.
  - intros n uuid v Hin Hid. subst. rewrite !elem_of_cons, elem_of_nil in Hin. naive_solver.
Defined.
