(* ===== verification/Cipher.v ===== *)
(** * Encryption at rest (internal/crypto/aes.go, encoding/base64)

    Ciphertexts are [nonce || AES-GCM output] under a key derived from the
    instance secret, stored as base64 text.  AES-GCM and HKDF are parameters
    of the model; base64, of Go's standard library, is written out. *)

From S2P Require Import Prelude GoStrings.

(** ** encoding/base64 (StdEncoding) *)

Definition b64_alphabet : string :=
  "ABCDEFGHIJKLMNOPQRSTUVWXYZabcdefghijklmnopqrstuvwxyz0123456789+/".

Definition b64_char (n : Z) : ascii :=
  match String.get (Z.to_nat n) b64_alphabet with Some c => c | None => "A"%char end.

Fixpoint index_of (c : ascii) (l : string) (i : Z) : option Z :=
  match l with
  | "" => None
  | String a l => if Ascii.eqb a c then Some i else index_of c l (i + 1)
  end.

Definition b64_value (c : ascii) : option Z := index_of c b64_alphabet 0.

Definition pad : ascii := "="%char.

Fixpoint b64_encode (l : list ascii) : list ascii :=
  match l with
  | [] => []
  | [a] => let n := (byte a * 65536)%Z in
           [b64_char (n / 262144); b64_char (n / 4096 mod 64); pad; pad]
  | [a; b] => let n := (byte a * 65536 + byte b * 256)%Z in
              [b64_char (n / 262144); b64_char (n / 4096 mod 64); b64_char (n / 64 mod 64); pad]
  | a :: b :: c :: l =>
    let n := (byte a * 65536 + byte b * 256 + byte c)%Z in
    b64_char (n / 262144) :: b64_char (n / 4096 mod 64) :: b64_char (n / 64 mod 64)
      :: b64_char (n mod 64) :: b64_encode l
  end.

(** Groups of four characters; padding only at the end. *)
Fixpoint b64_decode (l : list ascii) : option (list ascii) :=
  match l with
  | [] => Some []
  | p :: q :: r :: s :: l =>
    match b64_value p, b64_value q with
    | Some x, Some y =>
      match b64_value r, b64_value s with
      | Some z, Some w =>
        let n := (x * 262144 + y * 4096 + z * 64 + w)%Z in
        rest ← b64_decode l;
        Some (of_byte (n / 65536) :: of_byte (n / 256 mod 256) :: of_byte (n mod 256) :: rest)
      | Some z, None =>
        if Ascii.eqb s pad && is_nil l then
          let n := (x * 262144 + y * 4096 + z * 64)%Z in
          Some [of_byte (n / 65536); of_byte (n / 256 mod 256)]
        else None
      | None, _ =>
        if Ascii.eqb r pad && Ascii.eqb s pad && is_nil l then
          Some [of_byte ((x * 262144 + y * 4096) / 65536)]
        else None
      end
    | _, _ => None
    end
  | _ => None
  end.

(** [DecodeString] skips line breaks. *)
Definition not_newline (c : ascii) : bool :=
  negb ((byte c =? 10)%Z || (byte c =? 13)%Z).

Definition EncodeToString (s : string) : string :=
  String.string_of_list_ascii (b64_encode (String.list_ascii_of_string s)).

Definition DecodeString (s : string) : option string :=
  String.string_of_list_ascii <$>
    b64_decode (List.filter not_newline (String.list_ascii_of_string s)).

(** ** internal/crypto *)

Class AeadLib := {
  (** HKDF-SHA256 of a secret with an info label: the 32-byte key. *)
  hkdf_key : string → string → option string;
  (** [aead.Seal(nil, nonce, plaintext, nil)] and [Open] for AES-256-GCM. *)
  gcm_seal : string → string → string → string;
  gcm_open : string → string → string → option string;
}.

Definition keyLen : Z := 32.
Definition nonceLen : Z := 12.
Definition gcmOverhead : Z := 16.
Definition hkdfInfo : string := "prexel-encryption-v1".

Class AeadLaws `{AeadLib} := {
  gcm_roundtrip : ∀ key nonce pt,
    len nonce = nonceLen → gcm_open key nonce (gcm_seal key nonce pt) = Some pt;
  gcm_length : ∀ key nonce pt, len (gcm_seal key nonce pt) = (len pt + gcmOverhead)%Z;
}.

Inductive CipherErr := ErrSecretTooShort | ErrHkdf | ErrNonce | ErrCiphertextTooShort | ErrOpen.

Section Cipher.
Context `{AeadLib}.

(** The cipher is the key it was built with. *)
Definition Cipher := string.

Definition New (secret : string) : CipherErr + Cipher :=
  if (len secret <? 32)%Z then inl ErrSecretTooShort
  else match hkdf_key secret hkdfInfo with
       | None => inl ErrHkdf
       | Some key => inr key
       end.

(** [nonce]: the twelve bytes read from the random source, if it answers. *)
Definition Encrypt (c : Cipher) (nonce : option string) (plaintext : string) : CipherErr + string :=
  match nonce with
  | None => inl ErrNonce
  | Some nonce => inr (nonce ^^ gcm_seal c nonce plaintext)
  end.

Definition Decrypt (c : Cipher) (data : string) : CipherErr + string :=
  if (len data <? nonceLen + gcmOverhead)%Z then inl ErrCiphertextTooShort
  else match gcm_open c (take_s 12 data) (drop_s 12 data) with
       | None => inl ErrOpen
       | Some pt => inr pt
       end.
End Cipher.

(** ** Facts *)

(** The alphabet is a bijection between 0..63 and its characters. *)
Lemma b64_table : List.forallb (λ n, match b64_value (b64_char (Z.of_nat n)) with
                                | Some m => (m =? Z.of_nat n)%Z && not_newline (b64_char (Z.of_nat n))
                                | None => false
                                end) (List.seq 0 64) = true.
Proof. vm_compute. reflexivity. Qed.

Lemma b64_char_ok n : (0 ≤ n < 64)%Z →
  b64_value (b64_char n) = Some n ∧ not_newline (b64_char n) = true.
Proof.
  intros Hn. pose proof (proj1 (List.forallb_forall _ _) b64_table (Z.to_nat n)) as T.
  cbv beta in T. rewrite Z2Nat.id in T by lia.
  assert (I : List.In (Z.to_nat n) (List.seq 0 64)) by (apply List.in_seq; lia).
  specialize (T I). case_match; [|done]. bool_simp. subst. done.
Qed.

Lemma b64_value_char n : (0 ≤ n < 64)%Z → b64_value (b64_char n) = Some n.
Proof. apply b64_char_ok. Qed.
Lemma b64_char_newline n : (0 ≤ n < 64)%Z → not_newline (b64_char n) = true.
Proof. apply b64_char_ok. Qed.

(** Induction three bytes at a time. *)
Lemma list_ind3 {A} (P : list A → Prop) :
  P [] → (∀ a, P [a]) → (∀ a b, P [a; b]) → (∀ a b c l, P l → P (a :: b :: c :: l)) → ∀ l, P l.
Proof.
  intros H0 H1 H2 H3 l. cut (P l ∧ (∀ a, P (a :: l)) ∧ (∀ a b, P (a :: b :: l))); [tauto|].
  induction l as [|x l (IH & IH1 & IH2)]; [auto|]. repeat split; auto.
Qed.

Ltac b64_bounds :=
  repeat match goal with
  | c : ascii |- _ =>
    lazymatch goal with H : (0 ≤ byte c < 256)%Z |- _ => fail | _ => pose proof (byte_range c) end
  end.

Lemma of_byte_eq c z : z = byte c → of_byte z = c.
Proof. intros ->. apply of_byte_byte. Qed.

Lemma b64_decode_encode l : b64_decode (b64_encode l) = Some l.
Proof.
  induction l as [|a|a b|a b c l IH] using list_ind3; [done|..]; b64_bounds; simpl;
    rewrite !b64_value_char by (repeat split; Z.div_mod_to_equations; lia).
  - simpl. do 2 f_equal. apply of_byte_eq. Z.div_mod_to_equations; lia.
  - simpl. repeat f_equal; apply of_byte_eq; Z.div_mod_to_equations; lia.
  - rewrite IH. simpl. repeat f_equal; apply of_byte_eq; Z.div_mod_to_equations; lia.
Qed.

Lemma b64_encode_newline l : List.filter not_newline (b64_encode l) = b64_encode l.
Proof.
  induction l as [|a|a b|a b c l IH] using list_ind3; [done|..]; b64_bounds; simpl;
    rewrite !b64_char_newline by (repeat split; Z.div_mod_to_equations; lia); [done|done|].
  by rewrite IH.
Qed.

Lemma base64_roundtrip s : DecodeString (EncodeToString s) = Some s.
Proof.
  unfold DecodeString, EncodeToString.
  rewrite String.list_ascii_of_string_of_list_ascii, b64_encode_newline, b64_decode_encode.
  simpl. by rewrite String.string_of_list_ascii_of_string.
Qed.

Lemma decrypt_encrypt `{AeadLib} `{!AeadLaws} c nonce pt :
  len nonce = nonceLen →
  ∃ ct, Encrypt c (Some nonce) pt = inr ct ∧ Decrypt c ct = inr pt.
Proof.
  intros Hn. eexists. split; [reflexivity|]. unfold Decrypt.
  destruct (take_drop_app nonce (gcm_seal c nonce pt) 12) as [E1 E2]; [unfold len, nonceLen in Hn; lia|].
  rewrite E1, E2, gcm_roundtrip by done.
  assert (L := gcm_length c nonce pt). unfold len in *. rewrite string_app_length.
  destruct (Z.ltb_spec (Z.of_nat (String.length nonce + String.length (gcm_seal c nonce pt)))
              (nonceLen + gcmOverhead)); [lia|done].
Qed.

(** a secret sealed with the instance key and stored as base64 text opens
    to itself under the same key, for every 12-byte nonce. *)
Theorem cipher_roundtrip `{AeadLib} `{!AeadLaws} c nonce pt :
  len nonce = nonceLen →
  ∃ ct raw, Encrypt c (Some nonce) pt = inr ct ∧
            DecodeString (EncodeToString ct) = Some raw ∧ Decrypt c raw = inr pt.
Proof.
  intros Hn. destruct (decrypt_encrypt c nonce pt Hn) as (ct & E & D).
  exists ct, ct. by rewrite base64_roundtrip.
Qed.

(** ** A concrete instance *)

Definition tag16 : string := "0123456789abcdef".

#[local] Instance toy_aead : AeadLib := {|
  hkdf_key secret info := Some (take_s 32 (secret ^^ info));
  gcm_seal key nonce pt := tag16 ^^ pt;
  gcm_open key nonce ct := if HasPrefix ct tag16 then Some (drop_s 16 ct) else None;
|}.

Lemma prefix_app a b : String.prefix a (a ^^ b) = true.
Proof.
  induction a as [|c a IH]; rewrite ?string_nil_app, ?string_app_cons; simpl; [by destruct b|].
  by rewrite IH; destruct (ascii_dec c c).
Qed.

#[local] Instance toy_aead_laws : AeadLaws.
Proof.
  split.
  - intros key nonce pt _. simpl. unfold HasPrefix. rewrite prefix_app.
    by destruct (take_drop_app tag16 pt 16 eq_refl) as [_ ->].
  - intros. simpl. unfold len. rewrite string_app_length. simpl. unfold gcmOverhead. lia.
Qed.

Lemma cipher_roundtrip_witness :
  ∃ ct raw, Encrypt (H := toy_aead) "key" (Some "abcdefghijkl") "JBSWY3DPEHPK3PXP" = inr ct ∧
            DecodeString (EncodeToString ct) = Some raw ∧
            Decrypt (H := toy_aead) "key" raw = inr "JBSWY3DPEHPK3PXP".
Proof. apply (cipher_roundtrip (H := toy_aead) (H0 := toy_aead_laws)). reflexivity. Defined.
