(* ===== verification/TwoFactor.v ===== *)
(** * Two-factor authentication (internal/auth/totp.go, recovery.go,
    twofactor_service.go, password_validation.go)

    TOTP codes with a replay guard, one-shot recovery codes, the setup wizard
    and the second step of a login.  The TOTP and QR libraries are parameters.
    A method's clock readings and random draws are its arguments. *)

From S2P Require Import Prelude Effects GoStrings Schema CryptoLib Refresh Challenge Cipher.

Class TotpLib := {
  (** [totp.Generate]: base32 secret and otpauth URL from a random seed. *)
  totp_generate : string → string → string → option (string * string);
  (** [totp.Validate(code, secret)] at a time. *)
  totp_validate : string → string → Z → bool;
  qr_encode : string → option string;
}.

Inductive TfErr :=
  | ErrTwoFactorNotPending
  | ErrTwoFactorNotEnabled
  | ErrInvalidCode
  | ErrInvalidPassword
  | ErrChallengeUnknownMethod
  | ErrChallengeInvalidUserState
  | ErrCodeReused
  | ErrChallenge (e : ChErr)
  | ErrCipher (e : CipherErr)
  | ErrTf (where_ : string).

#[export] Instance ChErr_eq_dec : EqDecision ChErr.
Proof. solve_decision. Defined.
#[export] Instance CipherErr_eq_dec : EqDecision CipherErr.
Proof. solve_decision. Defined.
#[export] Instance TfErr_eq_dec : EqDecision TfErr.
Proof. solve_decision. Defined.

Definition totpWindowSec : Z := 30.
Definition totpReplayCleanupSec : Z := 90.
Definition recoveryAlphabet : string := "ABCDEFGHJKLMNPQRSTUVWXYZ23456789".
Definition RecoveryCodeCount : nat := 8.
Definition recoveryBcryptCost : Z := 10.

(** ** The columns of [users] the service writes *)

Definition with_2fa (u : User) enabled secret pending confirmed recovery : User :=
  mkUser (u_id u) (u_email u) (u_password_hash u) (u_role u) (u_name u) (u_avatar_path u)
    (u_status u) (u_role_id u) enabled secret pending confirmed recovery (u_created_at u).

Definition set_pending (p : string) (u : User) : User :=
  with_2fa u (u_2fa_enabled u) (u_2fa_secret u) (Some p) (u_2fa_confirmed_at u) (u_2fa_recovery u).
Definition promote (now : Z) (hashes : list string) (u : User) : User :=
  with_2fa u true (u_2fa_pending u) None (Some now) (Some (JStrings hashes)).
Definition set_recovery (hashes : list string) (u : User) : User :=
  with_2fa u (u_2fa_enabled u) (u_2fa_secret u) (u_2fa_pending u) (u_2fa_confirmed_at u)
    (Some (JStrings hashes)).
Definition clear_2fa (u : User) : User := with_2fa u false None None None None.

Definition is_user (userID : string) (u : User) : bool := u_id u =s userID.

(** ** password_validation.go *)

Section Passwords.
Context `{Unicode}.

(** One iteration of the loop: (hasUpper, hasDigit, hasSymbol). *)
Definition strong_step (acc : bool * bool * bool) (r : Z) : bool * bool * bool :=
  let '(hasUpper, hasDigit, hasSymbol) := acc in
  if IsUpper r then (true, hasDigit, hasSymbol)
  else if IsDigit r then (hasUpper, true, hasSymbol)
  else if negb (IsLetter r) && negb (IsDigit r) then (hasUpper, hasDigit, true)
  else acc.

(** [true] is the nil error, [false] is [ErrWeakPassword]. *)
Definition ValidateStrong (pw : string) : bool :=
  if (len pw <? 12)%Z then false
  else
    let '(hasUpper, hasDigit, hasSymbol) := foldl strong_step (false, false, false) (runes pw) in
    if negb hasUpper || negb hasDigit || negb hasSymbol then false else true.
End Passwords.

(** ** recovery.go *)

Definition alphabet_char (b : ascii) : ascii :=
  match String.get (Z.to_nat (byte b mod Z.of_nat (String.length recoveryAlphabet))) recoveryAlphabet with
  | Some c => c
  | None => "A"%char
  end.

(** [buf]: the ten random bytes. *)
Definition randomRecoveryCode (buf : list ascii) : string :=
  let out := List.map alphabet_char buf in
  let str l := String.string_of_list_ascii l in
  str (take 4 out) ^^ "-" ^^ str (take 4 (drop 4 out)) ^^ "-" ^^ str (take 2 (drop 8 out)).

Section Recovery.
Context `{Unicode} `{CryptoLib}.

Definition normalizeRecoveryCode (code : string) : string :=
  let code := ToUpper (TrimSpace code) in
  let code := ReplaceAll code "-" "" in
  ReplaceAll code " " "".

Definition hashRecoveryCode (salt code : string) : option string :=
  bcrypt_hash recoveryBcryptCost salt (normalizeRecoveryCode code).

(** The loop of [GenerateRecoveryCodes]; a draw is the ten bytes of a code
    and the salt of its hash. *)
Fixpoint gen_codes {S} (draws : list (list ascii * string)) : M S TfErr (list string * list string) :=
  match draws with
  | [] => mret ([], [])
  | (buf, salt) :: draws =>
    _ ← fallible (ErrTf "rand") (λ s, (s, tt));
    let code := randomRecoveryCode buf in
    match hashRecoveryCode salt code with
    | None => throw (ErrTf "bcrypt")
    | Some h =>
      r ← gen_codes draws;
      mret (code :: r.1, h :: r.2)
    end
  end.

Definition GenerateRecoveryCodes {S} (draws : nat → list ascii * string)
    : M S TfErr (list string * list string) :=
  gen_codes (List.map draws (List.seq 0 RecoveryCodeCount)).

(** The loop compares with every hash and keeps the first index that matches. *)
Definition match_step (norm : string) (acc : nat * option nat) (h : string) : nat * option nat :=
  let '(i, matchIdx) := acc in
  (S i, if bcrypt_compare h norm && negb (is_some matchIdx) then Some i else matchIdx).

Definition VerifyAndConsumeRecoveryCode (hashes : list string) (code : string) : list string * bool :=
  if is_nil hashes || (code =s "") then (hashes, false)
  else
    let norm := normalizeRecoveryCode code in
    match (foldl (match_step norm) (0, None) hashes).2 with
    | None => (hashes, false)
    | Some matchIdx => (take matchIdx hashes ++ drop (S matchIdx) hashes, true)
    end.
End Recovery.

(** ** totp.go *)

Section Totp.
Context `{TotpLib}.

Definition ValidateTOTP (secret code : string) (now : Z) : bool :=
  if (secret =s "") || (code =s "") then false else totp_validate code secret now.

(** [INSERT INTO totp_used]: the primary key is the whole row. *)
Definition insert_totp (r : TotpUsed) : M Db TfErr unit :=
  checked (ErrTf "totp replay guard") (λ d,
    if List.existsb (λ x, (tu_user_id x =s tu_user_id r) && (tu_code x =s tu_code r)
                          && (tu_window_ts x =? tu_window_ts r)%Z) (totp_used d)
    then inl ErrCodeReused
    else if negb (List.existsb (is_user (tu_user_id r)) (users d))
    then inl (ErrTf "totp replay guard")
    else inr (on_totp_used (λ l, l ++ [r]) d, tt)).

(** [now] is read by the validator, [now'] by the replay guard. *)
Definition ValidateAndConsumeTOTP (userID secret code : string) (now now' : Z) : M Db TfErr bool :=
  if negb (ValidateTOTP secret code now) then mret false
  else if TrimSpace userID =s "" then mret true
  else
    let windowTS := (Z.quot now' totpWindowSec * totpWindowSec)%Z in
    let cutoff := (now' - totpReplayCleanupSec)%Z in
    _ ← ignore (exec (ErrTf "cleanup") (on_totp_used (del (λ r, (tu_window_ts r <? cutoff)%Z))));
    _ ← insert_totp (mkTotpUsed userID code windowTS);
    mret true.
End Totp.

(** ** twofactor_service.go *)

Record TwoFactorService := mkTwoFactorService {
  tf_cipher : Cipher;
  tf_issuer : string;
}.

Definition NewTwoFactorService (cipher : Cipher) (issuer : string) : TwoFactorService :=
  mkTwoFactorService cipher (if issuer =s "" then "Prexel" else issuer).

(** The state of the service: the database and the challenge store. *)
Record TfState := mkTfState { tf_db : Db; tf_challenges : ChallengeStore }.

Section Service.
Context `{Unicode} `{CryptoLib} `{AeadLib} `{TotpLib}.

Definition decryptStored (s : TwoFactorService) (b64 : string) : TfErr + string :=
  match DecodeString b64 with
  | None => inl (ErrTf "base64 decode")
  | Some raw =>
    match Decrypt (tf_cipher s) raw with
    | inl e => inl (ErrCipher e)
    | inr pt => inr pt
    end
  end.

Definition GenerateTOTPSecret (seed accountName issuer : string) : TfErr + (string * string) :=
  match totp_generate seed accountName issuer with
  | None => inl (ErrTf "totp generate")
  | Some r => inr r
  end.

Definition TOTPQRCodePNG (otpauthURL : string) : TfErr + string :=
  if otpauthURL =s "" then inl (ErrTf "totp: empty otpauth url")
  else match qr_encode otpauthURL with
       | None => inl (ErrTf "qrcode encode")
       | Some png => inr png
       end.

Definition InitiateSetup (s : TwoFactorService) (seed : string) (nonce : option string)
    (userID email : string) : M Db TfErr (string * string * string) :=
  match GenerateTOTPSecret seed email (tf_issuer s) with
  | inl e => throw e
  | inr (secret, otpauthURL) =>
    match TOTPQRCodePNG otpauthURL with
    | inl e => throw e
    | inr qrPNG =>
      match Encrypt (tf_cipher s) nonce secret with
      | inl e => throw (ErrCipher e)
      | inr enc =>
        let encB64 := EncodeToString enc in
        _ ← exec (ErrTf "save pending secret") (on_users (upd (is_user userID) (set_pending encB64)));
        mret (secret, otpauthURL, qrPNG)
      end
    end
  end.

Definition ConfirmSetup (s : TwoFactorService) (userID code : string) (now now' : Z)
    (draws : nat → list ascii * string) : M Db TfErr (list string) :=
  row ← query (ErrTf "load pending") (λ d, sel (is_user userID) (users d));
  match row with
  | None => throw ErrTwoFactorNotPending
  | Some u =>
    match u_2fa_pending u with
    | None => throw ErrTwoFactorNotPending
    | Some pendingB64 =>
      if pendingB64 =s "" then throw ErrTwoFactorNotPending
      else match decryptStored s pendingB64 with
      | inl e => throw e
      | inr secret =>
        if negb (ValidateTOTP secret code now) then throw ErrInvalidCode
        else
          r ← GenerateRecoveryCodes draws;
          let '(plain, hashes) := r in
          _ ← exec (ErrTf "activate 2fa") (on_users (upd (is_user userID) (promote now' hashes)));
          mret plain
      end
    end
  end.

Definition RequiresChallenge (userID : string) : M Db TfErr bool :=
  row ← query (ErrTf "select") (λ d, sel (is_user userID) (users d));
  match row with
  | None => mret false
  | Some u => mret (u_2fa_enabled u)
  end.

(** The list of hashes in the recovery column. *)
Definition decode_recovery (e : TfErr) (j : option json_text) : TfErr + list string :=
  match j with
  | None => inr []
  | Some (JStrings l) => inr l
  | Some (JRaw t) => if t =s "" then inr [] else inl e
  end.

(** [case "app", ""] of [VerifyUserCode], and the same lines of [Disable]. *)
Definition check_app (s : TwoFactorService) (userID secretEnc code : string) (now now' : Z)
    : M Db TfErr bool :=
  match decryptStored s secretEnc with
  | inl e => throw e
  | inr secret =>
    r ← attempt (ValidateAndConsumeTOTP userID secret code now now');
    match r with
    | inl ErrCodeReused => throw ErrInvalidCode
    | inl e => throw e
    | inr accepted => mret accepted
    end
  end.

(** [case "recovery"]. *)
Definition check_recovery (userID code : string) (recoveryJSON : option json_text) : M Db TfErr bool :=
  match decode_recovery (ErrTf "decode recovery") recoveryJSON with
  | inl e => throw e
  | inr hashes =>
    let '(remaining, valid) := VerifyAndConsumeRecoveryCode hashes code in
    _ ← when valid (exec (ErrTf "update recovery")
                      (on_users (upd (is_user userID) (set_recovery remaining))));
    mret valid
  end.

Definition VerifyUserCode (s : TwoFactorService) (userID code method : string) (now now' : Z)
    : M Db TfErr unit :=
  row ← query (ErrTf "load user 2fa") (λ d, sel (is_user userID) (users d));
  match row with
  | None => throw (ErrTf "load user 2fa")
  | Some u =>
    match u_2fa_enabled u, u_2fa_secret u with
    | true, Some secretEnc =>
      ok ← (if (method =s "app") || (method =s "") then check_app s userID secretEnc code now now'
            else if method =s "recovery" then check_recovery userID code (u_2fa_recovery u)
            else throw ErrChallengeUnknownMethod);
      if negb ok then throw ErrInvalidCode else mret tt
    | _, _ => throw ErrChallengeInvalidUserState
    end
  end.

Definition Disable (s : TwoFactorService) (userID password code : string) (now now' : Z)
    : M Db TfErr unit :=
  row ← query (ErrTf "load user") (λ d, sel (is_user userID) (users d));
  match row with
  | None => throw (ErrTf "load user")
  | Some u =>
    if negb (VerifyPassword (u_password_hash u) password) then throw ErrInvalidPassword
    else match u_2fa_enabled u, u_2fa_secret u with
    | true, Some secretEnc =>
      accepted ← check_app s userID secretEnc code now now';
      if negb accepted then throw ErrInvalidCode
      else exec (ErrTf "disable") (on_users (upd (is_user userID) clear_2fa))
    | _, _ => throw ErrTwoFactorNotEnabled
    end
  end.

Definition RegenerateRecoveryCodes (userID password : string) (draws : nat → list ascii * string)
    : M Db TfErr (list string) :=
  row ← query (ErrTf "load user") (λ d, sel (is_user userID) (users d));
  match row with
  | None => throw (ErrTf "load user")
  | Some u =>
    if negb (VerifyPassword (u_password_hash u) password) then throw ErrInvalidPassword
    else if negb (u_2fa_enabled u) then throw ErrTwoFactorNotEnabled
    else
      r ← GenerateRecoveryCodes draws;
      let '(plain, hashes) := r in
      _ ← exec (ErrTf "save hashes") (on_users (upd (is_user userID) (set_recovery hashes)));
      mret plain
  end.

Definition Status (userID : string) : M Db TfErr (bool * option Z * nat) :=
  row ← query (ErrTf "status") (λ d, sel (is_user userID) (users d));
  match row with
  | None => throw (ErrTf "status")
  | Some u =>
    match decode_recovery (ErrTf "status") (u_2fa_recovery u) with
    | inl e => throw e
    | inr l => mret (u_2fa_enabled u, u_2fa_confirmed_at u, length l)
    end
  end.

(** *** The second step of a login *)

Definition on_db {A} (m : M Db TfErr A) : M TfState TfErr A :=
  zoom tf_db (λ d t, mkTfState d (tf_challenges t)) id m.

Definition CreateChallenge (now : Z) (uuid userID : string) : M TfState TfErr (string * list string) :=
  λ t fs,
    let '(st, c) := Create now uuid userID (tf_challenges t) in
    (mkTfState (tf_db t) st, fs, inr (ch_ID c, ["app"; "recovery"])).

(** A call of the challenge store; the mutex makes it atomic. *)
Definition on_store {A} (f : ChallengeStore → ChallengeStore * (ChErr + A)) : M TfState TfErr A :=
  λ t fs,
    let '(st, r) := f (tf_challenges t) in
    (mkTfState (tf_db t) st, fs, match r with inl e => inl (ErrChallenge e) | inr a => inr a end).

(** [_, incErr := IncrementAttempts(id)]: the challenge is dropped. *)
Definition increment (now : Z) (id : string) (st : ChallengeStore) : ChallengeStore * (ChErr + unit) :=
  let '(st', (_, err)) := IncrementAttempts now id st in
  (st', match err with Some e => inl e | None => inr tt end).

(** Clock readings: [ng] in [Get], [nv] and [nw] in the code check, [nc] in
    [IncrementAttempts] or [Consume]. *)
Definition VerifyChallenge (s : TwoFactorService) (challengeID code method : string)
    (ng nv nw nc : Z) : M TfState TfErr string :=
  c ← on_store (Get ng challengeID);
  r ← attempt (on_db (VerifyUserCode s (ch_UserID c) code method nv nw));
  match r with
  | inl ErrInvalidCode =>
    _ ← on_store (increment nc challengeID);
    throw ErrInvalidCode
  | inl e => throw e
  | inr _ =>
    _ ← on_store (Consume nc challengeID);
    mret (ch_UserID c)
  end.
End Service.

(** ** Password policy *)

(** Facts of the Unicode tables: upper case letters are letters, and no rune
    is both a letter and a decimal digit. *)
Class UnicodeLaws `{Unicode} := {
  upper_letter : ∀ r, hi_is_upper r = true → hi_is_letter r = true;
  digit_letter : ∀ r, hi_is_digit r = true → hi_is_letter r = false;
}.

#[local] Instance ascii_only_laws : UnicodeLaws (H := ascii_only).
Proof. by split. Qed.

Section PasswordFacts.
Context `{Unicode} `{!UnicodeLaws}.

Lemma IsUpper_IsLetter r : IsUpper r = true → IsLetter r = true.
Proof.
  unfold IsUpper, IsLetter. destruct (is_ascii r); [by intros ->|apply upper_letter].
Qed.

Lemma IsDigit_IsLetter r : IsDigit r = true → IsLetter r = false.
Proof.
  unfold IsDigit, IsLetter. destruct (is_ascii r); [|apply digit_letter].
  rewrite in_range_spec. intros. apply orb_false_iff. rewrite !in_range_false. lia.
Qed.

Definition has (p : Z → bool) (l : list Z) : bool := List.existsb p l.
Definition IsSymbol (r : Z) : bool := negb (IsLetter r) && negb (IsDigit r).

Lemma strong_fold l : ∀ a b c,
  foldl strong_step (a, b, c) l = (a || has IsUpper l, b || has IsDigit l, c || has IsSymbol l).
Proof.
  induction l as [|r l IH]; intros a b c; simpl; [by rewrite !orb_false_r|].
  unfold IsSymbol at 1.
  destruct (IsUpper r) eqn:Eu; [|destruct (IsDigit r) eqn:Ed; [|destruct (IsLetter r) eqn:El]];
    simpl; rewrite IH.
  - rewrite (IsUpper_IsLetter r Eu). simpl. destruct (IsDigit r) eqn:Ed; [|by rewrite orb_true_r].
    apply IsDigit_IsLetter in Ed. rewrite (IsUpper_IsLetter r Eu) in Ed. done.
  - rewrite andb_false_r. simpl. by rewrite orb_true_r.
  - done.
  - by rewrite orb_true_r.
Qed.
End PasswordFacts.

(** ** Recovery codes *)

(** The characters of a recovery code. *)
Definition code_char (z : Z) : bool := is_upper_ascii z || in_range 50 57 z.

Lemma code_char_range z : code_char z = true →
  (50 ≤ z ≤ 90)%Z ∧ is_lower_ascii z = false.
Proof.
  unfold code_char, is_upper_ascii, is_lower_ascii.
  rewrite orb_true_iff, !in_range_spec, in_range_false. lia.
Qed.

Lemma alphabet_table : List.forallb (λ n,
  match String.get n recoveryAlphabet with Some c => code_char (byte c) | None => false end)
  (List.seq 0 32) = true.
Proof. vm_compute. reflexivity. Qed.

Lemma alphabet_char_ok b : code_char (byte (alphabet_char b)) = true.
Proof.
  unfold alphabet_char. change (Z.of_nat (String.length recoveryAlphabet)) with 32%Z.
  pose proof (proj1 (List.forallb_forall _ _) alphabet_table (Z.to_nat (byte b mod 32))) as T.
  cbv beta in T. case_match; [apply T|done]. apply List.in_seq.
  pose proof (Z.mod_pos_bound (byte b) 32 ltac:(lia)). lia.
Qed.

Definition code_text (l : list ascii) : string :=
  String.string_of_list_ascii (List.map alphabet_char l).

Lemma code_text_ok l : all_bytes code_char (code_text l) = true.
Proof.
  unfold code_text. induction l as [|b l IH]; [done|].
  simpl. rewrite all_bytes_cons, alphabet_char_ok. done.
Qed.

Lemma string_of_list_app a b :
  String.string_of_list_ascii (a ++ b) = String.string_of_list_ascii a ^^ String.string_of_list_ascii b.
Proof. induction a as [|c a IH]; [done|]. simpl. by rewrite IH. Qed.

Lemma random_code_shape buf : List.length buf = 10 →
  randomRecoveryCode buf = code_text (take 4 buf) ^^ "-" ^^ code_text (take 4 (drop 4 buf)) ^^ "-"
                             ^^ code_text (drop 8 buf) ∧
  code_text buf = code_text (take 4 buf) ^^ code_text (take 4 (drop 4 buf)) ^^ code_text (drop 8 buf).
Proof.
  intros Hl. do 10 (destruct buf as [|? buf]; [done|]).
  destruct buf; [|done]. split; reflexivity.
Qed.

Section RecoveryFacts.
Context `{Unicode} `{CryptoLib}.

Lemma code_plain s :
  all_bytes code_char s = true →
  all_bytes (λ z, (z <? 128)%Z && negb (is_lower_ascii z)) s = true ∧ all_bytes graphic s = true ∧
  ReplaceAll s "-" "" = s ∧ ReplaceAll s " " "" = s.
Proof.
  intros Hs. repeat split; [| |apply ReplaceAll_none|apply ReplaceAll_none];
    (eapply all_bytes_mono; [|exact Hs]); intros z Hz; apply code_char_range in Hz as [Hr Hl]; cbv beta.
  - rewrite Hl, andb_true_r. apply Z.ltb_lt. lia.
  - unfold graphic. apply in_range_spec. lia.
  - change (byte "-"%char) with 45%Z. apply negb_true_iff, Z.eqb_neq. lia.
  - change (byte " "%char) with 32%Z. apply negb_true_iff, Z.eqb_neq. lia.
Qed.

(** Normalising a generated code drops its dashes and nothing else. *)
Lemma normalize_random buf : List.length buf = 10 →
  normalizeRecoveryCode (randomRecoveryCode buf) = code_text buf.
Proof.
  intros Hl. destruct (random_code_shape buf Hl) as [E1 E2]. unfold normalizeRecoveryCode.
  set (a := take 4 buf) in *. set (b := take 4 (drop 4 buf)) in *. set (c := drop 8 buf) in *.
  destruct (code_plain _ (code_text_ok a)) as (Ua & Ga & Da & Sa).
  destruct (code_plain _ (code_text_ok b)) as (Ub & Gb & Db & Sb).
  destruct (code_plain _ (code_text_ok c)) as (Uc & Gc & Dc & Sc).
  rewrite E1, TrimSpace_id, ToUpper_id; [|by rewrite !all_bytes_app, Ua, Ub, Uc|
                                          by rewrite !all_bytes_app, Ga, Gb, Gc].
  unfold ReplaceAll in *. rewrite !replace_from_app, Da, Db, Dc.
  change (replace_from "-" "" "-" 0) with "". by rewrite !string_nil_app, Sa, Sb, Sc.
Qed.

Lemma match_fold norm l : ∀ i,
  foldl (match_step norm) (i, None) l =
    (i + List.length l, (λ j, i + j) <$> (fst <$> list_find (λ h, bcrypt_compare h norm = true) l)).
Proof.
  assert (Hsome : ∀ l i k, foldl (match_step norm) (i, Some k) l = (i + List.length l, Some k)).
  { clear l. intros l; induction l as [|h l IH]; intros i k; simpl; [by rewrite Nat.add_0_r|].
    rewrite andb_false_r, IH. f_equal. lia. }
  induction l as [|h l IH]; intros i; simpl; [by rewrite Nat.add_0_r|].
  destruct (bcrypt_compare h norm) eqn:E; simpl.
  - rewrite Hsome. simpl. f_equal; [lia|]. f_equal. lia.
  - rewrite IH.
    f_equal; [lia|]. destruct (list_find _ l) as [[j ?]|]; simpl; [f_equal; lia|done].
Qed.

(** The reference definition: drop the first hash that matches. *)
Definition consume_first (norm : string) (hashes : list string) : option (list string) :=
  match list_find (λ h, bcrypt_compare h norm = true) hashes with
  | Some (i, _) => Some (delete i hashes)
  | None => None
  end.

Lemma verify_consume_spec hashes code :
  VerifyAndConsumeRecoveryCode hashes code =
    if code =s "" then (hashes, false)
    else match consume_first (normalizeRecoveryCode code) hashes with
         | Some rest => (rest, true)
         | None => (hashes, false)
         end.
Proof.
  unfold VerifyAndConsumeRecoveryCode, consume_first. destruct hashes as [|h l]; [by destruct (code =s "")|].
  destruct (code =s "") eqn:Ec; [done|]. simpl is_nil. simpl orb. cbv iota.
  rewrite match_fold. cbn [snd]. destruct (list_find _ (h :: l)) as [[i x]|]; cbn; [|done].
  by rewrite delete_take_drop.
Qed.

Lemma gen_codes_wp {S} draws (s : S) :
  wp (gen_codes draws) (λ s' r, s' = s ∧
    match r with
    | inl _ => True
    | inr (p, h) => p = List.map (λ b, randomRecoveryCode b.1) draws ∧
                    Forall2 (λ b h, hashRecoveryCode b.2 (randomRecoveryCode b.1) = Some h) draws h
    end) s.
Proof.
  induction draws as [|[buf salt] draws IH]; simpl; [wp_go; auto|].
  apply wp_bind, wp_fallible; [done|]. simpl.
  destruct (hashRecoveryCode salt _) as [h|] eqn:Eh; [|by apply wp_throw].
  apply wp_bind. eapply wp_mono; [exact IH|]. intros s' [e|[p hs]] [-> Hr]; [done|].
  apply wp_ret. destruct Hr as [-> ?]. split; [done|]. split; [done|]. by constructor.
Qed.
End RecoveryFacts.

(** ** The tables of the service *)

(** A user with two-factor authentication on has a secret, a confirmation
    time and a list of recovery hashes. *)
Definition tf_wf (u : User) : Prop :=
  u_2fa_enabled u = true →
  (∃ enc, u_2fa_secret u = Some enc ∧ enc ≠ "") ∧ (∃ t, u_2fa_confirmed_at u = Some t) ∧
  (∃ l, u_2fa_recovery u = Some (JStrings l)).

Record users_wf (d : Db) : Prop := {
  wf_user_ids : NoDup (u_id <$> users d);
  wf_users : ∀ u, u ∈ users d → tf_wf u;
}.

(** [d'] follows [d]: the users stay well formed and no code consumed in
    window [w] or later is forgotten. *)
Record follows (w : Z) (d d' : Db) : Prop := {
  fo_users : users_wf d → users_wf d';
  fo_codes : ∀ r, r ∈ totp_used d → (w ≤ tu_window_ts r)%Z → r ∈ totp_used d';
}.

#[export] Instance follows_preorder w : PreOrder (follows w).
Proof.
  split; [by split|]. intros x y z [H1 H2] [H3 H4]. split; auto.
Qed.

Lemma sel_user_unique d uid u u' :
  users_wf d → sel (is_user uid) (users d) = Some u → u' ∈ users d → u_id u' = uid → u' = u.
Proof.
  intros [Hnd _] Hs Hin Hid.
  enough (sel (is_user uid) (users d) = Some u') by congruence.
  apply (sel_key u_id); [|done|done]. intros r. unfold is_user. rewrite String.eqb_eq, Hid. done.
Qed.

(** Updating the row of one user. *)
Lemma users_upd_follows w uid f d :
  (∀ u, u_id (f u) = u_id u) →
  (users_wf d → ∀ u, u ∈ users d → u_id u = uid → tf_wf (f u)) →
  follows w d (on_users (upd (is_user uid) f) d).
Proof.
  intros Hid Hf. split; [|done]. intros Hwf. pose proof Hwf as [Hnd Hu]. split; simpl.
  - change (NoDup (List.map u_id (upd (is_user uid) f (users d)))). by rewrite map_upd.
  - intros u Hin. apply elem_of_upd in Hin as (u0 & Hin & ->).
    destruct (is_user uid u0) eqn:E; [|by apply Hu].
    unfold is_user in E. bool_simp. by apply Hf.
Qed.

Lemma set_recovery_wf l u : tf_wf u → tf_wf (set_recovery l u).
Proof. intros H He. destruct (H He) as (? & ? & _). simpl. eauto. Qed.

Lemma clear_wf u : tf_wf (clear_2fa u).
Proof. done. Qed.

Lemma promote_wf now l u b : u_2fa_pending u = Some b → b ≠ "" → tf_wf (promote now l u).
Proof. intros Hp Hb _. simpl. rewrite Hp. repeat split; eauto. Qed.

Lemma set_pending_wf p u : tf_wf u → tf_wf (set_pending p u).
Proof. intros H He. by destruct (H He). Qed.

Section TotpFacts.
Context `{TotpLib}.

Definition window (now : Z) : Z := (Z.quot now totpWindowSec * totpWindowSec)%Z.

Lemma existsb_totp r l :
  List.existsb (λ x, (tu_user_id x =s tu_user_id r) && (tu_code x =s tu_code r)
                     && (tu_window_ts x =? tu_window_ts r)%Z) l = true ↔ r ∈ l.
Proof.
  rewrite List.existsb_exists. setoid_rewrite <- list_elem_of_In. split.
  - intros (x & Hin & E). bool_simp. destruct x, r; simpl in *; by subst.
  - intros Hin. exists r. by rewrite !String.eqb_refl, Z.eqb_refl.
Qed.

Lemma cleanup_follows w cutoff d : (cutoff ≤ w)%Z →
  follows w d (on_totp_used (del (λ r, (tu_window_ts r <? cutoff)%Z)) d).
Proof.
  intros Hc. split; [by intros []|]. simpl. intros r Hin Hw. apply elem_of_del. split; [done|].
  apply Z.ltb_ge. lia.
Qed.

(** Acceptance records the code; every outcome keeps the rows of the last
    ninety seconds and the users. *)
Lemma vac_wp w userID secret code now now' d :
  (now' - totpReplayCleanupSec ≤ w)%Z →
  wp (ValidateAndConsumeTOTP userID secret code now now') (λ d' r,
    follows w d d' ∧ users d' = users d ∧
    (r = inr true → TrimSpace userID ≠ "" → (w ≤ window now')%Z →
       mkTotpUsed userID code (window now') ∈ totp_used d' ∧
       mkTotpUsed userID code (window now') ∉ totp_used d)) d.
Proof.
  intros Hw. unfold ValidateAndConsumeTOTP.
  apply wp_if; intros; [by apply wp_ret|]. apply wp_if; intros Ht; [apply wp_ret; by bool_simp|].
  set (d1 := on_totp_used (del (λ r, (tu_window_ts r <? now' - totpReplayCleanupSec)%Z)) d).
  assert (Hd1 : follows w d d1) by (by apply cleanup_follows).
  assert (Hstep : ∀ d0, follows w d d0 → users d0 = users d →
    wp (_ ← insert_totp (mkTotpUsed userID code (window now')); mret true) (λ d' r,
      follows w d d' ∧ users d' = users d ∧
      (r = inr true → TrimSpace userID ≠ "" → (w ≤ window now')%Z →
         mkTotpUsed userID code (window now') ∈ totp_used d' ∧
         mkTotpUsed userID code (window now') ∉ totp_used d)) d0).
  { intros d0 Hf Hu. apply wp_bind, wp_checked; [done|].
    destruct (List.existsb _ (totp_used d0)) eqn:E; [done|].
    destruct (List.existsb _ (users d0)); [simpl|done]. apply wp_ret. split; [|split; [done|]].
    - etrans; [exact Hf|]. split; [by intros []|]. simpl. intros r ? _. apply elem_of_app. by left.
    - intros _ _ Hw'. simpl. split; [apply elem_of_app; right; by apply list_elem_of_singleton|].
      intros Hin. apply not_true_iff_false in E. apply E, existsb_totp.
      by apply (fo_codes _ _ _ Hf). }
  apply wp_bind, wp_ignore, wp_exec; by apply Hstep.
Qed.

(** A code already recorded in the window is refused. *)
Lemma vac_refused userID secret code now now' d :
  mkTotpUsed userID code (window now') ∈ totp_used d → TrimSpace userID ≠ "" →
  wp (ValidateAndConsumeTOTP userID secret code now now') (λ _ r, r ≠ inr true) d.
Proof.
  intros Hin Ht. eapply wp_mono.
  - apply (vac_wp (window now')). unfold window, totpReplayCleanupSec, totpWindowSec.
    pose proof (Z.quot_rem' now' 30). pose proof (Z.rem_bound_abs now' 30). lia.
  - intros d' r (_ & _ & Hr) ->. destruct Hr; [done|done|lia|]. done.
Qed.
End TotpFacts.

Section ServiceFacts.
Context `{Unicode} `{CryptoLib} `{AeadLib} `{TotpLib}.

Lemma check_app_wp w s userID enc code now now' d :
  (now' - totpReplayCleanupSec ≤ w)%Z →
  wp (check_app s userID enc code now now')
     (λ d' r, follows w d d' ∧ users d' = users d ∧
        (r = inr true → ∃ secret, decryptStored s enc = inr secret ∧
                                   ValidateTOTP secret code now = true)) d.
Proof.
  intros Hw. unfold check_app. destruct (decryptStored s enc) as [e|secret]; [by apply wp_throw|].
  assert (Hv : wp (ValidateAndConsumeTOTP userID secret code now now')
                  (λ _ r, r = inr true → ValidateTOTP secret code now = true) d).
  { unfold ValidateAndConsumeTOTP. apply wp_if; intros Hv; [by apply wp_ret|].
    apply negb_false_iff in Hv. by intros fs _. }
  apply wp_bind, wp_attempt. intros fs.
  pose proof (vac_wp w userID secret code now now' d Hw fs) as (Hf & Hu & _).
  specialize (Hv fs). revert Hf Hu Hv.
  destruct (ValidateAndConsumeTOTP _ _ _ _ _ d fs) as [[d' fs'] [e|b]]; simpl; intros Hf Hu Hv.
  - destruct e; by apply wp_throw.
  - apply wp_ret. split; [done|]. split; [done|]. intros [= ->]. eauto.
Qed.

Lemma check_recovery_wp uid code u d :
  wp (check_recovery uid code (u_2fa_recovery u)) (λ d' r,
    match r with
    | inr true => ∃ hashes rest, u_2fa_recovery u = Some (JStrings hashes) ∧ code ≠ "" ∧
        consume_first (normalizeRecoveryCode code) hashes = Some rest ∧
        d' = on_users (upd (is_user uid) (set_recovery rest)) d
    | _ => d' = d
    end) d.
Proof.
  unfold check_recovery. destruct (decode_recovery _ _) as [e|hashes] eqn:E; [by apply wp_throw|].
  rewrite verify_consume_spec. destruct (code =s "") eqn:Ec; simpl; [by wp_go|].
  destruct (consume_first _ hashes) as [rest|] eqn:Ef; simpl; [|by wp_go].
  wp_go; [done|]. exists hashes, rest. bool_simp. repeat split; try done.
  destruct (u_2fa_recovery u) as [[l|t]|]; simpl in E; [by simplify_eq|by repeat case_match; simplify_eq|by simplify_eq].
Qed.

Lemma verify_user_follows w s userID code method now now' d :
  (now' - totpReplayCleanupSec ≤ w)%Z →
  wp (VerifyUserCode s userID code method now now') (λ d' _, follows w d d') d.
Proof.
  intros Hw. unfold VerifyUserCode. apply wp_bind, wp_query; [done|].
  destruct (sel _ (users d)) as [u|] eqn:Es; [|by apply wp_throw].
  destruct (u_2fa_enabled u); [|by apply wp_throw].
  destruct (u_2fa_secret u) as [enc|]; [|by apply wp_throw].
  apply wp_bind. destruct (_ || _); [|destruct (method =s "recovery")].
  - eapply wp_mono; [by apply (check_app_wp w)|]. intros d' [e|[]] (Hf & _ & _); [done|by apply wp_ret|by apply wp_throw].
  - eapply wp_mono; [apply check_recovery_wp|]. intros d' [e|[]] Hr; [by subst|apply wp_ret|subst; by apply wp_throw].
    destruct Hr as (hs & rest & _ & _ & _ & ->). apply users_upd_follows; [done|].
    intros [_ Hu] u' Hin _. by apply set_recovery_wf, Hu.
  - by apply wp_throw.
Qed.

Lemma disable_wp w s userID password code now now' d :
  (now' - totpReplayCleanupSec ≤ w)%Z →
  wp (Disable s userID password code now now') (λ d' r, follows w d d' ∧
    match r with
    | inl _ => users d' = users d
    | inr _ => users d' = upd (is_user userID) clear_2fa (users d) ∧
        ∃ u enc secret, sel (is_user userID) (users d) = Some u ∧ u_2fa_enabled u = true ∧
          VerifyPassword (u_password_hash u) password = true ∧ u_2fa_secret u = Some enc ∧
          decryptStored s enc = inr secret ∧ ValidateTOTP secret code now = true
    end) d.
Proof.
  intros Hw. unfold Disable. apply wp_bind, wp_query; [done|].
  destruct (sel _ (users d)) as [u|] eqn:Es; [|by apply wp_throw].
  apply wp_if; intros Hp; [by apply wp_throw|]. bool_simp.
  destruct (u_2fa_enabled u) eqn:Ee; [|by apply wp_throw].
  destruct (u_2fa_secret u) as [enc|] eqn:Eq; [|by apply wp_throw].
  apply wp_bind. eapply wp_mono; [by apply (check_app_wp w)|].
  intros d1 [e|[]] (Hf & Hu & Hc); [done| |by apply wp_throw].
  destruct (Hc eq_refl) as (secret & Hd & Hv).
  apply wp_exec; [done|]. simpl. split; [|rewrite Hu; eauto 12].
  etrans; [exact Hf|]. apply users_upd_follows; [done|]. intros; apply clear_wf.
Qed.

Lemma initiate_follows w s seed nonce userID email d :
  wp (InitiateSetup s seed nonce userID email) (λ d' _, follows w d d') d.
Proof.
  unfold InitiateSetup.
  destruct (GenerateTOTPSecret _ _ _) as [e|[secret url]]; [by apply wp_throw|].
  destruct (TOTPQRCodePNG url) as [e|png]; [by apply wp_throw|].
  destruct (Encrypt _ _ _) as [e|enc]; [by apply wp_throw|].
  wp_go; [done|]. apply users_upd_follows; [done|].
  intros [_ Hu] u Hin _. by apply set_pending_wf, Hu.
Qed.

Lemma confirm_follows w s userID code now now' draws d :
  wp (ConfirmSetup s userID code now now' draws) (λ d' _, follows w d d') d.
Proof.
  unfold ConfirmSetup. apply wp_bind, wp_query; [done|].
  destruct (sel _ (users d)) as [u|] eqn:Es; [|by apply wp_throw].
  destruct (u_2fa_pending u) as [b|] eqn:Eb; [|by apply wp_throw].
  apply wp_if; intros Hb; [by apply wp_throw|]. bool_simp.
  destruct (decryptStored s b) as [e|secret]; [by apply wp_throw|].
  apply wp_if; intros; [by apply wp_throw|].
  apply wp_bind. eapply wp_mono; [apply gen_codes_wp|]. intros d' [e|[plain hs]] [-> _]; [done|].
  wp_go; [done|]. apply users_upd_follows; [done|].
  intros Hwf u' Hin Hid. rewrite (sel_user_unique d userID u u') by done. by eapply promote_wf.
Qed.

Lemma regenerate_follows w userID password draws d :
  wp (RegenerateRecoveryCodes userID password draws) (λ d' _, follows w d d') d.
Proof.
  unfold RegenerateRecoveryCodes. apply wp_bind, wp_query; [done|].
  destruct (sel _ (users d)) as [u|] eqn:Es; [|by apply wp_throw].
  apply wp_if; intros; [by apply wp_throw|]. apply wp_if; intros; [by apply wp_throw|].
  apply wp_bind. eapply wp_mono; [apply gen_codes_wp|]. intros d' [e|[plain hs]] [-> _]; [done|].
  wp_go; [done|]. apply users_upd_follows; [done|].
  intros [_ Hu] u' Hin _. by apply set_recovery_wf, Hu.
Qed.

Lemma password_follows w userID newPlain salt now d :
  wp (ChangePassword userID newPlain salt now) (λ d' _, follows w d d') d.
Proof.
  unfold ChangePassword. destruct (HashPassword salt newPlain) as [e|h]; [by apply wp_throw|].
  wp_go; try done. split; [done|].
  transitivity (on_users (upd (is_user userID) (set_password h)) d).
  - apply users_upd_follows; [done|]. intros [_ Hu] u Hin _. exact (Hu u Hin).
  - split; [|done]. intros []. by split.
Qed.
End ServiceFacts.

(** One call of the service (or of [ChangePassword]) under any faults; the
    replay guard reads its clock at [w + 90] at the latest. *)
Inductive tf_step `{Unicode} `{CryptoLib} `{AeadLib} `{TotpLib} (w : Z) : Db → Db → Prop :=
  | tf_initiate s seed nonce uid email d fs :
      tf_step w d (InitiateSetup s seed nonce uid email d fs).1.1
  | tf_confirm s uid code now now' draws d fs :
      tf_step w d (ConfirmSetup s uid code now now' draws d fs).1.1
  | tf_verify s uid code method now now' d fs :
      (now' ≤ w + totpReplayCleanupSec)%Z →
      tf_step w d (VerifyUserCode s uid code method now now' d fs).1.1
  | tf_disable s uid pw code now now' d fs :
      (now' ≤ w + totpReplayCleanupSec)%Z →
      tf_step w d (Disable s uid pw code now now' d fs).1.1
  | tf_regenerate uid pw draws d fs :
      tf_step w d (RegenerateRecoveryCodes uid pw draws d fs).1.1
  | tf_password uid pw salt now d fs :
      tf_step w d (ChangePassword uid pw salt now d fs).1.1.

Section HistoryFacts.
Context `{Unicode} `{CryptoLib} `{AeadLib} `{TotpLib}.

Lemma tf_step_follows w d d' : tf_step w d d' → follows w d d'.
Proof.
  destruct 1.
  - apply initiate_follows.
  - apply confirm_follows.
  - apply verify_user_follows. lia.
  - apply disable_wp. lia.
  - apply regenerate_follows.
  - apply password_follows.
Qed.

Lemma tf_steps_follow w d d' : rtc (tf_step w) d d' → follows w d d'.
Proof.
  induction 1 as [|x y z Hs _ IH]; [done|]. etrans; [by apply tf_step_follows|done].
Qed.
End HistoryFacts.

(** ** The store of challenges behind the service *)

(** The calls of [VerifyChallenge] on the challenge store, seen as a history:
    a retry is granted exactly when the wrong code is reported, an exchange
    completes exactly when the user is returned. *)
Definition answer_retry {A} (r : TfErr + A) : nat :=
  match r with inl ErrInvalidCode => 1 | _ => 0 end.
Definition answer_done {A} (r : TfErr + A) : nat :=
  match r with inr _ => 1 | _ => 0 end.

Lemma chal_run_app a b s :
  chal_run (a ++ b) s = ((chal_run b (chal_run a s).1).1, (chal_run a s).2 ++ (chal_run b (chal_run a s).1).2).
Proof.
  revert s. induction a as [|[now op] a IH]; intros s; simpl.
  - by destruct (chal_run b s).
  - destruct (chal_step now op s) as [s1 o]. rewrite IH.
    destruct (chal_run a s1) as [s2 os]. done.
Qed.

Section Challenges.
Context `{Unicode} `{CryptoLib} `{AeadLib} `{TotpLib}.

(** One request of the second login step and the faults it meets. *)
Record vcall := mkVcall {
  vc_id : string; vc_code : string; vc_method : string;
  vc_ng : Z; vc_nv : Z; vc_nw : Z; vc_nc : Z; vc_faults : list bool;
}.

Definition vrun (s : TwoFactorService) (c : vcall) (t : TfState) : TfState * (TfErr + string) :=
  let '(t', _, r) := VerifyChallenge s (vc_id c) (vc_code c) (vc_method c)
                       (vc_ng c) (vc_nv c) (vc_nw c) (vc_nc c) t (vc_faults c) in (t', r).

Fixpoint vrun_all (s : TwoFactorService) (cs : list vcall) (t : TfState)
    : TfState * list (string * (TfErr + string)) :=
  match cs with
  | [] => (t, [])
  | c :: cs =>
    let '(t1, r) := vrun s c t in
    let '(t2, rs) := vrun_all s cs t1 in
    (t2, (vc_id c, r) :: rs)
  end.

Definition wrong_codes (id : string) (rs : list (string * (TfErr + string))) : nat :=
  list_sum (List.map (λ r, if r.1 =s id then answer_retry r.2 else 0) rs).
Definition logins (id : string) (rs : list (string * (TfErr + string))) : nat :=
  list_sum (List.map (λ r, if r.1 =s id then answer_done r.2 else 0) rs).

Ltac outs := unfold retries, dones, cnt; simpl;
  repeat match goal with |- context [?a =s ?b] => destruct (a =s b); simpl end; lia.

(** [VerifyChallenge] with its effects on store and database written out. *)
Lemma vrun_eq s i code method ng nv nw nc fs t :
  vrun s (mkVcall i code method ng nv nw nc fs) t =
  match Get ng i (tf_challenges t) with
  | (st, inl e) => (mkTfState (tf_db t) st, inl (ErrChallenge e))
  | (st, inr ch) =>
    match VerifyUserCode s (ch_UserID ch) code method nv nw (tf_db t) fs with
    | (d, _, inl ErrInvalidCode) =>
      match IncrementAttempts nc i st with
      | (st', (_, Some e)) => (mkTfState d st', inl (ErrChallenge e))
      | (st', (_, None)) => (mkTfState d st', inl ErrInvalidCode)
      end
    | (d, _, inl e) => (mkTfState d st, inl e)
    | (d, _, inr _) =>
      match Consume nc i st with
      | (st', inl e) => (mkTfState d st', inl (ErrChallenge e))
      | (st', inr _) => (mkTfState d st', inr (ch_UserID ch))
      end
    end
  end.
Proof.
  unfold vrun, VerifyChallenge, mbind, M_bind, bind, attempt, on_db, zoom, on_store, increment. simpl.
  destruct (Get ng i (tf_challenges t)) as [st [e|ch]]; [done|]. simpl.
  destruct (VerifyUserCode s (ch_UserID ch) code method nv nw (tf_db t) fs) as [[d fs'] [e|[]]]; simpl.
  - destruct e; simpl; try done. by destruct (IncrementAttempts nc i st) as [st' [x [e|]]].
  - by destruct (Consume nc i st) as [st' [e|c']].
Qed.

Lemma no_create_ops id (i : string) ng nc op :
  (op = OpIncrement i ∨ op = OpConsume i) → no_create id [(ng, OpGet i); (nc, op)].
Proof.
  intros Hop n u v Hin. rewrite !elem_of_cons, elem_of_nil in Hin. destruct Hop; subst; naive_solver.
Qed.

Lemma no_create_get id (i : string) ng : no_create id [(ng, OpGet i)].
Proof. intros n u v Hin. by apply list_elem_of_singleton in Hin. Qed.

Lemma vrun_refines s c t id : ∃ ops,
  (chal_run ops (tf_challenges t)).1 = tf_challenges (vrun s c t).1 ∧ no_create id ops ∧
  (if vc_id c =s id then answer_retry (vrun s c t).2 else 0) ≤ retries id (chal_run ops (tf_challenges t)).2 ∧
  (if vc_id c =s id then answer_done (vrun s c t).2 else 0) ≤ dones id (chal_run ops (tf_challenges t)).2.
Proof.
  destruct c as [i code method ng nv nw nc fs]. rewrite vrun_eq. simpl vc_id.
  assert (G : ∀ op, chal_run [(ng, OpGet i); (nc, op)] (tf_challenges t) =
    ((chal_step nc op (Get ng i (tf_challenges t)).1).1,
     [(ng, OutNone); (nc, (chal_step nc op (Get ng i (tf_challenges t)).1).2)])).
  { intros op. simpl. by destruct (chal_step nc op _). }
  destruct (Get ng i (tf_challenges t)) as [st [e|ch]] eqn:Eg.
  { exists [(ng, OpGet i)]. simpl. rewrite Eg. split; [done|]. split; [apply no_create_get|outs]. }
  destruct (VerifyUserCode s (ch_UserID ch) code method nv nw (tf_db t) fs) as [[d fs'] [e|[]]].
  - destruct (decide (e = ErrInvalidCode)) as [->|Hne].
    + exists [(ng, OpGet i); (nc, OpIncrement i)]. rewrite G. simpl.
      destruct (IncrementAttempts nc i st) as [st' [x [e|]]]; simpl;
        (split; [done|]; split; [apply no_create_ops; auto|outs]).
    + exists [(ng, OpGet i)]. simpl. rewrite Eg. split; [by destruct e|]. split; [apply no_create_get|].
      destruct e; try done; simpl; outs.
  - exists [(ng, OpGet i); (nc, OpConsume i)]. rewrite G. simpl.
    destruct (Consume nc i st) as [st' [e|c']]; simpl;
      (split; [done|]; split; [apply no_create_ops; auto|outs]).
Qed.

Lemma vrun_all_refines s cs id : ∀ t, ∃ ops,
  (chal_run ops (tf_challenges t)).1 = tf_challenges (vrun_all s cs t).1 ∧ no_create id ops ∧
  wrong_codes id (vrun_all s cs t).2 ≤ retries id (chal_run ops (tf_challenges t)).2 ∧
  logins id (vrun_all s cs t).2 ≤ dones id (chal_run ops (tf_challenges t)).2.
Proof.
  induction cs as [|c cs IH]; intros t.
  - exists []. split; [done|]. split; [intros n u v Hin; by apply elem_of_nil in Hin|].
    unfold wrong_codes, logins. simpl. lia.
  - destruct (vrun_refines s c t id) as (ops1 & E1 & N1 & R1 & D1). simpl.
    destruct (vrun s c t) as [t1 r]. destruct (IH t1) as (ops2 & E2 & N2 & R2 & D2).
    destruct (vrun_all s cs t1) as [t2 rs]. simpl in *.
    exists (ops1 ++ ops2). rewrite chal_run_app. simpl. rewrite E1.
    split; [done|]. split.
    { intros n u v Hin. apply elem_of_app in Hin as [Hin|Hin]; [by eapply N1|by eapply N2]. }
    unfold retries, dones, wrong_codes, logins in *. rewrite !cnt_app. simpl. lia.
Qed.
End Challenges.

(** ** Properties *)

(** a password is accepted exactly when it has at least twelve bytes, an
    upper-case letter, a digit and a symbol (neither letter nor digit). *)
Theorem validate_strong_spec `{Unicode} `{!UnicodeLaws} pw :
  ValidateStrong pw =
    (12 <=? len pw)%Z && has IsUpper (runes pw) && has IsDigit (runes pw) && has IsSymbol (runes pw).
Proof.
  unfold ValidateStrong. rewrite Z.leb_antisym. destruct (len pw <? 12)%Z; [done|].
  rewrite strong_fold. simpl.
  by destruct (has IsUpper _), (has IsDigit _), (has IsSymbol _).
Qed.

Lemma validate_strong_spec_witness : ValidateStrong (H := ascii_only) "Correct-Horse-1" = true.
Proof. rewrite (validate_strong_spec (H := ascii_only) (H0 := ascii_only_laws)). vm_compute. reflexivity. Defined.

(** The hashes of a batch of codes, in the execution without faults. *)
Lemma gen_codes_run `{Unicode} `{CryptoLib} `{!CryptoLaws} {S} (s : S) draws :
  (∀ b, b ∈ draws → List.length b.1 = 10) →
  ∃ hs, gen_codes draws s [] = (s, [], inr (List.map (λ b, randomRecoveryCode b.1) draws, hs)) ∧
        Forall2 (λ b h, bcrypt_compare h (normalizeRecoveryCode (randomRecoveryCode b.1)) = true) draws hs.
Proof.
  induction draws as [|[buf salt] draws IH]; intros Hl; [by exists []|].
  destruct IH as (hs & E & HF); [intros b Hb; apply Hl; by right|].
  assert (Hb : List.length buf = 10) by (apply (Hl (buf, salt)); by left).
  destruct (bcrypt_total recoveryBcryptCost salt (normalizeRecoveryCode (randomRecoveryCode buf))) as [h Hh].
  { unfold recoveryBcryptCost. lia. }
  { rewrite normalize_random by done. do 10 (destruct buf as [|? buf]; [done|]). destruct buf; [|done].
    simpl. lia. }
  exists (h :: hs). split.
  - simpl. unfold hashRecoveryCode, mbind, M_bind, bind. simpl. rewrite Hh, E. done.
  - constructor; [|done]. by eapply bcrypt_roundtrip.
Qed.

(** the setup wizard's recovery codes work.  From ten random bytes per
    code, eight codes and eight hashes are produced, and each of the codes is
    accepted against the stored hashes and uses up exactly one of them. *)
Theorem recovery_codes_work `{Unicode} `{CryptoLib} `{!CryptoLaws} (d : Db) draws :
  (∀ i, List.length (draws i).1 = 10) →
  ∃ plain hashed, run (GenerateRecoveryCodes draws) d = (d, inr (plain, hashed)) ∧
    List.length plain = 8 ∧ List.length hashed = 8 ∧
    ∀ code, code ∈ plain → ∃ rest, VerifyAndConsumeRecoveryCode hashed code = (rest, true) ∧
                                   S (List.length rest) = 8.
Proof.
  intros Hl. unfold GenerateRecoveryCodes, run.
  destruct (gen_codes_run d (List.map draws (List.seq 0 RecoveryCodeCount))) as (hs & E & HF).
  { intros b Hb. apply list_elem_of_In, List.in_map_iff in Hb as (i & <- & _). apply Hl. }
  rewrite E. eexists _, hs. split; [done|].
  assert (Hlen : List.length hs = 8) by (apply Forall2_length in HF; by rewrite <- HF).
  split; [done|]. split; [done|]. intros code Hin.
  apply list_elem_of_In, List.in_map_iff in Hin as (b & <- & Hb).
  apply list_elem_of_In in Hb. apply list_elem_of_lookup in Hb as [i Hi].
  destruct (Forall2_lookup_l _ _ _ _ _ HF Hi) as (h & Hh & Hc).
  assert (Hne : randomRecoveryCode b.1 ≠ "").
  { apply list_elem_of_lookup_2, list_elem_of_In, List.in_map_iff in Hi as (j & <- & _).
    pose proof (Hl j). destruct ((draws j).1) as [|? ?]; done. }
  rewrite verify_consume_spec, (proj2 (String.eqb_neq _ _) Hne). unfold consume_first.
  destruct (list_find_elem_of (λ x, bcrypt_compare x (normalizeRecoveryCode (randomRecoveryCode b.1)) = true) hs h)
    as [[j x] Hf]; [by eapply list_elem_of_lookup_2|done|].
  rewrite Hf. eexists. split; [reflexivity|]. apply list_find_Some in Hf as (Hj & _ & _).
  rewrite length_delete by (by rewrite Hj). apply lookup_lt_Some in Hj. lia.
Qed.

Definition toy_draws (i : nat) : list ascii * string :=
  (List.repeat (ascii_of_nat i) 10, "salt").

Lemma recovery_codes_work_witness :
  ∃ plain hashed, run (GenerateRecoveryCodes (H := ascii_only) (H0 := toy_lib) toy_draws) empty_db
      = (empty_db, inr (plain, hashed)) ∧ List.length plain = 8.
Proof.
  destruct (recovery_codes_work (H := ascii_only) (H0 := toy_lib) (H1 := toy_laws) empty_db toy_draws)
    as (plain & hashed & E & L & _); [intros i; apply List.repeat_length|].
  exists plain, hashed. exact (conj E L).
Defined.

(** recovery codes are one-shot.  When a code is accepted, the stored
    list is the old one without the one hash that matched, for whatever
    faults; and unless another stored hash matches the same code, presenting it
    again is refused, at any time and under any faults, without any change to
    the database. *)
Theorem recovery_one_shot `{Unicode} `{CryptoLib} `{AeadLib} `{TotpLib} s uid code now now' d fs d1 fs1 :
  VerifyUserCode s uid code "recovery" now now' d fs = (d1, fs1, inr tt) →
  ∃ u hashes rest, sel (is_user uid) (users d) = Some u ∧ u_2fa_recovery u = Some (JStrings hashes) ∧
    consume_first (normalizeRecoveryCode code) hashes = Some rest ∧
    sel (is_user uid) (users d1) = Some (set_recovery rest u) ∧
    ((∀ h, h ∈ rest → bcrypt_compare h (normalizeRecoveryCode code) = false) → ∀ m m',
       wp (VerifyUserCode s uid code "recovery" m m') (λ d2 r, d2 = d1 ∧ r ≠ inr tt) d1).
Proof.
  intros Hrun.
  assert (W : wp (VerifyUserCode s uid code "recovery" now now') (λ d' r, r = inr tt →
    ∃ u hashes rest, sel (is_user uid) (users d) = Some u ∧ u_2fa_recovery u = Some (JStrings hashes) ∧
      consume_first (normalizeRecoveryCode code) hashes = Some rest ∧
      d' = on_users (upd (is_user uid) (set_recovery rest)) d) d).
  { unfold VerifyUserCode. apply wp_bind, wp_query; [done|].
    destruct (sel _ (users d)) as [u|] eqn:Es; [|by apply wp_throw].
    destruct (u_2fa_enabled u); [|by apply wp_throw]. destruct (u_2fa_secret u); [|by apply wp_throw].
    simpl. apply wp_bind. eapply wp_mono; [apply check_recovery_wp|].
    intros d' [e|[]] Hr; [done| |by apply wp_throw]. apply wp_ret. intros _.
    destruct Hr as (hs & rest & ? & _ & ? & ->). eauto 10. }
  specialize (W fs). rewrite Hrun in W. destruct (W eq_refl) as (u & hashes & rest & Es & Er & Ef & E1).
  simpl in E1. assert (Es1 : sel (is_user uid) (users d1) = Some (set_recovery rest u)).
  { rewrite E1. simpl. rewrite sel_upd by done. rewrite Es. simpl.
    apply sel_Some in Es as [_ Es]. by rewrite Es. }
  exists u, hashes, rest. do 4 (split; [done|]). intros Hno m m'.
  unfold VerifyUserCode. apply wp_bind, wp_query; [done|]. rewrite Es1. simpl.
  destruct (u_2fa_enabled u); [|by apply wp_throw]. destruct (u_2fa_secret u); [|by apply wp_throw].
  apply wp_bind. eapply wp_mono; [apply (check_recovery_wp uid code (set_recovery rest u))|].
  intros d' [e|[]] Hr; [by subst| |subst; by apply wp_throw].
  exfalso. destruct Hr as (hs & rest' & [= <-] & _ & Hc & _). unfold consume_first in Hc.
  destruct (list_find _ rest) as [[j x]|] eqn:El; [|done].
  apply list_find_Some in El as (Hj & Hx & _). apply list_elem_of_lookup_2 in Hj.
  rewrite (Hno x Hj) in Hx. done.
Qed.

(** A concrete TOTP library and a user with two-factor authentication on. *)
#[local] Instance toy_totp : TotpLib := {|
  totp_generate seed account issuer := Some (seed, "otpauth://totp/" ^^ issuer ^^ ":" ^^ account);
  totp_validate code secret now := code =s Itoa (now / 60);
  qr_encode url := Some url;
|}.

Definition toy_service : TwoFactorService := NewTwoFactorService "key" "".

Definition toy_secret : string := EncodeToString ("abcdefghijkl" ^^ tag16 ^^ "JBSWY3DPEHPK3PXP").

Definition grace : User :=
  with_2fa ada true (Some toy_secret) None (Some 5%Z) (Some (JStrings ["$2a$ABCDEFGHJK"; "$2a$ZZZZZZZZZZ"])).

Definition grace_db : Db := on_users (λ _, [grace]) empty_db.

Lemma recovery_one_shot_witness :
  ∃ u hashes rest, sel (is_user "u1") (users grace_db) = Some u ∧ u_2fa_recovery u = Some (JStrings hashes) ∧
    consume_first (H0 := toy_lib) (normalizeRecoveryCode (H := ascii_only) "abcd-efgh-jk") hashes = Some rest.
Proof.
  destruct (recovery_one_shot (H := ascii_only) (H0 := toy_lib) (H1 := toy_aead) (H2 := toy_totp)
              toy_service "u1" "abcd-efgh-jk" 0 0 grace_db []
              (on_users (upd (is_user "u1") (set_recovery ["$2a$ZZZZZZZZZZ"])) grace_db) [])
    as (u & hashes & rest & E1 & E2 & E3 & _).
  - vm_compute. reflexivity.
  - exists u, hashes, rest. exact (conj E1 (conj E2 E3)).
Defined.

(** C6: replay guard.  Once a TOTP code has been accepted for a user, no call
    with the same code in the same 30-second window is accepted, after any
    history of service calls and storage faults in between. *)
Theorem totp_no_replay `{Unicode} `{CryptoLib} `{AeadLib} `{TotpLib}
    uid secret code now now' d fs d1 fs1 d2 secret' m m' :
  TrimSpace uid ≠ "" →
  ValidateAndConsumeTOTP uid secret code now now' d fs = (d1, fs1, inr true) →
  rtc (tf_step (window now')) d1 d2 →
  window m' = window now' →
  wp (ValidateAndConsumeTOTP uid secret' code m m') (λ _ r, r ≠ inr true) d2.
Proof.
  intros Hid Hrun Hsteps Hw. apply vac_refused; [|done]. rewrite Hw.
  apply (fo_codes _ _ _ (tf_steps_follow _ _ _ Hsteps)); [|simpl; lia].
  assert (Hb : (now' - totpReplayCleanupSec ≤ window now')%Z).
  { unfold window, totpReplayCleanupSec, totpWindowSec.
    pose proof (Z.quot_rem' now' 30). pose proof (Z.rem_bound_abs now' 30). lia. }
  pose proof (vac_wp (window now') uid secret code now now' d Hb fs) as (_ & _ & Hr).
  rewrite Hrun in Hr. by apply Hr.
Qed.

Lemma totp_no_replay_witness :
  wp (ValidateAndConsumeTOTP (H := toy_totp) "u1" "s" "2" 125 125) (λ _ r, r ≠ inr true)
     (on_totp_used (λ l, l ++ [mkTotpUsed "u1" "2" 120]) grace_db).
Proof.
  apply (totp_no_replay (H := ascii_only) (H0 := toy_lib) (H1 := toy_aead) (H2 := toy_totp)
           "u1" "s" "2" 121 121 grace_db [] (on_totp_used (λ l, l ++ [mkTotpUsed "u1" "2" 120]) grace_db) []).
  - vm_compute. discriminate.
  - vm_compute. reflexivity.
  - apply rtc_refl.
  - vm_compute. reflexivity.
Defined.

(** The guard is keyed on the window of the clock: a code the validator
    accepts in two windows (the library tolerates one step of skew) is accepted
    again in the second. *)
Lemma totp_replay_next_window :
  let d1 := (ValidateAndConsumeTOTP (H := toy_totp) "u1" "s" "2" 149 149 grace_db []).1.1 in
  (ValidateAndConsumeTOTP (H := toy_totp) "u1" "s" "2" 149 149 grace_db []).2 = inr true ∧
  (ValidateAndConsumeTOTP (H := toy_totp) "u1" "s" "2" 151 151 d1 []).2 = inr true.
Proof. vm_compute. split; reflexivity. Qed.

(** along every history of calls and faults, user ids stay unique, and a
    user whose two-factor authentication is on has a stored secret, a
    confirmation time and a list of recovery hashes: two-factor is never half
    enabled. *)
Theorem two_factor_invariant `{Unicode} `{CryptoLib} `{AeadLib} `{TotpLib} w d d' :
  rtc (tf_step w) d d' → users_wf d → users_wf d'.
Proof. intros Hs. apply (fo_users _ _ _ (tf_steps_follow _ _ _ Hs)). Qed.

Lemma two_factor_invariant_witness :
  users_wf (VerifyUserCode (H := ascii_only) (H0 := toy_lib) (H1 := toy_aead) (H2 := toy_totp)
              toy_service "u1" "abcd-efgh-jk" "recovery" 0 0 grace_db []).1.1.
Proof.
  apply (two_factor_invariant (H := ascii_only) (H0 := toy_lib) (H1 := toy_aead) (H2 := toy_totp) 0 grace_db).
  - apply rtc_once. apply tf_verify. unfold totpReplayCleanupSec. lia.
  - split; [apply NoDup_singleton|]. intros u Hu. apply list_elem_of_singleton in Hu as ->.
    intros _. simpl. split; [|eauto]. eexists. split; [reflexivity|]. vm_compute. discriminate.
Defined.

(** Disabling two-factor authentication needs both the password and an
    accepted code; it clears all five columns of that user only, and any error,
    from the checks or from the storage, leaves every user as it was. *)
Theorem disable_effect `{Unicode} `{CryptoLib} `{AeadLib} `{TotpLib} s userID password code now now' d :
  wp (Disable s userID password code now now') (λ d' r,
    match r with
    | inl _ => users d' = users d
    | inr _ => users d' = upd (is_user userID) clear_2fa (users d) ∧
        ∃ u enc secret, sel (is_user userID) (users d) = Some u ∧ u_2fa_enabled u = true ∧
          VerifyPassword (u_password_hash u) password = true ∧ u_2fa_secret u = Some enc ∧
          decryptStored s enc = inr secret ∧ ValidateTOTP secret code now = true
    end) d.
Proof.
  eapply wp_mono; [apply (disable_wp (now' - totpReplayCleanupSec)); lia|].
  by intros d' r [_ Hr].
Qed.

(** C9: the brute-force bound seen by the clients.  After a challenge is
    issued, any sequence of second-step requests, with any codes and methods
    and any storage faults, gets at most four "invalid code" answers and at
    most one successful login out of it. *)
Theorem verify_challenge_bounds `{Unicode} `{CryptoLib} `{AeadLib} `{TotpLib} s now id userID t cs :
  store_wf (tf_challenges t) →
  let t1 := mkTfState (tf_db t) (Create now id userID (tf_challenges t)).1 in
  wrong_codes id (vrun_all s cs t1).2 ≤ 4 ∧ logins id (vrun_all s cs t1).2 ≤ 1.
Proof.
  intros Hwf t1. destruct (vrun_all_refines s cs id t1) as (ops & _ & Hnc & Hr & Hd).
  set (s1 := tf_challenges t1) in *.
  assert (E : s1 !! id = Some (mkChallenge id userID (now + ChallengeTTL) 0)) by apply lookup_insert_eq.
  assert (bounded_by id (now + ChallengeTTL) userID (budget id s1) (present id s1) (chal_run ops s1).2) as HB.
  { apply chal_run_bounded; [done|by apply store_wf_insert| |];
      intros c E'; rewrite E in E'; by simplify_eq. }
  unfold budget, present in HB. rewrite E in HB. destruct HB as (Hr' & Hd' & _).
  split; [etrans; [exact Hr|exact Hr']|etrans; [exact Hd|exact Hd']].
Qed.

Definition guesses : list vcall := List.repeat (mkVcall "c" "77" "app" 1 1 1 1 []) 6.

Lemma verify_challenge_bounds_witness :
  let t1 := mkTfState grace_db (Create 0 "c" "u1" ∅).1 in
  let rs := (vrun_all (H := ascii_only) (H0 := toy_lib) (H1 := toy_aead) (H2 := toy_totp) toy_service guesses t1).2 in
  wrong_codes "c" rs ≤ 4 ∧ logins "c" rs ≤ 1 ∧ wrong_codes "c" rs = 4.
Proof.
  assert (Hwf : store_wf ∅) by (intros i c E; by rewrite lookup_empty in E).
  destruct (verify_challenge_bounds (H := ascii_only) (H0 := toy_lib) (H1 := toy_aead) (H2 := toy_totp)
              toy_service 0 "c" "u1" (mkTfState grace_db ∅) guesses Hwf) as [W1 W2].
  split; [exact W1|]. split; [exact W2|]. vm_compute. reflexivity.
Defined.

(** A sealed secret is stored as non-empty text that opens to it. *)
Lemma sealed_opens `{AeadLib} `{!AeadLaws} s nonce secret enc :
  len nonce = nonceLen → Encrypt (tf_cipher s) (Some nonce) secret = inr enc →
  EncodeToString enc ≠ "" ∧ decryptStored s (EncodeToString enc) = inr secret.
Proof.
  intros Hn He. destruct (decrypt_encrypt (tf_cipher s) nonce secret Hn) as (ct & He' & Hd).
  rewrite He in He'. simplify_eq. unfold decryptStored. rewrite base64_roundtrip, Hd. split; [|done].
  intros E. pose proof (base64_roundtrip ct) as R. rewrite E in R. vm_compute in R.
  injection R as <-. vm_compute in Hd. done.
Qed.

(** the setup wizard.  Initiating setup and confirming it with a code the
    validator accepts for the secret shown to the user turns two-factor on:
    eight recovery codes are returned, the pending secret is cleared, and the
    stored secret opens to the one the user was shown. *)
Theorem setup_roundtrip `{Unicode} `{CryptoLib} `{!CryptoLaws} `{AeadLib} `{!AeadLaws} `{TotpLib}
    s seed nonce uid email code now now' draws d secret url png u :
  len nonce = nonceLen → (∀ i, List.length (draws i).1 = 10) →
  totp_generate seed email (tf_issuer s) = Some (secret, url) → url ≠ "" → qr_encode url = Some png →
  sel (is_user uid) (users d) = Some u → ValidateTOTP secret code now = true →
  ∃ d1 d2 plain u2,
    run (InitiateSetup s seed (Some nonce) uid email) d = (d1, inr (secret, url, png)) ∧
    run (ConfirmSetup s uid code now now' draws) d1 = (d2, inr plain) ∧ List.length plain = 8 ∧
    sel (is_user uid) (users d2) = Some u2 ∧ u_2fa_enabled u2 = true ∧ u_2fa_pending u2 = None ∧
    ∃ enc, u_2fa_secret u2 = Some enc ∧ decryptStored s enc = inr secret.
Proof.
  intros Hn Hl Hg Hu Hq Hs Hv.
  destruct (decrypt_encrypt (tf_cipher s) nonce secret Hn) as (enc & He & _).
  destruct (sealed_opens s nonce secret enc Hn He) as [Hne Ho].
  pose proof (sel_Some _ _ _ Hs) as [_ Hid].
  set (d1 := on_users (upd (is_user uid) (set_pending (EncodeToString enc))) d).
  assert (Hs1 : sel (is_user uid) (users d1) = Some (set_pending (EncodeToString enc) u)).
  { simpl. rewrite sel_upd by done. rewrite Hs. simpl. by rewrite Hid. }
  destruct (gen_codes_run d1 (List.map draws (List.seq 0 RecoveryCodeCount))) as (hs & E & _).
  { intros b Hb. apply list_elem_of_In, List.in_map_iff in Hb as (i & <- & _). apply Hl. }
  set (d2 := on_users (upd (is_user uid) (promote now' hs)) d1).
  eexists d1, d2, _, (promote now' hs (set_pending (EncodeToString enc) u)).
  split; [|split; [|split; [|split]]].
  - unfold run, InitiateSetup, GenerateTOTPSecret, TOTPQRCodePNG.
    rewrite Hg, (proj2 (String.eqb_neq _ _) Hu), Hq, He. done.
  - unfold run, ConfirmSetup, mbind, M_bind, bind. simpl. fold d1. simpl in Hs1. rewrite Hs1. simpl.
    rewrite (proj2 (String.eqb_neq _ _) Hne), Ho, Hv. simpl. unfold GenerateRecoveryCodes, mbind, M_bind, bind.
    fold d1. rewrite E. done.
  - by rewrite List.length_map.
  - change (users d2) with (upd (is_user uid) (promote now' hs) (users d1)).
    rewrite sel_upd, Hs1 by done. simpl. unfold is_user in *. simpl. by rewrite Hid.
  - simpl. eauto.
Qed.

Lemma setup_roundtrip_witness :
  ∃ d1 d2 plain u2,
    run (InitiateSetup (H1 := toy_aead) (H2 := toy_totp) toy_service "JBSWY3DP" (Some "abcdefghijkl") "u1" "ada@example.org") sessions_db
      = (d1, inr ("JBSWY3DP", "otpauth://totp/Prexel:ada@example.org", "otpauth://totp/Prexel:ada@example.org")) ∧
    run (ConfirmSetup (H := ascii_only) (H0 := toy_lib) (H1 := toy_aead) (H2 := toy_totp) toy_service "u1" "2" 121 121 toy_draws) d1 = (d2, inr plain) ∧
    u_2fa_enabled u2 = true.
Proof.
  destruct (setup_roundtrip (H := ascii_only) (H0 := toy_lib) (H1 := toy_laws) (H2 := toy_aead)
              (H3 := toy_aead_laws) (H4 := toy_totp) toy_service "JBSWY3DP" "abcdefghijkl" "u1"
              "ada@example.org" "2" 121 121 toy_draws sessions_db "JBSWY3DP"
              "otpauth://totp/Prexel:ada@example.org" "otpauth://totp/Prexel:ada@example.org" ada
              eq_refl (λ i, eq_refl) eq_refl ltac:(discriminate) eq_refl eq_refl eq_refl)
    as (d1 & d2 & plain & u2 & E1 & E2 & _ & _ & E3 & _).
  exists d1, d2, plain, u2. exact (conj E1 (conj E2 E3)).
Defined.
