(* ===== verification/Rbac.v ===== *)
(** * Roles and permissions (internal/rbac: catalog.go, helpers.go, roles.go,
    authorize.go, service.go, and UserContext of members.go)

    The permission catalogue, the roles table and the authorization checks.
    UUIDs are arguments of the methods that draw them. *)

From S2P Require Import Prelude Effects GoStrings Schema.
From Stdlib Require Import Permutation Sorted.

Inductive RbacErr :=
  | ErrNotFound
  | ErrForbidden
  | ErrInvalidInput
  | ErrSystemRole
  | ErrRoleInUse
  | ErrTeamHasApps
  | ErrSelfDelete
  | ErrBcryptFailed
  | ErrDb (where_ : string).

#[export] Instance RbacErr_eq_dec : EqDecision RbacErr.
Proof. solve_decision. Defined.

(** ** Catalogue (catalog.go) *)

Definition PermAppsView := "apps.view".
Definition PermAppsCreate := "apps.create".
Definition PermAppsUpdate := "apps.update".
Definition PermAppsDelete := "apps.delete".
Definition PermAppsDeploy := "apps.deploy".
Definition PermAppsRollback := "apps.rollback".
Definition PermAppsLogs := "apps.logs".
Definition PermAppsSecretsView := "apps.secrets.view".
Definition PermAppsSecretsManage := "apps.secrets.manage".
Definition PermDomainsView := "domains.view".
Definition PermDomainsManage := "domains.manage".
Definition PermServersView := "servers.view".
Definition PermServersManage := "servers.manage".
Definition PermGitView := "git.view".
Definition PermGitManage := "git.manage".
Definition PermTeamsView := "teams.view".
Definition PermTeamsManage := "teams.manage".
Definition PermTeamsMembersManage := "teams.members.manage".
Definition PermMembersView := "members.view".
Definition PermMembersInvite := "members.invite".
Definition PermMembersManage := "members.manage".
Definition PermRolesView := "roles.view".
Definition PermRolesManage := "roles.manage".
Definition PermSettingsInstanceManage := "settings.instance.manage".

Definition RoleScopeGlobal := "global".
Definition RoleScopeTeam := "team".
Definition RoleScopeBoth := "both".

(** Slug, group, name and description. *)
Record PermissionDefinition := mkPerm {
  pd_Slug : string; pd_Group : string; pd_Name : string; pd_Description : string;
}.

Definition PermissionDefinitions : list PermissionDefinition := [
  mkPerm PermAppsView "apps" "Ver apps" "Listar e abrir apps dentro do escopo permitido.";
  mkPerm PermAppsCreate "apps" "Criar apps" "Criar novos apps globais ou em times permitidos.";
  mkPerm PermAppsUpdate "apps" "Editar apps" "Alterar configurações de build, runtime e health-check.";
  mkPerm PermAppsDelete "apps" "Excluir apps" "Remover apps e recursos associados.";
  mkPerm PermAppsDeploy "apps" "Deploy" "Iniciar deploys e restart de apps.";
  mkPerm PermAppsRollback "apps" "Rollback" "Promover versões anteriores.";
  mkPerm PermAppsLogs "apps" "Logs" "Ler logs de deploy e runtime.";
  mkPerm PermAppsSecretsView "apps" "Ver secrets" "Listar metadados de secrets sem ver valores.";
  mkPerm PermAppsSecretsManage "apps" "Gerenciar secrets" "Criar, atualizar e remover secrets.";
  mkPerm PermDomainsView "domains" "Ver domínios" "Listar domínios e status DNS/TLS.";
  mkPerm PermDomainsManage "domains" "Gerenciar domínios" "Criar, verificar e remover domínios.";
  mkPerm PermServersView "servers" "Ver servidores" "Listar servidores Docker.";
  mkPerm PermServersManage "servers" "Gerenciar servidores" "Criar, testar, editar e remover servidores.";
  mkPerm PermGitView "git" "Ver integrações Git" "Listar integrações e repositórios Git.";
  mkPerm PermGitManage "git" "Gerenciar Git" "Criar e remover GitHub Apps, tokens e chaves SSH.";
  mkPerm PermTeamsView "teams" "Ver times" "Listar times e composição.";
  mkPerm PermTeamsManage "teams" "Gerenciar times" "Criar, editar e remover times.";
  mkPerm PermTeamsMembersManage "teams" "Gerenciar membros de times" "Adicionar e remover pessoas dos times.";
  mkPerm PermMembersView "members" "Ver membros" "Listar membros da instância.";
  mkPerm PermMembersInvite "members" "Convidar membros" "Criar novos acessos para a instância.";
  mkPerm PermMembersManage "members" "Gerenciar membros" "Alterar papel, status e times de membros.";
  mkPerm PermRolesView "roles" "Ver permissões" "Listar papéis e catálogo de permissões.";
  mkPerm PermRolesManage "roles" "Gerenciar permissões" "Criar e editar papéis.";
  mkPerm PermSettingsInstanceManage "settings" "Gerenciar instância" "Alterar configurações globais da instalação."
].

Definition AllPermissions : list string := List.map pd_Slug PermissionDefinitions.

(** [permissionSet], as a membership test. *)
Definition permissionSet (p : string) : bool := List.existsb (String.eqb p) AllPermissions.

Record defaultRole := mkDefaultRole {
  dr_Slug : string; dr_Name : string; dr_Description : string; dr_Scope : string;
  dr_IsAdmin : bool; dr_Permissions : list string;
}.

Definition devPerms : list string := [
  PermAppsView; PermAppsCreate; PermAppsUpdate; PermAppsDeploy; PermAppsRollback; PermAppsLogs;
  PermAppsSecretsView; PermDomainsView; PermGitView
].

Definition defaultRoles : list defaultRole := [
  mkDefaultRole "admin" "Admin" "Acesso total à instância." RoleScopeGlobal true [];
  mkDefaultRole "platform" "Platform"
    "Administra integrações, servidores, domínios e políticas globais sem acesso automático a times."
    RoleScopeGlobal false
    [PermAppsView; PermDomainsView; PermDomainsManage; PermServersView; PermServersManage;
     PermGitView; PermGitManage; PermTeamsView; PermTeamsManage; PermTeamsMembersManage;
     PermMembersView; PermMembersInvite; PermMembersManage; PermRolesView; PermRolesManage;
     PermSettingsInstanceManage];
  mkDefaultRole "tech-lead" "Tech Lead"
    "Gerencia apps, deploys, secrets e membros dentro dos times em que lidera."
    RoleScopeTeam false
    [PermAppsView; PermAppsCreate; PermAppsUpdate; PermAppsDelete; PermAppsDeploy; PermAppsRollback; PermAppsLogs;
     PermAppsSecretsView; PermAppsSecretsManage; PermDomainsView; PermDomainsManage;
     PermTeamsView; PermTeamsManage; PermTeamsMembersManage; PermGitView];
  mkDefaultRole "developer" "Developer"
    "Gerencia apps e deploys dentro dos times em que participa."
    RoleScopeTeam false devPerms;
  mkDefaultRole "qa" "QA"
    "Acompanha deploys, logs e estado dos apps do time sem alterar infraestrutura."
    RoleScopeTeam false
    [PermAppsView; PermAppsDeploy; PermAppsRollback; PermAppsLogs; PermDomainsView; PermTeamsView];
  mkDefaultRole "viewer" "Viewer" "Acesso somente leitura aos recursos permitidos."
    RoleScopeBoth false
    [PermAppsView; PermAppsLogs; PermDomainsView; PermServersView; PermGitView; PermTeamsView; PermMembersView; PermRolesView]
].

(** ** Helpers (helpers.go) *)

Definition slug_char (c : ascii) : bool :=
  is_lower_ascii (byte c) || in_range 48 57 (byte c) || Ascii.eqb c "-"%char.
Definition slug_end (c : ascii) : bool := is_lower_ascii (byte c) || in_range 48 57 (byte c).

(** [slugRegex]: letters, digits and dashes, no dash at either end. *)
Definition slug_match_list (l : list ascii) : bool :=
  List.forallb slug_char l
  && (match l with c :: _ => slug_end c | [] => false end)
  && (match rev l with c :: _ => slug_end c | [] => false end).

Definition slugRegex (s : string) : bool := slug_match_list (String.list_ascii_of_string s).

(** [uniqueStrings]; [seen] is the set of the values kept so far. *)
Fixpoint unique_from (seen : list string) (l : list string) : list string :=
  match l with
  | [] => []
  | v :: l =>
    let v := TrimSpace v in
    if v =s "" then unique_from seen l
    else if List.existsb (String.eqb v) seen then unique_from seen l
    else v :: unique_from (v :: seen) l
  end.

Definition uniqueStrings (l : list string) : list string := unique_from [] l.

(** One rune of the loop of [slugify]: the bytes written and [lastDash]. *)
Definition slug_step (acc : list ascii * bool) (r : Z) : list ascii * bool :=
  let '(out, lastDash) := acc in
  if in_range 97 122 r || in_range 48 57 r then (out ++ [of_byte r], false)
  else if lastDash then acc
  else (out ++ ["-"%char], true).

(** [strings.Trim(s, "-")]. *)
Fixpoint drop_dashes (l : list ascii) : list ascii :=
  match l with
  | c :: l' => if Ascii.eqb c "-"%char then drop_dashes l' else l
  | [] => []
  end.
Definition trim_dashes (l : list ascii) : list ascii := rev (drop_dashes (rev (drop_dashes l))).

Definition slugify `{Unicode} (s : string) : string :=
  let s := ToLower (TrimSpace s) in
  let out := String.string_of_list_ascii (trim_dashes (foldl slug_step ([], false) (runes s)).1) in
  if out =s "" then "role" else out.

(** The candidates of [uniqueSlug], from the [i]-th on. A failed count is
    read as zero, as in the code. *)
Fixpoint slug_loop {E} (fuel i : nat) (count : string → M Db E nat) (base uuid : string) : M Db E string :=
  match fuel with
  | O => mret (base ^^ "-" ^^ take_s 8 uuid)
  | S fuel =>
    let candidate := if (0 <? i)%nat then base ^^ "-" ^^ Itoa (Z.of_nat i + 1) else base in
    n ← attempt (count candidate);
    match n with
    | inr (S _) => slug_loop fuel (S i) count base uuid
    | _ => mret candidate
    end
  end.

Definition uniqueSlug {E} (count : string → M Db E nat) (base uuid : string) : M Db E string :=
  let base := if slugRegex base then base else "role" in
  slug_loop 1000 0 count base uuid.

(** [sort.Strings]. *)
Definition sort_strings (l : list string) : list string := sort_by String.leb l.

(** ** Roles (roles.go) *)

Record Role := mkRoleV {
  r_ID : string; r_Slug : string; r_Name : string; r_Description : string;
  r_Scope : string; r_IsAdmin : bool; r_IsSystem : bool; r_Permissions : list string;
}.

Definition normaliseScope (scope : string) : string :=
  let t := TrimSpace scope in
  if (t =s RoleScopeGlobal) || (t =s RoleScopeTeam) || (t =s RoleScopeBoth) then t else RoleScopeBoth.

(** [None]: the permissions column does not decode. *)
Definition scanRole (r : RoleRow) : option Role :=
  match ro_permissions r with
  | JRaw _ => None
  | JStrings perms =>
    Some (mkRoleV (ro_id r) (ro_slug r) (ro_name r) (ro_description r)
            (normaliseScope (ro_scope r)) (ro_is_admin r) (ro_is_system r) perms)
  end.

(** The first loop of [normalisePermissions]: the set of known slugs. *)
Fixpoint collect_perms (set : list string) (l : list string) : RbacErr + list string :=
  match l with
  | [] => inr set
  | p :: l =>
    let p := TrimSpace p in
    if p =s "" then collect_perms set l
    else if negb (permissionSet p) then inl ErrInvalidInput
    else collect_perms (if List.existsb (String.eqb p) set then set else p :: set) l
  end.

Definition normalisePermissions (l : list string) : RbacErr + list string :=
  match collect_perms [] l with
  | inl e => inl e
  | inr set => inr (sort_strings set)
  end.

Definition roleAllowsScope (role : option Role) (scope : string) : bool :=
  match role with
  | None => false
  | Some r => (r_Scope r =s RoleScopeBoth) || (r_Scope r =s scope)
  end.

Definition is_role (id : string) (r : RoleRow) : bool := ro_id r =s id.
Definition is_slug (slug : string) (r : RoleRow) : bool := ro_slug r =s slug.

(** [INSERT INTO roles ... ON CONFLICT(slug) DO UPDATE] for one default role. *)
Definition seed_role (id : string) (d : defaultRole) : M Db RbacErr unit :=
  let fresh := mkRole id (dr_Slug d) (dr_Name d) (dr_Description d) (normaliseScope (dr_Scope d))
                 (dr_IsAdmin d) true (JStrings (dr_Permissions d)) in
  checked (ErrDb "seed role") (λ db,
    if List.existsb (is_slug (dr_Slug d)) (roles db) then
      inr (on_roles (upd (is_slug (dr_Slug d)) (λ r,
             mkRole (ro_id r) (ro_slug r) (ro_name fresh) (ro_description fresh) (ro_scope fresh)
               (ro_is_admin fresh) true (ro_permissions fresh))) db, tt)
    else if List.existsb (is_role id) (roles db) then inl (ErrDb "seed role")
    else inr (on_roles (λ l, l ++ [fresh]) db, tt)).

Definition set_role_id (rid : option string) (u : User) : User :=
  mkUser (u_id u) (u_email u) (u_password_hash u) (u_role u) (u_name u) (u_avatar_path u)
    (u_status u) rid (u_2fa_enabled u) (u_2fa_secret u) (u_2fa_pending u)
    (u_2fa_confirmed_at u) (u_2fa_recovery u) (u_created_at u).

Fixpoint seed_roles (uuids : nat → string) (i : nat) (ds : list defaultRole) : M Db RbacErr unit :=
  match ds with
  | [] => mret tt
  | d :: ds => _ ← seed_role (uuids i) d; seed_roles uuids (S i) ds
  end.

Definition EnsureDefaults (uuids : nat → string) : M Db RbacErr unit :=
  _ ← seed_roles uuids 0 defaultRoles;
  exec (ErrDb "assign admin") (λ db,
    on_users (upd (λ u, negb (is_some (u_role_id u)) && (u_role u =s "admin"))
                  (set_role_id (ro_id <$> sel (is_slug "admin") (roles db)))) db).

Definition GetRole (id : string) : M Db RbacErr Role :=
  row ← query (ErrDb "role") (λ d, sel (is_role id) (roles d));
  match row with
  | None => throw ErrNotFound
  | Some r => match scanRole r with None => throw (ErrDb "role") | Some r => mret r end
  end.

(** [ORDER BY is_system DESC, scope ASC, name ASC]. *)
Definition role_before (a b : RoleRow) : bool :=
  let ord (x y : string) := match String.compare x y with Eq => None | Lt => Some true | Gt => Some false end in
  if negb (Bool.eqb (ro_is_system a) (ro_is_system b)) then ro_is_system a
  else match ord (ro_scope a) (ro_scope b) with
       | Some b => b
       | None => match ord (ro_name a) (ro_name b) with Some b => b | None => true end
       end.

Fixpoint insert_by {A} (before : A → A → bool) (x : A) (l : list A) : list A :=
  match l with
  | [] => [x]
  | y :: l' => if before x y then x :: l else y :: insert_by before x l'
  end.
Definition order_by {A} (before : A → A → bool) (l : list A) : list A := foldr (insert_by before) [] l.

(** [for rows.Next() { scan }]: the first row that does not decode fails. *)
Fixpoint scan_all {A B} (scan : A → option B) (l : list A) : option (list B) :=
  match l with
  | [] => Some []
  | x :: l => y ← scan x; ys ← scan_all scan l; Some (y :: ys)
  end.

Definition ListRoles : M Db RbacErr (list Role) :=
  rows ← query (ErrDb "list roles") (λ d, order_by role_before (roles d));
  match scan_all scanRole rows with
  | None => throw (ErrDb "list roles")
  | Some out => mret out
  end.

Definition count_slug (slug : string) : M Db RbacErr nat :=
  query (ErrDb "count") (λ d, cnt (is_slug slug) (roles d)).

Definition valid_name (name : string) : bool := negb ((len name <? 2)%Z || (80 <? len name)%Z).

Record CreateRoleInput := mkCreateRoleInput {
  cr_Name : string; cr_Description : string; cr_Scope : string;
  cr_Permissions : list string; cr_IsAdmin : bool;
}.

(** The UUIDs of the slug fallback and of the row. *)
Definition CreateRole `{Unicode} (uuid id : string) (inp : CreateRoleInput) : M Db RbacErr Role :=
  let name := TrimSpace (cr_Name inp) in
  if negb (valid_name name) then throw ErrInvalidInput
  else match normalisePermissions (cr_Permissions inp) with
  | inl e => throw e
  | inr perms =>
    let scope := normaliseScope (cr_Scope inp) in
    slug ← uniqueSlug count_slug (slugify name) uuid;
    _ ← checked (ErrDb "insert role") (λ d,
      if List.existsb (λ r, is_role id r || is_slug slug r) (roles d) then inl (ErrDb "insert role")
      else inr (on_roles (λ l, l ++ [mkRole id slug name (TrimSpace (cr_Description inp)) scope
                                       (cr_IsAdmin inp) false (JStrings perms)]) d, tt));
    GetRole id
  end.

Record UpdateRoleInput := mkUpdateRoleInput {
  ur_Name : option string; ur_Description : option string; ur_Scope : option string;
  ur_Permissions : list string; ur_PermissionsSet : bool;
}.

Definition role_with (r : RoleRow) name desc scope perms : RoleRow :=
  mkRole (ro_id r) (ro_slug r) name desc scope (ro_is_admin r) (ro_is_system r) perms.

Definition set_name (n : string) (r : RoleRow) : RoleRow :=
  role_with r n (ro_description r) (ro_scope r) (ro_permissions r).
Definition set_description (t : string) (r : RoleRow) : RoleRow :=
  role_with r (ro_name r) t (ro_scope r) (ro_permissions r).
Definition set_scope (t : string) (r : RoleRow) : RoleRow :=
  role_with r (ro_name r) (ro_description r) t (ro_permissions r).
Definition set_permissions (l : list string) (r : RoleRow) : RoleRow :=
  role_with r (ro_name r) (ro_description r) (ro_scope r) (JStrings l).

(** The SET clauses [UpdateRole] collects. *)
Definition role_sets (inp : UpdateRoleInput) : RbacErr + list (RoleRow → RoleRow) :=
  sets1 ← match ur_Name inp with
          | None => mret []
          | Some n => if negb (valid_name (TrimSpace n)) then inl ErrInvalidInput
                      else mret [set_name (TrimSpace n)]
          end;
  let sets2 := match ur_Description inp with None => [] | Some t => [set_description (TrimSpace t)] end in
  let sets3 := match ur_Scope inp with None => [] | Some t => [set_scope (normaliseScope t)] end in
  sets4 ← (if ur_PermissionsSet inp then
             perms ← normalisePermissions (ur_Permissions inp);
             mret [set_permissions perms]
           else mret []);
  mret (sets1 ++ sets2 ++ sets3 ++ sets4).

(** [UPDATE ... SET c1, ..., cn]. *)
Definition apply_sets {A} (sets : list (A → A)) (r : A) : A := foldl (λ r f, f r) r sets.

Definition UpdateRole (id : string) (inp : UpdateRoleInput) : M Db RbacErr Role :=
  role ← GetRole id;
  if r_IsSystem role then throw ErrSystemRole
  else match role_sets inp with
  | inl e => throw e
  | inr sets =>
    if is_nil sets then mret role
    else
      _ ← exec (ErrDb "update role") (on_roles (upd (is_role id) (apply_sets sets)));
      GetRole id
  end.

Definition user_has_role (id : string) (u : User) : bool :=
  match u_role_id u with Some r => r =s id | None => false end.
Definition member_has_role (id : string) (m : TeamMemberRow) : bool :=
  match mb_role_id m with Some r => r =s id | None => false end.

(** [DELETE FROM roles]: refused while a row references the role. *)
Definition delete_role (id : string) : M Db RbacErr nat :=
  checked (ErrDb "delete role") (λ d,
    if List.existsb (is_role id) (roles d)
       && (List.existsb (user_has_role id) (users d) || List.existsb (member_has_role id) (team_members d))
    then inl (ErrDb "delete role")
    else inr (on_roles (del (is_role id)) d, cnt (is_role id) (roles d))).

Definition DeleteRole (id : string) : M Db RbacErr unit :=
  role ← GetRole id;
  if r_IsSystem role then throw ErrSystemRole
  else
    n ← query (ErrDb "count users") (λ d, cnt (user_has_role id) (users d));
    if (0 <? n)%nat then throw ErrRoleInUse
    else
      n ← query (ErrDb "count members") (λ d, cnt (member_has_role id) (team_members d));
      if (0 <? n)%nat then throw ErrRoleInUse
      else
        n ← delete_role id;
        if (n =? 0)%nat then throw ErrNotFound else mret tt.

(** ** The user of a request (members.go: UserContext) *)

Definition avatarURL (path : string) : string :=
  if TrimSpace path =s "" then "" else "/api/v1/avatars/" ^^ TrimSpace path.

Record UserCtx := mkUserCtx {
  uc_ID : string; uc_Email : string; uc_Name : string; uc_AvatarURL : string; uc_Status : string;
  uc_Role : option Role; uc_RoleSlug : string; uc_Permissions : list string; uc_IsAdmin : bool;
}.

Definition str (o : option string) : string := match o with Some s => s | None => "" end.

(** [sort.Strings(out.Permissions)] sorts the slice in place; unless the role
    is an administrator's it is also the slice of the role. *)
Definition sorted_role (r : Role) : Role :=
  if r_IsAdmin r then r
  else mkRoleV (r_ID r) (r_Slug r) (r_Name r) (r_Description r) (r_Scope r) (r_IsAdmin r) (r_IsSystem r)
         (sort_strings (r_Permissions r)).

(** The role part of [UserContext]: role, slug, permissions, admin. *)
Definition with_role (legacyRole : string) (role : option Role) : option Role * string * list string * bool :=
  match role with
  | Some r => (Some (sorted_role r), r_Slug r,
               (if r_IsAdmin r then AllPermissions else r_Permissions r), r_IsAdmin r)
  | None => if legacyRole =s "admin" then (None, legacyRole, AllPermissions, true)
            else (None, legacyRole, [], false)
  end.

Definition UserContext (userID : string) : M Db RbacErr UserCtx :=
  row ← query (ErrDb "user") (λ d, sel (λ u, u_id u =s userID) (users d));
  match row with
  | None => throw ErrNotFound
  | Some u =>
    role ← (match u_role_id u with
            | Some rid =>
              if rid =s "" then mret None
              else
                r ← attempt (GetRole rid);
                match r with
                | inl ErrNotFound => mret None
                | inl e => throw e
                | inr r => mret (Some r)
                end
            | None => mret None
            end);
    let '(r, slug, perms, admin) := with_role (u_role u) role in
    mret (mkUserCtx (u_id u) (u_email u) (str (u_name u)) (avatarURL (str (u_avatar_path u)))
            (u_status u) r slug (sort_strings perms) admin)
  end.

(** ** Authorization (authorize.go) *)

Definition hasPermission (perms : list string) (permission : string) : bool :=
  List.existsb (λ p, p =s permission) perms.

Definition HasPermission (userID permission : string) : M Db RbacErr bool :=
  u ← UserContext userID;
  if negb (uc_Status u =s "active") then mret false
  else if uc_IsAdmin u then mret true
  else mret (hasPermission (uc_Permissions u) permission).

Definition Require (userID permission : string) : M Db RbacErr unit :=
  ok ← HasPermission userID permission;
  if negb ok then throw ErrForbidden else mret tt.

(** [SELECT ... FROM team_members tm JOIN roles r ON r.id = tm.role_id]. *)
Definition teamRoleForMember (teamID userID : string) : M Db RbacErr Role :=
  row ← query (ErrDb "team role") (λ d,
    head (omap (λ m,
      if (mb_team_id m =s teamID) && (mb_user_id m =s userID)
      then match mb_role_id m with Some rid => sel (is_role rid) (roles d) | None => None end
      else None) (team_members d)));
  match row with
  | None => throw ErrNotFound
  | Some r => match scanRole r with None => throw (ErrDb "team role") | Some r => mret r end
  end.

Definition HasTeamPermission (userID teamID permission : string) : M Db RbacErr bool :=
  u ← UserContext userID;
  if negb (uc_Status u =s "active") then mret false
  else if uc_IsAdmin u then mret true
  else
    role ← attempt (teamRoleForMember teamID userID);
    match role with
    | inl ErrNotFound => mret false
    | inl e => throw e
    | inr role => if r_IsAdmin role then mret true else mret (hasPermission (r_Permissions role) permission)
    end.

Definition CanAccessTeam (userID : string) (teamID : option string) (permission : string) : M Db RbacErr bool :=
  u ← UserContext userID;
  if negb (uc_Status u =s "active") then mret false
  else if uc_IsAdmin u || hasPermission (uc_Permissions u) permission then mret true
  else match teamID with
  | None => mret false
  | Some t => if TrimSpace t =s "" then mret false else HasTeamPermission userID (TrimSpace t) permission
  end.

Definition RequireTeam (userID teamID permission : string) : M Db RbacErr unit :=
  ok ← HasTeamPermission userID teamID permission;
  if negb ok then throw ErrForbidden else mret tt.

(** ** The access policy *)

Definition role_of (d : Db) (u : User) : option RoleRow :=
  match u_role_id u with
  | Some rid => if rid =s "" then None else sel (is_role rid) (roles d)
  | None => None
  end.

Definition perms_of (r : RoleRow) : list string :=
  match ro_permissions r with JStrings l => l | JRaw _ => [] end.

(** An administrator: by role, or by the legacy column when there is no role. *)
Definition is_admin (d : Db) (u : User) : bool :=
  match role_of d u with Some r => ro_is_admin r | None => u_role u =s "admin" end.

Definition global_perm (d : Db) (u : User) (p : string) : bool :=
  match role_of d u with Some r => hasPermission (perms_of r) p | None => false end.

Definition team_role (d : Db) (teamID userID : string) : option RoleRow :=
  head (omap (λ m,
    if (mb_team_id m =s teamID) && (mb_user_id m =s userID)
    then match mb_role_id m with Some rid => sel (is_role rid) (roles d) | None => None end
    else None) (team_members d)).

Definition team_perm (d : Db) (teamID userID p : string) : bool :=
  match team_role d teamID userID with
  | Some r => ro_is_admin r || hasPermission (perms_of r) p
  | None => false
  end.

(** [f] of the row of the user, when the account is active. *)
Definition active_user (d : Db) (userID : string) (f : User → bool) : bool :=
  match sel (λ u, u_id u =s userID) (users d) with
  | Some u => (u_status u =s "active") && f u
  | None => false
  end.

Definition may (d : Db) (userID p : string) : bool :=
  active_user d userID (λ u, is_admin d u || global_perm d u p).
Definition may_in_team (d : Db) (userID teamID p : string) : bool :=
  active_user d userID (λ u, is_admin d u || team_perm d teamID userID p).
Definition may_access (d : Db) (userID : string) (teamID : option string) (p : string) : bool :=
  active_user d userID (λ u, is_admin d u || global_perm d u p ||
    match teamID with
    | Some t => negb (TrimSpace t =s "") && team_perm d (TrimSpace t) userID p
    | None => false
    end).

(** ** Sorting and duplicates *)

Lemma hasPermission_elem l p : hasPermission l p = true ↔ p ∈ l.
Proof.
  unfold hasPermission. rewrite List.existsb_exists, list_elem_of_In.
  split; [intros (x & ? & ?); by bool_simp; subst|]. intros. exists p. by rewrite String.eqb_refl.
Qed.

Lemma hasPermission_sorted l p : hasPermission (sort_strings l) p = hasPermission l p.
Proof.
  apply eq_true_iff_eq. rewrite !hasPermission_elem, !list_elem_of_In.
  split; apply Permutation_in; [|symmetry]; apply sort_by_perm.
Qed.

Lemma existsb_eqb v l : List.existsb (String.eqb v) l = true ↔ v ∈ l.
Proof.
  rewrite List.existsb_exists, list_elem_of_In.
  split; [intros (x & ? & ?); by bool_simp; subst|]. intros. exists v. by rewrite String.eqb_refl.
Qed.

Lemma existsb_eqb_false v l : List.existsb (String.eqb v) l = false ↔ v ∉ l.
Proof. rewrite <- existsb_eqb. by destruct (List.existsb _ l). Qed.

(** *** The decisions follow the policy *)

Lemma get_role_wp id d :
  wp (GetRole id) (λ d' r, d' = d ∧
    match r with
    | inl ErrNotFound => sel (is_role id) (roles d) = None
    | inl _ => True
    | inr v => ∃ row, sel (is_role id) (roles d) = Some row ∧ scanRole row = Some v
    end) d.
Proof.
  unfold GetRole. apply wp_bind, wp_query; [done|].
  destruct (sel _ (roles d)) as [row|] eqn:E; [|by apply wp_throw].
  destruct (scanRole row) as [v|] eqn:Ev; [|by apply wp_throw]. apply wp_ret. split; [done|]. eauto.
Qed.

Lemma scanRole_Some row v : scanRole row = Some v →
  r_IsAdmin v = ro_is_admin row ∧ r_Permissions v = perms_of row ∧ r_IsSystem v = ro_is_system row ∧
  r_ID v = ro_id row ∧ r_Scope v = normaliseScope (ro_scope row).
Proof. unfold scanRole, perms_of. intros. by case_match; simplify_eq. Qed.

Lemma user_context_wp userID d :
  wp (UserContext userID) (λ d' r, d' = d ∧
    match r with
    | inl _ => True
    | inr c => ∃ u, sel (λ u, u_id u =s userID) (users d) = Some u ∧ uc_Status c = u_status u ∧
                    uc_IsAdmin c = is_admin d u ∧
                    (uc_IsAdmin c = false → ∀ p, hasPermission (uc_Permissions c) p = global_perm d u p)
    end) d.
Proof.
  unfold UserContext. apply wp_bind, wp_query; [done|].
  destruct (sel _ (users d)) as [u|] eqn:Eu; [|by apply wp_throw].
  set (ctx := λ role : option Role,
    let '(r, slug, perms, admin) := with_role (u_role u) role in
    mkUserCtx (u_id u) (u_email u) (str (u_name u)) (avatarURL (str (u_avatar_path u)))
      (u_status u) r slug (sort_strings perms) admin).
  apply wp_bind. eapply (wp_mono _ (λ d' r, d' = d ∧ match r with inl _ => True | inr None => role_of d u = None
    | inr (Some v) => ∃ row, role_of d u = Some row ∧ scanRole row = Some v end)).
  - unfold role_of. destruct (u_role_id u) as [rid|]; [|by apply wp_ret].
    apply wp_if; intros E; [rewrite E; by apply wp_ret|]. rewrite E.
    apply wp_bind, wp_attempt. eapply wp_mono; [apply get_role_wp|]. intros d' [e|v] [-> Hr].
    + destruct e; try (by apply wp_throw). by apply wp_ret.
    + by apply wp_ret.
  - intros d' [e|role] [-> Hr]; [done|].
    assert (W : wp (mret (ctx role)) (λ d' r, d' = d ∧
      match r with
      | inl _ => True
      | inr c => ∃ u, Some u = sel (λ u, u_id u =s userID) (users d) ∧ uc_Status c = u_status u ∧
                    uc_IsAdmin c = is_admin d u ∧
                    (uc_IsAdmin c = false → ∀ p, hasPermission (uc_Permissions c) p = global_perm d u p)
      end) d (E := RbacErr)).
    { apply wp_ret. split; [done|]. exists u. split; [done|]. unfold ctx, is_admin, global_perm.
      destruct role as [v|]; simpl.
      - destruct Hr as (row & -> & Hs). apply scanRole_Some in Hs as (Ha & Hp & _). rewrite Ha, Hp.
        split; [done|]. split; [done|]. intros -> p. apply hasPermission_sorted.
      - rewrite Hr. destruct (u_role u =s "admin"); simpl; by rewrite ?Eu. }
    unfold ctx in W. destruct (with_role (u_role u) role) as [[[? ?] ?] ?].
    eapply wp_mono; [exact W|]. intros d' [e|c]; [done|]. simpl. intros [-> (u' & Hu' & H)].
    split; [done|]. exists u'. rewrite Eu in Hu'. injection Hu' as ->. done.
Qed.

Lemma has_permission_wp userID p d :
  wp (HasPermission userID p) (λ d' r, d' = d ∧ ∀ b, r = inr b → b = may d userID p) d.
Proof.
  unfold HasPermission. apply wp_bind. eapply wp_mono; [apply user_context_wp|].
  intros d' [e|c] [-> Hc]; [by split|]. destruct Hc as (u & Hu & Hs & Ha & Hp).
  assert (E : may d userID p = (uc_Status c =s "active") && (uc_IsAdmin c || global_perm d u p)).
  { unfold may, active_user. rewrite Hu, Hs, Ha. done. }
  rewrite E. apply wp_if; intros H1; [apply wp_ret; split; [done|]; intros b [= <-]; apply negb_true_iff in H1; by rewrite H1|].
  apply negb_false_iff in H1. rewrite H1. simpl.
  apply wp_if; intros H2; rewrite H2; apply wp_ret; (split; [done|]); intros b [= <-]; [done|].
  simpl. by apply Hp.
Qed.

Lemma has_team_permission_wp userID teamID p d :
  wp (HasTeamPermission userID teamID p) (λ d' r, d' = d ∧ ∀ b, r = inr b → b = may_in_team d userID teamID p) d.
Proof.
  unfold HasTeamPermission. apply wp_bind. eapply wp_mono; [apply user_context_wp|].
  intros d' [e|c] [-> Hc]; [by split|]. destruct Hc as (u & Hu & Hs & Ha & _).
  assert (E : may_in_team d userID teamID p =
              (uc_Status c =s "active") && (uc_IsAdmin c || team_perm d teamID userID p)).
  { unfold may_in_team, active_user. rewrite Hu, Hs, Ha. done. }
  rewrite E. apply wp_if; intros H1; [apply wp_ret; split; [done|]; intros b [= <-]; apply negb_true_iff in H1; by rewrite H1|].
  apply negb_false_iff in H1. rewrite H1. simpl.
  apply wp_if; intros H2; rewrite H2; [apply wp_ret; split; [done|]; by intros b [= <-]|]. simpl.
  apply wp_bind, wp_attempt. unfold teamRoleForMember. apply wp_bind, wp_query; [by apply wp_throw|].
  fold (team_role d teamID userID). unfold team_perm.
  destruct (team_role d teamID userID) as [row|]; [|apply wp_throw, wp_ret; split; [done|]; by intros b [= <-]].
  destruct (scanRole row) as [v|] eqn:Ev; [|by apply wp_throw, wp_throw].
  apply scanRole_Some in Ev as (Hv & Hvp & _). apply wp_ret.
  apply wp_if; intros H3; apply wp_ret; (split; [done|]); intros b [= <-]; rewrite <- Hv, H3; [done|].
  simpl. by rewrite Hvp.
Qed.

Lemma can_access_team_wp userID teamID p d :
  wp (CanAccessTeam userID teamID p) (λ d' r, d' = d ∧ ∀ b, r = inr b → b = may_access d userID teamID p) d.
Proof.
  unfold CanAccessTeam. apply wp_bind. eapply wp_mono; [apply user_context_wp|].
  intros d' [e|c] [-> Hc]; [by split|]. destruct Hc as (u & Hu & Hs & Ha & Hp).
  unfold may_access, active_user. rewrite Hu, <- Hs.
  apply wp_if; intros H1; [apply wp_ret; split; [done|]; intros b [= <-]; apply negb_true_iff in H1; by rewrite H1|].
  apply negb_false_iff in H1. rewrite H1. simpl. rewrite <- Ha.
  destruct (uc_IsAdmin c) eqn:E2; simpl.
  { apply wp_ret. split; [done|]. by intros b [= <-]. }
  rewrite <- Hp by done. destruct (hasPermission (uc_Permissions c) p) eqn:E3; simpl.
  { apply wp_ret. split; [done|]. by intros b [= <-]. }
  destruct teamID as [t|]; [|apply wp_ret; split; [done|]; by intros b [= <-]].
  apply wp_if; intros E4; rewrite E4; [apply wp_ret; split; [done|]; by intros b [= <-]|]. simpl.
  eapply wp_mono; [apply has_team_permission_wp|]. intros d' r [-> Hr]. split; [done|].
  intros b Hb. rewrite (Hr b Hb). unfold may_in_team, active_user.
  rewrite Hu, <- Hs, H1, <- Ha. done.
Qed.

(** ** Slugs *)

Lemma slug_step_chars acc r :
  Forall (λ c, slug_char c = true) acc.1 → Forall (λ c, slug_char c = true) (slug_step acc r).1.
Proof.
  destruct acc as [out last]. unfold slug_step. intros Ho.
  destruct (in_range 97 122 r || in_range 48 57 r) eqn:E; [|destruct last; [done|]]; simpl;
    apply Forall_app; (split; [done|]); constructor; try done.
  apply orb_true_iff in E. rewrite !in_range_spec in E.
  unfold slug_char, is_lower_ascii. rewrite byte_of_byte by lia.
  apply orb_true_iff. left. apply orb_true_iff. rewrite !in_range_spec. lia.
Qed.

Lemma slug_fold_chars l acc :
  Forall (λ c, slug_char c = true) acc.1 → Forall (λ c, slug_char c = true) (foldl slug_step acc l).1.
Proof. revert acc. induction l as [|r l IH]; intros acc H; [done|]. apply IH, slug_step_chars, H. Qed.

Lemma drop_dashes_suffix l : ∃ k, l = k ++ drop_dashes l.
Proof.
  induction l as [|c l [k IH]]; [by exists []|]. simpl.
  destruct (Ascii.eqb c "-"%char); [exists (c :: k); by rewrite IH at 1|by exists []].
Qed.

Lemma drop_dashes_head l c l' : drop_dashes l = c :: l' → Ascii.eqb c "-"%char = false.
Proof.
  induction l as [|a l IH]; simpl; [done|]. destruct (Ascii.eqb a "-"%char) eqn:E; [done|].
  by intros [= -> ->].
Qed.

Lemma slug_end_of c : slug_char c = true → Ascii.eqb c "-"%char = false → slug_end c = true.
Proof. unfold slug_char, slug_end. intros H E. by rewrite E, orb_false_r in H. Qed.

(** Trimming leaves slug characters with no dash at either end. *)
Lemma trim_dashes_match l :
  Forall (λ c, slug_char c = true) l → trim_dashes l = [] ∨ slug_match_list (trim_dashes l) = true.
Proof.
  intros Hl. unfold trim_dashes.
  destruct (drop_dashes_suffix l) as [k1 E1]. destruct (drop_dashes_suffix (rev (drop_dashes l))) as [k2 E2].
  set (m := drop_dashes (rev (drop_dashes l))) in *.
  assert (Hm : drop_dashes l = rev m ++ rev k2).
  { rewrite <- List.rev_app_distr, <- E2. by rewrite List.rev_involutive. }
  destruct (rev m) as [|c r] eqn:Er; [by left|]. right.
  assert (Hall : Forall (λ c, slug_char c = true) (c :: r)).
  { rewrite E1, Hm in Hl. apply Forall_app in Hl as [_ Hl]. apply Forall_app in Hl as [Hl _]. done. }
  unfold slug_match_list. apply andb_true_iff. split; [apply andb_true_iff; split|].
  - apply List.forallb_forall. intros x Hx. apply (proj1 (Forall_forall _ _) Hall x), list_elem_of_In, Hx.
  - apply slug_end_of; [by inversion Hall|]. by apply (drop_dashes_head l c (r ++ rev k2)).
  - assert (Em : rev (c :: r) = m) by (by rewrite <- Er, List.rev_involutive).
    rewrite Em. destruct m as [|a m'] eqn:E; [done|].
    apply slug_end_of; [|by eapply drop_dashes_head].
    apply (proj1 (Forall_forall _ _) Hall a), list_elem_of_In, List.in_rev. rewrite Em. by left.
Qed.

Lemma slugify_match `{Unicode} s : slugRegex (slugify s) = true.
Proof.
  unfold slugify. set (l := (foldl slug_step ([], false) (runes (ToLower (TrimSpace s)))).1).
  destruct (trim_dashes_match l) as [E|E].
  - apply slug_fold_chars. constructor.
  - by rewrite E.
  - destruct (String.string_of_list_ascii (trim_dashes l) =s "") eqn:E2; [done|].
    unfold slugRegex. by rewrite String.list_ascii_of_string_of_list_ascii.
Qed.

(** The loop of [uniqueSlug] ends with a candidate whose count was zero or
    failed, or with the UUID fallback. *)
Lemma count_slug_run slug d : count_slug slug d [] = (d, [], inr (cnt (is_slug slug) (roles d))).
Proof. done. Qed.

Lemma slug_loop_run fuel i base uuid d : ∃ slug,
  slug_loop fuel i count_slug base uuid d [] = (d, [], inr slug) ∧
  (cnt (is_slug slug) (roles d) = 0 ∨ slug = base ^^ "-" ^^ take_s 8 uuid).
Proof.
  revert i. induction fuel as [|fuel IH]; intros i; simpl.
  - eexists. split; [reflexivity|]. by right.
  - unfold mbind, M_bind, bind, attempt. rewrite count_slug_run. simpl.
    destruct (cnt _ (roles d)) eqn:E; [|apply IH].
    eexists. split; [reflexivity|]. by left.
Qed.

Lemma slug_loop_wp fuel i base uuid d :
  wp (slug_loop fuel i count_slug base uuid) (λ d' r, d' = d) d.
Proof.
  revert i. induction fuel as [|fuel IH]; intros i; simpl; [by apply wp_ret|].
  apply wp_bind, wp_attempt, wp_query; [by apply wp_ret|].
  destruct (cnt _ (roles d)); [by apply wp_ret|apply IH].
Qed.

(** ** Permissions *)

Lemma permissionSet_elem p : permissionSet p = true ↔ p ∈ AllPermissions.
Proof. apply existsb_eqb. Qed.

(** [p] is one of the inputs, trimmed, and not empty. *)
Definition from_input (l : list string) (p : string) : Prop := ∃ q, q ∈ l ∧ TrimSpace q = p ∧ p ≠ "".

Lemma from_input_nil p : ¬ from_input [] p.
Proof. by intros (q & ?%elem_of_nil & _). Qed.

Lemma from_input_cons q l p : from_input (q :: l) p ↔ (TrimSpace q = p ∧ p ≠ "") ∨ from_input l p.
Proof.
  unfold from_input. setoid_rewrite elem_of_cons. split.
  - intros (x & [->|Hx] & ?); [by left|right; eauto].
  - intros [?|(x & ? & ?)]; eauto.
Qed.

Lemma collect_perms_ok l : ∀ set out,
  NoDup set → (∀ p, p ∈ set → permissionSet p = true) → collect_perms set l = inr out →
  NoDup out ∧ (∀ p, p ∈ out → permissionSet p = true) ∧ (∀ p, p ∈ out ↔ p ∈ set ∨ from_input l p).
Proof.
  induction l as [|q l IH]; intros set out Hn Hs E; simpl in E.
  - simplify_eq. split; [done|]. split; [done|]. intros p. pose proof (from_input_nil p). tauto.
  - setoid_rewrite from_input_cons. destruct (TrimSpace q =s "") eqn:E1.
    + destruct (IH _ _ Hn Hs E) as (? & ? & Hp). split; [done|]. split; [done|].
      intros p. rewrite Hp. bool_simp. rewrite E1. assert (¬ ("" = p ∧ p ≠ "")) by (by intros [<- ?]). tauto.
    + destruct (permissionSet (TrimSpace q)) eqn:E2; simpl in E; [|done]. bool_simp.
      destruct (List.existsb _ set) eqn:E3.
      * destruct (IH _ _ Hn Hs E) as (? & ? & Hp). split; [done|]. split; [done|].
        intros p. rewrite Hp. apply existsb_eqb in E3.
        assert (TrimSpace q = p → p ∈ set) by (by intros <-). tauto.
      * apply existsb_eqb_false in E3.
        destruct (IH (TrimSpace q :: set) out) as (? & ? & Hp); [by apply list.NoDup_cons| |done|].
        { intros p Hp. apply elem_of_cons in Hp as [->|?]; [done|by apply Hs]. }
        split; [done|]. split; [done|]. intros p. rewrite Hp, elem_of_cons.
        assert (p = TrimSpace q → TrimSpace q = p ∧ p ≠ "") by (by intros ->).
        assert (TrimSpace q = p → p = TrimSpace q) by done. tauto.
Qed.

(** The stored list: sorted, without duplicates, of known slugs. *)
Definition perms_ok (l : list string) : Prop :=
  NoDup l ∧ Sorted (λ a b, String.leb a b = true) l ∧ ∀ p, p ∈ l → permissionSet p = true.

Lemma sort_strings_elem p l : p ∈ sort_strings l ↔ p ∈ l.
Proof. apply sort_by_elem. Qed.

Lemma normalisePermissions_ok l out : normalisePermissions l = inr out →
  perms_ok out ∧ ∀ p, p ∈ out ↔ from_input l p.
Proof.
  unfold normalisePermissions. destruct (collect_perms [] l) as [e|set] eqn:E; [done|]. intros [= <-].
  destruct (collect_perms_ok l [] set) as (Hn & Hs & Hp); [constructor|by intros p ?%elem_of_nil|done|].
  split; [split; [|split]|].
  - unfold sort_strings. by rewrite sort_by_perm.
  - apply sort_by_sorted, string_leb_total.
  - intros p. rewrite sort_strings_elem. apply Hs.
  - intros p. rewrite sort_strings_elem, Hp. split; [intros [?%elem_of_nil|?]; done|by right].
Qed.

Lemma normaliseScope_ok s :
  normaliseScope s = RoleScopeGlobal ∨ normaliseScope s = RoleScopeTeam ∨ normaliseScope s = RoleScopeBoth.
Proof.
  unfold normaliseScope. destruct (TrimSpace s =s RoleScopeGlobal) eqn:E1; [bool_simp; by left|].
  destruct (TrimSpace s =s RoleScopeTeam) eqn:E2; [bool_simp; right; by left|].
  destruct (TrimSpace s =s RoleScopeBoth) eqn:E3; [bool_simp; right; by right|]. right; by right.
Qed.

(** ** The tables *)

Definition role_exists (d : Db) (rid : string) : Prop := ∃ r, r ∈ roles d ∧ ro_id r = rid.

(** A row decodes, grants known permissions only, sorted and without
    duplicates for a custom role, and has one of the three scopes. *)
Definition row_ok (r : RoleRow) : Prop :=
  (∃ l, ro_permissions r = JStrings l ∧ (∀ p, p ∈ l → permissionSet p = true) ∧
        (ro_is_system r = false → perms_ok l)) ∧
  (ro_scope r = RoleScopeGlobal ∨ ro_scope r = RoleScopeTeam ∨ ro_scope r = RoleScopeBoth).

Record rbac_wf (d : Db) : Prop := {
  rw_ids : NoDup (ro_id <$> roles d);
  rw_slugs : NoDup (ro_slug <$> roles d);
  rw_rows : ∀ r, r ∈ roles d → row_ok r;
  rw_users : ∀ u rid, u ∈ users d → u_role_id u = Some rid → role_exists d rid;
  rw_members : ∀ m rid, m ∈ team_members d → mb_role_id m = Some rid → role_exists d rid;
}.

Lemma role_exists_upd q f d rid :
  (∀ r, ro_id (f r) = ro_id r) → role_exists d rid → role_exists (on_roles (upd q f) d) rid.
Proof.
  intros Hf (r & Hr & <-). exists (if q r then f r else r). split.
  - apply elem_of_upd. eauto.
  - by destruct (q r).
Qed.

Lemma roles_upd_wf q f d :
  (∀ r, ro_id (f r) = ro_id r) → (∀ r, ro_slug (f r) = ro_slug r) → (∀ r, row_ok r → row_ok (f r)) →
  rbac_wf d → rbac_wf (on_roles (upd q f) d).
Proof.
  intros Hid Hslug Hrow [H1 H2 H3 H4 H5]. split; simpl.
  - change (NoDup (List.map ro_id (upd q f (roles d)))). by rewrite map_upd.
  - change (NoDup (List.map ro_slug (upd q f (roles d)))). by rewrite map_upd.
  - intros r Hr. apply elem_of_upd in Hr as (r0 & Hr0 & ->). destruct (q r0); auto.
  - intros u rid Hu Hr. apply role_exists_upd; eauto.
  - intros m rid Hu Hr. apply role_exists_upd; eauto.
Qed.

Lemma roles_append_wf r d :
  (∀ r', r' ∈ roles d → is_role (ro_id r) r' = false ∧ is_slug (ro_slug r) r' = false) → row_ok r →
  rbac_wf d → rbac_wf (on_roles (λ l, l ++ [r]) d).
Proof.
  intros Hnew Hrow [H1 H2 H3 H4 H5].
  assert (Hex : ∀ rid, role_exists d rid → role_exists (on_roles (λ l, l ++ [r]) d) rid).
  { intros rid (x & Hx & ?). exists x. split; [|done]. simpl. apply elem_of_app. by left. }
  split; simpl; [| | |by eauto..].
  - rewrite fmap_app. apply NoDup_snoc; [done|]. intros (x & Hx & Hin)%list_elem_of_fmap.
    destruct (Hnew x Hin) as [E _]. unfold is_role in E. bool_simp. congruence.
  - rewrite fmap_app. apply NoDup_snoc; [done|]. intros (x & Hx & Hin)%list_elem_of_fmap.
    destruct (Hnew x Hin) as [_ E]. unfold is_slug in E. bool_simp. congruence.
  - intros x [Hx| ->%list_elem_of_singleton]%elem_of_app; auto.
Qed.

(** *** Every method of the service keeps the tables well formed *)

Lemma default_perms_known : List.forallb (λ d, List.forallb permissionSet (dr_Permissions d)) defaultRoles = true.
Proof. vm_compute. reflexivity. Qed.

Lemma default_perms d p : d ∈ defaultRoles → p ∈ dr_Permissions d → permissionSet p = true.
Proof.
  intros Hd Hp. pose proof (proj1 (List.forallb_forall _ _) default_perms_known d) as H.
  apply list_elem_of_In in Hd, Hp. specialize (H Hd). rewrite List.forallb_forall in H. auto.
Qed.

Lemma seed_row_ok id slug d :
  d ∈ defaultRoles →
  row_ok (mkRole id slug (dr_Name d) (dr_Description d) (normaliseScope (dr_Scope d)) (dr_IsAdmin d) true
            (JStrings (dr_Permissions d))).
Proof.
  intros Hd. split; [|apply normaliseScope_ok]. simpl. eexists. split; [done|]. split; [|done].
  intros p. by apply default_perms.
Qed.

Lemma seed_role_preserves id d : d ∈ defaultRoles → preserves rbac_wf (seed_role id d).
Proof.
  intros Hd db Hwf. unfold seed_role. apply wp_checked; [done|].
  destruct (List.existsb (is_slug _) (roles db)) eqn:E1.
  - apply roles_upd_wf; [done|done| |done]. intros r _. by apply seed_row_ok.
  - destruct (List.existsb (is_role id) (roles db)) eqn:E2; [done|].
    apply roles_append_wf; [|by apply seed_row_ok|done].
    intros r Hr. split; by eapply existsb_false_elem.
Qed.

Lemma seed_roles_preserves uuids ds : ∀ i,
  (∀ d, d ∈ ds → d ∈ defaultRoles) → preserves rbac_wf (seed_roles uuids i ds).
Proof.
  induction ds as [|d ds IH]; intros i Hds db Hwf; simpl; [by apply wp_ret|].
  apply wp_bind. eapply wp_mono; [apply seed_role_preserves; [apply Hds; by left|done]|].
  intros db' [e|[]] Hwf'; [done|]. apply IH; [|done]. intros x Hx. apply Hds. by right.
Qed.

Lemma ensure_defaults_preserves uuids : preserves rbac_wf (EnsureDefaults uuids).
Proof.
  intros db Hwf. unfold EnsureDefaults. apply wp_bind.
  eapply wp_mono; [by apply seed_roles_preserves|]. intros d [e|[]] Hd; [done|].
  apply wp_exec; [done|]. destruct Hd as [H1 H2 H3 H4 H5]. split; try done. simpl.
  intros u rid Hu Hr. apply elem_of_upd in Hu as (u0 & Hu0 & ->).
  destruct (negb _ && _); [|by eapply H4]. simpl in Hr.
  destruct (sel (is_slug "admin") (roles d)) as [r|] eqn:Es; [|done]. simpl in Hr. simplify_eq.
  apply sel_Some in Es as [Hin _]. by exists r.
Qed.

Lemma uniqueSlug_wp base uuid d : wp (uniqueSlug count_slug base uuid) (λ d' _, d' = d) d.
Proof. apply slug_loop_wp. Qed.

Lemma get_role_preserves id (I : Db → Prop) : preserves I (GetRole id).
Proof. intros d H. eapply wp_mono; [apply get_role_wp|]. by intros d' r [-> _]. Qed.

Lemma create_role_preserves `{Unicode} uuid id inp : preserves rbac_wf (CreateRole uuid id inp).
Proof.
  intros d Hwf. unfold CreateRole. apply wp_if; intros; [by apply wp_throw|].
  destruct (normalisePermissions _) as [e|perms] eqn:E; [by apply wp_throw|].
  apply normalisePermissions_ok in E as [Hok _].
  apply wp_bind. eapply wp_mono; [apply uniqueSlug_wp|]. intros d' [e|slug] ->; [done|].
  apply wp_bind, wp_checked; [done|].
  destruct (List.existsb _ (roles d)) eqn:E; [done|]. apply get_role_preserves.
  apply roles_append_wf; [| |done].
  - intros r Hr. apply orb_false_iff. by apply (existsb_false_elem _ _ _ E).
  - split; [|apply normaliseScope_ok]. exists perms. split; [done|]. destruct Hok as (? & ? & ?). done.
Qed.

(** What the SET clauses of an update do to a row. *)
Definition custom_set (f : RoleRow → RoleRow) : Prop := ∀ r,
  ro_id (f r) = ro_id r ∧ ro_slug (f r) = ro_slug r ∧ ro_is_system (f r) = ro_is_system r ∧
  ro_is_admin (f r) = ro_is_admin r ∧ (row_ok r → row_ok (f r)).

Lemma apply_sets_custom fs : Forall custom_set fs → custom_set (apply_sets fs).
Proof.
  unfold apply_sets. induction 1 as [|f fs Hf _ IH]; intros r; [by simpl|]. simpl.
  destruct (Hf r) as (? & ? & ? & ? & ?). destruct (IH (f r)) as (? & ? & ? & ? & ?).
  split; [congruence|]. split; [congruence|]. split; [congruence|]. split; [congruence|auto].
Qed.

Lemma set_name_custom n : custom_set (set_name n).
Proof. intros r. by do 4 (split; [done|]). Qed.
Lemma set_description_custom n : custom_set (set_description n).
Proof. intros r. by do 4 (split; [done|]). Qed.
Lemma set_scope_custom n : custom_set (set_scope (normaliseScope n)).
Proof. intros r. do 4 (split; [done|]). intros [Hp _]. split; [exact Hp|apply normaliseScope_ok]. Qed.
Lemma set_permissions_custom l : perms_ok l → custom_set (set_permissions l).
Proof.
  intros Hok r. do 4 (split; [done|]). intros [_ Hsc]. split; [|exact Hsc]. simpl.
  exists l. split; [done|]. split; [apply Hok|done].
Qed.

#[export] Hint Resolve set_name_custom set_description_custom set_scope_custom : prexel.

Lemma role_sets_custom inp fs : role_sets inp = inr fs → Forall custom_set fs.
Proof.
  unfold role_sets, mbind, sum_bind, mret, sum_ret. intros E.
  assert (H4 : ∀ sets4, (if ur_PermissionsSet inp then
      match normalisePermissions (ur_Permissions inp) with
      | inl e => inl e | inr perms => inr [set_permissions perms] end
    else inr []) = inr sets4 → Forall custom_set sets4).
  { intros sets4 E4. destruct (ur_PermissionsSet inp); [|simplify_eq; constructor].
    destruct (normalisePermissions _) as [|perms] eqn:Ep; simplify_eq.
    constructor; [|constructor]. by eapply set_permissions_custom, normalisePermissions_ok. }
  destruct (match ur_Name inp with None => _ | Some n => _ end) as [|sets1] eqn:E1; [done|].
  destruct (if ur_PermissionsSet inp then _ else _) as [|sets4] eqn:E4; [done|].
  injection E as <-. apply Forall_app. split.
  { destruct (ur_Name inp) as [n|]; [destruct (negb _); simplify_eq|by simplify_eq].
    constructor; [auto with prexel|constructor]. }
  apply Forall_app. split.
  { destruct (ur_Description inp); constructor; auto with prexel. }
  apply Forall_app. split; [|by apply H4].
  destruct (ur_Scope inp); constructor; auto with prexel.
Qed.

Lemma role_unique d id r r' :
  rbac_wf d → sel (is_role id) (roles d) = Some r → r' ∈ roles d → ro_id r' = id → r' = r.
Proof.
  intros Hwf Hs Hin Hid. enough (sel (is_role id) (roles d) = Some r') by congruence.
  apply (sel_key ro_id); [|apply Hwf|done]. intros x. unfold is_role. by rewrite String.eqb_eq, Hid.
Qed.

(** [d'] follows [d]: the tables stay well formed, and no built-in role is
    changed or removed. *)
Record keeps_system (d d' : Db) : Prop := {
  ks_wf : rbac_wf d';
  ks_rows : ∀ r, r ∈ roles d → ro_is_system r = true → r ∈ roles d';
}.

Lemma keeps_refl d : rbac_wf d → keeps_system d d.
Proof. by split. Qed.

Lemma update_role_keeps id inp d :
  rbac_wf d → wp (UpdateRole id inp) (λ d' _, keeps_system d d') d.
Proof.
  intros Hwf. pose proof (keeps_refl d Hwf) as Hr. unfold UpdateRole.
  apply wp_bind. eapply wp_mono; [apply get_role_wp|]. intros d0 [e|role] [-> Hrole]; [done|].
  destruct Hrole as (row & Hsel & Hscan). apply scanRole_Some in Hscan as (_ & _ & Hsys & _).
  apply wp_if; intros Hs; [by apply wp_throw|].
  destruct (role_sets inp) as [e|sets] eqn:E; [by apply wp_throw|].
  apply role_sets_custom, apply_sets_custom in E.
  apply wp_if; intros; [by apply wp_ret|]. apply wp_bind, wp_exec; [done|].
  eapply wp_mono; [apply get_role_wp|]. intros d1 res [-> _]. split.
  - apply roles_upd_wf; [apply E..|done].
  - intros r Hin Hrs. simpl. apply elem_of_upd. exists r. split; [done|].
    destruct (is_role id r) eqn:Ei; [|done]. unfold is_role in Ei. bool_simp.
    rewrite (role_unique d id row r) in Hrs by done. congruence.
Qed.

Lemma delete_role_keeps id d :
  rbac_wf d → wp (DeleteRole id) (λ d' _, keeps_system d d') d.
Proof.
  intros Hwf. pose proof (keeps_refl d Hwf) as Hr. unfold DeleteRole.
  apply wp_bind. eapply wp_mono; [apply get_role_wp|]. intros d0 [e|role] [-> Hrole]; [done|].
  destruct Hrole as (row & Hsel & Hscan). apply scanRole_Some in Hscan as (_ & _ & Hsys & _).
  apply wp_if; intros Hs; [by apply wp_throw|].
  apply wp_bind, wp_query; [done|]. apply wp_if; intros Hu; [by apply wp_throw|].
  apply wp_bind, wp_query; [done|]. apply wp_if; intros Hm; [by apply wp_throw|].
  apply wp_bind, wp_checked; [done|].
  destruct (List.existsb (is_role id) (roles d) && _) eqn:Efk; [done|].
  assert (G : keeps_system d (on_roles (del (is_role id)) d)).
  { destruct Hwf as [H1 H2 H3 H4 H5]. 
    assert (Hgone : ∀ rid, rid ≠ id → role_exists d rid → role_exists (on_roles (del (is_role id)) d) rid).
    { intros rid Hne (r & Hr' & <-). exists r. split; [|done]. apply elem_of_del. split; [done|].
      by apply String.eqb_neq. }
    split; [split|].
    - by apply NoDup_fmap_filter.
    - by apply NoDup_fmap_filter.
    - intros r Hin. apply elem_of_del in Hin as [Hin _]. auto.
    - intros u rid Hin Hrid. simpl in *. apply Hgone; [|by eapply H4]. intros ->.
      apply Nat.ltb_ge, Nat.le_0_r in Hu. rewrite cnt_0 in Hu. specialize (Hu u Hin).
      unfold user_has_role in Hu. by rewrite Hrid, String.eqb_refl in Hu.
    - intros m rid Hin Hrid. simpl in *. apply Hgone; [|by eapply H5]. intros ->.
      apply Nat.ltb_ge, Nat.le_0_r in Hm. rewrite cnt_0 in Hm. specialize (Hm m Hin).
      unfold member_has_role in Hm. by rewrite Hrid, String.eqb_refl in Hm.
    - intros r Hin Hrs. apply elem_of_del. split; [done|]. destruct (is_role id r) eqn:Ei; [|done].
      unfold is_role in Ei. bool_simp.
      rewrite (role_unique d id row r) in Hrs by done. congruence. }
  apply wp_if; intros; [by apply wp_throw|by apply wp_ret].
Qed.

Lemma create_role_keeps `{Unicode} uuid id inp d :
  rbac_wf d → wp (CreateRole uuid id inp) (λ d' _, keeps_system d d') d.
Proof.
  intros Hwf. intros fs. split; [by apply create_role_preserves|].
  revert fs. change (wp (CreateRole uuid id inp) (λ d' _, ∀ r, r ∈ roles d → ro_is_system r = true → r ∈ roles d') d).
  unfold CreateRole. apply wp_if; intros; [by apply wp_throw|].
  destruct (normalisePermissions _) as [e|perms]; [by apply wp_throw|].
  apply wp_bind. eapply wp_mono; [apply uniqueSlug_wp|]. intros d' [e|slug] ->; [done|].
  apply wp_bind, wp_checked; [done|]. destruct (List.existsb _ (roles d)); [done|].
  eapply wp_mono; [apply get_role_wp|]. intros d1 res [-> _] r Hin _. simpl. apply elem_of_app. by left.
Qed.

(** ** Properties *)

(** C2: authorization follows the policy.  Whatever storage faults occur, a
    check either reports an error or answers exactly what the policy grants (an
    active account that is an administrator or holds the permission, globally
    or by its role in the team), and it never changes the database. *)
Theorem decisions_follow_policy userID teamID team p d :
  wp (HasPermission userID p) (λ d' r, d' = d ∧ ∀ b, r = inr b → b = may d userID p) d ∧
  wp (HasTeamPermission userID teamID p) (λ d' r, d' = d ∧ ∀ b, r = inr b → b = may_in_team d userID teamID p) d ∧
  wp (CanAccessTeam userID team p) (λ d' r, d' = d ∧ ∀ b, r = inr b → b = may_access d userID team p) d.
Proof.
  split; [apply has_permission_wp|]. split; [apply has_team_permission_wp|apply can_access_team_wp].
Qed.

(** the guards fail closed.  [Require] and [RequireTeam] let a request
    pass only when the policy grants it; in particular never for an account
    that is missing, inactive or blocked, and never because of a storage
    fault. *)
Theorem guards_fail_closed userID teamID p d :
  wp (Require userID p) (λ d' r, d' = d ∧ (r = inr tt → may d userID p = true)) d ∧
  wp (RequireTeam userID teamID p) (λ d' r, d' = d ∧ (r = inr tt → may_in_team d userID teamID p = true)) d ∧
  (∀ u, sel (λ u, u_id u =s userID) (users d) = Some u → u_status u ≠ "active" →
        may d userID p = false ∧ may_in_team d userID teamID p = false).
Proof.
  split; [|split].
  - unfold Require. apply wp_bind. eapply wp_mono; [apply has_permission_wp|].
    intros d' [e|b] [-> Hb]; [done|]. apply wp_if; intros E; [by apply wp_throw|].
    apply wp_ret. split; [done|]. intros _. rewrite <- (Hb b eq_refl). by apply negb_false_iff in E.
  - unfold RequireTeam. apply wp_bind. eapply wp_mono; [apply has_team_permission_wp|].
    intros d' [e|b] [-> Hb]; [done|]. apply wp_if; intros E; [by apply wp_throw|].
    apply wp_ret. split; [done|]. intros _. rewrite <- (Hb b eq_refl). by apply negb_false_iff in E.
  - intros u Hu Hs. unfold may, may_in_team, active_user. rewrite Hu.
    apply String.eqb_neq in Hs. by rewrite Hs.
Qed.

(** built-in roles are protected.  Creating, updating and deleting roles,
    with any input and any storage faults, never changes or removes a system
    role, and keeps the tables well formed: unique ids and slugs, only known
    permissions, valid scopes, and every role a user or a team member refers to
    still exists. *)
Theorem system_roles_protected `{Unicode} uuid id cin uin d :
  rbac_wf d →
  wp (CreateRole uuid id cin) (λ d' _, keeps_system d d') d ∧
  wp (UpdateRole id uin) (λ d' _, keeps_system d d') d ∧
  wp (DeleteRole id) (λ d' _, keeps_system d d') d.
Proof.
  intros Hwf. split; [by apply create_role_keeps|]. split; [by apply update_role_keeps|by apply delete_role_keeps].
Qed.

(** What an administrator stores in a role is the set of requested
    permissions: every element is a known slug, sorted and without duplicates,
    and exactly the trimmed non-empty inputs; an unknown slug is an error. *)
Theorem permissions_normalised l :
  match normalisePermissions l with
  | inr out => perms_ok out ∧ ∀ p, p ∈ out ↔ from_input l p
  | inl e => e = ErrInvalidInput ∧ ∃ p, from_input l p ∧ p ∉ AllPermissions
  end.
Proof.
  destruct (normalisePermissions l) as [e|out] eqn:E; [|by apply normalisePermissions_ok].
  unfold normalisePermissions in E.
  assert (G : ∀ l set e, collect_perms set l = inl e → e = ErrInvalidInput ∧ ∃ p, from_input l p ∧ p ∉ AllPermissions).
  { clear. induction l as [|q l IH]; intros set e E; simpl in E; [done|].
    destruct (TrimSpace q =s "") eqn:E1; [|destruct (permissionSet (TrimSpace q)) eqn:E2; simpl in E].
    - destruct (IH _ _ E) as (? & p & Hp & ?). split; [done|]. exists p. split; [|done].
      apply from_input_cons. by right.
    - destruct (IH _ _ E) as (? & p & Hp & ?). split; [done|]. exists p. split; [|done].
      apply from_input_cons. by right.
    - simplify_eq. split; [done|]. exists (TrimSpace q). bool_simp. split.
      + apply from_input_cons. by left.
      + rewrite <- permissionSet_elem, E2. done. }
  destruct (collect_perms [] l) as [e'|] eqn:Ec; simplify_eq. by eapply G.
Qed.

(** every generated slug matches the slug pattern: for any role or team
    name, in any alphabet, the result is non-empty, made of lower-case letters,
    digits and dashes, with no dash at either end. *)
Theorem slugify_matches `{Unicode} s : slugRegex (slugify s) = true.
Proof. apply slugify_match. Qed.

(** *** Seeding *)

(** The built-in role [dr] is in the table with the catalogue's values. *)
Definition seeded (d : Db) (dr : defaultRole) : Prop :=
  ∃ r, r ∈ roles d ∧ ro_slug r = dr_Slug dr ∧ ro_name r = dr_Name dr ∧ ro_scope r = dr_Scope dr ∧
       ro_is_admin r = dr_IsAdmin dr ∧ ro_is_system r = true ∧ ro_permissions r = JStrings (dr_Permissions dr).

Lemma default_scopes : List.forallb (λ d, normaliseScope (dr_Scope d) =s dr_Scope d) defaultRoles = true.
Proof. vm_compute. reflexivity. Qed.

Lemma default_scope d : d ∈ defaultRoles → normaliseScope (dr_Scope d) = dr_Scope d.
Proof.
  intros Hd. pose proof (proj1 (List.forallb_forall _ _) default_scopes d) as H.
  apply String.eqb_eq, H. by apply list_elem_of_In.
Qed.

Lemma seed_run id dr d :
  dr ∈ defaultRoles → List.existsb (is_role id) (roles d) = false → ∃ d',
    seed_role id dr d [] = (d', [], inr tt) ∧ seeded d' dr ∧ users d' = users d ∧
    (∀ dr', dr_Slug dr' ≠ dr_Slug dr → seeded d dr' → seeded d' dr') ∧
    (∀ x, x ≠ id → List.existsb (is_role x) (roles d) = false → List.existsb (is_role x) (roles d') = false).
Proof.
  intros Hdr Hid. unfold seed_role, checked. cbn [tail].
  destruct (List.existsb (is_slug (dr_Slug dr)) (roles d)) eqn:E; [|rewrite Hid]; eexists; (split; [reflexivity|]).
  - apply List.existsb_exists in E as (r & Hin & Hs). pose proof Hs as Hs'. apply String.eqb_eq in Hs'.
    split; [|split; [done|split]].
    + exists (mkRole (ro_id r) (ro_slug r) (dr_Name dr) (dr_Description dr) (normaliseScope (dr_Scope dr))
                (dr_IsAdmin dr) true (JStrings (dr_Permissions dr))).
      split; [simpl; apply elem_of_upd; exists r; rewrite Hs; split; [by apply list_elem_of_In|done]|].
      simpl. rewrite default_scope by done. done.
    + intros dr' Hne (r' & Hr' & Hsl & Hrest). exists r'. split; [|by split].
      simpl. apply elem_of_upd. exists r'. split; [done|]. unfold is_slug.
      by rewrite (proj2 (String.eqb_neq _ _)) by congruence.
    + intros x _ Hx. simpl. rewrite <- Hx. unfold upd. clear. induction (roles d) as [|r l IH]; [done|].
      simpl. rewrite IH. by destruct (is_slug _ r).
  - split; [|split; [done|split]].
    + eexists. split; [simpl; apply elem_of_app; right; by apply list_elem_of_singleton|]. simpl.
      by rewrite default_scope.
    + intros dr' _ (r' & Hr' & Hrest). exists r'. split; [|done]. simpl. apply elem_of_app. by left.
    + intros x Hne Hx. simpl. rewrite List.existsb_app, Hx. simpl. unfold is_role. simpl.
      rewrite orb_false_r. by apply String.eqb_neq.
Qed.

Lemma seed_roles_run uuids ds : ∀ i d,
  NoDup (dr_Slug <$> ds) → (∀ x, x ∈ ds → x ∈ defaultRoles) →
  (∀ j k, uuids j = uuids k → j = k) → (∀ j, i ≤ j → List.existsb (is_role (uuids j)) (roles d) = false) →
  ∃ d', seed_roles uuids i ds d [] = (d', [], inr tt) ∧ users d' = users d ∧
    (∀ x, x ∈ ds → seeded d' x) ∧ (∀ x, dr_Slug x ∉ dr_Slug <$> ds → seeded d x → seeded d' x).
Proof.
  induction ds as [|dr ds IH]; intros i d Hnd Hds Hinj Hfresh.
  - exists d. split; [done|]. split; [done|]. split; [by intros x ?%elem_of_nil|done].
  - rewrite fmap_cons, list.NoDup_cons in Hnd. destruct Hnd as [Hni Hnd].
    destruct (seed_run (uuids i) dr d) as (d1 & E1 & S1 & U1 & K1 & F1); [apply Hds; by left|by apply Hfresh|].
    destruct (IH (S i) d1) as (d2 & E2 & U2 & S2 & K2); [done|intros; apply Hds; by right|done| |].
    { intros j Hj. apply F1; [intros ?%Hinj; lia|]. apply Hfresh. lia. }
    exists d2. split; [|split; [congruence|split]].
    + simpl. unfold mbind, M_bind, bind. by rewrite E1.
    + intros x [->|Hx]%elem_of_cons; [by apply K2|by apply S2].
    + intros x Hx Hs. rewrite fmap_cons, elem_of_cons in Hx. apply K2; [tauto|]. apply K1; [tauto|done].
Qed.

(** start-up seeding.  With fresh UUIDs and no storage fault,
    [EnsureDefaults] succeeds; afterwards every built-in role is present with
    the catalogue's name, scope, administrator flag and permissions, and every
    user of the legacy 'admin' kind has a role. *)
Theorem ensure_defaults_effect uuids d :
  (∀ j k, uuids j = uuids k → j = k) → (∀ j, List.existsb (is_role (uuids j)) (roles d) = false) →
  ∃ d', run (EnsureDefaults uuids) d = (d', inr tt) ∧
    (∀ dr, dr ∈ defaultRoles → seeded d' dr) ∧
    (∀ u, u ∈ users d' → u_role u = "admin" → u_role_id u ≠ None).
Proof.
  intros Hinj Hfresh. destruct (seed_roles_run uuids defaultRoles 0 d) as (d1 & E1 & _ & S1 & _).
  { apply (bool_decide_unpack _). vm_compute. exact I. }
  { done. } { done. } { intros j _. apply Hfresh. }
  eexists. split; [|split].
  - unfold run, EnsureDefaults, mbind, M_bind, bind. rewrite E1. reflexivity.
  - intros dr Hdr. destruct (S1 dr Hdr) as (r & Hr & Hrest). by exists r.
  - intros u Hu Hadm. simpl in Hu. apply elem_of_upd in Hu as (u0 & _ & ->).
    destruct (S1 (mkDefaultRole "admin" "Admin" "Acesso total à instância." RoleScopeGlobal true []))
      as (r & Hr & Hs & _); [by left|].
    destruct (sel_is_Some (is_slug "admin") (roles d1) r) as [r' Hr']; [done|by apply String.eqb_eq|].
    destruct (u_role_id u0) as [x|] eqn:E; simpl in *; [congruence|].
    destruct (u_role u0 =s "admin") eqn:Ea; simpl in *; [by rewrite Hr'|]. bool_simp. congruence.
Qed.

(** creating a role.  For a valid name and known permissions, a fresh id
    and unless all thousand candidate slugs are taken, the new custom role is
    stored under a slug no other role has, with the normalised scope and
    permissions, and is returned; nothing else changes. *)
Theorem create_role_effect `{Unicode} uuid id inp perms d :
  valid_name (TrimSpace (cr_Name inp)) = true → normalisePermissions (cr_Permissions inp) = inr perms →
  sel (is_role id) (roles d) = None →
  sel (is_slug (slugify (TrimSpace (cr_Name inp)) ^^ "-" ^^ take_s 8 uuid)) (roles d) = None →
  ∃ slug,
    cnt (is_slug slug) (roles d) = 0 ∧
    let row := mkRole id slug (TrimSpace (cr_Name inp)) (TrimSpace (cr_Description inp))
                 (normaliseScope (cr_Scope inp)) (cr_IsAdmin inp) false (JStrings perms) in
    run (CreateRole uuid id inp) d =
      (on_roles (λ l, l ++ [row]) d,
       match scanRole row with Some r => inr r | None => inl (ErrDb "role") end).
Proof.
  intros Hname Hperms Hid Hfb. unfold run, CreateRole. rewrite Hname, Hperms. cbn [negb].
  destruct (slug_loop_run 1000 0 (slugify (TrimSpace (cr_Name inp))) uuid d) as (slug & Es & Hslug).
  exists slug. assert (H0 : cnt (is_slug slug) (roles d) = 0).
  { destruct Hslug as [?|Hs]; [done|]. apply cnt_0. intros r Hr. rewrite Hs. by eapply sel_None. }
  split; [done|]. unfold uniqueSlug. rewrite slugify_match.
  unfold mbind, M_bind, bind at 1. rewrite Es. unfold bind, checked. cbn [tail].
  assert (Hfree : List.existsb (λ r, is_role id r || is_slug slug r) (roles d) = false).
  { apply not_true_iff_false. intros (r & Hr & E)%List.existsb_exists. apply list_elem_of_In in Hr.
    rewrite (sel_None _ _ _ Hid Hr) in E. rewrite cnt_0 in H0. by rewrite (H0 r Hr) in E. }
  rewrite Hfree.
  unfold GetRole, mbind, M_bind, bind, query, fallible. cbn [tail fst snd roles on_roles].
  rewrite sel_app, Hid. simpl. unfold is_role at 1. simpl. by rewrite String.eqb_refl.
Qed.

(** ** Evaluations *)

Lemma empty_rbac_wf : rbac_wf empty_db.
Proof.
  split; [apply NoDup_nil_2|apply NoDup_nil_2|by intros ? ?%elem_of_nil| |];
    by intros ? ? ?%elem_of_nil.
Qed.

Lemma system_roles_protected_witness :
  keeps_system empty_db (CreateRole (H := ascii_only) "u" "r1" (mkCreateRoleInput "Ops Team" "" "team" ["apps.view"] false) empty_db []).1.1.
Proof.
  exact (proj1 (system_roles_protected (H := ascii_only) "u" "r1" (mkCreateRoleInput "Ops Team" "" "team" ["apps.view"] false)
    (mkUpdateRoleInput None None None [] false) empty_db empty_rbac_wf) []).
Defined.

Definition toy_uuid (i : nat) : string := String.string_of_list_ascii (List.repeat "a"%char i).

Lemma toy_uuid_inj j k : toy_uuid j = toy_uuid k → j = k.
Proof.
  unfold toy_uuid. intros E. apply (f_equal String.list_ascii_of_string) in E.
  rewrite !String.list_ascii_of_string_of_list_ascii in E.
  apply (f_equal (@List.length _)) in E. by rewrite !List.repeat_length in E.
Qed.

Lemma ensure_defaults_effect_witness :
  ∃ d', run (EnsureDefaults toy_uuid) empty_db = (d', inr tt) ∧
    (∀ dr, dr ∈ defaultRoles → seeded d' dr).
Proof.
  destruct (ensure_defaults_effect toy_uuid empty_db toy_uuid_inj (λ j, eq_refl)) as (d' & E & S & _).
  exists d'. exact (conj E S).
Defined.

Lemma create_role_effect_witness :
  ∃ slug, cnt (is_slug slug) (roles empty_db) = 0 ∧
    run (CreateRole (H := ascii_only) "uuid" "r1" (mkCreateRoleInput "Ops Team" "" "team" ["apps.view"; "apps.logs"] false)) empty_db =
      (on_roles (λ l, l ++ [mkRole "r1" slug "Ops Team" "" "team" false false (JStrings ["apps.logs"; "apps.view"])]) empty_db,
       inr (mkRoleV "r1" slug "Ops Team" "" "team" false false ["apps.logs"; "apps.view"])).
Proof.
  exact (create_role_effect (H := ascii_only) "uuid" "r1"
           (mkCreateRoleInput "Ops Team" "" "team" ["apps.view"; "apps.logs"] false)
           ["apps.logs"; "apps.view"] empty_db eq_refl eq_refl eq_refl eq_refl).
Defined.
