(* ===== verification/RbacTeams.v ===== *)
(** * Members and teams (internal/rbac: members.go, teams.go, avatars.go)

    The users of the instance, the teams, and the memberships that carry the
    team role of a user.  UUIDs, bcrypt salts and clock readings are arguments
    of the methods that draw them. *)

From S2P Require Import Prelude Effects GoStrings Schema CryptoLib Refresh TwoFactor Rbac.

(** ** Views *)

Record Team := mkTeamV {
  t_ID : string; t_Name : string; t_Slug : string; t_Description : string; t_Color : string;
  t_AvatarPath : string; t_AvatarURL : string; t_MemberCount : nat; t_AppCount : nat;
}.

Record Member := mkMemberV {
  m_ID : string; m_Email : string; m_Name : string; m_AvatarURL : string; m_Status : string;
  m_Role : option Role; m_TeamRole : option Role; m_Teams : list Team; m_CreatedAt : Z;
}.

Record TeamMemberInput := mkTMI { tmi_TeamID : string; tmi_UserID : string; tmi_RoleID : string }.

Definition is_team (id : string) (t : TeamRow) : bool := tm_id t =s id.
Definition in_team (id : string) (m : TeamMemberRow) : bool := mb_team_id m =s id.
Definition of_user (id : string) (m : TeamMemberRow) : bool := mb_user_id m =s id.
Definition app_of_team (id : string) (a : App) : bool :=
  match a_team_id a with Some t => t =s id | None => false end.

(** A row of the teams queries, with its two counting subqueries. *)
Definition scanTeam (d : Db) (t : TeamRow) : Team :=
  mkTeamV (tm_id t) (tm_name t) (tm_slug t) (str (tm_description t)) (tm_color t)
    (str (tm_avatar_path t)) (avatarURL (str (tm_avatar_path t)))
    (cnt (in_team (tm_id t)) (team_members d)) (cnt (app_of_team (tm_id t)) (apps d)).

Definition name_before (a b : TeamRow) : bool := String.leb (tm_name a) (tm_name b).

(** A user row LEFT JOIN its role; a permissions column that does not decode
    is read as an empty list, as in the code. *)
Definition scanMemberRow (d : Db) (u : User) : Member :=
  let role :=
    match u_role_id u with
    | None => None
    | Some rid =>
      match sel (is_role rid) (roles d) with
      | None => None
      | Some r => Some (mkRoleV (ro_id r) (ro_slug r) (ro_name r) (ro_description r)
                          (normaliseScope (ro_scope r)) (ro_is_admin r) (ro_is_system r)
                          (match ro_permissions r with JStrings l => l | JRaw _ => [] end))
      end
    end in
  mkMemberV (u_id u) (u_email u) (str (u_name u)) (avatarURL (str (u_avatar_path u))) (u_status u)
    role None [] (u_created_at u).

Definition with_teams (ts : list Team) (m : Member) : Member :=
  mkMemberV (m_ID m) (m_Email m) (m_Name m) (m_AvatarURL m) (m_Status m) (m_Role m) (m_TeamRole m) ts (m_CreatedAt m).
Definition with_team_role (r : option Role) (m : Member) : Member :=
  mkMemberV (m_ID m) (m_Email m) (m_Name m) (m_AvatarURL m) (m_Status m) (m_Role m) r (m_Teams m) (m_CreatedAt m).

(** ** Reads *)

Definition IsTeamMember (teamID userID : string) : M Db RbacErr bool :=
  n ← query (ErrDb "count") (λ d, cnt (λ m, in_team teamID m && of_user userID m) (team_members d));
  mret (0 <? n)%nat.

Definition ListTeams : M Db RbacErr (list Team) :=
  query (ErrDb "list teams") (λ d, List.map (scanTeam d) (order_by name_before (teams d))).

Definition GetTeam (id : string) : M Db RbacErr Team :=
  row ← query (ErrDb "team") (λ d, scanTeam d <$> sel (is_team id) (teams d));
  match row with None => throw ErrNotFound | Some t => mret t end.

(** [teams JOIN team_members ... ORDER BY name]. *)
Definition teamsForMember (userID : string) : M Db RbacErr (list Team) :=
  query (ErrDb "teams of member") (λ d,
    List.map (scanTeam d) (order_by name_before
      (omap (λ m, if of_user userID m then sel (is_team (mb_team_id m)) (teams d) else None) (team_members d)))).

(** The loop that fills [out[i].Teams]. *)
Fixpoint fill_teams (l : list Member) : M Db RbacErr (list Member) :=
  match l with
  | [] => mret []
  | m :: l =>
    ts ← teamsForMember (m_ID m);
    rest ← fill_teams l;
    mret (with_teams ts m :: rest)
  end.

Definition ListMembers : M Db RbacErr (list Member) :=
  out ← query (ErrDb "list members") (λ d,
    List.map (scanMemberRow d) (order_by (λ a b, (u_created_at a <=? u_created_at b)%Z) (users d)));
  fill_teams out.

Definition GetMember (id : string) : M Db RbacErr Member :=
  row ← query (ErrDb "member") (λ d, scanMemberRow d <$> sel (is_user id) (users d));
  match row with
  | None => throw ErrNotFound
  | Some m => ts ← teamsForMember (m_ID m); mret (with_teams ts m)
  end.

(** The loop of [MembersForTeam]: team role and teams of each member. *)
Fixpoint fill_team_members (teamID : string) (l : list Member) : M Db RbacErr (list Member) :=
  match l with
  | [] => mret []
  | m :: l =>
    role ← attempt (teamRoleForMember teamID (m_ID m));
    role ← (match role with
            | inl ErrNotFound => mret None
            | inl e => throw e
            | inr r => mret (Some r)
            end);
    ts ← teamsForMember (m_ID m);
    rest ← fill_team_members teamID l;
    mret (with_teams ts (with_team_role role m) :: rest)
  end.

Definition MembersForTeam (teamID : string) : M Db RbacErr (list Member) :=
  out ← query (ErrDb "members of team") (λ d,
    List.map (scanMemberRow d) (order_by (λ a b, String.leb (u_email a) (u_email b))
      (omap (λ m, if in_team teamID m then sel (is_user (mb_user_id m)) (users d) else None) (team_members d))));
  fill_team_members teamID out.

(** ** Validation *)

(** [validateMembers] and [validateTeams]: every trimmed id exists. *)
Definition validateMembers (ids : list string) : M Db RbacErr unit :=
  each (λ id, n ← query (ErrDb "count") (λ d, cnt (is_user id) (users d));
              if (n =? 0)%nat then throw ErrNotFound else mret tt) (uniqueStrings ids).

Definition validateTeams (ids : list string) : M Db RbacErr unit :=
  each (λ id, n ← query (ErrDb "count") (λ d, cnt (is_team id) (teams d));
              if (n =? 0)%nat then throw ErrNotFound else mret tt) (uniqueStrings ids).

Definition nul : string := String (ascii_of_nat 0) "".

(** [normaliseTeamMembers]; [seen] holds the keys kept so far. *)
Fixpoint normalise_from (seen : list string) (l : list TeamMemberInput) : list TeamMemberInput :=
  match l with
  | [] => []
  | m :: l =>
    let m := mkTMI (TrimSpace (tmi_TeamID m)) (TrimSpace (tmi_UserID m)) (TrimSpace (tmi_RoleID m)) in
    let key := tmi_TeamID m ^^ nul ^^ tmi_UserID m in
    if (tmi_RoleID m =s "") || (key =s nul) then normalise_from seen l
    else if List.existsb (String.eqb key) seen then normalise_from seen l
    else m :: normalise_from (key :: seen) l
  end.

Definition normaliseTeamMembers (l : list TeamMemberInput) : list TeamMemberInput := normalise_from [] l.

(** The role of an input must exist and be usable in a team. *)
Definition check_team_role (roleID : string) : M Db RbacErr unit :=
  role ← GetRole roleID;
  if negb (roleAllowsScope (Some role) RoleScopeTeam) then throw ErrInvalidInput else mret tt.

Definition validateTeamMemberInputs (members : list TeamMemberInput) : M Db RbacErr unit :=
  each (λ m,
    _ ← when (negb (TrimSpace (tmi_TeamID m) =s "")) (validateTeams [tmi_TeamID m]);
    if TrimSpace (tmi_UserID m) =s "" then throw ErrNotFound
    else
      _ ← validateMembers [tmi_UserID m];
      check_team_role (tmi_RoleID m)) (normaliseTeamMembers members).

Definition validateMemberTeamInputs (inputs : list TeamMemberInput) : M Db RbacErr unit :=
  each (λ m,
    if TrimSpace (tmi_TeamID m) =s "" then throw ErrNotFound
    else
      _ ← validateTeams [tmi_TeamID m];
      check_team_role (tmi_RoleID m)) (normaliseTeamMembers inputs).

(** ** Memberships *)

(** [INSERT INTO team_members]: primary key (team, user) and three foreign keys. *)
Definition insert_member (m : TeamMemberRow) : M Db RbacErr unit :=
  checked (ErrDb "insert membership") (λ d,
    if List.existsb (λ x, in_team (mb_team_id m) x && of_user (mb_user_id m) x) (team_members d)
       || negb (List.existsb (is_team (mb_team_id m)) (teams d))
       || negb (List.existsb (is_user (mb_user_id m)) (users d))
       || negb (match mb_role_id m with Some r => List.existsb (is_role r) (roles d) | None => true end)
    then inl (ErrDb "insert membership")
    else inr (on_team_members (λ l, l ++ [m]) d, tt)).

Definition replaceTeamMembers (teamID : string) (members : list TeamMemberInput) : M Db RbacErr unit :=
  tx (ErrDb "begin") (ErrDb "commit") (
    _ ← exec (ErrDb "delete memberships") (on_team_members (del (in_team teamID)));
    each (λ m, insert_member (mkTeamMember teamID (tmi_UserID m) (Some (tmi_RoleID m))))
      (normaliseTeamMembers members)).

Definition replaceMemberTeams (userID : string) (inputs : list TeamMemberInput) : M Db RbacErr unit :=
  tx (ErrDb "begin") (ErrDb "commit") (
    _ ← exec (ErrDb "delete memberships") (on_team_members (del (of_user userID)));
    each (λ m, insert_member (mkTeamMember (tmi_TeamID m) userID (Some (tmi_RoleID m))))
      (normaliseTeamMembers inputs)).

(** The first of the roles 'developer' and 'viewer' that answers. *)
Fixpoint default_role_from (slugs : list string) : M Db RbacErr string :=
  match slugs with
  | [] => mret ""
  | slug :: slugs =>
    r ← attempt (query (ErrDb "role by slug") (λ d, sel (is_slug slug) (roles d)));
    match r with
    | inr (Some row) => if negb (ro_id row =s "") then mret (ro_id row) else default_role_from slugs
    | _ => default_role_from slugs
    end
  end.

Definition defaultTeamRoleID : M Db RbacErr string := default_role_from ["developer"; "viewer"].

Definition defaultTeamMemberInputs (memberIDs : list string) : M Db RbacErr (list TeamMemberInput) :=
  roleID ← defaultTeamRoleID;
  mret (List.map (λ id, mkTMI "" id roleID) (uniqueStrings memberIDs)).

Definition defaultMemberTeamInputs (teamIDs : list string) : M Db RbacErr (list TeamMemberInput) :=
  roleID ← defaultTeamRoleID;
  mret (List.map (λ id, mkTMI id "" roleID) (uniqueStrings teamIDs)).

Definition withDefaultTeamRole (inputs : list TeamMemberInput) : M Db RbacErr (list TeamMemberInput) :=
  roleID ← defaultTeamRoleID;
  mret (List.map (λ m, if TrimSpace (tmi_RoleID m) =s "" then mkTMI (tmi_TeamID m) (tmi_UserID m) roleID else m)
          inputs).

(** ** Teams *)

Definition hex_digit (c : ascii) : bool :=
  in_range 48 57 (byte c) || in_range 97 102 (byte c) || in_range 65 70 (byte c).

(** [colorRegex]. *)
Definition colorRegex (s : string) : bool :=
  match s with
  | String c s => Ascii.eqb c "#"%char && (len s =? 6)%Z && List.forallb hex_digit (String.list_ascii_of_string s)
  | "" => false
  end.

Record CreateTeamInput := mkCreateTeamInput {
  ct_Name : string; ct_Slug : string; ct_Description : string; ct_Color : string;
  ct_MemberIDs : list string; ct_Members : list TeamMemberInput;
}.

Definition CreateTeam `{Unicode} (id : string) (inp : CreateTeamInput) : M Db RbacErr Team :=
  let name := TrimSpace (ct_Name inp) in
  if negb (valid_name name) then throw ErrInvalidInput
  else
    let slug := if TrimSpace (ct_Slug inp) =s "" then slugify name else TrimSpace (ct_Slug inp) in
    if negb (slugRegex slug) then throw ErrInvalidInput
    else
      let color := if TrimSpace (ct_Color inp) =s "" then "#10b981" else TrimSpace (ct_Color inp) in
      if negb (colorRegex color) then throw ErrInvalidInput
      else
        inputs ← (if is_nil (ct_Members inp) && negb (is_nil (ct_MemberIDs inp))
                  then defaultTeamMemberInputs (ct_MemberIDs inp) else mret (ct_Members inp));
        inputs ← withDefaultTeamRole inputs;
        _ ← validateTeamMemberInputs inputs;
        _ ← checked (ErrDb "insert team") (λ d,
          if List.existsb (λ t, is_team id t || (tm_name t =s name) || (tm_slug t =s slug)) (teams d)
          then inl (ErrDb "insert team")
          else inr (on_teams (λ l, l ++ [mkTeam id name slug (Some (TrimSpace (ct_Description inp))) color None]) d, tt));
        _ ← replaceTeamMembers id inputs;
        GetTeam id.

Record UpdateTeamInput := mkUpdateTeamInput {
  ut_Name : option string; ut_Slug : option string; ut_Description : option string; ut_Color : option string;
}.

Definition team_with (t : TeamRow) name slug desc color : TeamRow :=
  mkTeam (tm_id t) name slug desc color (tm_avatar_path t).
Definition set_team_name (n : string) (t : TeamRow) := team_with t n (tm_slug t) (tm_description t) (tm_color t).
Definition set_team_slug (s : string) (t : TeamRow) := team_with t (tm_name t) s (tm_description t) (tm_color t).
Definition set_team_description (s : string) (t : TeamRow) := team_with t (tm_name t) (tm_slug t) (Some s) (tm_color t).
Definition set_team_color (c : string) (t : TeamRow) := team_with t (tm_name t) (tm_slug t) (tm_description t) c.

(** The SET clauses [UpdateTeam] collects. *)
Definition team_sets (inp : UpdateTeamInput) : RbacErr + list (TeamRow → TeamRow) :=
  sets1 ← match ut_Name inp with
          | None => mret []
          | Some n => if negb (valid_name (TrimSpace n)) then inl ErrInvalidInput else mret [set_team_name (TrimSpace n)]
          end;
  sets2 ← match ut_Slug inp with
          | None => mret []
          | Some s => if negb (slugRegex (TrimSpace s)) then inl ErrInvalidInput else mret [set_team_slug (TrimSpace s)]
          end;
  let sets3 := match ut_Description inp with None => [] | Some t => [set_team_description (TrimSpace t)] end in
  sets4 ← match ut_Color inp with
          | None => mret []
          | Some c => if negb (colorRegex (TrimSpace c)) then inl ErrInvalidInput else mret [set_team_color (TrimSpace c)]
          end;
  mret (sets1 ++ sets2 ++ sets3 ++ sets4).

(** [UPDATE teams]: name and slug are UNIQUE. *)
Definition update_team (id : string) (f : TeamRow → TeamRow) : M Db RbacErr unit :=
  checked (ErrDb "update team") (λ d,
    let l := upd (is_team id) f (teams d) in
    if decide (NoDup (tm_name <$> l) ∧ NoDup (tm_slug <$> l))
    then inr (on_teams (λ _, l) d, tt) else inl (ErrDb "update team")).

Definition UpdateTeam (id : string) (inp : UpdateTeamInput) : M Db RbacErr Team :=
  _ ← GetTeam id;
  match team_sets inp with
  | inl e => throw e
  | inr sets =>
    if is_nil sets then GetTeam id
    else
      _ ← update_team id (apply_sets sets);
      GetTeam id
  end.

(** [DELETE FROM teams]: memberships cascade, apps are detached. *)
Definition delete_team (id : string) (d : Db) : Db :=
  on_apps (upd (app_of_team id) (set_app_team None)) (on_team_members (del (in_team id)) (on_teams (del (is_team id)) d)).

Definition DeleteTeam (id : string) : M Db RbacErr unit :=
  appCount ← query (ErrDb "count apps") (λ d, cnt (app_of_team id) (apps d));
  if (0 <? appCount)%nat then throw ErrTeamHasApps
  else
    n ← fallible (ErrDb "delete team") (λ d, (delete_team id d, cnt (is_team id) (teams d)));
    if (n =? 0)%nat then throw ErrNotFound else mret tt.

Definition SetTeamMembers (teamID : string) (members : list TeamMemberInput) : M Db RbacErr Team :=
  _ ← GetTeam teamID;
  members ← withDefaultTeamRole members;
  _ ← validateTeamMemberInputs members;
  _ ← replaceTeamMembers teamID members;
  GetTeam teamID.

(** ** Members *)

Definition statusAllowed (s : string) : bool := (s =s "active") || (s =s "inactive") || (s =s "blocked").

Record CreateMemberInput := mkCreateMemberInput {
  cm_Email : string; cm_Name : string; cm_Password : string; cm_RoleID : string;
  cm_TeamIDs : list string; cm_Teams : list TeamMemberInput;
}.

(** [INSERT INTO users]: primary key, UNIQUE(email), foreign key to [roles]. *)
Definition insert_user (u : User) : M Db RbacErr unit :=
  checked (ErrDb "insert user") (λ d,
    if List.existsb (λ x, is_user (u_id u) x || (u_email x =s u_email u)) (users d)
       || negb (match u_role_id u with Some r => List.existsb (is_role r) (roles d) | None => true end)
    then inl (ErrDb "insert user")
    else inr (on_users (λ l, l ++ [u]) d, tt)).

(** A role that may be held globally. *)
Definition global_role (roleID : string) : M Db RbacErr Role :=
  role ← GetRole roleID;
  if negb (roleAllowsScope (Some role) RoleScopeGlobal) then throw ErrInvalidInput else mret role.

Definition team_inputs (teams : list TeamMemberInput) (ids : list string) : M Db RbacErr (list TeamMemberInput) :=
  if is_nil teams && negb (is_nil ids) then defaultMemberTeamInputs ids else mret teams.

Definition CreateMember `{Unicode} `{CryptoLib} (id salt : string) (now : Z) (inp : CreateMemberInput) : M Db RbacErr Member :=
  let email := ToLower (TrimSpace (cm_Email inp)) in
  if negb (Contains email "@") then throw ErrInvalidInput
  else if negb (ValidateStrong (cm_Password inp)) then throw ErrInvalidInput
  else
    globalRole ← (if TrimSpace (cm_RoleID inp) =s "" then mret None
                  else role ← global_role (cm_RoleID inp); mret (Some (r_ID role)));
    teamInputs ← team_inputs (cm_Teams inp) (cm_TeamIDs inp);
    _ ← validateMemberTeamInputs teamInputs;
    match HashPassword salt (cm_Password inp) with
    | inl _ => throw ErrBcryptFailed
    | inr hash =>
      _ ← insert_user (mkUser id email hash "member" (Some (TrimSpace (cm_Name inp))) None "active" globalRole
                         false None None None None now);
      _ ← replaceMemberTeams id teamInputs;
      GetMember id
    end.

Record UpdateMemberInput := mkUpdateMemberInput {
  um_Name : option string; um_RoleID : option string; um_Status : option string;
  um_TeamIDs : list string; um_Teams : list TeamMemberInput; um_TeamsSet : bool;
}.

Definition set_name_col (n : string) (u : User) : User :=
  mkUser (u_id u) (u_email u) (u_password_hash u) (u_role u) (Some n) (u_avatar_path u)
    (u_status u) (u_role_id u) (u_2fa_enabled u) (u_2fa_secret u) (u_2fa_pending u)
    (u_2fa_confirmed_at u) (u_2fa_recovery u) (u_created_at u).
Definition set_status_col (s : string) (u : User) : User :=
  mkUser (u_id u) (u_email u) (u_password_hash u) (u_role u) (u_name u) (u_avatar_path u)
    s (u_role_id u) (u_2fa_enabled u) (u_2fa_secret u) (u_2fa_pending u)
    (u_2fa_confirmed_at u) (u_2fa_recovery u) (u_created_at u).

(** The SET clauses [UpdateMember] collects; the role is looked up on the way. *)
Definition member_sets (inp : UpdateMemberInput) : M Db RbacErr (list (User → User)) :=
  let sets1 := match um_Name inp with None => [] | Some n => [set_name_col (TrimSpace n)] end in
  sets2 ← match um_RoleID inp with
          | None => mret []
          | Some r =>
            let roleID := TrimSpace r in
            if roleID =s "" then mret [set_role_id None]
            else _ ← global_role roleID; mret [set_role_id (Some roleID)]
          end;
  sets3 ← match um_Status inp with
          | None => mret []
          | Some s => if negb (statusAllowed (TrimSpace s)) then throw ErrInvalidInput
                      else mret [set_status_col (TrimSpace s)]
          end;
  mret (sets1 ++ sets2 ++ sets3).

(** [UPDATE users]: the foreign key to [roles]. *)
Definition update_user (id : string) (f : User → User) : M Db RbacErr unit :=
  checked (ErrDb "update user") (λ d,
    if List.forallb (λ u, negb (is_user id u) ||
         match u_role_id (f u) with Some r => List.existsb (is_role r) (roles d) | None => true end) (users d)
    then inr (on_users (upd (is_user id) f) d, tt) else inl (ErrDb "update user")).

Definition UpdateMember (id : string) (inp : UpdateMemberInput) : M Db RbacErr Member :=
  _ ← GetMember id;
  sets ← member_sets inp;
  _ ← when (negb (is_nil sets)) (update_user id (apply_sets sets));
  _ ← when (um_TeamsSet inp) (
        teamInputs ← team_inputs (um_Teams inp) (um_TeamIDs inp);
        _ ← validateMemberTeamInputs teamInputs;
        replaceMemberTeams id teamInputs);
  GetMember id.

(** [DELETE FROM users]: memberships, sessions, API tokens and used codes
    cascade. *)
Definition delete_user (id : string) (d : Db) : Db :=
  on_totp_used (del (λ r, tu_user_id r =s id))
    (on_refresh_tokens (del (λ t, rt_user_id t =s id))
      (on_api_tokens (del (λ t, at_user_id t =s id))
        (on_team_members (del (of_user id)) (on_users (del (is_user id)) d)))).

Definition DeleteMember (id currentUserID : string) : M Db RbacErr unit :=
  if id =s currentUserID then throw ErrSelfDelete
  else
    n ← fallible (ErrDb "delete user") (λ d, (delete_user id d, cnt (is_user id) (users d)));
    if (n =? 0)%nat then throw ErrNotFound else mret tt.

(** avatars.go *)
Definition set_avatar (p : string) (u : User) : User :=
  mkUser (u_id u) (u_email u) (u_password_hash u) (u_role u) (u_name u) (Some p)
    (u_status u) (u_role_id u) (u_2fa_enabled u) (u_2fa_secret u) (u_2fa_pending u)
    (u_2fa_confirmed_at u) (u_2fa_recovery u) (u_created_at u).

Definition SetUserAvatar (userID path : string) : M Db RbacErr unit :=
  n ← fallible (ErrDb "set avatar") (λ d, (on_users (upd (is_user userID) (set_avatar path)) d, cnt (is_user userID) (users d)));
  if (n =? 0)%nat then throw ErrNotFound else mret tt.

Definition AvatarPath (userID : string) : M Db RbacErr string :=
  row ← query (ErrDb "avatar") (λ d, sel (is_user userID) (users d));
  match row with None => throw ErrNotFound | Some u => mret (str (u_avatar_path u)) end.

(** ** The tables *)

Definition member_key (m : TeamMemberRow) : string * string := (mb_team_id m, mb_user_id m).

Definition team_ok (t : TeamRow) : Prop :=
  valid_name (tm_name t) = true ∧ slugRegex (tm_slug t) = true ∧ colorRegex (tm_color t) = true.

(** The organisation: users, teams, memberships and roles fit together. *)
Record org_wf (d : Db) : Prop := {
  ow_roles : rbac_wf d;
  ow_user_ids : NoDup (u_id <$> users d);
  ow_emails : NoDup (u_email <$> users d);
  ow_status : ∀ u, u ∈ users d → statusAllowed (u_status u) = true;
  ow_team_ids : NoDup (tm_id <$> teams d);
  ow_team_names : NoDup (tm_name <$> teams d);
  ow_team_slugs : NoDup (tm_slug <$> teams d);
  ow_teams : ∀ t, t ∈ teams d → team_ok t;
  ow_keys : NoDup (member_key <$> team_members d);
  ow_members : ∀ m, m ∈ team_members d →
    (∃ t, t ∈ teams d ∧ tm_id t = mb_team_id m) ∧ (∃ u, u ∈ users d ∧ u_id u = mb_user_id m);
}.

(** *** Deletions *)

Lemma elem_del_ne {A} (key : A → string) id l x : x ∈ l → key x ≠ id → x ∈ del (λ r, key r =s id) l.
Proof. intros. apply elem_of_del. split; [done|]. by apply String.eqb_neq. Qed.

Lemma members_del_wf q d : org_wf d → org_wf (on_team_members (del q) d).
Proof.
  intros [[R1 R2 R3 R4 R5] H2 H3 H4 H5 H6 H7 H8 H9 H10]. split; try done.
  - split; try done. intros m rid Hm. apply elem_of_del in Hm as [Hm _]. by apply (R5 m rid).
  - by apply NoDup_fmap_filter.
  - intros m Hm. apply elem_of_del in Hm as [Hm _]. by apply H10.
Qed.

Lemma delete_team_wf id d : org_wf d → org_wf (delete_team id d).
Proof.
  intros Hwf. apply (members_del_wf (in_team id)) in Hwf as
    [[R1 R2 R3 R4 R5] H2 H3 H4 H5 H6 H7 H8 H9 H10]. split; try done; simpl.
  - by apply NoDup_fmap_filter.
  - by apply NoDup_fmap_filter.
  - by apply NoDup_fmap_filter.
  - intros t Ht. apply elem_of_del in Ht as [Ht _]. by apply H8.
  - intros m Hm. destruct (H10 m Hm) as [(t & Ht & Hid) Hu]. split; [|exact Hu].
    exists t. split; [|done]. apply (elem_del_ne tm_id); [done|].
    apply elem_of_del in Hm as [_ Hm]. unfold in_team in Hm. bool_simp. congruence.
Qed.

Lemma delete_user_wf id d : org_wf d → org_wf (delete_user id d).
Proof.
  intros Hwf. apply (members_del_wf (of_user id)) in Hwf as
    [[R1 R2 R3 R4 R5] H2 H3 H4 H5 H6 H7 H8 H9 H10]. split; try done; simpl.
  - split; try done. simpl. intros u rid Hu. apply elem_of_del in Hu as [Hu _]. by apply (R4 u rid).
  - by apply NoDup_fmap_filter.
  - by apply NoDup_fmap_filter.
  - intros u Hu. apply elem_of_del in Hu as [Hu _]. by apply H4.
  - intros m Hm. destruct (H10 m Hm) as [Ht (u & Hu & Hid)]. split; [exact Ht|].
    exists u. split; [|done]. apply (elem_del_ne u_id); [done|].
    apply elem_of_del in Hm as [_ Hm]. unfold of_user in Hm. bool_simp. congruence.
Qed.

(** *** Insertions *)

Lemma insert_member_preserves m : preserves org_wf (insert_member m).
Proof.
  intros d Hwf. apply wp_checked; [done|]. destruct (_ || _) eqn:E; [done|].
  apply orb_false_iff in E as [[[E1 E2]%orb_false_iff E3]%orb_false_iff E4].
  apply negb_false_iff in E2, E3, E4.
  apply existsb_witness in E2 as (t & Ht & Et), E3 as (u & Hu & Eu).
  destruct Hwf as [[R1 R2 R3 R4 R5] H2 H3 H4 H5 H6 H7 H8 H9 H10]. split; try done.
  - split; try done. simpl. intros x rid [Hx| ->%list_elem_of_singleton]%elem_of_app Hr; [by eapply R5|].
    rewrite Hr in E4. apply existsb_witness in E4 as (r & Hin & Er). exists r.
    unfold is_role in Er. by bool_simp.
  - simpl. rewrite fmap_app. apply NoDup_snoc; [done|]. intros (x & Hk & Hx)%list_elem_of_fmap.
    pose proof (existsb_false_elem _ _ _ E1 Hx) as Hf. unfold member_key in Hk. injection Hk as Hk1 Hk2.
    unfold in_team, of_user in Hf. by rewrite Hk1, Hk2, !String.eqb_refl in Hf.
  - simpl. intros x [Hx| ->%list_elem_of_singleton]%elem_of_app; [by apply H10|].
    unfold is_team in Et. unfold is_user in Eu. bool_simp. split; eauto.
Qed.

Lemma replaceTeamMembers_preserves teamID l : preserves org_wf (replaceTeamMembers teamID l).
Proof.
  intros d Hwf. apply wp_tx; [done|]. apply wp_bind, wp_exec; [done|].
  eapply wp_mono; [apply each_preserves; [intros; apply insert_member_preserves|by apply members_del_wf]|].
  by intros d' [e|[]] H.
Qed.

Lemma replaceMemberTeams_preserves userID l : preserves org_wf (replaceMemberTeams userID l).
Proof.
  intros d Hwf. apply wp_tx; [done|]. apply wp_bind, wp_exec; [done|].
  eapply wp_mono; [apply each_preserves; [intros; apply insert_member_preserves|by apply members_del_wf]|].
  by intros d' [e|[]] H.
Qed.

(** *** Reads and validations change nothing *)

Definition read_only {A} (m : M Db RbacErr A) : Prop := ∀ d, wp m (λ d' _, d' = d) d.

Lemma read_only_preserves {A} (m : M Db RbacErr A) I : read_only m → preserves I m.
Proof. intros H d Hd. eapply wp_mono; [apply H|]. by intros d' r ->. Qed.

Lemma read_only_bind {A B} (m : M Db RbacErr A) (k : A → M Db RbacErr B) :
  read_only m → (∀ a, read_only (k a)) → read_only (mbind k m).
Proof.
  intros Hm Hk d. apply wp_bind. eapply wp_mono; [apply Hm|]. intros d' [e|a] ->; [done|apply Hk].
Qed.

Lemma read_only_ret {A} (a : A) : read_only (mret a).
Proof. intros d. by apply wp_ret. Qed.
Lemma read_only_throw {A} e : read_only (A := A) (throw e).
Proof. intros d. by apply wp_throw. Qed.
Lemma read_only_query {A} e (f : Db → A) : read_only (query e f).
Proof. intros d. by apply wp_query. Qed.
Lemma read_only_attempt {A} (m : M Db RbacErr A) : read_only m → read_only (attempt m).
Proof. intros H d. apply wp_attempt. eapply wp_mono; [apply H|]. by intros d' r ->. Qed.
Lemma read_only_each {A} (f : A → M Db RbacErr unit) l : (∀ x, read_only (f x)) → read_only (each f l).
Proof.
  intros Hf d. apply (each_preserves (λ d', d' = d)); [|done].
  intros x d' ->. apply Hf.
Qed.
Lemma read_only_if {A} (b : bool) (m n : M Db RbacErr A) : read_only m → read_only n → read_only (if b then m else n).
Proof. by destruct b. Qed.

#[export] Hint Resolve read_only_ret read_only_throw read_only_query read_only_attempt read_only_each
  read_only_if read_only_bind : prexel.

(** Case analysis on the matches of a read-only method. *)
Ltac ro :=
  repeat first
    [ progress intros
    | solve [auto with prexel]
    | apply read_only_bind | apply read_only_if | apply read_only_attempt | apply read_only_each
    | apply read_only_ret
    | match goal with |- read_only (match ?x with _ => _ end) => destruct x end
    | match goal with |- read_only (when _ _) => unfold when end ].

Lemma GetRole_ro id : read_only (GetRole id).
Proof. unfold GetRole. ro. Qed.
Lemma GetTeam_ro id : read_only (GetTeam id).
Proof. unfold GetTeam. ro. Qed.
Lemma teamsForMember_ro id : read_only (teamsForMember id).
Proof. unfold teamsForMember. ro. Qed.
#[export] Hint Resolve teamsForMember_ro : prexel.
Lemma GetMember_ro id : read_only (GetMember id).
Proof. unfold GetMember. ro. Qed.
Lemma validateTeams_ro l : read_only (validateTeams l).
Proof. unfold validateTeams. ro. Qed.
Lemma validateMembers_ro l : read_only (validateMembers l).
Proof. unfold validateMembers. ro. Qed.
#[export] Hint Resolve GetRole_ro GetTeam_ro GetMember_ro validateTeams_ro validateMembers_ro : prexel.
Lemma check_team_role_ro r : read_only (check_team_role r).
Proof. unfold check_team_role. ro. Qed.
Lemma global_role_ro r : read_only (global_role r).
Proof. unfold global_role. ro. Qed.
#[export] Hint Resolve check_team_role_ro global_role_ro : prexel.
Lemma validateTeamMemberInputs_ro l : read_only (validateTeamMemberInputs l).
Proof. unfold validateTeamMemberInputs. ro. Qed.
Lemma validateMemberTeamInputs_ro l : read_only (validateMemberTeamInputs l).
Proof. unfold validateMemberTeamInputs. ro. Qed.
Lemma default_role_from_ro l : read_only (default_role_from l).
Proof. induction l; simpl; ro. Qed.
#[export] Hint Resolve validateTeamMemberInputs_ro validateMemberTeamInputs_ro default_role_from_ro : prexel.
Lemma withDefaultTeamRole_ro l : read_only (withDefaultTeamRole l).
Proof. unfold withDefaultTeamRole, defaultTeamRoleID. ro. Qed.
Lemma defaultTeamMemberInputs_ro l : read_only (defaultTeamMemberInputs l).
Proof. unfold defaultTeamMemberInputs, defaultTeamRoleID. ro. Qed.
Lemma team_inputs_ro a b : read_only (team_inputs a b).
Proof. unfold team_inputs, defaultMemberTeamInputs, defaultTeamRoleID. ro. Qed.
Lemma member_sets_ro i : read_only (member_sets i).
Proof. unfold member_sets. ro. Qed.
#[export] Hint Resolve withDefaultTeamRole_ro defaultTeamMemberInputs_ro team_inputs_ro member_sets_ro : prexel.

(** *** Every method keeps the organisation well formed *)

#[export] Hint Resolve replaceTeamMembers_preserves replaceMemberTeams_preserves : prexel.

(** A method is checked part by part: reads, then the writes with lemmas. *)
Ltac pres :=
  repeat first
    [ progress intros
    | solve [auto with prexel]
    | solve [apply read_only_preserves; ro]
    | apply preserves_bind | apply preserves_when
    | match goal with |- preserves _ (if ?x then _ else _) => destruct x eqn:? end
    | match goal with |- preserves _ (match ?x with _ => _ end) => destruct x eqn:? end ].

Lemma insert_team_preserves id name slug desc color :
  valid_name name = true → slugRegex slug = true → colorRegex color = true →
  preserves org_wf (checked (ErrDb "insert team") (λ d,
    if List.existsb (λ t, is_team id t || (tm_name t =s name) || (tm_slug t =s slug)) (teams d)
    then inl (ErrDb "insert team")
    else inr (on_teams (λ l, l ++ [mkTeam id name slug desc color None]) d, tt))).
Proof.
  intros Hn Hs Hc d Hwf. apply wp_checked; [done|]. destruct (List.existsb _ (teams d)) eqn:E; [done|].
  assert (F : ∀ t, t ∈ teams d → tm_id t ≠ id ∧ tm_name t ≠ name ∧ tm_slug t ≠ slug).
  { intros t Ht. pose proof (existsb_false_elem _ _ _ E Ht) as Hf. unfold is_team in Hf. by bool_simp. }
  destruct Hwf as [[R1 R2 R3 R4 R5] H2 H3 H4 H5 H6 H7 H8 H9 H10]. split; try done; simpl.
  - rewrite fmap_app. apply NoDup_snoc; [done|]. intros (t & Ht & Hin)%list_elem_of_fmap.
    destruct (F t Hin) as (? & ? & ?). simpl in Ht. congruence.
  - rewrite fmap_app. apply NoDup_snoc; [done|]. intros (t & Ht & Hin)%list_elem_of_fmap.
    destruct (F t Hin) as (? & ? & ?). simpl in Ht. congruence.
  - rewrite fmap_app. apply NoDup_snoc; [done|]. intros (t & Ht & Hin)%list_elem_of_fmap.
    destruct (F t Hin) as (? & ? & ?). simpl in Ht. congruence.
  - intros t [Ht| ->%list_elem_of_singleton]%elem_of_app; [by apply H8|done].
  - intros m Hm. destruct (H10 m Hm) as [(t & Ht & ?) Hu]. split; [|done]. exists t.
    split; [apply elem_of_app; by left|done].
Qed.

Lemma create_team_preserves `{Unicode} id inp : preserves org_wf (CreateTeam id inp).
Proof.
  unfold CreateTeam. destruct (negb (valid_name _)) eqn:En; [pres|]. apply negb_false_iff in En.
  set (slug := if TrimSpace (ct_Slug inp) =s "" then _ else _).
  destruct (negb (slugRegex slug)) eqn:Es; [pres|]. apply negb_false_iff in Es.
  set (color := if TrimSpace (ct_Color inp) =s "" then _ else _).
  destruct (negb (colorRegex color)) eqn:Ec; [pres|]. apply negb_false_iff in Ec.
  pose proof (insert_team_preserves id _ _ (Some (TrimSpace (ct_Description inp))) _ En Es Ec).
  pres.
Qed.

(** The SET clauses of a team update keep its identity and write valid values. *)
Definition team_set (f : TeamRow → TeamRow) : Prop := ∀ t,
  tm_id (f t) = tm_id t ∧ (team_ok t → team_ok (f t)).

Lemma apply_sets_team fs : Forall team_set fs → team_set (apply_sets fs).
Proof.
  unfold apply_sets. induction 1 as [|f fs Hf _ IH]; intros t; [done|]. simpl.
  destruct (Hf t) as [E1 K1]. destruct (IH (f t)) as [E2 K2]. split; [congruence|auto].
Qed.

Lemma team_sets_ok inp fs : team_sets inp = inr fs → Forall team_set fs.
Proof.
  unfold team_sets, mbind, sum_bind, mret, sum_ret. intros E.
  assert (Hf : ∀ (f : TeamRow → TeamRow), team_set f → Forall team_set [f]) by (intros; by constructor).
  assert (N : ∀ n, valid_name n = true → team_set (set_team_name n)).
  { intros n Hn t. split; [done|]. intros (_ & ? & ?). done. }
  assert (L : ∀ n, slugRegex n = true → team_set (set_team_slug n)).
  { intros n Hn t. split; [done|]. intros (? & _ & ?). done. }
  assert (C : ∀ n, colorRegex n = true → team_set (set_team_color n)).
  { intros n Hn t. split; [done|]. intros (? & ? & _). done. }
  assert (D : ∀ n, team_set (set_team_description n)) by done.
  destruct (ut_Name inp) as [n|]; [destruct (negb (valid_name (TrimSpace n))) eqn:En; [done|]|];
  (destruct (ut_Slug inp) as [g|]; [destruct (negb (slugRegex (TrimSpace g))) eqn:Eg; [done|]|]);
  (destruct (ut_Color inp) as [c|]; [destruct (negb (colorRegex (TrimSpace c))) eqn:Ec; [done|]|]);
  injection E as <-; bool_simp; destruct (ut_Description inp);
  repeat (apply Forall_app; split); auto; try (by apply Forall_nil_2);
  repeat (constructor; auto).
Qed.

Lemma update_team_preserves id f : team_set f → preserves org_wf (update_team id f).
Proof.
  intros Hf d Hwf. apply wp_checked; [done|]. cbv zeta. case_decide as Hd; [|done]. destruct Hd as [Hn Hs].
  destruct Hwf as [[R1 R2 R3 R4 R5] H2 H3 H4 H5 H6 H7 H8 H9 H10]. split; try done; simpl.
  - change (NoDup (List.map tm_id (upd (is_team id) f (teams d)))). rewrite map_upd; [done|apply Hf].
  - intros t (t0 & Ht0 & ->)%elem_of_upd. destruct (is_team id t0); [apply Hf|]; by apply H8.
  - intros m Hm. destruct (H10 m Hm) as [(t & Ht & Hid) Hu]. split; [|done].
    exists (if is_team id t then f t else t). split; [apply elem_of_upd; eauto|].
    destruct (is_team id t); [rewrite (proj1 (Hf t))|]; done.
Qed.

Lemma update_team_op_preserves id inp : preserves org_wf (UpdateTeam id inp).
Proof.
  unfold UpdateTeam. apply preserves_bind; [pres|]. intros _. destruct (team_sets inp) as [e|sets] eqn:E; [pres|].
  apply team_sets_ok, apply_sets_team, (update_team_preserves id) in E. pres.
Qed.

Lemma delete_team_op_preserves id : preserves org_wf (DeleteTeam id).
Proof.
  intros d Hwf. unfold DeleteTeam. pose proof (delete_team_wf id d Hwf).
  wp_go; done.
Qed.

Lemma set_team_members_preserves id l : preserves org_wf (SetTeamMembers id l).
Proof. unfold SetTeamMembers. pres. Qed.

Lemma insert_user_preserves u : statusAllowed (u_status u) = true → preserves org_wf (insert_user u).
Proof.
  intros Hst d Hwf. apply wp_checked; [done|]. destruct (_ || _) eqn:E; [done|].
  apply orb_false_iff in E as [E1 E2]. apply negb_false_iff in E2.
  assert (F : ∀ x, x ∈ users d → u_id x ≠ u_id u ∧ u_email x ≠ u_email u).
  { intros x Hx. pose proof (existsb_false_elem _ _ _ E1 Hx) as Hf. unfold is_user in Hf. by bool_simp. }
  destruct Hwf as [[R1 R2 R3 R4 R5] H2 H3 H4 H5 H6 H7 H8 H9 H10]. split; try done; simpl.
  - split; try done. simpl. intros x rid [Hx| ->%list_elem_of_singleton]%elem_of_app Hr; [by eapply R4|].
    rewrite Hr in E2. apply existsb_witness in E2 as (r & Hin & Er). exists r.
    unfold is_role in Er. by bool_simp.
  - rewrite fmap_app. apply NoDup_snoc; [done|]. intros (x & Hx & Hin)%list_elem_of_fmap.
    destruct (F x Hin). congruence.
  - rewrite fmap_app. apply NoDup_snoc; [done|]. intros (x & Hx & Hin)%list_elem_of_fmap.
    destruct (F x Hin). congruence.
  - intros x [Hx| ->%list_elem_of_singleton]%elem_of_app; [by apply H4|done].
  - intros m Hm. destruct (H10 m Hm) as [Ht (x & Hx & ?)]. split; [done|]. exists x.
    split; [apply elem_of_app; by left|done].
Qed.

Lemma create_member_preserves `{Unicode} `{CryptoLib} id salt now inp : preserves org_wf (CreateMember id salt now inp).
Proof.
  unfold CreateMember. pres. by apply insert_user_preserves.
Qed.

(** The SET clauses of a member update keep identity, email and a valid status. *)
Definition user_set (f : User → User) : Prop := ∀ u,
  u_id (f u) = u_id u ∧ u_email (f u) = u_email u ∧
  (statusAllowed (u_status u) = true → statusAllowed (u_status (f u)) = true).

Lemma apply_sets_user fs : Forall user_set fs → user_set (apply_sets fs).
Proof.
  unfold apply_sets. induction 1 as [|f fs Hf _ IH]; intros u; [done|]. simpl.
  destruct (Hf u) as (? & ? & ?). destruct (IH (f u)) as (? & ? & ?). split; [congruence|]. split; [congruence|auto].
Qed.

Lemma member_sets_ok inp d : wp (member_sets inp) (λ d' r, d' = d ∧ ∀ fs, r = inr fs → Forall user_set fs) d.
Proof.
  unfold member_sets. apply wp_bind.
  eapply (wp_mono _ (λ d' r, d' = d ∧ ∀ fs, r = inr fs → Forall user_set fs)).
  - destruct (um_RoleID inp) as [r|]; [|apply wp_ret; split; [done|]; intros fs [= <-]; constructor].
    destruct (TrimSpace r =s ""); [apply wp_ret; split; [done|]; intros fs [= <-]; by repeat constructor|].
    apply wp_bind. eapply wp_mono; [apply global_role_ro|]. intros d' [e|x] ->; [done|].
    apply wp_ret. split; [done|]. intros fs [= <-]. by repeat constructor.
  - intros d' [e|sets2] [-> H2]; [done|]. apply wp_bind.
    assert (W : ∀ sets3, Forall user_set sets3 → Forall user_set
      ((match um_Name inp with Some n => [set_name_col (TrimSpace n)] | None => [] end) ++ sets2 ++ sets3)).
    { intros sets3 H3. apply Forall_app. split; [destruct (um_Name inp); by repeat constructor|].
      apply Forall_app. split; [by apply H2|done]. }
    destruct (um_Status inp) as [st|].
    + destruct (negb (statusAllowed (TrimSpace st))) eqn:E; [by apply wp_throw|]. apply negb_false_iff in E.
      apply wp_ret, wp_ret. split; [done|]. intros fs [= <-]. apply W. constructor; [|constructor].
      intros u. done.
    + apply wp_ret, wp_ret. split; [done|]. intros fs [= <-]. apply W. constructor.
Qed.

Lemma update_user_preserves id f : user_set f → preserves org_wf (update_user id f).
Proof.
  intros Hf d Hwf. apply wp_checked; [done|]. destruct (List.forallb _ (users d)) eqn:E; [|done].
  rewrite List.forallb_forall in E.
  destruct Hwf as [[R1 R2 R3 R4 R5] H2 H3 H4 H5 H6 H7 H8 H9 H10]. split; try done; simpl.
  - split; try done. simpl. intros u rid (u0 & Hu0 & ->)%elem_of_upd Hr.
    destruct (is_user id u0) eqn:Ei; [|by eapply R4].
    specialize (E u0 (proj1 (list_elem_of_In _ _) Hu0)). rewrite Ei, Hr in E. simpl in E.
    apply existsb_witness in E as (r & Hin & Er). exists r. unfold is_role in Er. by bool_simp.
  - change (NoDup (List.map u_id (upd (is_user id) f (users d)))). rewrite map_upd; [done|apply Hf].
  - change (NoDup (List.map u_email (upd (is_user id) f (users d)))). rewrite map_upd; [done|apply Hf].
  - intros u (u0 & Hu0 & ->)%elem_of_upd. destruct (is_user id u0); [apply Hf|]; by apply H4.
  - intros m Hm. destruct (H10 m Hm) as [Ht (u & Hu & Hid)]. split; [done|].
    exists (if is_user id u then f u else u). split; [apply elem_of_upd; eauto|].
    destruct (is_user id u); [rewrite (proj1 (Hf u))|]; done.
Qed.

Lemma update_member_preserves id inp : preserves org_wf (UpdateMember id inp).
Proof.
  unfold UpdateMember. apply preserves_bind; [pres|]. intros _ d Hwf.
  apply wp_bind. eapply wp_mono; [apply member_sets_ok|]. intros d' [e|sets] [-> Hs]; [done|].
  specialize (Hs sets eq_refl). apply apply_sets_user, (update_user_preserves id) in Hs.
  revert d Hwf. change (preserves org_wf (
    _ ← when (negb (is_nil sets)) (update_user id (apply_sets sets));
    _ ← when (um_TeamsSet inp) (
        teamInputs ← team_inputs (um_Teams inp) (um_TeamIDs inp);
        _ ← validateMemberTeamInputs teamInputs;
        replaceMemberTeams id teamInputs);
    GetMember id)). pres.
Qed.

Lemma delete_member_preserves id cur : preserves org_wf (DeleteMember id cur).
Proof.
  intros d Hwf. unfold DeleteMember. pose proof (delete_user_wf id d Hwf). wp_go; done.
Qed.

Lemma set_avatar_preserves id p : preserves org_wf (SetUserAvatar id p).
Proof.
  intros d Hwf. unfold SetUserAvatar. apply wp_bind, wp_fallible; [done|].
  assert (G : org_wf (on_users (upd (is_user id) (set_avatar p)) d)).
  { destruct Hwf as [[R1 R2 R3 R4 R5] H2 H3 H4 H5 H6 H7 H8 H9 H10]. split; try done; simpl.
    - split; try done. simpl. intros u rid (u0 & Hu0 & ->)%elem_of_upd Hr.
      apply (R4 u0 rid); [done|]. by destruct (is_user id u0).
    - change (NoDup (List.map u_id (upd (is_user id) (set_avatar p) (users d)))). by rewrite map_upd.
    - change (NoDup (List.map u_email (upd (is_user id) (set_avatar p) (users d)))). by rewrite map_upd.
    - intros u (u0 & Hu0 & ->)%elem_of_upd. destruct (is_user id u0); exact (H4 u0 Hu0).
    - intros m Hm. destruct (H10 m Hm) as [Ht (u & Hu & Hid)]. split; [done|].
      exists (if is_user id u then set_avatar p u else u). split; [apply elem_of_upd; eauto|].
      by destruct (is_user id u). }
  wp_go; done.
Qed.

(** *** Role operations leave the rest of the organisation alone *)

Definition same_people (d0 d : Db) : Prop :=
  teams d = teams d0 ∧ team_members d = team_members d0 ∧
  List.map (λ u, (u_id u, u_email u, u_status u)) (users d) =
  List.map (λ u, (u_id u, u_email u, u_status u)) (users d0).

Lemma on_roles_people d0 f d : same_people d0 d → same_people d0 (on_roles f d).
Proof. done. Qed.

Lemma create_role_people `{Unicode} d0 uuid id inp : preserves (same_people d0) (CreateRole uuid id inp).
Proof.
  unfold CreateRole. destruct (negb _); [pres|]. destruct (normalisePermissions _); [pres|].
  apply preserves_bind; [apply read_only_preserves; intros d; apply uniqueSlug_wp|]. intros slug.
  apply preserves_bind; [|pres]. apply preserves_checked. intros d Hd. by destruct (List.existsb _ (roles d)).
Qed.

Lemma update_role_people d0 id inp : preserves (same_people d0) (UpdateRole id inp).
Proof.
  unfold UpdateRole. pres. by apply preserves_exec.
Qed.

Lemma delete_role_people d0 id : preserves (same_people d0) (DeleteRole id).
Proof.
  unfold DeleteRole. pres. apply preserves_checked. intros d Hd. by case_match; case_match; simplify_eq.
Qed.

Lemma seed_roles_people d0 uuids ds : ∀ i, preserves (same_people d0) (seed_roles uuids i ds).
Proof.
  induction ds as [|x ds IH]; intros i; simpl; [pres|]. apply preserves_bind; [|done].
  apply preserves_checked. intros d Hd. destruct (List.existsb _ (roles d)); [done|].
  by destruct (List.existsb _ (roles d)).
Qed.

Lemma ensure_defaults_people d0 uuids : preserves (same_people d0) (EnsureDefaults uuids).
Proof.
  unfold EnsureDefaults. apply preserves_bind; [apply seed_roles_people|]. intros _. apply preserves_exec.
  intros d (? & ? & E). split; [done|]. split; [done|]. rewrite <- E. simpl. by rewrite map_upd.
Qed.

Lemma same_people_wf d0 d : org_wf d0 → same_people d0 d → rbac_wf d → org_wf d.
Proof.
  intros [_ H2 H3 H4 H5 H6 H7 H8 H9 H10] (Et & Em & Eu) Hr.
  assert (Ei : u_id <$> users d = u_id <$> users d0).
  { apply (f_equal (List.map (λ x, x.1.1))) in Eu. by rewrite !List.map_map in Eu. }
  assert (Ee : u_email <$> users d = u_email <$> users d0).
  { apply (f_equal (List.map (λ x, x.1.2))) in Eu. by rewrite !List.map_map in Eu. }
  assert (Es : u_status <$> users d = u_status <$> users d0).
  { apply (f_equal (List.map (λ x, x.2))) in Eu. by rewrite !List.map_map in Eu. }
  split; rewrite ?Et, ?Em, ?Ei, ?Ee; try done.
  - intros u Hu. apply (list_elem_of_fmap_2 u_status) in Hu. rewrite Es in Hu.
    apply list_elem_of_fmap in Hu as (u0 & -> & ?). by apply H4.
  - intros m Hm. destruct (H10 m Hm) as [Ht (u & Hu & Hid)]. split; [done|].
    apply (list_elem_of_fmap_2 u_id) in Hu. rewrite <- Ei in Hu.
    apply list_elem_of_fmap in Hu as (u' & E & ?). exists u'. split; [done|congruence].
Qed.

(** One call of the organisation services, under any storage faults. *)
Inductive org_step `{Unicode} `{CryptoLib} : Db → Db → Prop :=
  | org_defaults uuids d fs : org_step d (EnsureDefaults uuids d fs).1.1
  | org_create_role uuid id inp d fs : org_step d (CreateRole uuid id inp d fs).1.1
  | org_update_role id inp d fs : org_step d (UpdateRole id inp d fs).1.1
  | org_delete_role id d fs : org_step d (DeleteRole id d fs).1.1
  | org_create_team id inp d fs : org_step d (CreateTeam id inp d fs).1.1
  | org_update_team id inp d fs : org_step d (UpdateTeam id inp d fs).1.1
  | org_delete_team id d fs : org_step d (DeleteTeam id d fs).1.1
  | org_set_members id l d fs : org_step d (SetTeamMembers id l d fs).1.1
  | org_create_member id salt now inp d fs : org_step d (CreateMember id salt now inp d fs).1.1
  | org_update_member id inp d fs : org_step d (UpdateMember id inp d fs).1.1
  | org_delete_member id cur d fs : org_step d (DeleteMember id cur d fs).1.1
  | org_avatar id p d fs : org_step d (SetUserAvatar id p d fs).1.1.

Lemma org_step_wf `{Unicode} `{CryptoLib} d d' : org_step d d' → org_wf d → org_wf d'.
Proof.
  assert (P : ∀ d, same_people d d) by done.
  intros Hs Hwf. pose proof (ow_roles d Hwf) as Hr. destruct Hs.
  - apply (same_people_wf d); [done|by apply ensure_defaults_people|by apply ensure_defaults_preserves].
  - apply (same_people_wf d); [done|by apply create_role_people|by apply create_role_preserves].
  - apply (same_people_wf d); [done|by apply update_role_people|]. by apply update_role_keeps.
  - apply (same_people_wf d); [done|by apply delete_role_people|]. by apply delete_role_keeps.
  - by apply create_team_preserves.
  - by apply update_team_op_preserves.
  - by apply delete_team_op_preserves.
  - by apply set_team_members_preserves.
  - by apply create_member_preserves.
  - by apply update_member_preserves.
  - by apply delete_member_preserves.
  - by apply set_avatar_preserves.
Qed.

(** *** Replacing the members of a team *)

Lemma insert_all_wp {A} (g : A → TeamMemberRow) l : ∀ d,
  wp (each (λ m, insert_member (g m)) l)
     (λ d' r, r = inr tt → d' = on_team_members (λ t, t ++ List.map g l) d) d.
Proof.
  induction l as [|x l IH]; intros d; simpl.
  - apply wp_ret. intros _. destruct d. unfold on_team_members. simpl. by rewrite app_nil_r.
  - apply wp_bind, wp_checked; [done|]. destruct (_ || _); [done|].
    eapply wp_mono; [apply IH|]. intros d' r Hd Hr. rewrite (Hd Hr). unfold on_team_members. simpl.
    by rewrite <- app_assoc.
Qed.

Lemma replace_team_wp teamID l d :
  wp (replaceTeamMembers teamID l) (λ d' r,
    match r with
    | inl _ => d' = d
    | inr _ => d' = on_team_members (λ t, del (in_team teamID) t ++
        List.map (λ m, mkTeamMember teamID (tmi_UserID m) (Some (tmi_RoleID m))) (normaliseTeamMembers l)) d
    end) d.
Proof.
  apply wp_tx; [done|]. apply wp_bind, wp_exec; [done|].
  eapply wp_mono; [apply insert_all_wp|]. intros d' [e|[]] H; [done|]. split; [done|].
  by rewrite (H eq_refl).
Qed.

(** ** Properties *)

(** C7: along every history of role, team and member operations, with any
    inputs and any storage faults, the organisation fits together: ids, emails,
    team names and slugs are unique, statuses, slugs and colours valid, every
    membership names an existing team and user and every role reference an
    existing role. *)
Theorem org_invariant `{Unicode} `{CryptoLib} d d' : rtc org_step d d' → org_wf d → org_wf d'.
Proof. induction 1 as [|x y z Hs _ IH]; [done|]. intros Hwf. by eapply IH, org_step_wf. Qed.

Lemma empty_org_wf : org_wf empty_db.
Proof.
  split; try apply NoDup_nil_2; try (by intros ? ?%elem_of_nil). apply empty_rbac_wf.
Qed.

Lemma org_invariant_witness :
  org_wf (CreateTeam (H := ascii_only) "t1" (mkCreateTeamInput "Core" "" "" "" [] []) empty_db []).1.1.
Proof.
  apply (org_invariant (H := ascii_only) (H0 := toy_lib) empty_db); [|exact empty_org_wf].
  apply rtc_once. apply (org_create_team (H := ascii_only) (H0 := toy_lib)).
Defined.

(** The memberships after a replacement, missing roles filled with [roleID]. *)
Definition replaced (teamID roleID : string) (l : list TeamMemberInput) (d : Db) : Db :=
  on_team_members (λ t, del (in_team teamID) t ++
    List.map (λ m, mkTeamMember teamID (tmi_UserID m) (Some (tmi_RoleID m)))
      (normaliseTeamMembers (List.map (λ m,
         if TrimSpace (tmi_RoleID m) =s "" then mkTMI (tmi_TeamID m) (tmi_UserID m) roleID else m) l))) d.

(** setting the members of a team is atomic.  Whatever fails, the
    memberships are afterwards either untouched or exactly the requested ones
    (trimmed, without duplicates, a missing role replaced by one default role),
    those of the other teams unchanged; success means the second. *)
Theorem set_team_members_atomic teamID l d :
  wp (SetTeamMembers teamID l) (λ d' r,
    match r with
    | inr _ => ∃ roleID, d' = replaced teamID roleID l d
    | inl _ => d' = d ∨ ∃ roleID, d' = replaced teamID roleID l d
    end) d.
Proof.
  unfold SetTeamMembers. apply wp_bind. eapply wp_mono; [apply GetTeam_ro|]. intros d' [e|t] ->; [by left|].
  apply wp_bind. unfold withDefaultTeamRole. apply wp_bind.
  eapply wp_mono; [apply default_role_from_ro|]. intros d' [e|roleID] ->; [by left|]. apply wp_ret.
  apply wp_bind. eapply wp_mono; [apply validateTeamMemberInputs_ro|]. intros d' [e|[]] ->; [by left|].
  apply wp_bind. eapply wp_mono; [apply replace_team_wp|]. intros d' [e|[]] ->; [by left|].
  eapply wp_mono; [apply GetTeam_ro|]. intros d' [e|team] ->; [right|]; by exists roleID.
Qed.

(** Removing a member.  Nobody removes their own account; a successful
    removal deletes the user with all memberships, sessions and used codes, and
    leaves every other user's rows as they were; any error changes nothing
    unless the account did not exist. *)
Theorem delete_member_effect id currentUserID d :
  wp (DeleteMember id currentUserID) (λ d' r,
    match r with
    | inl _ => d' = d ∨ (cnt (is_user id) (users d) = 0 ∧ d' = delete_user id d)
    | inr _ => id ≠ currentUserID ∧ d' = delete_user id d ∧
        (∀ u, u ∈ users d' ↔ u ∈ users d ∧ u_id u ≠ id) ∧
        (∀ m, m ∈ team_members d' ↔ m ∈ team_members d ∧ mb_user_id m ≠ id) ∧
        (∀ t, t ∈ refresh_tokens d' ↔ t ∈ refresh_tokens d ∧ rt_user_id t ≠ id)
    end) d.
Proof.
  unfold DeleteMember. apply wp_if; intros Hid; [apply wp_throw; by left|]. bool_simp.
  apply wp_bind, wp_fallible; [by left|]. cbn [fst snd].
  apply wp_if; intros Hn; [apply wp_throw; right; split; [by apply Nat.eqb_eq|done]|].
  apply wp_ret. split; [done|]. split; [done|]. simpl. unfold is_user, of_user.
  split; [|split]; intros x; rewrite elem_of_del, String.eqb_neq; done.
Qed.

(** A team that owns apps cannot be deleted: the call reports it and
    changes nothing; when a team is deleted its memberships go with it. *)
Theorem delete_team_guard id d :
  wp (DeleteTeam id) (λ d' r,
    match r with
    | inl _ => d' = d ∨ cnt (is_team id) (teams d) = 0
    | inr _ => (∀ a, a ∈ apps d → app_of_team id a = false) ∧ d' = delete_team id d ∧
        (∀ m, m ∈ team_members d' → mb_team_id m ≠ id) ∧ (∀ t, t ∈ teams d' → tm_id t ≠ id)
    end) d.
Proof.
  unfold DeleteTeam. apply wp_bind, wp_query; [by left|].
  apply wp_if; intros Ha; [apply wp_throw; by left|].
  apply wp_bind, wp_fallible; [by left|]. cbn [fst snd].
  apply wp_if; intros Hn; [apply wp_throw; right; by apply Nat.eqb_eq|].
  apply wp_ret. apply Nat.ltb_ge, Nat.le_0_r in Ha. rewrite cnt_0 in Ha.
  split; [done|]. split; [done|]. simpl.
  split; intros x [_ Hx]%elem_of_del; unfold in_team, is_team in Hx; by bool_simp.
Qed.

(** Clearing the role of a user of the legacy 'admin' kind does not take the
    administrator's rights away: [UserContext] falls back to the legacy column. *)
Lemma cleared_admin_stays_admin id inp d u p :
  sel (is_user id) (users d) = Some u → u_role u = "admin" → u_status u = "active" →
  um_RoleID inp = Some "" → um_Name inp = None → um_Status inp = None → um_TeamsSet inp = false →
  ∃ d', (run (UpdateMember id inp) d).1 = d' ∧
    sel (is_user id) (users d') = Some (set_role_id None u) ∧ may d' id p = true.
Proof.
  intros Hs Hr Hst Hrole Hn Hstat Hts. eexists. split; [reflexivity|].
  assert (E : (run (UpdateMember id inp) d).1 = on_users (upd (is_user id) (set_role_id None)) d).
  { unfold run, UpdateMember, GetMember, member_sets, update_user, teamsForMember, query, fallible, checked,
      mbind, M_bind, bind. cbn [tail fst snd]. rewrite Hs, Hn, Hrole, Hstat, Hts. simpl.
    replace (List.forallb _ (users d)) with true.
    2: { symmetry. apply List.forallb_forall. intros x _. apply orb_true_r. }
    simpl. rewrite sel_upd by done. rewrite Hs. done. }
  rewrite E. pose proof (sel_Some _ _ _ Hs) as [_ Hid].
  assert (Es : sel (is_user id) (users (on_users (upd (is_user id) (set_role_id None)) d)) = Some (set_role_id None u)).
  { simpl. rewrite sel_upd, Hs by done. simpl. by rewrite Hid. }
  split; [exact Es|]. unfold may, active_user. change (λ u0, u_id u0 =s id) with (is_user id). rewrite Es. simpl.
  rewrite Hst. unfold is_admin, role_of. simpl. by rewrite Hr.
Qed.
