(* ===== verification/Routing.v ===== *)
(** * The reverse proxy, as its clients see it

    [CaddyClient] is the interface internal/domains and internal/deploy call
    (domains/service.go: CaddyClient; the methods of caddy/client.go).  [RouteLaws]
    is what they rely on: after a successful [UpsertRoute] the host is served by
    the given upstream, and no call touches a host the proxy tells apart from
    it.  The client of internal/caddy keeps these laws ([Caddy.client_laws]) from
    the states that are [steady], those no later call of which has the PATCH of
    an existing route refused and the POST after it accepted: then the client
    answers nil and the proxy goes on with the old route (client.go:183, and
    [Divergences.failed_patch_leaves_stale_route]). *)

From S2P Require Import Prelude.
From stdpp Require Import gmap.

(** The error of an admin call: none, [caddy.ErrRouteNotFound], another one. *)
Inductive caddy_res := COk | CRouteNotFound | CFailed.

#[export] Instance caddy_res_eq : EqDecision caddy_res.
Proof. solve_decision. Defined.

(** Where a host is routed: upstream name, port, HTTP->HTTPS redirect. *)
Record Route := mkRoute { rt_upstream : string; rt_port : Z; rt_force_https : bool }.

Class CaddyClient (C : Type) := {
  UpsertRoute : string → string → Z → bool → C → C * caddy_res;
  RemoveRoute : string → C → C * caddy_res;
  EnableTLS : string → C → C * caddy_res;
  DisableTLS : string → C → C * caddy_res;
}.

Class RouteLaws (C : Type) `{CaddyClient C} := {
  route_of : C → string → option Route;
  (** The entries of the two hosts in the proxy are different ones. *)
  apart : string → string → Prop;
  (** The proxy takes the calls to come as the client expects it to. *)
  steady : C → Prop;
  upsert_steady : ∀ h u p f c, steady c → steady (UpsertRoute h u p f c).1;
  remove_steady : ∀ h c, steady c → steady (RemoveRoute h c).1;
  enable_tls_steady : ∀ h c, steady c → steady (EnableTLS h c).1;
  disable_tls_steady : ∀ h c, steady c → steady (DisableTLS h c).1;
  upsert_ok : ∀ h u p f c c', steady c → UpsertRoute h u p f c = (c', COk) →
    route_of c' h = Some (mkRoute u p f);
  upsert_failed : ∀ h u p f c c' e, steady c → UpsertRoute h u p f c = (c', e) → e ≠ COk →
    route_of c' h = route_of c h ∨ ∃ f', route_of c' h = Some (mkRoute u p f');
  upsert_other : ∀ h u p f c h', steady c → apart h' h → route_of (UpsertRoute h u p f c).1 h' = route_of c h';
  remove_ok : ∀ h c c', steady c → RemoveRoute h c = (c', COk) → route_of c' h = None;
  remove_other : ∀ h c h', steady c → apart h' h → route_of (RemoveRoute h c).1 h' = route_of c h';
  enable_tls_routes : ∀ h c h', steady c → route_of (EnableTLS h c).1 h' = route_of c h';
  disable_tls_routes : ∀ h c h', steady c → route_of (DisableTLS h c).1 h' = route_of c h';
}.

(** The interface is satisfiable: a table of routes whose calls never fail. *)
#[export] Instance table_proxy : CaddyClient (gmap string Route) := {
  UpsertRoute h u p f c := (<[h := mkRoute u p f]> c, COk);
  RemoveRoute h c := (base.delete h c, COk);
  EnableTLS h c := (c, COk);
  DisableTLS h c := (c, COk);
}.

#[export] Instance table_laws : RouteLaws (gmap string Route).
Proof.
  refine {| route_of c h := c !! h; apart h h' := h ≠ h'; steady _ := True |}; simpl; intros; simplify_eq/=; try done.
  - by rewrite lookup_insert_eq.
  - by rewrite lookup_insert_ne.
  - by rewrite lookup_delete_eq.
  - by rewrite lookup_delete_ne.
Defined.
