(* ===== verification/Docker.v ===== *)
(** * The container engine (internal/dockersvc)

    [DockerDaemon] is the part of the Docker Engine API the helpers of
    dockersvc/helpers.go and network.go call; [DockerLaws] states its documented
    behaviour on the list of containers [ps].  The helpers themselves are
    translated below.  The daemon decides when a call fails. *)

From S2P Require Import Prelude Effects GoStrings.
From stdpp Require Import gmap.

(** The outcome of an API call: nil, "no such object", any other error. *)
Inductive dk_res := DOk | DNotFound | DFailed.

Definition is_ok (r : dk_res) : bool := match r with DOk => true | _ => false end.

Record PortBinding := mkPortBinding { pb_HostPort : Z; pb_ContainerPort : Z; pb_Protocol : string }.

Record Mount := mkMount { mt_Source : string; mt_Target : string; mt_Type : string; mt_ReadOnly : bool }.

Record ContainerOpts := mkContainerOpts {
  o_Name : string;
  o_Image : string;
  o_Cmd : list string;
  o_Env : gmap string string;
  o_Labels : gmap string string;
  o_Network : string;
  o_Aliases : list string;
  o_PortBindings : list PortBinding;
  o_RestartPolicy : string;
  o_MemoryLimit : string;
  o_CPULimit : string;
  o_MemorySwap : string;
  o_MemorySwappiness : option Z;
  o_MemoryReservation : string;
  o_CPUSet : string;
  o_CPUShares : Z;
  o_Mounts : list Mount;
}.

(** The numbers of the configuration ([container.Resources]). *)
Record Resources := mkResources {
  r_Memory : Z; r_NanoCPUs : Z; r_MemorySwap : Z; r_MemoryReservation : Z;
  r_MemorySwappiness : option Z; r_CpusetCpus : string; r_CPUShares : Z;
}.

(** What the daemon is asked to create ([container.Config], [HostConfig] and
    the endpoint settings of the network). *)
Record Config := mkConfig {
  cf_Name : string;
  cf_Image : string;
  cf_Cmd : list string;
  cf_Env : gmap string string;
  cf_Labels : gmap string string;
  cf_Network : string;
  cf_Aliases : list string;
  cf_Ports : list PortBinding;
  cf_RestartPolicy : string;
  cf_Resources : Resources;
  cf_Mounts : list Mount;
}.

(** A container as the daemon lists it.  [c_name] changes on a rename; the
    configuration, and with it the network aliases, does not. *)
Record Container := mkContainer { c_id : string; c_name : string; c_config : Config; c_running : bool }.

(** A container is addressed by its name or by the id its creation returned. *)
Inductive ref := ByName (name : string) | ById (id : string).

Class DockerDaemon (D : Type) := {
  ContainerCreate : Config → D → D * (dk_res * string);
  ContainerStart : string → D → D * dk_res;
  ContainerStop : ref → D → D * dk_res;
  ContainerRemove : ref → D → D * dk_res;
  ContainerRename : string → string → D → D * dk_res;
  ContainerRestart : string → D → D * dk_res;
  ContainerInspect : string → D → D * (dk_res * bool);
  ContainerList : string → string → D → D * option (list Container);
  ContainerExec : string → string → D → D * dk_res;
  ImageInspect : string → D → D * dk_res;
  ImageRemove : string → D → D * dk_res;
  ImageList : D → D * option (list (list string * Z));
  NetworkInspect : string → D → D * dk_res;
  NetworkCreate : string → D → D * dk_res;
  VolumeCreate : string → gmap string string → D → D * dk_res;
}.

Definition finds (r : ref) (c : Container) : bool :=
  match r with ByName n => c_name c =s n | ById i => c_id c =s i end.

Definition set_running (b : bool) (c : Container) : Container :=
  mkContainer (c_id c) (c_name c) (c_config c) b.
Definition set_name (n : string) (c : Container) : Container :=
  mkContainer (c_id c) n (c_config c) (c_running c).

Definition has_name (n : string) (l : list Container) : bool := List.existsb (finds (ByName n)) l.

Class DockerLaws (D : Type) `{DockerDaemon D} := {
  ps : D → list Container;
  create_ok : ∀ o d d' id, ContainerCreate o d = (d', (DOk, id)) →
    ps d' = ps d ++ [mkContainer id (cf_Name o) o false] ∧
    has_name (cf_Name o) (ps d) = false ∧ List.existsb (finds (ById id)) (ps d) = false;
  create_failed : ∀ o d d' r id, ContainerCreate o d = (d', (r, id)) → r ≠ DOk → ps d' = ps d;
  start_ok : ∀ i d d', ContainerStart i d = (d', DOk) → ps d' = upd (finds (ById i)) (set_running true) (ps d);
  start_failed : ∀ i d d' r, ContainerStart i d = (d', r) → r ≠ DOk → ps d' = ps d;
  stop_any : ∀ x d d' r, ContainerStop x d = (d', r) →
    ps d' = ps d ∧ r ≠ DOk ∨ ps d' = upd (finds x) (set_running false) (ps d);
  remove_any : ∀ x d d' r, ContainerRemove x d = (d', r) →
    ps d' = ps d ∧ r ≠ DOk ∨ ps d' = del (finds x) (ps d);
  rename_ok : ∀ o n d d', ContainerRename o n d = (d', DOk) →
    has_name o (ps d) = true ∧ has_name n (ps d) = false ∧
    ps d' = upd (finds (ByName o)) (set_name n) (ps d);
  rename_failed : ∀ o n d d' r, ContainerRename o n d = (d', r) → r ≠ DOk → ps d' = ps d;
  restart_any : ∀ n d d' r, ContainerRestart n d = (d', r) →
    ps d' = ps d ∧ r ≠ DOk ∨ ps d' = upd (finds (ByName n)) (set_running true) (ps d);
  inspect_ps : ∀ n d, ps (ContainerInspect n d).1 = ps d;
  list_ps : ∀ k v d, ps (ContainerList k v d).1 = ps d;
  list_ok : ∀ k v d d' l, ContainerList k v d = (d', Some l) →
    l = List.filter (λ c, match cf_Labels (c_config c) !! k with Some x => x =s v | None => false end) (ps d);
  exec_ps : ∀ n c d, ps (ContainerExec n c d).1 = ps d;
  image_inspect_ps : ∀ i d, ps (ImageInspect i d).1 = ps d;
  image_remove_ps : ∀ i d, ps (ImageRemove i d).1 = ps d;
  image_list_ps : ∀ d, ps (ImageList d).1 = ps d;
  network_inspect_ps : ∀ n d, ps (NetworkInspect n d).1 = ps d;
  network_create_ps : ∀ n d, ps (NetworkCreate n d).1 = ps d;
  volume_create_ps : ∀ n l d, ps (VolumeCreate n l d).1 = ps d;
}.

(** [strconv.ParseFloat(s, 64)] and [int64(v * float64(m))]: IEEE arithmetic is
    abstract. *)
Class Floats := {
  float64 : Type;
  ParseFloat : string → option float64;
  scaled : float64 → Z → Z;
}.

(** [nat.NewPort(proto, port)]: whether the port is accepted. *)
Class Nat := { NewPort : string → Z → bool }.

Inductive DkErr :=
  | ErrContainerNotFound
  | ErrImageNotFound
  | ErrInvalidResource
  | ErrDocker (where_ : string).

Definition PrexelNetwork : string := "prexel-net".

(** ** Limits *)

Section Limits.
Context `{Floats} `{Unicode}.

Definition parseMemory (s : string) : DkErr + Z :=
  let s := TrimSpace (ToLower s) in
  if s =s "" then inr 0%Z
  else
    let mult := (if HasSuffix s "k" || HasSuffix s "kb" then 1024
                 else if HasSuffix s "m" || HasSuffix s "mb" then 1024 * 1024
                 else if HasSuffix s "g" || HasSuffix s "gb" then 1024 * 1024 * 1024
                 else 1)%Z in
    match ParseFloat (TrimRight s "kmgb") with
    | None => inl ErrInvalidResource
    | Some v => inr (scaled v mult)
    end.

Definition parseMemorySwap (s : string) : DkErr + Z :=
  let s := TrimSpace s in
  if s =s "" then inr 0%Z else if s =s "-1" then inr (-1)%Z else parseMemory s.

Definition parseCPUs (s : string) : DkErr + Z :=
  let s := TrimSpace s in
  if s =s "" then inr 0%Z
  else match ParseFloat s with None => inl ErrInvalidResource | Some v => inr (scaled v 1000000000) end.

Definition parseResources (memory cpus : string) : DkErr + Resources :=
  mem ← (if negb (memory =s "") then parseMemory memory else inr 0%Z);
  ncpus ← (if negb (cpus =s "") then parseCPUs cpus else inr 0%Z);
  inr (mkResources mem ncpus 0 0 None "" 0).

(** The resources of [RunContainer]: the base limits with the advanced knobs. *)
Definition resources_of (opts : ContainerOpts) : DkErr + Resources :=
  r ← parseResources (o_MemoryLimit opts) (o_CPULimit opts);
  swap ← (if negb (o_MemorySwap opts =s "") then parseMemorySwap (o_MemorySwap opts) else inr (r_MemorySwap r));
  reservation ← (if negb (o_MemoryReservation opts =s "") then parseMemory (o_MemoryReservation opts)
                 else inr (r_MemoryReservation r));
  inr (mkResources (r_Memory r) (r_NanoCPUs r) swap reservation (o_MemorySwappiness opts) (o_CPUSet opts)
         (if 0 <? o_CPUShares opts then o_CPUShares opts else 0)%Z).
End Limits.

(** ** Helpers *)

Section Helpers.
Context {D : Type} `{DockerDaemon D} `{Floats} `{Nat} `{Unicode}.

(** The calls [D → D * ...] as computations; the states the daemon goes
    through are recorded, one after each call. *)
Definition dockM := M (D * list D) DkErr.
Definition call {A} (f : D → D * A) : dockM A := λ s fs,
  (((f s.1).1, s.2 ++ [(f s.1).1]), fs, inr (f s.1).2).

Definition normal_port (b : PortBinding) : PortBinding :=
  mkPortBinding (pb_HostPort b) (pb_ContainerPort b) (if pb_Protocol b =s "" then "tcp" else pb_Protocol b).

Definition mount_ok (m : Mount) : bool :=
  ((mt_Type m =s "bind") || (mt_Type m =s "volume")) && negb (mt_Target m =s "") && negb (mt_Source m =s "").

(** The configuration [RunContainer] sends. *)
Definition config_of (opts : ContainerOpts) : DkErr + Config :=
  let ports := normal_port <$> o_PortBindings opts in
  if negb (List.forallb (λ b, NewPort (pb_Protocol b) (pb_ContainerPort b)) ports) then inl (ErrDocker "port")
  else
    resources ← resources_of opts;
    let restart := if o_RestartPolicy opts =s "" then "unless-stopped" else o_RestartPolicy opts in
    if negb (List.forallb mount_ok (o_Mounts opts)) then inl (ErrDocker "mount")
    else
      inr (mkConfig (o_Name opts) (o_Image opts) (o_Cmd opts) (o_Env opts)
             (o_Labels opts ∪ {["prexel.managed" := "true"]})
             (if o_Network opts =s "" then PrexelNetwork else o_Network opts)
             (o_Name opts :: o_Aliases opts) ports restart resources (o_Mounts opts)).

Definition RunContainer (opts : ContainerOpts) : dockM string :=
  if o_Name opts =s "" then throw (ErrDocker "empty name")
  else if o_Image opts =s "" then throw (ErrDocker "empty image")
  else match config_of opts with
  | inl e => throw e
  | inr cfg =>
    created ← call (ContainerCreate cfg);
    let '(r, id) := created in
    if negb (is_ok r) then throw (ErrDocker "create")
    else
      r ← call (ContainerStart id);
      if negb (is_ok r) then
        _ ← call (ContainerRemove (ById id));
        throw (ErrDocker "start")
      else mret id
  end.

(** A call whose "not found" has an error of its own. *)
Definition named_call (w : string) (nf : DkErr) (f : D → D * dk_res) : dockM unit :=
  r ← call f;
  match r with
  | DOk => mret tt
  | DNotFound => throw nf
  | DFailed => throw (ErrDocker w)
  end.

Definition StopContainer (name : string) : dockM unit :=
  named_call "stop" ErrContainerNotFound (ContainerStop (ByName name)).
Definition RemoveContainer (name : string) : dockM unit :=
  named_call "remove" ErrContainerNotFound (ContainerRemove (ByName name)).
Definition RenameContainer (oldName newName : string) : dockM unit :=
  named_call "rename" ErrContainerNotFound (ContainerRename oldName newName).
Definition RemoveImage (r : string) : dockM unit :=
  named_call "remove image" ErrImageNotFound (ImageRemove r).

Definition EnsureNetwork (name : string) : dockM unit :=
  if name =s "" then throw (ErrDocker "empty name")
  else
    r ← call (NetworkInspect name);
    match r with
    | DOk => mret tt
    | DFailed => throw (ErrDocker "inspect network")
    | DNotFound =>
      r ← call (NetworkCreate name);
      if is_ok r then mret tt
      else
        r ← call (NetworkInspect name);
        if is_ok r then mret tt else throw (ErrDocker "create network")
    end.

Definition EnsureVolume (name : string) (extraLabels : gmap string string) : dockM unit :=
  if TrimSpace name =s "" then throw (ErrDocker "empty name")
  else
    r ← call (VolumeCreate name (extraLabels ∪ {["prexel.managed" := "true"]}));
    if is_ok r then mret tt else throw (ErrDocker "ensure volume").

Definition ContainerExists (name : string) : dockM bool :=
  r ← call (ContainerInspect name);
  match r.1 with
  | DOk => mret true
  | DNotFound => mret false
  | DFailed => throw (ErrDocker "inspect")
  end.

(** The containers with a label, running or not. *)
Definition ListContainers (k v : string) : dockM (list Container) :=
  r ← call (ContainerList k v);
  match r with None => throw (ErrDocker "list") | Some l => mret l end.

(** [sh -c cmd] inside a container: creating, attaching to and inspecting the
    exec is one call of the daemon, which fails when any of them does or the
    command exits with another code than 0. *)
Definition Exec (name cmd : string) : dockM unit :=
  named_call "exec" ErrContainerNotFound (ContainerExec name cmd).
End Helpers.

(** ** Facts *)

Section DockerFacts.
Context {D : Type} `{DD : DockerDaemon D} `{DL : !DockerLaws D} `{FL : Floats} `{NT : Nat} `{UC : Unicode}.

(** The names under which a container is reached on the network. *)
Definition answers (c : Container) (host : string) : bool :=
  c_running c && ((c_name c =s host) || List.existsb (λ x, x =s host) (cf_Aliases (c_config c))).

(** [P] holds of the containers after every call recorded in [s]. *)
Definition along (P : list Container → Prop) (s : D * list D) : Prop := Forall (λ d, P (ps d)) s.2.

Lemma wp_call {A} (f : D → D * A) (Q : D * list D → DkErr + A → Prop) s :
  Q ((f s.1).1, s.2 ++ [(f s.1).1]) (inr (f s.1).2) → wp (call f) Q s.
Proof. by intros HQ fs. Qed.

Lemma along_snoc P (d : D) s : along P s → P (ps d) → along P (d, s.2 ++ [d]).
Proof. intros Hs Hd. unfold along. simpl. rewrite Forall_app. split; [done|by constructor]. Qed.

(** Reads and calls on images, volumes, networks: the containers stay. *)
Lemma named_call_frame w nf f P s (Q : D * list D → DkErr + unit → Prop) :
  (∀ d, ps (f d).1 = ps d) → along P s → P (ps s.1) →
  (∀ s' r, along P s' → ps s'.1 = ps s.1 → Q s' r) →
  wp (named_call w nf f) Q s.
Proof.
  intros Hf Hs Hp HQ. apply wp_bind, wp_call. destruct (f s.1).2; [apply wp_ret|apply wp_throw..];
    (apply HQ; [apply along_snoc; [done|by rewrite Hf]|by apply Hf]).
Qed.

Lemma stop_wp name P s (Q : D * list D → DkErr + unit → Prop) :
  along P s → P (ps s.1) → P (upd (finds (ByName name)) (set_running false) (ps s.1)) →
  (∀ s' r, along P s' →
     ps s'.1 = ps s.1 ∧ r ≠ inr tt ∨ ps s'.1 = upd (finds (ByName name)) (set_running false) (ps s.1) →
     Q s' r) →
  wp (StopContainer name) Q s.
Proof.
  intros Hs Hp Hu HQ. apply wp_bind, wp_call. destruct (ContainerStop _ s.1) as [d' r] eqn:E. simpl.
  pose proof (stop_any _ _ _ _ E) as Hd.
  assert (along P (d', s.2 ++ [d'])) by (apply along_snoc; [done|]; destruct Hd as [[-> _]| ->]; done).
  destruct r; [apply wp_ret|apply wp_throw..]; apply HQ; try done; simpl; destruct Hd as [[? ?]|?]; auto; by left.
Qed.

Lemma remove_wp name P s (Q : D * list D → DkErr + unit → Prop) :
  along P s → P (ps s.1) → P (del (finds (ByName name)) (ps s.1)) →
  (∀ s' r, along P s' →
     ps s'.1 = ps s.1 ∧ r ≠ inr tt ∨ ps s'.1 = del (finds (ByName name)) (ps s.1) → Q s' r) →
  wp (RemoveContainer name) Q s.
Proof.
  intros Hs Hp Hu HQ. apply wp_bind, wp_call. destruct (ContainerRemove _ s.1) as [d' r] eqn:E. simpl.
  pose proof (remove_any _ _ _ _ E) as Hd.
  assert (along P (d', s.2 ++ [d'])) by (apply along_snoc; [done|]; destruct Hd as [[-> _]| ->]; done).
  destruct r; [apply wp_ret|apply wp_throw..]; apply HQ; try done; simpl; destruct Hd as [[? ?]|?]; auto; by left.
Qed.

Lemma rename_wp o n P s (Q : D * list D → DkErr + unit → Prop) :
  along P s → P (ps s.1) →
  (has_name o (ps s.1) = true → has_name n (ps s.1) = false → P (upd (finds (ByName o)) (set_name n) (ps s.1))) →
  (∀ s' e, along P s' → ps s'.1 = ps s.1 → Q s' (inl e)) →
  (∀ s', along P s' → has_name o (ps s.1) = true → has_name n (ps s.1) = false →
     ps s'.1 = upd (finds (ByName o)) (set_name n) (ps s.1) → Q s' (inr tt)) →
  wp (RenameContainer o n) Q s.
Proof.
  intros Hs Hp Hu He HQ. apply wp_bind, wp_call. destruct (ContainerRename _ _ s.1) as [d' r] eqn:E. simpl.
  destruct r; [apply wp_ret|apply wp_throw..].
  - destruct (rename_ok _ _ _ _ E) as (Ho & Hn & Hd). apply HQ; [|done|done|done].
    apply along_snoc; [done|]. rewrite Hd. auto.
  - pose proof (rename_failed _ _ _ _ _ E ltac:(done)) as Hd. apply He; [|done]. apply along_snoc; [done|by rewrite Hd].
  - pose proof (rename_failed _ _ _ _ _ E ltac:(done)) as Hd. apply He; [|done]. apply along_snoc; [done|by rewrite Hd].
Qed.

Lemma del_fresh id l c :
  List.existsb (finds (ById id)) l = false → c_id c = id → del (finds (ById id)) (l ++ [c]) = l.
Proof.
  intros Hf Hc. unfold del. rewrite List.filter_app. simpl. rewrite Hc, String.eqb_refl. simpl.
  rewrite app_nil_r. induction l as [|x l IH]; [done|]. simpl in *. apply orb_false_iff in Hf as [-> Hf].
  simpl. by rewrite IH.
Qed.

Lemma upd_fresh id f l c :
  List.existsb (finds (ById id)) l = false → c_id c = id → upd (finds (ById id)) f (l ++ [c]) = l ++ [f c].
Proof.
  intros Hf Hc. unfold upd. rewrite List.map_app. simpl. rewrite Hc, String.eqb_refl. f_equal.
  apply (upd_none (finds (ById id)) f). intros x Hx. by apply (existsb_false_elem _ _ _ Hf).
Qed.

(** [RunContainer] adds a running container of the requested configuration
    under an unused name, or nothing but a stopped leftover of that name. *)
Lemma run_wp opts P s (Q : D * list D → DkErr + string → Prop) :
  along P s → P (ps s.1) → (∀ c, c_name c = o_Name opts → P (ps s.1 ++ [c])) →
  (∀ s' e, along P s' →
     ps s'.1 = ps s.1 ∨ (∃ c, ps s'.1 = ps s.1 ++ [c] ∧ c_name c = o_Name opts ∧ c_running c = false) →
     Q s' (inl e)) →
  (∀ s' id cfg, along P s' → config_of opts = inr cfg → has_name (o_Name opts) (ps s.1) = false →
     List.existsb (finds (ById id)) (ps s.1) = false →
     ps s'.1 = ps s.1 ++ [mkContainer id (o_Name opts) cfg true] → Q s' (inr id)) →
  wp (RunContainer opts) Q s.
Proof.
  intros Hs Hp Ha He HQ. unfold RunContainer. destruct (_ =s _); [apply wp_throw; auto|].
  destruct (_ =s _); [apply wp_throw; auto|]. destruct (config_of opts) as [e|cfg] eqn:Ec; [apply wp_throw; auto|].
  assert (Hname : cf_Name cfg = o_Name opts).
  { unfold config_of in Ec. cbv zeta in Ec. unfold mbind, sum_bind in Ec. repeat case_match; by simplify_eq/=. }
  apply wp_bind, wp_call. destruct (ContainerCreate cfg s.1) as [d1 [r id]] eqn:E1. simpl.
  destruct (negb (is_ok r)) eqn:Er.
  { pose proof (create_failed _ _ _ _ _ E1 ltac:(by destruct r)) as Hd. apply wp_throw, He; [|by left].
    apply along_snoc; [done|by rewrite Hd]. }
  destruct r; try done. destruct (create_ok _ _ _ _ E1) as (Hd1 & Hn & Hi). rewrite Hname in Hd1, Hn.
  assert (Hs1 : along P (d1, s.2 ++ [d1])) by (apply along_snoc; [done|]; rewrite Hd1; auto).
  apply wp_bind, wp_call. destruct (ContainerStart id _) as [d2 r] eqn:E2. simpl.
  destruct (negb (is_ok r)) eqn:Er2.
  - pose proof (start_failed _ _ _ _ E2 ltac:(by destruct r)) as Hd2. simpl in Hd2.
    pose proof (along_snoc P d2 _ Hs1 ltac:(rewrite Hd2, Hd1; auto)) as Hs2.
    apply wp_bind, wp_call. destruct (ContainerRemove _ _) as [d3 r3] eqn:E3. simpl.
    pose proof (remove_any _ _ _ _ E3) as Hd3. simpl in Hd3. rewrite Hd2, Hd1, del_fresh in Hd3 by done.
    apply wp_throw, He.
    + apply (along_snoc P d3 _ Hs2). destruct Hd3 as [[-> _]| ->]; auto.
    + simpl. destruct Hd3 as [[-> _]| ->]; [right|by left]. eexists. split; [reflexivity|done].
  - destruct r; try done. pose proof (start_ok _ _ _ E2) as Hd2. simpl in Hd2. rewrite Hd1, upd_fresh in Hd2 by done.
    apply wp_ret. eapply HQ; [|done|done|exact Hi|exact Hd2].
    apply (along_snoc P d2 _ Hs1). rewrite Hd2. auto.
Qed.
End DockerFacts.

(** ** The interface is satisfiable: a daemon whose state is its list *)

(** An id longer than every id in use. *)
Definition fresh_id (l : list Container) : string := foldr (λ c s, c_id c ^^ s) "x" l.

#[export] Instance list_daemon : DockerDaemon (list Container) := {
  ContainerCreate cfg l :=
    if has_name (cf_Name cfg) l then (l, (DFailed, ""))
    else (l ++ [mkContainer (fresh_id l) (cf_Name cfg) cfg false], (DOk, fresh_id l));
  ContainerStart id l := (upd (finds (ById id)) (set_running true) l, DOk);
  ContainerStop r l := (upd (finds r) (set_running false) l, DOk);
  ContainerRemove r l := (del (finds r) l, DOk);
  ContainerRename o n l :=
    if has_name o l && negb (has_name n l) then (upd (finds (ByName o)) (set_name n) l, DOk) else (l, DNotFound);
  ContainerRestart n l := (upd (finds (ByName n)) (set_running true) l, DOk);
  ContainerInspect n l :=
    (l, match sel (finds (ByName n)) l with Some c => (DOk, c_running c) | None => (DNotFound, false) end);
  ContainerList k v l :=
    (l, Some (List.filter (λ c, match cf_Labels (c_config c) !! k with Some x => x =s v | None => false end) l));
  ContainerExec _ _ l := (l, DOk);
  ImageInspect _ l := (l, DOk);
  ImageRemove _ l := (l, DOk);
  ImageList l := (l, Some []);
  NetworkInspect _ l := (l, DOk);
  NetworkCreate _ l := (l, DOk);
  VolumeCreate _ _ l := (l, DOk);
}.

Lemma fresh_id_length l c : c ∈ l → String.length (c_id c) < String.length (fresh_id l).
Proof.
  assert (Hpos : ∀ l', 0 < String.length (fresh_id l')).
  { induction l' as [|x l' IH]; simpl; [lia|]. rewrite string_app_length. lia. }
  induction l as [|x l IH]; [by intros ?%not_elem_of_nil|]. simpl. rewrite string_app_length.
  intros [->|Hc]%elem_of_cons; [pose proof (Hpos l); unfold fresh_id in *; lia|]. apply IH in Hc. unfold fresh_id in *. lia.
Qed.

#[export] Instance list_daemon_laws : DockerLaws (list Container).
Proof.
  refine {| ps l := l |}; simpl; intros; try (by repeat case_match; simplify_eq/=); simplify_eq/=; auto.
  - destruct (has_name (cf_Name o) d) eqn:E; simplify_eq/=. split_and!; [done|done|].
    apply not_true_iff_false. intros (c & Hc & Hid)%existsb_witness. simpl in Hid. bool_simp.
    apply fresh_id_length in Hc. rewrite Hid in Hc. lia.
  - repeat case_match; simplify_eq/=; bool_simp; done.
Defined.

(** Numbers and ports for concrete runs. *)
Definition z_floats : Floats := {| float64 := Z; ParseFloat _ := None; scaled v m := (v * m)%Z |}.
Definition any_port : Nat := {| NewPort _ p := (0 <=? p)%Z && (p <=? 65535)%Z |}.
