(* ===== verification/Apps.v ===== *)
(** * Apps (internal/app)

    The service and the repository of the apps table: creation with its
    validations and defaults, partial updates, environment variables, the
    status column, deletion with its cascades, and the targets of the cleanup
    that follows a deletion.  The row is [App] of [Schema]; the map of columns
    that an update builds is [AppSets].  Errors carry the code before the
    colon of the message.  The tags of an app come from the interface
    [TagLister]; the servers, teams and git sources are rows of the database. *)

From S2P Require Import Prelude Effects GoStrings Decimal Regex Schema Docker.
From stdpp Require Import gmap.

Inductive AppErr :=
  | ErrAppNotFound
  | ErrNameInUse
  | ErrInvalid (code : string)
  | ErrServerNotConnected (status : string)
  | ErrAppDb (where_ : string).

(** ** Validation *)

Definition nameRegex : re := Cat (Cls alnum) (Opt (Cat (Star (Cls (λ z, alnum z || (z =? 45)%Z))) (Cls alnum))).
Definition envKeyRegex : re := Cat (Cls AZ) (Star (Cls (λ z, AZ z || d09 z || (z =? 95)%Z))).
Definition numeral : re := Cat (Plus (Cls d09)) (Opt (Cat (Lit ".") (Plus (Cls d09)))).
Definition memRegex : re := Cat numeral (Opt (Cls (one_of "mgkbMGKB"))).
Definition cpuRegex : re := numeral.
Definition cpu_range : re := Cat (Plus (Cls d09)) (Opt (Cat (Lit "-") (Plus (Cls d09)))).
Definition cpusetRegex : re := Cat cpu_range (Star (Cat (Lit ",") cpu_range)).
Definition labelKeyRegex : re := Cat (Cls alnum) (Star (Cls (λ z, alnum z || one_of "._-" z))).

Definition validRestartPolicies : list string := ["no"; "always"; "on-failure"; "unless-stopped"].

Definition check (ok : bool) (code : string) : AppErr + unit := if ok then inr tt else inl (ErrInvalid code).

Definition validateRestartPolicy (p : string) : AppErr + unit :=
  check (List.existsb (String.eqb p) validRestartPolicies) "invalid_restart_policy".

Lemma digits_graphic z : d09 z = true → graphic z = true.
Proof. unfold d09, graphic, in_range. rewrite !andb_true_iff, !Z.leb_le. lia. Qed.
Lemma dot_graphic c : (byte c =? byte ".")%Z = true → graphic (byte c) = true.
Proof. by intros ->%Z.eqb_eq. Qed.

Lemma memRegex_graphic s : MatchString memRegex s = true → all_bytes graphic s = true.
Proof.
  intros Hm%MatchString_spec. eapply within_all; [|exact Hm].
  repeat split; intros c Hc; try (by apply digits_graphic); [by apply dot_graphic|].
  unfold one_of in Hc. rewrite of_byte_byte in Hc. apply existsb_witness in Hc as (x & Hx & Ex). apply Ascii.eqb_eq in Ex.
  subst x. revert c Hx. apply list.Forall_forall. by repeat constructor.
Qed.

Lemma cpuRegex_graphic s : MatchString cpuRegex s = true → all_bytes graphic s = true.
Proof.
  intros Hm%MatchString_spec. eapply within_all; [|exact Hm].
  repeat split; intros c Hc; try (by apply digits_graphic). by apply dot_graphic.
Qed.

(** A limit that is given and not blank matches. *)
Definition limit_ok (r : re) (v : option string) : bool :=
  match v with
  | None => true
  | Some v => let v := TrimSpace v in (v =s "") || MatchString r v
  end.
Definition within_ok (lo hi : Z) (v : option Z) : bool :=
  match v with None => true | Some n => negb ((n <? lo)%Z || (hi <? n)%Z) end.

Definition validateAdvancedLimits (memSwap memReservation : option string) (swappiness : option Z)
    (cpuset : option string) (cpuShares : option Z) : AppErr + unit :=
  _ ← check (limit_ok memRegex memSwap) "invalid_limits_memory_swap";
  _ ← check (limit_ok memRegex memReservation) "invalid_limits_memory_reservation";
  _ ← check (within_ok 0 100 swappiness) "invalid_limits_memory_swappiness";
  _ ← check (limit_ok cpusetRegex cpuset) "invalid_limits_cpuset";
  check (within_ok 2 262144 cpuShares) "invalid_limits_cpu_shares".

Definition label_key_ok (k : string) : bool :=
  negb ((k =s "") || (253 <? len k)%Z) && MatchString labelKeyRegex k.
Definition keys_of (m : gmap string string) : list string := (map_to_list m).*1.
Definition validateDockerLabels (m : gmap string string) : AppErr + unit :=
  check (List.forallb label_key_ok (keys_of m)) "invalid_docker_label_key".

Definition validatePort (p : option Z) : AppErr + unit := check (within_ok 1 65535 p) "invalid_port".

Definition validateLimits (mem cpus : option string) : AppErr + unit :=
  _ ← check (limit_ok memRegex mem) "invalid_limits_memory";
  check (limit_ok cpuRegex cpus) "invalid_limits_cpus".

Definition validateEnvMap (m : gmap string string) : AppErr + unit :=
  check (List.forallb (MatchString envKeyRegex) (keys_of m)) "invalid_env_key".

(** ** Pointers to strings *)

Definition trimmedPtr (v : option string) : option string :=
  match v with
  | None => None
  | Some v => let v := TrimSpace v in if v =s "" then None else Some v
  end.
Definition strPtrOrNil (s : string) : option string := trimmedPtr (Some s).
Definition nullableString (s : string) : option string := trimmedPtr (Some s).
Definition deref (v : option string) : string := default "" v.
Definition isBlankPtr (v : option string) : bool :=
  match v with None => true | Some v => TrimSpace v =s "" end.
(** A blank value takes the default. *)
Definition or_default (s dflt : string) : string := let v := TrimSpace s in if v =s "" then dflt else v.

(** ** Health checks *)

Record HealthCheckOpts := mkHealth {
  h_Enabled : option bool; h_Path : string; h_Port : option Z; h_Method : string; h_ReturnCode : Z;
  h_Interval : Z; h_Timeout : Z; h_Retries : Z; h_StartPeriod : Z;
}.

Record resolvedHealth := mkResolved {
  rh_Enabled : bool; rh_Path : string; rh_Method : string; rh_Port : option Z; rh_ReturnCode : Z;
  rh_Interval : Z; rh_Timeout : Z; rh_Retries : Z; rh_StartPeriod : Z;
}.

Definition or_zero (n dflt : Z) : Z := if (n =? 0)%Z then dflt else n.

Section Normalise.
Context `{Unicode}.

Definition normaliseHealthCheck (h : HealthCheckOpts) : AppErr + HealthCheckOpts :=
  let enabled := default true (h_Enabled h) in
  let path := if h_Path h =s "" then "/" else h_Path h in
  let method := ToUpper (if h_Method h =s "" then "GET" else h_Method h) in
  _ ← check ((method =s "GET") || (method =s "HEAD")) "invalid_health_check_method";
  let code := or_zero (h_ReturnCode h) 200 in
  _ ← check (within_ok 100 599 (Some code)) "invalid_health_check_return_code";
  let interval := or_zero (h_Interval h) 30 in
  let timeout := or_zero (h_Timeout h) 60 in
  _ ← check (within_ok 1 300 (Some timeout)) "invalid_health_check_timeout";
  let retries := or_zero (h_Retries h) 3 in
  _ ← check (within_ok 1 10 (Some retries)) "invalid_health_check_retries";
  let start := or_zero (h_StartPeriod h) 10 in
  _ ← validatePort (h_Port h);
  inr (mkHealth (Some enabled) path (h_Port h) method code interval timeout retries start).

Definition Unwrap (o : HealthCheckOpts) : resolvedHealth :=
  mkResolved (default true (h_Enabled o)) (h_Path o) (h_Method o) (h_Port o) (h_ReturnCode o)
    (h_Interval o) (h_Timeout o) (h_Retries o) (h_StartPeriod o).

(** The persisted values, overlaid with the non-zero values of the patch. *)
Definition merge_health (cur : App) (p : HealthCheckOpts) : HealthCheckOpts :=
  mkHealth (match h_Enabled p with Some b => Some b | None => Some (a_health_check_enabled cur) end)
    (if h_Path p =s "" then a_health_check_path cur else h_Path p)
    (match h_Port p with Some n => Some n | None => a_health_check_port cur end)
    (if h_Method p =s "" then a_health_check_method cur else h_Method p)
    (or_zero (h_ReturnCode p) (a_health_check_return_code cur))
    (or_zero (h_Interval p) (a_health_check_interval cur))
    (or_zero (h_Timeout p) (a_health_check_timeout cur))
    (or_zero (h_Retries p) (a_health_check_retries cur))
    (or_zero (h_StartPeriod p) (a_health_check_start_period cur)).
End Normalise.

(** ** Inputs *)

Record CreateInput := mkCreate {
  c_Name : string; c_Description : string; c_TeamID : option string; c_ServerID : string;
  c_GitSourceID : option string; c_RepoURL : option string; c_Branch : string; c_GitCommitSHA : option string;
  c_BuildType : string; c_DockerfilePath : string; c_BuildContext : string; c_DockerfileInline : option string;
  c_ComposeFile : option string; c_ComposeInline : option string; c_ImageName : option string; c_ImageTag : string;
  c_InstallCommand : option string; c_BuildCommand : option string; c_StartCommand : option string;
  c_PreDeployCommand : option string; c_PostDeployCommand : option string; c_Port : option Z; c_HostPort : option Z;
  c_HealthCheck : HealthCheckOpts; c_LimitsMemory : option string; c_LimitsCPUs : option string;
  c_LimitsMemorySwap : option string; c_LimitsMemorySwappiness : option Z; c_LimitsMemoryReservation : option string;
  c_LimitsCPUSet : option string; c_LimitsCPUShares : option Z; c_RestartPolicy : string;
  c_AutoDeployBranch : option string; c_BuildArgsInject : option bool; c_BuildArgsSourceCommit : option bool;
  c_DockerLabels : option (gmap string string); c_EnvVars : option (gmap string string);
}.

Record UpdatePatch := mkPatch {
  p_Description : option string; p_TeamID : option string; p_ClearTeamID : bool; p_GitSourceID : option string;
  p_ClearGitSourceID : bool; p_RepoURL : option string; p_Branch : option string; p_GitCommitSHA : option string;
  p_DockerfilePath : option string; p_BuildContext : option string; p_DockerfileInline : option string;
  p_ComposeFile : option string; p_ComposeInline : option string; p_ImageName : option string;
  p_ImageTag : option string; p_InstallCommand : option string; p_BuildCommand : option string;
  p_StartCommand : option string; p_PreDeployCommand : option string; p_PostDeployCommand : option string;
  p_Port : option Z; p_HostPort : option Z; p_HealthCheck : option HealthCheckOpts; p_LimitsMemory : option string;
  p_LimitsCPUs : option string; p_LimitsMemorySwap : option string; p_LimitsMemorySwappiness : option Z;
  p_ClearMemorySwappiness : bool; p_LimitsMemoryReservation : option string; p_LimitsCPUSet : option string;
  p_LimitsCPUShares : option Z; p_ClearCPUShares : bool; p_RestartPolicy : option string;
  p_AutoDeployBranch : option string; p_ClearAutoDeployBranch : bool; p_BuildArgsInject : option bool;
  p_BuildArgsSourceCommit : option bool; p_DockerLabels : option (gmap string string);
  p_EnvVars : option (gmap string string);
}.

(** ** The repository *)

Local Abbreviation aM := (M Db AppErr).

Definition app_is (id : string) (a : App) : bool := a_id a =s id.
Definition named (name : string) (a : App) : bool := a_name a =s name.
Definition refers {A} (key : A → string) (l : list A) (v : option string) : bool :=
  match v with None => true | Some v => List.existsb (λ x, key x =s v) l end.

(** The foreign keys of a row of [apps]. *)
Definition app_refs (d : Db) (a : App) : bool :=
  refers tm_id (teams d) (a_team_id a) && refers sv_id (servers d) (a_server_id a) &&
  refers gs_id (git_sources d) (a_git_source_id a).

Definition insert (a : App) : aM unit :=
  checked (ErrAppDb "insert") (λ d,
    if List.existsb (λ x, app_is (a_id a) x || named (a_name a) x) (apps d) then inl ErrNameInUse
    else if app_refs d a then inr (on_apps (λ l, l ++ [a]) d, tt) else inl (ErrAppDb "insert")).

Definition found (row : option App) : aM App :=
  match row with None => throw ErrAppNotFound | Some a => mret a end.
Definition get (id : string) : aM App :=
  row ← query (ErrAppDb "get") (λ d, sel (app_is id) (apps d)); found row.
Definition getByName (name : string) : aM App :=
  row ← query (ErrAppDb "get") (λ d, sel (named name) (apps d)); found row.

(** [ORDER BY created_at ASC]. *)
Definition older (a b : App) : bool := (a_created_at a <=? a_created_at b)%Z.
Definition list_apps (serverID : string) : aM (list App) :=
  query (ErrAppDb "list") (λ d, sort_by older (List.filter (λ a, (serverID =s "") ||
    match a_server_id a with Some s => s =s serverID | None => false end) (apps d))).

(** ON DELETE CASCADE on domains, deployments, secrets, volumes and tags; a
    deployment of another app that rolls back to one of this app keeps the row. *)
Definition pins (id : string) (d : Db) : bool :=
  List.existsb (λ x, negb (dp_app_id x =s id) &&
    match dp_rollback_of x with
    | None => false
    | Some r => List.existsb (λ y, (dp_app_id y =s id) && (dp_id y =s r)) (deployments d)
    end) (deployments d).
Definition delete_app (id : string) (d : Db) : Db :=
  on_domains (del (λ x, bool_decide (d_app_id x = Some id)))
    (on_deployments (del (λ x, dp_app_id x =s id))
      (on_secrets (del (λ x, se_app_id x =s id))
        (on_app_volumes (del (λ x, v_app_id x =s id))
          (on_app_tags (del (λ x, ag_app_id x =s id))
            (on_apps (del (app_is id)) d))))).
Definition delete (id : string) : aM unit :=
  n ← checked (ErrAppDb "delete") (λ d,
        if List.existsb (app_is id) (apps d) && pins id d then inl (ErrAppDb "delete")
        else if List.existsb (app_is id) (apps d) then inr (delete_app id d, cnt (app_is id) (apps d))
        else inr (d, 0));
  if (n =? 0)%nat then throw ErrAppNotFound else mret tt.

Definition updateStatus (id status : string) : aM unit :=
  exec (ErrAppDb "update status") (on_apps (upd (app_is id) (set_app_status status))).

(** An UPDATE of some columns of one row, with its foreign keys. *)
Definition update_row (id : string) (f : App → App) : aM unit :=
  n ← checked (ErrAppDb "update") (λ d,
        if List.forallb (λ a, negb (app_is id a) || app_refs d (f a)) (apps d)
        then inr (on_apps (upd (app_is id) f) d, cnt (app_is id) (apps d)) else inl (ErrAppDb "update"));
  if (n =? 0)%nat then throw ErrAppNotFound else mret tt.

Definition set_env (env : gmap string string) : App → App :=
  apply_app_sets (mkAppSets None None None None None None None None None None None None None None None None None None
    None None None None None None None None None None None None None None None None None None None None None None None
    None None None None (Some env) None).
Definition updateEnvVars (id : string) (env : gmap string string) : aM unit := update_row id (set_env env).

Definition updateFields (id : string) (sets : AppSets) : aM App :=
  if sets_empty sets then get id else _ ← update_row id (apply_app_sets sets); get id.

(** ** The service *)

(** [TagLister]: the names of the tags of an app; reading them changes nothing. *)
Class TagLister := {
  ForApp : string → aM (list string);
  ForApp_reads : ∀ id d fs, (ForApp id d fs).1.1 = d;
}.

(** Whether git sources are wired, the answer of [DefaultLimits], and the tag
    service. *)
Record Service := mkService {
  sv_gitSrcs : bool;
  sv_defaults : option (string * string);
  sv_tags : option TagLister;
}.

Definition given (v : option string) : bool := negb (isBlankPtr v).

(** The sources a build type asks for. *)
Definition build_source (buildType : string) (inp : CreateInput) : AppErr + unit :=
  if buildType =s "dockerfile" then
    _ ← check (given (c_RepoURL inp) || given (c_DockerfileInline inp)) "invalid_build";
    check (negb (given (c_RepoURL inp) && given (c_DockerfileInline inp))) "invalid_build"
  else if buildType =s "docker_image" then check (given (c_ImageName inp)) "invalid_build"
  else if buildType =s "docker_compose" then
    _ ← check (given (c_RepoURL inp) || given (c_ComposeInline inp)) "invalid_build";
    check (negb (given (c_RepoURL inp) && given (c_ComposeInline inp))) "invalid_build"
  else inl (ErrInvalid "invalid_build_type").

Definition validateTeam (id : string) : aM unit :=
  n ← query (ErrAppDb "team") (λ d, cnt (λ t, tm_id t =s id) (teams d));
  of_result (check (negb (n =? 0)%nat) "invalid_team_id").

Definition getServer (id : string) : aM Server :=
  row ← query (ErrAppDb "server") (λ d, sel (λ s, sv_id s =s id) (servers d));
  match row with None => throw (ErrInvalid "invalid_server_id") | Some s => mret s end.

(** [gitSrcs.Get]. *)
Definition getSource (id : string) : aM unit :=
  row ← query (ErrAppDb "git source") (λ d, sel (λ s, gs_id s =s id) (git_sources d));
  match row with None => throw (ErrInvalid "invalid_git_source_id") | Some _ => mret tt end.

(** The limit of the input, or the instance default when it is blank. *)
Definition inherit (v : option string) (dflt : string) : option string :=
  if isBlankPtr v && negb (dflt =s "") then Some dflt else v.

Section Service.
Context `{Unicode} (svc : Service).

Definition limits_of (inp : CreateInput) : option string * option string :=
  match sv_defaults svc with
  | None => (c_LimitsMemory inp, c_LimitsCPUs inp)
  | Some (dm, dc) => (inherit (c_LimitsMemory inp) dm, inherit (c_LimitsCPUs inp) dc)
  end.

(** The checks of the values, in the order of the code. *)
Definition validate_values (inp : CreateInput) : AppErr + resolvedHealth :=
  let '(mem, cpus) := limits_of inp in
  _ ← validatePort (c_Port inp);
  _ ← validatePort (c_HostPort inp);
  _ ← validateLimits mem cpus;
  _ ← validateAdvancedLimits (c_LimitsMemorySwap inp) (c_LimitsMemoryReservation inp)
        (c_LimitsMemorySwappiness inp) (c_LimitsCPUSet inp) (c_LimitsCPUShares inp);
  _ ← validateEnvMap (default ∅ (c_EnvVars inp));
  _ ← validateRestartPolicy (or_default (c_RestartPolicy inp) "unless-stopped");
  _ ← validateDockerLabels (default ∅ (c_DockerLabels inp));
  h ← normaliseHealthCheck (c_HealthCheck inp);
  inr (Unwrap h).

Definition new_app (id : string) (now : Z) (name buildType : string) (srv : Server) (hc : resolvedHealth)
    (inp : CreateInput) : App :=
  let '(mem, cpus) := limits_of inp in
  let composeFile := TrimSpace (deref (c_ComposeFile inp)) in
  let composeFile := if (composeFile =s "") && (buildType =s "docker_compose") && is_none (c_ComposeInline inp)
                     then "docker-compose.yml" else composeFile in
  mkApp id name (strPtrOrNil (c_Description inp)) (trimmedPtr (c_TeamID inp)) (Some (sv_id srv))
    (trimmedPtr (c_GitSourceID inp)) (trimmedPtr (c_RepoURL inp)) (or_default (c_Branch inp) "main")
    (trimmedPtr (c_GitCommitSHA inp)) buildType (or_default (c_DockerfilePath inp) "Dockerfile")
    (or_default (c_BuildContext inp) ".") (trimmedPtr (c_DockerfileInline inp)) (strPtrOrNil composeFile)
    (trimmedPtr (c_ComposeInline inp)) (trimmedPtr (c_ImageName inp)) (or_default (c_ImageTag inp) "latest")
    (trimmedPtr (c_InstallCommand inp)) (trimmedPtr (c_BuildCommand inp)) (trimmedPtr (c_StartCommand inp))
    (trimmedPtr (c_PreDeployCommand inp)) (trimmedPtr (c_PostDeployCommand inp)) (c_Port inp) (c_HostPort inp)
    (Some name) (rh_Enabled hc) (rh_Path hc) (rh_Method hc) (rh_Port hc) (rh_ReturnCode hc) (rh_Interval hc)
    (rh_Timeout hc) (rh_Retries hc) (rh_StartPeriod hc) (trimmedPtr mem) (trimmedPtr cpus)
    (trimmedPtr (c_LimitsMemorySwap inp)) (c_LimitsMemorySwappiness inp) (trimmedPtr (c_LimitsMemoryReservation inp))
    (trimmedPtr (c_LimitsCPUSet inp)) (c_LimitsCPUShares inp) (or_default (c_RestartPolicy inp) "unless-stopped")
    (trimmedPtr (c_AutoDeployBranch inp)) (default true (c_BuildArgsInject inp))
    (default false (c_BuildArgsSourceCommit inp)) (default ∅ (c_DockerLabels inp)) (default ∅ (c_EnvVars inp))
    "idle" now.

Definition Create (id : string) (now : Z) (inp : CreateInput) : aM App :=
  let name := TrimSpace (c_Name inp) in
  let buildType := TrimSpace (c_BuildType inp) in
  _ ← of_result (check (negb ((len name <? 3)%Z || (50 <? len name)%Z)) "invalid_name");
  _ ← of_result (check (MatchString nameRegex name) "invalid_name");
  srv ← getServer (TrimSpace (c_ServerID inp));
  _ ← when (negb (sv_status srv =s "connected")) (throw (ErrServerNotConnected (sv_status srv)));
  _ ← match trimmedPtr (c_TeamID inp) with None => mret tt | Some t => validateTeam t end;
  _ ← of_result (build_source buildType inp);
  _ ← match trimmedPtr (c_GitSourceID inp) with
      | None => mret tt
      | Some g => if sv_gitSrcs svc then getSource g else throw (ErrInvalid "git_sources_disabled")
      end;
  hc ← of_result (validate_values inp);
  _ ← insert (new_app id now name buildType srv hc inp);
  get id.

(** Best effort: a failure leaves the list empty. *)
Definition populateTags (a : App) : aM (App * list string) :=
  match sv_tags svc with
  | None => mret (a, [])
  | Some t =>
    r ← attempt (ForApp (TagLister := t) (a_id a));
    mret (a, match r with inr names => names | inl _ => [] end)
  end.

Definition Get (idOrName : string) : aM (App * list string) :=
  let v := TrimSpace idOrName in
  if v =s "" then throw ErrAppNotFound
  else
    a ← (if MatchString uuidRegex v then get v else getByName v);
    populateTags a.

Fixpoint populate_all (l : list App) : aM (list (App * list string)) :=
  match l with
  | [] => mret []
  | a :: l => x ← populateTags a; xs ← populate_all l; mret (x :: xs)
  end.
Definition List_ (serverID : string) : aM (list (App * list string)) :=
  l ← list_apps (TrimSpace serverID); populate_all l.
Definition ListAll : aM (list App) := list_apps "".

(** *** Update: the columns of the patch *)

(** A column that holds NULL or a trimmed text. *)
Definition text_set (v : option string) : option (option string) := nullableString <$> v.
Definition clear_or {A} (clear : bool) (v : option (option A)) : option (option A) :=
  if clear then Some None else v.

Definition team_set (p : UpdatePatch) : aM (option (option string)) :=
  if p_ClearTeamID p then mret (Some None)
  else match p_TeamID p with
       | None => mret None
       | Some t => let t := TrimSpace t in
         if t =s "" then mret (Some None) else _ ← validateTeam t; mret (Some (Some t))
       end.

Definition source_set (p : UpdatePatch) : aM (option (option string)) :=
  if p_ClearGitSourceID p then mret (Some None)
  else match p_GitSourceID p with
       | None => mret None
       | Some g => let g := TrimSpace g in
         _ ← when (negb (g =s "") && sv_gitSrcs svc) (getSource g);
         mret (Some (if g =s "" then None else Some g))
       end.

Definition health_set (cur : App) (p : UpdatePatch) : AppErr + option resolvedHealth :=
  match p_HealthCheck p with
  | None => inr None
  | Some h => h ← normaliseHealthCheck (merge_health cur h); inr (Some (Unwrap h))
  end.

(** The checks of the patch, in the order of the code. *)
Definition validate_patch (cur : App) (p : UpdatePatch) : AppErr + option resolvedHealth :=
  _ ← match p_RestartPolicy p with
      | None => inr tt | Some v => validateRestartPolicy (or_default v "unless-stopped") end;
  _ ← match p_DockerLabels p with None => inr tt | Some m => validateDockerLabels m end;
  _ ← check (limit_ok memRegex (p_LimitsMemorySwap p)) "invalid_limits_memory_swap";
  _ ← check (limit_ok memRegex (p_LimitsMemoryReservation p)) "invalid_limits_memory_reservation";
  _ ← check (p_ClearMemorySwappiness p || within_ok 0 100 (p_LimitsMemorySwappiness p))
        "invalid_limits_memory_swappiness";
  _ ← check (limit_ok cpusetRegex (p_LimitsCPUSet p)) "invalid_limits_cpuset";
  _ ← check (p_ClearCPUShares p || within_ok 2 262144 (p_LimitsCPUShares p)) "invalid_limits_cpu_shares";
  _ ← validatePort (p_Port p);
  _ ← validatePort (p_HostPort p);
  _ ← check (limit_ok memRegex (p_LimitsMemory p)) "invalid_limits_memory";
  _ ← check (limit_ok cpuRegex (p_LimitsCPUs p)) "invalid_limits_cpus";
  h ← health_set cur p;
  _ ← match p_EnvVars p with None => inr tt | Some m => validateEnvMap m end;
  inr h.

Definition patch_sets (team source : option (option string)) (h : option resolvedHealth) (p : UpdatePatch) : AppSets :=
  mkAppSets None (text_set (p_Description p)) team None source (text_set (p_RepoURL p))
    ((λ v, or_default v "main") <$> p_Branch p) (text_set (p_GitCommitSHA p)) None
    ((λ v, or_default v "Dockerfile") <$> p_DockerfilePath p) ((λ v, or_default v ".") <$> p_BuildContext p)
    (text_set (p_DockerfileInline p)) (text_set (p_ComposeFile p)) (text_set (p_ComposeInline p))
    (text_set (p_ImageName p)) ((λ v, or_default v "latest") <$> p_ImageTag p) (text_set (p_InstallCommand p))
    (text_set (p_BuildCommand p)) (text_set (p_StartCommand p)) (text_set (p_PreDeployCommand p))
    (text_set (p_PostDeployCommand p)) (Some <$> p_Port p) (Some <$> p_HostPort p) None
    (rh_Enabled <$> h) (rh_Path <$> h) (rh_Method <$> h) (rh_Port <$> h) (rh_ReturnCode <$> h) (rh_Interval <$> h)
    (rh_Timeout <$> h) (rh_Retries <$> h) (rh_StartPeriod <$> h) (text_set (p_LimitsMemory p))
    (text_set (p_LimitsCPUs p)) (text_set (p_LimitsMemorySwap p))
    (clear_or (p_ClearMemorySwappiness p) (Some <$> p_LimitsMemorySwappiness p))
    (text_set (p_LimitsMemoryReservation p)) (text_set (p_LimitsCPUSet p))
    (clear_or (p_ClearCPUShares p) (Some <$> p_LimitsCPUShares p))
    ((λ v, or_default v "unless-stopped") <$> p_RestartPolicy p)
    (clear_or (p_ClearAutoDeployBranch p) (text_set (p_AutoDeployBranch p)))
    (p_BuildArgsInject p) (p_BuildArgsSourceCommit p) (p_DockerLabels p) (p_EnvVars p) None.

Definition Update (id : string) (p : UpdatePatch) : aM App :=
  cur ← get id;
  team ← team_set p;
  source ← source_set p;
  h ← of_result (validate_patch cur p);
  out ← updateFields id (patch_sets team source h p);
  if (a_status cur =s "unreachable") && negb (a_status out =s "unreachable")
  then _ ← updateStatus id "unreachable"; mret (set_app_status "unreachable" out)
  else mret out.

Definition SetEnvVars (id : string) (env : option (gmap string string)) : aM App :=
  let env := default ∅ env in
  _ ← of_result (validateEnvMap env);
  _ ← get id;
  _ ← updateEnvVars id env;
  get id.

(** *** Status, deletion *)

Definition Stop (id : string) : aM unit :=
  cur ← get id;
  if a_status cur =s "unreachable" then mret tt else updateStatus id "stopped".

Definition Delete (id : string) : aM unit := delete id.

Definition MarkUnreachable (id : string) : aM unit := updateStatus id "unreachable".

Definition SetStatus (id status : string) : aM unit :=
  cur ← get id;
  if (a_status cur =s "unreachable") && negb (status =s "running") then mret tt else updateStatus id status.

(** What the cleanup worker needs of a deleted app; a failed query leaves its
    list empty. *)
Record CleanupTargets := mkTargets { ct_Domains : list string; ct_DeploymentIDs : list string }.
Definition non_empty (s : string) : bool := negb (s =s "").
Definition GatherCleanupTargets (appID : string) : aM CleanupTargets :=
  doms ← attempt (query (ErrAppDb "domains") (λ d,
           d_name <$> List.filter (λ x, bool_decide (d_app_id x = Some appID)) (domains d)));
  deps ← attempt (query (ErrAppDb "deployments") (λ d,
           take (Z.to_nat 10000) (dp_id <$> List.filter (λ x, dp_app_id x =s appID) (deployments d))));
  let names r := match r with inr l => List.filter non_empty l | inl _ => [] end in
  mret (mkTargets (names doms) (names deps)).
End Service.

(** ** Well-formed rows *)

Definition stored_ok (r : re) (v : option string) : Prop := ∀ s, v = Some s → MatchString r s = true.
Definition not_blank (v : option string) : Prop := v ≠ Some "".

(** What every row of [apps] satisfies. *)
Record app_ok (a : App) : Prop := {
  ok_name : (3 <= len (a_name a) <= 50)%Z ∧ MatchString nameRegex (a_name a) = true;
  ok_build_type : a_build_type a ∈ ["dockerfile"; "docker_image"; "docker_compose"];
  ok_ports : within_ok 1 65535 (a_port a) = true ∧ within_ok 1 65535 (a_host_port a) = true ∧
    within_ok 1 65535 (a_health_check_port a) = true;
  ok_memory : stored_ok memRegex (a_limits_memory a) ∧ stored_ok memRegex (a_limits_memory_swap a) ∧
    stored_ok memRegex (a_limits_memory_reservation a);
  ok_cpu : stored_ok cpuRegex (a_limits_cpus a) ∧ stored_ok cpusetRegex (a_limits_cpuset a);
  ok_numbers : within_ok 0 100 (a_limits_memory_swappiness a) = true ∧
    within_ok 2 262144 (a_limits_cpu_shares a) = true;
  ok_keys : validateEnvMap (a_env_vars a) = inr tt ∧ validateDockerLabels (a_docker_labels a) = inr tt;
  ok_policy : a_restart_policy a ∈ validRestartPolicies;
  ok_method : a_health_check_method a ∈ ["GET"; "HEAD"];
  ok_health : (100 <= a_health_check_return_code a <= 599)%Z ∧ (1 <= a_health_check_timeout a <= 300)%Z ∧
    (1 <= a_health_check_retries a <= 10)%Z;
  ok_text : Forall not_blank [a_description a; a_team_id a; a_git_source_id a; a_repo_url a; a_git_commit_sha a;
    a_dockerfile_inline a; a_compose_file a; a_compose_inline a; a_image_name a; a_install_command a;
    a_build_command a; a_start_command a; a_pre_deploy_command a; a_post_deploy_command a; a_auto_deploy_branch a];
}.

Record apps_wf (d : Db) : Prop := {
  wf_rows : ∀ a, a ∈ apps d → app_ok a;
  wf_refs : ∀ a, a ∈ apps d → app_refs d a = true;
  wf_ids : NoDup (a_id <$> apps d);
  wf_names : NoDup (a_name <$> apps d);
}.

(** ** Inverting validations *)

Lemma check_inv b c u : check b c = inr u → b = true.
Proof. by destruct b. Qed.

Lemma result_bind_inv {E A B} (m : E + A) (k : A → E + B) b : mbind k m = inr b → ∃ a, m = inr a ∧ k a = inr b.
Proof. destruct m as [e|a]; [done|]. intros Hk. by exists a. Qed.

Ltac result_inv H :=
  repeat match type of H with
  | (mbind _ _ = inr _) => apply result_bind_inv in H as (? & ?Hv & H)
  end.

Lemma within_ok_spec lo hi n : within_ok lo hi (Some n) = true ↔ (lo <= n <= hi)%Z.
Proof. unfold within_ok. rewrite negb_true_iff, orb_false_iff, !Z.ltb_ge. lia. Qed.

Lemma trimmed_stored r v : limit_ok r v = true → stored_ok r (trimmedPtr v).
Proof.
  intros Hl s Hs. destruct v as [v|]; [|done]. simpl in Hs, Hl. destruct (TrimSpace v =s ""); [done|]. by injection Hs as <-.
Qed.

Lemma trimmed_not_blank v : not_blank (trimmedPtr v).
Proof. destruct v as [v|]; simpl; [|done]. destruct (TrimSpace v =s "") eqn:E; [done|]. intros [= E']. by rewrite E' in E. Qed.

Lemma policy_inv p u : validateRestartPolicy p = inr u → p ∈ validRestartPolicies.
Proof. intros (q & Hq & Eq)%check_inv%existsb_witness. apply String.eqb_eq in Eq. by subst. Qed.

(** What a normalised health check satisfies. *)
Definition health_ok (h : resolvedHealth) : Prop :=
  rh_Method h ∈ ["GET"; "HEAD"] ∧ (100 <= rh_ReturnCode h <= 599)%Z ∧ (1 <= rh_Timeout h <= 300)%Z ∧
  (1 <= rh_Retries h <= 10)%Z ∧ within_ok 1 65535 (rh_Port h) = true ∧ rh_Path h ≠ "".

Lemma normalise_ok `{Unicode} h h' : normaliseHealthCheck h = inr h' → health_ok (Unwrap h').
Proof.
  intros Hn. unfold normaliseHealthCheck in Hn. result_inv Hn. injection Hn as <-. unfold validatePort in *.
  repeat match goal with H : check _ _ = inr _ |- _ => apply check_inv in H end.
  repeat match goal with H : within_ok _ _ (Some _) = true |- _ => apply within_ok_spec in H end.
  unfold health_ok. simpl. split_and!; try lia; try done.
  - match goal with H : _ || _ = true |- _ => apply orb_true_iff in H as [E|E]; apply String.eqb_eq in E; rewrite E end; set_solver.
  - destruct (h_Path h =s "") eqn:E; [done|]. by apply String.eqb_neq in E.
Qed.

Lemma health_set_ok `{Unicode} cur p h : health_set cur p = inr (Some h) → health_ok h.
Proof.
  unfold health_set. destruct (p_HealthCheck p); [|done]. intros Hn. result_inv Hn. injection Hn as <-.
  by eapply normalise_ok.
Qed.

Section Wf.
Context `{Unicode} (svc : Service).

(** Turns the checks in the context into their conditions. *)
Ltac checks :=
  unfold validatePort, validateLimits, validateAdvancedLimits in *;
  repeat match goal with
  | H : mbind _ _ = inr _ |- _ => progress result_inv H
  | H : check _ _ = inr _ |- _ => apply check_inv in H
  | H : validateRestartPolicy _ = inr _ |- _ => apply policy_inv in H
  | x : unit |- _ => destruct x
  end.

Lemma build_source_type bt inp u : build_source bt inp = inr u → bt ∈ ["dockerfile"; "docker_image"; "docker_compose"].
Proof.
  unfold build_source. destruct (bt =s _) eqn:E1; [apply String.eqb_eq in E1; subst; set_solver|].
  destruct (bt =s "docker_image") eqn:E2; [apply String.eqb_eq in E2; subst; set_solver|].
  destruct (bt =s "docker_compose") eqn:E3; [apply String.eqb_eq in E3; subst; set_solver|done].
Qed.

Lemma new_app_ok id now name bt srv hc inp :
  (3 <= len name <= 50)%Z → MatchString nameRegex name = true → build_source bt inp = inr tt →
  validate_values svc inp = inr hc → app_ok (new_app svc id now name bt srv hc inp).
Proof.
  intros Hlen Hname Hbt%build_source_type Hv. unfold validate_values, new_app in *. destruct (limits_of svc inp) as [mem cpus].
  result_inv Hv. injection Hv as <-.
  match goal with H : normaliseHealthCheck _ = inr _ |- _ => apply normalise_ok in H as (? & ? & ? & ? & ? & ?) end.
  simpl in *. checks. split; simpl; split_and?; try done; try lia; try by apply trimmed_stored.
  rewrite !Forall_cons. split_and!; try apply trimmed_not_blank. constructor.
Qed.

Lemma set_default (P : option string → Prop) old v :
  P old → P (trimmedPtr v) → P (default old (text_set v)).
Proof. destruct v; simpl; auto. Qed.

Lemma set_stored r old v : stored_ok r old → limit_ok r v = true → stored_ok r (default old (text_set v)).
Proof. intros. apply set_default; [done|by apply trimmed_stored]. Qed.

Lemma set_within lo hi old v clear : within_ok lo hi old = true → (clear || within_ok lo hi v) = true →
  within_ok lo hi (default old (clear_or clear (Some <$> v))) = true.
Proof. destruct clear; simpl; [done|]. by destruct v. Qed.

(** The columns a patch may write for team and source. *)
Definition ref_set (v : option (option string)) : Prop := v ≠ Some (Some "").

Lemma patch_ok cur p team source h a :
  validate_patch cur p = inr h → ref_set team → ref_set source → app_ok a →
  app_ok (apply_app_sets (patch_sets team source h p) a).
Proof.
  intros Hv Ht Hs [O1 O2 (O3 & O4 & O5) (O6 & O7 & O8) (O9 & O10) (O11 & O12) (O13 & O14) O15 O16 (O17 & O18 & O19) O20].
  unfold validate_patch in Hv. result_inv Hv. injection Hv as ->. checks.
  assert (Hh : ∀ h', h = Some h' → health_ok h') by (intros h' ->; by eapply health_set_ok).
  rewrite !Forall_cons in O20. destruct O20 as (? & ? & ? & ? & ? & ? & ? & ? & ? & ? & ? & ? & ? & ? & ? & _).
  split; simpl; try done.
  - split_and!; [by destruct (p_Port p)|by destruct (p_HostPort p)|]. destruct h as [h|]; simpl; [|done].
    by destruct (Hh h) as (_ & _ & _ & _ & ? & _).
  - split_and!; by apply set_stored.
  - split; by apply set_stored.
  - split; by apply set_within.
  - by destruct (p_EnvVars p), (p_DockerLabels p).
  - destruct (p_RestartPolicy p); simpl; [|done]. by eapply policy_inv.
  - destruct h as [h|]; simpl; [|done]. by destruct (Hh h).
  - destruct h as [h|]; simpl; [|done]. by destruct (Hh h) as (_ & ? & ? & ? & _).
  - assert (Hc : ∀ clear old v, not_blank old → not_blank (default old (clear_or clear (text_set v)))).
    { intros [] old v Ho; simpl; [done|]. apply (set_default not_blank); [done|apply trimmed_not_blank]. }
    rewrite !Forall_cons. split_and!; try (apply (set_default not_blank); [done|apply trimmed_not_blank]); try constructor.
    + destruct team as [t|]; simpl; [|done]. intros ->. by apply Ht.
    + destruct source as [t|]; simpl; [|done]. intros ->. by apply Hs.
    + by apply Hc.
Qed.
End Wf.

(** ** Every operation keeps the rows well formed *)

Lemma app_refs_ext d d' a : teams d' = teams d → servers d' = servers d → git_sources d' = git_sources d →
  app_refs d' a = app_refs d a.
Proof. unfold app_refs. by intros -> -> ->. Qed.

Lemma set_app_status_ok st a : app_ok a → app_ok (set_app_status st a).
Proof. by intros [? ? ? ? ? ? ? ? ? ? ?]. Qed.

Lemma upd_wf (p : App → bool) f d : apps_wf d → (∀ a, a ∈ apps d → p a = true → app_ok (f a)) →
  (∀ a, a_id (f a) = a_id a ∧ a_name (f a) = a_name a) →
  (∀ a, a ∈ apps d → p a = true → app_refs d (f a) = true) → apps_wf (on_apps (upd p f) d).
Proof.
  intros [H1 H2 H3 H4] Hf Hk Hr. split; simpl.
  - intros a (x & Hx & ->)%elem_of_upd. destruct (p x) eqn:E; auto.
  - intros a (x & Hx & ->)%elem_of_upd. rewrite (app_refs_ext d) by done. destruct (p x) eqn:E; auto.
  - change (NoDup (List.map a_id (upd p f (apps d)))). rewrite map_upd; [done|]. intros x. apply Hk.
  - change (NoDup (List.map a_name (upd p f (apps d)))). rewrite map_upd; [done|]. intros x. apply Hk.
Qed.

Lemma status_wf id st d : apps_wf d → apps_wf (on_apps (upd (app_is id) (set_app_status st)) d).
Proof. intros Hwf. apply upd_wf; [done| |done|]; intros a Ha _; [by apply set_app_status_ok, Hwf|].
  exact (wf_refs d Hwf a Ha). Qed.

Lemma del_wf id d : apps_wf d → apps_wf (delete_app id d).
Proof.
  intros [H1 H2 H3 H4]. split; simpl.
  - intros a [Ha _]%elem_of_del. auto.
  - intros a [Ha _]%elem_of_del. rewrite (app_refs_ext d) by done. auto.
  - by apply NoDup_fmap_filter.
  - by apply NoDup_fmap_filter.
Qed.

Lemma insert_wf a : app_ok a → preserves apps_wf (insert a).
Proof.
  intros Hok. apply preserves_checked. intros d [H1 H2 H3 H4].
  destruct (List.existsb _ (apps d)) eqn:E; [done|]. destruct (app_refs d a) eqn:R; [|done].
  assert (Hnew : ∀ x, x ∈ apps d → a_id x ≠ a_id a ∧ a_name x ≠ a_name a).
  { intros x Hx. pose proof (existsb_false_elem _ _ x E Hx) as Hf. unfold app_is, named in Hf. bool_simp. done. }
  split; simpl.
  - intros x [Hx| ->%list_elem_of_singleton]%elem_of_app; auto.
  - intros x [Hx| ->%list_elem_of_singleton]%elem_of_app; rewrite (app_refs_ext d) by done; auto.
  - rewrite fmap_app. apply NoDup_snoc; [done|]. intros (x & Hx & Hin)%list_elem_of_fmap. by destruct (Hnew x).
  - rewrite fmap_app. apply NoDup_snoc; [done|]. intros (x & Hx & Hin)%list_elem_of_fmap. by destruct (Hnew x).
Qed.

Lemma get_wf I id : preserves I (get id).
Proof. apply preserves_bind; [apply preserves_query|]. intros [a|]; [apply preserves_ret|apply preserves_throw]. Qed.

Lemma getByName_wf I name : preserves I (getByName name).
Proof. apply preserves_bind; [apply preserves_query|]. intros [a|]; [apply preserves_ret|apply preserves_throw]. Qed.

Lemma update_row_wf id f : (∀ a, app_ok a → app_ok (f a)) → (∀ a, a_id (f a) = a_id a ∧ a_name (f a) = a_name a) →
  preserves apps_wf (update_row id f).
Proof.
  intros Hf Hk. apply preserves_bind.
  - apply preserves_checked. intros d Hwf. destruct (List.forallb _ _) eqn:E; [|done].
    apply upd_wf; [done| |done|]; intros a Ha Hid; [by apply Hf, Hwf|].
    rewrite forallb_forall in E. specialize (E a). rewrite Hid in E. apply E. by apply list_elem_of_In.
  - intros n. destruct (n =? 0)%nat; [apply preserves_throw|apply preserves_ret].
Qed.

Lemma status_preserves id st : preserves apps_wf (updateStatus id st).
Proof. apply preserves_exec. intros d. apply status_wf. Qed.

Create HintDb app_wf.
#[export] Hint Resolve get_wf status_preserves preserves_ret preserves_throw preserves_query preserves_of_result
  preserves_attempt : app_wf.
#[export] Hint Extern 1 (preserves _ (mret _)) => apply preserves_ret : app_wf.

Lemma reads_keep {A} I (m : aM A) : (∀ d fs, (m d fs).1.1 = d) → preserves I m.
Proof. intros Hm d Hd fs. by rewrite Hm. Qed.

Lemma validateTeam_reads I t : preserves I (validateTeam t).
Proof. apply preserves_bind; auto with app_wf. Qed.
Lemma getSource_reads I g : preserves I (getSource g).
Proof. apply preserves_bind; [apply preserves_query|]. intros []; auto with app_wf. Qed.
Lemma getServer_reads I g : preserves I (getServer g).
Proof. apply preserves_bind; [apply preserves_query|]. intros []; auto with app_wf. Qed.
#[export] Hint Resolve validateTeam_reads getSource_reads getServer_reads : app_wf.

Lemma create_wf `{Unicode} svc id now inp : preserves apps_wf (Create svc id now inp).
Proof.
  intros d Hd. unfold Create. apply wp_bind, wp_of_result. destruct (check _ _) as [e|[]] eqn:H1; [done|].
  apply check_inv in H1. apply wp_bind, wp_of_result. destruct (check (MatchString _ _) _) as [e|[]] eqn:H2; [done|].
  apply check_inv in H2. apply (wp_keep apps_wf); [auto with app_wf|done|done|]. intros d1 srv Hd1.
  apply (wp_keep apps_wf); [apply preserves_when; auto with app_wf|done|done|]. intros d2 _ Hd2.
  apply (wp_keep apps_wf); [destruct (trimmedPtr _); auto with app_wf|done|done|]. intros d3 _ Hd3.
  apply wp_bind, wp_of_result. destruct (build_source _ _) as [e|[]] eqn:H3; [done|].
  apply (wp_keep apps_wf); [destruct (trimmedPtr (c_GitSourceID inp)); [destruct (sv_gitSrcs svc)|]; auto with app_wf|done|done|].
  intros d4 _ Hd4. apply wp_bind, wp_of_result. destruct (validate_values svc inp) as [e|hc] eqn:H4; [done|].
  apply (wp_keep apps_wf); [|done|done|intros d5 _ Hd5; by apply get_wf].
  apply insert_wf, new_app_ok; [|done..]. bool_simp. lia.
Qed.

Lemma team_set_ok p : returns ref_set (team_set p).
Proof.
  unfold team_set. destruct (p_ClearTeamID p); [by apply returns_ret|]. destruct (p_TeamID p) as [t|]; [|by apply returns_ret].
  cbv zeta. destruct (TrimSpace t =s "") eqn:E; [by apply returns_ret|]. apply returns_bind. intros _. apply returns_ret.
  intros [= E']. by rewrite E' in E.
Qed.

Lemma source_set_ok svc p : returns ref_set (source_set svc p).
Proof.
  unfold source_set. destruct (p_ClearGitSourceID p); [by apply returns_ret|].
  destruct (p_GitSourceID p) as [t|]; [|by apply returns_ret]. apply returns_bind. intros _. apply returns_ret.
  destruct (TrimSpace t =s "") eqn:E; [done|]. intros [= E']. by rewrite E' in E.
Qed.

Lemma team_set_reads I p : preserves I (team_set p).
Proof.
  unfold team_set. destruct (p_ClearTeamID p); [auto with app_wf|]. destruct (p_TeamID p); [|auto with app_wf]. cbv zeta.
  destruct (_ =s _); [auto with app_wf|]. apply preserves_bind; auto with app_wf.
Qed.

Lemma source_set_reads svc I p : preserves I (source_set svc p).
Proof.
  unfold source_set. destruct (p_ClearGitSourceID p); [auto with app_wf|]. destruct (p_GitSourceID p); [|auto with app_wf].
  apply preserves_bind; [apply preserves_when|]; auto with app_wf.
Qed.

(** A read whose answer satisfies [P]. *)
Lemma wp_read {A B} I (P : A → Prop) (m : aM A) (k : A → aM B) (Q : Db → AppErr + B → Prop) d :
  preserves I m → returns P m → I d → (∀ d' e, I d' → Q d' (inl e)) → (∀ d' a, I d' → P a → wp (k a) Q d') →
  wp (mbind k m) Q d.
Proof.
  intros Hm HP Hd He Hk. apply wp_bind. eapply wp_mono; [apply wp_and; [by apply Hm|apply HP]|].
  intros d' [e|a] [Hd' Ha]; auto.
Qed.

Lemma update_wf `{Unicode} svc id p : preserves apps_wf (Update svc id p).
Proof.
  intros d Hd. apply (wp_keep apps_wf); [auto with app_wf|done|done|]. intros d1 cur Hd1.
  apply (wp_read apps_wf ref_set); [apply team_set_reads|apply team_set_ok|done|done|]. intros d2 team Hd2 Ht.
  apply (wp_read apps_wf ref_set); [apply source_set_reads|apply source_set_ok|done|done|]. intros d3 source Hd3 Hs.
  apply wp_bind, wp_of_result. destruct (validate_patch cur p) as [e|h] eqn:Hv; [done|].
  apply (wp_keep apps_wf); [|done|done|].
  - unfold updateFields. destruct (sets_empty _); [auto with app_wf|]. apply preserves_bind; [|auto with app_wf].
    apply update_row_wf; [|done]. intros a. by eapply patch_ok.
  - intros d4 out Hd4. destruct (_ && _); [|by apply preserves_ret]. apply (preserves_bind apps_wf); auto with app_wf.
Qed.

Lemma set_env_wf id env : preserves apps_wf (SetEnvVars id env).
Proof.
  intros d Hd. unfold SetEnvVars. apply wp_bind, wp_of_result. destruct (validateEnvMap _) as [e|[]] eqn:Hv; [done|].
  revert d Hd. change (preserves apps_wf (_ ← get id; _ ← updateEnvVars id (default ∅ env); get id)).
  apply preserves_bind; [auto with app_wf|]. intros _. apply preserves_bind; [|auto with app_wf].
  apply update_row_wf; [|done]. intros a [? ? ? ? ? ? [? ?] ? ? ? ?]. by split.
Qed.

Lemma status_ops_wf id st : preserves apps_wf (Stop id) ∧ preserves apps_wf (SetStatus id st) ∧
  preserves apps_wf (MarkUnreachable id) ∧ preserves apps_wf (Delete id).
Proof.
  split_and!.
  - apply preserves_bind; [auto with app_wf|]. intros a. destruct (_ =s _); auto with app_wf.
  - apply preserves_bind; [auto with app_wf|]. intros a. destruct (_ && _); auto with app_wf.
  - apply status_preserves.
  - apply preserves_bind.
    + apply preserves_checked. intros d Hwf. destruct (_ && _); [done|]. destruct (List.existsb _ _); [by apply del_wf|done].
    + intros n. destruct (n =? 0)%nat; auto with app_wf.
Qed.

(** ** Histories *)

Inductive call :=
  | CCreate (id : string) (now : Z) (inp : CreateInput)
  | CUpdate (id : string) (p : UpdatePatch)
  | CSetEnvVars (id : string) (env : option (gmap string string))
  | CStop (id : string)
  | CDelete (id : string)
  | CMarkUnreachable (id : string)
  | CSetStatus (id status : string).

Section History.
Context `{Unicode} (svc : Service).

Definition done_ {A} (m : aM A) : aM unit := _ ← m; mret tt.
Definition serve (c : call) : aM unit :=
  match c with
  | CCreate id now inp => done_ (Create svc id now inp)
  | CUpdate id p => done_ (Update svc id p)
  | CSetEnvVars id env => done_ (SetEnvVars id env)
  | CStop id => Stop id
  | CDelete id => Delete id
  | CMarkUnreachable id => MarkUnreachable id
  | CSetStatus id st => SetStatus id st
  end.

(** The calls of a history, each with its faults. *)
Definition history (l : list (call * list bool)) (d : Db) : Db :=
  foldl (λ d c, (serve c.1 d c.2).1.1) d l.

Lemma done_preserves {A} I (m : aM A) : preserves I m → preserves I (done_ m).
Proof. intros Hm. apply preserves_bind; [done|]. intros _. apply preserves_ret. Qed.

Lemma serve_wf c : preserves apps_wf (serve c).
Proof.
  destruct c as [id now inp|id p|id env|id|id|id|id st]; simpl.
  - by apply done_preserves, create_wf.
  - by apply done_preserves, update_wf.
  - by apply done_preserves, set_env_wf.
  - apply (status_ops_wf id "").
  - apply (status_ops_wf id "").
  - apply (status_ops_wf id "").
  - apply (status_ops_wf id st).
Qed.

(** C23: Every row of the apps table stays well formed along every history of
    service calls, whatever fails in them: names, ports, limits, keys, health
    checks and restart policies are in their ranges, ids and names are unique,
    and servers, teams and git sources exist. *)
Theorem apps_typed l d : apps_wf d → apps_wf (history l d).
Proof.
  revert d. induction l as [|[c fs] l IH]; intros d Hd; [done|]. apply IH. exact (serve_wf c d Hd fs).
Qed.

(** What survives any new row, any change of a row that keeps its id, and any
    deletion with its cascades survives every call. *)
Lemma serve_keeps (I : Db → Prop) c :
  (∀ d a, I d → I (on_apps (λ l, l ++ [a]) d)) →
  (∀ d id f, (∀ a, a_id (f a) = a_id a) → I d → I (on_apps (upd (app_is id) f) d)) →
  (∀ d id, I d → I (delete_app id d)) → preserves I (serve c).
Proof.
  intros Hins Hupd Hdel.
  assert (Hst : ∀ x st, preserves I (updateStatus x st)) by (intros; apply preserves_exec; intros; by apply Hupd).
  assert (Hrow : ∀ x f, (∀ a, a_id (f a) = a_id a) → preserves I (update_row x f)).
  { intros x f Hf. apply preserves_bind; [|intros n; destruct (n =? 0)%nat; auto with app_wf].
    apply preserves_checked. intros d Hd. destruct (List.forallb _ _); [by apply Hupd|done]. }
  destruct c as [x now inp|x p|x env|x|x|x|x st]; simpl.
  - apply done_preserves. unfold Create. do 2 (apply preserves_bind; [apply preserves_of_result|intros _]).
    apply preserves_bind; [auto with app_wf|]. intros srv.
    apply preserves_bind; [apply preserves_when; auto with app_wf|]. intros _.
    apply preserves_bind; [destruct (trimmedPtr _); auto with app_wf|]. intros _.
    apply preserves_bind; [apply preserves_of_result|]. intros _.
    apply preserves_bind; [destruct (trimmedPtr (c_GitSourceID inp)); [destruct (sv_gitSrcs svc)|]; auto with app_wf|]. intros _.
    apply preserves_bind; [apply preserves_of_result|]. intros hc. apply preserves_bind; [|auto with app_wf].
    apply preserves_checked. intros d Hd. destruct (List.existsb _ _); [done|]. destruct (app_refs _ _); [by apply Hins|done].
  - apply done_preserves. apply preserves_bind; [auto with app_wf|]. intros cur.
    apply preserves_bind; [apply team_set_reads|]. intros team. apply preserves_bind; [apply source_set_reads|]. intros source.
    apply preserves_bind; [apply preserves_of_result|]. intros h. apply preserves_bind.
    + unfold updateFields. destruct (sets_empty _); [auto with app_wf|]. apply preserves_bind; [by apply Hrow|auto with app_wf].
    + intros out. destruct (_ && _); [|auto with app_wf]. apply preserves_bind; auto with app_wf.
  - apply done_preserves. apply preserves_bind; [auto with app_wf|]. intros _. apply preserves_bind; [auto with app_wf|].
    intros _. apply preserves_bind; [by apply Hrow|auto with app_wf].
  - apply preserves_bind; [auto with app_wf|]. intros a. destruct (_ =s _); auto with app_wf.
  - apply preserves_bind; [|intros n; destruct (n =? 0)%nat; auto with app_wf].
    apply preserves_checked. intros d Hd. destruct (_ && _); [done|]. destruct (List.existsb _ _); [by apply Hdel|done].
  - apply Hst.
  - apply preserves_bind; [auto with app_wf|]. intros a. destruct (_ && _); auto with app_wf.
Qed.

(** ** The unreachable status *)

(** The app is there, and the status loop holds it unreachable. *)
Definition held (id : string) (d : Db) : Prop :=
  (∃ a, a ∈ apps d ∧ a_id a = id) ∧ ∀ a, a ∈ apps d → a_id a = id → a_status a = "unreachable".

Lemma held_upd id x f d : held id d → (∀ a, a_id (f a) = a_id a ∧ (a_id a = id → x = id → a_status (f a) = a_status a)) →
  held id (on_apps (upd (app_is x) f) d).
Proof.
  intros [(a & Ha & E) Hs] Hf. split; simpl.
  - exists (if app_is x a then f a else a). split; [apply elem_of_upd; by exists a|]. destruct (app_is x a); [|done].
    by rewrite (proj1 (Hf a)).
  - intros b (y & Hy & ->)%elem_of_upd. destruct (app_is x y) eqn:Ex; [|by apply Hs]. rewrite (proj1 (Hf y)). intros Ey.
    rewrite (proj2 (Hf y)); [by apply Hs|done|]. apply String.eqb_eq in Ex. congruence.
Qed.

Lemma held_status id x st : x ≠ id ∨ st = "unreachable" → preserves (held id) (updateStatus x st).
Proof.
  intros Hx. apply preserves_exec. intros d [(a & Ha & E) Hs]. split; simpl.
  - exists (if app_is x a then set_app_status st a else a). split; [apply elem_of_upd; by exists a|]. by destruct (app_is x a).
  - intros b (y & Hy & ->)%elem_of_upd. destruct (app_is x y) eqn:Ex; [|by apply Hs]. simpl. intros Ey.
    apply String.eqb_eq in Ex. destruct Hx as [Hx| ->]; [congruence|done].
Qed.

Lemma held_get id x (k : App → aM unit) :
  (∀ a, x ≠ id ∨ a_status a = "unreachable" → preserves (held id) (k a)) → preserves (held id) (a ← get x; k a).
Proof.
  intros Hk d Hd. apply wp_bind. unfold get, found. apply wp_bind, wp_query; [done|].
  destruct (sel (app_is x) (apps d)) as [a|] eqn:E; [|by apply wp_throw]. apply wp_ret. apply Hk; [|done].
  apply sel_Some in E as [Ha E]. apply String.eqb_eq in E. destruct (decide (x = id)) as [->|]; [right; by apply Hd|by left].
Qed.

Lemma held_row id x f : (∀ a, a_id (f a) = a_id a ∧ a_status (f a) = a_status a) → preserves (held id) (update_row x f).
Proof.
  intros Hf. apply preserves_bind.
  - apply preserves_checked. intros d Hd. destruct (List.forallb _ _); [|done]. apply held_upd; [done|].
    intros a. destruct (Hf a). by split.
  - intros n. destruct (n =? 0)%nat; auto with app_wf.
Qed.

Lemma held_create id x now inp : preserves (held id) (Create svc x now inp).
Proof.
  unfold Create. do 2 (apply preserves_bind; [apply preserves_of_result|intros _]).
  apply preserves_bind; [auto with app_wf|]. intros srv.
  apply preserves_bind; [apply preserves_when; auto with app_wf|]. intros _.
  apply preserves_bind; [destruct (trimmedPtr _); auto with app_wf|]. intros _.
  apply preserves_bind; [apply preserves_of_result|]. intros _.
  apply preserves_bind; [destruct (trimmedPtr (c_GitSourceID inp)); [destruct (sv_gitSrcs svc)|]; auto with app_wf|]. intros _.
  apply preserves_bind; [apply preserves_of_result|]. intros hc. apply preserves_bind; [|auto with app_wf].
  apply preserves_checked. intros d [(a & Ha & E) Hs]. destruct (List.existsb _ (apps d)) eqn:Ex; [done|].
  destruct (app_refs _ _); [|done]. split; simpl; [exists a; set_solver|].
  intros b [Hb| ->%list_elem_of_singleton]%elem_of_app Eb; [by apply Hs|].
  pose proof (existsb_false_elem _ _ a Ex Ha) as Hf. unfold app_is in Hf. bool_simp.
  unfold new_app in *. destruct (limits_of svc inp). simpl in *. congruence.
Qed.

Lemma held_update id x p : preserves (held id) (Update svc x p).
Proof.
  apply preserves_bind; [auto with app_wf|]. intros cur.
  apply preserves_bind; [apply team_set_reads|]. intros team. apply preserves_bind; [apply source_set_reads|]. intros source.
  apply preserves_bind; [apply preserves_of_result|]. intros h. apply preserves_bind.
  - unfold updateFields. destruct (sets_empty _); [auto with app_wf|]. apply preserves_bind; [by apply held_row|auto with app_wf].
  - intros out. destruct (_ && _); [|auto with app_wf]. apply preserves_bind; [apply held_status; by right|auto with app_wf].
Qed.

Lemma held_delete id x : x ≠ id → preserves (held id) (Delete x).
Proof.
  intros Hx. apply preserves_bind; [|intros n; destruct (n =? 0)%nat; auto with app_wf].
  apply preserves_checked. intros d [(a & Ha & E) Hs]. destruct (_ && _); [done|]. destruct (List.existsb _ _); [|by split; [exists a|]].
  split; simpl; [exists a; split; [|done]|intros b [Hb _]%elem_of_del; by apply Hs].
  apply elem_of_del. split; [done|]. unfold app_is. apply String.eqb_neq. congruence.
Qed.

Lemma serve_held id c : c ≠ CSetStatus id "running" → c ≠ CDelete id → preserves (held id) (serve c).
Proof.
  intros H1 H2. destruct c as [x now inp|x p|x env|x|x|x|x st]; simpl.
  - apply done_preserves, held_create.
  - apply done_preserves, held_update.
  - apply done_preserves. apply preserves_bind; [auto with app_wf|]. intros _. apply preserves_bind; [auto with app_wf|].
    intros _. apply preserves_bind; [by apply held_row|auto with app_wf].
  - apply held_get. intros a Ha. destruct (a_status a =s "unreachable") eqn:E; [auto with app_wf|]. apply held_status.
    left. destruct Ha as [?|Ha]; [done|]. by rewrite Ha in E.
  - apply held_delete. congruence.
  - apply held_status. by right.
  - apply held_get. intros a Ha. destruct (_ && _) eqn:E; [auto with app_wf|]. apply held_status. left.
    destruct Ha as [?|Ha]; [done|]. rewrite Ha in E. simpl in E. bool_simp. congruence.
Qed.

(** Once the status loop has marked an app unreachable, no call of the
    service changes that, whatever fails: only a deploy that reports the app
    running again does, or its deletion. *)
Theorem unreachable_sticky id l d :
  (∀ c fs, (c, fs) ∈ l → c ≠ CSetStatus id "running" ∧ c ≠ CDelete id) → held id d → held id (history l d).
Proof.
  revert d. induction l as [|[c fs] l IH]; intros d Hl Hd; [done|]. apply IH; [intros c' fs' Hc; apply (Hl c' fs'); by right|].
  destruct (Hl c fs) as [H1 H2]; [left|]. exact (serve_held id c H1 H2 d Hd fs).
Qed.
End History.

(** ** What each call writes *)

Section Effects.
Context `{Unicode} (svc : Service).

Definition is_some_s (v : option string) : bool := negb (is_none v).

(** The source of the build, as Create leaves it. *)
Definition one_source (a : App) : Prop :=
  (a_build_type a = "dockerfile" → is_some_s (a_repo_url a) = negb (is_some_s (a_dockerfile_inline a))) ∧
  (a_build_type a = "docker_image" → is_some_s (a_image_name a) = true) ∧
  (a_build_type a = "docker_compose" → is_some_s (a_repo_url a) = negb (is_some_s (a_compose_inline a))).

Lemma given_trimmed v : is_some_s (trimmedPtr v) = given v.
Proof. destruct v as [v|]; [|done]. unfold given. simpl. by destruct (TrimSpace v =s ""). Qed.

Lemma new_app_source id now name bt srv hc inp : build_source bt inp = inr tt → one_source (new_app svc id now name bt srv hc inp).
Proof.
  unfold one_source, new_app. destruct (limits_of svc inp) as [mem cpus]. simpl. rewrite !given_trimmed. intros Hb.
  split_and!; intros ->; cbn in Hb; result_inv Hb;
    repeat match goal with H : check _ _ = inr _ |- _ => apply check_inv in H end; [|done|];
    destruct (given (c_RepoURL inp)); simpl in *; bool_simp; try done; by destruct (given _).
Qed.

Lemma sel_snoc_new id d a : List.existsb (λ x, app_is id x || named (a_name a) x) (apps d) = false → a_id a = id →
  sel (app_is id) (apps d ++ [a]) = Some a.
Proof.
  intros Hn Ha. rewrite sel_app. destruct (sel (app_is id) (apps d)) as [x|] eqn:E.
  - apply sel_Some in E as [Hx E]. pose proof (existsb_false_elem _ _ x Hn Hx) as Hf. cbv beta in Hf. by rewrite E in Hf.
  - unfold sel. simpl. unfold app_is. by rewrite Ha, String.eqb_refl.
Qed.

(** Create either fails and changes nothing, or adds exactly the row the
    input describes, on a connected server, under a name that was free and with
    one source to build from; the error that can still follow is that of
    reading the row back. *)
Theorem create_effect id now inp d :
  wp (Create svc id now inp) (λ d' r,
    (d' = d ∧ is_Some (match r with inl e => Some e | inr _ => None end)) ∨
    ∃ srv hc, srv ∈ servers d ∧ sv_id srv = TrimSpace (c_ServerID inp) ∧ sv_status srv = "connected" ∧
      let a := new_app svc id now (TrimSpace (c_Name inp)) (TrimSpace (c_BuildType inp)) srv hc inp in
      app_ok a ∧ one_source a ∧ (∀ x, x ∈ apps d → a_id x ≠ id ∧ a_name x ≠ a_name a) ∧
      d' = on_apps (λ l, l ++ [a]) d ∧ (r = inr a ∨ r = inl (ErrAppDb "get"))) d.
Proof.
  unfold Create. apply wp_bind, wp_of_result. destruct (check _ _) as [e|[]] eqn:H1; [by left|]. apply check_inv in H1.
  apply wp_bind, wp_of_result. destruct (check (MatchString _ _) _) as [e|[]] eqn:H2; [by left|]. apply check_inv in H2.
  apply wp_bind. unfold getServer. apply wp_bind, wp_query; [by left|].
  destruct (sel _ (servers d)) as [srv|] eqn:Es; [apply wp_ret|by apply wp_throw; left].
  apply sel_Some in Es as [Hs Es]. apply String.eqb_eq in Es.
  apply wp_bind. unfold when. destruct (negb (sv_status srv =s "connected")) eqn:Ec; [by apply wp_throw; left|apply wp_ret].
  apply negb_false_iff, String.eqb_eq in Ec.
  apply (wp_keep (λ d', d' = d)); [destruct (trimmedPtr _); auto with app_wf|done|by intros ? ? ->; left|]. intros ? _ ->.
  apply wp_bind, wp_of_result. destruct (build_source _ _) as [e|[]] eqn:H3; [by left|].
  apply (wp_keep (λ d', d' = d)); [destruct (trimmedPtr (c_GitSourceID inp)); [destruct (sv_gitSrcs svc)|]; auto with app_wf|
    done|by intros ? ? ->; left|]. intros ? _ ->.
  apply wp_bind, wp_of_result. destruct (validate_values svc inp) as [e|hc] eqn:H4; [by left|].
  set (a := new_app _ _ _ _ _ _ _ _). assert (Ha : a_id a = id) by (unfold a, new_app; by destruct (limits_of svc inp)).
  unfold insert. rewrite Ha. apply wp_bind, wp_checked; [by left|].
  destruct (List.existsb _ (apps d)) eqn:Ex; [by left|]. destruct (app_refs d a); [|by left].
  assert (Hq : srv ∈ servers d ∧ sv_id srv = TrimSpace (c_ServerID inp) ∧ sv_status srv = "connected" ∧ app_ok a ∧ one_source a ∧
    ∀ x, x ∈ apps d → a_id x ≠ id ∧ a_name x ≠ a_name a).
  { split_and!; [done|done|done|apply new_app_ok; [bool_simp; lia|done..]|by apply new_app_source|].
    intros x Hx. pose proof (existsb_false_elem _ _ x Ex Hx) as Hf. unfold app_is, named in Hf. bool_simp. done. }
  destruct Hq as (Q1 & Q2 & Q3 & Q4 & Q5 & Q6).
  unfold get. apply wp_bind, wp_query; [right; exists srv, hc; split_and!; auto|].
  simpl. rewrite (sel_snoc_new id d a) by done. simpl. apply wp_ret. right. exists srv, hc. split_and!; auto.
Qed.

(** *** Update *)

(** The column after a patch. *)
Definition by_patch {A B} (v : option A) (f : A → B) (old : B) : B := match v with Some x => f x | None => old end.
Definition text (v : string) : option string := trimmedPtr (Some v).

(** [updated p a a']: the row [a'] is [a] with the columns of the patch [p]. *)
Record updated (p : UpdatePatch) (a a' : App) : Prop := {
  up_fixed : a_id a' = a_id a ∧ a_name a' = a_name a ∧ a_server_id a' = a_server_id a ∧
    a_build_type a' = a_build_type a ∧ a_container_name a' = a_container_name a ∧ a_status a' = a_status a ∧
    a_created_at a' = a_created_at a;
  up_team : a_team_id a' = if p_ClearTeamID p then None else by_patch (p_TeamID p) text (a_team_id a);
  up_source : a_git_source_id a' =
    if p_ClearGitSourceID p then None else by_patch (p_GitSourceID p) text (a_git_source_id a);
  up_text : a_description a' = by_patch (p_Description p) text (a_description a) ∧
    a_repo_url a' = by_patch (p_RepoURL p) text (a_repo_url a) ∧
    a_git_commit_sha a' = by_patch (p_GitCommitSHA p) text (a_git_commit_sha a) ∧
    a_dockerfile_inline a' = by_patch (p_DockerfileInline p) text (a_dockerfile_inline a) ∧
    a_compose_file a' = by_patch (p_ComposeFile p) text (a_compose_file a) ∧
    a_compose_inline a' = by_patch (p_ComposeInline p) text (a_compose_inline a) ∧
    a_image_name a' = by_patch (p_ImageName p) text (a_image_name a) ∧
    a_install_command a' = by_patch (p_InstallCommand p) text (a_install_command a) ∧
    a_build_command a' = by_patch (p_BuildCommand p) text (a_build_command a) ∧
    a_start_command a' = by_patch (p_StartCommand p) text (a_start_command a) ∧
    a_pre_deploy_command a' = by_patch (p_PreDeployCommand p) text (a_pre_deploy_command a) ∧
    a_post_deploy_command a' = by_patch (p_PostDeployCommand p) text (a_post_deploy_command a) ∧
    a_auto_deploy_branch a' = (if p_ClearAutoDeployBranch p then None
                               else by_patch (p_AutoDeployBranch p) text (a_auto_deploy_branch a));
  up_defaults : a_branch a' = by_patch (p_Branch p) (λ v, or_default v "main") (a_branch a) ∧
    a_dockerfile_path a' = by_patch (p_DockerfilePath p) (λ v, or_default v "Dockerfile") (a_dockerfile_path a) ∧
    a_build_context a' = by_patch (p_BuildContext p) (λ v, or_default v ".") (a_build_context a) ∧
    a_image_tag a' = by_patch (p_ImageTag p) (λ v, or_default v "latest") (a_image_tag a) ∧
    a_restart_policy a' = by_patch (p_RestartPolicy p) (λ v, or_default v "unless-stopped") (a_restart_policy a);
  up_limits : a_limits_memory a' = by_patch (p_LimitsMemory p) text (a_limits_memory a) ∧
    a_limits_cpus a' = by_patch (p_LimitsCPUs p) text (a_limits_cpus a) ∧
    a_limits_memory_swap a' = by_patch (p_LimitsMemorySwap p) text (a_limits_memory_swap a) ∧
    a_limits_memory_reservation a' = by_patch (p_LimitsMemoryReservation p) text (a_limits_memory_reservation a) ∧
    a_limits_cpuset a' = by_patch (p_LimitsCPUSet p) text (a_limits_cpuset a) ∧
    a_limits_memory_swappiness a' = (if p_ClearMemorySwappiness p then None
                                     else by_patch (p_LimitsMemorySwappiness p) Some (a_limits_memory_swappiness a)) ∧
    a_limits_cpu_shares a' = (if p_ClearCPUShares p then None
                              else by_patch (p_LimitsCPUShares p) Some (a_limits_cpu_shares a));
  up_rest : a_port a' = by_patch (p_Port p) Some (a_port a) ∧
    a_host_port a' = by_patch (p_HostPort p) Some (a_host_port a) ∧
    a_build_args_inject a' = by_patch (p_BuildArgsInject p) id (a_build_args_inject a) ∧
    a_build_args_source_commit a' = by_patch (p_BuildArgsSourceCommit p) id (a_build_args_source_commit a) ∧
    a_docker_labels a' = by_patch (p_DockerLabels p) id (a_docker_labels a) ∧
    a_env_vars a' = by_patch (p_EnvVars p) id (a_env_vars a);
  up_health : match p_HealthCheck p with
    | Some h => ∃ h', normaliseHealthCheck (merge_health a h) = inr h' ∧
        mkResolved (a_health_check_enabled a') (a_health_check_path a') (a_health_check_method a') (a_health_check_port a')
          (a_health_check_return_code a') (a_health_check_interval a') (a_health_check_timeout a')
          (a_health_check_retries a') (a_health_check_start_period a') = Unwrap h'
    | None => a_health_check_enabled a' = a_health_check_enabled a ∧ a_health_check_path a' = a_health_check_path a ∧
        a_health_check_method a' = a_health_check_method a ∧ a_health_check_port a' = a_health_check_port a ∧
        a_health_check_return_code a' = a_health_check_return_code a ∧
        a_health_check_interval a' = a_health_check_interval a ∧ a_health_check_timeout a' = a_health_check_timeout a ∧
        a_health_check_retries a' = a_health_check_retries a ∧
        a_health_check_start_period a' = a_health_check_start_period a
    end;
}.

Lemma team_set_value p : returns (λ t, t = if p_ClearTeamID p then Some None else text <$> p_TeamID p) (team_set p).
Proof.
  unfold team_set. destruct (p_ClearTeamID p); [by apply returns_ret|]. destruct (p_TeamID p) as [t|]; [|by apply returns_ret].
  cbv zeta. unfold text. simpl. destruct (TrimSpace t =s ""); [by apply returns_ret|]. apply returns_bind. intros _. by apply returns_ret.
Qed.

Lemma source_set_value p :
  returns (λ t, t = if p_ClearGitSourceID p then Some None else text <$> p_GitSourceID p) (source_set svc p).
Proof.
  unfold source_set. destruct (p_ClearGitSourceID p); [by apply returns_ret|].
  destruct (p_GitSourceID p) as [t|]; [|by apply returns_ret]. apply returns_bind. intros _. by apply returns_ret.
Qed.

Lemma patch_updated p a h : validate_patch a p = inr h →
  updated p a (apply_app_sets (patch_sets (if p_ClearTeamID p then Some None else text <$> p_TeamID p)
    (if p_ClearGitSourceID p then Some None else text <$> p_GitSourceID p) h p) a).
Proof.
  intros Hv. assert (Hh : health_set a p = inr h).
  { unfold validate_patch in Hv. result_inv Hv. by injection Hv as ->. }
  unfold text_set, clear_or. split; simpl.
  - done.
  - destruct (p_ClearTeamID p); [done|]. by destruct (p_TeamID p).
  - destruct (p_ClearGitSourceID p); [done|]. by destruct (p_GitSourceID p).
  - split_and!; try (unfold text_set; match goal with |- context [by_patch ?x _ _] => by destruct x end).
    destruct (p_ClearAutoDeployBranch p); [done|]. by destruct (p_AutoDeployBranch p).
  - split_and!; match goal with |- context [by_patch ?x _ _] => by destruct x end.
  - split_and!; try (unfold text_set; match goal with |- context [by_patch ?x _ _] => by destruct x end).
    + destruct (p_ClearMemorySwappiness p); [done|]. by destruct (p_LimitsMemorySwappiness p).
    + destruct (p_ClearCPUShares p); [done|]. by destruct (p_LimitsCPUShares p).
  - split_and!; match goal with |- context [by_patch ?x _ _] => by destruct x end.
  - unfold health_set in Hh. destruct (p_HealthCheck p) as [hc|].
    + result_inv Hh. injection Hh as <-. by eexists.
    + injection Hh as <-. simpl. done.
Qed.

Lemma upd_const id f d a : apps_wf d → a ∈ apps d → a_id a = id →
  upd (app_is id) f (apps d) = upd (app_is id) (λ _, f a) (apps d).
Proof.
  intros Hwf Ha Hid. apply upd_ext. intros x Hx E. f_equal. apply (NoDup_fmap_inj a_id (apps d)); [apply Hwf|done|done|].
  apply String.eqb_eq in E. congruence.
Qed.

Lemma sets_empty_id sets a : sets_empty sets = true → apply_app_sets sets a = a.
Proof.
  intros Hs. unfold sets_empty in Hs. unfold apply_app_sets. rewrite !andb_true_iff in Hs.
  assert (Hn : ∀ A (x : option A), is_none x = true → x = None) by (by intros A []).
  repeat match goal with H : _ ∧ _ |- _ => destruct H end.
  repeat match goal with H : is_none _ = true |- _ => apply Hn in H; rewrite H; clear H end. by destruct a.
Qed.

(** Update either fails and changes nothing, or replaces exactly the row of
    the app by the one with the columns of the patch; name, server, build type
    and status never change.  The error that can still follow is that of
    reading the row back. *)
Theorem update_effect id p d : apps_wf d →
  wp (Update svc id p) (λ d' r,
    (d' = d ∧ is_Some (match r with inl e => Some e | inr _ => None end)) ∨
    ∃ a a', a ∈ apps d ∧ a_id a = id ∧ updated p a a' ∧ app_ok a' ∧
      d' = on_apps (upd (app_is id) (λ _, a')) d ∧ (r = inr a' ∨ r = inl (ErrAppDb "get"))) d.
Proof.
  intros Hwf. unfold Update. apply wp_bind. unfold get. apply wp_bind, wp_query; [by left|].
  destruct (sel (app_is id) (apps d)) as [a|] eqn:Ea; [apply wp_ret|by apply wp_throw; left].
  pose proof (sel_Some _ _ _ Ea) as [Ha Hid]. apply String.eqb_eq in Hid.
  apply (wp_read (λ d', d' = d) (λ t, t = if p_ClearTeamID p then Some None else text <$> p_TeamID p));
    [apply team_set_reads|apply team_set_value|done|by intros ? ? ->; left|]. intros ? team -> Et.
  apply (wp_read (λ d', d' = d) (λ t, t = if p_ClearGitSourceID p then Some None else text <$> p_GitSourceID p));
    [apply source_set_reads|apply source_set_value|done|by intros ? ? ->; left|]. intros ? source -> Es.
  apply wp_bind, wp_of_result. destruct (validate_patch a p) as [e|h] eqn:Hv; [by left|].
  set (f := apply_app_sets (patch_sets team source h p)).
  assert (Hup : updated p a (f a)) by (unfold f; rewrite Et, Es; by apply patch_updated).
  assert (Hok : app_ok (f a)).
  { apply (patch_ok a); [done| | |by apply Hwf].
    - rewrite Et. destruct (p_ClearTeamID p); [done|]. destruct (p_TeamID p); [|done]. simpl. intros [= E]. exact (trimmed_not_blank _ E).
    - rewrite Es. destruct (p_ClearGitSourceID p); [done|]. destruct (p_GitSourceID p); [|done]. simpl. intros [= E]. exact (trimmed_not_blank _ E). }
  assert (Hst : ∀ st, (st =s "unreachable") && negb (st =s "unreachable") = false) by (intros st; by destruct (st =s "unreachable")).
  assert (Hsame : a_status (f a) = a_status a) by apply Hup.
  assert (Hdb : on_apps (upd (app_is id) f) d = on_apps (upd (app_is id) (λ _, f a)) d).
  { unfold on_apps. by rewrite (upd_const id f d a). }
  unfold updateFields. destruct (sets_empty _) eqn:Em.
  - assert (Hfa : ∀ x, f x = x) by (intros x; by apply sets_empty_id).
    assert (Hd : on_apps (upd (app_is id) f) d = d).
    { unfold on_apps. rewrite (upd_ext _ _ (λ x, x)) by auto. rewrite upd_id. by destruct d. }
    apply wp_bind. unfold get. apply wp_bind, wp_query; [by left|]. rewrite Ea. simpl. apply wp_ret. rewrite Hst.
    apply wp_ret. right. exists a, (f a). rewrite <- Hdb, Hd. split_and!; auto. left. by rewrite Hfa.
  - apply wp_bind, wp_bind. unfold update_row. apply wp_bind, wp_checked; [by left|]. fold f.
    destruct (List.forallb _ _); [|by left]. simpl. destruct (cnt (app_is id) (apps d) =? 0)%nat eqn:En.
    { apply Nat.eqb_eq in En. pose proof (cnt_pos (app_is id) (apps d) a Ha) as Hpos.
      unfold app_is in Hpos at 1. rewrite Hid, String.eqb_refl in Hpos. specialize (Hpos eq_refl). lia. }
    apply wp_ret. unfold get. apply wp_bind, wp_query; [right; exists a, (f a); rewrite <- Hdb; split_and!; auto|].
    simpl. rewrite sel_upd, Ea by done. simpl. unfold app_is at 1. rewrite Hid, String.eqb_refl. apply wp_ret.
    rewrite Hsame, Hst. apply wp_ret. right. exists a, (f a). rewrite <- Hdb. split_and!; auto.
Qed.
End Effects.

(** ** Deletion *)

(** No row refers to the app. *)
Definition forgotten (id : string) (d : Db) : Prop :=
  (∀ a, a ∈ apps d → a_id a ≠ id) ∧ (∀ x, x ∈ domains d → d_app_id x ≠ Some id) ∧
  (∀ x, x ∈ deployments d → dp_app_id x ≠ id) ∧ (∀ x, x ∈ secrets d → se_app_id x ≠ id) ∧
  (∀ x, x ∈ app_volumes d → v_app_id x ≠ id) ∧ (∀ x, x ∈ app_tags d → ag_app_id x ≠ id).

(** The rows of the other apps. *)
Definition others_kept (id : string) (d d' : Db) : Prop :=
  (∀ a, a ∈ apps d → a_id a ≠ id → a ∈ apps d') ∧ (∀ x, x ∈ domains d → d_app_id x ≠ Some id → x ∈ domains d') ∧
  (∀ x, x ∈ deployments d → dp_app_id x ≠ id → x ∈ deployments d') ∧
  (∀ x, x ∈ secrets d → se_app_id x ≠ id → x ∈ secrets d') ∧
  (∀ x, x ∈ app_volumes d → v_app_id x ≠ id → x ∈ app_volumes d') ∧
  (∀ x, x ∈ app_tags d → ag_app_id x ≠ id → x ∈ app_tags d') ∧
  users d' = users d ∧ servers d' = servers d ∧ teams d' = teams d ∧ tags d' = tags d.

Lemma delete_app_forgets id d : forgotten id (delete_app id d).
Proof.
  unfold forgotten. simpl. split_and!; intros x [_ Hx]%elem_of_del; unfold app_is in *; try (by apply String.eqb_neq).
  by apply bool_decide_eq_false in Hx.
Qed.

Lemma delete_app_keeps id d : others_kept id d (delete_app id d).
Proof.
  unfold others_kept. simpl. split_and!; try done; intros x Hx Hn; apply elem_of_del; (split; [done|]); unfold app_is;
    try (by apply String.eqb_neq). by apply bool_decide_eq_false.
Qed.

(** What the handler of a deletion does: the targets first, then the row. *)
Definition delete_with_targets (id : string) : aM CleanupTargets :=
  t ← GatherCleanupTargets id; _ ← Delete id; mret t.

(** The targets are the rows that have gone. *)
Definition targets_complete (id : string) (d d' : Db) (t : CleanupTargets) : Prop :=
  (ct_Domains t = [] ∨ ∀ x, x ∈ domains d → x ∉ domains d' → d_name x ≠ "" → d_name x ∈ ct_Domains t) ∧
  ((Z.of_nat (cnt (λ x, dp_app_id x =s id) (deployments d)) <= 10000)%Z →
    ct_DeploymentIDs t = [] ∨
    ∀ x, x ∈ deployments d → x ∉ deployments d' → dp_id x ≠ "" → dp_id x ∈ ct_DeploymentIDs t).

Lemma elem_gone {A} (p : A → bool) (g : A → string) l x : x ∈ l → x ∉ del p l → g x ≠ "" →
  g x ∈ List.filter non_empty (g <$> List.filter p l).
Proof.
  intros Hx Hgone Hne. apply elem_of_filter_b. split; [|by apply negb_true_iff, String.eqb_neq].
  apply list_elem_of_fmap. exists x. split; [done|]. apply elem_of_filter_b. split; [done|].
  destruct (p x) eqn:E; [done|]. destruct Hgone. by apply elem_of_del.
Qed.

Lemma delete_app_wp id d : wp (Delete id) (λ d' r,
  match r with inl _ => d' = d | inr _ => d' = delete_app id d ∧ ∃ a, a ∈ apps d ∧ a_id a = id end) d.
Proof.
  unfold Delete, delete. apply wp_bind, wp_checked; [done|]. destruct (_ && _); [done|].
  destruct (List.existsb (app_is id) (apps d)) eqn:E; [|by apply wp_throw].
  apply existsb_witness in E as (a & Ha & E). pose proof (cnt_pos _ _ a Ha E) as Hn.
  destruct (cnt (app_is id) (apps d) =? 0)%nat eqn:E0; [apply Nat.eqb_eq in E0; lia|].
  apply wp_ret. split; [done|]. exists a. split; [done|by apply String.eqb_eq].
Qed.

Lemma gather_wp id d : wp (GatherCleanupTargets id) (λ d' r,
  d' = d ∧ ∃ t, r = inr t ∧ targets_complete id d (delete_app id d) t) d.
Proof.
  unfold GatherCleanupTargets. apply wp_bind, wp_attempt, wp_query; apply wp_bind, wp_attempt, wp_query; apply wp_ret;
    (split; [done|]; eexists; split; [done|]; split); simpl; auto; try (right; intros x Hx Hg Hn; by apply elem_gone).
  all: intros Hc; right; intros x Hx Hg Hn; rewrite take_ge; [by apply elem_gone|rewrite length_fmap; unfold cnt in Hc; lia].
Qed.

(** A deletion either fails and changes nothing, or removes the app with
    every row that refers to it and no other row; the hosts and deployments it
    reports for cleanup are those that have gone, unless reading them failed. *)
Theorem delete_effect id d :
  wp (delete_with_targets id) (λ d' r,
    match r with
    | inl _ => d' = d
    | inr t => (∃ a, a ∈ apps d ∧ a_id a = id) ∧ forgotten id d' ∧ others_kept id d d' ∧ targets_complete id d d' t
    end) d.
Proof.
  apply wp_bind. eapply wp_mono; [apply gather_wp|]. intros d' r [-> (t & -> & Ht)].
  apply wp_bind. eapply wp_mono; [apply delete_app_wp|]. intros d' [e|[]] Hd'; [done|]. destruct Hd' as [-> Ha].
  apply wp_ret. split; [done|]. split; [apply delete_app_forgets|]. split; [apply delete_app_keeps|done].
Qed.

(** ** Examples *)

Definition ex_server : Server := mkServer "s" "local" "local" None 22 None None None "connected" None None 0.
Definition ex_app : App := bare_app "a" "web" (Some "s") (Some "web") true.
Definition ex_db : Db := on_servers (λ _, [ex_server]) (on_apps (λ _, [ex_app]) empty_db).
Definition ex_svc : Service := mkService false None None.
Definition ex_patch : UpdatePatch :=
  mkPatch None None false None false None None None None None None None None None None None None None None None
    (Some 9000%Z) None None (Some " 512m ") None None None false None None None false None None false None None None None.

Lemma ex_app_ok : app_ok ex_app.
Proof.
  split; try (apply (bool_decide_unpack _); by vm_compute); by split_and!.
Qed.

Lemma ex_db_wf : apps_wf ex_db.
Proof.
  split; simpl.
  - intros a ->%list_elem_of_singleton. apply ex_app_ok.
  - by intros a ->%list_elem_of_singleton.
  - apply NoDup_singleton.
  - apply NoDup_singleton.
Qed.

Lemma apps_typed_witness :
  apps_wf (history (H := ascii_only) ex_svc [(CUpdate "a" ex_patch, []); (CStop "a", [false; true])] ex_db).
Proof. exact (apps_typed (H := ascii_only) ex_svc _ ex_db ex_db_wf). Defined.

Lemma unreachable_sticky_witness :
  held "a" (history (H := ascii_only) ex_svc [(CStop "a", []); (CSetStatus "a" "error", [])]
              (history (H := ascii_only) ex_svc [(CMarkUnreachable "a", [])] ex_db)).
Proof.
  apply (unreachable_sticky (H := ascii_only) ex_svc "a").
  - intros c fs Hc. rewrite !elem_of_cons in Hc. by destruct Hc as [[= -> ->]|[[= -> ->]|Hc%not_elem_of_nil]].
  - split.
    + eexists. split; [left|reflexivity].
    + by intros a ->%list_elem_of_singleton.
Defined.

Lemma update_effect_witness : apps_wf ex_db ∧
  match (run (Update (H := ascii_only) ex_svc "a" ex_patch) ex_db).2 with
  | inr a => updated (H := ascii_only) ex_patch ex_app a ∧ a_port a = Some 9000%Z ∧ a_limits_memory a = Some "512m"
  | inl _ => False
  end.
Proof.
  split; [exact ex_db_wf|].
  pose proof (wp_run _ _ _ (update_effect (H := ascii_only) ex_svc "a" ex_patch ex_db ex_db_wf)) as Hu.
  destruct (run (Update (H := ascii_only) ex_svc "a" ex_patch) ex_db).2 as [e|a] eqn:E; [by vm_compute in E|].
  destruct Hu as [[_ [? ?]]|(b & b' & Hb & _ & Hup & _ & _ & [[= ->]|?])]; [done| |done].
  apply list_elem_of_singleton in Hb. subst b. split; [done|]. rewrite (proj1 (up_rest _ _ _ Hup)), (proj1 (up_limits _ _ _ Hup)).
  by vm_compute.
Defined.

(** The checks of Create on the source of a build are not made by Update: a
    Dockerfile app can be left with nothing to build from. *)
Definition no_source_patch : UpdatePatch :=
  mkPatch None None false None false (Some "") None None None None None None None None None None None None None None
    None None None None None None None false None None None false None None false None None None None.
Definition repo_app : App := apply_app_sets (patch_sets None None None
  (mkPatch None None false None false (Some "https://example.com/r.git") None None None None None None None None None None
    None None None None None None None None None None None false None None None false None None false None None None None)) ex_app.
Lemma update_drops_source : one_source repo_app ∧
  ∃ a, (run (Update (H := ascii_only) ex_svc "a" no_source_patch) (on_apps (λ _, [repo_app]) ex_db)).2 = inr a ∧ ¬ one_source a.
Proof.
  split; [by split_and!|]. eexists. split; [vm_compute; reflexivity|]. intros (Hd & _ & _). by specialize (Hd eq_refl).
Qed.
