(* ===== verification/Tags.v ===== *)
(** * Tags (internal/tag)

    The dictionary of tags and the links between apps and tags.  The service
    discharges the interface [TagLister] through which the app service reads
    the tags of an app.  [ord] stands for the order in which Go's runtime visits
    the keys of a map. *)

From S2P Require Import Prelude Effects GoStrings Regex Schema Apps.

Inductive TagErr :=
  | ErrTagNotFound
  | ErrTagNameInUse
  | ErrTagInvalid (code : string)
  | ErrTagDb (where_ : string).

(** ** Names and colours *)

Definition az09 (z : Z) : bool := az z || d09 z.
Definition dash (z : Z) : bool := (z =? 45)%Z.
Definition nameRegex : re := Cat (Cls az09) (Star (Cls (λ z, az09 z || dash z))).
Definition colorRegex : re := Cat (Lit "#") (Times 6 (Cls hex_digit)).

(** [\s]: tab, newline, form feed, carriage return, space. *)
Definition is_ws (c : ascii) : bool :=
  let z := byte c in (z =? 9)%Z || (z =? 10)%Z || (z =? 12)%Z || (z =? 13)%Z || (z =? 32)%Z.

(** [wsRegex.ReplaceAllString(s, "-")]: a run of blanks becomes one dash. *)
Fixpoint collapse (after_ws : bool) (l : list ascii) : list ascii :=
  match l with
  | [] => []
  | c :: l =>
    if is_ws c then (if after_ws then collapse true l else "-"%char :: collapse true l)
    else c :: collapse false l
  end.

Definition tag_char (c : ascii) : bool := let z := byte c in az z || d09 z || dash z.

Section Normalise.
Context `{Unicode}.

Definition normalizeName (raw : string) : TagErr + string :=
  let s := String.list_ascii_of_string (ToLower (TrimSpace raw)) in
  let s := String.string_of_list_ascii (List.filter tag_char (collapse false s)) in
  if s =s "" then inl (ErrTagInvalid "invalid_name")
  else if (40 <? len s)%Z then inl (ErrTagInvalid "invalid_name")
  else if negb (MatchString nameRegex s) then inl (ErrTagInvalid "invalid_name")
  else inr s.
End Normalise.

Definition normalizeColor (c : option string) : TagErr + option string :=
  match c with
  | None => inr None
  | Some v =>
    let v := TrimSpace v in
    if v =s "" then inr None else if MatchString colorRegex v then inr (Some v) else inl (ErrTagInvalid "invalid_color")
  end.

(** ** The repository *)

Local Abbreviation gM := (M Db TagErr).

Definition tag_is (id : string) (t : Tag) : bool := tg_id t =s id.
Definition tag_named (name : string) (t : Tag) : bool := tg_name t =s name.
Definition link_is (appID tagID : string) (l : AppTag) : bool := (ag_app_id l =s appID) && (ag_tag_id l =s tagID).

Definition insert (t : Tag) : gM unit :=
  checked (ErrTagDb "insert") (λ d,
    if List.existsb (λ x, tag_is (tg_id t) x || tag_named (tg_name t) x) (tags d) then inl ErrTagNameInUse
    else inr (on_tags (λ l, l ++ [t]) d, tt)).

Definition found_tag (row : option Tag) : gM Tag := match row with None => throw ErrTagNotFound | Some t => mret t end.
Definition get (id : string) : gM Tag := row ← query (ErrTagDb "get") (λ d, sel (tag_is id) (tags d)); found_tag row.
Definition getByName (name : string) : gM Tag :=
  row ← query (ErrTagDb "get") (λ d, sel (tag_named name) (tags d)); found_tag row.

(** [ORDER BY name ASC]. *)
Definition name_le (t u : Tag) : bool := String.leb (tg_name t) (tg_name u).
Definition list_tags : gM (list Tag) := query (ErrTagDb "list") (λ d, sort_by name_le (tags d)).

(** The links of the tag cascade. *)
Definition delete (id : string) : gM unit :=
  n ← fallible (ErrTagDb "delete") (λ d,
        ((if List.existsb (tag_is id) (tags d)
          then on_app_tags (del (λ l, ag_tag_id l =s id)) (on_tags (del (tag_is id)) d) else d),
         cnt (tag_is id) (tags d)));
  if (n =? 0)%nat then throw ErrTagNotFound else mret tt.

(** [ON CONFLICT DO NOTHING]; both references must exist. *)
Definition attach (appID tagID : string) : gM unit :=
  checked (ErrTagDb "attach") (λ d,
    if List.existsb (link_is appID tagID) (app_tags d) then inr (d, tt)
    else if List.existsb (app_is appID) (apps d) && List.existsb (tag_is tagID) (tags d)
    then inr (on_app_tags (λ l, l ++ [mkAppTag appID tagID]) d, tt) else inl (ErrTagDb "attach")).

Definition detach (appID tagID : string) : gM unit :=
  exec (ErrTagDb "detach") (on_app_tags (del (link_is appID tagID))).

(** [tags INNER JOIN app_tags ... WHERE app_id = ?]. *)
Definition tags_of (appID : string) (d : Db) : list Tag :=
  List.filter (λ t, List.existsb (link_is appID (tg_id t)) (app_tags d)) (tags d).
Definition listForApp (appID : string) : gM (list Tag) :=
  query (ErrTagDb "list for app") (λ d, sort_by name_le (tags_of appID d)).

Definition listAppsForTag (tagID : string) : gM (list string) :=
  query (ErrTagDb "list apps") (λ d, ag_app_id <$> List.filter (λ l, ag_tag_id l =s tagID) (app_tags d)).

(** ** The service *)

Section Service.
Context `{Unicode} (ord : list string → list string).

(** An existing tag of the name is returned as it is. *)
Definition Create (id rawName : string) (color : option string) : gM Tag :=
  name ← of_result (normalizeName rawName);
  color ← of_result (normalizeColor color);
  r ← attempt (insert (mkTag id name color));
  match r with
  | inl ErrTagNameInUse => getByName name
  | inl e => throw e
  | inr _ => get id
  end.

Definition Get (id : string) : gM Tag := get (TrimSpace id).
Definition List_ : gM (list Tag) := list_tags.
Definition Delete (id : string) : gM unit := delete (TrimSpace id).
Definition Attach (appID tagID : string) : gM unit := attach appID tagID.
Definition Detach (appID tagID : string) : gM unit := detach appID tagID.
Definition ForApp_ (appID : string) : gM (list string) := rows ← listForApp appID; mret (tg_name <$> rows).
Definition ForAppDetailed (appID : string) : gM (list Tag) := listForApp appID.
Definition AppsForTag (tagID : string) : gM (list string) := listAppsForTag (TrimSpace tagID).

(** The normalised names, without duplicates, in the order of the input. *)
Fixpoint normalize_all (seen : list string) (names : list string) : TagErr + list string :=
  match names with
  | [] => inr []
  | raw :: names =>
    n ← normalizeName raw;
    if List.existsb (String.eqb n) seen then normalize_all seen names
    else ns ← normalize_all (n :: seen) names; inr (n :: ns)
  end.

(** [ids]: the ids that are drawn, one for each name. *)
Fixpoint ensure_all (ids : nat → string) (names : list string) : gM (list string) :=
  match names with
  | [] => mret []
  | n :: names =>
    t ← Create (ids 0) n None;
    ts ← ensure_all (λ i, ids (S i)) names;
    mret (tg_id t :: ts)
  end.

Definition keys (l : list string) : list string := ord (remove_dups l).

Definition SetAppTags (appID : string) (names : list string) (ids : nat → string) : gM (list Tag) :=
  normalized ← of_result (normalize_all [] names);
  desired ← ensure_all ids normalized;
  current ← listForApp appID;
  _ ← each (detach appID)
        (List.filter (λ id, negb (List.existsb (String.eqb id) desired)) (keys (tg_id <$> current)));
  _ ← each (attach appID) (keys desired);
  listForApp appID.
End Service.

(** The tag service as the app service sees it. *)
Definition wrap_tag (e : TagErr) : AppErr := match e with ErrTagDb w => ErrAppDb w | _ => ErrAppDb "tags" end.

Lemma listForApp_reads id d fs : (listForApp id d fs).1.1 = d.
Proof. by destruct fs as [|[] fs]. Qed.

#[export] Instance tag_lister : TagLister.
Proof.
  refine {| ForApp id := zoom (λ d, d) (λ d _, d) wrap_tag (ForApp_ id) |}.
  intros id d fs. unfold zoom, ForApp_, mbind, M_bind, bind. pose proof (listForApp_reads id d fs) as Hr.
  destruct (listForApp id d fs) as [[d' fs'] [e|l]]; exact Hr.
Defined.

(** ** Names are stable *)

Section Names.
Context `{Unicode}.

Definition name_ok (s : string) : Prop := s ≠ "" ∧ (len s <= 40)%Z ∧ MatchString nameRegex s = true.

Lemma normalize_ok raw s : normalizeName raw = inr s → name_ok s.
Proof.
  unfold normalizeName. cbv zeta. set (t := String.string_of_list_ascii _). destruct (t =s "") eqn:E1; [done|].
  destruct (40 <? len t)%Z eqn:E2; [done|]. destruct (MatchString nameRegex t) eqn:E3; [|done]. intros [= <-].
  apply String.eqb_neq in E1. apply Z.ltb_ge in E2. by split_and!.
Qed.

Lemma name_bytes s : MatchString nameRegex s = true → all_bytes (λ z, az09 z || dash z) s = true.
Proof.
  intros Hm%MatchString_spec. eapply within_all; [|exact Hm]. simpl. split; [|done]. intros c ->. done.
Qed.

Lemma name_byte z : az09 z || dash z = true → (97 <= z <= 122 ∨ 48 <= z <= 57 ∨ z = 45)%Z.
Proof. unfold az09, az, d09, dash. rewrite !orb_true_iff, !in_range_spec, Z.eqb_eq. lia. Qed.

Lemma collapse_id l : Forall (λ c, is_ws c = false) l → ∀ b, collapse b l = l.
Proof. induction 1 as [|c l Hc _ IH]; intros b; [done|]. simpl. by rewrite Hc, IH. Qed.

(** A normalised name is its own normal form. *)
Lemma normalize_idem s : name_ok s → normalizeName s = inr s.
Proof.
  intros (Hne & Hlen & Hm). pose proof (name_bytes s Hm) as Hb.
  assert (Hall : ∀ q : Z → bool, (∀ z, (97 <= z <= 122 ∨ 48 <= z <= 57 ∨ z = 45)%Z → q z = true) → all_bytes q s = true).
  { intros q Hq. eapply all_bytes_mono; [|exact Hb]. intros z Hz%name_byte. by apply Hq. }
  unfold normalizeName. rewrite TrimSpace_id by (apply Hall; intros z Hz; apply in_range_spec; lia).
  rewrite ToLower_id.
  2:{ apply Hall. intros z Hz. apply andb_true_iff. split; [apply Z.ltb_lt; lia|]. apply negb_true_iff, in_range_false. lia. }
  rewrite collapse_id.
  2:{ apply list.Forall_forall. intros c Hc. apply list_elem_of_In in Hc.
      assert (Hf : all_bytes (λ z, negb ((z =? 9)%Z || (z =? 10)%Z || (z =? 12)%Z || (z =? 13)%Z || (z =? 32)%Z)) s = true).
      { apply Hall. intros z Hz. apply negb_true_iff. rewrite !orb_false_iff, !Z.eqb_neq. lia. }
      unfold all_bytes in Hf. rewrite forallb_forall in Hf. by apply negb_true_iff, (Hf c). }
  rewrite (List.forallb_filter_id tag_char) by exact Hb. rewrite String.string_of_list_ascii_of_string. cbv zeta.
  apply String.eqb_neq in Hne. apply Z.ltb_ge in Hlen. by rewrite Hne, Hlen, Hm.
Qed.

(** The names [normalize_all] returns: valid, distinct, and those of the input. *)
Lemma normalize_all_spec seen names ns : normalize_all seen names = inr ns →
  Forall name_ok ns ∧ NoDup ns ∧ (∀ n, n ∈ ns → n ∉ seen) ∧
  ∀ n, n ∈ ns ∨ n ∈ seen ↔ n ∈ seen ∨ ∃ raw, raw ∈ names ∧ normalizeName raw = inr n.
Proof.
  revert seen ns. induction names as [|raw names IH]; intros seen ns; simpl.
  - intros [= <-]. split_and!; [constructor|constructor|set_solver|]. intros n. split; [set_solver|].
    intros [?|(raw & ?%not_elem_of_nil & _)]; [by right|done].
  - intros Hn. apply result_bind_inv in Hn as (m & Em & Hn). destruct (List.existsb (String.eqb m) seen) eqn:E.
    + apply existsb_witness in E as (x & Hx & E). apply String.eqb_eq in E. subst x.
      destruct (IH _ _ Hn) as (H1 & H2 & H3 & H4). split_and!; [done..|]. intros n. rewrite H4. split.
      * intros [?|(r & Hr & Er)]; [by left|]. right. exists r. split; [by right|done].
      * intros [?|(r & [->|Hr]%elem_of_cons & Er)]; [by left| |right; by exists r]. rewrite Em in Er. injection Er as ->. by left.
    + apply result_bind_inv in Hn as (rest & Er & [= <-]). destruct (IH _ _ Er) as (H1 & H2 & H3 & H4).
      assert (Hm : m ∉ seen).
      { intros Hin. pose proof (existsb_false_elem _ _ m E Hin) as Hf. by rewrite String.eqb_refl in Hf. }
      split_and!.
      * constructor; [by eapply normalize_ok|done].
      * constructor; [|done]. intros Hin. apply (H3 m Hin). left.
      * intros n [->|Hin]%elem_of_cons; [done|]. specialize (H3 n Hin). set_solver.
      * intros n. specialize (H4 n). split.
        { intros [[->|Hin]%elem_of_cons|Hin]; [|..].
          - right. exists raw. split; [left|done].
          - destruct H4 as [H4 _]. destruct H4 as [[->|?]%elem_of_cons|(r & Hr & Er')]; [by left| | |].
            + right. exists raw. split; [left|done].
            + by left.
            + right. exists r. split; [by right|done].
          - by left. }
        { intros [?|(r & [->|Hr]%elem_of_cons & Er')]; [by right| |].
          - left. rewrite Em in Er'. injection Er' as ->. left.
          - destruct H4 as [_ H4]. destruct H4 as [?|[->|?]%elem_of_cons]; [right; by exists r|left; by right|left; left|by right]. }
Qed.
End Names.

(** ** Replacing the tags of an app *)

Record tags_wf (d : Db) : Prop := {
  gw_ids : NoDup (tg_id <$> tags d);
  gw_names : NoDup (tg_name <$> tags d);
  gw_rows : ∀ t, t ∈ tags d → name_ok (tg_name t);
  gw_links : ∀ l, l ∈ app_tags d → (∃ t, t ∈ tags d ∧ tg_id t = ag_tag_id l) ∧ ∃ a, a ∈ apps d ∧ a_id a = ag_app_id l;
}.

(** What a call on behalf of [appID] leaves alone: the apps, the tags there
    were, and the links of every other app. *)
Definition frame (appID : string) (d d' : Db) : Prop :=
  apps d' = apps d ∧ (∀ t, t ∈ tags d → t ∈ tags d') ∧
  ∀ l, ag_app_id l ≠ appID → l ∈ app_tags d' ↔ l ∈ app_tags d.

Lemma frame_refl appID d : frame appID d d.
Proof. done. Qed.
Lemma frame_trans appID d1 d2 d3 : frame appID d1 d2 → frame appID d2 d3 → frame appID d1 d3.
Proof.
  intros (A1 & A2 & A3) (B1 & B2 & B3). split_and!; [congruence|auto|]. intros l Hl. rewrite B3, A3; done.
Qed.
#[local] Hint Resolve frame_refl : core.

Definition linked (appID id : string) (d : Db) : Prop := mkAppTag appID id ∈ app_tags d.

Lemma link_is_spec appID id l : link_is appID id l = true ↔ l = mkAppTag appID id.
Proof.
  unfold link_is. rewrite andb_true_iff, !String.eqb_eq. destruct l as [a g]. simpl.
  split; [by intros [-> ->]|by intros [= -> ->]].
Qed.

Lemma existsb_linked appID id d : List.existsb (link_is appID id) (app_tags d) = true ↔ linked appID id d.
Proof.
  split.
  - by intros (l & Hl & ->%link_is_spec)%existsb_witness.
  - intros Hl. apply List.existsb_exists. exists (mkAppTag appID id). split; [by apply list_elem_of_In|by apply link_is_spec].
Qed.

Lemma detach_all appID ids : ∀ d, tags_wf d → wp (each (detach appID) ids) (λ d' r,
  tags_wf d' ∧ frame appID d d' ∧ tags d' = tags d ∧
  match r with inl _ => True | inr _ => ∀ id, linked appID id d' ↔ linked appID id d ∧ id ∉ ids end) d.
Proof.
  induction ids as [|x ids IH]; intros d Hwf; simpl.
  - apply wp_ret. split_and!; [done..|]. set_solver.
  - apply wp_bind, wp_exec; [done|]. set (d1 := on_app_tags _ d).
    assert (Hl : ∀ l, l ∈ app_tags d1 ↔ l ∈ app_tags d ∧ l ≠ mkAppTag appID x).
    { intros l. unfold d1. simpl. rewrite elem_of_del, <- (link_is_spec appID x l). destruct (link_is appID x l); naive_solver. }
    assert (Hwf1 : tags_wf d1).
    { destruct Hwf as [H1 H2 H3 H4]. split; [done..|]. intros l [Hin _]%Hl. by apply H4. }
    assert (Hf : frame appID d d1).
    { split_and!; [done..|]. intros l Hne. rewrite Hl. split; [by intros [? _]|]. intros ?. split; [done|]. by intros ->. }
    eapply wp_mono; [by apply IH|]. intros d' r (W & F & T & R). split_and!; [done|by eapply frame_trans|done|].
    destruct r; [done|]. intros id. rewrite R. unfold linked. rewrite Hl. split.
    + intros [[? Hne] Hn]. split; [done|]. intros [->|?]%elem_of_cons; [by destruct Hne|done].
    + intros [? Hn]. split; [split; [done|]|set_solver]. intros [= ->]. apply Hn. left.
Qed.

Lemma attach_all appID ids : ∀ d, tags_wf d → wp (each (attach appID) ids) (λ d' r,
  tags_wf d' ∧ frame appID d d' ∧ tags d' = tags d ∧
  match r with inl _ => True | inr _ => ∀ id, linked appID id d' ↔ linked appID id d ∨ id ∈ ids end) d.
Proof.
  induction ids as [|x ids IH]; intros d Hwf; simpl.
  - apply wp_ret. split_and!; [done..|]. set_solver.
  - apply wp_bind, wp_checked; [done|].
    assert (Hgo : ∀ d1, tags_wf d1 → frame appID d d1 → tags d1 = tags d →
      (∀ id, linked appID id d1 ↔ linked appID id d ∨ id = x) → wp (each (attach appID) ids) (λ d' r,
      tags_wf d' ∧ frame appID d d' ∧ tags d' = tags d ∧
      match r with inl _ => True | inr _ => ∀ id, linked appID id d' ↔ linked appID id d ∨ id ∈ x :: ids end) d1).
    { intros d1 W1 F1 T1 L1. eapply wp_mono; [by apply IH|]. intros d' r (W & F & T & R).
      split_and!; [done|by eapply frame_trans|congruence|]. destruct r; [done|]. intros id. rewrite R, L1. set_solver. }
    destruct (List.existsb (link_is appID x) (app_tags d)) eqn:E; [apply Hgo; [done..|]|].
    { apply existsb_linked in E. intros id. split; [by left|]. by intros [?| ->]. }
    destruct (_ && _) eqn:Er; [|done]. apply andb_true_iff in Er as [(a & Ha & Ea)%existsb_witness (t & Ht & Et)%existsb_witness].
    apply String.eqb_eq in Ea, Et. apply Hgo.
    + destruct Hwf as [H1 H2 H3 H4]. split; [done..|]. simpl.
      intros l [Hl| ->%list_elem_of_singleton]%elem_of_app; [by apply H4|]. simpl. split; [by exists t|by exists a].
    + split_and!; [done..|]. intros l Hne. simpl. rewrite elem_of_app, list_elem_of_singleton. split; [|by left].
      intros [?| ->]; [done|]. by simpl in Hne.
    + done.
    + intros id. unfold linked. simpl. rewrite elem_of_app, list_elem_of_singleton. split; intros [?|Hx]; auto.
      * right. by injection Hx.
      * right. by subst.
Qed.

Section Replace.
Context `{Unicode} (ord : list string → list string) (ord_perm : ∀ l, ord l ≡ₚ l).

Lemma get_row id d t : sel (tag_is id) (tags d) = Some t →
  wp (get id) (λ d' r, d' = d ∧ match r with inl _ => True | inr x => x = t end) d.
Proof. intros E. unfold get. apply wp_bind, wp_query; [done|]. rewrite E. by apply wp_ret. Qed.

(** The tag of a valid name, created if there is none. *)
Lemma create_tag appID id name d : tags_wf d → name_ok name → wp (Create id name None) (λ d' r,
  tags_wf d' ∧ frame appID d d' ∧ app_tags d' = app_tags d ∧
  match r with inl _ => True | inr t => t ∈ tags d' ∧ tg_name t = name end) d.
Proof.
  intros Hwf Hname. unfold Create. rewrite normalize_idem by done. apply wp_bind, wp_of_result. apply wp_bind, wp_of_result. simpl.
  apply wp_bind, wp_attempt, wp_checked; [by apply wp_throw|].
  destruct (List.existsb _ (tags d)) eqn:E.
  - unfold getByName. apply wp_bind, wp_query; [done|].
    destruct (sel (tag_named name) (tags d)) as [t|] eqn:Es; [|by apply wp_throw]. apply wp_ret. do 3 (split; [done|]).
    apply sel_Some in Es as [Ht Es]. by apply String.eqb_eq in Es.
  - set (t := mkTag id name None).
    assert (Hnew : ∀ x, x ∈ tags d → tg_id x ≠ id ∧ tg_name x ≠ name).
    { intros x Hx. pose proof (existsb_false_elem _ _ x E Hx) as Hf. unfold tag_is, tag_named in Hf. bool_simp. done. }
    assert (Hwf1 : tags_wf (on_tags (λ l, l ++ [t]) d)).
    { destruct Hwf as [H1 H2 H3 H4]. split; simpl.
      - rewrite fmap_app. apply NoDup_snoc; [done|]. intros (x & Hx & Hin)%list_elem_of_fmap. by destruct (Hnew x).
      - rewrite fmap_app. apply NoDup_snoc; [done|]. intros (x & Hx & Hin)%list_elem_of_fmap. by destruct (Hnew x).
      - intros x [Hx| ->%list_elem_of_singleton]%elem_of_app; auto.
      - intros l Hl. destruct (H4 l Hl) as [(x & Hx & Ex) ?]. split; [|done]. exists x. set_solver. }
    assert (Hf : frame appID d (on_tags (λ l, l ++ [t]) d)) by (split_and!; [done| |done]; intros x Hx; simpl; set_solver).
    eapply wp_mono; [apply (get_row id _ t)|].
    + simpl. rewrite sel_app. destruct (sel (tag_is id) (tags d)) as [x|] eqn:Es.
      * apply sel_Some in Es as [Hx Es]. apply String.eqb_eq in Es. by destruct (Hnew x Hx).
      * unfold sel. simpl. unfold tag_is. simpl. by rewrite String.eqb_refl.
    + intros d' [e|x] [-> Hx]; do 3 (split; [done|]); [done|]. subst x. split; [simpl; set_solver|done].
Qed.

Lemma ensure_all_wp appID names : ∀ ids d, tags_wf d → Forall name_ok names → wp (ensure_all ids names) (λ d' r,
  tags_wf d' ∧ frame appID d d' ∧ app_tags d' = app_tags d ∧
  match r with
  | inl _ => True
  | inr l => Forall2 (λ n id, ∃ t, t ∈ tags d' ∧ tg_name t = n ∧ tg_id t = id) names l
  end) d.
Proof.
  induction names as [|n names IH]; intros ids d Hwf Hn; simpl; [by apply wp_ret; split_and!|].
  apply Forall_cons in Hn as [Hn Hns]. apply wp_bind. eapply wp_mono; [by apply (create_tag appID)|].
  intros d1 [e|t] (W1 & F1 & L1 & R1); [done|]. destruct R1 as [Ht Et].
  apply wp_bind. eapply wp_mono; [by apply IH|]. intros d2 [e|l] (W2 & F2 & L2 & R2).
  - split_and!; [done|by eapply frame_trans|congruence|done].
  - apply wp_ret. split_and!; [done|by eapply frame_trans|congruence|]. constructor; [|done].
    exists t. split_and!; [by apply F2|done|done].
Qed.

Lemma keys_elem l x : x ∈ keys ord l ↔ x ∈ l.
Proof. unfold keys. rewrite ord_perm. apply elem_of_remove_dups. Qed.

Lemma tags_of_elem appID d t : t ∈ tags_of appID d ↔ t ∈ tags d ∧ linked appID (tg_id t) d.
Proof. unfold tags_of. by rewrite elem_of_filter_b, existsb_linked. Qed.

(** The names that were asked for. *)
Definition asked (names : list string) (n : string) : Prop := ∃ raw, raw ∈ names ∧ normalizeName raw = inr n.

(** Replacing the tags of an app: when the call succeeds, the tags of the
    app are exactly those with the requested names and the answer lists them
    by name; whatever fails, the tables stay well formed, no tag disappears and
    the tags of every other app stay as they are. *)
Theorem set_app_tags_effect appID names ids d : tags_wf d →
  wp (SetAppTags ord appID names ids) (λ d' r, tags_wf d' ∧ frame appID d d' ∧
    match r with
    | inl _ => True
    | inr ts => ts = sort_by name_le (tags_of appID d') ∧
        (∀ n, (∃ t, t ∈ tags_of appID d' ∧ tg_name t = n) ↔ asked names n)
    end) d.
Proof.
  intros Hwf. unfold SetAppTags. apply wp_bind, wp_of_result.
  destruct (normalize_all [] names) as [e|ns] eqn:En; [done|].
  destruct (normalize_all_spec _ _ _ En) as (Hok & Hnd & _ & Hns).
  apply wp_bind. eapply wp_mono; [by apply (ensure_all_wp appID)|].
  intros d1 [e|desired] (W1 & F1 & L1 & R1); [done|].
  apply wp_bind, wp_query; [done|]. set (drop := List.filter _ (keys ord _)).
  apply wp_bind. eapply wp_mono; [by apply (detach_all appID drop)|].
  intros d2 [e|[]] (W2 & F2 & T2 & R2); [split; [done|split; [by eapply frame_trans|done]]|].
  apply wp_bind. eapply wp_mono; [by apply (attach_all appID (keys ord desired))|].
  intros d3 [e|[]] (W3 & F3 & T3 & R3); (assert (F : frame appID d d3) by (eapply frame_trans; [done|by eapply frame_trans])); [done|].
  assert (Hlink : ∀ id, linked appID id d3 ↔ id ∈ desired).
  { intros id. rewrite R3, R2, keys_elem. split; [|by right]. intros [[Hl Hn]|?]; [|done].
    destruct (gw_links _ W1 _ Hl) as [(t & Ht & Et) _]. simpl in Et. destruct (decide (id ∈ desired)) as [?|Hnot]; [done|].
    destruct Hn. apply elem_of_filter_b. split.
    - apply keys_elem, list_elem_of_fmap. exists t. split; [done|]. apply sort_by_elem, tags_of_elem. by rewrite Et.
    - apply negb_true_iff. apply not_true_iff_false. intros (x & Hx & Ex)%existsb_witness. apply String.eqb_eq in Ex. by subst. }
  apply wp_query; [done|]. split_and!; [done..|]. intros n. specialize (Hns n).
  assert (Ha : n ∈ ns ↔ asked names n) by (unfold asked; split; [intros ?; destruct Hns as [Hns _]; destruct Hns as [Hx|?]; [by left|by apply not_elem_of_nil in Hx|done]|
    intros ?; destruct Hns as [_ Hns]; destruct Hns as [?|Hx]; [by right|done|by apply not_elem_of_nil in Hx]]).
  rewrite <- Ha. split.
  - intros (t & [Ht Hl]%tags_of_elem & <-). apply Hlink in Hl. apply list_elem_of_lookup in Hl as [i Hi].
    destruct (Forall2_lookup_r _ _ _ _ _ R1 Hi) as (n & Hn & t' & Ht' & <- & Eid).
    assert (t = t') as ->. { apply (NoDup_fmap_inj tg_id (tags d1)); [apply W1| |done|done]. by rewrite T3, T2 in Ht. }
    by eapply list_elem_of_lookup_2.
  - intros Hn. apply list_elem_of_lookup in Hn as [i Hi]. destruct (Forall2_lookup_l _ _ _ _ _ R1 Hi) as (id & Hid & t & Ht & Et & Eid).
    exists t. split; [|done]. apply tags_of_elem. split; [by rewrite T3, T2|]. apply Hlink. rewrite Eid. by eapply list_elem_of_lookup_2.
Qed.
End Replace.

(** ** Example *)

Definition tagged_db : Db :=
  on_tags (λ _, [mkTag "t1" "prod" None; mkTag "t2" "web" None])
    (on_app_tags (λ _, [mkAppTag "a" "t1"]) (on_apps (λ _, [bare_app "a" "web" None None true]) empty_db)).

Lemma tagged_db_wf : tags_wf tagged_db.
Proof.
  split; try (apply (bool_decide_unpack _); by vm_compute).
  - apply list.Forall_forall. repeat constructor; try (by vm_compute); done.
  - intros l ->%list_elem_of_singleton. simpl. split; eexists; (split; [left|reflexivity]).
Qed.

Lemma set_app_tags_effect_witness :
  match run (SetAppTags (H := ascii_only) id "a" ["  Web "; "QA stage"; "web"] (λ i, if i =? 0 then "n1" else "n2")) tagged_db with
  | (d', inr ts) => (tg_name <$> ts) = ["qa-stage"; "web"] ∧ asked (H := ascii_only) ["  Web "; "QA stage"; "web"] "qa-stage"
  | _ => False
  end.
Proof.
  pose proof (wp_run _ _ _ (set_app_tags_effect (H := ascii_only) id (λ l, Permutation_refl l) "a" ["  Web "; "QA stage"; "web"]
    (λ i, if i =? 0 then "n1" else "n2") tagged_db tagged_db_wf)) as Hw.
  destruct (run (SetAppTags (H := ascii_only) _ _ _ _) tagged_db) as [d' [e|ts]] eqn:E; [by vm_compute in E|].
  destruct Hw as (_ & _ & _ & Hn). assert (Hts : tg_name <$> ts = ["qa-stage"; "web"]) by (vm_compute in E; by injection E as <- <-).
  split; [done|]. apply Hn. vm_compute in E. injection E as <- _. exists (mkTag "n2" "qa-stage" None). split; [|reflexivity]. apply tags_of_elem. split; [right; right; left|].
  apply existsb_linked. by vm_compute.
Defined.
