(* ===== verification/Volumes.v ===== *)
(** * App volumes (internal/appvolume)

    Mounts of an app: the service with its validations and the repository of
    the table [app_volumes].  The app is resolved through the service of
    [Apps]. *)

From S2P Require Import Prelude Effects GoStrings Regex Schema Apps.
From stdpp Require Import gmap.

Inductive VolErr :=
  | ErrVolNotFound
  | ErrDuplicate
  | ErrVolInvalid (code : string)
  | ErrVolApp (e : AppErr)
  | ErrVolDb (where_ : string).

(** ** Validation *)

Definition serviceRegex : re := Cat (Cls alnum) (Star (Cls (λ z, alnum z || one_of "._-" z))).
Definition maxPathLen : Z := 512.

Definition containsParentSegment (p : string) : bool := List.existsb (String.eqb "..") (Split p "/").

(** An absolute path without [..] segments. *)
Definition validate_path (code v : string) : VolErr + string :=
  if (maxPathLen <? len v)%Z then inl (ErrVolInvalid code)
  else if negb (HasPrefix v "/") then inl (ErrVolInvalid code)
  else if containsParentSegment v then inl (ErrVolInvalid code)
  else inr v.

Definition validateMountPath (raw : string) : VolErr + string :=
  let v := TrimSpace raw in
  if v =s "" then inl (ErrVolInvalid "invalid_mount_path") else validate_path "invalid_mount_path" v.

Definition validateHostPath (inp : option string) : VolErr + option string :=
  match inp with
  | None => inr None
  | Some v =>
    let v := TrimSpace v in
    if v =s "" then inr None else v ← validate_path "invalid_host_path" v; inr (Some v)
  end.

Definition validatePairing (isNamed : bool) (host : option string) : VolErr + unit :=
  if isNamed then match host with Some _ => inl (ErrVolInvalid "invalid_host_path") | None => inr tt end
  else if isBlankPtr host then inl (ErrVolInvalid "invalid_host_path") else inr tt.

Definition normaliseService (inp : option string) : VolErr + option string :=
  match inp with
  | None => inr None
  | Some v =>
    let v := TrimSpace v in
    if v =s "" then inr None
    else if MatchString serviceRegex v then inr (Some v) else inl (ErrVolInvalid "invalid_service")
  end.

(** ** The repository *)

Local Abbreviation vM := (M Db VolErr).

Definition vol_is (id : string) (v : Volume) : bool := v_id v =s id.
Definition vol_of (appID : string) (v : Volume) : bool := v_app_id v =s appID.

(** [UNIQUE (app_id, service, mount_path)]: rows whose service is NULL never
    collide. *)
Definition collides (v w : Volume) : bool :=
  match v_service v, v_service w with
  | Some s, Some t => (v_app_id v =s v_app_id w) && (s =s t) && (v_mount_path v =s v_mount_path w)
  | _, _ => false
  end.

Definition insert (v : Volume) : vM unit :=
  checked (ErrVolDb "insert") (λ d,
    if List.existsb (λ x, vol_is (v_id v) x || collides v x) (app_volumes d) then inl ErrDuplicate
    else if List.existsb (app_is (v_app_id v)) (apps d) then inr (on_app_volumes (λ l, l ++ [v]) d, tt)
    else inl (ErrVolDb "insert")).

Definition get (id : string) : vM Volume :=
  row ← query (ErrVolDb "get") (λ d, sel (vol_is id) (app_volumes d));
  match row with None => throw ErrVolNotFound | Some v => mret v end.

(** [ORDER BY mount_path ASC]. *)
Definition before (v w : Volume) : bool := String.leb (v_mount_path v) (v_mount_path w).
Definition listByApp (appID : string) : vM (list Volume) :=
  query (ErrVolDb "list") (λ d, sort_by before (List.filter (vol_of appID) (app_volumes d))).

(** The columns of an UPDATE; [None] is a column that is not set. *)
Record VolSets := mkVolSets {
  vs_mount_path : option string; vs_host_path : option (option string);
  vs_is_named : option bool; vs_read_only : option bool;
}.
Definition apply_vol (s : VolSets) (v : Volume) : Volume :=
  mkVolume (v_id v) (v_app_id v) (v_service v) (default (v_mount_path v) (vs_mount_path s))
    (default (v_host_path v) (vs_host_path s)) (default (v_is_named v) (vs_is_named s))
    (default (v_read_only v) (vs_read_only s)).
Definition no_vol_sets (s : VolSets) : bool :=
  is_none (vs_mount_path s) && is_none (vs_host_path s) && is_none (vs_is_named s) && is_none (vs_read_only s).

Definition updateFields (id : string) (s : VolSets) : vM Volume :=
  if no_vol_sets s then get id
  else
    n ← checked (ErrVolDb "update") (λ d,
          if List.existsb (λ v, vol_is id v && List.existsb (λ w, negb (vol_is id w) && collides (apply_vol s v) w)
               (app_volumes d)) (app_volumes d)
          then inl ErrDuplicate
          else inr (on_app_volumes (upd (vol_is id) (apply_vol s)) d, cnt (vol_is id) (app_volumes d)));
    if (n =? 0)%nat then throw ErrVolNotFound else get id.

Definition delete (id : string) : vM unit :=
  n ← fallible (ErrVolDb "delete") (λ d,
        (on_app_volumes (del (vol_is id)) d, cnt (vol_is id) (app_volumes d)));
  if (n =? 0)%nat then throw ErrVolNotFound else mret tt.

(** ** The service *)

Record CreateInput := mkVolInput {
  vi_AppID : string; vi_Service : option string; vi_MountPath : string; vi_HostPath : option string;
  vi_IsNamed : bool; vi_ReadOnly : bool;
}.
Record UpdatePatch := mkVolPatch {
  vp_MountPath : option string; vp_HostPath : option string; vp_IsNamed : option bool; vp_ReadOnly : option bool;
}.

Section Service.
Context `{Unicode} (svc : Apps.Service).

(** [apps.Get], its "not found" reported as an invalid app. *)
Definition getApp (appID : string) : vM App :=
  r ← zoom (λ d, d) (λ d _, d)
        (λ e, match e with ErrAppNotFound => ErrVolInvalid "invalid_app_id" | e => ErrVolApp e end) (Apps.Get svc appID);
  mret r.1.

Definition findExisting (appID mount : string) : vM bool :=
  rows ← listByApp appID;
  mret (List.existsb (λ v, is_none (v_service v) && (v_mount_path v =s mount)) rows).

Definition Create (id : string) (inp : CreateInput) : vM Volume :=
  let appID := TrimSpace (vi_AppID inp) in
  _ ← when (appID =s "") (throw (ErrVolInvalid "invalid_app_id"));
  a ← getApp appID;
  service ← of_result (normaliseService (vi_Service inp));
  mount ← of_result (validateMountPath (vi_MountPath inp));
  host ← of_result (validateHostPath (vi_HostPath inp));
  _ ← of_result (validatePairing (vi_IsNamed inp) host);
  _ ← when (is_none service) (
        dup ← findExisting (a_id a) mount;
        when dup (throw ErrDuplicate));
  _ ← insert (mkVolume id (a_id a) service mount host (vi_IsNamed inp) (vi_ReadOnly inp));
  get id.

Definition List_ (appID : string) : vM (list Volume) := listByApp (TrimSpace appID).

Definition Get (id : string) : vM Volume :=
  let id := TrimSpace id in if id =s "" then throw ErrVolNotFound else get id.

(** The columns of the patch. *)
Definition host_set (p : UpdatePatch) : VolErr + option (option string) :=
  match vp_HostPath p with None => inr None | Some h => h ← validateHostPath (Some h); inr (Some h) end.
Definition mount_set (p : UpdatePatch) : VolErr + option string :=
  match vp_MountPath p with None => inr None | Some m => m ← validateMountPath m; inr (Some m) end.

Definition Update (id : string) (p : UpdatePatch) : vM Volume :=
  cur ← get id;
  let named := default (v_is_named cur) (vp_IsNamed p) in
  host ← of_result (host_set p);
  _ ← of_result (validatePairing named (default (v_host_path cur) host));
  mount ← of_result (mount_set p);
  updateFields id (mkVolSets mount host (vp_IsNamed p) (vp_ReadOnly p)).

Definition Delete (id : string) : vM unit := delete (TrimSpace id).
End Service.

(** ** Well-formed volumes *)

Definition path_ok (p : string) : Prop :=
  p ≠ "" ∧ (len p <= maxPathLen)%Z ∧ HasPrefix p "/" = true ∧ containsParentSegment p = false.

Record vol_ok (v : Volume) : Prop := {
  vo_mount : path_ok (v_mount_path v);
  vo_host : match v_host_path v with Some h => v_is_named v = false ∧ path_ok h | None => v_is_named v = true end;
  vo_service : stored_ok serviceRegex (v_service v);
}.

Record vols_wf (d : Db) : Prop := {
  vw_rows : ∀ v, v ∈ app_volumes d → vol_ok v;
  vw_ids : NoDup (v_id <$> app_volumes d);
  vw_apps : ∀ v, v ∈ app_volumes d → ∃ a, a ∈ apps d ∧ a_id a = v_app_id v;
  vw_unique : ∀ v w, v ∈ app_volumes d → w ∈ app_volumes d → collides v w = true → v = w;
}.

Lemma validate_path_ok code v r : v ≠ "" → validate_path code v = inr r → r = v ∧ path_ok v.
Proof.
  unfold validate_path. intros Hne. destruct (_ <? _)%Z eqn:E1; [done|]. destruct (HasPrefix v "/") eqn:E2; [|done]. simpl.
  destruct (containsParentSegment v) eqn:E3; [done|]. intros [= <-]. apply Z.ltb_ge in E1. by split_and!.
Qed.

Lemma validateMountPath_ok raw v : validateMountPath raw = inr v → path_ok v.
Proof.
  unfold validateMountPath. destruct (TrimSpace raw =s "") eqn:E; [done|]. apply String.eqb_neq in E.
  intros Hv. by destruct (validate_path_ok _ _ _ E Hv) as [-> ?].
Qed.

Lemma validateHostPath_ok inp h : validateHostPath inp = inr (Some h) → path_ok h ∧ isBlankPtr (Some h) = (TrimSpace h =s "").
Proof.
  unfold validateHostPath. destruct inp as [v|]; [|done]. cbv zeta. destruct (TrimSpace v =s "") eqn:E; [done|].
  apply String.eqb_neq in E. intros Hv. apply result_bind_inv in Hv as (x & Hx & [= ->]).
  by destruct (validate_path_ok _ _ _ E Hx) as [-> ?].
Qed.

Lemma normaliseService_ok inp s : normaliseService inp = inr s → stored_ok serviceRegex s.
Proof.
  unfold normaliseService. destruct inp as [v|]; [|by intros [= <-]]. cbv zeta. destruct (_ =s _); [by intros [= <-]|].
  destruct (MatchString _ _) eqn:E; [|done]. by intros [= <-] x [= <-].
Qed.

(** A path to store, alone or with the flag it goes with. *)
Definition host_ok (h : option string) : Prop := ∀ p, h = Some p → path_ok p.

Lemma pairing_ok named h u : validatePairing named h = inr u → host_ok h →
  match h with Some h => named = false ∧ path_ok h | None => named = true end.
Proof. unfold validatePairing. destruct named, h as [h|]; try done. intros _ Hh. split; [done|by apply Hh]. Qed.

Lemma collides_sym v w : collides v w = collides w v.
Proof.
  unfold collides. destruct (v_service v) as [s|], (v_service w) as [t|]; try done.
  by rewrite (String.eqb_sym (v_app_id v)), (String.eqb_sym s), (String.eqb_sym (v_mount_path v)).
Qed.

(** ** Every operation keeps them *)

Section Wf.
Context `{Unicode} (svc : Apps.Service).

Lemma get_reads I id : preserves I (get id).
Proof. apply preserves_bind; [apply preserves_query|]. intros [v|]; auto with app_wf. Qed.

Lemma getApp_reads I appID : preserves I (getApp svc appID).
Proof.
  apply preserves_bind; [|auto with app_wf]. intros d Hd. apply wp_zoom. intros fs.
  enough (Hr : (Apps.Get svc appID d fs).1.1 = d) by by rewrite Hr.
  revert fs. change (wp (Apps.Get svc appID) (λ d' _, d' = d) d). unfold Apps.Get. apply wp_if; intros _; [by apply wp_throw|].
  apply (wp_keep (λ d', d' = d)); [|done|done|].
  - destruct (MatchString _ _); [apply Apps.get_wf|apply getByName_wf].
  - intros d' a ->. unfold populateTags. destruct (sv_tags svc) as [t|]; [|by apply wp_ret].
    apply wp_bind, wp_attempt. intros fs. rewrite ForApp_reads. done.
Qed.

Lemma insert_vol_wf v : vol_ok v → preserves vols_wf (insert v).
Proof.
  intros Hok. apply preserves_checked. intros d [H1 H2 H3 H4].
  destruct (List.existsb (λ x, _) (app_volumes d)) eqn:E; [done|].
  destruct (List.existsb (app_is _) (apps d)) eqn:Ea; [|done]. apply existsb_witness in Ea as (a & Ha & Ea).
  apply String.eqb_eq in Ea.
  assert (Hnew : ∀ x, x ∈ app_volumes d → v_id x ≠ v_id v ∧ collides v x = false).
  { intros x Hx. pose proof (existsb_false_elem _ _ x E Hx) as Hf. unfold vol_is in Hf. bool_simp. done. }
  split; simpl.
  - intros x [Hx| ->%list_elem_of_singleton]%elem_of_app; auto.
  - rewrite fmap_app. apply NoDup_snoc; [done|]. intros (x & Hx & Hin)%list_elem_of_fmap. by destruct (Hnew x).
  - intros x [Hx| ->%list_elem_of_singleton]%elem_of_app; [auto|by exists a].
  - intros x y [Hx| ->%list_elem_of_singleton]%elem_of_app [Hy| ->%list_elem_of_singleton]%elem_of_app Hc; auto.
    + rewrite collides_sym in Hc. destruct (Hnew x Hx). congruence.
    + destruct (Hnew y Hy). congruence.
Qed.

Lemma create_vol_wf id inp : preserves vols_wf (Create svc id inp).
Proof.
  intros d Hd. unfold Create. apply (wp_keep vols_wf); [apply preserves_when; auto with app_wf|done|done|]. intros d1 _ Hd1.
  apply (wp_keep vols_wf); [apply getApp_reads|done|done|]. intros d2 a Hd2.
  apply wp_bind, wp_of_result. destruct (normaliseService _) as [e|service] eqn:Hs; [done|].
  apply wp_bind, wp_of_result. destruct (validateMountPath _) as [e|mount] eqn:Hm; [done|].
  apply wp_bind, wp_of_result. destruct (validateHostPath _) as [e|host] eqn:Hh; [done|].
  apply wp_bind, wp_of_result. destruct (validatePairing _ _) as [e|u] eqn:Hp; [done|].
  apply (wp_keep vols_wf); [|done|done|].
  { apply preserves_when, preserves_bind; [|intros dup; apply preserves_when; auto with app_wf].
    apply preserves_bind; [apply preserves_query|auto with app_wf]. }
  intros d3 _ Hd3. apply (wp_keep vols_wf); [|done|done|intros d4 _ Hd4; by apply get_reads].
  apply insert_vol_wf. split; simpl; [by eapply validateMountPath_ok| |by eapply normaliseService_ok].
  eapply pairing_ok; [done|]. intros p ->. by eapply validateHostPath_ok.
Qed.

Lemma update_vol_wf id p : preserves vols_wf (Update id p).
Proof.
  intros d Hd. unfold Update. apply wp_bind. unfold get. apply wp_bind, wp_query; [done|].
  destruct (sel (vol_is id) (app_volumes d)) as [cur|] eqn:Ec; [apply wp_ret|by apply wp_throw].
  apply sel_Some in Ec as [Hc Ec]. apply String.eqb_eq in Ec.
  apply wp_bind, wp_of_result. destruct (host_set p) as [e|host] eqn:Hh; [done|].
  apply wp_bind, wp_of_result. destruct (validatePairing _ _) as [e|u] eqn:Hp; [done|].
  apply wp_bind, wp_of_result. destruct (mount_set p) as [e|mount] eqn:Hm; [done|].
  unfold updateFields. destruct (no_vol_sets _); [by apply get_reads|]. set (s := mkVolSets _ _ _ _).
  apply wp_bind, wp_checked; [done|]. destruct (List.existsb _ _) eqn:E; [done|].
  enough (Hwf : vols_wf (on_app_volumes (upd (vol_is id) (apply_vol s)) d)).
  { destruct (_ =? 0)%nat; [by apply wp_throw|by apply get_reads]. }
  destruct Hd as [H1 H2 H3 H4].
  assert (Hcur : ∀ x, x ∈ app_volumes d → vol_is id x = true → x = cur).
  { intros x Hx Ex. apply (NoDup_fmap_inj v_id (app_volumes d)); [done|done|done|]. apply String.eqb_eq in Ex. congruence. }
  assert (Hok : vol_ok (apply_vol s cur)).
  { destruct (H1 cur Hc) as [O1 O2 O3]. split; simpl; [| |done].
    - unfold mount_set in Hm. destruct (vp_MountPath p) as [m|]; [|by injection Hm as <-].
      apply result_bind_inv in Hm as (x & Hx & [= <-]). by eapply validateMountPath_ok.
    - eapply pairing_ok; [done|]. intros q Hq. unfold host_set in Hh. destruct (vp_HostPath p) as [h|].
      + apply result_bind_inv in Hh as (x & Hx & [= <-]). simpl in Hq. subst x. by eapply validateHostPath_ok.
      + injection Hh as <-. simpl in Hq. rewrite Hq in O2. by destruct O2. }
  assert (Hfree : ∀ x, x ∈ app_volumes d → vol_is id x = false → collides (apply_vol s cur) x = false).
  { intros x Hx Ex. pose proof (existsb_false_elem _ _ cur E Hc) as Hf. cbv beta in Hf. unfold vol_is in Hf at 1.
    rewrite Ec, String.eqb_refl in Hf. simpl in Hf. pose proof (existsb_false_elem _ _ x Hf Hx) as Hg. cbv beta in Hg. by rewrite Ex in Hg. }
  split; simpl.
  - intros x (y & Hy & ->)%elem_of_upd. destruct (vol_is id y) eqn:Ey; [by rewrite (Hcur y Hy Ey)|auto].
  - change (NoDup (List.map v_id (upd (vol_is id) (apply_vol s) (app_volumes d)))). by rewrite map_upd.
  - intros x (y & Hy & ->)%elem_of_upd. destruct (H3 y Hy) as (a & Ha & Ea). exists a. by destruct (vol_is id y).
  - intros x y (x0 & Hx & ->)%elem_of_upd (y0 & Hy & ->)%elem_of_upd.
    destruct (vol_is id x0) eqn:Ex, (vol_is id y0) eqn:Ey; intros Hcol.
    + by rewrite (Hcur x0 Hx Ex), (Hcur y0 Hy Ey).
    + rewrite (Hcur x0 Hx Ex), Hfree in Hcol; done.
    + rewrite collides_sym, (Hcur y0 Hy Ey), Hfree in Hcol; done.
    + auto.
Qed.
Lemma delete_vol_wf id : preserves vols_wf (Delete id).
Proof.
  apply preserves_bind; [|intros n; destruct (n =? 0)%nat; auto with app_wf].
  intros d [H1 H2 H3 H4]. apply wp_fallible; [done|]. split; simpl.
  - intros v [Hv _]%elem_of_del. auto.
  - by apply NoDup_fmap_filter.
  - intros v [Hv _]%elem_of_del. auto.
  - intros v w [Hv _]%elem_of_del [Hw _]%elem_of_del. auto.
Qed.

(** The calls of the app service: deleting an app takes its volumes along. *)
Lemma apps_keep_vols c : preserves vols_wf (serve svc c).
Proof.
  apply serve_keeps.
  - intros d a [H1 H2 H3 H4]. split; simpl; [done|done| |done]. intros v Hv. destruct (H3 v Hv) as (x & Hx & ?). exists x. set_solver.
  - intros d id f Hf [H1 H2 H3 H4]. split; simpl; [done|done| |done]. intros v Hv. destruct (H3 v Hv) as (x & Hx & Ex).
    exists (if app_is id x then f x else x). split; [apply elem_of_upd; by exists x|]. destruct (app_is id x); [by rewrite Hf|done].
  - intros d id [H1 H2 H3 H4]. split; simpl.
    + intros v [Hv _]%elem_of_del. auto.
    + by apply NoDup_fmap_filter.
    + intros v [Hv Hn]%elem_of_del. destruct (H3 v Hv) as (x & Hx & Ex). exists x. split; [|done]. apply elem_of_del.
      split; [done|]. unfold app_is. by rewrite Ex.
    + intros v w [Hv _]%elem_of_del [Hw _]%elem_of_del. auto.
Qed.

Inductive vol_call :=
  | VCreate (id : string) (inp : CreateInput)
  | VUpdate (id : string) (p : UpdatePatch)
  | VDelete (id : string)
  | VApp (c : call).

(** A request to either service; the errors are dropped. *)
Definition vol_serve (c : vol_call) (fs : list bool) (d : Db) : Db :=
  match c with
  | VCreate id inp => (Create svc id inp d fs).1.1
  | VUpdate id p => (Update id p d fs).1.1
  | VDelete id => (Delete id d fs).1.1
  | VApp c => (serve svc c d fs).1.1
  end.

(** Along every history of calls to the volume and app services, with
    faults anywhere, every volume belongs to an app, its paths are absolute
    without parent segments, it is either named or bound to a host path, and no
    two volumes of a service are mounted at the same path. *)
Theorem volumes_typed l d : vols_wf d → vols_wf (foldl (λ d c, vol_serve c.1 c.2 d) d l).
Proof.
  revert d. induction l as [|[c fs] l IH]; intros d Hd; [done|]. apply IH. destruct c as [id inp|id p|id|c]; simpl.
  - by apply create_vol_wf.
  - by apply update_vol_wf.
  - by apply delete_vol_wf.
  - by apply apps_keep_vols.
Qed.
End Wf.

(** ** Where the code and its comments differ *)

(** The check of Create for volumes without a service is not made by Update:
    two volumes of one container end up at the same path. *)
Definition two_vols : Db :=
  on_app_volumes (λ _, [mkVolume "v1" "a" None "/data" None true false; mkVolume "v2" "a" None "/logs" None true false])
    (on_apps (λ _, [bare_app "a" "web" None None true]) empty_db).
Lemma update_collides :
  ∃ v, (run (Update "v2" (mkVolPatch (Some "/data") None None None)) two_vols).2 = inr v ∧ v_mount_path v = "/data" ∧
  (run (Create (mkService false None None) "v3" (mkVolInput "web" None "/data" None true false)) two_vols).2 = inl ErrDuplicate.
Proof. eexists. split_and!; vm_compute; reflexivity. Qed.

Lemma two_vols_wf : vols_wf two_vols.
Proof.
  split.
  - apply list.Forall_forall. repeat constructor; by vm_compute.
  - apply (bool_decide_unpack _). by vm_compute.
  - apply list.Forall_forall. repeat constructor; exists (bare_app "a" "web" None None true); (split; [left|done]).
  - intros v w Hv Hw. simpl in Hv, Hw. rewrite !elem_of_cons in Hv, Hw. by destruct Hv as [->|[->|Hv%not_elem_of_nil]], Hw as [->|[->|Hw%not_elem_of_nil]].
Qed.

Lemma volumes_typed_witness : vols_wf (vol_serve (H := ascii_only) (mkService false None None) (VDelete "v1") [] two_vols).
Proof. exact (volumes_typed (H := ascii_only) (mkService false None None) [(VDelete "v1", [])] two_vols two_vols_wf). Defined.
