(* ===== verification/Secrets.v ===== *)
(** * Secrets of an app (internal/secret)

    Values are encrypted before they are stored and decrypted for the deploy
    engine only.  The service iterates over a map; the orders in which Go's
    runtime visits it are arguments, as lists of its entries, and so are the
    row ids and the nonces the encryption draws. *)

From S2P Require Import Prelude Effects GoStrings Regex Schema Cipher Apps.
From stdpp Require Import gmap.

Inductive SecretErr :=
  | ErrSecretNotFound
  | ErrSecretInvalid (code : string)
  | ErrCipher (key : string) (e : CipherErr)
  | ErrSecretDb (where_ : string).

(** The projection without the value. *)
Record Secret := mkSecretMeta {
  sm_ID : string; sm_AppID : string; sm_Key : string; sm_IsBuildTime : bool; sm_IsMultiline : bool;
}.
Definition meta (r : SecretRow) : Secret :=
  mkSecretMeta (se_id r) (se_app_id r) (se_key r) (se_is_build_time r) (se_is_multiline r).

Definition keyRegex : re := Cat (Cls AZ) (Star (Cls (λ z, AZ z || d09 z || (z =? 95)%Z))).

Record UpsertItem := mkItem { it_Value : string; it_IsBuildTime : bool; it_IsMultiline : bool }.

(** ** The repository *)

Local Abbreviation sM := (M Db SecretErr).

Definition secret_of (appID : string) (r : SecretRow) : bool := se_app_id r =s appID.
Definition secret_is (appID key : string) (r : SecretRow) : bool := secret_of appID r && (se_key r =s key).

Definition set_secret (value : string) (build multi : bool) (r : SecretRow) : SecretRow :=
  mkSecret (se_id r) (se_app_id r) (se_key r) value build multi.

(** [ON CONFLICT(app_id, key) DO UPDATE]. *)
Definition upsert (id appID key encrypted : string) (build multi : bool) : sM unit :=
  checked (ErrSecretDb "upsert") (λ d,
    if List.existsb (secret_is appID key) (secrets d)
    then inr (on_secrets (upd (secret_is appID key) (set_secret encrypted build multi)) d, tt)
    else if List.existsb (λ r, se_id r =s id) (secrets d) || negb (List.existsb (app_is appID) (apps d))
    then inl (ErrSecretDb "upsert")
    else inr (on_secrets (λ l, l ++ [mkSecret id appID key encrypted build multi]) d, tt)).

(** [ORDER BY key ASC]. *)
Definition key_le (r r' : SecretRow) : bool := String.leb (se_key r) (se_key r').

Definition list_secrets (appID : string) : sM (list Secret) :=
  query (ErrSecretDb "list") (λ d, meta <$> sort_by key_le (List.filter (secret_of appID) (secrets d))).

Definition listWithValues (appID : string) (buildTime : option bool) : sM (list SecretRow) :=
  query (ErrSecretDb "list") (λ d, sort_by key_le (List.filter (λ r, secret_of appID r &&
    match buildTime with None => true | Some b => Bool.eqb (se_is_build_time r) b end) (secrets d))).

Definition delete (appID key : string) : sM unit :=
  n ← fallible (ErrSecretDb "delete") (λ d,
        (on_secrets (del (secret_is appID key)) d, cnt (secret_is appID key) (secrets d)));
  if (n =? 0)%nat then throw ErrSecretNotFound else mret tt.

(** ** The service *)

Section Service.
Context `{AeadLib} (cipher : Cipher).

Definition List_ (appID : string) : sM (list Secret) := list_secrets appID.

Definition validate_item (k : string) (v : UpsertItem) : SecretErr + unit :=
  if negb (MatchString keyRegex k) then inl (ErrSecretInvalid "invalid_key")
  else if it_Value v =s "" then inl (ErrSecretInvalid "empty_value")
  else inr tt.
Fixpoint validate_items (items : list (string * UpsertItem)) : SecretErr + unit :=
  match items with
  | [] => inr tt
  | (k, v) :: items => _ ← validate_item k v; validate_items items
  end.

(** One write: its entry, the id of the row and the nonce. *)
Record Write := mkWrite { w_key : string; w_item : UpsertItem; w_id : string; w_nonce : option string }.

Fixpoint write_items (appID : string) (ws : list Write) : sM unit :=
  match ws with
  | [] => mret tt
  | w :: ws =>
    enc ← of_result (match Encrypt cipher (w_nonce w) (it_Value (w_item w)) with
                     | inl e => inl (ErrCipher (w_key w) e)
                     | inr enc => inr enc
                     end);
    _ ← upsert (w_id w) appID (w_key w) enc (it_IsBuildTime (w_item w)) (it_IsMultiline (w_item w));
    write_items appID ws
  end.

Definition Upsert (appID : string) (checks : list (string * UpsertItem)) (writes : list Write) : sM unit :=
  if is_nil checks then mret tt
  else _ ← of_result (validate_items checks); write_items appID writes.

Definition Delete (appID key : string) : sM unit :=
  let key := TrimSpace key in
  if key =s "" then throw (ErrSecretInvalid "missing_key") else delete appID key.

Fixpoint decrypt_all (rows : list SecretRow) : SecretErr + list (Secret * string) :=
  match rows with
  | [] => inr []
  | r :: rows =>
    pt ← (match Decrypt cipher (se_value r) with inl e => inl (ErrCipher (se_key r) e) | inr pt => inr pt end);
    out ← decrypt_all rows;
    inr ((meta r, pt) :: out)
  end.

Definition resolve (appID : string) (buildTime : option bool) : sM (list (Secret * string)) :=
  rows ← listWithValues appID buildTime;
  of_result (decrypt_all rows).

Definition Resolve (appID : string) : sM (list (Secret * string)) := resolve appID None.

(** [out[r.Key] = r.Value] for every row. *)
Definition to_map (rows : list (Secret * string)) : gmap string string :=
  foldl (λ m r, <[sm_Key r.1 := r.2]> m) ∅ rows.
Definition ResolveBuildTime (appID : string) : sM (gmap string string) :=
  rows ← resolve appID (Some true); mret (to_map rows).
Definition ResolveRuntime (appID : string) : sM (gmap string string) :=
  rows ← resolve appID (Some false); mret (to_map rows).
End Service.

(** ** What is stored *)

Section View.
Context `{AeadLib} `{!AeadLaws} (cipher : Cipher).

Definition row_key (r : SecretRow) : string * string := (se_app_id r, se_key r).

Record secrets_wf (d : Db) : Prop := {
  sw_unique : NoDup (row_key <$> secrets d);
  sw_open : ∀ r, r ∈ secrets d → ∃ pt, Decrypt cipher (se_value r) = inr pt;
  sw_keys : ∀ r, r ∈ secrets d → MatchString keyRegex (se_key r) = true;
  sw_apps : ∀ r, r ∈ secrets d → ∃ a, a ∈ apps d ∧ a_id a = se_app_id r;
}.

(** The value a key of an app stands for, and whether it is for builds. *)
Definition plain (d : Db) (appID key : string) : option (string * bool) :=
  r ← sel (secret_is appID key) (secrets d);
  match Decrypt cipher (se_value r) with inr pt => Some (pt, se_is_build_time r) | inl _ => None end.

Lemma secret_is_key appID key r : secret_is appID key r = true ↔ row_key r = (appID, key).
Proof.
  unfold secret_is, secret_of, row_key. rewrite andb_true_iff, !String.eqb_eq. split; [by intros [-> ->]|by intros [= -> ->]].
Qed.

Lemma plain_row d appID key pt b : secrets_wf d →
  plain d appID key = Some (pt, b) ↔
  ∃ r, r ∈ secrets d ∧ row_key r = (appID, key) ∧ Decrypt cipher (se_value r) = inr pt ∧ se_is_build_time r = b.
Proof.
  intros Hwf. unfold plain. split.
  - destruct (sel _ _) as [r|] eqn:E; [|done]. simpl. apply sel_Some in E as [Hr E%secret_is_key].
    destruct (Decrypt _ _) as [e|x] eqn:Ed; [done|]. intros [= <- <-]. by exists r.
  - intros (r & Hr & Ek & Ed & Eb). destruct (sel_is_Some (secret_is appID key) (secrets d) r Hr) as [r' E]; [by apply secret_is_key|].
    rewrite E. simpl. apply sel_Some in E as [Hr' E%secret_is_key].
    assert (r' = r) as -> by (apply (NoDup_fmap_inj row_key (secrets d)); [apply Hwf|done|done|congruence]).
    by rewrite Ed, Eb.
Qed.

(** ** Resolving *)

(** The result of [decrypt_all] and its map. *)
Lemma decrypt_all_ok rows : (∀ r, r ∈ rows → ∃ pt, Decrypt cipher (se_value r) = inr pt) →
  ∃ out, decrypt_all cipher rows = inr out ∧
    Forall2 (λ r o, sm_Key o.1 = se_key r ∧ Decrypt cipher (se_value r) = inr o.2) rows out.
Proof.
  induction rows as [|r rows IH]; intros Ho; [by exists []|].
  destruct (Ho r) as [pt Hpt]; [left|]. destruct IH as (out & Eo & H2); [intros x Hx; apply Ho; by right|].
  exists ((meta r, pt) :: out). split; [|by constructor]. simpl. by rewrite Hpt, Eo.
Qed.

Lemma to_map_lookup (out : list (Secret * string)) m k : NoDup ((λ o, sm_Key o.1) <$> out) →
  foldl (λ (m : gmap string string) o, <[sm_Key o.1 := o.2]> m) m out !! k =
  match List.find (λ o, sm_Key o.1 =s k) out with Some o => Some o.2 | None => m !! k end.
Proof.
  revert m. induction out as [|o out IH]; intros m Hnd; [done|]. simpl in *. apply NoDup_cons in Hnd as [Hn Hnd].
  rewrite IH by done. destruct (sm_Key o.1 =s k) eqn:E.
  - apply String.eqb_eq in E. subst k. destruct (List.find _ out) as [o'|] eqn:Ef; [|by rewrite lookup_insert_eq].
    apply List.find_some in Ef as [Hin Ek]. apply String.eqb_eq in Ek. destruct Hn. rewrite <- Ek.
    apply list_elem_of_In, (List.in_map (λ o, sm_Key o.1)), Hin.
  - apply String.eqb_neq in E. destruct (List.find _ out); [done|]. by rewrite lookup_insert_ne.
Qed.

Lemma Forall2_keys rows (out : list (Secret * string)) :
  Forall2 (λ r o, sm_Key o.1 = se_key r ∧ Decrypt cipher (se_value r) = inr o.2) rows out →
  (λ o, sm_Key o.1) <$> out = se_key <$> rows.
Proof. induction 1 as [|r o rows out [Hk _] _ IH]; [done|]. csimpl. by rewrite Hk, IH. Qed.

(** The rows of one app with one flag have distinct keys. *)
Definition pick (appID : string) (b : bool) (d : Db) : list SecretRow :=
  sort_by key_le (List.filter (λ r, secret_of appID r && Bool.eqb (se_is_build_time r) b) (secrets d)).

Lemma pick_elem appID b d r : r ∈ pick appID b d ↔ r ∈ secrets d ∧ se_app_id r = appID ∧ se_is_build_time r = b.
Proof.
  unfold pick. rewrite sort_by_elem, elem_of_filter_b, andb_true_iff. unfold secret_of.
  rewrite String.eqb_eq, eqb_true_iff. tauto.
Qed.

Lemma pick_keys appID b d : secrets_wf d → NoDup (se_key <$> pick appID b d).
Proof.
  intros Hwf. unfold pick. set (p := λ r, _).
  assert (Hnd : NoDup (row_key <$> sort_by key_le (List.filter p (secrets d)))).
  { rewrite (sort_by_perm key_le). apply NoDup_fmap_filter, Hwf. }
  eapply (NoDup_fmap_1 (λ k, (appID, k))). rewrite <- list_fmap_compose.
  erewrite list_fmap_ext; [exact Hnd|]. intros i r Hr. simpl. unfold row_key.
  apply list_elem_of_lookup_2 in Hr. change (r ∈ pick appID b d) in Hr. by apply pick_elem in Hr as (_ & -> & _).
Qed.

Lemma resolve_map appID b d : secrets_wf d → ∃ out,
  run (resolve cipher appID (Some b)) d = (d, inr out) ∧
  ∀ k, to_map out !! k = match plain d appID k with Some (v, b') => if Bool.eqb b b' then Some v else None | None => None end.
Proof.
  intros Hwf. destruct (decrypt_all_ok (pick appID b d)) as (out & Eo & H2).
  { intros r (Hr & _)%pick_elem. by apply Hwf. }
  exists out. split; [unfold run, resolve, mbind, M_bind, bind, listWithValues, query, fallible, of_result; simpl; fold (pick appID b d); by rewrite Eo|].
  intros k. unfold to_map. rewrite to_map_lookup; [|rewrite (Forall2_keys _ _ H2); by apply pick_keys]. rewrite lookup_empty.
  destruct (List.find _ out) as [o|] eqn:Ef.
  - apply List.find_some in Ef as [Hin Ek]. apply String.eqb_eq in Ek. apply list_elem_of_In in Hin.
    apply list_elem_of_lookup in Hin as [i Hi]. destruct (Forall2_lookup_r _ _ _ _ _ H2 Hi) as (r & Hr & Er & Ed).
    apply list_elem_of_lookup_2, pick_elem in Hr as (Hr & Ha & Hb).
    assert (plain d appID k = Some (o.2, b)) as ->.
    { apply plain_row; [done|]. exists r. split_and!; [done| |done|done]. unfold row_key. congruence. }
    by rewrite eqb_reflx.
  - destruct (plain d appID k) as [[v b']|] eqn:Ep; [|done]. destruct (Bool.eqb b b') eqn:Eb; [|done].
    apply eqb_prop in Eb. subst b'. apply plain_row in Ep as (r & Hr & Ek & Ed & Eb); [|done]. injection Ek as Ea Ek.
    assert (Hp : r ∈ pick appID b d) by (apply pick_elem; done). apply list_elem_of_lookup in Hp as [i Hi].
    destruct (Forall2_lookup_l _ _ _ _ _ H2 Hi) as (o & Ho & Eo' & _).
    assert (Hin : In o out) by (by apply list_elem_of_In; eapply list_elem_of_lookup_2).
    pose proof (List.find_none _ _ Ef o Hin) as Hf. simpl in Hf. rewrite Eo', Ek, String.eqb_refl in Hf. done.
Qed.

(** ** Writing *)

Definition entry_of (w : Write) : string * UpsertItem := (w_key w, w_item w).
Definition nonce_ok (w : Write) : Prop := ∀ n, w_nonce w = Some n → len n = nonceLen.

(** The batch is stored, and no other value has changed. *)
Definition written (appID : string) (ws : list Write) (d d' : Db) : Prop :=
  (∀ w, w ∈ ws → plain d' appID (w_key w) = Some (it_Value (w_item w), it_IsBuildTime (w_item w))) ∧
  ∀ a k, (a = appID → k ∉ w_key <$> ws) → plain d' a k = plain d a k.

(** One statement changes the value of one key of one app. *)
Lemma upsert_secret_wp id appID key value enc build multi d : secrets_wf d → MatchString keyRegex key = true →
  Decrypt cipher enc = inr value →
  wp (upsert id appID key enc build multi) (λ d' r, secrets_wf d' ∧ apps d' = apps d ∧
    match r with
    | inl _ => d' = d
    | inr _ => ∀ a k, plain d' a k = if (a =s appID) && (k =s key) then Some (value, build) else plain d a k
    end) d.
Proof.
  intros Hwf Hkey Henc. destruct Hwf as [U O K A]. apply wp_checked; [by split; [split|]|].
  assert (Hset : ∀ r, row_key (set_secret enc build multi r) = row_key r) by done.
  assert (Hcase : ∀ a k, (a =s appID) && (k =s key) = true ↔ a = appID ∧ k = key)
    by (intros; by rewrite andb_true_iff, !String.eqb_eq).
  destruct (List.existsb (secret_is appID key) (secrets d)) eqn:E.
  - apply existsb_witness in E as (r0 & Hr0 & E0). split_and!; [split; simpl| |].
    + change (NoDup (List.map row_key (upd (secret_is appID key) (set_secret enc build multi) (secrets d)))). by rewrite map_upd.
    + intros r (x & Hx & ->)%elem_of_upd. destruct (secret_is _ _ x); [by exists value|auto].
    + intros r (x & Hx & ->)%elem_of_upd. destruct (secret_is _ _ x); simpl; auto.
    + intros r (x & Hx & ->)%elem_of_upd. destruct (secret_is _ _ x); simpl; auto.
    + done.
    + intros a k. unfold plain. simpl. rewrite sel_upd; [|intros r; done].
      destruct ((a =s appID) && (k =s key)) eqn:C.
      * apply Hcase in C as [-> ->]. destruct (sel_is_Some _ _ _ Hr0 E0) as [r1 Er1]. rewrite Er1. simpl.
        apply sel_Some in Er1 as [_ Er1]. rewrite Er1. simpl. by rewrite Henc.
      * destruct (sel (secret_is a k) (secrets d)) as [r|] eqn:Es; [|done]. simpl. apply sel_Some in Es as [_ Es%secret_is_key].
        destruct (secret_is appID key r) eqn:Er; [|done]. apply secret_is_key in Er. rewrite Es in Er. injection Er as -> ->.
        by rewrite !String.eqb_refl in C.
  - destruct (_ || _) eqn:Eb; [by split; [split|]|]. apply orb_false_iff in Eb as [_ Eb%negb_false_iff].
    apply existsb_witness in Eb as (a0 & Ha0 & Ea0).
    apply String.eqb_eq in Ea0. set (new := mkSecret _ _ _ _ _ _). split_and!; [split; simpl| |].
    + rewrite fmap_app. apply NoDup_snoc; [done|]. intros (r & Hr & Hin)%list_elem_of_fmap.
      pose proof (existsb_false_elem _ _ r E Hin) as Hf. apply not_true_iff_false in Hf. apply Hf, secret_is_key. done.
    + intros r [Hr| ->%list_elem_of_singleton]%elem_of_app; [auto|by exists value].
    + intros r [Hr| ->%list_elem_of_singleton]%elem_of_app; auto.
    + intros r [Hr| ->%list_elem_of_singleton]%elem_of_app; [auto|by exists a0].
    + done.
    + intros a k. unfold plain. simpl. rewrite sel_app. destruct ((a =s appID) && (k =s key)) eqn:C.
      * apply Hcase in C as [-> ->]. destruct (sel (secret_is appID key) (secrets d)) as [r|] eqn:Es.
        { apply sel_Some in Es as [Hr Es]. by rewrite (existsb_false_elem _ _ r E Hr) in Es. }
        unfold sel. simpl. unfold secret_is, secret_of. simpl. rewrite !String.eqb_refl. simpl. by rewrite Henc.
      * destruct (sel (secret_is a k) (secrets d)) as [r|] eqn:Es; [done|]. unfold sel. simpl.
        unfold secret_is, secret_of. simpl. rewrite (String.eqb_sym appID), (String.eqb_sym key), C. done.
Qed.

Lemma write_items_wp appID ws : ∀ d, secrets_wf d → (∀ w, w ∈ ws → MatchString keyRegex (w_key w) = true ∧ nonce_ok w) →
  NoDup (w_key <$> ws) →
  wp (write_items cipher appID ws) (λ d' r, secrets_wf d' ∧
    match r with
    | inl _ => True
    | inr _ => written appID ws d d'
    end) d.
Proof.
  induction ws as [|w ws IH]; intros d Hwf Hws Hnd; simpl.
  - apply wp_ret. split; [done|]. split; [|done]. by intros w Hw%not_elem_of_nil.
  - apply wp_bind, wp_of_result. destruct (Hws w) as [Hk Hn]; [left|].
    destruct (Encrypt cipher (w_nonce w) _) as [e|enc] eqn:Ee; [done|].
    assert (Hdec : Decrypt cipher enc = inr (it_Value (w_item w))).
    { unfold Encrypt in Ee. destruct (w_nonce w) as [n|] eqn:En; [|done]. destruct (decrypt_encrypt cipher n (it_Value (w_item w))) as (ct & Ec & Hd); [by apply Hn|].
      unfold Encrypt in Ec. congruence. }
    apply wp_bind. eapply wp_mono; [by eapply (upsert_secret_wp _ _ _ (it_Value (w_item w)))|].
    intros d1 [e|[]] (Hwf1 & _ & Hp); [by split|]. simpl in Hnd. apply NoDup_cons in Hnd as [Hnew Hnd].
    eapply wp_mono; [apply IH; [done|intros x Hx; apply Hws; by right|done]|].
    intros d2 [e|[]] [Hwf2 H2]; (split; [done|]); [done|]. destruct H2 as [H2 H3]. split.
    + intros x [->|Hx]%elem_of_cons; [|by apply H2]. rewrite H3, Hp; [by rewrite !String.eqb_refl|done].
    + intros a k Hak. rewrite H3, Hp; [|intros ->; specialize (Hak eq_refl); set_solver].
      destruct ((a =s appID) && (k =s w_key w)) eqn:C; [|done]. apply andb_true_iff in C as [->%String.eqb_eq ->%String.eqb_eq].
      specialize (Hak eq_refl). set_solver.
Qed.

Lemma validate_items_ok items u : validate_items items = inr u → ∀ x, x ∈ items → MatchString keyRegex x.1 = true.
Proof.
  induction items as [|[k v] items IH]; intros Hv x Hx; [by apply not_elem_of_nil in Hx|]. simpl in Hv.
  apply result_bind_inv in Hv as ([] & Hi & Hv). apply elem_of_cons in Hx as [->|Hx]; [|by apply IH].
  unfold validate_item in Hi. change (MatchString keyRegex k = true). by destruct (MatchString keyRegex k).
Qed.

(** C16: A batch of secrets that is stored comes back to the deploy engine: the
    runtime map and the build map hold exactly the values of the batch with
    their flag, and for every other key what they held before.  Whatever fails,
    every stored secret can still be decrypted. *)
Theorem secrets_roundtrip appID checks writes d :
  secrets_wf d → checks ≡ₚ entry_of <$> writes → NoDup (w_key <$> writes) → (∀ w, w ∈ writes → nonce_ok w) →
  wp (Upsert cipher appID checks writes) (λ d' r, secrets_wf d' ∧
    match r with
    | inl _ => True
    | inr _ => ∃ rt bt, run (ResolveRuntime cipher appID) d' = (d', inr rt) ∧
        run (ResolveBuildTime cipher appID) d' = (d', inr bt) ∧
        (∀ w, w ∈ writes → let '(here, there) := if it_IsBuildTime (w_item w) then (bt, rt) else (rt, bt) in
          here !! w_key w = Some (it_Value (w_item w)) ∧ there !! w_key w = None) ∧
        ∀ a k, (a = appID → k ∉ w_key <$> writes) → plain d' a k = plain d a k
    end) d.
Proof.
  intros Hwf Hperm Hnd Hn.
  enough (Hw : wp (Upsert cipher appID checks writes) (λ d' r, secrets_wf d' ∧
    match r with
    | inl _ => True
    | inr _ => written appID writes d d'
    end) d).
  { eapply wp_mono; [exact Hw|]. intros d' [e|[]] [Hwf' Hr]; (split; [done|]); [done|]. destruct Hr as [H1 H2].
    destruct (resolve_map appID false d' Hwf') as (rt & Er & Hrt), (resolve_map appID true d' Hwf') as (bt & Eb & Hbt).
    exists (to_map rt), (to_map bt). split_and!; [| | |done].
    - unfold ResolveRuntime, run, mbind, M_bind, bind in *. destruct (resolve _ _ (Some false) d' []) as [[? ?] ?]. by injection Er as -> ->.
    - unfold ResolveBuildTime, run, mbind, M_bind, bind in *. destruct (resolve _ _ (Some true) d' []) as [[? ?] ?]. by injection Eb as -> ->.
    - intros w Hin. specialize (H1 w Hin). destruct (it_IsBuildTime (w_item w)); by rewrite Hrt, Hbt, H1. }
  unfold Upsert. destruct (is_nil checks) eqn:E.
  - destruct checks; [|done]. symmetry in Hperm. apply Permutation_nil_r in Hperm. destruct writes; [|done].
    apply wp_ret. split; [done|]. split; [|done]. by intros w Hw%not_elem_of_nil.
  - apply wp_bind, wp_of_result. destruct (validate_items checks) as [e|u] eqn:Ev; [done|]. apply write_items_wp; [done| |done].
    intros w Hw. split; [|by apply Hn]. apply (validate_items_ok _ _ Ev (entry_of w)). rewrite Hperm.
    apply list_elem_of_fmap. by exists w.
Qed.
End View.

(** ** Example *)

Definition ex_nonce : string := "012345678901".
Definition ex_writes : list Write :=
  [mkWrite "DB_URL" (mkItem "postgres://db" false false) "s1" (Some ex_nonce);
   mkWrite "NPM_TOKEN" (mkItem "npm_x" true false) "s2" (Some ex_nonce)].
Definition ex_checks : list (string * UpsertItem) := reverse (entry_of <$> ex_writes).

Lemma ex_secrets_wf : secrets_wf (H := toy_aead) "k" ex_db.
Proof. split; simpl; [constructor|..]; by intros r Hr%not_elem_of_nil. Qed.

Lemma secrets_roundtrip_witness :
  let d' := (run (Upsert (H := toy_aead) "k" "a" ex_checks ex_writes) ex_db).1 in
  ∃ rt bt, run (ResolveRuntime (H := toy_aead) "k" "a") d' = (d', inr rt) ∧
    run (ResolveBuildTime (H := toy_aead) "k" "a") d' = (d', inr bt) ∧
    rt !! "DB_URL" = Some "postgres://db" ∧ bt !! "NPM_TOKEN" = Some "npm_x" ∧ rt !! "NPM_TOKEN" = None.
Proof.
  intros d'.
  assert (Hp : ex_checks ≡ₚ entry_of <$> ex_writes) by (unfold ex_checks; by rewrite reverse_Permutation).
  assert (Hd : NoDup (w_key <$> ex_writes)) by (apply (bool_decide_unpack _); by vm_compute).
  assert (Hn : ∀ w, w ∈ ex_writes → nonce_ok w).
  { apply list.Forall_forall. unfold nonce_ok. repeat constructor; by intros n [= <-]. }
  pose proof (secrets_roundtrip (H := toy_aead) (H0 := toy_aead_laws) "k" "a" _ _ ex_db ex_secrets_wf Hp Hd Hn) as Hw.
  apply wp_run in Hw. fold d' in Hw. destruct Hw as [_ Hr].
  destruct (run (Upsert (H := toy_aead) "k" "a" ex_checks ex_writes) ex_db).2 as [e|u] eqn:E; [by vm_compute in E|].
  destruct Hr as (rt & bt & H1 & H2 & H3 & _). exists rt, bt. split; [exact H1|]. split; [exact H2|].
  destruct (H3 (mkWrite "DB_URL" (mkItem "postgres://db" false false) "s1" (Some ex_nonce))) as [H4 _]; [left|].
  destruct (H3 (mkWrite "NPM_TOKEN" (mkItem "npm_x" true false) "s2" (Some ex_nonce))) as [H5 H6]; [right; left|]. by split_and!.
Defined.

(** The batch is not one transaction: when its second write fails the first one
    stays. *)
Lemma upsert_partial :
  let '(d', _, r) := Upsert (H := toy_aead) "k" "a" ex_checks ex_writes ex_db [false; true] in
  r = inl (ErrSecretDb "upsert") ∧ plain (H := toy_aead) "k" d' "a" "DB_URL" = Some ("postgres://db", false).
Proof. vm_compute. done. Qed.
