(* ===== verification/ApiTokens.v ===== *)
(** * Personal API tokens (internal/apitoken)

    Tokens are issued once in clear, stored as SHA-256 hashes, and present
    their owner to the authentication middleware.  Times are nanoseconds since
    the epoch; the columns hold seconds.  Random bytes and clocks are
    arguments, SHA-256 is that of [CryptoLib]. *)

From S2P Require Import Prelude Effects GoStrings Decimal Schema CryptoLib Cipher.

Inductive TokenErr :=
  | ErrTokenNotFound
  | ErrRevoked
  | ErrExpired
  | ErrBadName
  | ErrBadExpiry
  | ErrBadFormat
  | ErrTokenDb (where_ : string).

Definition TokenPrefix : string := "prx_pat_".
Definition second : Z := 1000000000.
(** [t.Unix()]. *)
Definition Unix (t : Z) : Z := (t / second)%Z.

(** [base64.RawURLEncoding.EncodeToString]: the URL alphabet, no padding. *)
Definition url_char (c : ascii) : ascii :=
  if Ascii.eqb c "+"%char then "-"%char else if Ascii.eqb c "/"%char then "_"%char else c.
Definition not_pad (c : ascii) : bool := negb (Ascii.eqb c pad).
Definition raw_url_encode (s : string) : string :=
  String.string_of_list_ascii (url_char <$> List.filter not_pad (b64_encode (String.list_ascii_of_string s))).

Record Token := mkToken {
  tk_ID : string; tk_UserID : string; tk_Name : string; tk_LastFour : string; tk_ExpiresAt : option Z;
  tk_LastUsedAt : option Z; tk_RevokedAt : option Z; tk_CreatedAt : Z;
}.

Local Abbreviation tM := (M Db TokenErr).

Definition hash_is (h : string) (t : ApiToken) : bool := at_token_hash t =s h.
Definition set_token_revoked (now : Z) (t : ApiToken) : ApiToken :=
  mkApiToken (at_id t) (at_user_id t) (at_name t) (at_token_hash t) (at_last_four t) (at_expires_at t)
    (at_last_used_at t) (Some now) (at_created_at t).
Definition set_last_used (now : Z) (t : ApiToken) : ApiToken :=
  mkApiToken (at_id t) (at_user_id t) (at_name t) (at_token_hash t) (at_last_four t) (at_expires_at t)
    (Some now) (at_revoked_at t) (at_created_at t).

Section Service.
Context `{CryptoLib}.

Definition generateRaw (rand : string) : string := TokenPrefix ^^ raw_url_encode rand.
Definition hashRaw (raw : string) : string := sha256_hex raw.

(** PRIMARY KEY, UNIQUE (token_hash) and the reference to the user. *)
Definition insert_token (t : ApiToken) : tM unit :=
  checked (ErrTokenDb "insert") (λ d,
    if List.existsb (λ x, (at_id x =s at_id t) || hash_is (at_token_hash t) x) (api_tokens d)
       || negb (List.existsb (λ u, u_id u =s at_user_id t) (users d))
    then inl (ErrTokenDb "insert") else inr (on_api_tokens (λ l, l ++ [t]) d, tt)).

(** [rand]: the random bytes of the token; [hexID]: those of the id, in
    hexadecimal. *)
Definition Create (userID name : string) (expiresAt : option Z) (rand hexID : string) (now : Z) : tM (Token * string) :=
  let name := TrimSpace name in
  if (name =s "") || (100 <? len name)%Z then throw ErrBadName
  else if match expiresAt with Some e => negb (now <? e)%Z | None => false end then throw ErrBadExpiry
  else
    let raw := generateRaw rand in
    let lastFour := drop_s (String.length raw - 4) raw in
    let id := "tok_" ^^ hexID in
    _ ← insert_token (mkApiToken id userID name (hashRaw raw) lastFour (Unix <$> expiresAt) None None (Unix now));
    mret (mkToken id userID name lastFour expiresAt None None now, raw).

(** [ORDER BY created_at DESC]. *)
Definition newest (a b : ApiToken) : bool := (at_created_at b <=? at_created_at a)%Z.
Definition scanToken (t : ApiToken) : Token :=
  mkToken (at_id t) (at_user_id t) (at_name t) (at_last_four t) (Z.mul second <$> at_expires_at t)
    (Z.mul second <$> at_last_used_at t) (Z.mul second <$> at_revoked_at t) (second * at_created_at t).
Definition List_ (userID : string) : tM (list Token) :=
  query (ErrTokenDb "list") (λ d, scanToken <$> sort_by newest
    (List.filter (λ t, (at_user_id t =s userID) && match at_revoked_at t with None => true | Some _ => false end) (api_tokens d))).

Definition revocable (userID tokenID : string) (t : ApiToken) : bool :=
  (at_id t =s tokenID) && (at_user_id t =s userID) && match at_revoked_at t with None => true | Some _ => false end.
Definition Revoke (userID tokenID : string) (now : Z) : tM unit :=
  n ← fallible (ErrTokenDb "revoke") (λ d,
        (on_api_tokens (upd (revocable userID tokenID) (set_token_revoked (Unix now))) d,
         cnt (revocable userID tokenID) (api_tokens d)));
  if (n =? 0)%nat then throw ErrTokenNotFound else mret tt.

Definition Authenticate (raw : string) (now : Z) : tM string :=
  if negb (HasPrefix raw TokenPrefix) || (len raw <? len TokenPrefix + 16)%Z then throw ErrBadFormat
  else
    row ← query (ErrTokenDb "authenticate") (λ d, sel (hash_is (hashRaw raw)) (api_tokens d));
    match row with
    | None => throw ErrTokenNotFound
    | Some t =>
      match at_revoked_at t with
      | Some _ => throw ErrRevoked
      | None =>
        if match at_expires_at t with Some e => (second * e <? now)%Z | None => false end then throw ErrExpired
        else mret (at_user_id t)
      end
    end.

Definition TouchLastUsed (raw : string) (now : Z) : tM unit :=
  ignore (exec (ErrTokenDb "touch") (on_api_tokens (upd (hash_is (hashRaw raw)) (set_last_used (Unix now))))).

(** ** The life of a token *)

Inductive token_call :=
  | TkCreate (userID name : string) (expiresAt : option Z) (rand hexID : string) (now : Z)
  | TkRevoke (userID tokenID : string) (now : Z)
  | TkTouch (raw : string) (now : Z).

Definition token_serve (c : token_call) (fs : list bool) (d : Db) : Db :=
  match c with
  | TkCreate u n e r i now => (Create u n e r i now d fs).1.1
  | TkRevoke u i now => (Revoke u i now d fs).1.1
  | TkTouch raw now => (TouchLastUsed raw now d fs).1.1
  end.
Definition token_history (l : list (token_call * list bool)) (d : Db) : Db := foldl (λ d c, token_serve c.1 c.2 d) d l.

Record tokens_wf (d : Db) : Prop := {
  tw_ids : NoDup (at_id <$> api_tokens d);
  tw_hashes : NoDup (at_token_hash <$> api_tokens d);
  tw_users : ∀ t, t ∈ api_tokens d → ∃ u, u ∈ users d ∧ u_id u = at_user_id t;
}.

(** Two versions of one row: the same token, revoked at most once. *)
Definition same_token (t t' : ApiToken) : Prop :=
  at_id t' = at_id t ∧ at_user_id t' = at_user_id t ∧ at_token_hash t' = at_token_hash t ∧
  at_expires_at t' = at_expires_at t ∧ (at_revoked_at t ≠ None → at_revoked_at t' = at_revoked_at t).

(** Every token of [d] is still in [d'], unrevoked if [keep] says so. *)
Definition lives_on (keep : ApiToken → Prop) (d d' : Db) : Prop :=
  ∀ t, t ∈ api_tokens d → ∃ t', t' ∈ api_tokens d' ∧ same_token t t' ∧ (keep t → at_revoked_at t' = at_revoked_at t).

(** The call leaves the token alone. *)
Definition spares (c : token_call) (t : ApiToken) : Prop :=
  match c with TkRevoke u i _ => at_user_id t ≠ u ∨ at_id t ≠ i | _ => True end.

Lemma same_token_refl t : same_token t t.
Proof. done. Qed.

Lemma upd_tokens p f d keep :
  (∀ t, at_id (f t) = at_id t ∧ at_user_id (f t) = at_user_id t ∧ at_token_hash (f t) = at_token_hash t) →
  (∀ t, p t = true → same_token t (f t)) → (∀ t, p t = true → keep t → at_revoked_at (f t) = at_revoked_at t) →
  tokens_wf d → tokens_wf (on_api_tokens (upd p f) d) ∧ lives_on keep d (on_api_tokens (upd p f) d).
Proof.
  intros Hf Hs Hk [H1 H2 H3]. split; [split; simpl|].
  - change (NoDup (List.map at_id (upd p f (api_tokens d)))). rewrite map_upd; [done|]. intros t. apply Hf.
  - change (NoDup (List.map at_token_hash (upd p f (api_tokens d)))). rewrite map_upd; [done|]. intros t. apply Hf.
  - intros t (x & Hx & ->)%elem_of_upd. destruct (p x); [|auto]. rewrite (proj1 (proj2 (Hf x))). auto.
  - intros t Ht. exists (if p t then f t else t). split; [apply elem_of_upd; by exists t|].
    destruct (p t) eqn:E; [by split; [apply Hs|apply Hk]|done].
Qed.

Lemma serve_token c fs d : tokens_wf d → tokens_wf (token_serve c fs d) ∧ lives_on (spares c) d (token_serve c fs d).
Proof.
  intros Hwf. assert (Hid : ∀ keep, tokens_wf d ∧ lives_on keep d d) by (intros keep; split; [done|]; intros t Ht; by exists t).
  revert fs. destruct c as [u n e r i now|u i now|raw now]; simpl.
  - change (wp (Create u n e r i now) (λ d' _, tokens_wf d' ∧ lives_on (λ _, True) d d') d).
    unfold Create. apply wp_if; intros _; [by apply wp_throw|]. apply wp_if; intros _; [by apply wp_throw|].
    set (row := mkApiToken _ _ _ _ _ _ _ _ _). apply wp_bind, wp_checked; [apply Hid|].
    destruct (_ || _) eqn:E; [apply Hid|]. apply wp_ret. apply orb_false_iff in E as [E Eu%negb_false_iff].
    destruct Hwf as [H1 H2 H3].
    assert (Hnew : ∀ x, x ∈ api_tokens d → at_id x ≠ at_id row ∧ at_token_hash x ≠ at_token_hash row).
    { intros x Hx. pose proof (existsb_false_elem _ _ x E Hx) as Hn. unfold hash_is in Hn. bool_simp. done. }
    split; [split; simpl|].
    + rewrite fmap_app. apply NoDup_snoc; [done|]. intros (x & Hx & Hin)%list_elem_of_fmap. by destruct (Hnew x).
    + rewrite fmap_app. apply NoDup_snoc; [done|]. intros (x & Hx & Hin)%list_elem_of_fmap. by destruct (Hnew x).
    + intros x [Hx| ->%list_elem_of_singleton]%elem_of_app; [auto|]. apply existsb_witness in Eu as (u0 & Hu0 & Eu).
      exists u0. by apply String.eqb_eq in Eu.
    + intros t Ht. exists t. split; [simpl; set_solver|done].
  - change (wp (Revoke u i now) (λ d' _, tokens_wf d' ∧ lives_on (λ t, at_user_id t ≠ u ∨ at_id t ≠ i) d d') d).
    assert (Hr : ∀ t, revocable u i t = true → at_id t = i ∧ at_user_id t = u ∧ at_revoked_at t = None).
    { intros t Ht. unfold revocable in Ht. bool_simp. destruct (at_revoked_at t); by split_and!. }
    apply wp_bind, wp_fallible; [apply Hid|]. cbn [fst snd].
    assert (Hu : tokens_wf (on_api_tokens (upd (revocable u i) (set_token_revoked (Unix now))) d) ∧
      lives_on (λ t, at_user_id t ≠ u ∨ at_id t ≠ i) d (on_api_tokens (upd (revocable u i) (set_token_revoked (Unix now))) d)).
    { apply upd_tokens; [done| | |done]; intros t (E1 & E2 & E3)%Hr; [by unfold same_token; rewrite E3|].
      intros [?|?]; congruence. }
    destruct (_ =? 0)%nat; [by apply wp_throw|by apply wp_ret].
  - change (wp (TouchLastUsed raw now) (λ d' _, tokens_wf d' ∧ lives_on (λ _, True) d d') d).
    apply wp_ignore, wp_exec; [apply Hid|]. by apply upd_tokens.
Qed.

Lemma history_tokens l : ∀ d, tokens_wf d →
  tokens_wf (token_history l d) ∧ lives_on (λ t, ∀ c fs, (c, fs) ∈ l → spares c t) d (token_history l d).
Proof.
  induction l as [|[c fs] l IH]; intros d Hwf; [split; [done|]; intros t Ht; by exists t|].
  destruct (serve_token c fs d Hwf) as [Hwf1 Hl1]. destruct (IH _ Hwf1) as [Hwf2 Hl2]. split; [done|].
  intros t Ht. destruct (Hl1 t Ht) as (t1 & Ht1 & (A1 & A2 & A3 & A4 & A5) & K1).
  destruct (Hl2 t1 Ht1) as (t2 & Ht2 & (B1 & B2 & B3 & B4 & B5) & K2). exists t2. split; [done|]. split.
  - unfold same_token. split_and!; [congruence..|]. intros Hr. rewrite B5, A5; [done|done|]. by rewrite A5.
  - intros Hk. rewrite K2, K1; [done|apply (Hk c fs); left|]. intros c' fs' Hc. specialize (Hk c' fs'). unfold spares in *.
    destruct c' as [|u i now|]; try done. rewrite A1, A2. apply Hk. by right.
Qed.

(** ** Authentication *)

Definition well_formed (raw : string) : Prop := HasPrefix raw TokenPrefix = true ∧ (len TokenPrefix + 16 <= len raw)%Z.

Lemma authenticate_row raw now d t : tokens_wf d → well_formed raw → t ∈ api_tokens d → at_token_hash t = hashRaw raw →
  run (Authenticate raw now) d = (d, match at_revoked_at t with
    | Some _ => inl ErrRevoked
    | None => if match at_expires_at t with Some e => (second * e <? now)%Z | None => false end then inl ErrExpired
              else inr (at_user_id t)
    end).
Proof.
  intros Hwf [Hp Hl] Ht Hh. unfold run, Authenticate. rewrite Hp. simpl negb. apply Z.ltb_ge in Hl. rewrite Hl. simpl.
  unfold mbind, M_bind, bind, query, fallible. simpl.
  assert (Hsel : sel (hash_is (hashRaw raw)) (api_tokens d) = Some t).
  { destruct (sel_is_Some (hash_is (hashRaw raw)) (api_tokens d) t Ht) as [t' E]; [by apply String.eqb_eq|].
    rewrite E. f_equal. apply sel_Some in E as [Ht' E]. apply String.eqb_eq in E.
    apply (NoDup_fmap_inj at_token_hash (api_tokens d)); [apply Hwf|done|done|congruence]. }
  rewrite Hsel. destruct (at_revoked_at t); [done|]. by destruct (match at_expires_at t with Some _ => _ | None => _ end).
Qed.

Lemma b64_char_not_pad n : (0 ≤ n < 64)%Z → not_pad (b64_char n) = true.
Proof.
  intros Hn. unfold not_pad. apply negb_true_iff. destruct (Ascii.eqb (b64_char n) pad) eqn:E; [|done].
  apply Ascii.eqb_eq in E. pose proof (b64_value_char n Hn) as Hv. rewrite E in Hv. by vm_compute in Hv.
Qed.

Lemma b64_digits_le l : length l ≤ length (List.filter not_pad (b64_encode l)).
Proof.
  induction l as [|a|a b|a b c l IH] using list_ind3; [simpl; lia|..]; cbn [b64_encode List.filter].
  1,2: pose proof (byte_range a); try pose proof (byte_range b);
    rewrite ?(b64_char_not_pad (_ / 262144)) by (split; [apply Z.div_pos; lia|apply Z.div_lt_upper_bound; lia]);
    rewrite ?b64_char_not_pad by (apply Z.mod_pos_bound; lia); simpl; lia.
  pose proof (byte_range a). pose proof (byte_range b). pose proof (byte_range c).
  rewrite (b64_char_not_pad (_ / 262144)) by (split; [apply Z.div_pos; lia|apply Z.div_lt_upper_bound; lia]).
  rewrite !b64_char_not_pad by (apply Z.mod_pos_bound; lia). simpl length. lia.
Qed.

Lemma generateRaw_ok rand : (16 <= len rand)%Z → well_formed (generateRaw rand).
Proof.
  intros Hr. split; [apply prefix_app|]. unfold generateRaw, len in *. rewrite string_app_length.
  enough (String.length rand ≤ String.length (raw_url_encode rand)) by lia. unfold raw_url_encode.
  rewrite <- !list_of_length, String.list_ascii_of_string_of_list_ascii, length_fmap. apply b64_digits_le.
Qed.

(** The row a successful Create adds. *)
Lemma create_token_row userID name expiresAt rand hexID now d fs tok raw :
  (Create userID name expiresAt rand hexID now d fs).2 = inr (tok, raw) → tokens_wf d →
  raw = generateRaw rand ∧ ∃ t, t ∈ api_tokens (Create userID name expiresAt rand hexID now d fs).1.1 ∧
    at_id t = tk_ID tok ∧ at_user_id t = userID ∧ at_token_hash t = hashRaw raw ∧ at_expires_at t = Unix <$> expiresAt ∧
    at_revoked_at t = None.
Proof.
  intros Hr _. revert fs Hr.
  change (wp (Create userID name expiresAt rand hexID now) (λ d' r, r = inr (tok, raw) → raw = generateRaw rand ∧
    ∃ t, t ∈ api_tokens d' ∧ at_id t = tk_ID tok ∧ at_user_id t = userID ∧ at_token_hash t = hashRaw raw ∧
      at_expires_at t = Unix <$> expiresAt ∧ at_revoked_at t = None) d).
  unfold Create. apply wp_if; intros _; [by apply wp_throw|]. apply wp_if; intros _; [by apply wp_throw|].
  set (row := mkApiToken _ _ _ _ _ _ _ _ _). apply wp_bind, wp_checked; [done|]. destruct (_ || _); [done|].
  apply wp_ret. intros [= <- <-]. split; [done|]. exists row. split; [simpl; set_solver|done].
Qed.

(** C17: A token that was issued authenticates its owner until it expires,
    after any history of calls, other users' revocations included, in which its
    owner does not revoke it; once its owner revokes it, it never does again. *)
Theorem token_lifecycle userID name expiresAt rand hexID now d fs l tok raw :
  tokens_wf d → (16 <= len rand)%Z →
  (Create userID name expiresAt rand hexID now d fs).2 = inr (tok, raw) →
  let d1 := (Create userID name expiresAt rand hexID now d fs).1.1 in
  let answer l now := (run (Authenticate raw now) (token_history l d1)).2 in
  ((∀ t fs, (TkRevoke userID (tk_ID tok) t, fs) ∉ l) → ∀ now',
     answer l now' = if match expiresAt with Some e => (second * Unix e <? now')%Z | None => false end
                     then inl ErrExpired else inr userID) ∧
  ∀ t l' now', answer (l ++ (TkRevoke userID (tk_ID tok) t, []) :: l') now' = inl ErrRevoked.
Proof.
  intros Hwf Hlen Hc d1 answer.
  destruct (create_token_row _ _ _ _ _ _ _ _ _ _ Hc Hwf) as (-> & t0 & Ht0 & E1 & E2 & E3 & E4 & E5). fold d1 in Ht0.
  assert (Hwf1 : tokens_wf d1) by exact (proj1 (serve_token (TkCreate userID name expiresAt rand hexID now) fs d Hwf)).
  pose proof (generateRaw_ok rand Hlen) as Hraw. split.
  - intros Hl now'. destruct (history_tokens l d1 Hwf1) as [Hwf2 Hl2].
    destruct (Hl2 t0 Ht0) as (t & Ht & (S1 & S2 & S3 & S4 & _) & Hk).
    unfold answer. rewrite (authenticate_row _ now' _ t) by (done || congruence). simpl.
    rewrite Hk, E5, S4, E4, S2, E2; [by destruct expiresAt|].
    intros c fs' Hin. destruct c as [|u i t'|]; try done. simpl. destruct (decide (at_user_id t0 = u)) as [<-|]; [|by left].
    right. intros <-. destruct (Hl t' fs'). congruence.
  - intros t l' now'. unfold answer, token_history. rewrite foldl_app. simpl.
    fold (token_history l d1). destruct (history_tokens l d1 Hwf1) as [Hwf2 Hl2].
    destruct (Hl2 t0 Ht0) as (t1 & Ht1 & (S1 & S2 & S3 & S4 & S5) & _).
    set (d2 := token_history l d1) in *. pose (d3 := token_serve (TkRevoke userID (tk_ID tok) t) [] d2).
    assert (Hwf3 : tokens_wf d3) by (by apply serve_token).
    assert (Ht3 : ∃ t3, t3 ∈ api_tokens d3 ∧ at_token_hash t3 = hashRaw (generateRaw rand) ∧ at_revoked_at t3 ≠ None).
    { exists (if revocable userID (tk_ID tok) t1 then set_token_revoked (Unix t) t1 else t1). split.
      - unfold d3. simpl. unfold Revoke, mbind, M_bind, bind, fallible. simpl. destruct (_ =? 0)%nat; simpl; apply elem_of_upd; by exists t1.
      - unfold revocable. rewrite S1, E1, S2, E2, !String.eqb_refl. simpl. destruct (at_revoked_at t1) eqn:Er; simpl; split; congruence. }
    destruct Ht3 as (t3 & Ht3 & Hh3 & Hr3). destruct (history_tokens l' d3 Hwf3) as [Hwf4 Hl4].
    destruct (Hl4 t3 Ht3) as (t4 & Ht4 & (_ & _ & T3 & _ & T5) & _).
    change (foldl _ _ l') with (token_history l' d3). rewrite (authenticate_row _ now' _ t4) by (done || congruence).
    rewrite T5 by done. simpl. by destruct (at_revoked_at t3).
Qed.
End Service.

Lemma token_lifecycle_witness :
  let d := on_users (λ _, [mkUser "u1" "ada@example.org" "h" "admin" None None "active" None false None None None None 0]) empty_db in
  let rand := "0123456789abcdef0123456789abcdef" in
  let c := Create (H := toy_lib) "u1" " ci " None rand "0a1b2c" 5 d [] in
  let raw := generateRaw rand in
  (run (Authenticate (H := toy_lib) raw 9) (token_history (H := toy_lib) [(TkRevoke "u2" "tok_0a1b2c" 7, [])] c.1.1)).2 = inr "u1" ∧
  (run (Authenticate (H := toy_lib) raw 9) (token_history (H := toy_lib) [(TkRevoke "u1" "tok_0a1b2c" 7, [])] c.1.1)).2 = inl ErrRevoked.
Proof.
  intros d rand c raw.
  assert (Hwf : tokens_wf d) by (split; simpl; [constructor|constructor|]; by intros t Ht%not_elem_of_nil).
  assert (Hc : ∃ tok', tk_ID tok' = "tok_0a1b2c" ∧ c.2 = inr (tok', raw)) by (eexists; split; [|vm_compute; reflexivity]; reflexivity).
  destruct Hc as (tok' & Hid & Hc). split.
  - refine (proj1 (token_lifecycle (H := toy_lib) "u1" " ci " None rand "0a1b2c" 5 d [] _ tok' raw Hwf _ Hc) _ 9%Z); [by vm_compute|].
    intros t fs [=]%list_elem_of_singleton.
  - pose proof (proj2 (token_lifecycle (H := toy_lib) "u1" " ci " None rand "0a1b2c" 5 d [] [] tok' raw Hwf ltac:(by vm_compute) Hc) 7%Z [] 9%Z) as Hr.
    by rewrite Hid in Hr.
Defined.
