(* ===== verification/RateLimit.v ===== *)
(** * Rate limits (internal/api/apimiddleware/ratelimit.go)

    The token buckets behind POST /auth/login and POST /auth/refresh, and the
    choice of the address they are keyed by.  [loginLimiter] and
    [refreshLimiter] differ in their constants and in when a token is spent, so
    they share [refill] and [cleanup].

    Tokens are float64 values: [Float64] is the arithmetic the code uses and
    [Float64Laws] the standard model of IEEE 754 (each operation is correct up
    to a relative error of 2^-53, as long as its result is in range).
    Instants and durations are nanoseconds. *)

From S2P Require Import Prelude GoStrings.
From stdpp Require Import gmap.
From Stdlib Require Import QArith Qabs Lqa.

#[local] Open Scope Z_scope.

Class Float64 := {
  f64 : Type;
  f_of_Z : Z → f64;
  f_add : f64 → f64 → f64;
  f_sub : f64 → f64 → f64;
  f_mul : f64 → f64 → f64;
  f_div : f64 → f64 → f64;
  f_lt : f64 → f64 → bool;
}.

(** [net.ParseIP], [To4], [net.ParseCIDR], [IPNet.Contains] and
    [net.SplitHostPort]. *)
Class NetIP := {
  IP : Type; IPNet : Type;
  ParseIP : string → option IP;
  Is4 : IP → bool;
  ParseCIDR : string → option IPNet;
  NetContains : IPNet → IP → bool;
  SplitHostPort : string → option (string * string);
}.

(** ** The buckets *)

Definition minute : Z := 60 * 10 ^ 9.
Definition loginBurst : Z := 5.
Definition loginWindow : Z := 15 * minute.
Definition loginCleanupTTL : Z := 30 * minute.
Definition refreshBurst : Z := 30.
Definition refreshWindow : Z := 1 * minute.
Definition refreshCleanupTTL : Z := 5 * minute.

Section Buckets.
Context `{Fl : Float64}.

Record loginBucket := mkBucket { lb_tokens : f64; lb_lastSeen : Z }.
Abbreviation Limiter := (gmap string loginBucket).

(** The bucket of an address, refilled for the time since it was last seen. *)
Definition refilled (burst window now : Z) (b : loginBucket) : loginBucket :=
  let elapsed := now - lb_lastSeen b in
  let tokens := (if 0 <? elapsed then
                   let t := f_add (lb_tokens b) (f_mul (f_of_Z burst) (f_div (f_of_Z elapsed) (f_of_Z window))) in
                   if f_lt (f_of_Z burst) t then f_of_Z burst else t
                 else lb_tokens b) in
  mkBucket tokens now.

Definition refill (burst window now : Z) (ip : string) (l : Limiter) : Limiter * loginBucket :=
  let b := match l !! ip with
           | None => mkBucket (f_of_Z burst) now
           | Some b => refilled burst window now b
           end in
  (<[ip := b]> l, b).

(** One pass of [cleanupLoop]. *)
Definition cleanup (ttl now : Z) (l : Limiter) : Limiter :=
  filter (λ kb, negb (lb_lastSeen kb.2 <? now - ttl) = true) l.

(** *** loginLimiter *)

(** [tokens >= 1]. *)
Definition has_token (b : loginBucket) : bool := negb (f_lt (lb_tokens b) (f_of_Z 1)).

Definition login_allow (now : Z) (ip : string) (l : Limiter) : Limiter * bool :=
  let '(l, b) := refill loginBurst loginWindow now ip l in (l, has_token b).

Definition countFailure (now : Z) (ip : string) (l : Limiter) : Limiter :=
  let '(l, b) := refill loginBurst loginWindow now ip l in
  let t := f_sub (lb_tokens b) (f_of_Z 1) in
  <[ip := mkBucket (if f_lt t (f_of_Z 0) then f_of_Z 0 else t) (lb_lastSeen b)]> l.

Definition login_cleanup (now : Z) (l : Limiter) : Limiter := cleanup loginCleanupTTL now l.

(** *** refreshLimiter *)

Definition refresh_allow (now : Z) (ip : string) (l : Limiter) : Limiter * bool :=
  let '(l, b) := refill refreshBurst refreshWindow now ip l in
  if f_lt (lb_tokens b) (f_of_Z 1) then (l, false)
  else (<[ip := mkBucket (f_sub (lb_tokens b) (f_of_Z 1)) (lb_lastSeen b)]> l, true).

Definition refresh_cleanup (now : Z) (l : Limiter) : Limiter := cleanup refreshCleanupTTL now l.
End Buckets.

(** The buckets by address. *)
Abbreviation Limiter := (gmap string loginBucket).

(** ** The address *)

Section ClientIP.
Context `{Net : NetIP}.

(** The parts of a request the limiter reads: the peer and two headers. *)
Record Request := mkRequest { rq_RemoteAddr : string; rq_XForwardedFor : string; rq_XRealIP : string }.

Definition itoa (n : Z) : string := if n =? 32 then "32" else if n =? 128 then "128" else "".

Definition trusted_net (s : string) : option IPNet :=
  let s := TrimSpace s in
  if s =s "" then None
  else
    let s := (if negb (Contains s "/") then
                match ParseIP s with
                | Some ip => s ^^ "/" ^^ itoa (if Is4 ip then 32 else 128)
                | None => s
                end
              else s) in
    ParseCIDR s.

Definition parseTrusted (cidrs : list string) : list IPNet := omap trusted_net cidrs.

Definition remoteHost (addr : string) : string :=
  match SplitHostPort addr with None => addr | Some (host, _) => host end.

Definition inTrusted (ip : IP) (trusted : list IPNet) : bool := List.existsb (λ n, NetContains n ip) trusted.

(** [strings.SplitN(xff, ",", 2)[0]]. *)
Definition first_entry (xff : string) : string :=
  match Index xff "," with Some i => take_s i xff | None => xff end.

Definition clientIP (r : Request) (trusted : list IPNet) : string :=
  let remote := remoteHost (rq_RemoteAddr r) in
  if is_nil trusted then remote
  else match ParseIP remote with
  | None => remote
  | Some ip =>
    if negb (inTrusted ip trusted) then remote
    else
      let first := TrimSpace (first_entry (rq_XForwardedFor r)) in
      if negb (rq_XForwardedFor r =s "") && negb (first =s "") then first
      else
        let xr := TrimSpace (rq_XRealIP r) in
        if negb (xr =s "") then xr else remote
  end.
End ClientIP.

(** ** The standard model of the arithmetic *)

#[local] Open Scope Q_scope.

Definition unit_roundoff : Q := Eval cbv in 1 # (2 ^ 53).
Definition near (x y : Q) : Prop := Qabs (x - y) <= unit_roundoff * Qabs y.
Definition tiny : Q := 1 # 1000000000000000000000000000000.
Definition huge : Q := 1000000000000000000000000000000 # 1.
(** Neither underflow nor overflow; a sum or difference that underflows is exact. *)
Definition normal (y : Q) : Prop := y == 0 ∨ tiny <= Qabs y <= huge.

Class Float64Laws `{Fl : Float64} := {
  fv : f64 → Q;
  fv_of_Z : ∀ z, (Z.abs z <= 2 ^ 53)%Z → fv (f_of_Z z) == inject_Z z;
  fv_near : ∀ z, near (fv (f_of_Z z)) (inject_Z z);
  fv_add : ∀ a b, Qabs (fv a + fv b) <= huge → near (fv (f_add a b)) (fv a + fv b);
  fv_sub : ∀ a b, Qabs (fv a - fv b) <= huge → near (fv (f_sub a b)) (fv a - fv b);
  fv_mul : ∀ a b, normal (fv a * fv b) → near (fv (f_mul a b)) (fv a * fv b);
  fv_div : ∀ a b, ~ fv b == 0 → normal (fv a / fv b) → near (fv (f_div a b)) (fv a / fv b);
  fv_lt : ∀ a b, f_lt a b = true ↔ fv a < fv b;
}.

(** Exact arithmetic is a model. *)
Definition exact_floats : Float64 := {|
  f64 := Q; f_of_Z := inject_Z; f_add := Qplus; f_sub := Qminus; f_mul := Qmult; f_div := Qdiv;
  f_lt a b := negb (Qle_bool b a);
|}.

#[local] Instance near_proper : Proper (Qeq ==> Qeq ==> iff) near.
Proof. intros x x' Hx y y' Hy. unfold near. by rewrite Hx, Hy. Qed.

#[local] Instance normal_proper : Proper (Qeq ==> iff) normal.
Proof. intros x x' Hx. unfold normal. by rewrite Hx. Qed.

Lemma near_refl x : near x x.
Proof.
  unfold near. assert (E : x - x == 0) by ring. rewrite E. apply Qmult_le_0_compat; [done|apply Qabs_nonneg].
Qed.

Lemma exact_laws : Float64Laws (Fl := exact_floats).
Proof.
  refine {| fv := (λ x : Q, x) : @f64 exact_floats → Q |}; simpl; intros; try apply near_refl; [done|].
  rewrite negb_true_iff, <-not_true_iff_false, Qle_bool_iff. split; [apply Qnot_le_lt|apply Qlt_not_le].
Defined.

(** ** Rounding *)

Lemma near_bounds x y : 0 <= y → near x y → y - unit_roundoff * y <= x ∧ x <= y + unit_roundoff * y.
Proof.
  unfold near. intros Hy Hn. rewrite (Qabs_pos y Hy) in Hn. apply Qabs_Qle_condition in Hn. lra.
Qed.

Lemma normal_between y : tiny <= y → y <= huge → normal y.
Proof.
  intros H1 H2. right. assert (0 <= y) by (apply Qle_trans with tiny; [done|exact H1]).
  by rewrite Qabs_pos.
Qed.

(** What is above zero. *)
Definition pos (x : Q) : Q := if Qle_bool 0 x then x else 0.
Lemma pos_cases x : 0 <= x ∧ pos x == x ∨ x < 0 ∧ pos x == 0.
Proof.
  unfold pos. destruct (Qle_bool 0 x) eqn:E; [left; split; [by apply Qle_bool_iff|done]|right; split; [|done]].
  apply Qnot_le_lt. intros H%Qle_bool_iff. congruence.
Qed.

#[local] Instance pos_proper : Proper (Qeq ==> Qeq) pos.
Proof. intros x y E. destruct (pos_cases x) as [[? ->]|[? ->]], (pos_cases y) as [[? ->]|[? ->]]; lra. Qed.

#[local] Ltac qlra := unfold tiny, huge, unit_roundoff in *; lra.

Section Rounding.
Context `{FL : Float64Laws}.
Context (burst window : Z) (Hb : (1 <= burst <= 1000)%Z) (Hw : (1 <= window <= 1000000000000)%Z).

#[local] Abbreviation B := (inject_Z burst).
#[local] Abbreviation W := (inject_Z window).

Lemma between_Q (a z b : Z) : (a <= z <= b)%Z → (a # 1) <= inject_Z z ∧ inject_Z z <= (b # 1).
Proof. intros ?. unfold Qle. simpl. lia. Qed.

Lemma fv_burst : fv (f_of_Z burst) == B.
Proof. apply fv_of_Z. lia. Qed.

Lemma fv_window : fv (f_of_Z window) == W.
Proof. apply fv_of_Z. lia. Qed.

(** The quotient of an elapsed time and the window. *)
Definition share (e : Z) : f64 := f_div (f_of_Z e) (f_of_Z window).

(** [share] is the exact quotient up to 4 roundings. *)
Definition eps : Q := Eval cbv in 1 # (2 ^ 51).

Lemma share_bounds e : (1 <= e <= 10000000000000000000)%Z →
  let g := inject_Z e / W in 0 <= g ∧ (1 # 2000000000000) <= fv (share e) ∧ fv (share e) <= (20000000000000000000 # 1) ∧
  g - eps * g <= fv (share e) ∧ fv (share e) <= g + eps * g.
Proof.
  intros He g. destruct (between_Q _ _ _ Hw) as [HW1 HW2], (between_Q _ _ _ He) as [He1 He2].
  destruct (near_bounds (fv (f_of_Z e)) (inject_Z e) ltac:(lra) (fv_near e)) as [L1 U1].
  set (x := inject_Z e) in *. set (fe := fv (f_of_Z e)) in *. unfold unit_roundoff in L1, U1.
  assert (HW0 : 0 < W) by lra. assert (HWn : ~ fv (f_of_Z window) == 0) by (rewrite fv_window; lra).
  set (q := fe / W). assert (Hq1 : (1 # 1900000000000) <= q) by (apply Qle_shift_div_l; [done|lra]).
  assert (Hq2 : q <= (19000000000000000000 # 1)) by (apply Qle_shift_div_r; [done|lra]).
  assert (Hqg : g - unit_roundoff * g <= q ∧ q <= g + unit_roundoff * g).
  { unfold q, g, Qdiv. assert (0 <= / W) by (apply Qlt_le_weak, Qinv_lt_0_compat; done). unfold unit_roundoff.
    split; [apply Qle_trans with ((x - (1 # 9007199254740992) * x) * / W); [lra|]|apply Qle_trans with ((x + (1 # 9007199254740992) * x) * / W); [|lra]];
      by apply Qmult_le_compat_r. }
  assert (Hn : near (fv (share e)) q).
  { assert (Eq : fe / fv (f_of_Z window) == q) by (unfold q; by rewrite fv_window).
    rewrite <-Eq. apply fv_div; [done|]. fold fe. rewrite Eq. apply normal_between; qlra. }
  destruct (near_bounds _ q ltac:(lra) Hn) as [L2 U2]. unfold eps, unit_roundoff in *.
  assert (0 <= g) by (apply Qle_shift_div_l; [done|lra]).
  split_and!; lra.
Qed.

(** What is left of a bucket after [e] nanoseconds, before the cap. *)
Definition gained (e : Z) (t : f64) : f64 := f_add t (f_mul (f_of_Z burst) (share e)).

(** The rounding of one refill, in tokens. *)
Definition slack : Q := B * (1 # 1000000000000).

Lemma gained_bounds e t : (1 <= e <= 10000000000000000000)%Z → 0 <= fv t → fv t <= B →
  let g := inject_Z e / W in 0 <= fv (gained e t) ∧
  (2 # 1) * B * (1 - (1 # 1000000000000)) * g <= (2 # 1) * fv (gained e t) ∧
  (g <= 1 → fv (gained e t) <= fv t + B * g + slack) ∧ (g <= 1 → fv t - slack <= fv (gained e t)).
Proof.
  intros He Ht0 Ht1 g. destruct (share_bounds e He) as (Hg & S1 & S2 & S3 & S4). fold g in Hg, S3, S4.
  set (s := fv (share e)) in *. destruct (between_Q _ _ _ Hb) as [HB1 HB2].
  assert (B * (1 # 2000000000000) <= B * s) by (apply Qmult_le_l; lra). assert (B * s <= B * (20000000000000000000 # 1)) by (apply Qmult_le_l; lra).
  assert (B * (g - eps * g) <= B * s) by (apply Qmult_le_l; lra). assert (B * s <= B * (g + eps * g)) by (apply Qmult_le_l; lra).
  assert (Hn : near (fv (f_mul (f_of_Z burst) (share e))) (B * s)).
  { assert (E : fv (f_of_Z burst) * s == B * s) by (by rewrite fv_burst). rewrite <-E. apply fv_mul. fold s. rewrite E.
    apply normal_between; qlra. }
  destruct (near_bounds _ (B * s) ltac:(lra) Hn) as [P1 P2]. set (p := fv (f_mul _ _)) in *.
  unfold unit_roundoff, eps in *.
  assert (Ha : near (fv (gained e t)) (fv t + p)) by (apply fv_add; fold p; rewrite Qabs_pos; qlra).
  assert (Hp0 : 0 <= p) by (clear -P1 H HB1; lra). assert (Htp : 0 <= fv t + p) by (clear -Ht0 Hp0; lra).
  destruct (near_bounds _ (fv t + p) Htp Ha) as [A1 A2]. unfold unit_roundoff in *.
  assert (HBg : 0 <= B * g) by (apply Qmult_le_0_compat; lra).
  split_and!; [lra|lra|intros Hg1; assert (B * g <= B * 1) by (apply Qmult_le_l; lra); unfold slack; lra..].
Qed.

Definition bucket_ok (b : loginBucket) : Prop := 0 <= fv (lb_tokens b) ∧ fv (lb_tokens b) <= B.

Lemma refilled_ok now b : bucket_ok b → (now - lb_lastSeen b <= 10000000000000000000)%Z → bucket_ok (refilled burst window now b).
Proof.
  intros [H0 H1] He. unfold refilled, bucket_ok. destruct (Z.ltb_spec 0 (now - lb_lastSeen b)); simpl; [|done].
  destruct (between_Q _ _ _ Hb) as [HB1 HB2].
  destruct (gained_bounds (now - lb_lastSeen b) (lb_tokens b)) as (G0 & _); [lia|done|done|]. fold (share (now - lb_lastSeen b)) (gained (now - lb_lastSeen b) (lb_tokens b)).
  destruct (f_lt _ _) eqn:E; [rewrite fv_burst; lra|]. split; [done|]. apply Qnot_lt_le. intros Hlt.
  rewrite <-fv_burst in Hlt. apply fv_lt in Hlt. congruence.
Qed.

(** A refill adds no more than the elapsed time is worth. *)
Lemma refilled_le now b : bucket_ok b → (0 <= now - lb_lastSeen b <= 10000000000000000000)%Z →
  fv (lb_tokens (refilled burst window now b)) <= fv (lb_tokens b) + B * (inject_Z (now - lb_lastSeen b) / W) + slack.
Proof.
  intros [H0 H1] He. unfold refilled. destruct (between_Q _ _ _ Hb) as [HB1 HB2], (between_Q _ _ _ Hw) as [HW1 HW2].
  destruct (Z.ltb_spec 0 (now - lb_lastSeen b)); simpl.
  - set (e := (now - lb_lastSeen b)%Z) in *. fold (share e) (gained e (lb_tokens b)).
    destruct (gained_bounds e (lb_tokens b)) as (G0 & _ & G2 & _); [lia|done|done|]. set (g := inject_Z e / W) in *.
    destruct (Qlt_le_dec 1 g) as [Hg|Hg].
    + assert (B * 1 <= B * g) by (apply Qmult_le_l; lra). unfold slack.
      destruct (f_lt _ _) eqn:E; [rewrite fv_burst; lra|]. enough (fv (gained e (lb_tokens b)) <= B) by lra. apply Qnot_lt_le. intros Hlt.
      rewrite <-fv_burst in Hlt. apply fv_lt in Hlt. congruence.
    + specialize (G2 Hg). destruct (f_lt _ _) eqn:E; [|done]. apply fv_lt in E. rewrite fv_burst in *. lra.
  - assert (E : (now - lb_lastSeen b)%Z = 0%Z) by lia. rewrite E.
    assert (Eg : B * (inject_Z 0 / W) == 0) by (unfold Qdiv; change (inject_Z 0) with 0; ring). rewrite Eg. unfold slack. lra.
Qed.

(** ... and takes nothing away. *)
Lemma refilled_ge now b : bucket_ok b → (0 <= now - lb_lastSeen b <= 10000000000000000000)%Z →
  fv (lb_tokens b) - slack <= fv (lb_tokens (refilled burst window now b)).
Proof.
  intros [H0 H1] He. unfold refilled. destruct (between_Q _ _ _ Hb) as [HB1 HB2].
  assert (Hsl : 0 <= slack) by (unfold slack; lra). destruct (Z.ltb_spec 0 (now - lb_lastSeen b)); simpl; [|lra].
  set (e := (now - lb_lastSeen b)%Z) in *. fold (share e) (gained e (lb_tokens b)).
  destruct (gained_bounds e (lb_tokens b)) as (_ & G1 & _ & G3); [lia|done|done|]. set (g := inject_Z e / W) in *.
  destruct (f_lt _ _) eqn:E; [rewrite fv_burst; lra|].
  destruct (Qlt_le_dec 1 g) as [Hg|Hg]; [|by apply G3].
  assert (B * 1 <= B * g) by (apply Qmult_le_l; lra). unfold slack in *. lra.
Qed.

(** After twice the window the bucket is full, exactly. *)
Lemma refilled_full now b : bucket_ok b → (2 * window <= now - lb_lastSeen b <= 10000000000000000000)%Z →
  refilled burst window now b = mkBucket (f_of_Z burst) now.
Proof.
  intros [H0 H1] He. unfold refilled. rewrite (proj2 (Z.ltb_lt _ _)) by lia. simpl.
  destruct (between_Q _ _ _ Hb) as [HB1 HB2], (between_Q _ _ _ Hw) as [HW1 HW2].
  set (e := (now - lb_lastSeen b)%Z) in *. fold (share e) (gained e (lb_tokens b)).
  destruct (gained_bounds e (lb_tokens b)) as (_ & G1 & _); [lia|done|done|]. set (g := inject_Z e / W) in *.
  assert (Hg : (2 # 1) <= g).
  { apply Qle_shift_div_l; [lra|]. unfold Qle. simpl. lia. }
  assert (B * (2 # 1) <= B * g) by (apply Qmult_le_l; lra).
  assert (E : f_lt (f_of_Z burst) (gained e (lb_tokens b)) = true) by (apply fv_lt; rewrite fv_burst; lra). by rewrite E.
Qed.

(** A token less, not below zero. *)
Definition one_less (b : loginBucket) : loginBucket :=
  let t := f_sub (lb_tokens b) (f_of_Z 1) in
  mkBucket (if f_lt t (f_of_Z 0) then f_of_Z 0 else t) (lb_lastSeen b).

Lemma fv_zero : fv (f_of_Z 0) == 0.
Proof. by apply (fv_of_Z 0). Qed.

Lemma fv_one : fv (f_of_Z 1) == 1.
Proof. by apply (fv_of_Z 1). Qed.

Lemma one_less_ok b : bucket_ok b → bucket_ok (one_less b).
Proof.
  intros [H0 H1]. destruct (between_Q _ _ _ Hb) as [HB1 HB2]. unfold one_less, bucket_ok. cbv zeta. simpl.
  set (t := f_sub _ _). destruct (f_lt t (f_of_Z 0)) eqn:E; [rewrite fv_zero; lra|].
  assert (H0t : 0 <= fv t).
  { apply Qnot_lt_le. intros Hlt. assert (Ht : fv t < fv (f_of_Z 0)) by (by rewrite fv_zero). apply fv_lt in Ht. congruence. }
  split; [done|]. assert (E1 : fv (lb_tokens b) - fv (f_of_Z 1) == fv (lb_tokens b) - 1) by (by rewrite fv_one).
  assert (Hn : near (fv t) (fv (lb_tokens b) - 1)).
  { rewrite <-E1. apply fv_sub. rewrite E1. apply Qabs_Qle_condition. qlra. }
  unfold near in Hn. apply Qabs_Qle_condition in Hn as [_ Hn].
  assert (Ha : Qabs (fv (lb_tokens b) - 1) <= B) by (apply Qabs_Qle_condition; lra).
  assert (unit_roundoff * Qabs (fv (lb_tokens b) - 1) <= unit_roundoff * B) by (apply Qmult_le_l; [done|exact Ha]).
  unfold unit_roundoff in *. lra.
Qed.

Lemma one_less_le b : bucket_ok b → fv (lb_tokens (one_less b)) <= pos (fv (lb_tokens b) - 1) + (2 # 1) * slack.
Proof.
  intros [H0 H1]. destruct (between_Q _ _ _ Hb) as [HB1 HB2]. unfold one_less. cbv zeta. simpl. unfold slack in *.
  destruct (pos_cases (fv (lb_tokens b) - 1)) as [Hc|Hc].
  all: set (t := f_sub _ _); destruct (f_lt t (f_of_Z 0)) eqn:E; [rewrite fv_zero; lra|].
  all: assert (E1 : fv (lb_tokens b) - fv (f_of_Z 1) == fv (lb_tokens b) - 1) by (by rewrite fv_one).
  all: assert (Hn : near (fv t) (fv (lb_tokens b) - 1)) by (rewrite <-E1; apply fv_sub; rewrite E1; apply Qabs_Qle_condition; qlra).
  all: unfold near in Hn; apply Qabs_Qle_condition in Hn as [_ Hn].
  all: assert (Ha : Qabs (fv (lb_tokens b) - 1) <= B) by (apply Qabs_Qle_condition; lra).
  all: assert (unit_roundoff * Qabs (fv (lb_tokens b) - 1) <= unit_roundoff * B) by (apply Qmult_le_l; [done|exact Ha]).
  all: unfold unit_roundoff in *; lra.
Qed.

(** *** The potential of an address *)

Definition horizon : Z := 9000000000000000000.

(** Every bucket is between empty and full and was last seen by [T]. *)
Definition limiter_ok (T : Z) (l : Limiter) : Prop := (0 <= T <= horizon)%Z ∧
  ∀ ip b, l !! ip = Some b → bucket_ok b ∧ (0 <= lb_lastSeen b <= T)%Z.

(** What [d] nanoseconds are worth. *)
Definition worth (d : Z) : Q := B * (inject_Z d / W).

Definition potential (ip : string) (T : Z) (l : Limiter) : Q :=
  match l !! ip with None => B | Some b => fv (lb_tokens b) + worth (T - lb_lastSeen b) end.

Lemma worth_add d e : worth (d + e) == worth d + worth e.
Proof.
  destruct (between_Q _ _ _ Hw) as [HW1 _]. unfold worth. rewrite inject_Z_plus. field. lra.
Qed.

Lemma worth_pos d : (0 <= d)%Z → 0 <= worth d.
Proof.
  intros Hd. destruct (between_Q _ _ _ Hw) as [HW1 _], (between_Q _ _ _ Hb) as [HB1 _]. apply Qmult_le_0_compat; [lra|].
  apply Qle_shift_div_l; [lra|]. assert (0 * W == 0) as -> by ring. change 0 with (inject_Z 0). by rewrite <-Zle_Qle.
Qed.

Lemma slack_pos : 0 <= slack.
Proof. destruct (between_Q _ _ _ Hb) as [HB1 _]. unfold slack. lra. Qed.

Lemma potential_later ip T T' l : limiter_ok T l → (T <= T' <= horizon)%Z → limiter_ok T' l ∧ potential ip T' l <= potential ip T l + worth (T' - T).
Proof.
  intros [HT Hl] HT'. split.
  - split; [lia|]. intros x b Hx. destruct (Hl x b Hx). split; [done|lia].
  - unfold potential. destruct (l !! ip) as [b|].
    + assert (E : (T' - lb_lastSeen b)%Z = (T - lb_lastSeen b + (T' - T))%Z) by lia. rewrite E, worth_add. lra.
    + assert (0 <= worth (T' - T)) by (apply worth_pos; lia). lra.
Qed.

Lemma refill_facts ip T now l : limiter_ok T l → (T <= now <= horizon)%Z →
  let '(l', b) := refill burst window now ip l in
  l' = <[ip := b]> l ∧ bucket_ok b ∧ lb_lastSeen b = now ∧ fv (lb_tokens b) <= potential ip T l + worth (now - T) + slack.
Proof.
  intros [HT Hl] Hnow. unfold refill. pose proof slack_pos. assert (0 <= worth (now - T)) by (apply worth_pos; lia).
  destruct (between_Q _ _ _ Hb) as [HB1 HB2]. unfold potential.
  destruct (l !! ip) as [b|] eqn:E.
  - destruct (Hl ip b E) as [Hok Hs]. unfold horizon in *. split_and!; [done|apply refilled_ok; [done|lia]|done|].
    pose proof (refilled_le now b Hok ltac:(lia)) as Hr. fold (worth (now - lb_lastSeen b)) in Hr.
    assert (E2 : (now - lb_lastSeen b)%Z = (T - lb_lastSeen b + (now - T))%Z) by lia. rewrite E2, worth_add in Hr. lra.
  - unfold bucket_ok. simpl. rewrite fv_burst. split_and!; [done|lra|lra|done|lra].
Qed.

Lemma limiter_ok_insert T now ip b l : limiter_ok T l → (T <= now <= horizon)%Z → bucket_ok b → lb_lastSeen b = now → limiter_ok now (<[ip := b]> l).
Proof.
  intros [HT Hl] Hn Hok Hs. split; [lia|]. intros x c. destruct (decide (x = ip)) as [->|Hx].
  - rewrite lookup_insert_eq. intros [= <-]. split; [done|lia].
  - rewrite lookup_insert_ne by done. intros Hc. destruct (Hl x c Hc). split; [done|lia].
Qed.

Lemma potential_insert_ne x ip b T l : x ≠ ip → potential x T (<[ip := b]> l) = potential x T l.
Proof. intros Hx. unfold potential. by rewrite lookup_insert_ne. Qed.

Lemma potential_insert ip b T l : lb_lastSeen b = T → potential ip T (<[ip := b]> l) == fv (lb_tokens b).
Proof.
  intros Hs. unfold potential. rewrite lookup_insert_eq, Hs, Z.sub_diag. unfold worth, Qdiv.
  change (inject_Z 0) with 0. ring.
Qed.

(** A sweep forgets only buckets that are full again. *)
Lemma cleanup_potential ttl ip now l : (window <= ttl)%Z → limiter_ok now l →
  limiter_ok now (cleanup ttl now l) ∧ potential ip now (cleanup ttl now l) <= potential ip now l.
Proof.
  intros Httl [HT Hl]. split.
  - split; [done|]. intros x b Hx. apply map_lookup_filter_Some in Hx as [Hx _]. by apply (Hl x).
  - unfold potential, cleanup. destruct (l !! ip) as [b|] eqn:E.
    + destruct (Hl ip b E) as [[H0 H1] Hs]. destruct (Z.ltb_spec (lb_lastSeen b) (now - ttl)).
      * rewrite (proj2 (map_lookup_filter_None _ _ _)).
        -- assert (E2 : (now - lb_lastSeen b)%Z = (window + (now - lb_lastSeen b - window))%Z) by lia. rewrite E2, worth_add.
           assert (0 <= worth (now - lb_lastSeen b - window)) by (apply worth_pos; lia).
           assert (worth window == B) by (destruct (between_Q _ _ _ Hw); unfold worth; field; lra). lra.
        -- right. intros b' Hb'. simplify_eq. simpl. rewrite (proj2 (Z.ltb_lt _ _)) by lia. done.
      * rewrite (proj2 (map_lookup_filter_Some _ _ _ b)); [lra|]. split; [done|]. simpl. rewrite (proj2 (Z.ltb_ge _ _)) by lia. done.
    + rewrite (proj2 (map_lookup_filter_None _ _ _)) by (by left). lra.
Qed.
End Rounding.

(** ** Histories *)

Section Histories.
Context `{FL : Float64Laws}.

(** A request of an address is checked; one that was let through is counted as
    a failure, or ends otherwise; a sweep is a pass of [cleanupLoop].  These are
    the sections of the mutex: requests of all addresses interleave in any way. *)
Inductive event := Asked (now : Z) (ip : string) | Failed (now : Z) (ip : string) | Ended (ip : string) | Sweep (now : Z).

(** The calls of the two limiters; a refresh has spent its token when it is let
    through, and its failures are not counted. *)
Record Calls := mkCalls { cl_allow : Z → string → Limiter → Limiter * bool; cl_count : Z → string → Limiter → Limiter; cl_ttl : Z }.
Definition login_calls : Calls := mkCalls login_allow countFailure loginCleanupTTL.
Definition refresh_calls : Calls := mkCalls refresh_allow (λ _ _ l, l) refreshCleanupTTL.

Definition step (c : Calls) (ev : event) (l : Limiter) : Limiter :=
  match ev with
  | Asked now ip => (cl_allow c now ip l).1
  | Failed now ip => cl_count c now ip l
  | Ended _ => l
  | Sweep now => cleanup (cl_ttl c) now l
  end.

(** The answers of a history, each with its address. *)
Definition answer (c : Calls) (ev : event) (l : Limiter) : list (string * bool) :=
  match ev with Asked now ip => [(ip, (cl_allow c now ip l).2)] | _ => [] end.
Fixpoint answers (c : Calls) (evs : list event) (l : Limiter) : list (string * bool) :=
  match evs with [] => [] | ev :: evs => answer c ev l ++ answers c evs (step c ev l) end.

(** Clock readings do not go back. *)
Definition time_of (T : Z) (ev : event) : Z := match ev with Asked now _ | Failed now _ | Sweep now => now | Ended _ => T end.
Fixpoint ordered (T : Z) (evs : list event) : Prop :=
  match evs with [] => (0 <= T <= horizon)%Z | ev :: evs => (0 <= T <= time_of T ev)%Z ∧ ordered (time_of T ev) evs end.
Fixpoint end_time (T : Z) (evs : list event) : Z := match evs with [] => T | ev :: evs => end_time (time_of T ev) evs end.

Definition admitted_from (ip : string) (ans : list (string * bool)) : nat := cnt (λ a, (a.1 =s ip) && a.2) ans.
Definition is_failure (ip : string) (ev : event) : bool := match ev with Failed _ x => x =s ip | _ => false end.
Definition failures (ip : string) (evs : list event) : nat := cnt (is_failure ip) evs.

(** At most [k] requests of [ip] are in flight at once, let through and not yet
    ended, [p] of them now; only those fail or end. *)
Fixpoint at_most (c : Calls) (k : nat) (ip : string) (p : nat) (evs : list event) (l : Limiter) : Prop :=
  match evs with
  | [] => True
  | ev :: evs =>
    let rest p := at_most c k ip p evs (step c ev l) in
    match ev with
    | Asked now x => if (x =s ip) && (cl_allow c now x l).2 then p < k ∧ rest (S p) else rest p
    | Failed _ x | Ended x => if x =s ip then 0 < p ∧ rest (pred p) else rest p
    | Sweep _ => rest p
    end
  end%nat.

Lemma ordered_horizon T evs : ordered T evs → (0 <= T <= horizon)%Z ∧ (T <= end_time T evs)%Z.
Proof.
  revert T. induction evs as [|ev evs IH]; intros T; simpl; [lia|]. intros (H1 & H3%IH). lia.
Qed.

Section Bounded.
Context (burst window : Z) (Hb : (1 <= burst <= 1000)%Z) (Hw : (1 <= window <= 1000000000000)%Z).

#[local] Abbreviation wth := (worth burst window).
#[local] Abbreviation pot := (potential burst window).
#[local] Abbreviation slk := (slack burst).
#[local] Abbreviation ok := (limiter_ok burst).

Lemma potential_pos ip T l : ok T l → 0 <= pot ip T l.
Proof.
  intros [_ Hl]. unfold potential. destruct (between_Q _ _ _ Hb) as [HB1 _]. destruct (l !! ip) as [b|] eqn:E; [|lra].
  destruct (Hl ip b E) as [[H0 _] Hs]. pose proof (worth_pos burst window Hb Hw (T - lb_lastSeen b) ltac:(lia)). lra.
Qed.

Lemma length_succ {A} (x : A) l : inject_Z (Z.of_nat (length (x :: l))) == 1 + inject_Z (Z.of_nat (length l)).
Proof. simpl length. by rewrite Nat2Z.inj_succ, <-Z.add_1_l, inject_Z_plus. Qed.

(** What a refill does to the potential of any address. *)
Lemma refill_pot ip T now l : ok T l → (T <= now <= horizon)%Z →
  let '(l', b) := refill burst window now ip l in
  ok now l' ∧ l' !! ip = Some b ∧ lb_lastSeen b = now ∧ ∀ x, pot x now l' <= pot x T l + wth (now - T) + slk.
Proof.
  intros Hok Hn. pose proof (refill_facts burst window Hb Hw ip T now l Hok Hn) as Hr.
  destruct (refill _ _ _ _ _) as [l' b]. destruct Hr as (-> & Hbk & Hs & Hle). split_and!; [by eapply limiter_ok_insert|by rewrite lookup_insert_eq|done|].
  intros x. destruct (decide (x = ip)) as [->|Hx]; [by rewrite potential_insert|].
  rewrite potential_insert_ne by done. pose proof (slack_pos burst Hb).
  destruct (potential_later burst window Hb Hw x T now l Hok Hn). lra.
Qed.

Lemma pot_now ip now l b : l !! ip = Some b → lb_lastSeen b = now → pot ip now l == fv (lb_tokens b).
Proof. intros Hl Hs. rewrite <-(insert_id l ip b Hl). by apply potential_insert. Qed.

(** A spent token. *)
Lemma one_less_pot ip now l b : ok now l → l !! ip = Some b → lb_lastSeen b = now →
  ok now (<[ip := one_less b]> l) ∧ (∀ x, x ≠ ip → pot x now (<[ip := one_less b]> l) = pot x now l) ∧
  pot ip now (<[ip := one_less b]> l) <= pos (pot ip now l - 1) + (2 # 1) * slk.
Proof.
  intros Hok Hl Hs. pose proof Hok as [HT Hall]. destruct (Hall ip b Hl) as [Hbk _]. split_and!.
  - apply (limiter_ok_insert burst now); [done|lia|by apply one_less_ok|done].
  - intros x Hx. by apply potential_insert_ne.
  - rewrite potential_insert by done. pose proof (one_less_le burst Hb b Hbk). by rewrite (pot_now ip now l b Hl Hs).
Qed.

Lemma sub_nonneg b : bucket_ok burst b → 1 <= fv (lb_tokens b) → f_lt (f_sub (lb_tokens b) (f_of_Z 1)) (f_of_Z 0) = false.
Proof.
  intros [H0 H1] Ht. destruct (between_Q _ _ _ Hb) as [HB1 HB2]. apply not_true_iff_false. rewrite fv_lt, fv_zero. apply Qle_not_lt.
  assert (E1 : fv (lb_tokens b) - fv (f_of_Z 1) == fv (lb_tokens b) - 1) by (by rewrite fv_one).
  assert (Hn : near (fv (f_sub (lb_tokens b) (f_of_Z 1))) (fv (lb_tokens b) - 1)).
  { rewrite <-E1. apply fv_sub. rewrite E1. apply Qabs_Qle_condition. qlra. }
  assert (Hge : 0 <= fv (lb_tokens b) - 1) by (clear -Ht; lra). destruct (near_bounds _ _ Hge Hn) as [L _].
  unfold unit_roundoff in L. clear -L Hge. lra.
Qed.

Lemma has_token_spec b : has_token b = true ↔ 1 <= fv (lb_tokens b).
Proof.
  unfold has_token. rewrite negb_true_iff, <-not_true_iff_false, fv_lt, fv_one. split; [apply Qnot_lt_le|apply Qle_not_lt].
Qed.

(** *** Every request that is let through has spent a token *)

Context (c : Calls) (Httl : (2 * window <= cl_ttl c)%Z).

(** A call keeps the buckets and adds no more than the time is worth. *)
Definition sound : Prop := ∀ T ev l, ok T l → (T <= time_of T ev <= horizon)%Z →
  ok (time_of T ev) (step c ev l) ∧ ∀ x, pot x (time_of T ev) (step c ev l) <= pot x T l + wth (time_of T ev - T) + (4 # 1) * slk.
(** What is let through costs its address a token besides. *)
Definition metered : Prop := ∀ T ev l, ok T l → (T <= time_of T ev <= horizon)%Z →
  ok (time_of T ev) (step c ev l) ∧ ∀ x, pot x (time_of T ev) (step c ev l) + inject_Z (Z.of_nat (admitted_from x (answer c ev l)))
    <= pot x T l + wth (time_of T ev - T) + (4 # 1) * slk.

Lemma sweep_step T now l : ok T l → (T <= now <= horizon)%Z →
  ok now (cleanup (cl_ttl c) now l) ∧ ∀ x, pot x now (cleanup (cl_ttl c) now l) <= pot x T l + wth (now - T).
Proof.
  intros Hok Hn. destruct (potential_later burst window Hb Hw "" T now l Hok Hn) as [Hok1 _].
  destruct (cleanup_potential burst window Hb Hw (cl_ttl c) "" now l) as [Hok2 _]; [lia|done|]. split; [done|]. intros x.
  destruct (potential_later burst window Hb Hw x T now l Hok Hn) as [_ Hp1].
  destruct (cleanup_potential burst window Hb Hw (cl_ttl c) x now l) as [_ Hp2]; [lia|done|]. lra.
Qed.

Lemma admitted_app ip l1 l2 : inject_Z (Z.of_nat (admitted_from ip (l1 ++ l2))) == inject_Z (Z.of_nat (admitted_from ip l1)) + inject_Z (Z.of_nat (admitted_from ip l2)).
Proof. unfold admitted_from, cnt. by rewrite List.filter_app, List.length_app, Nat2Z.inj_add, inject_Z_plus. Qed.

Lemma admitted_one x ip r : inject_Z (Z.of_nat (admitted_from x [(ip, r)])) == if (ip =s x) && r then 1 else 0.
Proof. unfold admitted_from. rewrite cnt_cons. simpl. by destruct (_ && _). Qed.

Lemma admitted_bound ip evs T l : metered → ok T l → ordered T evs →
  inject_Z (Z.of_nat (admitted_from ip (answers c evs l)))
  <= pot ip T l + wth (end_time T evs - T) + (4 # 1) * slk * inject_Z (Z.of_nat (length evs)).
Proof.
  intros Hmeter. revert T l. induction evs as [|ev evs IH]; intros T l Hok Ho.
  - simpl. change (inject_Z (Z.of_nat (admitted_from ip []))) with 0. change (inject_Z (Z.of_nat 0)) with 0.
    pose proof (potential_pos ip T l Hok). pose proof (worth_pos burst window Hb Hw (T - T) ltac:(lia)). lra.
  - rewrite length_succ. destruct Ho as [H1 Ho]. pose proof (ordered_horizon _ _ Ho) as [Hh Hend]. simpl answers. simpl end_time.
    destruct (Hmeter T ev l Hok) as [Hok' Hp]; [lia|]. specialize (Hp ip). specialize (IH _ _ Hok' Ho). rewrite admitted_app.
    assert (E : (end_time (time_of T ev) evs - T)%Z = (time_of T ev - T + (end_time (time_of T ev) evs - time_of T ev))%Z) by lia.
    rewrite E, worth_add by done. lra.
Qed.
End Bounded.

Lemma refresh_metered : metered refreshBurst refreshWindow refresh_calls.
Proof.
  intros T ev l Hok Hn. set (B := refreshBurst) in *. set (W := refreshWindow) in *.
  assert (HB : (1 <= B <= 1000)%Z) by done. assert (HW : (1 <= W <= 1000000000000)%Z) by done. pose proof (slack_pos B HB) as Hsl.
  assert (Hlater : ∀ now, (T <= now <= horizon)%Z → limiter_ok B now l ∧
    ∀ x, potential B W x now l + 0 <= potential B W x T l + worth B W (now - T) + (4 # 1) * slack B).
  { intros now Hnow. split; [by apply (potential_later B W HB HW "" T now l)|]. intros x. destruct (potential_later B W HB HW x T now l Hok Hnow). lra. }
  destruct ev as [now ip|now ip|ip|now]; simpl in *; [|by apply Hlater..|].
  - unfold refresh_allow. fold B W. pose proof (refill_pot B W HB HW ip T now l Hok Hn) as Hr.
    destruct (refill _ _ _ _ _) as [l1 b]. destruct Hr as (Hok1 & Hl & Hs & Hp).
    destruct (f_lt _ _) eqn:Et; simpl.
    + split; [done|]. intros x. rewrite admitted_one, andb_false_r. specialize (Hp x). lra.
    + assert (Ht : 1 <= fv (lb_tokens b)) by (apply has_token_spec; unfold has_token; by rewrite Et).
      destruct (one_less_pot B W HB ip now l1 b Hok1 Hl Hs) as (Hok2 & Hne & Hip).
      assert (Eb : one_less b = mkBucket (f_sub (lb_tokens b) (f_of_Z 1)) (lb_lastSeen b)).
      { unfold one_less. cbv zeta. destruct (f_lt (f_sub _ _) _) eqn:E0; [|done]. rewrite (sub_nonneg B HB) in E0; [done|by apply (proj2 Hok1 ip b Hl)|done]. }
      rewrite <-Eb. split; [done|]. intros x. rewrite admitted_one, andb_true_r. specialize (Hp x). destruct (String.eqb_spec ip x) as [<-|Hx].
      * pose proof (pot_now B W ip now l1 b Hl Hs) as Ep. rewrite Ep in *.
        destruct (pos_cases (fv (lb_tokens b) - 1)) as [[_ E]|[? _]]; [rewrite E in Hip|]; lra.
      * rewrite (Hne x) by congruence. lra.
  - destruct (sweep_step B W HB HW refresh_calls ltac:(done) T now l Hok Hn) as [Hok' Hp]. split; [done|]. intros x.
    change (inject_Z (Z.of_nat (admitted_from x []))) with 0. specialize (Hp x). simpl in Hp. lra.
Qed.

(** *** Failing logins *)

(** How many of the logins of an address can still fail, when [p] are in flight
    of [k] at most and the tokens are worth [t]: those in flight, as many more as
    find a token together, and one for every further token. *)
Definition room (k p t : Q) : Q := k - (k - p) * pos (1 - t) + pos (t - 1).

#[local] Instance room_proper : Proper (Qeq ==> Qeq ==> Qeq ==> Qeq) room.
Proof. intros k k' Hk p p' Hp t t' Ht. unfold room. by rewrite Hk, Hp, Ht. Qed.

Lemma room_more k p t t' d : 0 <= p → p <= k → 1 <= k → 0 <= d → t' <= t + d → room k p t' <= room k p t + k * d.
Proof.
  intros H1 H2 H3 H4 H5. unfold room.
  assert (P1 : 0 <= k * d) by (apply Qmult_le_0_compat; lra). assert (P2 : 0 <= (k - 1) * d) by (apply Qmult_le_0_compat; lra).
  destruct (pos_cases (1 - t)) as [[A ->]|[A ->]], (pos_cases (t - 1)) as [[B ->]|[B ->]],
    (pos_cases (1 - t')) as [[C ->]|[C ->]], (pos_cases (t' - 1)) as [[D ->]|[D ->]]; try lra; nra.
Qed.
Lemma room_admit k p t : 1 <= t → room k (p + 1) t <= room k p t.
Proof.
  intros Ht. unfold room. destruct (pos_cases (1 - t)) as [[A ->]|[A ->]]; [assert (E : 1 - t == 0) by lra; rewrite E|]; lra.
Qed.
Lemma room_end k p t : room k (p - 1) t <= room k p t.
Proof. unfold room. destruct (pos_cases (1 - t)) as [[A ->]|[A ->]]; nra. Qed.
Lemma room_fail k p t t' d : 1 <= p → p <= k → 0 <= t → 0 <= d → t' <= pos (t - 1) + d → room k (p - 1) t' + 1 <= room k p t + k * d.
Proof.
  intros H1 H2 H3 H4 H5. assert (Hm : room k (p - 1) t' <= room k (p - 1) (pos (t - 1)) + k * d) by (apply room_more; lra).
  enough (room k (p - 1) (pos (t - 1)) + 1 <= room k p t) by lra. clear t' d H4 H5 Hm. unfold room.
  destruct (pos_cases (1 - t)) as [[A ->]|[A ->]], (pos_cases (t - 1)) as [[B ->]|[B ->]].
  - assert (E : t == 1) by lra. rewrite E. destruct (pos_cases (1 - (1 - 1))) as [[C ->]|[C ->]], (pos_cases (1 - 1 - 1)) as [[D ->]|[D ->]]; lra.
  - destruct (pos_cases (1 - 0)) as [[C ->]|[C ->]], (pos_cases (0 - 1)) as [[D ->]|[D ->]]; try lra. nra.
  - destruct (pos_cases (1 - (t - 1))) as [[C ->]|[C ->]], (pos_cases (t - 1 - 1)) as [[D ->]|[D ->]]; nra.
  - lra.
Qed.
Lemma room_pos k p t : 0 <= p → p <= k → 0 <= t → 0 <= room k p t.
Proof.
  intros H1 H2 H3. unfold room. destruct (pos_cases (1 - t)) as [[A ->]|[A ->]], (pos_cases (t - 1)) as [[B ->]|[B ->]]; nra.
Qed.

#[local] Abbreviation B := loginBurst.
#[local] Abbreviation W := loginWindow.
#[local] Abbreviation Q_ n := (inject_Z (Z.of_nat n)).

Lemma login_bounds : (1 <= B <= 1000)%Z ∧ (1 <= W <= 1000000000000)%Z.
Proof. done. Qed.

(** A check only refills; it says yes when there is a token. *)
Lemma login_asked T now ip l : limiter_ok B T l → (T <= now <= horizon)%Z →
  limiter_ok B now (login_allow now ip l).1 ∧
  (∀ x, potential B W x now (login_allow now ip l).1 <= potential B W x T l + worth B W (now - T) + slack B) ∧
  ((login_allow now ip l).2 = true → 1 <= potential B W ip now (login_allow now ip l).1).
Proof.
  intros Hok Hn. destruct login_bounds as [HB HW]. unfold login_allow. pose proof (refill_pot B W HB HW ip T now l Hok Hn) as Hr.
  destruct (refill _ _ _ _ _) as [l1 b]. destruct Hr as (Hok1 & Hl & Hs & Hp). split_and!; [done|done|]. simpl. intros Ht%has_token_spec.
  by rewrite (pot_now B W ip now l1 b Hl Hs).
Qed.
(** A failure refills and takes a token, if there is one. *)
Lemma login_failed T now ip l : limiter_ok B T l → (T <= now <= horizon)%Z → ∃ l1,
  limiter_ok B now l1 ∧ (∀ x, potential B W x now l1 <= potential B W x T l + worth B W (now - T) + slack B) ∧
  limiter_ok B now (countFailure now ip l) ∧ (∀ x, x ≠ ip → potential B W x now (countFailure now ip l) = potential B W x now l1) ∧
  potential B W ip now (countFailure now ip l) <= pos (potential B W ip now l1 - 1) + (2 # 1) * slack B.
Proof.
  intros Hok Hn. destruct login_bounds as [HB HW]. unfold countFailure. pose proof (refill_pot B W HB HW ip T now l Hok Hn) as Hr.
  destruct (refill _ _ _ _ _) as [l1 b]. destruct Hr as (Hok1 & Hl & Hs & Hp). exists l1.
  destruct (one_less_pot B W HB ip now l1 b Hok1 Hl Hs) as (Hok2 & Hne & Hip). by split_and!.
Qed.

#[local] Ltac call := cbn [step time_of login_calls cl_allow cl_count cl_ttl] in *.

Lemma login_sound : sound B W login_calls.
Proof.
  intros T ev l Hok Hn. destruct login_bounds as [HB HW]. pose proof (slack_pos B HB) as Hsl. destruct ev as [now ip|now ip|ip|now]; call.
  - destruct (login_asked T now ip l Hok Hn) as (H1 & H2 & _). split; [done|]. intros x. specialize (H2 x). lra.
  - destruct (login_failed T now ip l Hok Hn) as (l1 & Hok1 & Hp & H1 & Hne & Hip). split; [done|]. intros x. specialize (Hp x).
    destruct (decide (x = ip)) as [->|Hx]; [|rewrite (Hne x Hx); lra]. pose proof (potential_pos B W HB HW ip now l1 Hok1).
    destruct (pos_cases (potential B W ip now l1 - 1)) as [[_ E]|[_ E]]; rewrite E in Hip; lra.
  - split; [done|]. intros x. pose proof (worth_pos B W HB HW (T - T) ltac:(lia)). lra.
  - destruct (sweep_step B W HB HW login_calls ltac:(done) T now l Hok Hn) as [H1 H2]. split; [done|]. intros x. specialize (H2 x). call. lra.
Qed.

Lemma Q_succ n : Q_ (S n) == Q_ n + 1.
Proof. rewrite Nat2Z.inj_succ. unfold Z.succ. by rewrite inject_Z_plus. Qed.
Lemma Q_le n m : (n <= m)%nat → Q_ n <= Q_ m.
Proof. intros H. rewrite <-Zle_Qle. lia. Qed.

(** One event: what it counts and leaves room for is within the room there was. *)
Definition allowance (k : nat) (T T' : Z) : Q := Q_ k * (worth B W (T' - T) + (4 # 1) * slack B).

Lemma room_step k ip p T ev evs l : (1 <= k)%nat → (p <= k)%nat → limiter_ok B T l → (T <= time_of T ev <= horizon)%Z →
  at_most login_calls k ip p (ev :: evs) l →
  ∃ p', (p' <= k)%nat ∧ at_most login_calls k ip p' evs (step login_calls ev l) ∧
    Q_ (failures ip [ev]) + room (Q_ k) (Q_ p') (potential B W ip (time_of T ev) (step login_calls ev l))
    <= room (Q_ k) (Q_ p) (potential B W ip T l) + allowance k T (time_of T ev).
Proof.
  intros Hk Hp Hok Hn Hm. destruct login_bounds as [HB HW]. pose proof (slack_pos B HB) as Hsl.
  assert (HK : 1 <= Q_ k) by (apply (Q_le 1); lia). assert (HP : 0 <= Q_ p) by (apply (Q_le 0); lia). pose proof (Q_le _ _ Hp) as HPk.
  pose proof (worth_pos B W HB HW (time_of T ev - T) ltac:(lia)) as Hwp. destruct (login_sound T ev l Hok Hn) as [Hok' Hs].
  assert (Hkeep : room (Q_ k) (Q_ p) (potential B W ip (time_of T ev) (step login_calls ev l)) <=
    room (Q_ k) (Q_ p) (potential B W ip T l) + allowance k T (time_of T ev)).
  { unfold allowance. apply room_more; [done..|lra|]. specialize (Hs ip). lra. }
  assert (Hsame : is_failure ip ev = false → Q_ (failures ip [ev]) == 0) by (intros E; unfold failures; rewrite cnt_cons, E; done).
  assert (Hless : (0 < p)%nat → Q_ (pred p) == Q_ p - 1).
  { intros H. destruct p as [|q]; [lia|]. rewrite Q_succ. simpl pred. ring. }
  destruct ev as [now x|now x|x|now]; cbn [at_most] in Hm.
  - destruct (_ && _) eqn:E.
    + destruct Hm as [Hlt Hm]. exists (S p). split_and!; [lia|done|]. rewrite (Hsame eq_refl), Q_succ. call.
      apply andb_true_iff in E as [->%String.eqb_eq E]. destruct (login_asked T now ip l Hok Hn) as (_ & _ & Ht).
      pose proof (room_admit (Q_ k) (Q_ p) _ (Ht E)). lra.
    + exists p. split_and!; [done..|]. rewrite (Hsame eq_refl). lra.
  - destruct (String.eqb_spec x ip) as [->|Hx].
    + destruct Hm as [Hlt Hm]. exists (pred p). split_and!; [lia|done|]. rewrite Hless by done.
      assert (Hf : Q_ (failures ip [Failed now ip]) == 1) by (unfold failures; rewrite cnt_cons; simpl; by rewrite String.eqb_refl).
      rewrite Hf. call. destruct (login_failed T now ip l Hok Hn) as (l1 & Hok1 & Hp1 & _ & _ & Hip). specialize (Hp1 ip).
      pose proof (potential_pos B W HB HW ip now l1 Hok1) as Hp0. assert (1 <= Q_ p) by (apply (Q_le 1); lia).
      pose proof (room_fail (Q_ k) (Q_ p) (potential B W ip now l1) _ ((2 # 1) * slack B) H HPk Hp0 ltac:(lra) Hip) as Hr.
      pose proof (room_more (Q_ k) (Q_ p) (potential B W ip T l) (potential B W ip now l1) (worth B W (now - T) + slack B) HP HPk HK ltac:(lra) ltac:(lra)) as Hr'.
      unfold allowance. assert (0 <= Q_ k * slack B) by (apply Qmult_le_0_compat; lra). lra.
    + exists p. split_and!; [done..|]. rewrite (Hsame (proj2 (String.eqb_neq _ _) Hx)). lra.
  - destruct (x =s ip).
    + destruct Hm as [Hlt Hm]. exists (pred p). split_and!; [lia|done|]. rewrite (Hsame eq_refl), Hless by done.
      pose proof (room_end (Q_ k) (Q_ p) (potential B W ip T l)). call. lra.
    + exists p. split_and!; [done..|]. rewrite (Hsame eq_refl). lra.
  - exists p. split_and!; [done..|]. rewrite (Hsame eq_refl). lra.
Qed.

Lemma failures_bound k ip evs : ∀ p T l, (1 <= k)%nat → (p <= k)%nat → limiter_ok B T l → ordered T evs → at_most login_calls k ip p evs l →
  Q_ (failures ip evs) <= room (Q_ k) (Q_ p) (potential B W ip T l) + Q_ k * (worth B W (end_time T evs - T) + (4 # 1) * slack B * Q_ (length evs)).
Proof.
  destruct login_bounds as [HB HW]. induction evs as [|ev evs IH]; intros p T l Hk Hp Hok Ho Hm.
  - change (Q_ (failures ip [])) with 0. simpl. pose proof (potential_pos B W HB HW ip T l Hok).
    pose proof (room_pos (Q_ k) (Q_ p) (potential B W ip T l) (Q_le 0 p ltac:(lia)) (Q_le p k Hp) H). pose proof (slack_pos B HB).
    pose proof (worth_pos B W HB HW (T - T) ltac:(lia)). change (Q_ 0) with 0.
    assert (0 <= Q_ k * (worth B W (T - T) + (4 # 1) * slack B * 0)) by (apply Qmult_le_0_compat; [apply (Q_le 0); lia|lra]). lra.
  - destruct Ho as [H1 Ho]. pose proof (ordered_horizon _ _ Ho) as [Hh Hend].
    destruct (room_step k ip p T ev evs l Hk Hp Hok ltac:(lia) Hm) as (p' & Hp' & Hm' & Hr). destruct (login_sound T ev l Hok ltac:(lia)) as [Hok' _].
    specialize (IH p' _ _ Hk Hp' Hok' Ho Hm'). rewrite length_succ. simpl end_time.
    assert (E : (end_time (time_of T ev) evs - T)%Z = (time_of T ev - T + (end_time (time_of T ev) evs - time_of T ev))%Z) by lia.
    rewrite E, worth_add by done. assert (Ef : Q_ (failures ip (ev :: evs)) == Q_ (failures ip [ev]) + Q_ (failures ip evs)).
    { unfold failures. rewrite !cnt_cons. change (cnt (is_failure ip) []) with 0%nat. by rewrite Nat.add_0_r, Nat2Z.inj_add, inject_Z_plus. }
    rewrite Ef. unfold allowance in Hr. lra.
Qed.

Lemma empty_ok burst T : (0 <= T <= horizon)%Z → limiter_ok burst T ∅.
Proof. intros HT. split; [done|]. by intros ip b Hb. Qed.
End Histories.

(** C38: The limits of the two endpoints, over any history of their calls by any
    number of addresses, interleaved in any way, with sweeps in between.  Logins:
    only failures are counted, a check spends nothing and a success is free.
    While at most [k] requests of an address are let through and not yet ended
    at any moment, no more than [4 + k] of its logins fail, plus [5 k] for every
    fifteen minutes; so five and five more when its requests follow each other,
    and no bound when any number of them is in flight at once, since all are let
    through before the first fails ([Examples.checks_before_failures]).
    Refreshes: every request spends its token when it is let through, so thirty
    and thirty more for every minute, however they overlap.  The error of the
    floating-point arithmetic stays below a billionth of a token per event. *)
Theorem rate_bounded `{FL : Float64Laws} k ip T evs : ordered T evs →
  let elapsed := inject_Z (end_time T evs - T) in let n := inject_Z (Z.of_nat (length evs)) in let K := inject_Z (Z.of_nat k) in
  ((1 <= k)%nat → at_most login_calls k ip 0 evs ∅ →
    inject_Z (Z.of_nat (failures ip evs)) <= 4 + K + K * (5 * (elapsed / inject_Z loginWindow) + n * (1 # 1000000000))) ∧
  inject_Z (Z.of_nat (admitted_from ip (answers refresh_calls evs ∅))) <= 30 + 30 * (elapsed / inject_Z refreshWindow) + n * (1 # 1000000000).
Proof.
  intros Ho elapsed n K. destruct (ordered_horizon _ _ Ho) as [HT _].
  assert (Hn : 0 <= n) by (unfold n; change 0 with (inject_Z 0); rewrite <-Zle_Qle; lia).
  assert (HK : 0 <= K) by (unfold K; change 0 with (inject_Z 0); rewrite <-Zle_Qle; lia). split.
  - intros Hk Hm. pose proof (failures_bound k ip evs 0 T ∅ Hk ltac:(lia) (empty_ok _ T HT) Ho Hm) as H1.
    unfold potential, worth, slack in H1. rewrite lookup_empty in H1. fold elapsed n K in H1. change (inject_Z loginBurst) with 5 in H1.
    assert (E : room K (inject_Z (Z.of_nat 0)) 5 == K + 4).
    { unfold room. destruct (pos_cases (1 - 5)) as [[? ->]|[? ->]], (pos_cases (5 - 1)) as [[? ->]|[? ->]]; lra. }
    rewrite E in H1. assert (0 <= K * n) by (by apply Qmult_le_0_compat). lra.
  - pose proof (admitted_bound refreshBurst refreshWindow ltac:(done) ltac:(done) refresh_calls ip evs T ∅ refresh_metered (empty_ok _ T HT) Ho) as H2.
    unfold potential, worth, slack in H2. rewrite lookup_empty in H2. fold elapsed n in H2. change (inject_Z refreshBurst) with 30 in H2. lra.
Qed.

(** ** Sweeps cannot be observed *)

Section Sweeps.
Context `{FL : Float64Laws} (burst window : Z).
Context (Hb : (1 <= burst <= 1000)%Z) (Hw : (1 <= window <= 1000000000000)%Z).
Context (c : Calls) (Httl : (2 * window <= cl_ttl c)%Z) (Hsound : sound burst window c).

(** A bucket that is as good as none. *)
Definition full_again (T : Z) (o : option loginBucket) : Prop :=
  match o with None => True | Some b => (2 * window <= T - lb_lastSeen b)%Z end.

Record agree (T : Z) (l l' : Limiter) : Prop := {
  ag_left : limiter_ok burst T l;
  ag_right : limiter_ok burst T l';
  ag_buckets : ∀ ip, l !! ip = l' !! ip ∨ full_again T (l !! ip) ∧ full_again T (l' !! ip);
}.

Lemma refill_full T now ip l : limiter_ok burst T l → (T <= now <= horizon)%Z → full_again T (l !! ip) →
  (refill burst window now ip l).2 = mkBucket (f_of_Z burst) now.
Proof.
  intros [HT Hl] Hn Hf. unfold refill. destruct (l !! ip) as [b|] eqn:E; simpl in *; [|done].
  destruct (Hl ip b E) as [Hbk Hs]. unfold horizon in *. apply refilled_full; [done|done|done|lia].
Qed.

Lemma refill_agree T now ip l l' : agree T l l' → (T <= now <= horizon)%Z → (refill burst window now ip l).2 = (refill burst window now ip l').2.
Proof.
  intros [H1 H2 H3] Hn. destruct (H3 ip) as [E|[F1 F2]].
  - unfold refill. by rewrite E.
  - by rewrite !(refill_full T) by done.
Qed.

Lemma full_again_later T now o : full_again T o → (T <= now)%Z → full_again now o.
Proof. destruct o; simpl; lia. Qed.

Definition is_sweep (ev : event) : bool := match ev with Sweep _ => true | _ => false end.

(** Calls that only depend on the bucket of their address keep the agreement. *)
Definition local_step : Prop := ∀ T ev l l', agree T l l' → (T <= time_of T ev <= horizon)%Z → is_sweep ev = false →
  answer c ev l = answer c ev l' ∧
  (step c ev l = l ∧ step c ev l' = l' ∨ ∃ ip b, step c ev l = <[ip := b]> l ∧ step c ev l' = <[ip := b]> l').

Hypothesis Hlocal : local_step.

Lemma call_agree T ev l l' : agree T l l' → (T <= time_of T ev <= horizon)%Z → is_sweep ev = false →
  answer c ev l = answer c ev l' ∧ agree (time_of T ev) (step c ev l) (step c ev l').
Proof.
  intros Ha Hn Hs. destruct (Hlocal T ev l l' Ha Hn Hs) as [E1 E2]. split; [done|].
  destruct (Hsound T ev l (ag_left _ _ _ Ha) Hn) as [O1 _], (Hsound T ev l' (ag_right _ _ _ Ha) Hn) as [O2 _]. split; [done|done|]. intros x.
  assert (Hold : l !! x = l' !! x ∨ full_again (time_of T ev) (l !! x) ∧ full_again (time_of T ev) (l' !! x)).
  { destruct (ag_buckets _ _ _ Ha x) as [E|[F1 F2]]; [by left|right]. split; (apply (full_again_later T); [done|lia]). }
  destruct E2 as [[-> ->] | (ip & b & -> & ->)]; [done|]. destruct (decide (x = ip)) as [->|Hx]; [left; by rewrite !lookup_insert_eq|].
  by rewrite !lookup_insert_ne.
Qed.

Lemma sweep_agree T now l l' : agree T l l' → (T <= now <= horizon)%Z → agree now (cleanup (cl_ttl c) now l) l'.
Proof.
  intros [H1 H2 H3] Hn.
  destruct (potential_later burst window Hb Hw "" T now l H1 Hn) as [O1 _], (potential_later burst window Hb Hw "" T now l' H2 Hn) as [O2 _].
  destruct (cleanup_potential burst window Hb Hw (cl_ttl c) "" now l ltac:(lia) O1) as [O3 _]. split; [done|done|]. intros ip.
  unfold cleanup. destruct (l !! ip) as [b|] eqn:E.
  - destruct (Z.ltb_spec (lb_lastSeen b) (now - cl_ttl c)).
    + right. rewrite (proj2 (map_lookup_filter_None _ _ _)); [|right; intros b' Hb'; simplify_eq; simpl; by rewrite (proj2 (Z.ltb_lt _ _)) by lia].
      split; [done|]. destruct (H3 ip) as [E'|[_ F2]]; [rewrite <-E', E; simpl; lia|by apply (full_again_later T); [|lia]].
    + rewrite (proj2 (map_lookup_filter_Some _ _ _ b)) by (split; [done|]; simpl; by rewrite (proj2 (Z.ltb_ge _ _)) by lia).
      destruct (H3 ip) as [E'|[F1 F2]]; [left; congruence|]. right. rewrite E in F1. split; (apply (full_again_later T); [done|lia]).
  - rewrite (proj2 (map_lookup_filter_None _ _ _)) by (by left).
    destruct (H3 ip) as [E'|[_ F2]]; [left; congruence|]. right. split; [done|]. by apply (full_again_later T); [|lia].
Qed.

Lemma sweeps_invisible evs T l l' : agree T l l' → ordered T evs →
  answers c evs l = answers c (List.filter (λ ev, negb (is_sweep ev)) evs) l'.
Proof.
  revert T l l'. induction evs as [|ev evs IH]; intros T l l' Ha Ho; [done|]. destruct Ho as [H1 Ho].
  destruct (ordered_horizon _ _ Ho) as [Hh _]. destruct (is_sweep ev) eqn:Es.
  - destruct ev as [| | |now]; try done. simpl in *. apply (IH now); [|done]. by apply (sweep_agree T); [|lia].
  - destruct (call_agree T ev l l' Ha ltac:(lia) Es) as [E Ha']. simpl. rewrite Es. simpl. rewrite E. f_equal. by apply (IH (time_of T ev)).
Qed.
End Sweeps.

Lemma refresh_local `{FL : Float64Laws} : local_step refreshBurst refreshWindow refresh_calls.
Proof.
  intros T ev l l' Ha Hn Hs. destruct ev as [now ip|now ip|ip|now]; [|by split; [|left]..|done]. simpl. unfold refresh_allow.
  pose proof (refill_agree refreshBurst refreshWindow ltac:(done) ltac:(done) T now ip l l' Ha Hn) as E.
  unfold refill in *. cbv zeta in *. simpl in E. rewrite <-E.
  destruct (f_lt _ _); simpl; rewrite ?insert_insert_eq; (split; [done|]); right; by eexists _, _.
Qed.

Lemma login_local `{FL : Float64Laws} : local_step loginBurst loginWindow login_calls.
Proof.
  intros T ev l l' Ha Hn Hs. destruct ev as [now ip|now ip|ip|now]; [| |by split; [|left]|done]; simpl; unfold login_allow, countFailure;
    pose proof (refill_agree loginBurst loginWindow ltac:(done) ltac:(done) T now ip l l' Ha Hn) as E;
    unfold refill in *; cbv zeta in *; simpl in E; rewrite <-E; simpl; rewrite ?insert_insert_eq; (split; [done|]); right; by eexists _, _.
Qed.

(** The sweeps are only about memory.  In any history the answers of both
    limiters are those of the same history without the passes of [cleanupLoop]:
    a bucket that is dropped would have been full, to the last bit, when its
    address came back. *)
Theorem cleanup_invisible `{FL : Float64Laws} T evs : ordered T evs →
  let unswept := List.filter (λ ev, negb (is_sweep ev)) evs in
  answers login_calls evs ∅ = answers login_calls unswept ∅ ∧ answers refresh_calls evs ∅ = answers refresh_calls unswept ∅.
Proof.
  intros Ho. destruct (ordered_horizon _ _ Ho) as [HT _].
  assert (Ha : ∀ burst window, agree burst window T ∅ ∅) by (split; [by apply empty_ok|by apply empty_ok|by left]).
  assert (Hr : sound refreshBurst refreshWindow refresh_calls).
  { intros T' ev l Hok Hn. destruct (refresh_metered T' ev l Hok Hn) as [H1 H2]. split; [done|]. intros x. specialize (H2 x).
    assert (0 <= inject_Z (Z.of_nat (admitted_from x (answer refresh_calls ev l)))) by (change 0 with (inject_Z 0); rewrite <-Zle_Qle; lia). lra. }
  split.
  - by apply (sweeps_invisible loginBurst loginWindow ltac:(done) ltac:(done) login_calls ltac:(done) login_sound login_local evs T).
  - by apply (sweeps_invisible refreshBurst refreshWindow ltac:(done) ltac:(done) refresh_calls ltac:(done) Hr refresh_local evs T).
Qed.

(** ** The address of a request *)

(** Without a trusted peer the headers do not matter. *)
Lemma headers_ignored `{Net : NetIP} r xff xr trusted :
  (trusted = [] ∨ ∀ ip, ParseIP (remoteHost (rq_RemoteAddr r)) = Some ip → inTrusted ip trusted = false) →
  clientIP (mkRequest (rq_RemoteAddr r) xff xr) trusted = remoteHost (rq_RemoteAddr r).
Proof.
  intros Ht. unfold clientIP. simpl. destruct trusted as [|n trusted]; [done|]. simpl is_nil. cbv iota.
  destruct (ParseIP _) as [ip|]; [|done]. destruct Ht as [?|Ht]; [done|]. by rewrite (Ht ip eq_refl).
Qed.

Module Examples.

(** Addresses are their texts; the only network is 10.0.0.1/32. *)
Definition toy_net : NetIP := {|
  IP := string; IPNet := string; ParseIP s := Some s; Is4 _ := true;
  ParseCIDR s := Some (take_s (String.length s - 3) s); NetContains n ip := (n =s ip);
  SplitHostPort s := match Index s ":" with Some i => Some (take_s i s, drop_s (S i) s) | None => None end;
|}.

(** The middleware RealIP of chi, mounted before everything else (router.go),
    puts the X-Real-IP header of the client in RemoteAddr. *)
Definition RealIP (r : Request) : Request := if rq_XRealIP r =s "" then r else mkRequest (rq_XRealIP r) (rq_XForwardedFor r) (rq_XRealIP r).

(** One peer, two addresses: the client chooses its bucket. *)
Lemma spoofed_address :
  let req h := RealIP (mkRequest "203.0.113.9:4000" "" h) in
  clientIP (Net := toy_net) (req "1.1.1.1") [] = "1.1.1.1" ∧ clientIP (Net := toy_net) (req "2.2.2.2") [] = "2.2.2.2".
Proof. done. Qed.

(** Behind a trusted proxy that appends to X-Forwarded-For the first entry is
    the client's own text. *)
Lemma forged_first_entry :
  clientIP (Net := toy_net) (mkRequest "10.0.0.1:80" "6.6.6.6, 203.0.113.9" "") (parseTrusted (Net := toy_net) ["10.0.0.1"]) = "6.6.6.6".
Proof. done. Qed.

#[local] Existing Instance exact_floats.

(** Ten logins checked before any of them fails are all let through. *)
Fixpoint check_all (n : nat) (l : Limiter) : list bool :=
  match n with O => [] | S n => let '(l, ok) := login_allow 0 "ip" l in ok :: check_all n l end.
Lemma checks_before_failures : check_all 10 ∅ = List.repeat true 10.
Proof. done. Qed.

(** An address that sends two requests at a time is refused after six failures. *)
Definition pair (t : Z) : list event := [Asked t "ip"; Asked t "ip"; Failed (t + 1) "ip"; Failed (t + 1) "ip"].
Definition attempts : list event := pair 1 ++ pair 3 ++ [Asked 5 "ip"; Ended "ip"; Sweep 6] ++ pair 7 ++ [Asked 9 "ip"; Sweep 10; Asked 11 "ip"].

Lemma blocked_after_six : (snd <$> answers login_calls attempts ∅ = [true; true; true; true; true; true; true; false; false])%nat ∧ failures "ip" attempts = 6%nat.
Proof. done. Qed.

Lemma rate_bounded_witness : ordered 0 attempts ∧ at_most login_calls 2 "ip" 0 attempts ∅ ∧
  inject_Z (Z.of_nat (failures "ip" attempts)) <= 4 + inject_Z 2 + inject_Z 2 * (5 * (inject_Z (end_time 0 attempts - 0) / inject_Z loginWindow) + inject_Z (Z.of_nat (length attempts)) * (1 # 1000000000)).
Proof.
  assert (Ho : ordered 0 attempts) by (simpl; unfold horizon; lia). assert (Hm : at_most login_calls 2 "ip" 0 attempts ∅) by (vm_compute; tauto || (repeat split; lia)).
  split; [exact Ho|]. split; [exact Hm|]. exact (proj1 (rate_bounded (FL := exact_laws) 2 "ip" 0 attempts Ho) ltac:(lia) Hm).
Defined.

Lemma cleanup_invisible_witness : ordered 0 attempts ∧
  answers login_calls attempts ∅ = answers login_calls (List.filter (λ ev, negb (is_sweep ev)) attempts) ∅.
Proof.
  assert (Ho : ordered 0 attempts) by (simpl; unfold horizon; lia). split; [exact Ho|].
  exact (proj1 (cleanup_invisible (FL := exact_laws) 0 attempts Ho)).
Defined.
End Examples.
