(* ===== verification/AuthApi.v ===== *)
(** * The authentication endpoints

    The bearer middleware (internal/api/apimiddleware/auth.go) and the handlers
    of internal/api/handler/auth.go and twofactor.go, over the services of
    [Refresh], [TwoFactor], [ApiTokens], [Rbac] and the limiter of [RateLimit].

    A handler always answers, so its errors have the empty type; the errors of
    the services come back as values.  A decoded body is an option ([None]:
    invalid JSON); clock readings, random tokens and UUIDs are arguments.
    Cookies are kept as what happens to the refresh cookie: its attributes are
    constants. *)

From S2P Require Import Prelude Effects GoStrings Schema CryptoLib Refresh Challenge Cipher TwoFactor Rbac ApiTokens RateLimit.
From stdpp Require Import gmap.

(** ** Answers *)

Inductive Body :=
  | BNone
  | BError (code : string)
  | BTokens (access : string) (expires_in : Z)
  | BChallenge (id : string) (methods : list string)
  | BContext (u : UserCtx)
  | BAccount (id email role : string)
  | BSetup (secret otpauth_url qr_code_png_b64 : string)
  | BCodes (codes : list string)
  | BStatus (enabled : bool) (confirmed_at : option Z) (remaining : nat).

Inductive Cookie := KeepCookie | SetRefreshCookie (value : string) | ClearRefreshCookie.

Record Resp := mkResp { rp_status : Z; rp_cookie : Cookie; rp_body : Body }.

Definition writeError (status : Z) (code : string) : Resp := mkResp status KeepCookie (BError code).
Definition writeJSON (status : Z) (b : Body) : Resp := mkResp status KeepCookie b.
Definition NoContent : Resp := mkResp 204 KeepCookie BNone.
Definition unauthorized : Resp := writeError 401 "unauthorized".

Section Endpoints.
Context `{Unicode} `{CryptoLib} `{AeadLib} `{TotpLib} `{Fl : Float64}.

(** The tables and challenges, and the buckets of the two limiters. *)
Record Api := mkApi { ap_tf : TfState; ap_limiter : Limiter; ap_refresh : Limiter }.

Definition hM := M Api Empty_set.

Definition set_db (d : Db) (a : Api) : Api := mkApi (mkTfState d (tf_challenges (ap_tf a))) (ap_limiter a) (ap_refresh a).
Definition api_db (a : Api) : Db := tf_db (ap_tf a).

(** A call of a service: its error is a value. *)
Definition db {E A} (m : M Db E A) : hM (E + A) := λ a fs,
  match m (api_db a) fs with (d, fs', r) => (set_db d a, fs', inr r) end.
Definition tf {A} (m : M TfState TfErr A) : hM (TfErr + A) := λ a fs,
  match m (ap_tf a) fs with (t, fs', r) => (mkApi t (ap_limiter a) (ap_refresh a), fs', inr r) end.

(** *** Bearer tokens (apimiddleware/auth.go) *)

(** [jwt.Parse] with the key function of the middleware; the issuer is not checked. *)
Definition parse_bearer (secret raw : string) (now : Z) : option string :=
  match jwt_parse (λ alg, if alg =s "HS256" then Some secret else None) now raw with
  | None => None
  | Some c => if cl_sub c =s "" then None else Some (cl_sub c)
  end.

(** The user, and the personal token to touch after the handler. *)
Definition authenticate (secret : string) (tokens : bool) (authz : string) (now : Z) : hM (option (string * option string)) :=
  if negb (HasPrefix authz "Bearer ") then mret None
  else
    let raw := TrimPrefix authz "Bearer " in
    if tokens && HasPrefix raw TokenPrefix then
      r ← db (Authenticate raw now);
      mret (match r with inl _ => None | inr userID => Some (userID, Some raw) end)
    else mret (match parse_bearer secret raw (Z.quot now Second) with None => None | Some sub => Some (sub, None) end).

Definition Auth (secret : string) (tokens : bool) (authz : string) (now now' : Z) (handler : string → hM Resp) : hM Resp :=
  who ← authenticate secret tokens authz now;
  match who with
  | None => mret unauthorized
  | Some (userID, pat) =>
    resp ← handler userID;
    _ ← match pat with None => mret tt | Some raw => _ ← db (TouchLastUsed raw now'); mret tt end;
    mret resp
  end.

(** *** Login, refresh, logout (handler/auth.go) *)

Record AuthDeps := mkDeps { ad_JWTSecret : string; ad_TwoFactor : option TwoFactorService; ad_RBAC : bool }.

Record loginReq := mkLoginReq { lr_Email : string; lr_Password : string }.

(** What a handler that issues a session draws: instants in seconds and
    nanoseconds, the refresh token, its family and row, a challenge id. *)
Record Draws := mkDraws { dr_now : Z; dr_nanos : Z; dr_raw : string; dr_family : string; dr_row : string; dr_challenge : string }.

(** The end of [Login] and of [Challenge]. *)
Definition issue_session (h : AuthDeps) (dr : Draws) (userID : string) : hM Resp :=
  match IssueAccessToken (ad_JWTSecret h) userID (dr_now dr) with
  | inl _ => mret (writeError 500 "token_error")
  | inr (access, _) =>
    r ← db (IssueRefreshTokenInFamily userID (dr_raw dr) (dr_family dr) (dr_row dr) (dr_now dr));
    match r with
    | inl _ => mret (writeError 500 "token_error")
    | inr (rawRefresh, _, _) => mret (mkResp 200 (SetRefreshCookie rawRefresh) (BTokens access AccessTokenTTL))
    end
  end.

(** [CountLoginFailure] with the handle the limiter left in the context. *)
Definition CountLoginFailure (ip : option string) (now : Z) : hM unit :=
  match ip with
  | None => mret tt
  | Some ip => modify (λ a, mkApi (ap_tf a) (countFailure now ip (ap_limiter a)) (ap_refresh a))
  end.

Definition invalid_credentials : Resp := writeError 401 "invalid_credentials".
Definition fail_login (ip : option string) (now : Z) : hM Resp := _ ← CountLoginFailure ip now; mret invalid_credentials.

Definition user_by_email (email : string) (d : Db) : option User := sel (λ u, u_email u =s email) (users d).

Definition Login (h : AuthDeps) (completed : bool) (req : option loginReq) (ip : option string) (dr : Draws) : hM Resp :=
  if negb completed then mret (writeError 403 "setup_not_completed")
  else match req with
  | None => mret (writeError 400 "invalid_json")
  | Some req =>
    row ← db (query tt (user_by_email (TrimSpace (lr_Email req))));
    match row with
    | inl _ | inr None => fail_login ip (dr_nanos dr)
    | inr (Some u) =>
      if negb (VerifyPassword (u_password_hash u) (lr_Password req)) then fail_login ip (dr_nanos dr)
      else
        needs ← match ad_TwoFactor h with None => mret (inr false) | Some _ => db (RequiresChallenge (u_id u)) end;
        match needs with
        | inl _ => mret (writeError 500 "twofactor_error")
        | inr true =>
          c ← tf (CreateChallenge (dr_nanos dr) (dr_challenge dr) (u_id u));
          match c with
          | inl _ => mret (writeError 500 "twofactor_error")
          | inr (challengeID, methods) => mret (writeJSON 200 (BChallenge challengeID methods))
          end
        | inr false => issue_session h dr (u_id u)
        end
    end
  end.

(** [LoginRateLimit] around it; the handle is stored for the failures. *)
Definition LoginRateLimit (now : Z) (ip : string) (next : option string → hM Resp) : hM Resp := λ a fs,
  let '(l, ok) := login_allow now ip (ap_limiter a) in
  let a := mkApi (ap_tf a) l (ap_refresh a) in
  if negb ok then (a, fs, inr (writeError 429 "rate_limited")) else next (Some ip) a fs.

Definition RefreshRateLimit (now : Z) (ip : string) (next : hM Resp) : hM Resp := λ a fs,
  let '(l, ok) := refresh_allow now ip (ap_refresh a) in
  let a := mkApi (ap_tf a) (ap_limiter a) l in
  if negb ok then (a, fs, inr (writeError 429 "rate_limited")) else next a fs.

(** The cookie: absent, or its value. *)
Definition Refresh (h : AuthDeps) (cookie : option string) (now now' now'' : Z) (newRaw newID : string) : hM Resp :=
  match cookie with
  | None => mret (writeError 401 "missing_refresh_token")
  | Some v =>
    if v =s "" then mret (writeError 401 "missing_refresh_token")
    else
      r ← db (RotateRefreshToken (ad_JWTSecret h) v now now' now'' newRaw newID);
      mret match r with
      | inl ErrTokenReuse => mkResp 401 ClearRefreshCookie (BError "refresh_token_reuse")
      | inl _ => mkResp 401 ClearRefreshCookie (BError "invalid_refresh_token")
      | inr (newRaw, access, _) => mkResp 200 (SetRefreshCookie newRaw) (BTokens access AccessTokenTTL)
      end
  end.

Definition Logout (cookie : option string) (now : Z) : hM Resp :=
  _ ← match cookie with
      | None => mret tt
      | Some v => if v =s "" then mret tt else _ ← db (RevokeRefreshToken v now); mret tt
      end;
  mret (mkResp 204 ClearRefreshCookie BNone).

(** *** The account of the caller *)

(** [SELECT ... WHERE id = ?]; the error of a missing row is [None]. *)
Definition user_row (uid : string) (d : Db) : option User := sel (is_user uid) (users d).

(** The answer with the caller's account; [missing] is what a missing row gives
    when there is no RBAC service. *)
Definition current_user (h : AuthDeps) (missing : Resp) (uid : string) : hM Resp :=
  if ad_RBAC h then
    r ← db (UserContext uid);
    mret match r with
    | inl ErrNotFound => unauthorized
    | inl _ => writeError 500 "db_error"
    | inr ctx => writeJSON 200 (BContext ctx)
    end
  else
    r ← db (query tt (user_row uid));
    mret match r with
    | inl _ => writeError 500 "db_error"
    | inr None => missing
    | inr (Some u) => writeJSON 200 (BAccount (u_id u) (u_email u) (u_role u))
    end.

Definition Me (h : AuthDeps) (uid : string) : hM Resp := current_user h unauthorized uid.
Definition writeCurrentUser (h : AuthDeps) (uid : string) : hM Resp := current_user h (writeError 500 "db_error") uid.

Definition set_name (n : string) (u : User) : User :=
  mkUser (u_id u) (u_email u) (u_password_hash u) (u_role u) (Some n) (u_avatar_path u) (u_status u)
    (u_role_id u) (u_2fa_enabled u) (u_2fa_secret u) (u_2fa_pending u) (u_2fa_confirmed_at u) (u_2fa_recovery u) (u_created_at u).
Definition set_email (e : string) (u : User) : User :=
  mkUser (u_id u) e (u_password_hash u) (u_role u) (u_name u) (u_avatar_path u) (u_status u)
    (u_role_id u) (u_2fa_enabled u) (u_2fa_secret u) (u_2fa_pending u) (u_2fa_confirmed_at u) (u_2fa_recovery u) (u_created_at u).

(** [UPDATE users SET ... WHERE id = ?] with the number of rows; [clash]: the
    update would break a UNIQUE constraint. *)
Definition update_user (uid : string) (f : User → User) (clash : Db → bool) : M Db unit nat :=
  checked tt (λ d, if clash d then inl tt else inr (on_users (upd (is_user uid) f) d, cnt (is_user uid) (users d))).

(** The end of the handlers that update the caller's row. *)
Definition updated (h : AuthDeps) (uid : string) (r : unit + nat) : hM Resp :=
  match r with
  | inl _ => mret (writeError 500 "db_error")
  | inr n => if (n =? 0)%nat then mret unauthorized else writeCurrentUser h uid
  end.

(** [req]: the decoded body; [Some None] has no name. *)
Definition UpdateProfile (h : AuthDeps) (uid : string) (req : option (option string)) : hM Resp :=
  match req with
  | None => mret (writeError 400 "invalid_json")
  | Some None => writeCurrentUser h uid
  | Some (Some name) =>
    let name := TrimSpace name in
    if (120 <? len name)%Z then mret (writeError 400 "invalid_name")
    else r ← db (update_user uid (set_name name) (λ _, false)); updated h uid r
  end.

(** SQLite's [lower]: ASCII letters. *)
Definition lower_byte (c : ascii) : ascii := if in_range 65 90 (byte c) then of_byte (byte c + 32) else c.
Fixpoint sql_lower (s : string) : string :=
  match s with "" => "" | String c s => String (lower_byte c) (sql_lower s) end.

(** The code and method a sensitive request carries. *)
Record TfProof := mkProof { pf_Code : string; pf_Method : string }.

(** The second factor of a sensitive change: [None] lets it through. *)
Definition second_factor (h : AuthDeps) (uid : string) (p : TfProof) (now now' : Z) : hM (option Resp) :=
  match ad_TwoFactor h with
  | None => mret None
  | Some s =>
    needs ← db (RequiresChallenge uid);
    match needs with
    | inl _ => mret (Some (writeError 500 "twofactor_error"))
    | inr false => mret None
    | inr true =>
      if TrimSpace (pf_Code p) =s "" then mret (Some (writeError 401 "twofactor_required"))
      else
        r ← db (VerifyUserCode s uid (pf_Code p) (pf_Method p) now now');
        mret match r with
        | inr _ => None
        | inl ErrInvalidCode => Some (writeError 401 "invalid_code")
        | inl ErrChallengeUnknownMethod => Some (writeError 400 "unknown_method")
        | inl ErrChallengeInvalidUserState => Some (writeError 401 "twofactor_not_configured")
        | inl _ => Some (writeError 500 "twofactor_error")
        end
    end
  end.

(** Password, then second factor, then the change. *)
Definition reauthenticated (h : AuthDeps) (uid password : string) (p : TfProof) (now now' : Z) (change : hM Resp) : hM Resp :=
  row ← db (query tt (user_row uid));
  match row with
  | inl _ | inr None => mret unauthorized
  | inr (Some u) =>
    if negb (VerifyPassword (u_password_hash u) password) then mret invalid_credentials
    else
      refused ← second_factor h uid p now now';
      match refused with Some resp => mret resp | None => change end
  end.

Record emailChangeReq := mkEmailReq { er_Email : string; er_CurrentPassword : string; er_Proof : TfProof }.

Definition email_taken (email uid : string) (d : Db) : nat :=
  cnt (λ u, (sql_lower (u_email u) =s sql_lower email) && negb (u_id u =s uid)) (users d).

Definition change_email (h : AuthDeps) (uid email : string) : hM Resp :=
  exists_ ← db (query tt (email_taken email uid));
  match exists_ with
  | inl _ => mret (writeError 500 "db_error")
  | inr n =>
    if (0 <? n)%nat then mret (writeError 409 "email_in_use")
    else
      r ← db (update_user uid (set_email email) (λ d, List.existsb (λ u, (u_email u =s email) && negb (u_id u =s uid)) (users d)));
      updated h uid r
  end.

Definition ChangeEmail (h : AuthDeps) (uid : string) (req : option emailChangeReq) (now now' : Z) : hM Resp :=
  match req with
  | None => mret (writeError 400 "invalid_json")
  | Some req =>
    let email := ToLower (TrimSpace (er_Email req)) in
    if negb (Contains email "@") || (254 <? len email)%Z then mret (writeError 400 "invalid_email")
    else reauthenticated h uid (er_CurrentPassword req) (er_Proof req) now now' (change_email h uid email)
  end.

Record passwordChangeReq := mkPasswordReq { pr_CurrentPassword : string; pr_NewPassword : string; pr_Proof : TfProof }.

Definition ChangePassword (h : AuthDeps) (uid : string) (req : option passwordChangeReq) (now now' : Z) (salt : string) (at_ : Z) : hM Resp :=
  match req with
  | None => mret (writeError 400 "invalid_json")
  | Some req =>
    if negb (ValidateStrong (pr_NewPassword req)) then mret (writeError 400 "weak_password")
    else reauthenticated h uid (pr_CurrentPassword req) (pr_Proof req) now now'
      (r ← db (Refresh.ChangePassword uid (pr_NewPassword req) salt at_);
       mret match r with inl _ => writeError 500 "db_error" | inr _ => mkResp 204 ClearRefreshCookie BNone end)
  end.

(** *** Two factors (handler/twofactor.go) *)

(** [req]: the decoded password; an empty body is accepted and has none. *)
Definition InitiateSetup (s : TwoFactorService) (uid : string) (req : option string) (seed : string) (nonce : option string) : hM Resp :=
  match req with
  | None => mret (writeError 400 "invalid_json")
  | Some password =>
    row ← db (query tt (user_row uid));
    match row with
    | inl _ | inr None => mret unauthorized
    | inr (Some u) =>
      if negb (VerifyPassword (u_password_hash u) password) then mret invalid_credentials
      else
        r ← db (TwoFactor.InitiateSetup s seed nonce uid (u_email u));
        mret match r with
        | inl _ => writeError 500 "twofactor_error"
        | inr (secret, otpauthURL, png) => writeJSON 200 (BSetup secret otpauthURL (EncodeToString png))
        end
    end
  end.

Definition twofactor_error (e : TfErr) : Resp :=
  match e with
  | ErrTwoFactorNotPending => writeError 400 "no_pending_setup"
  | ErrInvalidCode => writeError 401 "invalid_code"
  | _ => writeError 500 "twofactor_error"
  end.
Definition ConfirmSetup (s : TwoFactorService) (uid : string) (req : option string) (now now' : Z) (draws : nat → list ascii * string) : hM Resp :=
  match req with
  | None => mret (writeError 400 "invalid_json")
  | Some code =>
    r ← db (TwoFactor.ConfirmSetup s uid code now now' draws);
    mret match r with inl e => twofactor_error e | inr codes => writeJSON 200 (BCodes codes) end
  end.

Definition disable_error (e : TfErr) : Resp :=
  match e with
  | ErrInvalidPassword => invalid_credentials
  | ErrInvalidCode => writeError 401 "invalid_code"
  | ErrTwoFactorNotEnabled => writeError 400 "not_enabled"
  | _ => writeError 500 "twofactor_error"
  end.
Definition Disable (s : TwoFactorService) (uid : string) (req : option (string * string)) (now now' : Z) : hM Resp :=
  match req with
  | None => mret (writeError 400 "invalid_json")
  | Some (password, code) =>
    r ← db (TwoFactor.Disable s uid password code now now');
    mret match r with inl e => disable_error e | inr _ => NoContent end
  end.

Definition regenerate_error (e : TfErr) : Resp :=
  match e with
  | ErrInvalidPassword => invalid_credentials
  | ErrTwoFactorNotEnabled => writeError 400 "not_enabled"
  | _ => writeError 500 "twofactor_error"
  end.
Definition RegenerateRecoveryCodes (uid : string) (req : option string) (draws : nat → list ascii * string) : hM Resp :=
  match req with
  | None => mret (writeError 400 "invalid_json")
  | Some password =>
    r ← db (TwoFactor.RegenerateRecoveryCodes uid password draws);
    mret match r with inl e => regenerate_error e | inr codes => writeJSON 200 (BCodes codes) end
  end.

Definition Status (uid : string) : hM Resp :=
  r ← db (TwoFactor.Status uid);
  mret match r with
  | inl _ => writeError 500 "twofactor_error"
  | inr (enabled, confirmedAt, remaining) => writeJSON 200 (BStatus enabled confirmedAt remaining)
  end.

Record challengeReq := mkChallengeReq { cr_ChallengeID : string; cr_Code : string; cr_Method : string }.

Definition challenge_error (e : TfErr) : Resp :=
  match e with
  | ErrChallenge ErrChallengeNotFound | ErrChallenge ErrChallengeExpired => writeError 401 "invalid_challenge"
  | ErrChallenge ErrChallengeExhausted => writeError 401 "too_many_attempts"
  | ErrInvalidCode => writeError 401 "invalid_code"
  | ErrChallengeUnknownMethod => writeError 400 "unknown_method"
  | ErrChallengeInvalidUserState => writeError 401 "twofactor_not_configured"
  | _ => writeError 500 "twofactor_error"
  end.

(** [ng], [nv], [nw], [nc]: the readings of [VerifyChallenge]. *)
Definition Challenge (h : AuthDeps) (s : TwoFactorService) (req : option challengeReq) (ng nv nw nc : Z) (dr : Draws) : hM Resp :=
  match req with
  | None => mret (writeError 400 "invalid_json")
  | Some req =>
    if (cr_ChallengeID req =s "") || (cr_Code req =s "") then mret (writeError 400 "missing_fields")
    else
      r ← tf (VerifyChallenge s (cr_ChallengeID req) (cr_Code req) (cr_Method req) ng nv nw nc);
      match r with
      | inl e => mret (challenge_error e)
      | inr userID => issue_session h dr userID
      end
  end.
End Endpoints.

(** ** Facts *)

Section Facts.
Context `{U : Unicode} `{CL : CryptoLib} `{AL : AeadLib} `{TL : TotpLib} `{Fl : Float64}.
Implicit Types a : Api.

Lemma wp_db {E A} (m : M Db E A) (Q : Api → Empty_set + (E + A) → Prop) a :
  wp m (λ d r, Q (set_db d a) (inr r)) (api_db a) → wp (db m) Q a.
Proof. intros HW fs. specialize (HW fs). unfold db. by destruct (m (api_db a) fs) as [[d fs'] r]. Qed.

Lemma wp_tf {A} (m : M TfState TfErr A) (Q : Api → Empty_set + (TfErr + A) → Prop) a :
  wp m (λ t r, Q (mkApi t (ap_limiter a) (ap_refresh a)) (inr r)) (ap_tf a) → wp (tf m) Q a.
Proof. intros HW fs. specialize (HW fs). unfold tf. by destruct (m (ap_tf a) fs) as [[t fs'] r]. Qed.

Lemma set_db_id a : set_db (api_db a) a = a.
Proof. by destruct a as [[d c] l r]. Qed.

Definition challenges a : gmap string Challenge.Challenge := tf_challenges (ap_tf a).

(** No token, no cookie. *)
Definition no_session (resp : Resp) : Prop := rp_cookie resp = KeepCookie ∧ ∀ access ttl, rp_body resp ≠ BTokens access ttl.

(** The row of a session that was issued. *)
Definition session_row (dr : Draws) (uid : string) : RefreshToken :=
  mkRefreshToken (dr_row dr) uid (dr_family dr) (HashToken (dr_raw dr)) None (dr_now dr + RefreshTokenTTL).

(** The answer gives [uid] an access token and a refresh cookie, whose row is
    the only thing written to [a]. *)
Definition session (h : AuthDeps) (dr : Draws) (uid : string) a a' (resp : Resp) : Prop :=
  (∃ access exp, IssueAccessToken (ad_JWTSecret h) uid (dr_now dr) = inr (access, exp) ∧
     resp = mkResp 200 (SetRefreshCookie (dr_raw dr)) (BTokens access AccessTokenTTL)) ∧
  a' = set_db (on_refresh_tokens (λ l, l ++ [session_row dr uid]) (api_db a)) a.

Lemma issue_session_wp h dr uid a (Q : Api → Empty_set + Resp → Prop) :
  (∀ a' resp, session h dr uid a a' resp → Q a' (inr resp)) → Q a (inr (writeError 500 "token_error")) →
  wp (issue_session h dr uid) Q a.
Proof.
  intros Hok Hno. unfold issue_session. destruct (IssueAccessToken _ _ _) as [e|[access exp]] eqn:E; [by apply wp_ret|].
  apply wp_bind, wp_db. unfold IssueRefreshTokenInFamily. apply wp_bind, wp_fallible; [apply wp_ret; by rewrite set_db_id|].
  apply wp_bind, wp_checked; simpl; [apply wp_ret; by rewrite set_db_id|].
  destruct (_ || _); [apply wp_ret; by rewrite set_db_id|]. do 2 apply wp_ret. apply Hok. split; [by eauto|done].
Qed.

(** *** Login *)

(** The row a login is about, when its password is right. *)
Definition password_ok a (q : loginReq) (u : User) : Prop :=
  user_by_email (TrimSpace (lr_Email q)) (api_db a) = Some u ∧ VerifyPassword (u_password_hash u) (lr_Password q) = true.

Definition counted (ip : option string) (now : Z) (l : Limiter) : Limiter :=
  match ip with None => l | Some ip => countFailure now ip l end.

Inductive login_outcome (h : AuthDeps) (completed : bool) (req : option loginReq) (ip : option string) (dr : Draws) a : Api → Resp → Prop :=
  | lo_session q u a' resp : completed = true → req = Some q → password_ok a q u → (ad_TwoFactor h ≠ None → u_2fa_enabled u = false) →
      session h dr (u_id u) a a' resp → login_outcome h completed req ip dr a a' resp
  | lo_challenge q u : completed = true → req = Some q → password_ok a q u → ad_TwoFactor h ≠ None → u_2fa_enabled u = true →
      login_outcome h completed req ip dr a
        (mkApi (mkTfState (api_db a) (Challenge.Create (dr_nanos dr) (dr_challenge dr) (u_id u) (challenges a)).1) (ap_limiter a) (ap_refresh a))
        (writeJSON 200 (BChallenge (dr_challenge dr) ["app"; "recovery"]))
  | lo_refused q : completed = true → req = Some q →
      login_outcome h completed req ip dr a (mkApi (ap_tf a) (counted ip (dr_nanos dr) (ap_limiter a)) (ap_refresh a)) invalid_credentials
  | lo_error resp : no_session resp → rp_status resp ≠ 401%Z → rp_status resp ≠ 200%Z → login_outcome h completed req ip dr a a resp.

Lemma api_eta a : mkApi (ap_tf a) (ap_limiter a) (ap_refresh a) = a.
Proof. by destruct a. Qed.

Lemma fail_login_wp ip now a (Q : Api → Empty_set + Resp → Prop) :
  Q (mkApi (ap_tf a) (counted ip now (ap_limiter a)) (ap_refresh a)) (inr invalid_credentials) → wp (fail_login ip now) Q a.
Proof.
  intros HQ. apply wp_bind. destruct ip; simpl in *; [by apply wp_modify, wp_ret|]. do 2 apply wp_ret. by rewrite api_eta in HQ.
Qed.

Lemma login_wp h completed req ip dr a : NoDup (u_id <$> users (api_db a)) →
  wp (Login h completed req ip dr) (λ a' r, ∃ resp, r = inr resp ∧ login_outcome h completed req ip dr a a' resp) a.
Proof.
  intros Hnd. unfold Login. destruct completed; simpl; [|apply wp_ret; eexists; split; [done|by apply lo_error]].
  destruct req as [q|]; [|apply wp_ret; eexists; split; [done|by apply lo_error]].
  apply wp_bind, wp_db, wp_query; rewrite set_db_id; [apply fail_login_wp; eexists; split; [done|by eapply lo_refused]|].
  destruct (user_by_email _ _) as [u|] eqn:Eu; [|apply fail_login_wp; eexists; split; [done|by eapply lo_refused]].
  destruct (VerifyPassword _ _) eqn:Ev; simpl; [|apply fail_login_wp; eexists; split; [done|by eapply lo_refused]].
  assert (Hp : password_ok a q u) by done.
  assert (Hses : (ad_TwoFactor h ≠ None → u_2fa_enabled u = false) →
    wp (issue_session h dr (u_id u)) (λ a' r, ∃ resp, r = inr resp ∧ login_outcome h true (Some q) ip dr a a' resp) a).
  { intros H2. apply issue_session_wp; [|eexists; split; [done|by apply lo_error]]. intros a' resp Hs. exists resp. split; [done|].
    by eapply lo_session. }
  apply wp_bind. destruct (ad_TwoFactor h) as [s|] eqn:Et; [|apply wp_ret; by apply Hses].
  unfold RequiresChallenge. apply wp_db. apply wp_bind, wp_query; [rewrite set_db_id; apply wp_ret; eexists; split; [done|by apply lo_error]|].
  assert (Es : sel (is_user (u_id u)) (users (api_db a)) = Some u).
  { apply (sel_key u_id); [|done|by apply sel_Some in Eu as [? _]]. intros r. unfold is_user. apply String.eqb_eq. }
  rewrite Es. apply wp_ret. rewrite set_db_id. destruct (u_2fa_enabled u) eqn:Ee; [|by apply Hses].
  apply wp_bind, wp_tf. intros fs. simpl. eexists. split; [done|]. eapply lo_challenge; [done|done|exact Hp|congruence|done].
Qed.

(** *** The second step *)

Definition code_accepted (s : TwoFactorService) (uid code method : string) (nv nw : Z) (d d' : Db) : Prop :=
  ∃ fs fs', VerifyUserCode s uid code method nv nw d fs = (d', fs', inr tt).

(** Pending challenges of [a'] were pending in [a], for the same user. *)
Definition still_pending a a' : Prop := ∀ id c, challenges a' !! id = Some c → ∃ c0, challenges a !! id = Some c0 ∧ ch_UserID c0 = ch_UserID c.

(** What a call of [Challenge] can do: refuse, or consume the challenge and
    issue a session for its user. *)
Inductive challenge_outcome (h : AuthDeps) (s : TwoFactorService) (q : challengeReq) (nv nw : Z) (dr : Draws) a : Api → Resp → Prop :=
  | co_refused a' resp : no_session resp → still_pending a a' → refresh_tokens (api_db a') = refresh_tokens (api_db a) →
      challenge_outcome h s q nv nw dr a a' resp
  | co_session c d a' resp : challenges a !! cr_ChallengeID q = Some c →
      code_accepted s (ch_UserID c) (cr_Code q) (cr_Method q) nv nw (api_db a) d →
      session h dr (ch_UserID c) (mkApi (mkTfState d (delete (cr_ChallengeID q) (challenges a))) (ap_limiter a) (ap_refresh a)) a' resp →
      challenge_outcome h s q nv nw dr a a' resp.

Lemma still_pending_delete id a a' : challenges a' = delete id (challenges a) → still_pending a a'.
Proof.
  intros E i c. rewrite E. intros Hc. apply lookup_delete_Some in Hc as [_ Hc]. by exists c.
Qed.

Lemma still_pending_same a a' : challenges a' = challenges a → still_pending a a'.
Proof. intros E i c. rewrite E. eauto. Qed.

Lemma increment_pending now id st i c : (increment now id st).1 !! i = Some c → ∃ c0, st !! i = Some c0 ∧ ch_UserID c0 = ch_UserID c.
Proof.
  unfold increment, IncrementAttempts. destruct (st !! id) as [c0|] eqn:E; simpl; [|eauto].
  destruct (_ <? _)%Z; [simpl; intros [_ ?]%lookup_delete_Some; eauto|]. destruct (_ <=? _)%Z; simpl; [intros [_ ?]%lookup_delete_Some; eauto|].
  destruct (decide (i = id)) as [->|Hi]; [|rewrite lookup_insert_ne by done; eauto].
  rewrite lookup_insert_eq. intros [= <-]. by exists c0.
Qed.

(** [VerifyUserCode] writes codes that were used and recovery codes that are left. *)
Lemma verify_user_preserves s uid code method nv nw (I : Db → Prop) :
  (∀ d f, I d → I (on_totp_used f d)) → (∀ d hs, I d → I (on_users (upd (is_user uid) (set_recovery hs)) d)) →
  preserves I (VerifyUserCode s uid code method nv nw).
Proof.
  intros I1 I2. assert (Happ : ∀ enc, preserves I (check_app s uid enc code nv nw)).
  { intros enc. unfold check_app. destruct (decryptStored s enc) as [e|secret]; [apply preserves_throw|].
    apply preserves_bind; [|intros [[]|]; (apply preserves_throw || apply preserves_ret)]. apply preserves_attempt.
    unfold ValidateAndConsumeTOTP. destruct (negb _); [apply preserves_ret|]. destruct (_ =s _); [apply preserves_ret|].
    apply preserves_bind; [by apply preserves_ignore, preserves_exec; auto|intros _].
    apply preserves_bind; [|intros _; apply preserves_ret]. apply preserves_checked. intros d Hd. by repeat case_match; simplify_eq; auto. }
  apply preserves_bind; [apply preserves_query|]. intros [u|]; [|apply preserves_throw].
  destruct (u_2fa_enabled u), (u_2fa_secret u) as [enc|]; try apply preserves_throw.
  apply preserves_bind; [|intros []; (apply preserves_throw || apply preserves_ret)].
  destruct (_ || _); [apply Happ|]. destruct (_ =s _); [|apply preserves_throw].
  unfold check_recovery. destruct (decode_recovery _ _) as [e|hs]; [apply preserves_throw|].
  destruct (VerifyAndConsumeRecoveryCode hs code) as [rest valid]. apply preserves_bind; [by apply preserves_when, preserves_exec; auto|].
  intros _. apply preserves_ret.
Qed.

Lemma verify_user_sessions s uid code method nv nw (R : list RefreshToken) :
  preserves (λ d, refresh_tokens d = R) (VerifyUserCode s uid code method nv nw).
Proof. by apply verify_user_preserves. Qed.

Lemma challenge_error_refused e : no_session (challenge_error e).
Proof. by destruct e as [| | | | | | |[]| |]. Qed.

(** The service behind it. *)
Lemma verify_challenge_wp s id code method ng nv nw nc t :
  wp (VerifyChallenge s id code method ng nv nw nc) (λ t' r, match r with
    | inl _ => refresh_tokens (tf_db t') = refresh_tokens (tf_db t) ∧
        ∀ i c, tf_challenges t' !! i = Some c → ∃ c0, tf_challenges t !! i = Some c0 ∧ ch_UserID c0 = ch_UserID c
    | inr uid => ∃ c d, tf_challenges t !! id = Some c ∧ uid = ch_UserID c ∧ code_accepted s uid code method nv nw (tf_db t) d ∧
        refresh_tokens d = refresh_tokens (tf_db t) ∧ t' = mkTfState d (delete id (tf_challenges t))
    end) t.
Proof.
  assert (Hdel : ∀ i c, delete id (tf_challenges t) !! i = Some c → ∃ c0, tf_challenges t !! i = Some c0 ∧ ch_UserID c0 = ch_UserID c).
  { intros i c Hc. apply lookup_delete_Some in Hc as [_ Hc]. by exists c. }
  unfold VerifyChallenge. apply wp_bind. intros fs. unfold on_store, Get. simpl.
  destruct (tf_challenges t !! id) as [c|] eqn:Ec; simpl; [|eauto].
  destruct (ch_ExpiresAt c <? ng)%Z; simpl; [done|].
  apply wp_bind, wp_attempt. intros fs2. unfold on_db, zoom. simpl.
  pose proof (verify_user_sessions s (ch_UserID c) code method nv nw _ (tf_db t) eq_refl fs2) as Hd.
  destruct (VerifyUserCode s (ch_UserID c) code method nv nw (tf_db t) fs2) as [[d fs3] [e|[]]] eqn:Ev; simpl in *.
  - destruct e; try (apply wp_throw; split; [done|eauto]).
    apply wp_bind. intros fs4. simpl. destruct (increment nc id (tf_challenges t)) as [st ri] eqn:Ei.
    assert (Hst : ∀ i c, st !! i = Some c → ∃ c0, tf_challenges t !! i = Some c0 ∧ ch_UserID c0 = ch_UserID c).
    { intros i c0 Hc0. eapply (increment_pending nc id (tf_challenges t)). by rewrite Ei. }
    destruct ri as [|[]]; simpl; [done|]. apply wp_throw. done.
  - apply wp_bind. intros fs5. unfold Consume. simpl. rewrite Ec. destruct (ch_ExpiresAt c <? nc)%Z; simpl; [done|].
    apply wp_ret. exists c, d. split_and!; try done. by exists fs2, fs3.
Qed.

Lemma challenge_wp h s q ng nv nw nc dr a :
  wp (Challenge h s (Some q) ng nv nw nc dr) (λ a' r, ∃ resp, r = inr resp ∧ challenge_outcome h s q nv nw dr a a' resp) a.
Proof.
  assert (Hno : ∀ a' resp, no_session resp → still_pending a a' → refresh_tokens (api_db a') = refresh_tokens (api_db a) →
    ∃ resp', inr (A := Empty_set) resp = inr resp' ∧ challenge_outcome h s q nv nw dr a a' resp').
  { intros a' resp H1 H2 H3. exists resp. split; [done|by apply co_refused]. }
  unfold Challenge. apply wp_if; intros _; [apply wp_ret, Hno; [done|by apply still_pending_same|done]|].
  apply wp_bind, wp_tf. eapply wp_mono; [apply verify_challenge_wp|]. intros t' [e|uid].
  - intros [Hr Hp]. apply wp_ret, Hno; [apply challenge_error_refused|exact Hp|exact Hr].
  - intros (c & d & Hc & -> & Hv & Hr & ->). apply issue_session_wp.
    + intros a' resp Hs. exists resp. split; [done|]. by eapply co_session.
    + apply Hno; [done|by eapply still_pending_delete|exact Hr].
Qed.

(** *** The bearer token *)

(** Who a header speaks for: a personal token that the table accepts, or a JWT
    of the secret; the prefix of personal tokens never reaches the JWT parser. *)
Definition speaks_for (secret : string) (tokens : bool) (authz : string) (now : Z) (d : Db) (uid : string) (pat : option string) : Prop :=
  HasPrefix authz "Bearer " = true ∧
  let raw := TrimPrefix authz "Bearer " in
  match pat with
  | Some raw' => raw' = raw ∧ tokens = true ∧ HasPrefix raw TokenPrefix = true ∧
      ∃ t, sel (hash_is (hashRaw raw)) (api_tokens d) = Some t ∧ at_user_id t = uid ∧ at_revoked_at t = None
  | None => tokens && HasPrefix raw TokenPrefix = false ∧ parse_bearer secret raw (Z.quot now Second) = Some uid ∧ uid ≠ ""
  end.

Lemma authenticate_wp secret tokens authz now a : wp (authenticate secret tokens authz now) (λ a' r, a' = a ∧ ∃ who, r = inr who ∧
  match who with None => True | Some (uid, pat) => speaks_for secret tokens authz now (api_db a) uid pat end) a.
Proof.
  unfold authenticate, speaks_for. destruct (HasPrefix authz "Bearer ") eqn:Eb; simpl; [|apply wp_ret; split; [done|by exists None]].
  destruct (tokens && HasPrefix _ TokenPrefix) eqn:Et.
  - apply andb_true_iff in Et as [-> Et]. apply wp_bind, wp_db. unfold Authenticate. apply wp_if; intros Hl; [apply wp_throw, wp_ret; rewrite set_db_id; split; [done|by exists None]|].
    apply wp_bind, wp_query; [apply wp_ret; rewrite set_db_id; split; [done|by exists None]|].
    destruct (sel _ (api_tokens (api_db a))) as [t|] eqn:Es; [|apply wp_throw, wp_ret; rewrite set_db_id; split; [done|by exists None]].
    destruct (at_revoked_at t) as [r|] eqn:Er; [apply wp_throw, wp_ret; rewrite set_db_id; split; [done|by exists None]|].
    apply wp_if; intros He; [apply wp_throw, wp_ret; rewrite set_db_id; split; [done|by exists None]|].
    do 2 apply wp_ret. rewrite set_db_id. split; [done|]. exists (Some (at_user_id t, Some (TrimPrefix authz "Bearer "))). split_and!; try done. by exists t.
  - apply wp_ret. split; [done|]. destruct (parse_bearer secret _ _) as [sub|] eqn:Ep; [|by exists None].
    exists (Some (sub, None)). split_and!; try done. unfold parse_bearer in Ep. destruct (jwt_parse _ _ _) as [c|]; [|done].
    destruct (cl_sub c =s "") eqn:Es; simplify_eq. by apply String.eqb_neq.
Qed.

(** *** Sensitive changes *)

Definition accounts (d : Db) : list (string * string * string) := (λ u, (u_id u, u_email u, u_password_hash u)) <$> users d.

(** The caller gave the password and, where two factors are on, a valid code. *)
Definition proved (h : AuthDeps) (uid password : string) (p : TfProof) (now now' : Z) a : Prop :=
  ∃ u, user_row uid (api_db a) = Some u ∧ VerifyPassword (u_password_hash u) password = true ∧
  ∀ s, ad_TwoFactor h = Some s → u_2fa_enabled u = true → ∃ d, code_accepted s uid (pf_Code p) (pf_Method p) now now' (api_db a) d.

(** Same emails, passwords and sessions. *)
Definition same_account a a' : Prop := accounts (api_db a') = accounts (api_db a) ∧ refresh_tokens (api_db a') = refresh_tokens (api_db a).

Lemma same_account_refl a : same_account a a.
Proof. done. Qed.

Definition refusal (resp : Resp) : Prop := no_session resp ∧ (400 <= rp_status resp)%Z.

Lemma verify_user_account s uid code method nv nw a : wp (VerifyUserCode s uid code method nv nw) (λ d _, same_account a (set_db d a)) (api_db a).
Proof.
  apply (verify_user_preserves s uid code method nv nw (λ d, accounts d = accounts (api_db a) ∧ refresh_tokens d = refresh_tokens (api_db a))); [done| |done].
  intros d hs [H1 H2]. split; [|done]. rewrite <-H1. unfold accounts. simpl. unfold upd. rewrite <-list_fmap_compose.
  apply list_fmap_ext. intros _ u _. simpl. by case_match.
Qed.

Lemma reauthenticated_wp h uid password p now now' change a (Q : Api → Empty_set + Resp → Prop) :
  (∀ a1 resp, same_account a a1 → refusal resp → Q a1 (inr resp)) →
  (∀ a1, same_account a a1 → proved h uid password p now now' a → wp change Q a1) →
  wp (reauthenticated h uid password p now now' change) Q a.
Proof.
  intros Hno Hyes. assert (Hr : ∀ resp, refusal resp → Q a (inr resp)) by (intros; by apply Hno).
  apply wp_bind, wp_db, wp_query; rewrite set_db_id; [by apply wp_ret, Hr|].
  destruct (user_row uid (api_db a)) as [u|] eqn:Eu; [|by apply wp_ret, Hr].
  destruct (VerifyPassword _ _) eqn:Ev; simpl; [|by apply wp_ret, Hr].
  apply wp_bind. unfold second_factor. destruct (ad_TwoFactor h) as [s|] eqn:Et.
  2:{ apply wp_ret, Hyes; [done|]. exists u. split_and!; [done|done|]. intros s Hs. congruence. }
  apply wp_bind, wp_db. unfold RequiresChallenge. apply wp_bind, wp_query; [rewrite set_db_id; by do 2 apply wp_ret; apply Hr|].
  unfold user_row in Eu. rewrite Eu. apply wp_ret. rewrite set_db_id. destruct (u_2fa_enabled u) eqn:Ee.
  2:{ apply wp_ret, Hyes; [done|]. exists u. split_and!; [done|done|]. congruence. }
  destruct (_ =s _); [by do 2 apply wp_ret; apply Hr|]. apply wp_bind, wp_db. intros fs.
  pose proof (verify_user_account s uid (pf_Code p) (pf_Method p) now now' a fs) as Hacc.
  destruct (VerifyUserCode s uid (pf_Code p) (pf_Method p) now now' (api_db a) fs) as [[d fs'] [e|[]]] eqn:Ec; simpl in *.
  - by destruct e; do 2 apply wp_ret; apply Hno.
  - apply wp_ret, Hyes; [done|]. exists u. split_and!; [done|done|]. intros s' Hs' _. simplify_eq. by exists d, fs, fs'.
Qed.

(** The queries at the end of a handler write nothing. *)
Lemma current_user_wp h missing uid a (Q : Api → Empty_set + Resp → Prop) : (∀ resp, Q a (inr resp)) → wp (current_user h missing uid) Q a.
Proof.
  intros HQ. unfold current_user. destruct (ad_RBAC h).
  - apply wp_bind, wp_db. eapply wp_mono; [apply user_context_wp|].
    intros d r [-> _]. rewrite set_db_id. by apply wp_ret.
  - apply wp_bind, wp_db, wp_query; rewrite set_db_id; by apply wp_ret.
Qed.

Lemma change_email_wp h uid email a (Q : Api → Empty_set + Resp → Prop) : (∀ resp, Q a (inr resp)) →
  (∀ resp, email_taken email uid (api_db a) = 0%nat → Q (set_db (on_users (upd (is_user uid) (set_email email)) (api_db a)) a) (inr resp)) →
  wp (change_email h uid email) Q a.
Proof.
  intros H0 H1. apply wp_bind, wp_db, wp_query; rewrite set_db_id; [by apply wp_ret|].
  destruct (Nat.ltb_spec 0 (email_taken email uid (api_db a))); [by apply wp_ret|]. assert (Ht : email_taken email uid (api_db a) = 0%nat) by lia.
  apply wp_bind, wp_db, wp_checked; [rewrite set_db_id; by apply wp_ret|]. destruct (List.existsb _ _); [rewrite set_db_id; by apply wp_ret|].
  cbv beta iota. unfold updated. destruct (_ =? 0)%nat; [by apply wp_ret, H1|]. apply current_user_wp. intros resp. by apply H1.
Qed.

(** What [ChangeEmail] may have written. *)
Definition email_outcome (h : AuthDeps) (uid : string) (q : emailChangeReq) (now now' : Z) a a' : Prop :=
  same_account a a' ∨
  proved h uid (er_CurrentPassword q) (er_Proof q) now now' a ∧ refresh_tokens (api_db a') = refresh_tokens (api_db a) ∧
  let email := ToLower (TrimSpace (er_Email q)) in
  Contains email "@" = true ∧ (len email <= 254)%Z ∧
  accounts (api_db a') = (λ x, if x.1.1 =s uid then (x.1.1, email, x.2) else x) <$> accounts (api_db a) ∧
  ∀ x, x ∈ accounts (api_db a) → x.1.1 ≠ uid → sql_lower x.1.2 ≠ sql_lower email.

Lemma email_wp h uid q now now' a :
  wp (ChangeEmail h uid (Some q) now now') (λ a' r, ∃ resp, r = inr resp ∧ email_outcome h uid q now now' a a') a.
Proof.
  assert (Hs : ∀ a' (resp : Resp), same_account a a' → ∃ resp', inr (A := Empty_set) resp = inr resp' ∧ email_outcome h uid q now now' a a').
  { intros a' resp H1. exists resp. split; [done|by left]. }
  unfold ChangeEmail. cbv zeta. set (email := ToLower _). destruct (negb (Contains email "@") || _) eqn:Ev; [by apply wp_ret, Hs|].
  apply orb_false_iff in Ev as [E1%negb_false_iff E2%Z.ltb_ge].
  apply reauthenticated_wp; [intros a1 resp H1 _; by apply Hs|]. intros a1 [Ha Hr] Hp.
  apply change_email_wp; [intros resp; by apply Hs|]. intros resp Ht. exists resp. split; [done|]. right.
  split; [exact Hp|]. split; [exact Hr|]. cbv zeta. fold email. split_and!; [done|done| |].
  - rewrite <-Ha. unfold accounts. simpl. unfold upd. rewrite <-!list_fmap_compose. apply list_fmap_ext. intros _ u _. simpl. by destruct (u_id u =s uid) eqn:E; unfold is_user; rewrite E.
  - rewrite <-Ha. intros x (u & -> & Hu)%list_elem_of_fmap Hne E. simpl in *. apply cnt_0 with (r := u) in Ht; [|done].
    apply String.eqb_neq in Hne. rewrite Hne in Ht. simpl in Ht. rewrite andb_true_r in Ht. apply String.eqb_neq in Ht. done.
Qed.

(** What [ChangePassword] may have written. *)
Definition password_outcome (h : AuthDeps) (uid : string) (q : passwordChangeReq) (now now' : Z) a a' (resp : Resp) : Prop :=
  refusal resp ∧ same_account a a' ∨
  rp_status resp = 204%Z ∧ rp_cookie resp = ClearRefreshCookie ∧ ValidateStrong (pr_NewPassword q) = true ∧
  proved h uid (pr_CurrentPassword q) (pr_Proof q) now now' a ∧
  (∀ u, u ∈ users (api_db a') → u_id u = uid → VerifyPassword (u_password_hash u) (pr_NewPassword q) = true) ∧
  (∀ t, t ∈ refresh_tokens (api_db a') → rt_user_id t = uid → live t = false).

Lemma password_wp `{!CryptoLaws} h uid q now now' salt at_ a :
  wp (ChangePassword h uid (Some q) now now' salt at_) (λ a' r, ∃ resp, r = inr resp ∧ password_outcome h uid q now now' a a' resp) a.
Proof.
  assert (Hs : ∀ a' resp, refusal resp → same_account a a' → ∃ resp', inr (A := Empty_set) resp = inr resp' ∧ password_outcome h uid q now now' a a' resp').
  { intros a' resp H1 H2. exists resp. split; [done|by left]. }
  unfold ChangePassword. destruct (ValidateStrong _) eqn:Ev; simpl; [|by apply wp_ret, Hs].
  apply reauthenticated_wp; [intros a1 resp H1 H2; by apply Hs|]. intros a1 H1 Hp.
  apply wp_bind, wp_db. eapply wp_mono; [apply change_password_effect; apply _|]. intros d' [e|[]] Hr.
  - subst d'. rewrite set_db_id. by apply wp_ret, Hs.
  - apply wp_ret. eexists. split; [done|]. right. destruct Hr as (_ & Hr1 & Hr2). split_and!; done.
Qed.

(** *** Histories of logins *)

Inductive request :=
  | RqLogin (completed : bool) (req : loginReq) (ip : option string) (dr : Draws)
  | RqChallenge (req : challengeReq) (ng nv nw nc : Z) (dr : Draws).

(** The calls of the two login endpoints, each with the state it started from
    and its answer; in between anything else happens that creates no challenge. *)
Inductive history (h : AuthDeps) (s : TwoFactorService) : list (Api * request * Resp) → Api → Prop :=
  | h_start a : challenges a = ∅ → history h s [] a
  | h_login log a completed q ip dr fs a' fs' resp : history h s log a → NoDup (u_id <$> users (api_db a)) →
      Login h completed (Some q) ip dr a fs = (a', fs', inr resp) → history h s (log ++ [(a, RqLogin completed q ip dr, resp)]) a'
  | h_challenge log a q ng nv nw nc dr fs a' fs' resp : history h s log a →
      Challenge h s (Some q) ng nv nw nc dr a fs = (a', fs', inr resp) → history h s (log ++ [(a, RqChallenge q ng nv nw nc dr, resp)]) a'
  | h_other log a a' : history h s log a → still_pending a a' → history h s log a'.

(** An earlier login with the right password was answered with this challenge. *)
Definition passed_password (log : list (Api * request * Resp)) (id uid : string) : Prop :=
  ∃ a completed q ip dr u, (a, RqLogin completed q ip dr, writeJSON 200 (BChallenge id ["app"; "recovery"])) ∈ log ∧ password_ok a q u ∧ u_id u = uid.

Lemma passed_later log e id uid : passed_password log id uid → passed_password (log ++ [e]) id uid.
Proof. intros (a & c & q & ip & dr & u & Hin & H1 & H2). exists a, c, q, ip, dr, u. split_and!; [apply elem_of_app; by left|done|done]. Qed.

Lemma pending_passed h s log a : history h s log a → ∀ id c, challenges a !! id = Some c → passed_password log id (ch_UserID c).
Proof.
  induction 1 as [a Ha|log a completed q ip dr fs a' fs' resp _ IH Hnd Hl|log a q ng nv nw nc dr fs a' fs' resp _ IH Hc|log a a' _ IH Hp]; intros id c Hid.
  - by rewrite Ha in Hid.
  - pose proof (login_wp h completed (Some q) ip dr a Hnd fs) as (resp' & E & Ho). rewrite Hl in *. simpl in *. simplify_eq.
    destruct Ho as [q' u a' resp _ ? Hpw _ [_ ->]|q' u _ ? Hpw _ _|q' _ _|resp _ _ _]; simplify_eq/=; try (apply passed_later, IH, Hid).
    destruct (decide (id = dr_challenge dr)) as [->|Hne].
    + simpl in Hid. unfold challenges in Hid. simpl in Hid. rewrite lookup_insert_eq in Hid. simplify_eq/=.
      exists a, completed, q', ip, dr, u. split_and!; [apply elem_of_app; right; by apply list_elem_of_singleton|done|done].
    + unfold challenges in Hid. simpl in Hid. rewrite lookup_insert_ne in Hid by done. apply passed_later, IH, Hid.
  - pose proof (challenge_wp h s q ng nv nw nc dr a fs) as (resp' & E & Ho). rewrite Hc in *. simpl in *. simplify_eq.
    apply passed_later. destruct Ho as [a' resp _ Hp _|c0 d a' resp _ _ [_ ->]].
    + destruct (Hp id c Hid) as (c0 & Hc0 & <-). by apply IH.
    + unfold challenges in Hid. simpl in Hid. apply lookup_delete_Some in Hid as [_ Hid]. by apply IH.
  - destruct (Hp id c Hid) as (c0 & Hc0 & <-). by apply IH.
Qed.
End Facts.

(** C36: No session without the factors.  Whatever fails, the answer of a login
    carries tokens only for the user whose email was given, when the password
    verifies and two factors are off for him (or not wired); it then writes one
    refresh token, of that user, and sets its cookie.  When two factors are on the
    answer is a fresh challenge and no token.  Every other answer leaves tables
    and challenges as they were, and a 401 is counted against the address. *)
Theorem login_safe `{U : Unicode} `{CL : CryptoLib} `{AL : AeadLib} `{TL : TotpLib} `{Fl : Float64} h completed req ip dr a fs :
  NoDup (u_id <$> users (api_db a)) →
  let '(a', _, r) := Login h completed req ip dr a fs in ∃ resp, r = inr resp ∧ login_outcome h completed req ip dr a a' resp.
Proof.
  intros Hnd. pose proof (login_wp h completed req ip dr a Hnd fs) as HW. by destruct (Login h completed req ip dr a fs) as [[? ?] ?].
Qed.

(** C37: Two steps, in order.  Along any history of the two login endpoints, with
    anything else in between that creates no challenge, an answer of the second
    step that carries tokens is for a user whose password verified in an earlier
    login answered with that very challenge, and whose code is accepted now; the
    challenge is gone afterwards and one refresh token of that user was added. *)
Theorem second_factor_safe `{U : Unicode} `{CL : CryptoLib} `{AL : AeadLib} `{TL : TotpLib} `{Fl : Float64} h s log a q ng nv nw nc dr fs a' fs' resp access ttl :
  history h s log a → Challenge h s (Some q) ng nv nw nc dr a fs = (a', fs', inr resp) → rp_body resp = BTokens access ttl →
  ∃ uid d, passed_password log (cr_ChallengeID q) uid ∧ code_accepted s uid (cr_Code q) (cr_Method q) nv nw (api_db a) d ∧
    challenges a' !! cr_ChallengeID q = None ∧ refresh_tokens (api_db a') = refresh_tokens d ++ [session_row dr uid].
Proof.
  intros Hh Hc Hb. pose proof (challenge_wp h s q ng nv nw nc dr a fs) as (resp' & E & Ho). rewrite Hc in *. simpl in *. simplify_eq.
  destruct Ho as [a' resp Hns _ _|c d a' resp Hid Hv [_ ->]]; [by destruct (proj2 Hns access ttl)|].
  exists (ch_UserID c), d. split_and!; [by eapply pending_passed|done| |done]. unfold challenges. simpl. apply lookup_delete_eq.
Qed.

(** Sensitive changes.  Whatever fails, a change of the email or of the
    password goes through only when the current password verifies and, where two
    factors are on, a valid code is given; the new email is not another user's in
    any letter case, the new password passes the policy and ends every session
    of the user; a refusal changes no email, password or session. *)
Theorem sensitive_changes `{U : Unicode} `{CL : CryptoLib} `{!CryptoLaws} `{AL : AeadLib} `{TL : TotpLib} `{Fl : Float64} h uid now now' a fs :
  (∀ q, let '(a', _, r) := ChangeEmail h uid (Some q) now now' a fs in ∃ resp, r = inr resp ∧ email_outcome h uid q now now' a a') ∧
  (∀ q salt at_, let '(a', _, r) := ChangePassword h uid (Some q) now now' salt at_ a fs in
    ∃ resp, r = inr resp ∧ password_outcome h uid q now now' a a' resp).
Proof.
  split.
  - intros q. pose proof (email_wp h uid q now now' a fs) as HW. by destruct (ChangeEmail h uid (Some q) now now' a fs) as [[? ?] ?].
  - intros q salt at_. pose proof (password_wp h uid q now now' salt at_ a fs) as HW. by destruct (ChangePassword h uid (Some q) now now' salt at_ a fs) as [[? ?] ?].
Qed.

(** ** Concrete runs *)

Module Examples.

#[local] Existing Instance ascii_only.
#[local] Existing Instance toy_lib.
#[local] Existing Instance toy_aead.
#[local] Existing Instance toy_totp.
#[local] Existing Instance exact_floats.

Definition deps : AuthDeps := mkDeps "0123456789abcdef0123456789abcdef" (Some toy_service) false.
Definition api (u : User) : Api := mkApi (mkTfState (on_users (λ _, [u]) empty_db) ∅) ∅ ∅.
Definition draws : Draws := mkDraws 1000 (1000 * Second) "raw" "fam" "row" "chal".
Definition right_login : loginReq := mkLoginReq (u_email ada) "old".

Definition login_resp (u : User) (q : loginReq) : option Resp :=
  match Login deps true (Some q) (Some "ip") draws (api u) [] with (_, _, inr r) => Some r | _ => None end.

Lemma login_safe_witness : NoDup (u_id <$> users (api_db (api ada))) ∧
  ∃ resp a', fst (Login deps true (Some right_login) (Some "ip") draws (api ada) []) = (a', []) ∧ login_outcome deps true (Some right_login) (Some "ip") draws (api ada) a' resp.
Proof.
  assert (Hn : NoDup (u_id <$> users (api_db (api ada)))) by apply NoDup_singleton. split; [exact Hn|].
  pose proof (login_safe deps true (Some right_login) (Some "ip") draws (api ada) [] Hn) as HW.
  destruct (Login deps true (Some right_login) (Some "ip") draws (api ada) []) as [[a' fs'] r] eqn:E.
  destruct HW as (resp & _ & Ho). exists resp, a'. split; [|exact Ho].
  assert (Ef : fs' = []) by (vm_compute in E; congruence). by rewrite Ef.
Defined.

Lemma plain_login_gives_tokens : rp_cookie <$> login_resp ada right_login = Some (SetRefreshCookie "raw").
Proof. vm_compute. reflexivity. Qed.

Lemma two_factor_login_gives_challenge : rp_body <$> login_resp grace (mkLoginReq (u_email grace) "old") = Some (BChallenge "chal" ["app"; "recovery"]).
Proof. vm_compute. reflexivity. Qed.

(** *** The second step *)

(** The state after the login of a user with two factors. *)
Definition after_login : Api := (Login deps true (Some (mkLoginReq (u_email grace) "old")) (Some "ip") draws (api grace) []).1.1.
Definition the_login : Api * request * Resp :=
  (api grace, RqLogin true (mkLoginReq (u_email grace) "old") (Some "ip") draws, writeJSON 200 (BChallenge "chal" ["app"; "recovery"])).
Definition code_req : challengeReq := mkChallengeReq "chal" "16" "app".
Definition second_step := Challenge deps toy_service (Some code_req) (1000 * Second) 1000 1000 (1000 * Second) draws after_login [].

Definition answer_of (r : Empty_set + Resp) : Resp := match r with inl e => match e with end | inr r => r end.
Definition is_tokens (b : Body) : bool := match b with BTokens _ _ => true | _ => false end.
Lemma answer_of_eq r : r = inr (answer_of r).
Proof. by destruct r as [[]|]. Qed.

Lemma second_factor_safe_witness : ∃ uid d, passed_password [the_login] "chal" uid ∧
  code_accepted toy_service uid "16" "app" 1000 1000 (api_db after_login) d ∧
  challenges second_step.1.1 !! "chal" = None ∧ refresh_tokens (api_db second_step.1.1) = refresh_tokens d ++ [session_row draws uid].
Proof.
  assert (Hh : history deps toy_service [the_login] after_login).
  { apply (h_login deps toy_service [] (api grace) true (mkLoginReq (u_email grace) "old") (Some "ip") draws [] after_login []).
    - by apply h_start.
    - apply NoDup_singleton.
    - vm_compute. reflexivity. }
  assert (Ht : is_tokens (rp_body (answer_of second_step.2)) = true) by (vm_compute; reflexivity).
  destruct (rp_body (answer_of second_step.2)) as [| |access ttl| | | | | |] eqn:Eb; try discriminate Ht.
  apply (second_factor_safe deps toy_service [the_login] after_login code_req (1000 * Second) 1000 1000 (1000 * Second) draws [] second_step.1.1 second_step.1.2
           (answer_of second_step.2) access ttl Hh); [|exact Eb].
  fold second_step. rewrite <-answer_of_eq, <-!surjective_pairing. reflexivity.
Defined.

(** *** What differs *)

(** A blocked user logs in: the row's status is not read. *)
Definition blocked : User :=
  mkUser (u_id ada) (u_email ada) (u_password_hash ada) (u_role ada) None None "blocked" None false None None None None 0.
Lemma blocked_user_logs_in : rp_status <$> login_resp blocked right_login = Some 200%Z.
Proof. vm_compute. reflexivity. Qed.

(** Emails are stored in lower case, and compared as they come. *)
Lemma login_is_case_sensitive : rp_status <$> login_resp ada (mkLoginReq "Ada@example.org" "old") = Some 401%Z.
Proof. vm_compute. reflexivity. Qed.

(** The hash that is to make an unknown email as slow as a wrong password is cut
    off: bcrypt refuses anything shorter than 59 bytes before it computes. *)
Definition dummy_hash : string := "$2a$12$abcdefghijklmnopqrstuv".
Lemma dummy_hash_is_cut : len dummy_hash = 29%Z.
Proof. done. Qed.

(** A wrong second factor is not counted against the address. *)
Lemma wrong_code_not_counted :
  let '(a', _, _) := Challenge deps toy_service (Some (mkChallengeReq "chal" "77" "app")) (1000 * Second) 1000 1000 (1000 * Second) draws after_login [] in
  ap_limiter a' = ap_limiter after_login.
Proof. vm_compute. reflexivity. Qed.

Definition new_password : passwordChangeReq := mkPasswordReq "old" "Correct-Horse-7" (mkProof "" "").
Lemma sensitive_changes_witness :
  ∃ resp, (ChangePassword deps "u1" (Some new_password) 0 0 "salt" 2000 (api ada) []).2 = inr resp ∧
    password_outcome deps "u1" new_password 0 0 (api ada) (ChangePassword deps "u1" (Some new_password) 0 0 "salt" 2000 (api ada) []).1.1 resp.
Proof.
  pose proof (proj2 (sensitive_changes (H := toy_laws) deps "u1" 0 0 (api ada) []) new_password "salt" 2000%Z) as HW.
  destruct (ChangePassword _ _ _ _ _ _ _ _ _) as [[? ?] ?]. exact HW.
Defined.
End Examples.
