(* ===== verification/Domains.v ===== *)
(** * Domains (internal/domains: service.go, repo.go, dnscheck.go,
    sslmonitor.go, port.go)

    The [domains] table, its DNS and certificate status machine, and the
    registration of hosts with the reverse proxy.  The answers of the
    environment (zone linker, DNS resolver, TLS handshakes, public IP, clocks,
    UUIDs) are arguments of the methods; the optional collaborators of the
    service are flags of its record. *)

From S2P Require Import Prelude Effects GoStrings Schema Routing.

Inductive DomErr :=
  | ErrNotFound
  | ErrDuplicate
  | ErrAppNotFound
  | ErrInUseByApp
  | ErrInUseByInstance
  | ErrInvalidDomain
  | ErrZoneLinkage
  | ErrCaddy (where_ : string)
  | ErrPublicIP
  | ErrNoPort
  | ErrDomDb (where_ : string).

Definition maxDNSCheckCount : Z := 96.
Definition sslIssuingMaxAttempts : Z := 3.
Definition sslIssuingFailDuration : Z := 10 * 60.
Definition sslSelfSignedTTL : Z := 90 * 24 * 3600.
Definition PortRangeStart : Z := 40000.
Definition PortRangeEnd : Z := 50000.

(** The service and which of its optional collaborators are wired. *)
Record Service := mkService {
  sv_caddy : bool; sv_publicIP : bool; sv_zones : bool; sv_instance : bool;
}.

Record Zone := mkZone { z_ID : string; z_WildcardVerified : bool }.

(** Database, proxy, published events and the failure counters of the
    certificate monitor (attempts and time of the first failure). *)
Record DomState (C : Type) := mkDomState {
  ds_db : Db; ds_caddy : C; ds_events : list (string * string); ds_failures : gmap string (Z * Z);
}.
Arguments mkDomState {C}. Arguments ds_db {C}. Arguments ds_caddy {C}.
Arguments ds_events {C}. Arguments ds_failures {C}.

(** ** Names (service.go) *)

Definition alnum (c : ascii) : bool :=
  let z := byte c in in_range 48 57 z || is_upper_ascii z || is_lower_ascii z.
Definition letter (c : ascii) : bool := let z := byte c in is_upper_ascii z || is_lower_ascii z.
Definition hyphen (c : ascii) : bool := Ascii.eqb c "-"%char.

(** One label of [hostnameRe]: 1 to 63 letters, digits and hyphens, no hyphen
    at either end. *)
Definition label_ok (s : string) : bool :=
  let l := String.list_ascii_of_string s in
  (1 <=? len s)%Z && (len s <=? 63)%Z && List.forallb (λ c, alnum c || hyphen c) l
  && (match l with c :: _ => alnum c | [] => false end)
  && (match rev l with c :: _ => alnum c | [] => false end).

Definition tld_ok (s : string) : bool :=
  (2 <=? len s)%Z && (len s <=? 63)%Z && List.forallb letter (String.list_ascii_of_string s).

(** [hostnameRe]: at least one label and a top-level domain, joined by dots. *)
Definition hostnameRe (s : string) : bool :=
  match rev (Split s ".") with
  | tld :: ((_ :: _) as labels) => tld_ok tld && List.forallb label_ok labels
  | _ => false
  end.

Example hostname_examples :
  List.map hostnameRe ["shop.example.com"; "-a.com"; "a-.com"; "a..com"; "com"; "a.c"; "a_b.com"; "x.1a"; "a.b-c.example"]
  = [true; false; false; false; false; false; false; false; true].
Proof. vm_compute. reflexivity. Qed.

Definition normalizeName `{Unicode} (s : string) : string :=
  let s := ToLower (TrimSpace s) in
  let s := if HasPrefix s "https://" then TrimPrefix s "https://"
           else if HasPrefix s "http://" then TrimPrefix s "http://" else s in
  let s := TrimPrefix s "www." in
  TrimRight s "/".

(** [true] is the nil error; [parse_ip] is [net.ParseIP(s) != nil]. *)
Definition validateName (parse_ip : string → bool) (s : string) : bool :=
  if s =s "" then false
  else if Contains s "/" then false
  else if Contains s "*" then false
  else if EqualFold s "localhost" then false
  else if parse_ip s then false
  else if negb (Contains s ".") then false
  else hostnameRe s.

(** ** Rows (repo.go) *)

Definition is_dom (id : string) (d : Domain) : bool := d_id d =s id.
Definition of_app (appID : string) (d : Domain) : bool :=
  match d_app_id d with Some a => a =s appID | None => false end.
Definition primary_of (appID : string) (d : Domain) : bool := of_app appID d && d_is_primary d.
Definition is_app (id : string) (a : App) : bool := a_id a =s id.

Definition with_binding (app : option string) (primary : bool) (d : Domain) : Domain :=
  mkDomain (d_id d) (d_name d) app primary (d_ssl_status d) (d_ssl_expires_at d) (d_dns_verified d)
    (d_dns_verified_at d) (d_dns_last_check d) (d_dns_check_count d) (d_zone_id d)
    (d_covered_by_wildcard d) (d_service d) (d_port d) (d_force_https d) (d_created_at d).
Definition with_service (service : option string) (port : option Z) (d : Domain) : Domain :=
  mkDomain (d_id d) (d_name d) (d_app_id d) (d_is_primary d) (d_ssl_status d) (d_ssl_expires_at d) (d_dns_verified d)
    (d_dns_verified_at d) (d_dns_last_check d) (d_dns_check_count d) (d_zone_id d)
    (d_covered_by_wildcard d) service port (d_force_https d) (d_created_at d).
Definition with_force (force : bool) (d : Domain) : Domain :=
  mkDomain (d_id d) (d_name d) (d_app_id d) (d_is_primary d) (d_ssl_status d) (d_ssl_expires_at d) (d_dns_verified d)
    (d_dns_verified_at d) (d_dns_last_check d) (d_dns_check_count d) (d_zone_id d)
    (d_covered_by_wildcard d) (d_service d) (d_port d) force (d_created_at d).
Definition with_covered (covered : bool) (d : Domain) : Domain :=
  mkDomain (d_id d) (d_name d) (d_app_id d) (d_is_primary d) (d_ssl_status d) (d_ssl_expires_at d) (d_dns_verified d)
    (d_dns_verified_at d) (d_dns_last_check d) (d_dns_check_count d) (d_zone_id d)
    covered (d_service d) (d_port d) (d_force_https d) (d_created_at d).
(** The status columns. *)
Definition with_status (status : string) (exp : option Z) (verified : bool) (verified_at last : option Z)
    (count : Z) (d : Domain) : Domain :=
  mkDomain (d_id d) (d_name d) (d_app_id d) (d_is_primary d) status exp verified verified_at last count
    (d_zone_id d) (d_covered_by_wildcard d) (d_service d) (d_port d) (d_force_https d) (d_created_at d).

Section Repo.
Context {C : Type}.

Definition domM := M (DomState C) DomErr.

Definition set_db (d : Db) (s : DomState C) : DomState C :=
  mkDomState d (ds_caddy s) (ds_events s) (ds_failures s).
Definition set_caddy (c : C) (s : DomState C) : DomState C :=
  mkDomState (ds_db s) c (ds_events s) (ds_failures s).
Definition set_failures (f : gmap string (Z * Z)) (s : DomState C) : DomState C :=
  mkDomState (ds_db s) (ds_caddy s) (ds_events s) f.

(** A query on, and an UPDATE of, the [domains] table. *)
Definition dquery {A} (w : string) (f : Db → A) : domM A := query (ErrDomDb w) (λ s, f (ds_db s)).
Definition dupdate (w : string) (id : string) (f : Domain → Domain) : domM unit :=
  exec (ErrDomDb w) (λ s, set_db (on_domains (upd (is_dom id) f) (ds_db s)) s).

(** [get] *)
Definition get (id : string) : domM Domain :=
  row ← dquery "get" (λ d, sel (is_dom id) (domains d));
  match row with None => throw ErrNotFound | Some d => mret d end.

Definition created_before (a b : Domain) : bool := (d_created_at a <=? d_created_at b)%Z.

(** [ORDER BY created_at ASC]. *)
Definition by_created (l : list Domain) : list Domain := sort_by created_before l.

Definition list_domains (appID : option string) : domM (list Domain) :=
  dquery "list" (λ d, by_created (match appID with
    | Some a => List.filter (of_app a) (domains d)
    | None => domains d
    end)).

Definition delete (id : string) : domM unit :=
  n ← fallible (ErrDomDb "delete") (λ s,
        (set_db (on_domains (del (is_dom id)) (ds_db s)) s, cnt (is_dom id) (domains (ds_db s))));
  if (n =? 0)%nat then throw ErrNotFound else mret tt.

Definition demotePrimaryTx (appID : string) : domM unit :=
  exec (ErrDomDb "demote primary") (λ s,
    set_db (on_domains (upd (primary_of appID) (λ d, with_binding (d_app_id d) false d)) (ds_db s)) s).

Definition appExistsTx (appID : string) : domM bool :=
  n ← dquery "app lookup" (λ d, cnt (is_app appID) (apps d));
  mret (0 <? n)%nat.

Definition appName (appID : string) : domM string :=
  row ← dquery "app name" (λ d, sel (is_app appID) (apps d));
  match row with None => throw ErrAppNotFound | Some a => mret (a_name a) end.

Definition appPort (appID : string) : domM Z :=
  row ← dquery "app port" (λ d, sel (is_app appID) (apps d));
  match row with
  | None => throw ErrAppNotFound
  | Some a => match a_port a with
              | None => mret 80%Z
              | Some p => if (p =? 0)%Z then mret 80%Z else mret p
              end
  end.

(** The INSERT: any UNIQUE violation is [ErrDuplicate]; the foreign key to [apps]. *)
Definition insertTx (d : Domain) : domM unit :=
  checked (ErrDomDb "insert") (λ s,
    if List.existsb (λ x, is_dom (d_id d) x || (d_name x =s d_name d)) (domains (ds_db s)) then inl ErrDuplicate
    else if negb (match d_app_id d with Some a => List.existsb (is_app a) (apps (ds_db s)) | None => true end)
    then inl (ErrDomDb "insert")
    else inr (set_db (on_domains (λ l, l ++ [d]) (ds_db s)) s, tt)).

(** [UPDATE domains SET app_id = ?]: the foreign key to [apps]. *)
Definition updateAppPrimaryTx (id : string) (appID : option string) (primary : bool) : domM unit :=
  checked (ErrDomDb "update binding") (λ s,
    if List.existsb (is_dom id) (domains (ds_db s))
       && negb (match appID with Some a => List.existsb (is_app a) (apps (ds_db s)) | None => true end)
    then inl (ErrDomDb "update binding")
    else inr (set_db (on_domains (upd (is_dom id) (with_binding appID primary)) (ds_db s)) s, tt)).

Definition updateForceHTTPSTx (id : string) (force : bool) : domM unit :=
  dupdate "update force_https" id (with_force force).
Definition updateServiceRouteTx (id : string) (service : option string) (port : option Z) : domM unit :=
  dupdate "update service route" id (with_service service port).
Definition setCoveredByWildcard (id : string) (covered : bool) : domM unit :=
  dupdate "set covered" id (with_covered covered).

Definition markDNSVerified (now : Z) (id : string) : domM unit :=
  dupdate "mark verified" id (λ d,
    with_status "issuing" (d_ssl_expires_at d) true (Some now) (Some now) (d_dns_check_count d) d).
Definition bumpDNSFailure (now : Z) (id : string) : domM unit :=
  dupdate "bump failure" id (λ d,
    with_status (d_ssl_status d) (d_ssl_expires_at d) (d_dns_verified d) (d_dns_verified_at d) (Some now)
      (d_dns_check_count d + 1) d).
Definition markSSLStatus (id status : string) (exp : option Z) : domM unit :=
  dupdate "mark ssl status" id (λ d,
    with_status status (match exp with None => d_ssl_expires_at d | Some e => Some e end)
      (d_dns_verified d) (d_dns_verified_at d) (d_dns_last_check d) (d_dns_check_count d) d).
Definition resetForRetry (id : string) : domM unit :=
  dupdate "reset" id (with_status "pending" None false None None 0).

Definition listForDNSCheck (maxCount : Z) : domM (list Domain) :=
  dquery "list for dns check" (λ d,
    List.filter (λ x, (d_ssl_status x =s "pending") && (d_dns_check_count x <? maxCount)%Z) (domains d)).
Definition listForSSLMonitor : domM (list Domain) :=
  dquery "list for ssl monitor" (λ d,
    List.filter (λ x, (d_ssl_status x =s "issuing") || (d_ssl_status x =s "active")) (domains d)).

(** [publish]: the events handed to the bus, in order. *)
Definition publish (topic payload : string) : domM unit :=
  modify (λ s, mkDomState (ds_db s) (ds_caddy s) (ds_events s ++ [(topic, payload)]) (ds_failures s)).

(** A call of the proxy client and its error. *)
Definition caddy_call (f : C → C * caddy_res) : domM caddy_res :=
  λ s fs, let '(c, r) := f (ds_caddy s) in (set_caddy c s, fs, inr r).
End Repo.

(** ** Service (service.go) *)

Section Service.
Context {C : Type} `{CaddyClient C} `{Unicode}.
Local Abbreviation domM := (@domM C).

Definition resolveUpstreamFor (appID : option string) (service : option string) (port : option Z)
    : domM (string * Z) :=
  match appID with
  | None => mret ("prexel", 3000%Z)
  | Some a =>
    name ← appName a;
    match service, port with
    | Some svc, Some p =>
      if negb (TrimSpace svc =s "") && (0 <? p)%Z then mret ("prexel-" ^^ name ^^ "-" ^^ TrimSpace svc, p)
      else appPort ← appPort a; mret ("prexel-" ^^ name, appPort)
    | _, _ => appPort ← appPort a; mret ("prexel-" ^^ name, appPort)
    end
  end.

Definition resolveUpstream (appID : option string) : domM (string * Z) := resolveUpstreamFor appID None None.

Record CreateInput := mkCreateInput {
  ci_Name : string; ci_AppID : option string; ci_IsPrimary : bool; ci_ForceHTTPS : option bool;
}.

(** The transaction of [Create]. *)
Definition create_tx (id : string) (now : Z) (name : string) (zoneID : option string) (inp : CreateInput)
    : domM Domain :=
  _ ← (match ci_AppID inp with
       | None => mret tt
       | Some a =>
         ok ← appExistsTx a;
         if negb ok then throw ErrAppNotFound
         else when (ci_IsPrimary inp) (demotePrimaryTx a)
       end);
  let forceHTTPS := match ci_ForceHTTPS inp with None => true | Some b => b end in
  let d := mkDomain id name (ci_AppID inp) (ci_IsPrimary inp) "pending" None false None None 0 zoneID
             false None None forceHTTPS now in
  _ ← insertTx d;
  mret d.

(** [zone]: the answer of the zone linker for the name.  The domain is returned
    next to the error of a failed registration, as in the code. *)
Definition Create (s : Service) (parse_ip : string → bool) (zone : string → option (option Zone))
    (id : string) (now : Z) (inp : CreateInput) : domM (Domain * option DomErr) :=
  let name := normalizeName (ci_Name inp) in
  if negb (validateName parse_ip name) then throw ErrInvalidDomain
  else
    zoneID ← (if sv_zones s then
                match zone name with
                | None => throw ErrZoneLinkage
                | Some z => mret (z_ID <$> z)
                end
              else mret None);
    up ← resolveUpstream (ci_AppID inp);
    let '(upstream, upstreamPort) := up in
    d ← tx (ErrDomDb "begin") (ErrDomDb "commit") (create_tx id now name zoneID inp);
    persisted ← attempt (get id);
    let d := match persisted with inr p => p | inl _ => d end in
    if sv_caddy s then
      r ← caddy_call (UpsertRoute (d_name d) upstream upstreamPort (d_force_https d));
      match r with
      | COk =>
        r ← caddy_call (DisableTLS (d_name d));
        match r with
        | CFailed => mret (d, Some (ErrCaddy "disable tls"))
        | _ => mret (d, None)
        end
      | _ => mret (d, Some (ErrCaddy "upsert"))
      end
    else mret (d, None).

Definition List_ (appID : option string) : domM (list Domain) := list_domains appID.
Definition Get (id : string) : domM Domain := get id.

(** [cur]: the panel's current URL, when an instance reader is wired. *)
Definition Delete (s : Service) (cur : string) (id : string) : domM unit :=
  d ← get id;
  if match d_app_id d with Some a => negb (a =s "") | None => false end then throw ErrInUseByApp
  else if sv_instance s && negb (cur =s "") && EqualFold cur (d_name d) then throw ErrInUseByInstance
  else
    _ ← when (sv_caddy s) (_ ← caddy_call (RemoveRoute (d_name d)); mret tt);
    delete id.

Record UpdateInput := mkUpdateInput {
  ui_AppID : option string; ui_ClearAppID : bool; ui_IsPrimary : option bool;
  ui_Service : option string; ui_Port : option Z; ui_ClearService : bool; ui_ForceHTTPS : option bool;
}.

(** The transaction of [Update]: the new app, service and port, whether the
    service route and the redirect flag changed, and the new flag. *)
Definition update_tx (id : string) (d : Domain) (inp : UpdateInput)
    : domM (option string * option string * option Z * bool * bool * bool) :=
  newAppID ← (if ui_ClearAppID inp then mret None
              else match ui_AppID inp with
              | None => mret (d_app_id d)
              | Some a =>
                let v := TrimSpace a in
                if v =s "" then mret None
                else
                  ok ← appExistsTx v;
                  if negb ok then throw ErrAppNotFound else mret (Some v)
              end);
  let wanted := match ui_IsPrimary inp with Some b => b | None => d_is_primary d end in
  let newPrimary := match newAppID with None => false | Some _ => wanted end in
  _ ← (match newAppID with
       | Some a => when newPrimary (demotePrimaryTx a)
       | None => mret tt
       end);
  _ ← updateAppPrimaryTx id newAppID newPrimary;
  let '(newService, newPort, serviceChanged) :=
    if ui_ClearService inp then (None, None, true)
    else match ui_Service inp, ui_Port inp with
         | None, None => (d_service d, d_port d, false)
         | svc, p => (svc, p, true)
         end in
  _ ← when serviceChanged (updateServiceRouteTx id newService newPort);
  match ui_ForceHTTPS inp with
  | None => mret (newAppID, newService, newPort, serviceChanged, d_force_https d, false)
  | Some f =>
    _ ← updateForceHTTPSTx id f;
    mret (newAppID, newService, newPort, serviceChanged, f, negb (Bool.eqb f (d_force_https d)))
  end.

Definition sameAppID (a b : option string) : bool :=
  match a, b with
  | None, None => true
  | Some a, Some b => a =s b
  | _, _ => false
  end.

Definition Update (s : Service) (id : string) (inp : UpdateInput) : domM Domain :=
  d ← get id;
  r ← tx (ErrDomDb "begin update") (ErrDomDb "commit") (update_tx id d inp);
  let '(newAppID, newService, newPort, serviceChanged, newForce, forceChanged) := r in
  _ ← when (sv_caddy s && (negb (sameAppID (d_app_id d) newAppID) || serviceChanged || forceChanged)) (
        up ← attempt (resolveUpstreamFor newAppID newService newPort);
        match up with
        | inl _ => mret tt
        | inr (upstream, port) => _ ← caddy_call (UpsertRoute (d_name d) upstream port newForce); mret tt
        end);
  get id.

Definition Retry (id : string) : domM unit :=
  _ ← get id;
  resetForRetry id.

(** [zone]: the answer of the zone reader, if it has one. *)
Definition refreshWildcardCoverage (s : Service) (zone : string → option Zone) (d : Domain) : domM unit :=
  match sv_zones s, d_zone_id d with
  | true, Some zid =>
    match zone zid with
    | None => mret tt
    | Some z => when (negb (Bool.eqb (z_WildcardVerified z) (d_covered_by_wildcard d)))
                  (ignore (setCoveredByWildcard (d_id d) (z_WildcardVerified z)))
    end
  | _, _ => mret tt
  end.

Definition containsAddr (addrs : list string) (want : string) : bool := List.existsb (λ a, a =s want) addrs.

(** [lookup]: the answer of the resolver for a name, [None] for an error. *)
Definition runDNSCheckOnce (s : Service) (zone : string → option Zone) (lookup : string → option (list string))
    (now : Z) (d : Domain) (expectedIP : string) : domM unit :=
  _ ← refreshWildcardCoverage s zone d;
  if match lookup (d_name d) with None => true | Some addrs => negb (containsAddr addrs expectedIP) end then
    _ ← bumpDNSFailure now (d_id d);
    updated ← attempt (get (d_id d));
    match updated with
    | inr u => when (maxDNSCheckCount <=? d_dns_check_count u)%Z (
                 _ ← ignore (markSSLStatus (d_id d) "failed" None);
                 publish "domain.dns.failed" (d_id d))
    | inl _ => mret tt
    end
  else
    _ ← markDNSVerified now (d_id d);
    _ ← when (sv_caddy s) (
          r ← caddy_call (EnableTLS (d_name d));
          match r with
          | COk => mret tt
          | _ => publish "domain.caddy.enable_tls_failed" (d_id d)
          end);
    publish "domain.dns.verified" (d_id d).

(** [ip]: the public address, [None] when its provider fails. *)
Definition Verify (s : Service) zone lookup (ip : option string) (now : Z) (id : string) : domM unit :=
  d ← get id;
  if negb (sv_publicIP s) then throw ErrPublicIP
  else match ip with
  | None => throw ErrPublicIP
  | Some ip => runDNSCheckOnce s zone lookup now d ip
  end.

(** dnscheck.go: one pass; the error of one domain is logged and skipped. *)
Fixpoint check_all (s : Service) zone lookup (now : Z) (ip : string) (l : list Domain) : domM unit :=
  match l with
  | [] => mret tt
  | d :: l => _ ← ignore (runDNSCheckOnce s zone lookup now d ip); check_all s zone lookup now ip l
  end.

Definition runDNSCheckPass (s : Service) zone lookup (ip : option string) (now : Z) : domM unit :=
  r ← attempt (listForDNSCheck maxDNSCheckCount);
  match r with
  | inl _ => mret tt
  | inr l =>
    if is_nil l then mret tt
    else if negb (sv_publicIP s) then mret tt
    else match ip with
    | None => mret tt
    | Some ip => check_all s zone lookup now ip l
    end
  end.

(** ** Certificates (sslmonitor.go) *)

(** [record] and [clear] of the failure tracker. *)
Definition record (now : Z) (id : string) : domM (Z * Z) :=
  λ s fs,
    let '(n, first) := match ds_failures s !! id with Some p => p | None => (0%Z, now) end in
    (set_failures (<[id := ((n + 1)%Z, first)]> (ds_failures s)) s, fs, inr ((n + 1)%Z, (now - first)%Z)).
Definition clear (id : string) : domM unit :=
  modify (λ s, set_failures (base.delete id (ds_failures s)) s).

Definition recordSSLFailure (now : Z) (d : Domain) : domM unit :=
  r ← record now (d_id d);
  let '(attempts, elapsed) := r in
  if negb (d_ssl_status d =s "issuing") then mret tt
  else if (sslIssuingMaxAttempts <=? attempts)%Z && (sslIssuingFailDuration <=? elapsed)%Z then
    e ← attempt (markSSLStatus (d_id d) "failed" None);
    match e with
    | inl _ => mret tt
    | inr _ => _ ← clear (d_id d); publish "domain.ssl.failed" (d_id d)
    end
  else mret tt.

(** What a TLS handshake shows: nothing, or the leaf certificate's issuer
    common name, whether issuer and subject are the same, and its expiry. *)
Record Cert := mkCert { ce_issuer : string; ce_self_signed : bool; ce_notAfter : Z }.

Definition handleProdMode (handshake : string → option Cert) (now : Z) (d : Domain) : domM unit :=
  match handshake (d_name d) with
  | None => recordSSLFailure now d
  | Some cert =>
    if negb (Contains (ToLower (ce_issuer cert)) "let's encrypt") && ce_self_signed cert
    then recordSSLFailure now d
    else
      _ ← when (negb (d_ssl_status d =s "active")) (publish "domain.ssl.changed" (d_id d));
      e ← attempt (markSSLStatus (d_id d) "active" (Some (ce_notAfter cert)));
      match e with inl _ => mret tt | inr _ => clear (d_id d) end
  end.

Definition handleDevMode (now : Z) (d : Domain) : domM unit :=
  if negb (d_ssl_status d =s "issuing") then mret tt
  else
    let exp := (now + sslSelfSignedTTL)%Z in
    e ← attempt (markSSLStatus (d_id d) "active" (Some exp));
    match e with
    | inl _ => mret tt
    | inr _ => _ ← clear (d_id d); publish "domain.ssl.changed" (d_id d)
    end.

Fixpoint monitor_all (devMode : bool) handshake (now : Z) (l : list Domain) : domM unit :=
  match l with
  | [] => mret tt
  | d :: l =>
    _ ← (if devMode then handleDevMode now d else handleProdMode handshake now d);
    monitor_all devMode handshake now l
  end.

(** [mode]: settings.tls_mode, "" when unset or unreadable. *)
Definition runSSLPass (mode : string) handshake (now : Z) : domM unit :=
  r ← attempt listForSSLMonitor;
  match r with
  | inl _ => mret tt
  | inr l => monitor_all (mode =s "self-signed") handshake now l
  end.
End Service.

(** ** Host ports (port.go) *)

(** The scan; [free p]: 127.0.0.1:p accepts a bind. *)
Fixpoint scan_ports (free : Z → bool) (fuel : nat) (port stop tried : Z) : DomErr + Z :=
  match fuel with
  | O => inl ErrNoPort
  | S fuel =>
    if (port <? stop)%Z && (tried <? 50)%Z then
      if free port then inr port else scan_ports free fuel (port + 1) stop (tried + 1)
    else inl ErrNoPort
  end.

(** The loop makes at most fifty attempts before it gives up. *)
Definition FindAvailablePort (free : Z → bool) (start stop : Z) : DomErr + Z :=
  if (start <=? 0)%Z || (stop <=? start)%Z then inl ErrNoPort
  else scan_ports free 51 start stop 0.

Definition set_host_port (p : option Z) (a : App) : App := set_app_host_port p a.

Definition AssignHostPort (free : Z → bool) (appID : string) : M Db DomErr Z :=
  match FindAvailablePort free PortRangeStart PortRangeEnd with
  | inl e => throw e
  | inr port =>
    n ← fallible (ErrDomDb "assign port") (λ d,
          (on_apps (upd (is_app appID) (set_host_port (Some port))) d, cnt (is_app appID) (apps d)));
    if (n =? 0)%nat then throw ErrAppNotFound else mret port
  end.

(** ** Well-formed tables *)

Definition in_service (d : Domain) : bool := (d_ssl_status d =s "issuing") || (d_ssl_status d =s "active").

Definition row_ok (d : Domain) : Prop :=
  hostnameRe (d_name d) = true ∧
  d_ssl_status d ∈ ["pending"; "issuing"; "active"; "failed"] ∧
  (in_service d = true → d_dns_verified d = true).

Record dom_wf (d : Db) : Prop := {
  wf_ids : NoDup (d_id <$> domains d);
  wf_names : NoDup (d_name <$> domains d);
  wf_rows : ∀ x, x ∈ domains d → row_ok x;
  wf_apps : ∀ x a, x ∈ domains d → d_app_id x = Some a → List.existsb (is_app a) (apps d) = true;
  wf_primary : ∀ a, cnt (primary_of a) (domains d) ≤ 1;
}.

(** Every row that is active in [d] was at least being issued in [d0]. *)
Definition issued_in (d0 : Db) (id : string) : Prop :=
  ∃ y, y ∈ domains d0 ∧ d_id y = id ∧ in_service y = true.
Definition act (d0 d : Db) : Prop :=
  ∀ x, x ∈ domains d → d_ssl_status x = "active" → issued_in d0 (d_id x).
Definition good (d0 d : Db) : Prop := dom_wf d ∧ act d0 d.

(** What an UPDATE of one row keeps. *)
Definition keeps_key (f : Domain → Domain) : Prop := ∀ d,
  d_id (f d) = d_id d ∧ d_name (f d) = d_name d.
Definition keeps_binding (f : Domain → Domain) : Prop := ∀ d,
  d_app_id (f d) = d_app_id d ∧ d_is_primary (f d) = d_is_primary d.

(** The calls of the service, as its users and its two background loops make them. *)
Inductive DomCall :=
  | CallCreate (parse_ip : string → bool) (zone : string → option (option Zone)) (id : string) (now : Z)
      (inp : CreateInput)
  | CallDelete (cur id : string)
  | CallUpdate (id : string) (inp : UpdateInput)
  | CallRetry (id : string)
  | CallVerify (zone : string → option Zone) (lookup : string → option (list string)) (ip : option string)
      (now : Z) (id : string)
  | CallDNSPass (zone : string → option Zone) (lookup : string → option (list string)) (ip : option string)
      (now : Z)
  | CallSSLPass (mode : string) (handshake : string → option Cert) (now : Z).

Definition dom_call {C} `{CaddyClient C} `{Unicode} (s : Service) (c : DomCall) : M (DomState C) DomErr unit :=
  match c with
  | CallCreate parse_ip zone id now inp => _ ← Create s parse_ip zone id now inp; mret tt
  | CallDelete cur id => Delete s cur id
  | CallUpdate id inp => _ ← Update s id inp; mret tt
  | CallRetry id => Retry id
  | CallVerify zone lookup ip now id => Verify s zone lookup ip now id
  | CallDNSPass zone lookup ip now => runDNSCheckPass s zone lookup ip now
  | CallSSLPass mode handshake now => runSSLPass mode handshake now
  end.

(** A history: every call with the faults that hit it. *)
Fixpoint dom_history {C} `{CaddyClient C} `{Unicode} (s : Service) (h : list (DomCall * list bool))
    (st : DomState C) : DomState C :=
  match h with
  | [] => st
  | (c, fs) :: h => dom_history s h (dom_call s c st fs).1.1
  end.

(** ** Lemmas *)

Section Rows.
Implicit Types (d : Db) (x y : Domain).

Lemma is_dom_key id x y : is_dom id x = true → is_dom id y = true → d_id x = d_id y.
Proof. unfold is_dom. intros. bool_simp. congruence. Qed.

(** An UPDATE that keeps keys and bindings and writes an acceptable row. *)
Lemma upd_good d0 d id f :
  keeps_key f → keeps_binding f →
  (∀ x, x ∈ domains d → is_dom id x = true → row_ok x → row_ok (f x)) →
  (∀ x, x ∈ domains d → is_dom id x = true → d_ssl_status (f x) = "active" →
     d_ssl_status x = "active" ∨ issued_in d0 (d_id x)) →
  good d0 d → good d0 (on_domains (upd (is_dom id) f) d).
Proof.
  intros Hk Hb Hr Ha [W A]. split; [constructor|]; simpl.
  - unfold fmap, list_fmap. by setoid_rewrite map_upd; [apply W|apply Hk].
  - unfold fmap, list_fmap. by setoid_rewrite map_upd; [apply W|apply Hk].
  - intros x (y & Hy & ->)%elem_of_upd. destruct (is_dom id y) eqn:E; [|by apply W].
    apply Hr; [done..|by apply W].
  - intros x a (y & Hy & ->)%elem_of_upd. destruct (is_dom id y); [rewrite (proj1 (Hb y))|]; exact (wf_apps _ W y _ Hy).
  - intros a. rewrite cnt_upd_eq; [apply W|].
    intros y. unfold primary_of, of_app. destruct (Hb y) as [-> ->]. done.
  - intros x (y & Hy & ->)%elem_of_upd. destruct (is_dom id y) eqn:E; [|by apply A].
    rewrite (proj1 (Hk y)). intros Hst. destruct (Ha y Hy E Hst) as [?|?]; [by apply A|done].
Qed.

(** Rebinding a row, once its app has no other primary domain. *)
Lemma bind_good d0 d id app primary :
  match app with Some a => List.existsb (is_app a) (apps d) = true | None => True end →
  (primary = true → match app with Some a => cnt (primary_of a) (domains d) = 0 | None => False end) →
  good d0 d → good d0 (on_domains (upd (is_dom id) (with_binding app primary)) d).
Proof.
  intros Happ Hp [W A]. split; [constructor|]; simpl.
  - unfold fmap, list_fmap. by setoid_rewrite map_upd; [apply W|].
  - unfold fmap, list_fmap. by setoid_rewrite map_upd; [apply W|].
  - intros x (y & Hy & ->)%elem_of_upd. destruct (is_dom id y); exact (wf_rows _ W y Hy).
  - intros x a (y & Hy & ->)%elem_of_upd. destruct (is_dom id y); simpl; [intros ->; done|exact (wf_apps _ W y _ Hy)].
  - intros a. destruct primary.
    + destruct app as [b|]; [|by destruct Hp]. specialize (Hp eq_refl).
      destruct (decide (b = a)) as [->|Hne].
      * etransitivity; [apply (cnt_upd_key d_id _ _ _ _ id)|by rewrite Hp].
        -- unfold is_dom. intros. by bool_simp.
        -- apply W.
      * etransitivity; [apply cnt_upd_le|apply W]. intros y. unfold primary_of, of_app. simpl.
        apply String.eqb_neq in Hne. by rewrite Hne.
    + etransitivity; [apply cnt_upd_le|apply W]. intros y. unfold primary_of. simpl. by rewrite andb_false_r.
  - intros x (y & Hy & ->)%elem_of_upd. destruct (is_dom id y); exact (A y Hy).
Qed.

Lemma demote_good d0 d a :
  good d0 d → good d0 (on_domains (upd (primary_of a) (λ x, with_binding (d_app_id x) false x)) d).
Proof.
  intros [W A]. split; [constructor|]; simpl.
  - unfold fmap, list_fmap. by setoid_rewrite map_upd; [apply W|].
  - unfold fmap, list_fmap. by setoid_rewrite map_upd; [apply W|].
  - intros x (y & Hy & ->)%elem_of_upd. destruct (primary_of a y); exact (wf_rows _ W y Hy).
  - intros x b (y & Hy & ->)%elem_of_upd. destruct (primary_of a y); exact (wf_apps _ W y _ Hy).
  - intros b. etransitivity; [apply cnt_upd_le|apply W]. intros y. unfold primary_of. simpl.
    by rewrite andb_false_r.
  - intros x (y & Hy & ->)%elem_of_upd. destruct (primary_of a y); exact (A y Hy).
Qed.

Lemma demote_cnt a (t : list Domain) :
  cnt (primary_of a) (upd (primary_of a) (λ x, with_binding (d_app_id x) false x) t) = 0.
Proof.
  apply cnt_0. intros x (y & Hy & ->)%elem_of_upd. destruct (primary_of a y) eqn:E; [|done].
  unfold primary_of. simpl. by rewrite andb_false_r.
Qed.

Lemma del_good d0 d id : good d0 d → good d0 (on_domains (del (is_dom id)) d).
Proof.
  intros [W A]. split; [constructor|]; simpl.
  - apply NoDup_fmap_filter, W.
  - apply NoDup_fmap_filter, W.
  - intros x [Hx _]%elem_of_del. by apply W.
  - intros x a [Hx _]%elem_of_del. by apply W.
  - intros a. etransitivity; [apply cnt_del_le|apply W].
  - intros x [Hx _]%elem_of_del. by apply A.
Qed.

Lemma insert_good d0 d x :
  List.existsb (λ y, is_dom (d_id x) y || (d_name y =s d_name x)) (domains d) = false →
  match d_app_id x with Some a => List.existsb (is_app a) (apps d) = true | None => True end →
  (d_is_primary x = true → match d_app_id x with Some a => cnt (primary_of a) (domains d) = 0 | None => True end) →
  row_ok x → d_ssl_status x = "pending" →
  good d0 d → good d0 (on_domains (λ l, l ++ [x]) d).
Proof.
  intros Hu Happ Hp Hok Hst [W A].
  assert (Hnew : ∀ y, y ∈ domains d → d_id y ≠ d_id x ∧ d_name y ≠ d_name x).
  { intros y Hy. pose proof (existsb_false_elem _ _ _ Hu Hy) as E. simpl in E. unfold is_dom in E.
    by bool_simp. }
  split; [constructor|]; simpl.
  - rewrite fmap_app. apply NoDup_snoc; [apply W|]. intros (y & E & Hy)%list_elem_of_fmap.
    by destruct (Hnew y Hy) as [[] _].
  - rewrite fmap_app. apply NoDup_snoc; [apply W|]. intros (y & E & Hy)%list_elem_of_fmap.
    by destruct (Hnew y Hy) as [_ []].
  - intros y [Hy| ->%list_elem_of_singleton]%elem_of_app; [by apply W|done].
  - intros y a [Hy| ->%list_elem_of_singleton]%elem_of_app; [by apply W|]. intros E. by rewrite E in Happ.
  - intros a. rewrite cnt_app, cnt_cons. pose proof (wf_primary _ W a). simpl.
    destruct (primary_of a x) eqn:E; [|simpl; unfold cnt at 2; simpl; lia].
    unfold primary_of, of_app in E. bool_simp. rewrite H1 in Hp. destruct (d_app_id x) as [b|]; [|done].
    bool_simp. subst b. rewrite Hp by done. unfold cnt. simpl. lia.
  - intros y [Hy| ->%list_elem_of_singleton]%elem_of_app; [by apply A|]. congruence.
Qed.

Lemma good_refl d : dom_wf d → good d d.
Proof. intros W. split; [done|]. intros x Hx E. exists x. unfold in_service. rewrite E. done. Qed.
End Rows.

(** *** Statements on the state *)

Section Preservation.
Context {C : Type} `{CC : CaddyClient C} `{U : Unicode}.
Implicit Types (st : DomState C).

Definition Good (d0 : Db) : DomState C → Prop := λ st, good d0 (ds_db st).

Lemma wp_caddy_call (f : C → C * caddy_res) (Q : DomState C → DomErr + caddy_res → Prop) st :
  Q (set_caddy (f (ds_caddy st)).1 st) (inr (f (ds_caddy st)).2) → wp (caddy_call f) Q st.
Proof. intros H fs. unfold caddy_call. by destruct (f (ds_caddy st)). Qed.

Lemma wp_record now id (Q : DomState C → DomErr + (Z * Z) → Prop) st :
  let p := match ds_failures st !! id with Some p => p | None => (0%Z, now) end in
  Q (set_failures (<[id := ((p.1 + 1)%Z, p.2)]> (ds_failures st)) st) (inr ((p.1 + 1)%Z, (now - p.2)%Z)) →
  wp (record now id) Q st.
Proof. intros p H fs. unfold record. by destruct (match ds_failures st !! id with _ => _ end). Qed.

(** Anything that leaves the database alone. *)
Lemma preserves_db {A} (I : Db → Prop) (m : domM A) :
  (∀ st fs, ds_db (m st fs).1.1 = ds_db st) → preserves (λ st, I (ds_db st)) m.
Proof. intros H st HI fs. by rewrite H. Qed.

Lemma preserves_caddy_call (I : Db → Prop) (f : C → C * caddy_res) :
  preserves (λ st, I (ds_db st)) (caddy_call f).
Proof. apply preserves_db. intros st fs. unfold caddy_call. by destruct (f (ds_caddy st)). Qed.

Lemma preserves_publish (I : Db → Prop) a b : preserves (λ st, I (ds_db st)) (publish (C := C) a b).
Proof. by apply preserves_db. Qed.

Lemma preserves_dquery {A} (I : Db → Prop) w (f : Db → A) :
  preserves (λ st, I (ds_db st)) (dquery (C := C) w f).
Proof. apply preserves_query. Qed.

Lemma preserves_get (I : Db → Prop) id : preserves (λ st, I (ds_db st)) (get (C := C) id).
Proof.
  apply preserves_bind; [apply preserves_dquery|]. intros [d|]; [apply preserves_ret|apply preserves_throw].
Qed.

(** [dupdate] through [upd_good]. *)
Lemma dupdate_good d0 w id f :
  keeps_key f → keeps_binding f → (∀ x, row_ok x → row_ok (f x)) →
  (∀ x, d_ssl_status (f x) = "active" → d_ssl_status x = "active") →
  preserves (Good d0) (dupdate w id f).
Proof.
  intros Hk Hb Hr Ha. apply preserves_exec. intros st Hg. apply upd_good; auto.
Qed.

Local Ltac same_row := by intros x; repeat split.

Lemma service_route_good d0 id service port : preserves (Good d0) (updateServiceRouteTx id service port).
Proof. apply dupdate_good; [same_row..|done|done]. Qed.

Lemma force_good d0 id b : preserves (Good d0) (updateForceHTTPSTx id b).
Proof. apply dupdate_good; [same_row..|done|done]. Qed.

Lemma covered_good d0 id b : preserves (Good d0) (setCoveredByWildcard id b).
Proof. apply dupdate_good; [same_row..|done|done]. Qed.

Lemma bump_good d0 now id : preserves (Good d0) (bumpDNSFailure now id).
Proof. apply dupdate_good; [same_row..|done|done]. Qed.

Lemma verified_good d0 now id : preserves (Good d0) (markDNSVerified now id).
Proof.
  apply dupdate_good; [same_row..| |done]. intros x (? & _ & _). split_and!; [done| |done]. simpl. set_solver.
Qed.

Lemma retry_good d0 id : preserves (Good d0) (resetForRetry id).
Proof.
  apply dupdate_good; [same_row..| |done]. intros x (? & _ & _). split_and!; [done| |done]. simpl. set_solver.
Qed.

Lemma failed_good d0 id exp : preserves (Good d0) (markSSLStatus id "failed" exp).
Proof.
  apply dupdate_good; [same_row..| |done]. intros x (? & _ & _). split_and!; [done| |done]. simpl. set_solver.
Qed.
End Preservation.

Create HintDb domains.

#[export] Hint Resolve preserves_bind preserves_ret preserves_throw preserves_when preserves_attempt
  preserves_ignore preserves_tx preserves_caddy_call preserves_publish preserves_dquery preserves_get
  service_route_good force_good covered_good bump_good verified_good retry_good failed_good : domains.

(** [preserve] walks through a method; what is left are its writes. *)
Ltac preserve :=
  repeat match goal with
  | |- preserves _ (mbind _ _) => apply preserves_bind; [|intros ?]
  | |- preserves _ (mret _) => apply preserves_ret
  | |- preserves _ (throw _) => apply preserves_throw
  | |- preserves _ (when _ _) => apply preserves_when
  | |- preserves _ (attempt _) => apply preserves_attempt
  | |- preserves _ (ignore _) => apply preserves_ignore
  | |- preserves _ (tx _ _ _) => apply preserves_tx
  | |- preserves _ (match ?x with _ => _ end) => destruct x eqn:?
  | |- preserves _ (let '(_, _) := ?x in _) => destruct x
  | |- _ => solve [eauto 1 with domains]
  end.

Section Invariant.
Context {C : Type} `{CC : CaddyClient C} `{U : Unicode}.
Variable s : Service.

Lemma resolve_preserves (I : Db → Prop) app service port :
  preserves (λ st : DomState C, I (ds_db st)) (resolveUpstreamFor app service port).
Proof. unfold resolveUpstreamFor, appName, appPort. preserve. Qed.

Lemma delete_good d0 (id : string) : preserves (Good (C := C) d0) (delete id).
Proof.
  unfold delete. apply preserves_bind.
  - intros st Hg. apply wp_fallible; [done|]. by apply del_good.
  - intros n. preserve.
Qed.

Lemma check_good d0 zone lookup now d ip :
  preserves (Good (C := C) d0) (runDNSCheckOnce s zone lookup now d ip).
Proof.
  unfold runDNSCheckOnce, refreshWildcardCoverage. cbv zeta. preserve.
Qed.
Lemma check_all_good d0 zone lookup now ip l : preserves (Good (C := C) d0) (check_all s zone lookup now ip l).
Proof.
  induction l as [|d l IH]; simpl; [preserve|]. apply preserves_bind; [|intros _; exact IH].
  apply preserves_ignore, check_good.
Qed.

Lemma verify_good d0 zone lookup ip now id : preserves (Good (C := C) d0) (Verify s zone lookup ip now id).
Proof. unfold Verify. preserve. apply check_good. Qed.

Lemma dns_pass_good d0 zone lookup ip now : preserves (Good (C := C) d0) (runDNSCheckPass s zone lookup ip now).
Proof. unfold runDNSCheckPass, listForDNSCheck. preserve. apply check_all_good. Qed.

Lemma Delete_good d0 cur id : preserves (Good (C := C) d0) (Delete s cur id).
Proof. unfold Delete. preserve. apply delete_good. Qed.

Lemma Retry_good d0 id : preserves (Good (C := C) d0) (Retry id).
Proof. unfold Retry. preserve. Qed.

(** The binding of a row, inside the transactions of [Create] and [Update]. *)
Lemma rebind_wp d0 id app (primary : bool) st :
  Good (C := C) d0 st →
  (primary = true → match app with Some a => cnt (primary_of a) (domains (ds_db st)) = 0 | None => False end) →
  wp (updateAppPrimaryTx id app primary) (λ st' _, Good d0 st') st.
Proof.
  intros Hg Hp. apply wp_checked; [done|].
  destruct (List.existsb (is_dom id) (domains (ds_db st))) eqn:E; simpl.
  - destruct (negb _) eqn:E2; [done|]. apply bind_good; [|done|done].
    destruct app; [|done]. by bool_simp.
  - (* no such row: nothing is rebound *)
    assert (Hid : upd (is_dom id) (with_binding app primary) (domains (ds_db st)) = domains (ds_db st)).
    { unfold upd. rewrite <- (List.map_id (domains (ds_db st))) at 2. apply List.map_ext_in.
      intros x Hx%list_elem_of_In. rewrite (existsb_false_elem _ _ _ E Hx). done. }
    unfold Good, set_db, on_domains. simpl. rewrite Hid. unfold Good in Hg. by destruct (ds_db st).
Qed.

Lemma update_tx_good d0 id d inp : preserves (Good (C := C) d0) (update_tx id d inp).
Proof.
  unfold update_tx, appExistsTx. apply preserves_bind; [preserve|]. intros newAppID. cbv zeta.
  set (np := match newAppID with None => false | Some _ => _ end).
  intros st Hg. apply wp_bind.
  apply (wp_mono _ (λ st' r, Good d0 st' ∧ (r = inr tt → np = true →
    match newAppID with Some a => cnt (primary_of a) (domains (ds_db st')) = 0 | None => False end))).
  - destruct newAppID as [a|].
    + unfold when. destruct np; [|by apply wp_ret].
      apply wp_exec; [done|]. split; [by apply demote_good|]. intros _ _. apply demote_cnt.
    + apply wp_ret. by split.
  - intros st' [e|[]] [Hg' Hp]; [done|]. apply wp_bind.
    eapply wp_mono; [apply rebind_wp; [done|by apply Hp]|].
    intros st2 [e|[]] Hg2; [done|]. revert st2 Hg2.
    match goal with |- ∀ st2, _ → wp ?m _ st2 => change (preserves (Good d0) m) end.
    preserve.
Qed.

Lemma Update_good d0 id inp : preserves (Good (C := C) d0) (Update s id inp).
Proof.
  unfold Update. preserve; [apply update_tx_good|]. apply resolve_preserves.
Qed.

Lemma create_tx_good d0 id now name zoneID inp :
  hostnameRe name = true → preserves (Good (C := C) d0) (create_tx id now name zoneID inp).
Proof.
  intros Hn st Hg. unfold create_tx. cbv zeta. apply wp_bind.
  apply (wp_mono _ (λ st' r, Good d0 st' ∧ (r = inr tt → ci_IsPrimary inp = true →
    match ci_AppID inp with Some a => cnt (primary_of a) (domains (ds_db st')) = 0 | None => True end))).
  - destruct (ci_AppID inp) as [a|]; [|by apply wp_ret].
    unfold appExistsTx. do 2 apply wp_bind. apply wp_query; [done|]. apply wp_ret.
    destruct (negb _); [by apply wp_throw|]. unfold when. destruct (ci_IsPrimary inp); [|by apply wp_ret].
    apply wp_exec; [done|]. split; [by apply demote_good|]. intros _ _. apply demote_cnt.
  - intros st' [e|[]] [Hg' Hp]; [done|]. apply wp_bind. apply wp_checked; [done|].
    destruct (List.existsb _ _) eqn:E1; [done|]. destruct (negb _) eqn:E2; [done|].
    apply wp_ret. apply insert_good; try done.
    + simpl in *. destruct (ci_AppID inp); [by bool_simp|done].
    + simpl. intros. by apply Hp.
    + split_and!; simpl; [done|set_solver|done].
Qed.

Lemma validateName_host parse_ip name : validateName parse_ip name = true → hostnameRe name = true.
Proof. unfold validateName. by cases. Qed.

Lemma Create_good d0 parse_ip zone id now inp : preserves (Good (C := C) d0) (Create s parse_ip zone id now inp).
Proof.
  unfold Create, resolveUpstream. cbv zeta. preserve; try apply resolve_preserves.
  apply create_tx_good. apply (validateName_host parse_ip). by bool_simp.
Qed.
(** The monitor works on the rows it listed; their verification stands
    throughout the pass. *)
Definition Listed (d0 : Db) (l : list Domain) : DomState C → Prop := λ st,
  Good d0 st ∧ ∀ x y, x ∈ l → y ∈ domains (ds_db st) → d_id y = d_id x → d_dns_verified y = true.

Lemma mark_listed d0 l x status exp :
  x ∈ l → issued_in d0 (d_id x) → status ∈ ["active"; "failed"] →
  preserves (Listed d0 l) (markSSLStatus (d_id x) status exp).
Proof.
  intros Hx Hi Hs. apply preserves_exec. intros st [Hg Hl]. split.
  - apply upd_good; [intros y; done|intros y; done| | |done].
    + intros y Hy Hid (? & _ & _). unfold is_dom in Hid. bool_simp. split_and!; simpl; [done|set_solver|].
      intros _. by apply (Hl x).
    + intros y Hy Hid _. right. unfold is_dom in Hid. bool_simp. congruence.
  - intros a y Ha Hy Hid. simpl in Hy. apply elem_of_upd in Hy as (y0 & Hy0 & ->).
    destruct (is_dom _ y0); simpl in *; by apply (Hl a y0).
Qed.

Lemma preserves_listed {A} d0 l (m : domM (C := C) A) :
  (∀ st fs, ds_db (m st fs).1.1 = ds_db st) → preserves (Listed d0 l) m.
Proof. intros H. by apply (preserves_db (λ d, good d0 d ∧ ∀ x y, x ∈ l → y ∈ domains d → d_id y = d_id x → d_dns_verified y = true)). Qed.

Lemma record_listed d0 l now id : preserves (Listed d0 l) (record now id).
Proof. apply preserves_listed. intros st fs. unfold record. by destruct (match _ with Some _ => _ | None => _ end). Qed.

Lemma clear_listed d0 l id : preserves (Listed d0 l) (clear id).
Proof. by apply preserves_listed. Qed.

Lemma publish_listed d0 l a b : preserves (Listed d0 l) (publish a b).
Proof. by apply preserves_listed. Qed.

Lemma failure_listed d0 l now x :
  x ∈ l → issued_in d0 (d_id x) → preserves (Listed d0 l) (recordSSLFailure now x).
Proof.
  intros Hx Hi. unfold recordSSLFailure. apply preserves_bind; [apply record_listed|].
  intros [attempts elapsed]. preserve; [|apply clear_listed|apply publish_listed].
  apply mark_listed; [done|done|set_solver].
Qed.

Lemma monitor_listed d0 dev handshake now l l' :
  (∀ x, x ∈ l' → x ∈ l ∧ issued_in d0 (d_id x)) →
  preserves (Listed d0 l) (monitor_all dev handshake now l').
Proof.
  induction l' as [|x l' IH]; intros Hin; simpl; [preserve|].
  destruct (Hin x) as [Hx Hi]; [left|].
  apply preserves_bind; [|intros _; apply IH; intros y Hy; apply Hin; by right].
  unfold handleDevMode, handleProdMode. cbv zeta.
  preserve; first [by apply failure_listed | apply publish_listed | apply clear_listed
    | apply mark_listed; [done|done|set_solver]].
Qed.

Lemma ssl_pass_good mode handshake now (st : DomState C) :
  dom_wf (ds_db st) → wp (runSSLPass mode handshake now) (λ st' _, good (ds_db st) (ds_db st')) st.
Proof.
  intros W. pose proof (good_refl _ W) as Hg. unfold runSSLPass, listForSSLMonitor.
  apply wp_bind, wp_attempt, wp_query; [by apply wp_ret|].
  set (l := List.filter _ _).
  assert (Hl : ∀ x, x ∈ l → x ∈ domains (ds_db st) ∧ in_service x = true) by (intros x; apply elem_of_filter_b).
  eapply wp_mono; [apply (monitor_listed (ds_db st) _ _ _ l l)|].
  - intros x Hx. split; [done|]. exists x. by destruct (Hl x Hx).
  - split; [done|]. intros x y Hx Hy Hid. destruct (Hl x Hx) as [Hx' Hs].
    assert (y = x) as ->; [|by apply W].
    eapply (NoDup_fmap_inj d_id); [apply W|done..].
  - intros st' r H. apply H.
Qed.

Lemma call_good c (st : DomState C) :
  dom_wf (ds_db st) → wp (dom_call s c) (λ st' _, good (ds_db st) (ds_db st')) st.
Proof.
  intros W. pose proof (good_refl _ W : Good (ds_db st) st) as Hg.
  destruct c; simpl; [| | | | | |by apply ssl_pass_good];
    match goal with |- wp ?m _ st => assert (preserves (Good (ds_db st)) m) as Hp; [|by apply Hp] end.
  - preserve. apply Create_good.
  - apply Delete_good.
  - preserve. apply Update_good.
  - apply Retry_good.
  - apply verify_good.
  - apply dns_pass_good.
Qed.

(** C5: Whatever fails along a history of calls, the table keeps unique ids and
    names, well-formed host names, known statuses, existing apps, verified DNS
    under every certificate in service, and at most one primary domain per app. *)
Theorem domains_invariant (h : list (DomCall * list bool)) (st : DomState C) :
  dom_wf (ds_db st) → dom_wf (ds_db (dom_history s h st)).
Proof.
  revert st. induction h as [|[c fs] h IH]; intros st W; [done|]. simpl.
  apply IH. apply (call_good c st W fs).
Qed.

(** No call moves a domain to [active] unless its certificate was being
    issued (or was active) before the call. *)
Theorem active_after_issuing (c : DomCall) (st : DomState C) (fs : list bool) (x : Domain) :
  dom_wf (ds_db st) →
  x ∈ domains (ds_db (dom_call s c st fs).1.1) → d_ssl_status x = "active" →
  ∃ y, y ∈ domains (ds_db st) ∧ d_id y = d_id x ∧ d_dns_verified y = true ∧
    (d_ssl_status y = "issuing" ∨ d_ssl_status y = "active").
Proof.
  intros W Hx Ha. destruct (call_good c st W fs) as [_ A].
  destruct (A x Hx Ha) as (y & Hy & Hid & Hs). exists y. split_and!; [done|done|by apply W|].
  unfold in_service in Hs. apply orb_true_iff in Hs as [?|?]; bool_simp; auto.
Qed.
End Invariant.

(** ** What the methods do *)

(** The upstream of a domain without a service route. *)
Definition upstream_spec (app : option App) : string * Z :=
  match app with
  | None => ("prexel", 3000%Z)
  | Some a => ("prexel-" ^^ a_name a,
               match a_port a with None => 80 | Some p => if (p =? 0)%Z then 80 else p end)%Z
  end.

Definition demoted (app : option string) (primary : bool) (t : list Domain) : list Domain :=
  match app with
  | Some a => if primary then upd (primary_of a) (λ d, with_binding (d_app_id d) false d) t else t
  | None => t
  end.

Definition created_row (id : string) (now : Z) (name : string) (zone : option string) (inp : CreateInput) : Domain :=
  mkDomain id name (ci_AppID inp) (ci_IsPrimary inp) "pending" None false None None 0 zone false None None
    (match ci_ForceHTTPS inp with None => true | Some b => b end) now.

Section Effects.
Context {C : Type} `{CC : CaddyClient C} `{RL : !RouteLaws C} `{U : Unicode}.
Implicit Types (st : DomState C).

Lemma wp_resolve app (Q : DomState C → DomErr + (string * Z) → Prop) st :
  (∀ e, Q st (inl e)) →
  (∀ row, match app with
          | None => row = None
          | Some a => ∃ r, sel (is_app a) (apps (ds_db st)) = Some r ∧ row = Some r
          end → Q st (inr (upstream_spec row))) →
  wp (resolveUpstream app) Q st.
Proof.
  intros He Hr. unfold resolveUpstream, resolveUpstreamFor, appName, appPort, dquery.
  destruct app as [a|]; [|apply wp_ret; by apply (Hr None)].
  wp_go; auto; simplify_eq; specialize (Hr (Some _) (ex_intro _ _ (conj eq_refl eq_refl))); simpl in Hr;
    by repeat (case_match; simplify_eq).
Qed.

Lemma create_tx_wp id now name zone inp (Q : DomState C → DomErr + Domain → Prop) st :
  (∀ e st', Q st' (inl e)) →
  (match ci_AppID inp with Some a => List.existsb (is_app a) (apps (ds_db st)) = true | None => True end →
   List.existsb (λ y, is_dom id y || (d_name y =s name)) (domains (ds_db st)) = false →
   Q (set_db (on_domains (λ t, demoted (ci_AppID inp) (ci_IsPrimary inp) t ++ [created_row id now name zone inp])
        (ds_db st)) st)
     (inr (created_row id now name zone inp))) →
  wp (create_tx id now name zone inp) Q st.
Proof.
  intros He Hok. unfold create_tx. cbv zeta. apply wp_bind.
  apply (wp_mono _ (λ st' r, r = inr tt →
    match ci_AppID inp with Some a => List.existsb (is_app a) (apps (ds_db st)) = true | None => True end ∧
    st' = set_db (on_domains (demoted (ci_AppID inp) (ci_IsPrimary inp)) (ds_db st)) st)).
  - destruct (ci_AppID inp) as [a|]; simpl.
    + unfold appExistsTx, dquery. do 2 apply wp_bind. apply wp_query; [done|]. apply wp_ret.
      destruct (negb _) eqn:E; [by apply wp_throw|]. bool_simp.
      assert (Ha : List.existsb (is_app a) (apps (ds_db st)) = true).
      { apply Nat.ltb_lt in E. destruct (List.existsb _ _) eqn:E2; [done|]. exfalso.
        rewrite (proj2 (cnt_0 (is_app a) (apps (ds_db st)))) in E; [lia|].
        intros r Hr. by apply (existsb_false_elem _ _ _ E2). }
      unfold when. destruct (ci_IsPrimary inp); [by apply wp_exec|].
      apply wp_ret. intros _. split; [done|]. by destruct st as [[] ? ? ?].
    + apply wp_ret. intros _. split; [done|]. by destruct st as [[] ? ? ?].
  - intros st' [e|[]] Hst; [apply He|]. destruct (Hst eq_refl) as [Ha ->]. clear Hst.
    apply wp_bind, wp_checked; [apply He|]. cbv beta.
    match goal with |- context [List.existsb ?p ?l] => destruct (List.existsb p l) eqn:E end; [apply He|].
    destruct (negb _); [apply He|]. apply wp_ret. apply Hok; [done|].
    simpl in E. rewrite <- E. clear. unfold demoted.
    destruct (ci_AppID inp); [|done]. destruct (ci_IsPrimary inp); [|done].
    induction (domains (ds_db st)) as [|x t IH]; [done|]. simpl. rewrite IH. by destruct (primary_of _ x).
Qed.

(** From a steady proxy and under every fault, [Create] either changes neither table nor proxy, or
    stores exactly the requested row (pending, with a valid name, of an existing
    app) after demoting the previous primary; without an error to report the
    host is routed to the app's upstream, and no host the proxy tells apart from
    it is touched. *)
Theorem create_spec (s : Service) parse_ip zone id now inp st fs : steady (ds_caddy st) →
  let name := normalizeName (ci_Name inp) in
  match Create s parse_ip zone id now inp st fs with
  | (st', _, inl _) => st' = st
  | (st', _, inr (d, err)) =>
    validateName parse_ip name = true ∧
    (∃ z, d = created_row id now name z inp) ∧
    domains (ds_db st') = demoted (ci_AppID inp) (ci_IsPrimary inp) (domains (ds_db st)) ++ [d] ∧
    (∀ h, apart h name → route_of (ds_caddy st') h = route_of (ds_caddy st) h) ∧
    (sv_caddy s = true → err = None → ∃ row,
       match ci_AppID inp with
       | None => row = None
       | Some a => ∃ r, sel (is_app a) (apps (ds_db st)) = Some r ∧ row = Some r
       end ∧
       route_of (ds_caddy st') name
       = Some (mkRoute (upstream_spec row).1 (upstream_spec row).2 (d_force_https d)))
  end.
Proof.
  intros Hsd name.
  pose (Q := λ (st' : DomState C) (r : DomErr + Domain * option DomErr),
    match r with
    | inl _ => st' = st
    | inr (d, err) =>
      validateName parse_ip name = true ∧
      (∃ z, d = created_row id now name z inp) ∧
      domains (ds_db st') = demoted (ci_AppID inp) (ci_IsPrimary inp) (domains (ds_db st)) ++ [d] ∧
      (∀ h, apart h name → route_of (ds_caddy st') h = route_of (ds_caddy st) h) ∧
      (sv_caddy s = true → err = None → ∃ row,
         match ci_AppID inp with
         | None => row = None
         | Some a => ∃ r, sel (is_app a) (apps (ds_db st)) = Some r ∧ row = Some r
         end ∧
         route_of (ds_caddy st') name
         = Some (mkRoute (upstream_spec row).1 (upstream_spec row).2 (d_force_https d)))
    end).
  enough (HW : wp (Create s parse_ip zone id now inp) Q st).
  { specialize (HW fs). destruct (Create _ _ _ _ _ _ _ _) as [[st' fs'] [e|[d err]]]; exact HW. }
  unfold Create. fold name. cbv zeta. destruct (negb _) eqn:Hv; [by apply wp_throw|]. bool_simp.
  apply wp_bind. apply (wp_mono _ (λ st' _, st' = st)).
  { destruct (sv_zones s); [|by apply wp_ret]. destruct (zone name); [by apply wp_ret|by apply wp_throw]. }
  intros ? [e|z] ->; [done|]. apply wp_bind, wp_resolve; [done|]. intros row Hrow.
  destruct (upstream_spec row) as [up port] eqn:Eup.
  apply wp_bind, wp_tx; [done|]. apply create_tx_wp; [done|]. intros Ha Hnew. split; [done|].
  set (st1 := set_db _ st). set (d := created_row _ _ _ _ _).
  apply wp_bind, wp_attempt. apply (wp_mono _ (λ st' r, st' = st1 ∧ (r = inr d ∨ ∃ e, r = inl e))).
  { apply wp_bind, wp_query; [by eauto|].
    enough (sel (is_dom id) (domains (ds_db st1)) = Some d) as -> by (apply wp_ret; eauto).
    unfold st1. simpl. rewrite sel_app. destruct (sel _ (demoted _ _ _)) as [y|] eqn:Ey; simpl.
    - exfalso. apply sel_Some in Ey as [Hy Hp]. revert Hy. unfold demoted.
      assert (Hno : ∀ x, x ∈ domains (ds_db st) → d_id x = id → False).
      { intros x Hx Hid. pose proof (existsb_false_elem _ _ _ Hnew Hx) as E. simpl in E.
        unfold is_dom in E. bool_simp. done. }
      unfold is_dom in Hp. bool_simp. destruct (ci_AppID inp); [|by intros ?%Hno].
      destruct (ci_IsPrimary inp); [|by intros ?%Hno].
      intros (x & Hx & ->)%elem_of_upd. apply (Hno x Hx). by destruct (primary_of _ x).
    - unfold is_dom. by rewrite String.eqb_refl. }
  intros ? r [-> Hr].
  assert (Hd : match r with inl _ => d | inr p => p end = d) by (destruct Hr as [->|[? ->]]; done).
  rewrite Hd. clear r Hr Hd.
  assert (HQ : ∀ c, (∀ h, apart h name → route_of c h = route_of (ds_caddy st) h) → ∀ err,
    (sv_caddy s = true → err = None → route_of c name = Some (mkRoute up port (d_force_https d))) →
    Q (set_caddy c st1) (inr (d, err))).
  { intros c Hc err Hr. split_and!; [done|by exists z|done|done|].
    intros Hs He. exists row. rewrite Eup. auto. }
  replace st1 with (set_caddy (ds_caddy st) st1) by done.
  destruct (sv_caddy s); [|by apply wp_ret, HQ].
  apply wp_bind, wp_caddy_call. change (ds_caddy (set_caddy _ st1)) with (ds_caddy st). change (d_name d) with name.
  destruct (UpsertRoute _ _ _ _ _) as [c r] eqn:Ec.
  assert (Ho : ∀ h, apart h name → route_of c h = route_of (ds_caddy st) h).
  { intros h Hh. by rewrite <- (upsert_other name up port (d_force_https d) (ds_caddy st) h Hsd Hh), Ec. }
  simpl. destruct r; [|by apply wp_ret, HQ..].
  pose proof (upsert_ok _ _ _ _ _ _ Hsd Ec) as Hok.
  pose proof (upsert_steady name up port (d_force_https d) (ds_caddy st) Hsd) as Hsc. rewrite Ec in Hsc. simpl in Hsc.
  apply wp_bind, wp_caddy_call. change (ds_caddy (set_caddy _ (set_caddy _ st1))) with c.
  pose proof (λ h', disable_tls_routes name c h' Hsc) as Hdt. destruct (DisableTLS name c) as [c2 r2]. simpl in *.
  destruct r2; apply wp_ret, HQ; intros; rewrite Hdt; auto.
Qed.

Lemma wp_get id (Q : DomState C → DomErr + Domain → Prop) st :
  (∀ e, Q st (inl e)) → (∀ x, sel (is_dom id) (domains (ds_db st)) = Some x → Q st (inr x)) →
  wp (get id) Q st.
Proof.
  intros He Hx. apply wp_bind, wp_query; [apply He|]. destruct (sel _ _); [|by apply wp_throw].
  apply wp_ret. auto.
Qed.

(** [Delete] removes exactly the row of [id], and only of a domain that no
    app uses and that does not serve the panel; a refused or failed delete keeps
    the table, a refused one also the routes. *)
Theorem delete_spec (s : Service) (cur id : string) st fs : steady (ds_caddy st) →
  match Delete s cur id st fs with
  | (st', _, inr _) =>
    ∃ x, x ∈ domains (ds_db st) ∧ d_id x = id ∧ (d_app_id x = None ∨ d_app_id x = Some "") ∧
      (sv_instance s = true → cur ≠ "" → EqualFold cur (d_name x) = false) ∧
      domains (ds_db st') = del (is_dom id) (domains (ds_db st)) ∧
      (∀ h, apart h (d_name x) → route_of (ds_caddy st') h = route_of (ds_caddy st) h)
  | (st', _, inl e) =>
    ds_db st' = ds_db st ∧ (e = ErrInUseByApp ∨ e = ErrInUseByInstance → st' = st)
  end.
Proof.
  intros Hsd. pose (Q := λ (st' : DomState C) (r : DomErr + unit),
    match r with
    | inr _ =>
      ∃ x, x ∈ domains (ds_db st) ∧ d_id x = id ∧ (d_app_id x = None ∨ d_app_id x = Some "") ∧
        (sv_instance s = true → cur ≠ "" → EqualFold cur (d_name x) = false) ∧
        domains (ds_db st') = del (is_dom id) (domains (ds_db st)) ∧
        (∀ h, apart h (d_name x) → route_of (ds_caddy st') h = route_of (ds_caddy st) h)
    | inl e => ds_db st' = ds_db st ∧ (e = ErrInUseByApp ∨ e = ErrInUseByInstance → st' = st)
    end).
  enough (HW : wp (Delete s cur id) Q st).
  { specialize (HW fs). by destruct (Delete _ _ _ _ _) as [[st' fs'] [e|u]]. }
  apply wp_bind, wp_get; [by split|]. intros x Hx.
  destruct (match d_app_id x with Some _ => _ | None => _ end) eqn:Happ; [by apply wp_throw|].
  destruct (sv_instance s && _ && _) eqn:Hi; [by apply wp_throw|].
  apply sel_Some in Hx as [Hx Hid]. unfold is_dom in Hid. bool_simp.
  apply wp_bind. apply (wp_mono _ (λ st' r, r = inr tt ∧ ds_db st' = ds_db st ∧
    ∀ h, apart h (d_name x) → route_of (ds_caddy st') h = route_of (ds_caddy st) h)).
  { unfold when. destruct (sv_caddy s); [|by apply wp_ret]. apply wp_bind, wp_caddy_call, wp_ret.
    split_and!; [done..|]. intros h Hh. by apply remove_other. }
  intros st' r (-> & Hdb & Hr). apply wp_bind, wp_fallible; [split; [done|naive_solver]|].
  destruct (_ =? 0)%nat eqn:En.
  { apply Nat.eqb_eq in En. simpl in En. rewrite Hdb in En.
    pose proof (proj1 (cnt_0 _ _) En x Hx) as E. unfold is_dom in E. bool_simp. done. }
  apply wp_ret. exists x. split_and!; [done|done| | |by simpl; rewrite Hdb|done].
  - destruct (d_app_id x) as [a|]; [|by left]. right. bool_simp. congruence.
  - intros Hs Hc. apply String.eqb_neq in Hc. by rewrite Hs, Hc in Hi.
Qed.
End Effects.

(** *** Updating a domain *)

Definition new_app (inp : UpdateInput) (x : Domain) : option string :=
  if ui_ClearAppID inp then None
  else match ui_AppID inp with
       | None => d_app_id x
       | Some a => if TrimSpace a =s "" then None else Some (TrimSpace a)
       end.
Definition new_primary (inp : UpdateInput) (x : Domain) : bool :=
  match new_app inp x with
  | None => false
  | Some _ => match ui_IsPrimary inp with Some b => b | None => d_is_primary x end
  end.
Definition new_service (inp : UpdateInput) (x : Domain) : option string * option Z :=
  if ui_ClearService inp then (None, None)
  else match ui_Service inp, ui_Port inp with None, None => (d_service x, d_port x) | svc, p => (svc, p) end.

(** The table after an update of the row [x]. *)
Definition updated (inp : UpdateInput) (x : Domain) (t : list Domain) : list Domain :=
  upd (is_dom (d_id x)) (λ y,
      with_force (match ui_ForceHTTPS inp with None => d_force_https y | Some f => f end)
        (with_service (new_service inp x).1 (new_service inp x).2
           (with_binding (new_app inp x) (new_primary inp x) y)))
    (demoted (new_app inp x) (new_primary inp x) t).

Section UpdateSpec.
Context {C : Type} `{CC : CaddyClient C} `{RL : !RouteLaws C} `{U : Unicode}.
Implicit Types (st : DomState C).

Lemma wp_app_exists a (Q : DomState C → DomErr + bool → Prop) st :
  (∀ e, Q st (inl e)) → Q st (inr (List.existsb (is_app a) (apps (ds_db st)))) → wp (appExistsTx a) Q st.
Proof.
  intros He Hr. apply wp_bind, wp_query; [apply He|]. apply wp_ret.
  replace (0 <? cnt (is_app a) (apps (ds_db st)))%nat with (List.existsb (is_app a) (apps (ds_db st))); [done|].
  destruct (List.existsb _ _) eqn:E; symmetry.
  - apply existsb_witness in E as (r & Hr' & Hp). apply Nat.ltb_lt. by eapply cnt_pos.
  - apply Nat.ltb_ge. rewrite (proj2 (cnt_0 (is_app a) _)); [done|].
    intros r Hin. by apply (existsb_false_elem _ _ _ E).
Qed.

(** Two updates of the same row. *)
Lemma upd_db_upd id f g st : (∀ x, d_id (g x) = d_id x) →
  set_db (on_domains (upd (is_dom id) f) (ds_db (set_db (on_domains (upd (is_dom id) g) (ds_db st)) st)))
    (set_db (on_domains (upd (is_dom id) g) (ds_db st)) st)
  = set_db (on_domains (upd (is_dom id) (λ x, f (g x))) (ds_db st)) st.
Proof.
  intros Hg. unfold set_db, on_domains. simpl. rewrite upd_upd; [done|].
  intros x. unfold is_dom. by rewrite Hg.
Qed.

Lemma update_tx_wp x inp (Q : DomState C → DomErr + (option string * option string * option Z * bool * bool * bool) → Prop) st :
  NoDup (d_id <$> domains (ds_db st)) → x ∈ domains (ds_db st) →
  (∀ e st', Q st' (inl e)) →
  (∀ c1 c2 f,
   Q (set_db (on_domains (updated inp x) (ds_db st)) st)
     (inr (new_app inp x, (new_service inp x).1, (new_service inp x).2, c1, f, c2))) →
  wp (update_tx (d_id x) x inp) Q st.
Proof.
  intros Hnd Hx He Hok. unfold update_tx. apply wp_bind.
  apply (wp_mono _ (λ st' r, st' = st ∧ ∀ a, r = inr a → a = new_app inp x)).
  { unfold new_app. destruct (ui_ClearAppID inp); [by apply wp_ret; split; [|intros; simplify_eq]|].
    destruct (ui_AppID inp) as [a|]; [|by apply wp_ret; split; [|intros; simplify_eq]]. cbv zeta.
    destruct (TrimSpace a =s ""); [by apply wp_ret; split; [|intros; simplify_eq]|].
    apply wp_bind, wp_app_exists; [done|]. destruct (negb _); [by apply wp_throw|].
    by apply wp_ret; split; [|intros; simplify_eq]. }
  intros ? [e|app] [-> Ha]; [apply He|]. rewrite (Ha app eq_refl). clear app Ha. cbv zeta.
  fold (new_primary inp x). apply wp_bind.
  apply (wp_mono _ (λ st' r, r = inr tt →
    st' = set_db (on_domains (demoted (new_app inp x) (new_primary inp x)) (ds_db st)) st)).
  { destruct (new_app inp x); simpl; unfold when; [destruct (new_primary inp x)|];
      [by apply wp_exec|apply wp_ret; intros _; by destruct st as [[] ? ? ?]..]. }
  intros st1 [e|[]] Hst; [apply He|]. rewrite (Hst eq_refl). clear st1 Hst.
  apply wp_bind, wp_checked; [apply He|].
  match goal with |- context [if ?c then inl _ else _] => destruct c end; [apply He|].
  set (st0 := set_db _ st). set (b := with_binding _ _).
  replace (ui_ClearService inp) with (ui_ClearService inp) by done.
  set (sc := if ui_ClearService inp then true
             else match ui_Service inp, ui_Port inp with None, None => false | _, _ => true end).
  assert (Hsc : (if ui_ClearService inp then (None, None, true)
          else match ui_Service inp, ui_Port inp with
               | None, None => (d_service x, d_port x, false) | svc, p => (svc, p, true) end)
          = (new_service inp x, sc)).
  { unfold new_service, sc. destruct (ui_ClearService inp); [done|]. by destruct (ui_Service inp), (ui_Port inp). }
  rewrite Hsc. clear Hsc. destruct (new_service inp x) as [svc port] eqn:Es.
  (* the row that is updated is the one that was read *)
  assert (Hrow : ∀ y, y ∈ domains (ds_db st0) → is_dom (d_id x) y = true →
    d_service y = d_service x ∧ d_port y = d_port x ∧ d_force_https y = d_force_https x).
  { intros y Hy Hid. unfold is_dom in Hid. bool_simp.
    assert (∃ z, z ∈ domains (ds_db st) ∧ d_id z = d_id y ∧ d_service y = d_service z ∧ d_port y = d_port z
              ∧ d_force_https y = d_force_https z) as (z & Hz & Hzi & -> & -> & ->).
    { simpl in Hy. unfold demoted in Hy. destruct (new_app inp x); [|by exists y].
      destruct (new_primary inp x); [|by exists y].
      apply elem_of_upd in Hy as (z & Hz & ->). exists z. by destruct (primary_of _ z). }
    assert (z = x) as ->; [|done]. apply (NoDup_fmap_inj d_id _ _ _ Hnd Hz Hx). congruence. }
  apply wp_bind.
  apply (wp_mono _ (λ st' r, r = inr tt →
    st' = set_db (on_domains (upd (is_dom (d_id x)) (λ y, with_service svc port (b y))) (ds_db st0)) st0)).
  { unfold when. destruct sc eqn:E.
    - apply wp_exec; [done|]. intros _. by apply upd_db_upd.
    - apply wp_ret. intros _. unfold set_db, on_domains. simpl. do 2 f_equal. apply upd_ext.
      intros y Hy Hid. destruct (Hrow y Hy Hid) as (E1 & E2 & _).
      unfold new_service in Es. destruct (ui_ClearService inp); [done|].
      destruct (ui_Service inp), (ui_Port inp); try done. simplify_eq. rewrite <- E1, <- E2. by destruct y. }
  intros st1 [e|[]] Hst; [apply He|]. rewrite (Hst eq_refl). clear st1 Hst.
  specialize (Hok sc). simpl in Hok.
  unfold updated in Hok. rewrite Es in Hok. simpl in Hok.
  destruct (ui_ForceHTTPS inp) as [f|].
  - apply wp_bind, wp_exec; [apply He|]. apply wp_ret. rewrite upd_db_upd by done. apply Hok.
  - apply wp_ret. specialize (Hok false (d_force_https x)). revert Hok.
    match goal with |- Q ?s1 _ → Q ?s2 _ => enough (s1 = s2) as -> by done end.
    reflexivity.
Qed.

(** From a steady proxy and under every fault, [Update] writes nothing or exactly the requested
    binding, service route and redirect flag: the row stays, the old primary of
    the new app is demoted when the row becomes primary, a row without app is
    never primary, a new app exists, and no host the proxy tells apart from it is
    rerouted. *)
Theorem update_spec (s : Service) (id : string) (inp : UpdateInput) st fs :
  NoDup (d_id <$> domains (ds_db st)) → steady (ds_caddy st) →
  match Update s id inp st fs with
  | (st', _, r) =>
    (st' = st ∧ (∃ e, r = inl e)) ∨
    ∃ x, x ∈ domains (ds_db st) ∧ d_id x = id ∧
      domains (ds_db st') = updated inp x (domains (ds_db st)) ∧
      (∀ h, apart h (d_name x) → route_of (ds_caddy st') h = route_of (ds_caddy st) h) ∧
      (∀ d, r = inr d → d ∈ domains (ds_db st') ∧ d_id d = id ∧ d_app_id d = new_app inp x ∧
         d_is_primary d = new_primary inp x ∧ (d_is_primary d = true → d_app_id d ≠ None))
  end.
Proof.
  intros Hnd Hsd.
  pose (Q := λ (st' : DomState C) (r : DomErr + Domain),
    (st' = st ∧ (∃ e, r = inl e)) ∨
    ∃ x, x ∈ domains (ds_db st) ∧ d_id x = id ∧
      domains (ds_db st') = updated inp x (domains (ds_db st)) ∧
      (∀ h, apart h (d_name x) → route_of (ds_caddy st') h = route_of (ds_caddy st) h) ∧
      (∀ d, r = inr d → d ∈ domains (ds_db st') ∧ d_id d = id ∧ d_app_id d = new_app inp x ∧
         d_is_primary d = new_primary inp x ∧ (d_is_primary d = true → d_app_id d ≠ None))).
  enough (HW : wp (Update s id inp) Q st).
  { specialize (HW fs). by destruct (Update _ _ _ _ _) as [[st' fs'] r]. }
  apply wp_bind, wp_get; [by left; eauto|]. intros x [Hx Hid]%sel_Some. unfold is_dom in Hid. bool_simp. subst id.
  assert (Hfail : ∀ e, Q st (inl e)) by (left; eauto).
  apply wp_bind, wp_tx; [done|]. apply update_tx_wp; [done|done|done|]. intros c1 c2 f. split; [done|].
  set (st1 := set_db _ st). set (svc := (new_service inp x).1). set (port := (new_service inp x).2). clearbody svc port.
  apply wp_bind. apply (wp_mono _ (λ st' _, ds_db st' = ds_db st1 ∧
    ∀ h, apart h (d_name x) → route_of (ds_caddy st') h = route_of (ds_caddy st) h)).
  { unfold when. destruct (_ && _); [|by apply wp_ret].
    apply wp_bind, wp_attempt. apply (wp_mono _ (λ st' _, st' = st1)).
    - unfold resolveUpstreamFor, appName, appPort, dquery. by wp_go.
    - intros ? [e|[up p]] ->; [by apply wp_ret|]. apply wp_bind, wp_caddy_call, wp_ret. split; [done|].
      intros h Hh. by apply upsert_other. }
  intros st2 r [Hdb Hr]. destruct r as [e|[]]; [right|]; [|apply wp_get].
  - exists x. by rewrite Hdb.
  - intros e. right. exists x. by rewrite Hdb.
  - intros d [Hd Hdi]%sel_Some. right. exists x. split_and!; [done|done|by rewrite Hdb|done|].
    intros ? [= <-]. split; [done|]. rewrite Hdb in Hd. unfold st1 in Hd. simpl in Hd.
    unfold updated in Hd. apply elem_of_upd in Hd as (y & Hy & ->).
    destruct (is_dom (d_id x) y) eqn:E; [|congruence]. simpl.
    unfold is_dom in Hdi. simpl in Hdi. bool_simp. split_and!; [done..|].
    unfold new_primary. by destruct (new_app inp x).
Qed.
End UpdateSpec.

(** ** DNS checks, certificates, ports *)

(** What one check makes of the row. *)
Definition refreshed (s : Service) (zone : string → option Zone) (d y : Domain) : Domain :=
  match sv_zones s, d_zone_id d with
  | true, Some zid =>
    match zone zid with
    | Some z => if Bool.eqb (z_WildcardVerified z) (d_covered_by_wildcard d) then y
                else with_covered (z_WildcardVerified z) y
    | None => y
    end
  | _, _ => y
  end.
Definition resolves (lookup : string → option (list string)) (ip : string) (d : Domain) : bool :=
  match lookup (d_name d) with None => false | Some addrs => containsAddr addrs ip end.
Definition checked_row (ok : bool) (now : Z) (y : Domain) : Domain :=
  if ok then with_status "issuing" (d_ssl_expires_at y) true (Some now) (Some now) (d_dns_check_count y) y
  else with_status (if maxDNSCheckCount <=? d_dns_check_count y + 1 then "failed" else d_ssl_status y)%Z
         (d_ssl_expires_at y) (d_dns_verified y) (d_dns_verified_at y) (Some now) (d_dns_check_count y + 1) y.

Section Checks.
Context {C : Type} `{CC : CaddyClient C} `{U : Unicode}.
Implicit Types (st : DomState C).

Lemma get_run id st :
  get id st [] = (st, [], match sel (is_dom id) (domains (ds_db st)) with Some x => inr x | None => inl ErrNotFound end).
Proof.
  unfold get, mbind, M_bind, bind, dquery, query, fallible. simpl.
  by destruct (sel _ _).
Qed.

(** A check without storage faults writes the row of the domain only: it
    becomes [issuing] and verified exactly when the resolver returns the
    expected address; otherwise its counter grows and at the 96th failure it
    is [failed]. *)
Theorem dns_check_spec (s : Service) zone lookup now d ip st :
  NoDup (d_id <$> domains (ds_db st)) → d ∈ domains (ds_db st) →
  match run (runDNSCheckOnce s zone lookup now d ip) st with
  | (st', r) =>
    r = inr tt ∧
    domains (ds_db st')
    = upd (is_dom (d_id d)) (λ y, checked_row (resolves lookup ip d) now (refreshed s zone d y)) (domains (ds_db st))
  end.
Proof.
  intros Hnd Hd. unfold runDNSCheckOnce, mbind, M_bind.
  assert (Hr : ∃ st1, refreshWildcardCoverage s zone d st [] = (st1, [], inr tt) ∧
            domains (ds_db st1) = upd (is_dom (d_id d)) (refreshed s zone d) (domains (ds_db st))).
  { assert (E : domains (ds_db st) = upd (is_dom (d_id d)) (λ y, y) (domains (ds_db st))).
    { symmetry. rewrite <- (List.map_id (domains (ds_db st))) at 2. apply List.map_ext. intros y. by destruct (is_dom _ y). }
    unfold refreshWildcardCoverage, refreshed. destruct (sv_zones s); [|by exists st].
    destruct (d_zone_id d) as [zid|]; [|by exists st]. destruct (zone zid) as [z|]; [|by exists st].
    unfold when. destruct (Bool.eqb _ _); simpl; by eexists. }
  destruct Hr as (st1 & E1 & Ed). erewrite run_bind by exact E1. clear E1.
  assert (Hres : match lookup (d_name d) with None => true | Some addrs => negb (containsAddr addrs ip) end
                 = negb (resolves lookup ip d)).
  { unfold resolves. by destruct (lookup (d_name d)). }
  rewrite Hres. clear Hres.
  assert (Hkey : ∀ y, d_id (refreshed s zone d y) = d_id y).
  { intros y. unfold refreshed. by repeat case_match. }
  set (g := refreshed s zone d) in *.
  assert (Hg : ∀ y, is_dom (d_id d) (g y) = is_dom (d_id d) y) by (intros; unfold is_dom; by rewrite Hkey).
  destruct (resolves lookup ip d); simpl.
  - unfold run, mbind, M_bind, bind. simpl. unfold when, caddy_call. destruct (sv_caddy s); simpl.
    + destruct (EnableTLS _ _) as [c []]; simpl; by rewrite Ed, upd_upd.
    + by rewrite Ed, upd_upd.
  - unfold run, mbind, M_bind, bind, attempt, bumpDNSFailure, dupdate, exec, fallible. simpl.
    rewrite get_run. simpl. rewrite Ed, upd_upd by done.
    set (bump := λ y, with_status _ _ _ _ _ _ (g y)).
    erewrite (sel_key d_id _ _ (bump d)); simpl.
    + change (d_dns_check_count (g d) + 1)%Z with (d_dns_check_count (bump d)).
      assert (Hone : ∀ y, y ∈ domains (ds_db st) → is_dom (d_id d) y = true → y = d).
      { intros y Hy Hid. unfold is_dom in Hid. bool_simp. by apply (NoDup_fmap_inj d_id (domains (ds_db st))). }
      unfold when. destruct (_ <=? _)%Z eqn:Ec; simpl.
      * split; [done|]. rewrite upd_upd, Ed, upd_upd by done.
        apply upd_ext. intros y Hy Hid. rewrite (Hone y Hy Hid). unfold checked_row. simpl in Ec. by rewrite Ec.
      * split; [done|]. rewrite Ed, upd_upd by done.
        apply upd_ext. intros y Hy Hid. rewrite (Hone y Hy Hid). unfold checked_row. simpl in Ec. by rewrite Ec.
    + intros r. unfold is_dom. simpl. rewrite Hkey. apply String.eqb_eq.
    + unfold fmap, list_fmap. by setoid_rewrite map_upd.
    + apply elem_of_upd. exists d. split; [done|]. unfold is_dom. by rewrite String.eqb_refl.
Qed.

(** A run of failed handshakes of one listed domain, at the given times. *)
Definition ssl_failures (d : Domain) (times : list Z) : domM (C := C) unit :=
  each (λ t, recordSSLFailure t d) times.

(** The failure counter after a run of failures: their number and the first time. *)
Definition tracked (past : list Z) : option (Z * Z) :=
  match past with [] => None | t :: _ => Some (Z.of_nat (length past), t) end.

(** Failures enough to give up. *)
Definition enough_failures (times : list Z) : Prop :=
  3 ≤ length times ∧ ∃ t t', t ∈ times ∧ t' ∈ times ∧ (600 <= t' - t)%Z.

Lemma tracked_snoc past t :
  tracked (past ++ [t])
  = Some (match tracked past with Some p => (p.1 + 1, p.2) | None => (0 + 1, t) end)%Z.
Proof. destruct past; simpl; [done|]. rewrite length_app. simpl. do 2 f_equal. lia. Qed.

Lemma record_tracked now id past st fs :
  ds_failures st !! id = tracked past →
  record now id st fs
  = (set_failures (<[id := match tracked past with Some p => (p.1 + 1, p.2) | None => (0 + 1, now) end%Z]>
       (ds_failures st)) st, fs,
     inr match tracked past with Some p => (p.1 + 1, now - p.2) | None => (0 + 1, now - now) end%Z).
Proof. intros E. unfold record. rewrite E. by destruct (tracked past) as [[]|]. Qed.

Lemma threshold_enough past now attempts elapsed :
  match tracked past with Some p => (p.1 + 1, now - p.2) | None => (0 + 1, now - now) end%Z = (attempts, elapsed) →
  ((sslIssuingMaxAttempts <=? attempts) && (sslIssuingFailDuration <=? elapsed))%Z = true →
  enough_failures (past ++ [now]).
Proof.
  unfold sslIssuingMaxAttempts, sslIssuingFailDuration. destruct past as [|t0 past]; intros E Hc; simpl in E;
    simplify_eq; bool_simp. split; [simpl; rewrite length_app; simpl; lia|].
  exists t0, now. split_and!; [set_solver|set_solver|lia].
Qed.

Lemma ssl_failures_bound d times past st fs :
  ds_failures st !! d_id d = tracked past →
  ds_db (ssl_failures d times st fs).1.1 = ds_db st ∨ enough_failures (past ++ times).
Proof.
  revert past st fs. induction times as [|t times IH]; intros past st fs Ht; [by left|].
  unfold ssl_failures. simpl. unfold bind at 1. unfold recordSSLFailure, mbind, M_bind, bind at 1.
  rewrite (record_tracked _ _ past) by done.
  destruct (match tracked past with Some p => (p.1 + 1, t - p.2) | None => (0 + 1, t - t) end)%Z as [attempts elapsed] eqn:E.
  set (st1 := set_failures _ st).
  assert (Ht1 : ds_failures st1 !! d_id d = tracked (past ++ [t])).
  { rewrite tracked_snoc. unfold st1. simpl. by rewrite lookup_insert_eq. }
  replace (past ++ t :: times) with ((past ++ [t]) ++ times) by by rewrite <- app_assoc.
  pose proof (IH _ st1 fs Ht1) as G.
  destruct (negb _) eqn:Hneg; [revert G; unfold ssl_failures, recordSSLFailure; by rewrite Hneg|].
  destruct (_ && _) eqn:Hc; [|revert G; unfold ssl_failures, recordSSLFailure; by rewrite Hneg].
  right. destruct (threshold_enough past t _ _ E Hc) as [Hn (a & b & Ha & Hb & ?)]. split.
  - rewrite length_app. lia.
  - exists a, b. split_and!; [set_solver|set_solver|done].
Qed.

(** Whatever fails, a run of failed handshakes leaves the table alone
    unless it has at least three of them, over at least ten minutes; and
    without faults, three failures of a domain being issued over ten minutes
    mark it [failed]. *)
Theorem ssl_grace_period (d : Domain) (times : list Z) st :
  ds_failures st !! d_id d = None →
  (∀ fs, ds_db (ssl_failures d times st fs).1.1 = ds_db st ∨
     3 ≤ length times ∧ ∃ t t', t ∈ times ∧ t' ∈ times ∧ (600 <= t' - t)%Z) ∧
  (∀ t0 t1 t2, times = [t0; t1; t2] → d_ssl_status d = "issuing" → (600 <= t2 - t0)%Z → (t1 < t0 + 600)%Z →
     domains (ds_db (run (ssl_failures d times) st).1)
     = upd (is_dom (d_id d)) (λ y, with_status "failed" (d_ssl_expires_at y) (d_dns_verified y)
         (d_dns_verified_at y) (d_dns_last_check y) (d_dns_check_count y) y) (domains (ds_db st))).
Proof.
  intros Hn. split.
  - intros fs. by apply (ssl_failures_bound d times []).
  - intros t0 t1 t2 -> Hs Hlo Hhi. unfold ssl_failures. simpl.
    unfold run, bind at 1, recordSSLFailure, mbind, M_bind, bind at 1.
    rewrite (record_tracked _ _ []) by done. rewrite Hs. simpl.
    unfold bind at 1. unfold bind at 1. rewrite (record_tracked _ _ [t0]) by (simpl; by rewrite lookup_insert_eq).
    simpl. unfold bind at 1. unfold bind at 1.
    rewrite (record_tracked _ _ [t0; t1]) by (simpl; by rewrite lookup_insert_eq). simpl.
    unfold sslIssuingFailDuration, sslIssuingMaxAttempts. simpl.
    destruct (_ <=? t2 - t0)%Z eqn:E; bool_simp; [done|lia].
Qed.
End Checks.

(** *** Host ports *)

Lemma scan_ports_spec free n port stop tried :
  (0 <= tried)%Z → (51 <= Z.of_nat n + tried)%Z → (tried <= 50)%Z →
  match scan_ports free n port stop tried with
  | inr p => (port <= p < Z.min stop (port + (50 - tried)))%Z ∧ free p = true ∧
             (∀ q, port <= q < p → free q = false)%Z
  | inl _ => ∀ q, (port <= q < Z.min stop (port + (50 - tried)))%Z → free q = false
  end.
Proof.
  revert port tried. induction n as [|n IH]; intros port tried Ht Hn Hm; [lia|]. simpl.
  destruct (_ && _) eqn:E.
  - bool_simp. destruct (free port) eqn:Ef; [split_and!; [lia|lia|done|intros; lia]|].
    specialize (IH (port + 1)%Z (tried + 1)%Z). destruct (scan_ports _ _ _ _ _) as [e|p].
    + intros q Hq. destruct (Z.eq_dec q port) as [->|]; [done|]. apply IH; lia.
    + destruct IH as ([? ?] & Hf & Hq); [lia..|]. split_and!; [lia|lia|done|].
      intros q ?. destruct (Z.eq_dec q port) as [->|]; [done|]. apply Hq. lia.
  - apply andb_false_iff in E. intros q Hq. destruct E; bool_simp; lia.
Qed.

(** The port chosen for a container is the first free one of the first
    fifty of the range, and the search fails only when none of them is free or
    the range is empty. *)
Theorem find_port_spec (free : Z → bool) (start stop : Z) :
  match FindAvailablePort free start stop with
  | inr p => (0 < start <= p ∧ p < Z.min stop (start + 50))%Z ∧ free p = true ∧
             (∀ q, start <= q < p → free q = false)%Z
  | inl e => e = ErrNoPort ∧
             ((start <= 0 ∨ stop <= start)%Z ∨ ∀ q, (start <= q < Z.min stop (start + 50))%Z → free q = false)
  end.
Proof.
  unfold FindAvailablePort. destruct (_ || _) eqn:E.
  { split; [done|]. left. apply orb_true_iff in E as [?|?]; bool_simp; auto. }
  bool_simp. pose proof (scan_ports_spec free 51 start stop 0) as Hs.
  destruct (scan_ports _ _ _ _ _) as [e|p] eqn:Es.
  - split; [|right; intros; apply Hs; lia]. revert Es. clear. generalize 51%nat 0%Z start.
    intros n. induction n as [|n IH]; intros t p; simpl; [by intros [= ->]|].
    destruct (_ && _); [|by intros [= ->]]. destruct (free p); [done|apply IH].
  - destruct Hs as ([? ?] & Hf & Hq); [lia..|]. split_and!; [lia|lia|lia|done|done].
Qed.

(** ** Witnesses *)

Definition w_svc : Service := mkService true true true true.
Definition w_app (id name : string) : App :=
  bare_app id name None None false.
Definition w_dom (id name status : string) (verified : bool) : Domain :=
  mkDomain id name (Some "a") true status None verified None None 0 None false None None true 0.
Definition w_state : DomState (gmap string Route) :=
  mkDomState (on_domains (λ _, [w_dom "d0" "www.example.com" "issuing" true])
    (on_apps (λ _, [w_app "a" "web"]) empty_db)) ∅ [] ∅.

Lemma w_state_wf : dom_wf (ds_db w_state).
Proof.
  assert (E : ∀ x, x ∈ domains (ds_db w_state) → x = w_dom "d0" "www.example.com" "issuing" true) by (intros x; simpl; set_solver).
  constructor.
  - apply NoDup_singleton.
  - apply NoDup_singleton.
  - intros x ->%E. split_and!; [reflexivity|set_solver|done].
  - intros x a ->%E [= <-]. reflexivity.
  - intros a. unfold cnt. simpl. destruct (primary_of a _); simpl; lia.
Defined.

(** A second domain becomes the primary one, is verified and gets its
    certificate, while faults hit the rest of the history. *)
Definition w_history : list (DomCall * list bool) :=
  let inp := mkCreateInput "https://Shop.example.com/" (Some "a") true None in
  [(CallCreate (λ _, false) (λ _, Some None) "d1" 5 inp, []);
   (CallVerify (λ _, None) (λ _, Some ["10.0.0.1"]) (Some "10.0.0.1") 6 "d1", []);
   (CallSSLPass "letsencrypt" (λ _, Some (mkCert "Let's Encrypt R3" false 900)) 7, [false; true]);
   (CallUpdate "d0" (mkUpdateInput None false (Some true) None None false None), [false; true]);
   (CallDelete "" "d1", [true])].

Lemma domains_invariant_witness :
  dom_wf (ds_db w_state) ∧
  dom_wf (ds_db (dom_history (H0 := ascii_only) w_svc w_history w_state)) ∧
  (List.map (λ d, (d_name d, d_is_primary d, d_ssl_status d))
     (domains (ds_db (dom_history (H0 := ascii_only) w_svc w_history w_state)))
   = [("www.example.com", false, "issuing"); ("shop.example.com", true, "active")]).
Proof.
  split; [exact w_state_wf|]. split; [|vm_compute; reflexivity].
  apply (domains_invariant w_svc w_history w_state w_state_wf).
Defined.

Lemma active_after_issuing_witness :
  ∃ y, y ∈ domains (ds_db w_state) ∧ d_id y = "d0" ∧ d_dns_verified y = true ∧
    (d_ssl_status y = "issuing" ∨ d_ssl_status y = "active").
Proof.
  apply (active_after_issuing (U := ascii_only) w_svc (CallSSLPass "self-signed" (λ _, None) 7) w_state []
    (with_status "active" (Some 7776007%Z) true None None 0 (w_dom "d0" "www.example.com" "issuing" true)) w_state_wf).
  - left.
  - reflexivity.
Defined.

Lemma update_spec_witness :
  let inp := mkUpdateInput None true None None None false None in
  ∃ x, x ∈ domains (ds_db w_state) ∧ d_id x = "d0" ∧
    domains (ds_db (Update w_svc "d0" inp w_state []).1.1) = updated inp x (domains (ds_db w_state)).
Proof.
  intros inp. pose proof (update_spec w_svc "d0" inp w_state [] (wf_ids _ w_state_wf) I) as H.
  assert (Hr : match (Update w_svc "d0" inp w_state []).2 with inr _ => true | inl _ => false end = true)
    by (vm_compute; reflexivity).
  destruct (Update _ _ _ _ _) as [[st' fs'] r].
  destruct H as [[_ [e ->]]|(x & Hx & Hid & Ht & _)]; [discriminate Hr|]. by exists x.
Defined.

Lemma dns_check_spec_witness :
  let d := w_dom "d0" "www.example.com" "issuing" true in
  domains (ds_db (run (runDNSCheckOnce (C := gmap string Route) w_svc (λ _, None) (λ _, None) 9 d "10.0.0.1") w_state).1)
  = [checked_row false 9 d].
Proof.
  intros d.
  pose proof (dns_check_spec w_svc (λ _, None) (λ _, None) 9 d "10.0.0.1" w_state (wf_ids _ w_state_wf)) as H.
  destruct (run _ _) as [st' r]. destruct H as [_ H]; [left|]. simpl. rewrite H. reflexivity.
Defined.

Lemma ssl_grace_period_witness :
  let d := w_dom "d0" "www.example.com" "issuing" true in
  List.map d_ssl_status (domains (ds_db (run (ssl_failures d [0; 300; 600]%Z) w_state).1)) = ["failed"].
Proof.
  intros d. destruct (ssl_grace_period d [0; 300; 600]%Z w_state eq_refl) as [_ H].
  rewrite (H 0%Z 300%Z 600%Z) by (done || lia). reflexivity.
Defined.
