(* ===== verification/Zones.v ===== *)
(** * DNS zones (internal/dnszone)

    The registrable names an operator controls: extraction of the apex, the
    table [dns_zones], and the verification of the apex and wildcard records.
    The public suffix list and the parser of IP addresses are operations of a
    class; the resolver is an argument.  [updated_at] is not kept: no query reads
    it but to show it. *)

From S2P Require Import Prelude Effects GoStrings Schema Domains.

Class PublicSuffix := {
  (** [publicsuffix.EffectiveTLDPlusOne]. *)
  EffectiveTLDPlusOne : string → option string;
  (** [net.ParseIP(s) != nil]. *)
  is_ip : string → bool;
}.

Inductive ZoneErr :=
  | ErrZoneNotFound
  | ErrInvalidApex
  | ErrInternalName
  | ErrZoneDb (where_ : string).

(** [Zone]: the row as the API shows it. *)
Record ZoneView := mkZoneView {
  zv_ID : string; zv_Apex : string; zv_TargetIP : string;
  zv_ApexVerified : bool; zv_ApexVerifiedAt : option Z; zv_ApexLastCheck : option Z;
  zv_WildcardVerified : bool; zv_WildcardVerifiedAt : option Z; zv_WildcardLastCheck : option Z;
  zv_Notes : string; zv_CreatedAt : Z; zv_SubdomainCount : nat;
}.

Local Abbreviation zM := (M Db ZoneErr).

Definition zone_is (id : string) (z : DnsZone) : bool := dz_id z =s id.
Definition apex_is (apex : string) (z : DnsZone) : bool := dz_apex z =s apex.
Definition in_zone (id : string) (d : Domain) : bool := bool_decide (d_zone_id d = Some id).

(** ** Apex extraction *)

Section Apex.
Context `{Uc : Unicode} `{Ps : PublicSuffix}.

Definition canonical_name (fqdn : string) : string := TrimSuffix (TrimSpace (ToLower fqdn)) ".".

Definition ApexOf (fqdn : string) : ZoneErr + string :=
  let clean := canonical_name fqdn in
  if clean =s "" then inl ErrInvalidApex
  else if is_ip clean then inl ErrInternalName
  else if negb (Contains clean ".") then inl ErrInternalName
  else match EffectiveTLDPlusOne clean with None => inl ErrInvalidApex | Some r => inr r end.

Definition IsApex (fqdn : string) : bool :=
  match ApexOf fqdn with inl _ => false | inr apex => EqualFold (TrimSuffix (TrimSpace fqdn) ".") apex end.
End Apex.

(** ** The table *)

(** [scan]. *)
Definition scan (n : nat) (z : DnsZone) : ZoneView :=
  mkZoneView (dz_id z) (dz_apex z) (default "" (dz_target_ip z)) (dz_apex_verified z) (dz_apex_verified_at z)
    (dz_apex_last_check z) (dz_wildcard_verified z) (dz_wildcard_verified_at z) (dz_wildcard_last_check z)
    (default "" (dz_notes z)) (dz_created_at z) n.
Definition view (d : Db) (z : DnsZone) : ZoneView := scan (cnt (in_zone (dz_id z)) (domains d)) z.

Definition scanOne (where_ : DnsZone → bool) : zM ZoneView :=
  row ← query (ErrZoneDb "select") (λ d, view d <$> sel where_ (dns_zones d));
  match row with None => throw ErrZoneNotFound | Some z => mret z end.

Definition Get (id : string) : zM ZoneView := scanOne (zone_is id).

Definition clear_zone (d : Domain) : Domain :=
  mkDomain (d_id d) (d_name d) (d_app_id d) (d_is_primary d) (d_ssl_status d) (d_ssl_expires_at d) (d_dns_verified d)
    (d_dns_verified_at d) (d_dns_last_check d) (d_dns_check_count d) None
    (d_covered_by_wildcard d) (d_service d) (d_port d) (d_force_https d) (d_created_at d).

Section Service.
Context `{Uc : Unicode} `{Ps : PublicSuffix}.

Definition GetByApex (apex : string) : zM ZoneView := scanOne (apex_is (ToLower apex)).

Definition ApexRegistered (apex : string) : zM bool :=
  n ← query (ErrZoneDb "count") (λ d, cnt (apex_is (ToLower (TrimSpace apex))) (dns_zones d)); mret (0 <? n)%nat.

(** [id]: the new UUID; [now]: [unixepoch()]. PRIMARY KEY and UNIQUE (apex). *)
Definition create (id : string) (now : Z) (apex : string) : zM ZoneView :=
  _ ← checked (ErrZoneDb "insert") (λ d,
        if List.existsb (λ z, zone_is id z || apex_is apex z) (dns_zones d) then inl (ErrZoneDb "insert")
        else inr (on_dns_zones (λ l, l ++ [mkDnsZone id apex None false None None false None None None now]) d, tt));
  Get id.

(** The zone of the apex, created when there is none. *)
Definition find_or_create (id : string) (now : Z) (apex : string) : zM ZoneView :=
  r ← attempt (GetByApex apex);
  match r with
  | inr z => mret z
  | inl ErrZoneNotFound => create id now apex
  | inl e => throw e
  end.

Definition EnsureForFQDN (id : string) (now : Z) (fqdn : string) : zM ZoneView :=
  apex ← of_result (ApexOf fqdn); find_or_create id now apex.

(** A name without registrable part is tried once more as a parent. *)
Definition Create (id : string) (now : Z) (apex : string) : zM ZoneView :=
  cleaned ← of_result (match ApexOf apex with
    | inr c => inr c
    | inl e => match ApexOf ("x." ^^ apex) with inl _ => inl e | inr c => inr c end
    end);
  find_or_create id now cleaned.
End Service.

Definition apex_le (x y : ZoneView) : bool := String.leb (zv_Apex x) (zv_Apex y).
Definition List_ : zM (list ZoneView) := query (ErrZoneDb "list") (λ d, sort_by apex_le (view d <$> dns_zones d)).

Definition set_notes (notes : string) (z : DnsZone) : DnsZone :=
  mkDnsZone (dz_id z) (dz_apex z) (dz_target_ip z) (dz_apex_verified z) (dz_apex_verified_at z) (dz_apex_last_check z)
    (dz_wildcard_verified z) (dz_wildcard_verified_at z) (dz_wildcard_last_check z) (Some notes) (dz_created_at z).
Definition UpdateNotes (id notes : string) : zM unit :=
  n ← fallible (ErrZoneDb "notes") (λ d, (on_dns_zones (upd (zone_is id) (set_notes notes)) d, cnt (zone_is id) (dns_zones d)));
  if (n =? 0)%nat then throw ErrZoneNotFound else mret tt.

(** ON DELETE SET NULL on [domains]. *)
Definition Delete (id : string) : zM unit :=
  n ← fallible (ErrZoneDb "delete") (λ d,
        (if List.existsb (zone_is id) (dns_zones d)
         then on_domains (upd (in_zone id) clear_zone) (on_dns_zones (del (zone_is id)) d) else d,
         cnt (zone_is id) (dns_zones d)));
  if (n =? 0)%nat then throw ErrZoneNotFound else mret tt.

(** ** Verification *)

Record ProbeResult := mkProbe {
  pr_OK : bool; pr_ResolvedTo : list string; pr_Expected : string; pr_Probed : string; pr_Error : string;
}.
Record VerificationResult := mkVerification { vr_Apex : ProbeResult; vr_Wildcard : ProbeResult; vr_Hostname : option ProbeResult }.

(** An answer of the resolver: addresses, "no such host", or another error. *)
Inductive Answer := Found (addrs : list string) | NotFound | Failed (e : string).

Definition containsAddr (addrs : list string) (want : string) : bool := List.existsb (λ a, a =s want) addrs.

(** [probeApex] and [probeHostname]. *)
Definition probeHostname (lookup : string → Answer) (fqdn expectedIP : string) : ProbeResult :=
  match lookup fqdn with
  | Found addrs => mkProbe (negb (expectedIP =s "") && containsAddr addrs expectedIP) addrs expectedIP fqdn ""
  | NotFound => mkProbe false [] expectedIP fqdn ""
  | Failed e => mkProbe false [] expectedIP fqdn e
  end.
Definition probeApex := probeHostname.

Definition randomLabel (rand : string) : string := "prxprobe-" ^^ EncodeHex rand.
Definition probeWildcard (lookup : string → Answer) (rand apex expectedIP : string) : ProbeResult :=
  let probe := randomLabel rand ^^ "." ^^ apex in
  match lookup probe with
  | Found addrs =>
    mkProbe (if expectedIP =s "" then negb (is_nil addrs) else containsAddr addrs expectedIP) addrs expectedIP probe ""
  | NotFound => mkProbe false [] expectedIP probe ""
  | Failed e => mkProbe false [] expectedIP probe e
  end.

(** The row after a verification. *)
Definition verified_zone (expectedIP : string) (apexOK wildOK : bool) (now : Z) (z : DnsZone) : DnsZone :=
  mkDnsZone (dz_id z) (dz_apex z) (if expectedIP =s "" then dz_target_ip z else Some expectedIP)
    apexOK (if apexOK then Some now else dz_apex_verified_at z) (Some now)
    wildOK (if wildOK then Some now else dz_wildcard_verified_at z) (Some now) (dz_notes z) (dz_created_at z).

Definition Verify `{Uc : Unicode} (lookup : string → Answer) (rand : string) (now : Z) (zoneID expectedIP hostname : string) : zM VerificationResult :=
  z ← Get zoneID;
  let apex := probeApex lookup (zv_Apex z) expectedIP in
  let wild := probeWildcard lookup rand (zv_Apex z) expectedIP in
  let host := if hostname =s "" then None
              else Some (probeHostname lookup (TrimSuffix (ToLower (TrimSpace hostname)) ".") expectedIP) in
  _ ← exec (ErrZoneDb "persist verify") (on_dns_zones (upd (zone_is zoneID) (verified_zone expectedIP (pr_OK apex) (pr_OK wild) now)));
  mret (mkVerification apex wild host).

(** One tick of [Loop]: the zones as listed, each with its random label and its
    moment. *)
Fixpoint verify_all `{Uc : Unicode} (lookup : string → Answer) (rand : string → string) (now : Z) (ip : string) (l : list ZoneView) : zM unit :=
  match l with
  | [] => mret tt
  | z :: l => _ ← ignore (Verify lookup (rand (zv_ID z)) now (zv_ID z) ip ""); verify_all lookup rand now ip l
  end.
Definition loop_tick `{Uc : Unicode} (lookup : string → Answer) (rand : string → string) (now : Z) (ip : string) : zM unit :=
  r ← attempt List_;
  match r with inl _ => mret tt | inr zones => verify_all lookup rand now ip zones end.

(** [zoneAdapter] of cli/command/wire.go: what the domains service sees. *)
Definition adapt (z : ZoneView) : Domains.Zone := Domains.mkZone (zv_ID z) (zv_WildcardVerified z).

(** ** What the public suffix list promises *)

Class PublicSuffixLaws `{PublicSuffix} := {
  (** A registrable name is its own registrable name... *)
  registrable_fixed : ∀ s r, EffectiveTLDPlusOne s = Some r → EffectiveTLDPlusOne r = Some r;
  (** ... a final part of the name it belongs to, cut before a label, ... *)
  registrable_suffix : ∀ s r, EffectiveTLDPlusOne s = Some r → s = r ∨ ∃ p, s = p ^^ "." ^^ r;
  (** ... of two labels at least: a suffix and one label more, ... *)
  registrable_dot : ∀ s r, EffectiveTLDPlusOne s = Some r → Contains r "." = true ∧ HasSuffix r "." = false;
  (** ... and no address. *)
  registrable_no_ip : ∀ s r, EffectiveTLDPlusOne s = Some r → is_ip r = false;
}.

(** Names as the domains service stores them: graphic ASCII in lower case. *)
Definition plain_char (z : Z) : bool := graphic z && negb (is_upper_ascii z).
Definition plain (s : string) : Prop := all_bytes plain_char s = true.

Lemma plain_ascii z : plain_char z = true → (z <? 128)%Z && negb (is_upper_ascii z) = true.
Proof. unfold plain_char, graphic, in_range. rewrite !andb_true_iff, !Z.leb_le, Z.ltb_lt. intros [[_ ?] ?]. split; [lia|done]. Qed.

Section Facts.
Context `{Uc : Unicode} `{Ps : PublicSuffix}.

Lemma plain_lower s : plain s → ToLower s = s.
Proof. intros Hs. apply ToLower_id. eapply all_bytes_mono; [apply plain_ascii|apply Hs]. Qed.

Lemma plain_trim s : plain s → TrimSpace s = s.
Proof. intros Hs. apply TrimSpace_id. eapply all_bytes_mono; [|apply Hs]. by intros z [? _]%andb_true_iff. Qed.

(** ** The invariant of the table *)

Record zones_wf (d : Db) : Prop := {
  zw_ids : NoDup (dz_id <$> dns_zones d);
  zw_apexes : NoDup (dz_apex <$> dns_zones d);
  zw_registrable : ∀ z, z ∈ dns_zones d → EffectiveTLDPlusOne (dz_apex z) = Some (dz_apex z);
  zw_refs : ∀ x i, x ∈ domains d → d_zone_id x = Some i → ∃ z, z ∈ dns_zones d ∧ dz_id z = i;
  (** A record that is verified was so at its last check. *)
  zw_verified : ∀ z, z ∈ dns_zones d →
    (dz_apex_verified z = true → is_Some (dz_apex_last_check z) ∧ dz_apex_verified_at z = dz_apex_last_check z) ∧
    (dz_wildcard_verified z = true → is_Some (dz_wildcard_last_check z) ∧ dz_wildcard_verified_at z = dz_wildcard_last_check z);
}.

Lemma zones_upd_wf p f d : (∀ z, dz_id (f z) = dz_id z) → (∀ z, dz_apex (f z) = dz_apex z) →
  (∀ z, (dz_apex_verified z = true → is_Some (dz_apex_last_check z) ∧ dz_apex_verified_at z = dz_apex_last_check z) ∧
        (dz_wildcard_verified z = true → is_Some (dz_wildcard_last_check z) ∧ dz_wildcard_verified_at z = dz_wildcard_last_check z) →
        (dz_apex_verified (f z) = true → is_Some (dz_apex_last_check (f z)) ∧ dz_apex_verified_at (f z) = dz_apex_last_check (f z)) ∧
        (dz_wildcard_verified (f z) = true → is_Some (dz_wildcard_last_check (f z)) ∧ dz_wildcard_verified_at (f z) = dz_wildcard_last_check (f z))) →
  zones_wf d → zones_wf (on_dns_zones (upd p f) d).
Proof.
  intros Hi Ha Hv [W1 W2 W3 W4 W5]. split; simpl.
  - change (NoDup (List.map dz_id (upd p f (dns_zones d)))). by rewrite map_upd.
  - change (NoDup (List.map dz_apex (upd p f (dns_zones d)))). by rewrite map_upd.
  - intros z (y & Hy & ->)%elem_of_upd. destruct (p y); rewrite ?Ha; auto.
  - intros x i Hx Ei. destruct (W4 x i Hx Ei) as (z & Hz & Ez). exists (if p z then f z else z).
    split; [apply elem_of_upd; by exists z|]. destruct (p z); rewrite ?Hi; done.
  - intros z (y & Hy & ->)%elem_of_upd. destruct (p y); auto.
Qed.

Lemma notes_wf id notes : preserves zones_wf (UpdateNotes id notes).
Proof.
  apply preserves_bind; [|intros n; destruct (n =? 0)%nat; [apply preserves_throw|apply preserves_ret]].
  intros d Hd. apply wp_fallible; [done|]. by apply zones_upd_wf.
Qed.

Lemma delete_wf id : preserves zones_wf (Delete id).
Proof.
  apply preserves_bind; [|intros n; destruct (n =? 0)%nat; [apply preserves_throw|apply preserves_ret]].
  intros d Hd. apply wp_fallible; [done|]. simpl. destruct (List.existsb _ _); [|done]. destruct Hd as [W1 W2 W3 W4 W5]. split; simpl.
  - by apply NoDup_fmap_filter.
  - by apply NoDup_fmap_filter.
  - intros z [Hz _]%elem_of_del. auto.
  - intros x i (y & Hy & ->)%elem_of_upd Ei. destruct (in_zone id y) eqn:Ey; [done|].
    destruct (W4 y i Hy Ei) as (z & Hz & Ez). exists z. split; [|done]. apply elem_of_del. split; [done|].
    unfold zone_is. apply String.eqb_neq. intros E. unfold in_zone in Ey. apply bool_decide_eq_false in Ey. apply Ey. congruence.
  - intros z [Hz _]%elem_of_del. auto.
Qed.

Lemma scanOne_keeps I w : preserves I (scanOne w).
Proof. apply preserves_bind; [apply preserves_query|]. intros [z|]; [apply preserves_ret|apply preserves_throw]. Qed.

Lemma verify_wf lookup rand now id ip host : preserves zones_wf (Verify lookup rand now id ip host).
Proof.
  apply preserves_bind; [apply scanOne_keeps|]. intros z. apply preserves_bind; [|intros; apply preserves_ret].
  apply preserves_exec. intros d Hd. apply zones_upd_wf; [done|done| |done]. intros y [V1 V2]. simpl.
  destruct (pr_OK (probeApex _ _ _)), (pr_OK (probeWildcard _ _ _ _)); split; intros; try done; by split.
Qed.

Lemma loop_wf lookup rand now ip : preserves zones_wf (loop_tick lookup rand now ip).
Proof.
  apply preserves_bind; [apply preserves_attempt, preserves_query|]. intros [e|l]; [apply preserves_ret|].
  induction l as [|z l IH]; [apply preserves_ret|]. apply preserves_bind; [apply preserves_ignore, verify_wf|]. by intros _.
Qed.

Lemma insert_zone_wf id now apex : EffectiveTLDPlusOne apex = Some apex → preserves zones_wf (create id now apex).
Proof.
  intros Ha. apply preserves_bind; [|intros _; apply scanOne_keeps]. apply preserves_checked. intros d [W1 W2 W3 W4 W5].
  destruct (List.existsb _ _) eqn:E; [done|].
  assert (Hnew : ∀ z, z ∈ dns_zones d → dz_id z ≠ id ∧ dz_apex z ≠ apex).
  { intros z Hz. pose proof (existsb_false_elem _ _ z E Hz) as [Hi%String.eqb_neq Hx%String.eqb_neq]%orb_false_iff. done. }
  split; simpl.
  - rewrite fmap_app. apply NoDup_snoc; [done|]. intros (z & E1 & Hz)%list_elem_of_fmap. destruct (Hnew z Hz). simpl in E1. congruence.
  - rewrite fmap_app. apply NoDup_snoc; [done|]. intros (z & E1 & Hz)%list_elem_of_fmap. destruct (Hnew z Hz). simpl in E1. congruence.
  - intros z [Hz| ->%list_elem_of_singleton]%elem_of_app; auto.
  - intros x i Hx Ei. destruct (W4 x i Hx Ei) as (z & Hz & ?). exists z. split; [|done]. apply elem_of_app. by left.
  - intros z [Hz| ->%list_elem_of_singleton]%elem_of_app; auto. done.
Qed.

Lemma find_or_insert_zone_wf id now apex : EffectiveTLDPlusOne apex = Some apex → preserves zones_wf (find_or_create id now apex).
Proof.
  intros Ha. apply preserves_bind; [apply preserves_attempt, scanOne_keeps|].
  intros [[]|z]; try apply preserves_throw; [by apply insert_zone_wf|apply preserves_ret].
Qed.

Lemma ApexOf_registrable `{!PublicSuffixLaws} s r : ApexOf s = inr r → EffectiveTLDPlusOne r = Some r.
Proof.
  unfold ApexOf. destruct (_ =s ""); [done|]. destruct (is_ip _); [done|]. destruct (negb _); [done|].
  destruct (EffectiveTLDPlusOne _) eqn:E; [|done]. intros [= <-]. by eapply registrable_fixed.
Qed.
End Facts.

(** ** Histories *)

Inductive zone_call :=
  | ZEnsure (id : string) (now : Z) (fqdn : string)
  | ZCreate (id : string) (now : Z) (apex : string)
  | ZNotes (id notes : string)
  | ZDelete (id : string)
  | ZVerify (lookup : string → Answer) (rand : string) (now : Z) (id ip hostname : string)
  | ZTick (lookup : string → Answer) (rand : string → string) (now : Z) (ip : string).

Section Histories.
Context `{Uc : Unicode} `{Ps : PublicSuffix} `{!PublicSuffixLaws}.

Definition zone_serve (c : zone_call) (fs : list bool) (d : Db) : Db :=
  match c with
  | ZEnsure id now fqdn => (EnsureForFQDN id now fqdn d fs).1.1
  | ZCreate id now apex => (Create id now apex d fs).1.1
  | ZNotes id notes => (UpdateNotes id notes d fs).1.1
  | ZDelete id => (Delete id d fs).1.1
  | ZVerify lookup rand now id ip hostname => (Verify lookup rand now id ip hostname d fs).1.1
  | ZTick lookup rand now ip => (loop_tick lookup rand now ip d fs).1.1
  end.

Lemma ensure_wf id now fqdn : preserves zones_wf (EnsureForFQDN id now fqdn).
Proof.
  intros d Hd. apply wp_bind, wp_of_result. destruct (ApexOf fqdn) as [e|apex] eqn:E; [done|].
  apply find_or_insert_zone_wf; [by eapply ApexOf_registrable|done].
Qed.

Lemma create_zone_wf id now apex : preserves zones_wf (Create id now apex).
Proof.
  intros d Hd. apply wp_bind, wp_of_result. destruct (ApexOf apex) as [e|c] eqn:E.
  - destruct (ApexOf ("x." ^^ apex)) as [e'|c] eqn:E'; [done|]. apply find_or_insert_zone_wf; [by eapply ApexOf_registrable|done].
  - apply find_or_insert_zone_wf; [by eapply ApexOf_registrable|done].
Qed.

(** Along every history of zone calls and background passes, with faults
    anywhere, there is at most one zone per apex, every apex is a registrable name
    and not a mere suffix or subdomain, the domains refer to zones that exist, and
    a record shown as verified was so at its last check. *)
Theorem zones_typed l d : zones_wf d → zones_wf (foldl (λ d c, zone_serve c.1 c.2 d) d l).
Proof.
  revert d. induction l as [|[c fs] l IH]; intros d Hd; [done|]. apply IH. destruct c as [id now fqdn|id now apex|id notes|id|lk rand now id ip host|lk rand now ip]; simpl.
  - by apply ensure_wf.
  - by apply create_zone_wf.
  - by apply notes_wf.
  - by apply delete_wf.
  - by apply verify_wf.
  - by apply loop_wf.
Qed.

Lemma ApexOf_plain s r : plain s → ApexOf s = inr r → plain r.
Proof.
  intros Hs. unfold ApexOf, canonical_name. rewrite plain_lower, plain_trim by done.
  assert (Hc : plain (TrimSuffix s ".")) by by apply TrimSuffix_bytes. set (c := TrimSuffix s ".") in *.
  destruct (c =s ""); [done|]. destruct (is_ip c); [done|]. destruct (negb _); [done|].
  destruct (EffectiveTLDPlusOne c) as [r'|] eqn:E; [|done]. intros [= <-].
  apply registrable_suffix in E as [<-|[p ->]]; [done|]. unfold plain in Hc. rewrite !all_bytes_app in Hc.
  by apply andb_true_iff in Hc as [_ [_ Hc]%andb_true_iff].
Qed.

(** Naming a host registers its zone: for a name in the stored form,
    [EnsureForFQDN] changes nothing when the zone of its registrable name exists
    and otherwise adds exactly that zone, whatever fails; what it returns is a
    zone of the table with that apex; and without faults it succeeds. *)
Theorem ensure_effect id now fqdn apex d :
  zones_wf d → plain fqdn → ApexOf fqdn = inr apex → (∀ z, z ∈ dns_zones d → dz_id z ≠ id) →
  let added := on_dns_zones (λ l, l ++ [mkDnsZone id apex None false None None false None None None now]) d in
  let after := match sel (apex_is apex) (dns_zones d) with Some _ => d | None => added end in
  wp (EnsureForFQDN id now fqdn) (λ d' r, (d' = d ∨ d' = after) ∧
    ∀ v, r = inr v → d' = after ∧ zv_Apex v = apex ∧ ∃ z, z ∈ dns_zones d' ∧ dz_apex z = apex ∧ dz_id z = zv_ID v) d ∧
  ∃ v, runs (EnsureForFQDN id now fqdn) d after v.
Proof.
  intros Hd Hp Ha Hnew added after. pose proof (ApexOf_plain _ _ Hp Ha) as Hpl.
  unfold EnsureForFQDN. rewrite Ha.
  assert (HF : find_or_create id now apex = (r ← attempt (scanOne (apex_is apex));
    match r with inr z => mret z | inl ErrZoneNotFound => create id now apex | inl e => throw e end))
    by (unfold find_or_create, GetByApex; by rewrite plain_lower).
  set (Q := λ _ _, _ : Prop). assert (Hfail : ∀ d' e, d' = d ∨ d' = after → Q d' (inl e)) by done.
  destruct (sel (apex_is apex) (dns_zones d)) as [z|] eqn:Es.
  - apply sel_Some in Es as Hz. destruct Hz as [Hz Hz'%String.eqb_eq].
    assert (Hq : runs (scanOne (apex_is apex)) d d (view d z)).
    { eapply runs_bind; [by apply (runs_query _ _ _ (Some (view d z))); rewrite Es|]. apply runs_ret. }
    split; [|eexists; eapply runs_bind; [apply runs_of_result|]; rewrite HF; eapply runs_bind; [apply runs_attempt, Hq|]; apply runs_ret].
    apply wp_bind, wp_of_result; rewrite HF; apply wp_bind, wp_attempt, wp_bind, wp_query; [apply wp_throw, Hfail; by left|]. rewrite Es. apply wp_ret, wp_ret.
    split; [auto|]. intros v [= <-]. split_and!; [done|done|]. by exists z.
  - assert (Hfree : List.existsb (λ z, zone_is id z || apex_is apex z) (dns_zones d) = false).
    { apply not_true_iff_false. intros (z & Hz & [E%String.eqb_eq|E]%orb_true_iff)%existsb_witness; [by apply (Hnew z Hz)|].
      by rewrite (sel_None _ _ _ Es Hz) in E. }
    assert (Hsel : sel (zone_is id) (dns_zones added) = Some (mkDnsZone id apex None false None None false None None None now)).
    { unfold added. simpl. rewrite sel_app. destruct (sel (zone_is id) (dns_zones d)) as [z|] eqn:E; [|simpl; unfold zone_is; simpl; by rewrite String.eqb_refl].
      apply sel_Some in E as [Hz E%String.eqb_eq]. by apply Hnew in Hz. }
    split.
    + apply wp_bind, wp_of_result; rewrite HF; apply wp_bind, wp_attempt, wp_bind, wp_query; [apply wp_throw, Hfail; by left|]. rewrite Es. apply wp_throw.
      apply wp_bind, wp_checked; [apply Hfail; by left|]. rewrite Hfree. apply wp_bind, wp_query; [apply Hfail; by right|]. fold added. rewrite Hsel. apply wp_ret.
      split; [auto|]. intros v [= <-]. split_and!; [done|done|]. eexists. split_and!; [apply elem_of_app; right; by apply list_elem_of_singleton|done|done].
    + eexists. eapply runs_bind; [apply runs_of_result|]. rewrite HF.
      eapply runs_bind; [by unfold runs, attempt, scanOne, query, fallible, mbind, M_bind, bind; simpl; rewrite Es|].
      eapply runs_bind; [by apply runs_checked; rewrite Hfree|]. fold added.
      eapply runs_bind; [by apply runs_query; rewrite Hsel|]. apply runs_ret.
Qed.
End Histories.

(** ** A concrete list *)

Definition two_names : PublicSuffix := {|
  EffectiveTLDPlusOne s := if (s =s "api.example.com") || (s =s "example.com") then Some "example.com" else None;
  is_ip s := s =s "10.0.0.1";
|}.

Lemma two_names_laws : PublicSuffixLaws (H := two_names).
Proof.
  assert (Hr : ∀ s r, EffectiveTLDPlusOne (PublicSuffix := two_names) s = Some r → (s = "api.example.com" ∨ s = "example.com") ∧ r = "example.com").
  { simpl. intros s r. destruct ((s =s "api.example.com") || (s =s "example.com")) eqn:E; [|done]. intros [= <-]. split; [|done].
    apply orb_true_iff in E as [E|E]; apply String.eqb_eq in E; auto. }
  split; intros s r Hs; apply Hr in Hs as [Hs ->]; try done. destruct Hs as [-> | ->]; [|by left]. right. by exists "api".
Qed.

Definition one_zone : Db := on_dns_zones (λ _, [mkDnsZone "z" "example.com" None true (Some 5%Z) (Some 5%Z) false None None None 1]) empty_db.
Lemma one_zone_wf : zones_wf (Ps := two_names) one_zone.
Proof.
  split.
  - apply (bool_decide_unpack _). by vm_compute.
  - apply (bool_decide_unpack _). by vm_compute.
  - by intros z ->%list_elem_of_singleton.
  - by intros x i Hx%not_elem_of_nil.
  - intros z ->%list_elem_of_singleton. split; [|done]. intros _. by split.
Qed.

Lemma zones_typed_witness :
  zones_wf (Ps := two_names) (zone_serve (Uc := ascii_only) (Ps := two_names) (ZEnsure "z2" 9 "api.example.com") [false; true] one_zone).
Proof.
  exact (zones_typed (Uc := ascii_only) (Ps := two_names) (H := two_names_laws)
    [(ZEnsure "z2" 9 "api.example.com", [false; true])] one_zone one_zone_wf).
Defined.

Lemma ensure_effect_witness :
  ∃ v, runs (EnsureForFQDN (Uc := ascii_only) (Ps := two_names) "z2" 9 "api.example.com") one_zone one_zone v.
Proof.
  apply (ensure_effect (Uc := ascii_only) (Ps := two_names) (H := two_names_laws) "z2" 9 "api.example.com" "example.com" one_zone one_zone_wf);
    [reflexivity|reflexivity|]. by intros z ->%list_elem_of_singleton.
Defined.
