(* ===== verification/Instance.v ===== *)
(** * Setup wizard and instance settings (internal/setup, internal/instance,
    internal/api/apimiddleware)

    The singleton row [instance_settings] with its cache; the keys of the older
    table [settings] with the cached completion flag; the wizard's handlers; the
    middleware that gates requests on both; the schedule of the cleanup loop; the
    cache of the release check.  The zone registry is an interface that [Zones]
    implements. *)

From S2P Require Import Prelude Effects GoStrings Decimal Regex Schema CryptoLib Refresh TwoFactor Rbac RbacTeams Apps Domains Zones.

(** ** The settings row *)

Record Settings := mkSettings {
  st_InstanceURL : string; st_TLSMode : string; st_DefaultMemoryLimit : string; st_DefaultCPULimit : string;
  st_CleanupEnabled : bool; st_CleanupSchedule : string; st_CleanupDiskThreshold : Z; st_CleanupImageRetention : Z;
  st_MaxConcurrentDeploys : Z; st_MaintenanceMode : bool; st_MaintenanceMessage : string; st_UpdatedAt : Z;
}.

(** The columns; NULL limits and integer flags. *)
Record SettingsRow := mkSettingsRow {
  ir_instance_url : string; ir_tls_mode : string; ir_default_memory_limit : option string; ir_default_cpu_limit : option string;
  ir_cleanup_enabled : Z; ir_cleanup_schedule : string; ir_cleanup_disk_threshold : Z; ir_cleanup_image_retention : Z;
  ir_max_concurrent_deploys : Z; ir_maintenance_mode : Z; ir_maintenance_message : string; ir_updated_at : Z;
}.

Definition TLSModeSelfSigned : string := "self-signed".
Definition TLSModeLetsEncrypt : string := "letsencrypt".

Inductive InstErr :=
  | ErrInvalidInput (msg : string)
  | ErrLetsEncryptNeedsURL
  | ErrZoneNotRegistered
  | ErrAlreadyCompleted
  | ErrInst (where_ : string).

Record UpdateInput := mkUpdateInput {
  ui_InstanceURL : option string; ui_TLSMode : option string; ui_DefaultMemoryLimit : option string; ui_DefaultCPULimit : option string;
  ui_CleanupEnabled : option bool; ui_CleanupSchedule : option string; ui_CleanupDiskThreshold : option Z;
  ui_CleanupImageRetention : option Z; ui_MaxConcurrentDeploys : option Z; ui_MaintenanceMode : option bool; ui_MaintenanceMessage : option string;
}.

(** The database, the settings row and its cache, the cached completion flag. *)
Record Inst := mkInst { i_db : Db; i_row : SettingsRow; i_cache : option Settings; i_completed : bool }.
Definition set_idb (d : Db) (s : Inst) : Inst := mkInst d (i_row s) (i_cache s) (i_completed s).
Definition set_irow (r : SettingsRow) (s : Inst) : Inst := mkInst (i_db s) r (i_cache s) (i_completed s).
Definition set_icache (c : Settings) (s : Inst) : Inst := mkInst (i_db s) (i_row s) (Some c) (i_completed s).
Definition set_icompleted (b : bool) (s : Inst) : Inst := mkInst (i_db s) (i_row s) (i_cache s) b.

Local Abbreviation iM := (M Inst InstErr).

(** What the settings service asks of the zones. *)
Class ZoneRegistry := {
  zr_ApexOf : string → string + string;
  zr_ApexRegistered : string → M Db InstErr bool;
}.

(** A registry answers without changing the database, and with the truth. *)
Class RegistryLaws (registered : string → Db → bool) (z : ZoneRegistry) := {
  registry_sound : ∀ apex d, wp (zr_ApexRegistered (ZoneRegistry := z) apex) (λ d' r, d' = d ∧ ∀ b, r = inr b → b = registered apex d) d;
}.

(** ** Validation *)

Definition memRegex : re := Cat numeral (Opt (Cls (one_of "mgkbMGKB"))).
Definition cpuRegex : re := numeral.
(** [\s] of a regular expression. *)
Definition ws (z : Z) : bool := one_of (String (of_byte 9) (String (of_byte 10) (String (of_byte 12) (String (of_byte 13) " ")))) z.
Definition word : re := Plus (Cls (λ z, negb (ws z))).
Definition cronLikeRegex : re :=
  let sp := Plus (Cls ws) in
  Cat (Star (Cls ws)) (Cat word (Cat sp (Cat word (Cat sp (Cat word (Cat sp (Cat word (Cat sp (Cat word (Star (Cls ws))))))))))).

Definition normaliseInstanceURL (raw : string) : string :=
  TrimRight (TrimPrefix (TrimPrefix (TrimPrefix (TrimSpace raw) "https://") "http://") "www.") "/".

Definition invalid (ok : bool) (msg : string) : InstErr + unit := if ok then inr tt else inl (ErrInvalidInput msg).

(** A field of the patch: trimmed and checked, or the current value. *)
Definition text_field (v : option string) (cur : string) (ok : string → bool) (msg : string) : InstErr + string :=
  match v with None => inr cur | Some v => let v := TrimSpace v in _ ← invalid (ok v) msg; inr v end.
Definition int_field (v : option Z) (cur : Z) (ok : Z → bool) (msg : string) : InstErr + Z :=
  match v with None => inr cur | Some v => _ ← invalid (ok v) msg; inr v end.

Definition tls_ok (v : string) : bool := (v =s TLSModeSelfSigned) || (v =s TLSModeLetsEncrypt).
Definition mem_ok (v : string) : bool := (v =s "") || MatchString memRegex v.
Definition cpu_ok (v : string) : bool := (v =s "") || MatchString cpuRegex v.
Definition cron_ok (v : string) : bool := (v =s "") || MatchString cronLikeRegex v.
Definition threshold_ok (n : Z) : bool := negb ((n <? 0)%Z || (100 <? n)%Z).
Definition positive_ok (n : Z) : bool := negb (n <? 1)%Z.

(** ** The settings service (settings.go) *)

Definition flag_of (n : Z) : bool := (n =? 1)%Z.
Definition boolToInt (b : bool) : Z := if b then 1%Z else 0%Z.

Definition of_row (r : SettingsRow) : Settings :=
  mkSettings (ir_instance_url r) (ir_tls_mode r) (default "" (ir_default_memory_limit r)) (default "" (ir_default_cpu_limit r))
    (flag_of (ir_cleanup_enabled r)) (ir_cleanup_schedule r) (ir_cleanup_disk_threshold r) (ir_cleanup_image_retention r)
    (ir_max_concurrent_deploys r) (flag_of (ir_maintenance_mode r)) (ir_maintenance_message r) (ir_updated_at r).

(** NULLIF(?, ''). *)
Definition nullif (s : string) : option string := if s =s "" then None else Some s.
(** The UPDATE with its trigger; [now]: [unixepoch()]. *)
Definition to_row (now : Z) (s : Settings) : SettingsRow :=
  mkSettingsRow (st_InstanceURL s) (st_TLSMode s) (nullif (st_DefaultMemoryLimit s)) (nullif (st_DefaultCPULimit s))
    (boolToInt (st_CleanupEnabled s)) (st_CleanupSchedule s) (st_CleanupDiskThreshold s) (st_CleanupImageRetention s)
    (st_MaxConcurrentDeploys s) (boolToInt (st_MaintenanceMode s)) (st_MaintenanceMessage s) now.

(** The CHECKs of the table. *)
Definition row_checks (r : SettingsRow) : bool :=
  tls_ok (ir_tls_mode r) && threshold_ok (ir_cleanup_disk_threshold r) && positive_ok (ir_cleanup_image_retention r)
  && positive_ok (ir_max_concurrent_deploys r).

Definition reload : iM Settings :=
  out ← query (ErrInst "load") (λ s, of_row (i_row s));
  _ ← modify (set_icache out);
  mret out.

Definition Get : iM Settings := reload.
Definition zero_settings : Settings := mkSettings "" TLSModeSelfSigned "" "" false "" 0 5 3 false "" 0.
Definition Cached (s : Inst) : Settings := default zero_settings (i_cache s).

(** The panel's host must lie in a registered zone. *)
Definition gate_url (zones : option ZoneRegistry) (v : string) : iM unit :=
  match zones with
  | None => mret tt
  | Some z =>
    if v =s "" then mret tt
    else
      apex ← of_result (match zr_ApexOf v with inl e => inl (ErrInvalidInput e) | inr a => inr a end);
      registered ← zoom i_db set_idb id (zr_ApexRegistered apex);
      if (registered : bool) then mret tt else throw ErrZoneNotRegistered
  end.

(** The patched settings. *)
Definition patch (zones : option ZoneRegistry) (cur : Settings) (inp : UpdateInput) : iM Settings :=
  url ← match ui_InstanceURL inp with
        | None => mret (st_InstanceURL cur)
        | Some raw => let v := normaliseInstanceURL raw in _ ← gate_url zones v; mret v
        end;
  of_result (
    tls ← text_field (ui_TLSMode inp) (st_TLSMode cur) tls_ok "tls_mode";
    mem ← text_field (ui_DefaultMemoryLimit inp) (st_DefaultMemoryLimit cur) mem_ok "default_memory_limit";
    cpu ← text_field (ui_DefaultCPULimit inp) (st_DefaultCPULimit cur) cpu_ok "default_cpu_limit";
    sched ← text_field (ui_CleanupSchedule inp) (st_CleanupSchedule cur) cron_ok "cleanup_schedule";
    threshold ← int_field (ui_CleanupDiskThreshold inp) (st_CleanupDiskThreshold cur) threshold_ok "cleanup_disk_threshold";
    retention ← int_field (ui_CleanupImageRetention inp) (st_CleanupImageRetention cur) positive_ok "cleanup_image_retention";
    deploys ← int_field (ui_MaxConcurrentDeploys inp) (st_MaxConcurrentDeploys cur) positive_ok "max_concurrent_deploys";
    let next := mkSettings url tls mem cpu (default (st_CleanupEnabled cur) (ui_CleanupEnabled inp)) sched threshold retention deploys
                  (default (st_MaintenanceMode cur) (ui_MaintenanceMode inp))
                  (match ui_MaintenanceMessage inp with None => st_MaintenanceMessage cur | Some m => TrimSpace m end) (st_UpdatedAt cur) in
    if (st_TLSMode next =s TLSModeLetsEncrypt) && (st_InstanceURL next =s "") then inl ErrLetsEncryptNeedsURL else inr next).

Definition store (now : Z) (next : Settings) : iM unit :=
  checked (ErrInst "update") (λ s,
    if row_checks (to_row now next) then inr (set_irow (to_row now next) s, tt) else inl (ErrInst "update")).

Definition Update (zones : option ZoneRegistry) (now : Z) (inp : UpdateInput) : iM Settings :=
  cur ← reload;
  next ← patch zones cur inp;
  _ ← store now next;
  reload.

Definition CurrentInstanceURL (s : Inst) : string := st_InstanceURL (Cached s).
Definition DefaultLimits (s : Inst) : string * string := (st_DefaultMemoryLimit (Cached s), st_DefaultCPULimit (Cached s)).
Definition MaxConcurrentDeploys (s : Inst) : Z :=
  let v := st_MaxConcurrentDeploys (Cached s) in if (v <? 1)%Z then 1%Z else v.

Record CleanupConfig := mkCleanup { cc_Enabled : bool; cc_Schedule : string; cc_DiskThreshold : Z; cc_ImageRetention : Z }.
Definition Cleanup (s : Inst) : CleanupConfig :=
  let c := Cached s in mkCleanup (st_CleanupEnabled c) (st_CleanupSchedule c) (st_CleanupDiskThreshold c) (st_CleanupImageRetention c).

(** ** The setup service (setup.go) *)

Definition key_is (k : string) (e : string * string) : bool := e.1 =s k.
Definition setting (k : string) (d : Db) : option string := snd <$> sel (key_is k) (settings d).
(** INSERT ... ON CONFLICT(key) DO UPDATE SET value. *)
Definition upsert_setting (k v : string) (d : Db) : Db :=
  on_settings (λ l, if List.existsb (key_is k) l then upd (key_is k) (λ _, (k, v)) l else l ++ [(k, v)]) d.

Definition on_idb (f : Db → Db) (s : Inst) : Inst := set_idb (f (i_db s)) s.

Definition readSetupCompleted : iM bool :=
  v ← query (ErrInst "read flag") (λ s, setting "setup_completed" (i_db s));
  mret (match v with None => false | Some v => v =s "true" end).

(** [NewService] and [Refresh]. *)
Definition Refresh_ : iM unit := done ← readSetupCompleted; modify (set_icompleted done).
Definition Completed (s : Inst) : bool := i_completed s.

Definition MarkComplete : iM unit :=
  _ ← tx (ErrInst "begin") (ErrInst "commit") (
    _ ← ignore (exec (ErrInst "exclusive") (λ s, s));
    value ← query (ErrInst "scan") (λ s, setting "setup_completed" (i_db s));
    match value with
    | Some v =>
      if v =s "true" then throw ErrAlreadyCompleted
      else exec (ErrInst "update") (on_idb (on_settings (upd (key_is "setup_completed") (λ e, (e.1, "true")))))
    | None => exec (ErrInst "insert") (on_idb (on_settings (λ l, l ++ [("setup_completed", "true")])))
    end);
  modify (set_icompleted true).

Definition HasAnyUser : iM bool :=
  n ← query (ErrInst "count users") (λ s, length (users (i_db s))); mret (0 <? n)%nat.

(** [rand]: four random bytes, if the source answers. *)
Definition EnsureInstanceID (rand : option string) : iM string :=
  cur ← query (ErrInst "select instance_id") (λ s, setting "instance_id" (i_db s));
  let fresh :=
    buf ← of_result (match rand with None => inl (ErrInst "rand") | Some b => inr b end);
    let id := "prx_" ^^ EncodeHex buf in
    _ ← exec (ErrInst "insert instance_id") (on_idb (upsert_setting "instance_id" id));
    mret id in
  match cur with
  | Some c => if c =s "" then fresh else mret c
  | None => fresh
  end.

Definition SaveInstance (instanceURL tlsMode : string) : iM unit :=
  _ ← exec (ErrInst "save instance_url") (on_idb (upsert_setting "instance_url" instanceURL));
  exec (ErrInst "save tls_mode") (on_idb (upsert_setting "tls_mode" tlsMode)).

(** ** The wizard's handlers (api/handler/setup.go) *)

(** An answer: a status and an error code, "" when the request succeeded. *)
Definition Reply : Type := Z * string.
Definition ok_reply : Reply := (200%Z, "").

Section Wizard.
Context `{Uc : Unicode} `{Cl : CryptoLib}.

(** [parse]: [mail.ParseAddress]; [id], [salt], [now]: the new UUID, the salt of
    bcrypt, [unixepoch()]. *)
Definition CreateAdmin (parse : string → option string) (id salt : string) (now : Z) (email password confirmation : string) : iM Reply :=
  match parse (TrimSpace email) with
  | None => mret (400%Z, "invalid_email")
  | Some addr =>
    if negb (password =s confirmation) then mret (400%Z, "password_mismatch")
    else if negb (ValidateStrong password) then mret (400%Z, "weak_password")
    else
      r ← attempt HasAnyUser;
      match r with
      | inl _ => mret (500%Z, "db_error")
      | inr true => mret (409%Z, "admin_already_exists")
      | inr false =>
        match HashPassword salt password with
        | inl _ => mret (500%Z, "hash_error")
        | inr hash =>
          r ← attempt (checked (ErrInst "insert admin") (λ s,
                if List.existsb (λ x, is_user id x || (u_email x =s addr)) (users (i_db s)) then inl (ErrInst "insert admin")
                else inr (on_idb (on_users (λ l, l ++ [mkUser id addr hash "admin" None None "active" None false None None None None now])) s, tt)));
          match r with
          | inl _ => mret (500%Z, "db_insert_failed")
          | inr _ =>
            _ ← ignore (exec (ErrInst "role") (on_idb (λ d,
                  on_users (upd (λ u, is_user id u && negb (is_some (u_role_id u)))
                    (set_role_id (ro_id <$> sel (λ r, ro_slug r =s "admin") (roles d)))) d)));
            mret ok_reply
          end
        end
      end
  end.
End Wizard.

(** [url.Parse]: host and path. *)
Definition normalizeInstanceURL (parse_url : string → option (string * string)) (inp : string) : option string :=
  let s := if Contains inp "://" then inp else "https://" ^^ inp in
  match parse_url s with
  | None => None
  | Some (host, path) =>
    if host =s "" then None
    else if negb (path =s "") && negb (path =s "/") then None
    else let host := TrimSuffix (TrimPrefix host "www.") "/" in if host =s "" then None else Some host
  end.

Definition answer {A} (code : InstErr → Reply) (m : iM A) : iM Reply :=
  r ← attempt m; mret (match r with inl e => code e | inr _ => ok_reply end).
Definition db_error (_ : InstErr) : Reply := (500%Z, "db_error").

Definition SaveInstance_handler (parse_url : string → option (string * string)) (instanceURL tlsMode : string) : iM Reply :=
  let tlsMode := if tlsMode =s "" then "self-signed" else tlsMode in
  if negb (tls_ok tlsMode) then mret (400%Z, "invalid_tls_mode")
  else
    let instanceURL := TrimSpace instanceURL in
    if negb (instanceURL =s "") then
      match normalizeInstanceURL parse_url instanceURL with
      | None => mret (400%Z, "invalid_instance_url")
      | Some url => answer db_error (SaveInstance url tlsMode)
      end
    else if negb (tlsMode =s "self-signed") then mret (400%Z, "letsencrypt_requires_domain")
    else answer db_error (SaveInstance instanceURL tlsMode).

Definition Complete : iM Reply :=
  answer (λ e, match e with ErrAlreadyCompleted => (409%Z, "already_completed") | _ => (500%Z, "db_error") end) MarkComplete.

(** ** The gates (apimiddleware/setup_gate.go, maintenance.go) *)

Inductive GateAnswer := Pass | Refused (status : Z) (code : string) | Unavailable (message : string) | RedirectSetup.

Definition SetupGate (completed : bool) (path : string) : GateAnswer :=
  let isSetupPath := HasPrefix path "/api/v1/setup/" in
  let isHealthz := (path =s "/api/v1/healthz") || (path =s "/healthz") in
  let isSetupStatus := path =s "/api/v1/setup/status" in
  let isAPI := HasPrefix path "/api/v1/" in
  if negb completed then
    if isSetupPath || isHealthz then Pass
    else if isAPI then Refused 403 "setup_not_completed"
    else if (path =s "/setup") || HasPrefix path "/setup/" || HasPrefix path "/assets/" then Pass
    else RedirectSetup
  else if isSetupPath && negb isSetupStatus then Refused 404 "not_found"
  else Pass.

Definition maintenancePass : list string :=
  ["/api/v1/healthz"; "/api/v1/auth/login"; "/api/v1/auth/refresh"; "/api/v1/auth/logout"; "/api/v1/auth/me";
   "/api/v1/auth/2fa/"; "/api/v1/setup/"; "/api/v1/instance/settings"].
Definition maintenanceAllowed (path : string) : bool := List.existsb (HasPrefix path) maintenancePass.
Definition Maintenance (cached : Settings) (path : string) : GateAnswer :=
  if negb (st_MaintenanceMode cached) then Pass
  else if maintenanceAllowed path then Pass
  else Unavailable (st_MaintenanceMessage cached).

(** ** The schedule (cleanup.go) *)

Definition atoiOrStar (s : string) : option Z := if s =s "*" then Some (-1)%Z else Atoi s.

(** The moment: minute, hour and day of the week. *)
Record Moment := mkMoment { mo_Minute : Z; mo_Hour : Z; mo_Weekday : Z }.

Definition unit_matches (v now : Z) : bool := (v =? -1)%Z || (v =? now)%Z.
Definition scheduleMatches (expr : string) (now : Moment) : bool :=
  match Fields expr with
  | [f0; f1; _; _; f4] =>
    match atoiOrStar f0, atoiOrStar f1 with
    | Some minute, Some hour =>
      if negb (unit_matches minute (mo_Minute now)) then false
      else if negb (unit_matches hour (mo_Hour now)) then false
      else match atoiOrStar f4 with None => false | Some dow => unit_matches dow (mo_Weekday now) end
    | _, _ => false
    end
  | _ => false
  end.

(** ** The release check (updates.go) *)

Record VersionInfo := mkVersionInfo { vi_Version : string; vi_URL : string; vi_PublishedAt : Z }.
Record Checker := mkChecker { ck_cached : VersionInfo; ck_fetchedAt : Z }.
(** Nanoseconds. *)
Definition ck_ttl : Z := 24 * 3600 * 1000000000.
Definition ck_failTTL : Z := 5 * 60 * 1000000000.

(** [release]: GitHub's answer (tag, URL, time, draft, prerelease), [None] on
    any failure. *)
Definition fetch (release : option (string * string * Z * bool * bool)) : option VersionInfo :=
  match release with
  | None => None
  | Some (tag, url, at_, draft, pre) => if draft || pre then None else Some (mkVersionInfo (TrimPrefix tag "v") url at_)
  end.

(** [now], [now']: the clock before and after the request; the boolean says
    whether GitHub was asked. *)
Definition Checker_Get (now now' : Z) (release : option (string * string * Z * bool * bool)) (c : Checker) : Checker * VersionInfo * bool :=
  if negb (vi_Version (ck_cached c) =s "") && (now - ck_fetchedAt c <? ck_ttl)%Z then (c, ck_cached c, false)
  else match fetch release with
       | None => (mkChecker (ck_cached c) (now' - (ck_ttl - ck_failTTL)), ck_cached c, true)
       | Some fresh => (mkChecker fresh now', fresh, true)
       end.

(** ** Valid settings *)

Record settings_ok (s : Settings) : Prop := {
  so_tls : tls_ok (st_TLSMode s) = true;
  so_url : st_TLSMode s = TLSModeLetsEncrypt → st_InstanceURL s ≠ "";
  so_mem : mem_ok (st_DefaultMemoryLimit s) = true;
  so_cpu : cpu_ok (st_DefaultCPULimit s) = true;
  so_cron : cron_ok (st_CleanupSchedule s) = true;
  so_threshold : threshold_ok (st_CleanupDiskThreshold s) = true;
  so_retention : positive_ok (st_CleanupImageRetention s) = true;
  so_deploys : positive_ok (st_MaxConcurrentDeploys s) = true;
}.

(** The settings a patch asks for. *)
Definition trimmed (v : option string) (cur : string) : string := match v with None => cur | Some v => TrimSpace v end.
Definition patched_settings (cur : Settings) (inp : UpdateInput) : Settings :=
  mkSettings (match ui_InstanceURL inp with None => st_InstanceURL cur | Some raw => normaliseInstanceURL raw end)
    (trimmed (ui_TLSMode inp) (st_TLSMode cur)) (trimmed (ui_DefaultMemoryLimit inp) (st_DefaultMemoryLimit cur))
    (trimmed (ui_DefaultCPULimit inp) (st_DefaultCPULimit cur)) (default (st_CleanupEnabled cur) (ui_CleanupEnabled inp))
    (trimmed (ui_CleanupSchedule inp) (st_CleanupSchedule cur)) (default (st_CleanupDiskThreshold cur) (ui_CleanupDiskThreshold inp))
    (default (st_CleanupImageRetention cur) (ui_CleanupImageRetention inp))
    (default (st_MaxConcurrentDeploys cur) (ui_MaxConcurrentDeploys inp))
    (default (st_MaintenanceMode cur) (ui_MaintenanceMode inp)) (trimmed (ui_MaintenanceMessage inp) (st_MaintenanceMessage cur))
    (st_UpdatedAt cur).

Lemma text_field_inv v cur ok msg r : text_field v cur ok msg = inr r → ok cur = true → r = trimmed v cur ∧ ok r = true.
Proof. unfold text_field, invalid. destruct v as [v|]; simpl; [|by intros [= ->]]. destruct (ok (TrimSpace v)) eqn:E; [|done]. by intros [= <-] _. Qed.

Lemma int_field_inv v cur ok msg r : int_field v cur ok msg = inr r → ok cur = true → r = default cur v ∧ ok r = true.
Proof. unfold int_field, invalid. destruct v as [v|]; simpl; [|by intros [= ->]]. destruct (ok v) eqn:E; [|done]. by intros [= <-] _. Qed.

Lemma text_field_ok v cur ok msg : ok cur = true → ok (trimmed v cur) = true → text_field v cur ok msg = inr (trimmed v cur).
Proof. unfold text_field, invalid. destruct v as [v|]; simpl; [|done]. by intros _ ->. Qed.

Lemma int_field_ok v cur ok msg : ok (default cur v) = true → int_field v cur ok msg = inr (default cur v).
Proof. unfold int_field, invalid. destruct v as [v|]; simpl; [|done]. by intros ->. Qed.

(** What is written is read back. *)
Definition at_time (now : Z) (s : Settings) : Settings :=
  mkSettings (st_InstanceURL s) (st_TLSMode s) (st_DefaultMemoryLimit s) (st_DefaultCPULimit s) (st_CleanupEnabled s)
    (st_CleanupSchedule s) (st_CleanupDiskThreshold s) (st_CleanupImageRetention s)
    (st_MaxConcurrentDeploys s) (st_MaintenanceMode s) (st_MaintenanceMessage s) now.
Lemma row_roundtrip now s : of_row (to_row now s) = at_time now s.
Proof.
  unfold of_row, to_row, nullif, at_time. simpl.
  assert (Hn : ∀ x, default "" (if x =s "" then None else Some x) = x) by (intros x; destruct (x =s "") eqn:E; bool_simp; by subst).
  assert (Hf : ∀ b, flag_of (boolToInt b) = b) by by intros []. by rewrite !Hn, !Hf.
Qed.

Lemma at_time_ok now s : settings_ok s → settings_ok (at_time now s).
Proof. by intros []. Qed.

Lemma checks_ok now s : settings_ok s → row_checks (to_row now s) = true.
Proof. intros []. unfold row_checks. simpl. by repeat (apply andb_true_iff; split). Qed.

Section Updating.
Context (registered : string → Db → bool) (zones : option ZoneRegistry).
Context (Hreg : ∀ z, zones = Some z → RegistryLaws registered z).

(** The host the patch names lies in a registered zone. *)
Definition url_registered (inp : UpdateInput) (d : Db) : Prop :=
  match zones, ui_InstanceURL inp with
  | Some z, Some raw => normaliseInstanceURL raw ≠ "" →
    ∃ apex, zr_ApexOf (ZoneRegistry := z) (normaliseInstanceURL raw) = inr apex ∧ registered apex d = true
  | _, _ => True
  end.

Lemma gate_wp v s : wp (gate_url zones v) (λ s' r, s' = s ∧ (r = inr tt →
  match zones with Some z => v ≠ "" → ∃ apex, zr_ApexOf (ZoneRegistry := z) v = inr apex ∧ registered apex (i_db s) = true | None => True end)) s.
Proof.
  unfold gate_url. destruct zones as [z|] eqn:Ez; [|by apply wp_ret]. specialize (Hreg z eq_refl).
  apply wp_if; intros Hv; [by apply wp_ret; bool_simp|]. apply wp_bind, wp_of_result.
  destruct (zr_ApexOf v) as [e|apex] eqn:Ea; [done|]. apply wp_bind, wp_zoom.
  eapply wp_mono; [apply registry_sound|]. intros d' r [-> Hr]. assert (Hs : set_idb (i_db s) s = s) by by destruct s. rewrite Hs.
  destruct r as [e|b]; [done|]. apply wp_if; intros Hb; [|by apply wp_throw]. apply wp_ret. split; [done|]. intros _ _. exists apex.
  by rewrite <- (Hr b eq_refl), Hb.
Qed.

Lemma patch_wp cur inp s : settings_ok cur →
  wp (patch zones cur inp) (λ s' r, s' = s ∧ ∀ n, r = inr n → n = patched_settings cur inp ∧ settings_ok n ∧ url_registered inp (i_db s)) s.
Proof.
  intros [S1 S2 S3 S4 S5 S6 S7 S8]. unfold patch. apply wp_bind.
  eapply (wp_mono _ (λ s' r, s' = s ∧ ∀ url, r = inr url → url = st_InstanceURL (patched_settings cur inp) ∧ url_registered inp (i_db s))).
  - unfold url_registered. simpl. destruct (ui_InstanceURL inp) as [raw|].
    + apply wp_bind. eapply wp_mono; [apply gate_wp|]. intros s' [e|[]] [-> Hg]; [done|]. apply wp_ret. split; [done|]. intros url [= <-].
      split; [done|]. specialize (Hg eq_refl). by destruct zones.
    + apply wp_ret. split; [done|]. intros url [= <-]. split; [done|]. by destruct zones.
  - intros s' [e|url] [-> Hu]; [done|]. destruct (Hu url eq_refl) as [Eu Hr]. apply wp_of_result. split; [done|]. intros n Hn.
    apply result_bind_inv in Hn as (tls & Ht & Hn). apply text_field_inv in Ht as [Et Ht]; [|done].
    apply result_bind_inv in Hn as (mem & Hm & Hn). apply text_field_inv in Hm as [Em Hm]; [|done].
    apply result_bind_inv in Hn as (cpu & Hc & Hn). apply text_field_inv in Hc as [Ec Hc]; [|done].
    apply result_bind_inv in Hn as (sched & Hs & Hn). apply text_field_inv in Hs as [Es Hs]; [|done].
    apply result_bind_inv in Hn as (th & Hth & Hn). apply int_field_inv in Hth as [Eth Hth]; [|done].
    apply result_bind_inv in Hn as (rt & Hrt & Hn). apply int_field_inv in Hrt as [Ert Hrt]; [|done].
    apply result_bind_inv in Hn as (dp & Hdp & Hn). apply int_field_inv in Hdp as [Edp Hdp]; [|done].
    cbv zeta in Hn. destruct (_ && _) eqn:Ele in Hn; [done|]. injection Hn as <-. subst. split; [|split; [|done]]; [done|].
    split; simpl; try done. intros El Eurl. simpl in Ele. rewrite El, Eurl in Ele. done.
Qed.

Lemma reload_wp s (Q : Inst → InstErr + Settings → Prop) :
  Q s (inl (ErrInst "load")) → Q (set_icache (of_row (i_row s)) s) (inr (of_row (i_row s))) → wp reload Q s.
Proof. intros H1 H2. apply wp_bind, wp_query; [done|]. apply wp_bind, wp_modify, wp_ret, H2. Qed.

(** What an update does, by its result. *)
Definition update_outcome (now : Z) (inp : UpdateInput) (s s' : Inst) (r : InstErr + Settings) : Prop :=
  let cur := of_row (i_row s) in
  let next := patched_settings cur inp in
  i_db s' = i_db s ∧ i_completed s' = i_completed s ∧
  match r with
  | inr out => settings_ok next ∧ url_registered inp (i_db s) ∧ i_row s' = to_row now next ∧ out = at_time now next ∧ i_cache s' = Some out
  | inl e =>
    (i_row s' = i_row s ∧ (i_cache s' = i_cache s ∨ i_cache s' = Some cur)) ∨
    (** the update went through but was not read back *)
    (settings_ok next ∧ url_registered inp (i_db s) ∧ i_row s' = to_row now next ∧ i_cache s' = Some cur ∧ e = ErrInst "load")
  end.

Lemma update_wp now inp s : settings_ok (of_row (i_row s)) → wp (Update zones now inp) (update_outcome now inp s) s.
Proof.
  intros Hok. unfold Update. apply wp_bind, reload_wp; [split_and!; [done..|]; left; auto|].
  set (cur := of_row (i_row s)). apply wp_bind. eapply wp_mono; [by apply patch_wp|]. intros s' [e|n] [-> Hn].
  { split_and!; [done..|]. left. auto. }
  destruct (Hn n eq_refl) as (-> & Hnok & Hu). clear Hn. apply wp_bind. unfold store. apply wp_checked; [split_and!; [done..|]; left; auto|].
  rewrite checks_ok by done. apply reload_wp; split_and!; try done.
  - right. by split_and!.
  - simpl. by rewrite row_roundtrip.
Qed.

(** Updating the settings, whatever fails, either leaves the row alone or
    rewrites exactly the fields of the patch, and only to valid settings: the
    panel's host in a registered zone, a host wherever Let's Encrypt is on, limits
    and numbers in range.  On success the answer is what was written, and the
    cache holds it. *)
Theorem settings_update now inp s :
  settings_ok (of_row (i_row s)) → wp (Update zones now inp) (update_outcome now inp s) s.
Proof. apply update_wp. Qed.

(** A valid patch is accepted when nothing fails. *)
Lemma update_accepted now inp s :
  settings_ok (of_row (i_row s)) → settings_ok (patched_settings (of_row (i_row s)) inp) → zones = None →
  ∃ s', runs (Update zones now inp) s s' (at_time now (patched_settings (of_row (i_row s)) inp)).
Proof.
  intros Hs Hok Hz. subst zones. set (cur := of_row (i_row s)) in *.
  assert (Hp : ∀ s0, runs (patch None cur inp) s0 s0 (patched_settings cur inp)).
  { intros s0. destruct Hok as [S1 S2 S3 S4 S5 S6 S7 S8], Hs as [T1 T2 T3 T4 T5 T6 T7 T8]. unfold patch.
    eapply (runs_bind _ _ _ s0 _ (st_InstanceURL (patched_settings cur inp))).
    { simpl. destruct (ui_InstanceURL inp); [|apply runs_ret]. eapply runs_bind; apply runs_ret. }
    simpl in S1, S3, S4, S5, S6, S7, S8.
    rewrite (text_field_ok _ _ tls_ok), (text_field_ok _ _ mem_ok), (text_field_ok _ _ cpu_ok), (text_field_ok _ _ cron_ok) by done. simpl.
    rewrite (int_field_ok _ _ threshold_ok), !(int_field_ok _ _ positive_ok) by done. simpl.
    destruct (_ && _) eqn:E; [|apply runs_of_result]. apply andb_true_iff in E as [E1%String.eqb_eq E2%String.eqb_eq].
    by destruct (S2 E1). }
  unfold Update, reload. eexists. eapply runs_bind; [eapply runs_bind; [by apply runs_query|]; eapply runs_bind; [done|apply runs_ret]|].
  eapply runs_bind; [apply Hp|]. eapply runs_bind; [by apply runs_checked; rewrite checks_ok|].
  eapply runs_bind; [by apply runs_query|]. eapply runs_bind; [done|]. simpl. rewrite row_roundtrip. apply runs_ret.
Qed.
End Updating.

(** ** Histories *)

Inductive inst_call :=
  | IUpdate (zones : option ZoneRegistry) (now : Z) (inp : UpdateInput)
  | IGet
  | IAdmin (parse : string → option string) (id salt : string) (now : Z) (email password confirmation : string)
  | ISave (parse_url : string → option (string * string)) (instanceURL tlsMode : string)
  | IComplete
  | IRefresh
  | IStatus (rand : option string).

Section Histories.
Context `{Uc : Unicode} `{Cl : CryptoLib} (registered : string → Db → bool).

(** The computation behind a request, with its answer. *)
Definition inst_serve (c : inst_call) : iM Reply :=
  match c with
  | IUpdate zones now inp => answer db_error (Update zones now inp)
  | IGet => answer db_error Get
  | IAdmin parse id salt now email password confirmation => CreateAdmin parse id salt now email password confirmation
  | ISave parse_url url mode => SaveInstance_handler parse_url url mode
  | IComplete => Complete
  | IRefresh => answer db_error Refresh_
  | IStatus rand => answer db_error (EnsureInstanceID rand)
  end.

(** The registry of a request is sound. *)
Definition call_ok (c : inst_call) : Prop :=
  match c with IUpdate (Some z) _ _ => RegistryLaws registered z | _ => True end.

Definition history (l : list (inst_call * list bool)) (s : Inst) : Inst := foldl (λ s c, (inst_serve c.1 s c.2).1.1) s l.

Lemma history_keeps (I : Inst → Prop) l s : Forall (λ c, call_ok c.1) l → (∀ c, call_ok c → preserves I (inst_serve c)) → I s → I (history l s).
Proof.
  intros Hl Hc. revert s. induction Hl as [|[c fs] l Hok Hl IH]; intros s Hs; [done|]. apply IH. by apply Hc.
Qed.

Lemma answer_keeps {A} I code (m : iM A) : preserves I m → preserves I (answer code m).
Proof. intros Hm. apply preserves_bind; [by apply preserves_attempt|]. intros r. apply preserves_ret. Qed.

Lemma sel_rewritten k k' v l : sel (key_is k) (upd (key_is k') (λ _, (k', v)) l) =
  if k =s k' then (if List.existsb (key_is k') l then Some (k', v) else None) else sel (key_is k) l.
Proof.
  assert (Hk : ∀ a x y, key_is a (x, y) = (x =s a)) by done.
  induction l as [|[k0 v0] l IH]; [by destruct (k =s k')|]. cbn [upd List.map sel List.find List.existsb]. rewrite Hk.
  destruct (k0 =s k') eqn:E0; rewrite Hk; [apply String.eqb_eq in E0; subst k0|].
  - rewrite Hk, (String.eqb_sym k' k). destruct (k =s k') eqn:Ek; [done|]. exact IH.
  - destruct (k0 =s k) eqn:E1; [|done]. apply String.eqb_eq in E1. subst k0. by rewrite E0.
Qed.

Lemma setting_upsert k k' v d : setting k (upsert_setting k' v d) = if k =s k' then Some v else setting k d.
Proof.
  unfold setting, upsert_setting, on_settings. simpl. destruct (List.existsb (key_is k') (settings d)) eqn:E.
  - rewrite sel_rewritten, E. by destruct (k =s k').
  - rewrite sel_app. destruct (sel (key_is k) (settings d)) as [e|] eqn:Es; simpl.
    + apply sel_Some in Es as [He Hk]. pose proof (existsb_false_elem _ _ _ E He) as Hn. unfold key_is in Hk, Hn. bool_simp. subst.
      by destruct (e.1 =s k') eqn:Ek; bool_simp.
    + unfold key_is. simpl. rewrite (String.eqb_sym k k'). by destruct (k' =s k).
Qed.

Record inst_wf (s : Inst) : Prop := {
  iw_row : settings_ok (of_row (i_row s));
  iw_cache : ∀ c, i_cache s = Some c → settings_ok c;
  iw_flag : i_completed s = true → setting "setup_completed" (i_db s) = Some "true";
}.

(** [s] is a later state than [s0]. *)
Record later (s0 s : Inst) : Prop := {
  lt_wf : inst_wf s;
  lt_completed : i_completed s0 = true → i_completed s = true;
  lt_flag : setting "setup_completed" (i_db s0) = Some "true" → setting "setup_completed" (i_db s) = Some "true";
  lt_id : ∀ x, x ≠ "" → setting "instance_id" (i_db s0) = Some x → setting "instance_id" (i_db s) = Some x;
  lt_users : users (i_db s0) ≠ [] → users (i_db s) ≠ [];
}.

Lemma later_refl s : inst_wf s → later s s.
Proof. by split. Qed.

(** Writes to the database that keep the facts keep [later]. *)
Lemma later_db s0 s f : later s0 s →
  (setting "setup_completed" (i_db s) = Some "true" → setting "setup_completed" (f (i_db s)) = Some "true") →
  (∀ x, x ≠ "" → setting "instance_id" (i_db s) = Some x → setting "instance_id" (f (i_db s)) = Some x) →
  (users (i_db s) ≠ [] → users (f (i_db s)) ≠ []) → later s0 (on_idb f s).
Proof. intros [[W1 W2 W3] L1 L2 L3 L4] H1 H2 H3. split; [split|..]; simpl; auto. Qed.

Lemma later_upsert s0 s k v : k ≠ "setup_completed" → k ≠ "instance_id" → later s0 s → later s0 (on_idb (upsert_setting k v) s).
Proof.
  intros H1 H2 Hl. apply later_db; [done| | |done]; [intros Hs|intros x _ Hs]; rewrite setting_upsert, (proj2 (String.eqb_neq _ k)) by congruence; done.
Qed.

Lemma later_row s0 s s' : later s0 s → i_db s' = i_db s → i_completed s' = i_completed s → settings_ok (of_row (i_row s')) →
  (∀ c, i_cache s' = Some c → settings_ok c) → later s0 s'.
Proof. intros [[W1 W2 W3] L1 L2 L3 L4] Ed Ec H1 H2. split; [split|..]; rewrite ?Ed, ?Ec; auto. Qed.

Lemma get_later s0 : preserves (later s0) Get.
Proof.
  intros s Hs. apply reload_wp; [done|]. destruct (lt_wf _ _ Hs). eapply later_row; [done..|]. simpl. by intros c [= <-].
Qed.

Lemma update_later s0 zones now inp : call_ok (IUpdate zones now inp) → preserves (later s0) (Update zones now inp).
Proof.
  intros Hz s Hs. destruct (lt_wf _ _ Hs) as [W1 W2 W3].
  eapply wp_mono; [apply (update_wp registered); [|done]|].
  { intros z ->. exact Hz. }
  intros s' r (Ed & Ec & Hr). destruct r as [e|out].
  - destruct Hr as [[Er Hc]|(Hok & _ & Er & Hc & _)]; eapply later_row; try done; rewrite ?Er, ?row_roundtrip; try done.
    + intros c E. destruct Hc as [Hc|Hc]; rewrite Hc in E; [auto|]. by injection E as <-.
    + by apply at_time_ok.
    + intros c E. rewrite Hc in E. by injection E as <-.
  - destruct Hr as (Hok & _ & Er & -> & Hc). eapply later_row; try done; rewrite ?Er, ?row_roundtrip; [by apply at_time_ok|].
    intros c E. rewrite Hc in E. injection E as <-. by apply at_time_ok.
Qed.

Lemma save_later s0 p url mode : preserves (later s0) (SaveInstance_handler p url mode).
Proof.
  assert (Hs : ∀ u m, preserves (later s0) (answer db_error (SaveInstance u m))).
  { intros u m. apply answer_keeps. apply preserves_bind; [|intros _]; apply preserves_exec; intros d; by apply later_upsert. }
  unfold SaveInstance_handler. destruct (negb (tls_ok _)); [apply preserves_ret|].
  destruct (negb (_ =s "")); [destruct (normalizeInstanceURL _ _); [apply Hs|apply preserves_ret]|].
  destruct (negb _); [apply preserves_ret|apply Hs].
Qed.

Lemma admin_later s0 parse id salt now email pw conf : preserves (later s0) (CreateAdmin parse id salt now email pw conf).
Proof.
  unfold CreateAdmin. destruct (parse _) as [addr|]; [|apply preserves_ret]. destruct (negb (pw =s conf)); [apply preserves_ret|].
  destruct (negb (ValidateStrong pw)); [apply preserves_ret|].
  apply preserves_bind; [apply preserves_attempt, preserves_bind; [apply preserves_query|intros; apply preserves_ret]|].
  intros [e|[]]; try apply preserves_ret. destruct (HashPassword salt pw) as [e|hash]; [apply preserves_ret|].
  apply preserves_bind; [apply preserves_attempt, preserves_checked|].
  - intros s Hs. destruct (List.existsb _ _); [done|]. apply later_db; [done..|]. intros _ E. simpl in E. by apply app_eq_nil in E as [_ E].
  - intros [e|[]]; [apply preserves_ret|]. apply preserves_bind; [|intros; apply preserves_ret].
    apply preserves_ignore, preserves_exec. intros s Hs. apply later_db; [done..|]. simpl. intros Hu E. apply Hu.
    unfold upd in E. by apply List.map_eq_nil in E.
Qed.

Lemma status_later s0 rand : preserves (later s0) (EnsureInstanceID rand).
Proof.
  intros s Hs. unfold EnsureInstanceID. apply wp_bind, wp_query; [done|].
  assert (Hfresh : setting "instance_id" (i_db s) = None ∨ setting "instance_id" (i_db s) = Some "" →
    wp (buf ← of_result (match rand with None => inl (ErrInst "rand") | Some b => inr b end);
        let id := "prx_" ^^ EncodeHex buf in
        _ ← exec (ErrInst "insert instance_id") (on_idb (upsert_setting "instance_id" id)); mret id) (λ s' _, later s0 s') s).
  { intros Hn. apply wp_bind, wp_of_result. destruct rand as [b|]; [|done]. apply wp_bind, wp_exec; [done|]. apply wp_ret.
    apply later_db; [done| | |done]; [intros E; by rewrite setting_upsert|]. intros x Hx E. rewrite E in Hn. destruct Hn; simplify_eq. }
  destruct (setting "instance_id" (i_db s)) as [c|]; [|auto]. apply wp_if; intros E; [|by apply wp_ret]. bool_simp. subst. auto.
Qed.

(** The flag read back. *)
Lemma readSetup_wp s (Q : Inst → InstErr + bool → Prop) : (∀ e, Q s (inl e)) →
  Q s (inr (bool_decide (setting "setup_completed" (i_db s) = Some "true"))) → wp readSetupCompleted Q s.
Proof.
  intros H1 H2. apply wp_bind, wp_query; [done|]. apply wp_ret. destruct (setting _ _) as [v|]; [|done].
  destruct (v =s "true") eqn:E; bool_simp; [by subst|]. rewrite bool_decide_eq_false_2 in H2 by congruence. done.
Qed.

Lemma refresh_later s0 : preserves (later s0) Refresh_.
Proof.
  intros s Hs. apply wp_bind, readSetup_wp; [done|]. apply wp_modify. destruct Hs as [[W1 W2 W3] L1 L2 L3 L4]. split; [split|..]; simpl; auto.
  - intros E. by apply bool_decide_eq_true in E.
  - intros E. apply bool_decide_eq_true. auto.
Qed.

(** Both statements of [MarkComplete] are the upsert_setting of the flag. *)
Lemma update_is_upsert k v d v0 : setting k d = Some v0 → on_settings (upd (key_is k) (λ e, (e.1, v))) d = upsert_setting k v d.
Proof.
  unfold setting, upsert_setting, on_settings. intros E. f_equal. destruct (sel (key_is k) (settings d)) as [e|] eqn:Es; [|done].
  apply sel_Some in Es as [He Hk]. rewrite (proj2 (List.existsb_exists _ _)); [|exists e; split; [by apply list_elem_of_In|done]].
  apply upd_ext. intros r _ Hr. unfold key_is in Hr. bool_simp. by rewrite Hr.
Qed.

Lemma insert_is_upsert k v d : setting k d = None → on_settings (λ l, l ++ [(k, v)]) d = upsert_setting k v d.
Proof.
  unfold setting, upsert_setting, on_settings. intros E. f_equal. destruct (sel (key_is k) (settings d)) as [e|] eqn:Es; [done|].
  destruct (List.existsb _ _) eqn:Ex; [|done]. apply existsb_witness in Ex as (x & Hx & Hk). by rewrite (sel_None _ _ _ Es Hx) in Hk.
Qed.

(** Completing the wizard: an error changes nothing, a success sets the flag
    that was not set. *)
Lemma complete_wp s : wp MarkComplete (λ s' r, (∀ e, r = inl e → s' = s) ∧ (r = inr tt →
  setting "setup_completed" (i_db s) ≠ Some "true" ∧ i_completed s' = true ∧ setting "setup_completed" (i_db s') = Some "true" ∧
  i_row s' = i_row s ∧ i_cache s' = i_cache s ∧ users (i_db s') = users (i_db s) ∧
  setting "instance_id" (i_db s') = setting "instance_id" (i_db s))) s.
Proof.
  unfold MarkComplete. apply wp_bind, wp_tx; [done|]. apply wp_bind, wp_ignore, wp_exec.
  all: apply wp_bind, wp_query; [by split|].
  all: destruct (setting "setup_completed" (i_db s)) as [v|] eqn:Es; [apply wp_if; intros Ev; [by apply wp_throw|]|]; apply wp_exec; try by split.
  all: split; [by split|]; apply wp_modify; split; [done|]; intros _; simpl.
  all: (rewrite (update_is_upsert _ _ _ _ Es) || rewrite (insert_is_upsert _ _ _ Es)); rewrite !setting_upsert; split_and!; try done.
  all: intros [= ->]; by rewrite String.eqb_refl in Ev.
Qed.

Lemma complete_later s0 : preserves (later s0) Complete.
Proof.
  apply answer_keeps. intros s Hs. eapply wp_mono; [apply complete_wp|]. intros s' [e|[]] [He Hr]; [by rewrite (He e eq_refl)|].
  destruct (Hr eq_refl) as (_ & Hc & Hf & Er & Ec & Eu & Ei). destruct Hs as [[W1 W2 W3] L1 L2 L3 L4].
  split; [split|..]; rewrite ?Er, ?Ec, ?Eu, ?Ei; auto.
Qed.

Lemma serve_later s0 c : call_ok c → preserves (later s0) (inst_serve c).
Proof.
  destruct c as [zones now inp| |parse id salt now email pw conf|p url mode| | |rand]; intros Hc; simpl.
  - by apply answer_keeps, update_later.
  - apply answer_keeps, get_later.
  - apply admin_later.
  - apply save_later.
  - apply complete_later.
  - apply answer_keeps, refresh_later.
  - apply answer_keeps, status_later.
Qed.

Lemma history_later l s : Forall (λ c, call_ok c.1) l → inst_wf s → later s (history l s).
Proof. intros Hl Hs. apply history_keeps; [done|apply serve_later|by apply later_refl]. Qed.

(** Along every history of settings updates, reads and wizard requests,
    whatever fails, the settings row and its cache are valid: a known TLS mode,
    Let's Encrypt only with a host, limits of the accepted syntax, numbers in
    range; and the cached completion flag is never ahead of the database. *)
Theorem settings_typed l s : Forall (λ c, call_ok c.1) l → inst_wf s → inst_wf (history l s).
Proof. intros Hl Hs. apply (lt_wf _ _ (history_later l s Hl Hs)). Qed.

(** C32: The wizard is completed once and then sealed: after a request that
    completes it, in every later state no request completes it again and the gate
    refuses every setup path but the status; the database says so too, so a restart
    changes nothing. *)
Theorem wizard_once l fs s : Forall (λ c, call_ok c.1) l → inst_wf s → (inst_serve IComplete s fs).2 = inr ok_reply →
  let s' := history l (inst_serve IComplete s fs).1.1 in
  (∀ fs', (inst_serve IComplete s' fs').2 ≠ inr ok_reply) ∧
  (∀ path, HasPrefix path "/api/v1/setup/" = true → path ≠ "/api/v1/setup/status" → SetupGate (Completed s') path = Refused 404 "not_found") ∧
  setting "setup_completed" (i_db s') = Some "true".
Proof.
  intros Hl Hs Hok s'. 
  assert (Hc : ∀ s0 fs0, (inst_serve IComplete s0 fs0).2 = inr ok_reply → setting "setup_completed" (i_db s0) ≠ Some "true" ∧
    i_completed (inst_serve IComplete s0 fs0).1.1 = true ∧ setting "setup_completed" (i_db (inst_serve IComplete s0 fs0).1.1) = Some "true").
  { intros s0 fs0. enough (HW : wp Complete (λ s1 r, r = inr ok_reply → setting "setup_completed" (i_db s0) ≠ Some "true" ∧ i_completed s1 = true ∧
      setting "setup_completed" (i_db s1) = Some "true") s0) by apply HW.
    apply wp_bind, wp_attempt. eapply wp_mono; [apply complete_wp|]. intros s1 [e|[]] [_ Hr]; apply wp_ret; [destruct e; done|]. intros _.
    by destruct (Hr eq_refl) as (? & ? & ? & _). }
  destruct (Hc s fs Hok) as (_ & H1 & H2). assert (Hs1 : inst_wf (inst_serve IComplete s fs).1.1).
  { apply (lt_wf s). exact (serve_later s IComplete I s (later_refl s Hs) fs). }
  destruct (history_later l _ Hl Hs1) as [Hw Lc Lf _ _]. fold s' in Hw, Lc, Lf. specialize (Lc H1). specialize (Lf H2).
  split_and!; [|intros path Hp Hne|done].
  - intros fs' E. by destruct (Hc s' fs' E) as [Hn _].
  - unfold SetupGate, Completed. rewrite Lc, Hp, (proj2 (String.eqb_neq _ _) Hne). done.
Qed.

Lemma ensure_id_wp rand s : wp (EnsureInstanceID rand) (λ s' r, ∀ id, r = inr id → id ≠ "" ∧ setting "instance_id" (i_db s') = Some id ∧
  ∀ x, x ≠ "" → setting "instance_id" (i_db s) = Some x → id = x) s.
Proof.
  unfold EnsureInstanceID. apply wp_bind, wp_query; [done|].
  assert (Hfresh : (∀ x, x ≠ "" → setting "instance_id" (i_db s) ≠ Some x) →
    wp (buf ← of_result (match rand with None => inl (ErrInst "rand") | Some b => inr b end);
        let id := "prx_" ^^ EncodeHex buf in
        _ ← exec (ErrInst "insert instance_id") (on_idb (upsert_setting "instance_id" id)); mret id)
      (λ s' r, ∀ id, r = inr id → id ≠ "" ∧ setting "instance_id" (i_db s') = Some id ∧
        ∀ x, x ≠ "" → setting "instance_id" (i_db s) = Some x → id = x) s).
  { intros Hn. apply wp_bind, wp_of_result. destruct rand as [b|]; [|done]. apply wp_bind, wp_exec; [done|]. apply wp_ret.
    intros id [= <-]. split_and!; [done|simpl; by rewrite setting_upsert|]. intros x Hx E. by destruct (Hn x Hx). }
  destruct (setting "instance_id" (i_db s)) as [c|] eqn:Ec; [|by apply Hfresh]. apply wp_if; intros E; bool_simp.
  - subst. apply Hfresh. intros x Hx [= <-]. done.
  - apply wp_ret. intros id [= <-]. split_and!; [done|done|]. intros x _ [= <-]. done.
Qed.

(** The instance id never changes: once a status request has returned it,
    every later one returns the same, over any history. *)
Theorem instance_id_stable l rand fs s id : Forall (λ c, call_ok c.1) l → inst_wf s → (EnsureInstanceID rand s fs).2 = inr id →
  ∀ rand' fs' id', (EnsureInstanceID rand' (history l (EnsureInstanceID rand s fs).1.1) fs').2 = inr id' → id' = id.
Proof.
  intros Hl Hs Hid rand' fs' id' Hid'. destruct (ensure_id_wp rand s fs id Hid) as (Hne & Hset & _).
  assert (Hs1 : inst_wf (EnsureInstanceID rand s fs).1.1) by apply (lt_wf s), (status_later s rand s (later_refl s Hs) fs).
  destruct (history_later l _ Hl Hs1) as [_ _ _ Li _].
  destruct (ensure_id_wp rand' _ fs' id' Hid') as (_ & _ & Hx). by apply Hx, Li.
Qed.
End Histories.

(** ** The zones as registry *)

Section Registry.
Context `{Uc : Unicode} `{Ps : PublicSuffix}.

Definition zone_message (e : ZoneErr) : string :=
  match e with ErrInternalName => "cannot host internal/non-public name" | ErrInvalidApex => "invalid apex" | _ => "not found" end.
Definition zone_registry : ZoneRegistry := {|
  zr_ApexOf s := match ApexOf s with inl e => inl (zone_message e) | inr a => inr a end;
  zr_ApexRegistered apex := zoom (λ d, d) (λ d _, d) (λ _, ErrInst "zone lookup") (ApexRegistered apex);
|}.
Definition in_table (apex : string) (d : Db) : bool := (0 <? cnt (apex_is (ToLower (TrimSpace apex))) (dns_zones d))%nat.

Lemma zone_registry_laws : RegistryLaws in_table zone_registry.
Proof.
  split. intros apex d. apply wp_zoom. apply wp_bind, wp_query; [done|]. apply wp_ret. split; [done|]. by intros b [= <-].
Qed.
End Registry.

(** ** The defaults of new apps *)

Lemma mem_limit v : mem_ok v = true → TrimSpace v = v ∧ limit_ok Apps.memRegex (Some v) = true.
Proof.
  unfold mem_ok. intros [->%String.eqb_eq|Hm]%orb_true_iff; [done|].
  assert (Ht : TrimSpace v = v) by by apply TrimSpace_id, memRegex_graphic.
  split; [done|]. unfold limit_ok. rewrite Ht. apply orb_true_iff. by right.
Qed.

Lemma cpu_limit v : cpu_ok v = true → TrimSpace v = v ∧ limit_ok Apps.cpuRegex (Some v) = true.
Proof.
  unfold cpu_ok. intros [->%String.eqb_eq|Hm]%orb_true_iff; [done|].
  assert (Ht : TrimSpace v = v) by by apply TrimSpace_id, cpuRegex_graphic.
  split; [done|]. unfold limit_ok. rewrite Ht. apply orb_true_iff. by right.
Qed.

Lemma inherit_limit r v dflt : limit_ok r (Some dflt) = true → limit_ok r (inherit v dflt) = limit_ok r v.
Proof.
  intros Hd. unfold inherit. destruct (isBlankPtr v) eqn:Eb; [|done]. destruct (dflt =s ""); cbn [negb andb]; [done|]. rewrite Hd.
  destruct v as [v|]; [|done]. unfold isBlankPtr in Eb. unfold limit_ok. by rewrite Eb.
Qed.

(** The instance defaults never get an app refused: in every state the
    settings reach, the check of the limits of a new app, with the cached defaults
    in place of blank ones, gives exactly the answer for the limits in the
    request; and the deploy engine always has at least one slot. *)
Theorem defaults_accepted s git tags inp : inst_wf s →
  let limits := limits_of (Apps.mkService git (Some (DefaultLimits s)) tags) inp in
  validateLimits limits.1 limits.2 = validateLimits (c_LimitsMemory inp) (c_LimitsCPUs inp) ∧ (1 <= MaxConcurrentDeploys s)%Z.
Proof.
  intros [_ Hc _]. unfold limits_of, DefaultLimits, Cached. simpl.
  assert (Hok : settings_ok (default zero_settings (i_cache s))) by (destruct (i_cache s) eqn:E; [by apply Hc|by split]).
  destruct Hok. split.
  - unfold validateLimits. by rewrite !inherit_limit by (by apply mem_limit || by apply cpu_limit).
  - unfold MaxConcurrentDeploys, Cached. destruct (_ <? 1)%Z eqn:E; bool_simp; lia.
Qed.

(** ** The schedule *)

(** A field of a schedule: a number, or [None] for the star. *)
Definition show_field (f : option Z) : string := match f with None => "*" | Some n => Itoa n end.
Definition field_allows (f : option Z) (now : Z) : bool := match f with None => true | Some n => (n =? now)%Z end.
Definition cron_text (minute hour dom month dow : option Z) : string :=
  show_field minute ^^ " " ^^ show_field hour ^^ " " ^^ show_field dom ^^ " " ^^ show_field month ^^ " " ^^ show_field dow.
Definition small (f : option Z) : Prop := match f with None => True | Some n => (0 <= n < 60)%Z end.

Lemma show_plain f : small f → Forall (λ c, graphic (byte c) = true) (String.list_ascii_of_string (show_field f)) ∧
  String.list_ascii_of_string (show_field f) ≠ [] ∧ atoiOrStar (show_field f) = Some (default (-1)%Z f).
Proof.
  destruct f as [n|]; intros Hn; [|by repeat constructor]. simpl in *. destruct (Itoa_spec n ltac:(lia)) as [Hd _].
  pose proof (Atoi_Itoa n ltac:(lia)) as Ha. split_and!.
  - eapply List.Forall_impl; [|exact Hd]. intros c Hc. by apply digits_graphic.
  - intros E. unfold Atoi in Ha. by rewrite E in Ha.
  - unfold atoiOrStar. destruct (Itoa n =s "*") eqn:E; [|done]. bool_simp. by rewrite E in Ha.
Qed.

Lemma Fields_cron a b c d e : small a → small b → small c → small d → small e →
  Fields (cron_text a b c d e) = [show_field a; show_field b; show_field c; show_field d; show_field e].
Proof.
  intros (A1 & A2 & _)%show_plain (B1 & B2 & _)%show_plain (C1 & C2 & _)%show_plain (D1 & D2 & _)%show_plain (E1 & E2 & _)%show_plain.
  unfold Fields, cron_text. rewrite !list_of_app. simpl.
  rewrite (proj1 (fields_word _ [] _ A1 A2)), (proj1 (fields_word _ [] _ B1 B2)), (proj1 (fields_word _ [] _ C1 C2)),
    (proj1 (fields_word _ [] _ D1 D2)), (proj2 (fields_word _ [] [] E1 E2)). simpl. by rewrite !String.string_of_list_ascii_of_string.
Qed.

Lemma unit_allows f now : small f → (0 <= now)%Z → unit_matches (default (-1)%Z f) now = field_allows f now.
Proof. destruct f as [n|]; simpl; intros Hn Hnow; [|done]. unfold unit_matches. by rewrite (proj2 (Z.eqb_neq n (-1))) by lia. Qed.

(** The cleanup runs exactly when it is scheduled: a schedule of numbers
    and stars fires in a minute when that minute, the hour and the day of the week
    agree with its fields, and at no other time; the day of the month and the month
    do not count. *)
Theorem schedule_spec minute hour dom month dow now :
  small minute → small hour → small dom → small month → small dow →
  (0 <= mo_Minute now)%Z → (0 <= mo_Hour now)%Z → (0 <= mo_Weekday now)%Z →
  scheduleMatches (cron_text minute hour dom month dow) now =
    field_allows minute (mo_Minute now) && field_allows hour (mo_Hour now) && field_allows dow (mo_Weekday now).
Proof.
  intros Hm Hh Hd Hmo Hw N1 N2 N3. unfold scheduleMatches. rewrite Fields_cron by done.
  rewrite (proj2 (proj2 (show_plain _ Hm))), (proj2 (proj2 (show_plain _ Hh))), (proj2 (proj2 (show_plain _ Hw))).
  rewrite !unit_allows by done. destruct (field_allows minute _), (field_allows hour _), (field_allows dow _); done.
Qed.

(** ** The release check *)

(** GitHub is not asked again within a day of an answer, nor within five
    minutes of a failure that followed an answer, and the answer stays available
    meanwhile. *)
Theorem release_check_backs_off now now' rel c : vi_Version (ck_cached c) ≠ "" →
  let '(c1, v, asked) := Checker_Get now now' rel c in
  asked = true → vi_Version (ck_cached c1) ≠ "" →
  ∀ t t' rel', (t < now' + (match fetch rel with Some _ => ck_ttl | None => ck_failTTL end))%Z →
  Checker_Get t t' rel' c1 = (c1, v, false) ∧ (fetch rel = None → v = ck_cached c).
Proof.
  intros Hv. unfold Checker_Get at 1. destruct (_ && _); [done|]. destruct (fetch rel) as [fresh|] eqn:Ef; intros _ Hne t t' rel' Ht;
    (split; [|done]); unfold Checker_Get; cbn [ck_cached ck_fetchedAt] in *; rewrite (proj2 (String.eqb_neq _ _) Hne), (proj2 (Z.ltb_lt _ _)) by (unfold ck_ttl, ck_failTTL in *; lia); done.
Qed.

(** ** A concrete state *)

Definition first_row : SettingsRow := to_row 1 (mkSettings "" TLSModeSelfSigned "" "" false "0 3 * * *" 80 5 3 false "Prexel is currently under maintenance." 0).
Definition fresh_inst : Inst := mkInst one_zone first_row None false.
Definition panel_patch : UpdateInput :=
  mkUpdateInput (Some "https://www.api.example.com/") (Some "letsencrypt") (Some "512m") None None None None None (Some 5%Z) None None.
Definition real_zones : ZoneRegistry := zone_registry (Uc := ascii_only) (Ps := two_names).

Lemma fresh_wf : inst_wf fresh_inst.
Proof. split; [by split|done|done]. Qed.

Lemma real_zones_laws : RegistryLaws (in_table (Uc := ascii_only)) real_zones.
Proof. apply zone_registry_laws. Qed.

Lemma settings_update_witness :
  wp (Update (Some real_zones) 9 panel_patch) (update_outcome (in_table (Uc := ascii_only)) (Some real_zones) 9 panel_patch fresh_inst) fresh_inst.
Proof. apply settings_update; [|by split]. intros z [= <-]. apply real_zones_laws. Defined.

Definition wizard_calls : list (inst_call * list bool) :=
  [(IUpdate (Some real_zones) 9 panel_patch, []); (ISave (λ _, Some ("example.com", "")) "example.com" "letsencrypt", [false; true]);
   (IStatus (Some "abcd"), [])].
Lemma wizard_calls_ok : Forall (λ c, call_ok (in_table (Uc := ascii_only)) c.1) wizard_calls.
Proof. apply List.Forall_cons; [apply real_zones_laws|]. by repeat constructor. Qed.

Lemma settings_typed_witness : inst_wf (history (Uc := ascii_only) (Cl := toy_lib) wizard_calls fresh_inst).
Proof. apply (settings_typed (Uc := ascii_only) (Cl := toy_lib) (in_table (Uc := ascii_only))); [apply wizard_calls_ok|apply fresh_wf]. Defined.

Lemma wizard_once_witness :
  let s' := history (Uc := ascii_only) (Cl := toy_lib) wizard_calls (inst_serve (Uc := ascii_only) (Cl := toy_lib) IComplete fresh_inst []).1.1 in
  (∀ fs', (inst_serve (Uc := ascii_only) (Cl := toy_lib) IComplete s' fs').2 ≠ inr ok_reply) ∧
  (∀ path, HasPrefix path "/api/v1/setup/" = true → path ≠ "/api/v1/setup/status" → SetupGate (Completed s') path = Refused 404 "not_found") ∧
  setting "setup_completed" (i_db s') = Some "true".
Proof.
  apply (wizard_once (Uc := ascii_only) (Cl := toy_lib) (in_table (Uc := ascii_only)) wizard_calls [] fresh_inst); [apply wizard_calls_ok|apply fresh_wf|].
  vm_compute. reflexivity.
Defined.

Lemma instance_id_stable_witness : ∀ rand' fs' id',
  (EnsureInstanceID rand' (history (Uc := ascii_only) (Cl := toy_lib) wizard_calls (EnsureInstanceID (Some "wxyz") fresh_inst []).1.1) fs').2 = inr id' → id' = "prx_7778797a".
Proof.
  apply (instance_id_stable (Uc := ascii_only) (Cl := toy_lib) (in_table (Uc := ascii_only)) wizard_calls (Some "wxyz") [] fresh_inst "prx_7778797a");
    [apply wizard_calls_ok|apply fresh_wf|]. vm_compute. reflexivity.
Defined.

Lemma defaults_accepted_witness :
  let s := (run (Update (Some real_zones) 9 panel_patch) fresh_inst).1 in
  DefaultLimits s = ("512m", "") ∧
  ∀ inp, let limits := limits_of (Apps.mkService true (Some ("512m", "")) None) inp in
    validateLimits limits.1 limits.2 = validateLimits (c_LimitsMemory inp) (c_LimitsCPUs inp) ∧ (1 <= MaxConcurrentDeploys s)%Z.
Proof.
  split; [by vm_compute|]. intros inp.
  apply (defaults_accepted (run (Update (Some real_zones) 9 panel_patch) fresh_inst).1 true None inp).
  split; [by split; vm_compute|intros c; vm_compute; intros [= <-]; by split|by vm_compute].
Defined.

Lemma schedule_spec_witness : scheduleMatches "30 3 * * 0" (mkMoment 30 3 0) = true.
Proof. apply (schedule_spec (Some 30%Z) (Some 3%Z) None None (Some 0%Z) (mkMoment 30 3 0)); simpl; lia. Defined.

(** ** Where the code and its comments differ *)

(** A step schedule is accepted and never fires. *)
Lemma step_never_fires : cron_ok "*/15 * * * *" = true ∧ ∀ now, scheduleMatches "*/15 * * * *" now = false.
Proof. split; [by vm_compute|]. intros now. by vm_compute. Qed.

(** A minute of -1 counts as the star. *)
Lemma minus_one_fires : cron_ok "-1 3 * * *" = true ∧ ∀ m d, scheduleMatches "-1 3 * * *" (mkMoment m 3 d) = true.
Proof. split; [by vm_compute|]. intros m d. by vm_compute. Qed.

(** Two updates of different fields that overlap: the second undoes the first. *)
Lemma lost_update :
  let pa := mkUpdateInput None None None None None None None None None (Some true) None in
  let pb := mkUpdateInput None None None None None None None None (Some 7%Z) None None in
  let overlap := a ← reload; b ← reload; na ← patch None a pa; nb ← patch None b pb; _ ← store 8 na; _ ← store 9 nb; reload in
  let serial := _ ← Update None 8 pa; Update None 9 pb in
  (match (run overlap fresh_inst).2 with inr out => st_MaintenanceMode out | inl _ => true end) = false ∧
  (match (run serial fresh_inst).2 with inr out => st_MaintenanceMode out | inl _ => false end) = true.
Proof. by vm_compute. Qed.

(** The wizard and the settings service keep the panel's host and TLS mode in
    two places: neither sees what the other wrote. *)
Lemma wizard_settings_unread :
  let s1 := (run (SaveInstance_handler (λ _, Some ("panel.example.com", "")) "panel.example.com" "letsencrypt") fresh_inst).1 in
  (run (SaveInstance_handler (λ _, Some ("panel.example.com", "")) "panel.example.com" "letsencrypt") fresh_inst).2 = inr ok_reply ∧
  match (run Get s1).2 with inr out => (st_InstanceURL out, st_TLSMode out) = ("", "self-signed") | inl _ => False end ∧
  let s2 := (run (Update (Some real_zones) 9 (mkUpdateInput (Some "api.example.com") (Some "letsencrypt") None None None None None None None None None)) fresh_inst).1 in
  ir_tls_mode (i_row s2) = "letsencrypt" ∧ setting "tls_mode" (i_db s2) = None.
Proof. by vm_compute. Qed.

(** In maintenance the application itself is refused, and with it the page on
    which an administrator would end it. *)
Lemma maintenance_hides_panel s : st_MaintenanceMode s = true →
  Maintenance s "/" = Unavailable (st_MaintenanceMessage s) ∧ Maintenance s "/api/v1/auth/password" = Unavailable (st_MaintenanceMessage s).
Proof. unfold Maintenance. by intros ->. Qed.

(** Before the first answer a failure is not remembered: every call asks. *)
Lemma cold_start_asks_again now t : (Checker_Get t t None (Checker_Get now now None (mkChecker (mkVersionInfo "" "" 0) 0)).1.1).2 = true.
Proof. done. Qed.
