(* ===== verification/Caddy.v ===== *)
(** * The client of the Caddy admin API (internal/caddy: client.go, config.go,
    errors.go)

    Caddy itself is not part of the repository: the HTTP exchange with its
    admin API is the class [AdminAPI], its documented behaviour on the list of
    routes of the server [srv0] the class [AdminLaws].  Over them the methods of
    the client are translated, and shown to keep the laws of [Routing] that the
    domain service and the deploy engine rely on, in the runs in which Caddy
    never refuses the PATCH of a route it has and accepts the POST the client
    sends next ([obeys]). *)

From S2P Require Import Prelude Effects GoStrings Routing Domains.
From stdpp Require relations.

(** ** JSON values *)

Inductive json :=
  | JNull
  | JBool (b : bool)
  | JNum (n : Z)
  | JStr (s : string)
  | JArr (l : list json)
  | JObj (l : list (string * json)).

Fixpoint assoc (k : string) (l : list (string * json)) : option json :=
  match l with
  | [] => None
  | (k', v) :: l => if k' =s k then Some v else assoc k l
  end.

(** [m[k]] of a map; [m[k].(map[string]any)], [m[k].([]any)] and so on with
    their comma-ok forms. *)
Definition field (k : string) (j : json) : option json := match j with JObj l => assoc k l | _ => None end.
Definition obj_field (k : string) (j : json) : option json :=
  match field k j with Some (JObj l) => Some (JObj l) | _ => None end.
Fixpoint obj_path (ks : list string) (j : json) : option json :=
  match ks with
  | [] => Some j
  | k :: ks => match obj_field k j with Some j => obj_path ks j | None => None end
  end.
Definition arr_field (k : string) (j : json) : list json :=
  match field k j with Some (JArr l) => l | _ => [] end.
Definition str_of (j : json) : option string := match j with JStr s => Some s | _ => None end.
Definition str_field (k : string) (j : json) : option string := field k j ≫= str_of.
Definition strs_field (k : string) (j : json) : list string := omap str_of (arr_field k j).

(** ** Errors (errors.go) *)

Inductive CaddyErr :=
  | ErrRouteNotFound
  | ErrAdminUnreachable (detail : string)
  | ErrBadResponse (detail : string)
  | ErrText (msg : string)
  | ErrWrap (before : string) (e : CaddyErr) (after : string).

(** [err.Error()] and [errors.Is(err, ErrRouteNotFound)]. *)
Fixpoint Error (e : CaddyErr) : string :=
  match e with
  | ErrRouteNotFound => "caddy: route not found"
  | ErrAdminUnreachable d => "caddy: admin API unreachable: " ^^ d
  | ErrBadResponse d => "caddy: bad response from admin API: " ^^ d
  | ErrText m => m
  | ErrWrap before e after => before ^^ Error e ^^ after
  end.
Fixpoint is_not_found (e : CaddyErr) : bool :=
  match e with ErrRouteNotFound => true | ErrWrap _ e _ => is_not_found e | _ => false end.

(** ** Configuration objects (config.go) *)

(** crypto/sha1: the first four bytes of the digest, in hexadecimal. *)
Class Sha1 := { sha1_4 : string → string }.

(** [-n] on a 64-bit int. *)
Definition neg64 (n : Z) : Z := if (n =? - 2 ^ 63)%Z then n else (- n)%Z.

(** The loop of [itoa]: digits from the last one on; the buffer has room for twenty. *)
Fixpoint itoa_loop (fuel : nat) (n : Z) (buf : string) : string :=
  match fuel with
  | O => buf
  | S k => if (0 <? n)%Z then itoa_loop k (n / 10) (String (digit (n mod 10)) buf) else buf
  end.
Definition itoa (n : Z) : string :=
  if (n =? 0)%Z then "0"
  else if (n <? 0)%Z then "-" ^^ itoa_loop 20 (neg64 n) "" else itoa_loop 20 n "".

Definition joinHostPort (host : string) (port : Z) : string := host ^^ ":" ^^ itoa port.

Section Config.
Context `{Sha1}.

Definition route_slug (host : string) : string :=
  ReplaceAll (ReplaceAll (ReplaceAll host "." "_") ":" "_") "*" "wildcard".
Definition routeID (host : string) : string :=
  let slug := route_slug host in
  "prexel_route_" ^^ (if (60 <? len slug)%Z then take_s 60 slug ^^ "_" ^^ sha1_4 host else slug).
Definition httpPassthroughRouteID (host : string) : string :=
  "prexel_http_" ^^ drop_s (String.length "prexel_route_") (routeID host).

Definition reverse_proxy (upstream : string) (port : Z) : json :=
  JArr [JObj [("handler", JStr "reverse_proxy");
              ("upstreams", JArr [JObj [("dial", JStr (joinHostPort upstream port))]])]].

Definition makeRoute (host upstream : string) (port : Z) : json :=
  JObj [("@id", JStr (routeID host));
        ("match", JArr [JObj [("host", JArr [JStr host])]]);
        ("handle", reverse_proxy upstream port);
        ("terminal", JBool true)].

Definition makeHTTPPassthroughRoute (host upstream : string) (port : Z) : json :=
  JObj [("@id", JStr (httpPassthroughRouteID host));
        ("match", JArr [JObj [("host", JArr [JStr host]); ("protocol", JStr "http")]]);
        ("handle", reverse_proxy upstream port);
        ("terminal", JBool true)].
End Config.

Definition baseConfig : json :=
  JObj [("admin", JObj [("listen", JStr "0.0.0.0:2019")]);
        ("logging", JObj [("logs", JObj [("default", JObj [("level", JStr "INFO")])])]);
        ("apps", JObj [("http", JObj [("servers", JObj [("srv0",
           JObj [("listen", JArr [JStr ":80"; JStr ":443"]);
                 ("routes", JArr []);
                 ("automatic_https", JObj [("disable", JBool false)])])])])])].

(** ** The admin API *)

(** The body of an answer as a JSON decoder sees it. *)
Inductive Decoded := DecEOF | DecBad (msg : string) | DecJson (j : json).
Record Response := mkResponse { rs_status : Z; rs_text : string; rs_decoded : Decoded }.
(** A request that cannot be built, one without an answer, or an answer. *)
Inductive Outcome := BadRequest (msg : string) | NoAnswer (msg : string) | Answer (r : Response).

Class AdminAPI (C : Type) := {
  (** [exchange method path body]. *)
  exchange : string → string → option json → C → C * Outcome;
}.

Definition errFromBody (method path : string) (r : Response) : CaddyErr :=
  ErrText ("caddy: admin API " ^^ method ^^ " " ^^ path ^^ " -> " ^^ Itoa (rs_status r) ^^ ": "
           ^^ TrimSpace (take_s 4096 (rs_text r))).

(** What [do] makes of the outcome. *)
Definition outcome_error (method path : string) (o : Outcome) : option CaddyErr :=
  match o with
  | BadRequest m => Some (ErrText m)
  | NoAnswer m => Some (ErrAdminUnreachable m)
  | Answer r =>
    if (rs_status r =? 404)%Z then Some ErrRouteNotFound
    else if negb (rs_status r / 100 =? 2)%Z then Some (errFromBody method path r)
    else None
  end.

Definition isInvalidTraversal (e : CaddyErr) : bool := Contains (Error e) "invalid traversal path".

(** ** The client (client.go) *)

Section Client.
Context {C : Type} `{AA : AdminAPI C} `{Sh : Sha1}.
Local Abbreviation cM := (M C CaddyErr).

Definition send (method path : string) (body : option json) : cM Outcome := λ c fs,
  let '(c', o) := exchange method path body c in (c', fs, inr o).

(** [do] without a target to decode into, as every caller has it. *)
Definition do_ (method path : string) (body : option json) : cM unit :=
  o ← send method path body;
  match outcome_error method path o with
  | Some e => throw e
  | None => mret tt
  end.

Definition Ping : cM unit :=
  o ← send "GET" "/config/" None;
  match o with
  | BadRequest m => throw (ErrText m)
  | NoAnswer m => throw (ErrAdminUnreachable m)
  | Answer r =>
    if negb (rs_status r / 100 =? 2)%Z
    then throw (ErrAdminUnreachable ("status " ^^ Itoa (rs_status r) ^^ ": " ^^ take_s 512 (rs_text r)))
    else mret tt
  end.

Definition GetConfig : cM json :=
  o ← send "GET" "/config/" None;
  match o with
  | BadRequest m => throw (ErrText m)
  | NoAnswer m => throw (ErrAdminUnreachable m)
  | Answer r =>
    if negb (rs_status r / 100 =? 2)%Z then throw (errFromBody "GET" "/config/" r)
    else match rs_decoded r with
         | DecEOF | DecJson JNull => mret (JObj [])
         | DecJson (JObj l) => mret (JObj l)
         | DecBad m => throw (ErrBadResponse ("decode config: " ^^ m))
         | DecJson _ => throw (ErrBadResponse "decode config: cannot unmarshal")
         end
  end.

Definition LoadConfig (full : json) : cM unit := do_ "POST" "/load" (Some full).
Definition BootstrapBaseConfig : cM unit := LoadConfig baseConfig.

Definition routes_path : string := "/config/apps/http/servers/srv0/routes".
Definition skip_path : string := "/config/apps/http/servers/srv0/automatic_https/skip".

(** PATCH, and POST when it fails, whatever the failure is; a missing [srv0] is
    created once. *)
Definition upsertSingleRoute (route : json) (id : string) : cM unit :=
  r ← attempt (do_ "PATCH" ("/id/" ^^ id) (Some route));
  match r with
  | inr _ => mret tt
  | inl _ =>
    r ← attempt (do_ "POST" routes_path (Some route));
    match r with
    | inr _ => mret tt
    | inl e =>
      if isInvalidTraversal e then
        b ← attempt BootstrapBaseConfig;
        match b with
        | inl boot => throw (ErrWrap "caddy: bootstrap during upsert: " boot (" (original: " ^^ Error e ^^ ")"))
        | inr _ => do_ "POST" routes_path (Some route)
        end
      else throw e
    end
  end.

(** DELETE of the sibling route; a 404 is fine. *)
Definition drop_passthrough (host : string) : cM unit :=
  r ← attempt (do_ "DELETE" ("/id/" ^^ httpPassthroughRouteID host) None);
  match r with
  | inl e => if is_not_found e then mret tt
             else throw (ErrWrap ("caddy: drop http passthrough " ^^ host ^^ ": ") e "")
  | inr _ => mret tt
  end.

Definition UpsertRoute (host upstream : string) (port : Z) (forceHTTPS : bool) : cM unit :=
  if host =s "" then throw (ErrText "caddy: UpsertRoute: empty host")
  else if upstream =s "" then throw (ErrText "caddy: UpsertRoute: empty upstream")
  else if (port <=? 0)%Z || (65535 <? port)%Z
  then throw (ErrText ("caddy: UpsertRoute: invalid port " ^^ Itoa port))
  else
    _ ← upsertSingleRoute (makeRoute host upstream port) (routeID host);
    if negb forceHTTPS
    then upsertSingleRoute (makeHTTPPassthroughRoute host upstream port) (httpPassthroughRouteID host)
    else drop_passthrough host.

Definition RemoveRoute (host : string) : cM unit :=
  if host =s "" then throw (ErrText "caddy: RemoveRoute: empty host")
  else
    _ ← drop_passthrough host;
    do_ "DELETE" ("/id/" ^^ routeID host) None.

Definition readSkipList (cfg : json) : list string :=
  match obj_path ["apps"; "http"; "servers"; "srv0"; "automatic_https"] cfg with
  | None => []
  | Some ah => strs_field "skip" ah
  end.

Definition putSkipList (l : list string) : cM unit := do_ "PATCH" skip_path (Some (JArr (JStr <$> l))).

Definition addToSkip (host : string) : cM unit :=
  cfg ← GetConfig;
  let skip := readSkipList cfg in
  if List.existsb (λ h, h =s host) skip then mret tt else putSkipList (skip ++ [host]).

Definition removeFromSkip (host : string) : cM unit :=
  cfg ← GetConfig;
  let skip := readSkipList cfg in
  if negb (List.existsb (λ h, h =s host) skip) then mret tt
  else putSkipList (List.filter (λ h, negb (h =s host)) skip).

Definition EnableTLS (host : string) : cM unit :=
  if host =s "" then throw (ErrText "caddy: EnableTLS: empty host") else removeFromSkip host.
Definition DisableTLS (host : string) : cM unit :=
  if host =s "" then throw (ErrText "caddy: DisableTLS: empty host") else addToSkip host.
End Client.

(** ** What the routes say *)

Definition rid (r : json) : option string := str_field "@id" r.
Definition has_id (id : string) (r : json) : bool := match rid r with Some i => i =s id | None => false end.

(** A matcher set names the host; for plain HTTP only, or not. *)
Definition names_host (h : string) (m : json) : bool := List.existsb (λ x, x =s h) (strs_field "host" m).
Definition http_only (m : json) : bool := match str_field "protocol" m with Some p => p =s "http" | None => false end.
Definition serves (h : string) (r : json) : bool :=
  List.existsb (λ m, names_host h m && negb (http_only m)) (arr_field "match" r).
Definition passes (h : string) (r : json) : bool :=
  List.existsb (λ m, names_host h m && http_only m) (arr_field "match" r).

(** The upstream of a route, read back from its dial address. *)
Fixpoint parse_rev (l : list ascii) (unit_ acc : Z) : option (list ascii * Z) :=
  match l with
  | [] => None
  | c :: l =>
    if Ascii.eqb c ":"%char then Some (l, acc)
    else if in_range 48 57 (byte c) then parse_rev l (10 * unit_) (acc + unit_ * (byte c - 48)) else None
  end.
Definition parse_dial (s : string) : option (string * Z) :=
  match parse_rev (rev (String.list_ascii_of_string s)) 1 0 with
  | Some (l, p) => Some (String.string_of_list_ascii (rev l), p)
  | None => None
  end.
Definition target (r : json) : option (string * Z) :=
  match arr_field "handle" r with
  | h :: _ => match arr_field "upstreams" h with
              | u :: _ => str_field "dial" u ≫= parse_dial
              | [] => None
              end
  | [] => None
  end.

(** Where Caddy sends the host: the first route that names it decides. *)
Definition entry (l : list json) (h : string) : option Route :=
  match List.find (serves h) l with
  | Some r => match target r with
              | Some (u, p) => Some (mkRoute u p (negb (List.existsb (passes h) l)))
              | None => None
              end
  | None => None
  end.

(** *** Dial addresses *)

Lemma list_of_string_app a b :
  String.list_ascii_of_string (a ^^ b) = String.list_ascii_of_string a ++ String.list_ascii_of_string b.
Proof. induction a as [|c a IH]; [done|]. simpl. by rewrite <- IH. Qed.

Lemma digit_byte n : (0 <= n < 10)%Z → byte (digit n) = (48 + n)%Z.
Proof. intros. unfold digit. apply byte_of_byte. lia. Qed.

Lemma itoa_loop_digits fuel n buf : (0 <= n < 10 ^ Z.of_nat fuel)%Z → ∃ ds,
  String.list_ascii_of_string (itoa_loop fuel n buf) = ds ++ String.list_ascii_of_string buf ∧
  ∀ rest u acc, parse_rev (rev ds ++ rest) u acc = parse_rev rest (u * 10 ^ Z.of_nat (length ds)) (acc + u * n).
Proof.
  revert n buf. induction fuel as [|k IH]; intros n buf Hn.
  { exists []. split; [done|]. intros. simpl. replace n with 0%Z by (simpl in Hn; lia). f_equal; lia. }
  simpl. destruct (0 <? n)%Z eqn:E; [apply Z.ltb_lt in E|].
  2:{ apply Z.ltb_ge in E. exists []. split; [done|]. intros. simpl. replace n with 0%Z by lia. f_equal; lia. }
  pose proof (Z.div_mod n 10 ltac:(lia)) as Hdm. pose proof (Z.mod_pos_bound n 10 ltac:(lia)) as Hm.
  destruct (IH (n / 10)%Z (String (digit (n mod 10)) buf)) as (ds & Hl & Hp).
  { rewrite Nat2Z.inj_succ, Z.pow_succ_r in Hn by lia. split; [apply Z.div_pos; lia|]. apply Z.div_lt_upper_bound; lia. }
  exists (ds ++ [digit (n mod 10)]). split; [rewrite Hl; simpl; by rewrite <- app_assoc|].
  intros rest u acc. rewrite rev_app_distr. simpl.
  destruct (Ascii.eqb_spec (digit (n mod 10)) ":"%char) as [Ec|_].
  { exfalso. apply (f_equal byte) in Ec. rewrite digit_byte in Ec by lia. change (byte ":"%char) with 58%Z in Ec. lia. }
  rewrite digit_byte by lia. rewrite (proj2 (in_range_spec 48 57 _)) by lia. rewrite Hp. f_equal.
  - rewrite length_app, Nat2Z.inj_add. simpl. rewrite Z.pow_add_r by lia. lia.
  - nia.
Qed.

Lemma dial_roundtrip u p : (0 < p <= 65535)%Z → parse_dial (joinHostPort u p) = Some (u, p).
Proof.
  intros Hp. unfold parse_dial, joinHostPort, itoa.
  rewrite (proj2 (Z.eqb_neq p 0)) by lia. rewrite (proj2 (Z.ltb_ge p 0)) by lia.
  destruct (itoa_loop_digits 20 p "") as (ds & Hl & Hd); [simpl; lia|].
  rewrite !list_of_string_app, Hl, app_nil_r, !rev_app_distr, <- app_assoc, Hd. simpl.
  rewrite rev_involutive, String.string_of_list_ascii_of_string. by destruct p.
Qed.

(** *** Route ids *)

Section Ids.
Context `{Sh : Sha1}.

Lemma substring_all s : String.substring 0 (String.length s) s = s.
Proof. induction s as [|c s IH]; [done|]. simpl. by rewrite IH. Qed.

Lemma take_length n s : n <= String.length s → String.length (take_s n s) = n.
Proof.
  unfold take_s. revert s. induction n as [|n IH]; intros [|c s] Hn; simpl in *; [done..|lia|].
  rewrite IH by lia. done.
Qed.

Lemma string_app_inj a a' b b' : String.length a = String.length a' → a ^^ b = a' ^^ b' → a = a' ∧ b = b'.
Proof.
  revert a'. induction a as [|c a IH]; intros [|c' a'] Hl E; simpl in Hl; [done|done|done|].
  rewrite !string_app_cons in E. injection E as -> E. apply IH in E as [-> ->]; [done|lia].
Qed.

Lemma passthrough_id h : ∃ s, routeID h = "prexel_route_" ^^ s ∧ httpPassthroughRouteID h = "prexel_http_" ^^ s.
Proof.
  unfold httpPassthroughRouteID, routeID. eexists. split; [reflexivity|]. f_equal.
  match goal with |- _ = ?x => generalize x; intros s end. unfold drop_s. rewrite string_app_length.
  change (String.length "prexel_route_") with 13. replace (13 + String.length s - 13) with (String.length s) by lia.
  apply (substring_all s).
Qed.

Lemma passthrough_ne h h' : routeID h ≠ httpPassthroughRouteID h'.
Proof.
  destruct (passthrough_id h) as (s & -> & _), (passthrough_id h') as (s' & _ & ->). discriminate.
Qed.

Lemma passthrough_inj h h' : httpPassthroughRouteID h = httpPassthroughRouteID h' → routeID h = routeID h'.
Proof.
  destruct (passthrough_id h) as (s & -> & ->), (passthrough_id h') as (s' & -> & ->).
  by intros ->%string_app_inj_l.
Qed.

(** Host names: letters, digits, hyphens and dots. *)
Definition host_byte (z : Z) : bool := in_range 48 57 z || is_upper_ascii z || is_lower_ascii z || (z =? 45)%Z || (z =? 46)%Z.

Lemma prefix_dot c s : String.prefix "." (String c s) = bool_decide (c = "."%char).
Proof.
  change (String.prefix "." (String c s)) with (if ascii_dec "."%char c then String.prefix "" s else false).
  destruct (ascii_dec "."%char c) as [<-|Hc]; [by destruct s|]. by rewrite bool_decide_eq_false_2.
Qed.

Lemma split_dots acc s k : k = 0 →
  Forall (λ x, all_bytes host_byte x = true) (split_from "." acc s k) → all_bytes host_byte (acc ^^ s) = true.
Proof.
  revert acc k. induction s as [|c s IH]; intros acc k -> Hf.
  { simpl in Hf. rewrite string_app_nil. by inversion Hf. }
  cbn [split_from] in Hf. rewrite prefix_dot in Hf. destruct (bool_decide_reflect (c = "."%char)) as [->|Hc].
  - change (String.length "." - 1) with 0 in Hf. inversion Hf as [|? ? Ha Hr]; subst.
    apply (IH "" 0) in Hr; [|done]. rewrite string_nil_app in Hr. rewrite all_bytes_app, Ha, all_bytes_cons. by rewrite Hr.
  - apply (IH _ 0) in Hf; [|done]. rewrite string_app_assoc in Hf. exact Hf.
Qed.

Lemma host_bytes h : hostnameRe h = true → all_bytes host_byte h = true.
Proof.
  unfold hostnameRe, Split. intros Hh. apply (split_dots "" h 0); [done|].
  destruct (rev (split_from "." "" h 0)) as [|tld ls] eqn:E; [done|].
  assert (Hall : Forall (λ x, all_bytes host_byte x = true) (tld :: ls)).
  2:{ rewrite <- E in Hall. apply Forall_rev in Hall. by rewrite rev_involutive in Hall. }
  assert (Hl : ∀ x, label_ok x = true → all_bytes host_byte x = true).
  { intros x Hx. unfold label_ok in Hx. bool_simp. unfold all_bytes.
    match goal with H : List.forallb _ _ = true |- _ => rewrite List.forallb_forall in H; rename H into Hf end.
    apply List.forallb_forall. intros c Hc. specialize (Hf c Hc). unfold alnum, hyphen in Hf. unfold host_byte.
    apply orb_true_iff in Hf as [Hf|Hf].
    - by rewrite Hf.
    - apply Ascii.eqb_eq in Hf. subst c. by rewrite !orb_true_r. }
  destruct ls as [|l ls]; [done|]. bool_simp.
  match goal with H : List.forallb label_ok _ = true |- _ => rename H into Hf end.
  constructor.
  - match goal with H : tld_ok _ = true |- _ => unfold tld_ok in H; rename H into Ht end. bool_simp.
    match goal with H : List.forallb letter _ = true |- _ => rewrite List.forallb_forall in H; rename H into Hf' end.
    apply List.forallb_forall. intros c Hc. specialize (Hf' c Hc). unfold letter in Hf'. unfold host_byte.
    apply orb_true_iff in Hf' as [Hf'|Hf']; rewrite Hf'; by rewrite ?orb_true_r.
  - apply Forall_forall. intros x Hx. apply Hl. rewrite List.forallb_forall in Hf. by apply Hf.
Qed.

Definition slug_byte (z : Z) : bool := host_byte z || (z =? 95)%Z.

Lemma dots_cons c s :
  ReplaceAll (String c s) "." "_" = String (if bool_decide (c = "."%char) then "_"%char else c) (ReplaceAll s "." "_").
Proof.
  unfold ReplaceAll. cbn [replace_from]. rewrite prefix_dot. by destruct (bool_decide _).
Qed.

Lemma dots_bytes s : all_bytes host_byte s = true → all_bytes slug_byte (ReplaceAll s "." "_") = true.
Proof.
  induction s as [|c s IH]; [done|]. rewrite dots_cons, !all_bytes_cons. intros Hs. bool_simp; [|by apply IH].
  destruct (bool_decide _); [done|]. unfold slug_byte. match goal with H : host_byte _ = true |- _ => by rewrite H end.
Qed.

Lemma dots_inj s s' : all_bytes host_byte s = true → all_bytes host_byte s' = true →
  ReplaceAll s "." "_" = ReplaceAll s' "." "_" → s = s'.
Proof.
  revert s'. induction s as [|c s IH]; intros [|c' s']; [done|by rewrite dots_cons|by rewrite dots_cons|].
  rewrite !dots_cons, !all_bytes_cons. intros Hs Hs' E. bool_simp. injection E as Ec Es.
  f_equal; [|by apply IH]. destruct (bool_decide_reflect (c = "."%char)), (bool_decide_reflect (c' = "."%char)); subst; done.
Qed.

Lemma slug_dots h : all_bytes host_byte h = true → route_slug h = ReplaceAll h "." "_".
Proof.
  intros Hh. unfold route_slug. pose proof (dots_bytes h Hh) as Hs.
  assert (Hc : ∀ c, slug_byte (byte c) = false → all_bytes (λ z, negb (z =? byte c)%Z) (ReplaceAll h "." "_") = true).
  { intros c Hc. eapply all_bytes_mono; [|exact Hs]. intros z Hz. apply negb_true_iff, Z.eqb_neq. intros ->. congruence. }
  rewrite (ReplaceAll_none ":"%char), (ReplaceAll_none "*"%char); [done|by apply Hc..].
Qed.

(** Distinct host names get distinct ids, unless two long ones collide in the
    four bytes of their digest. *)
Lemma routeID_inj h h' : hostnameRe h = true → hostnameRe h' = true →
  (sha1_4 h = sha1_4 h' → h = h') → routeID h = routeID h' → h = h'.
Proof.
  intros Hh%host_bytes Hh'%host_bytes Hsha. unfold routeID. rewrite !slug_dots by done.
  intros E%string_app_inj_l. destruct (60 <? len (ReplaceAll h "." "_"))%Z eqn:L, (60 <? len (ReplaceAll h' "." "_"))%Z eqn:L'.
  - apply Z.ltb_lt in L, L'. unfold len in L, L'.
    apply string_app_inj in E as [_ E]; [|by rewrite !take_length by lia]. apply Hsha. by injection E.
  - apply (f_equal String.length) in E. apply Z.ltb_lt in L. apply Z.ltb_ge in L'. unfold len in L, L'.
    rewrite !string_app_length, take_length in E by lia. simpl in E. lia.
  - apply (f_equal String.length) in E. apply Z.ltb_lt in L'. apply Z.ltb_ge in L. unfold len in L, L'.
    rewrite !string_app_length, take_length in E by lia. simpl in E. lia.
  - by apply dots_inj.
Qed.
End Ids.

(** ** The documented behaviour of the admin API *)

Definition succeeded (o : Outcome) : bool := match o with Answer r => (rs_status r / 100 =? 2)%Z | _ => false end.
Definition not_found (o : Outcome) : bool := match o with Answer r => (rs_status r =? 404)%Z | _ => false end.
Definition absent (id : string) (l : list json) : Prop := List.existsb (has_id id) l = false.
Definition replaced (id : string) (r : json) (l l' : list json) : Prop := ∃ l1 r0 l2,
  l = l1 ++ r0 :: l2 ∧ has_id id r0 = true ∧ l' = l1 ++ r :: l2.
Definition removed (id : string) (l l' : list json) : Prop := ∃ l1 r0 l2,
  l = l1 ++ r0 :: l2 ∧ has_id id r0 = true ∧ l' = l1 ++ l2.

(** [rts]: the routes of [srv0] in order, none when it does not exist.  A
    request whose answer is lost may have been applied, and any request may be
    refused. *)
Class AdminLaws (C : Type) `{AdminAPI C} := {
  rts : C → list json;
  patch_id : ∀ id r c c' o, exchange "PATCH" ("/id/" ^^ id) (Some r) c = (c', o) →
    (rts c' = rts c ∧ succeeded o = false) ∨ replaced id r (rts c) (rts c');
  delete_id : ∀ id c c' o, exchange "DELETE" ("/id/" ^^ id) None c = (c', o) →
    (rts c' = rts c ∧ succeeded o = false ∧ (not_found o = true → absent id (rts c))) ∨ removed id (rts c) (rts c');
  post_route : ∀ r c c' o, exchange "POST" routes_path (Some r) c = (c', o) →
    (rts c' = rts c ∧ succeeded o = false) ∨ rts c' = rts c ++ [r];
  post_traversal : ∀ r c c' o e, exchange "POST" routes_path (Some r) c = (c', o) →
    outcome_error "POST" routes_path o = Some e → isInvalidTraversal e = true → rts c = [] ∧ rts c' = [];
  load_base : ∀ c c' o, exchange "POST" "/load" (Some baseConfig) c = (c', o) → rts c' = rts c ∨ rts c' = [];
  get_config : ∀ c, rts (exchange "GET" "/config/" None c).1 = rts c;
  patch_skip : ∀ b c, rts (exchange "PATCH" skip_path (Some b) c).1 = rts c;
}.

(** *** Runs in which the client is right

    A PATCH of a route that exists may be refused and the POST the client sends
    next accepted; then two routes bear the id, the first one decides, and the
    client answers nil.  [obeys c]: from [c] on no request meets with that. *)
Section Runs.
Context {C : Type} `{AL : AdminLaws C}.

Definition sent (c c' : C) : Prop := ∃ m p b, c' = (exchange m p b c).1.
Definition obeys (c : C) : Prop := ∀ c0, relations.rtc sent c c0 → ∀ id r r' c1 o c2 o',
  exchange "PATCH" ("/id/" ^^ id) (Some r) c0 = (c1, o) → succeeded o = false → ¬ absent id (rts c0) →
  exchange "POST" routes_path (Some r') c1 = (c2, o') → rts c2 = rts c1 ∧ succeeded o' = false.

Lemma obeys_later c c' : relations.rtc sent c c' → obeys c → obeys c'.
Proof. intros Hr Ho c0 H0. apply Ho. by eapply relations.rtc_trans. Qed.

Lemma obeys_sent m p b (c c' : C) o : exchange m p b c = (c', o) → obeys c → obeys c'.
Proof. intros E. apply obeys_later, relations.rtc_once. exists m, p, b. by rewrite E. Qed.
End Runs.

(** ** Configurations the client keeps *)

Section Kept.
Context `{Sh : Sha1}.

Implicit Types (l : list json) (r : json) (id h : string).

(** No id twice, and whatever names a host bears the id of that host. *)
Record kept (l : list json) : Prop := {
  kept_ids : NoDup (omap rid l);
  kept_serves : ∀ r h, r ∈ l → serves h r = true → rid r = Some (routeID h);
  kept_passes : ∀ r h, r ∈ l → passes h r = true → rid r = Some (httpPassthroughRouteID h);
}.

(** [l] with [r] as its one route of that id. *)
Definition put (id : string) (r : json) (l l' : list json) : Prop := l' ≡ₚ r :: del (has_id id) l.

Lemma has_id_spec id r : has_id id r = true ↔ rid r = Some id.
Proof.
  unfold has_id. destruct (rid r) as [i|]; [|done]. rewrite String.eqb_eq. split; [by intros ->|by intros [= ->]].
Qed.

Lemma kept_perm l l' : l ≡ₚ l' → kept l → kept l'.
Proof.
  intros Hp [H1 H2 H3]. split.
  - rewrite <- Hp. done.
  - intros r h Hin. apply H2. by rewrite Hp.
  - intros r h Hin. apply H3. by rewrite Hp.
Qed.

Lemma kept_nil : kept [].
Proof. split; [constructor|by intros r h ?%not_elem_of_nil..]. Qed.

Lemma rid_elem i l : i ∈ omap rid l ↔ ∃ r, r ∈ l ∧ rid r = Some i.
Proof. by rewrite list_elem_of_omap. Qed.

Lemma kept_unique l r r' i : kept l → r ∈ l → r' ∈ l → rid r = Some i → rid r' = Some i → r = r'.
Proof.
  intros [Hn _ _]. induction l as [|x l IH]; [by intros ?%not_elem_of_nil|].
  intros Hr Hr' E E'. apply elem_of_cons in Hr, Hr'. simpl in Hn.
  destruct (rid x) as [j|] eqn:Ex; simpl in Hn.
  - apply list.NoDup_cons in Hn as [Hj Hn].
    destruct Hr as [->|Hr], Hr' as [->|Hr']; [done| | |by apply IH].
    + destruct Hj. apply rid_elem. exists r'. split; [done|congruence].
    + destruct Hj. apply rid_elem. exists r. split; [done|congruence].
  - destruct Hr as [->|Hr], Hr' as [->|Hr']; [done|congruence|congruence|by apply IH].
Qed.

Lemma kept_del id l : kept l → kept (del (has_id id) l).
Proof.
  intros [H1 H2 H3]. split.
  - clear H2 H3. induction l as [|x l IH]; [constructor|]. simpl in H1.
    assert (Hn : NoDup (omap rid l)) by (destruct (rid x); [by apply list.NoDup_cons in H1 as [_ ?]|done]).
    unfold del. simpl. fold (del (has_id id) l). destruct (negb _); [|by apply IH].
    simpl. destruct (rid x) as [j|] eqn:Ex; [|by apply IH]. apply list.NoDup_cons. split; [|by apply IH].
    intros Hj%rid_elem. destruct Hj as (r & [Hr _]%elem_of_del & Er).
    apply list.NoDup_cons in H1 as [Hj _]. apply Hj, rid_elem. eauto.
  - intros r h [Hr _]%elem_of_del. by apply H2.
  - intros r h [Hr _]%elem_of_del. by apply H3.
Qed.

(** The route of one host, and only that. *)
Definition own (id : string) (r : json) : Prop := rid r = Some id ∧
  (∀ h, serves h r = true → routeID h = id) ∧ (∀ h, passes h r = true → httpPassthroughRouteID h = id).

Lemma kept_put id r l l' : kept l → own id r → put id r l l' → kept l'.
Proof.
  intros Hk (Hi & Hs & Hp) Hput. unfold put in Hput. symmetry in Hput. apply (kept_perm _ _ Hput).
  pose proof (kept_del id l Hk) as [H1 H2 H3]. split.
  - simpl. rewrite Hi. apply list.NoDup_cons. split; [|done]. intros (x & Hx & Ex)%rid_elem.
    apply elem_of_del in Hx as [_ Hx]. apply has_id_spec in Ex. congruence.
  - intros x h [->|Hx]%elem_of_cons E; [|by apply H2]. by rewrite (Hs h E).
  - intros x h [->|Hx]%elem_of_cons E; [|by apply H3]. by rewrite (Hp h E).
Qed.

Lemma absent_del id l : absent id l → del (has_id id) l = l.
Proof.
  unfold absent, del. induction l as [|x l IH]; [done|]. simpl. intros [Hx Hl]%orb_false_iff. rewrite Hx. simpl.
  by rewrite IH.
Qed.

Lemma del_absent id l : absent id (del (has_id id) l).
Proof.
  unfold absent, del. induction l as [|x l IH]; [done|]. simpl. destruct (has_id id x) eqn:E; simpl; [done|].
  by rewrite E.
Qed.

Lemma kept_split id l1 r0 l2 : kept (l1 ++ r0 :: l2) → has_id id r0 = true → del (has_id id) (l1 ++ r0 :: l2) = l1 ++ l2.
Proof.
  intros [Hn _ _] H0. pose proof (proj1 (has_id_spec _ _) H0) as E0.
  rewrite omap_app in Hn. simpl in Hn. rewrite E0 in Hn. apply list.NoDup_app in Hn as (Hn1 & Hd & Hn2).
  apply list.NoDup_cons in Hn2 as [Hn2 _].
  assert (A1 : absent id l1).
  { apply not_true_iff_false. intros (x & Hx & Ex)%existsb_witness. apply has_id_spec in Ex.
    apply (Hd id); [apply rid_elem; eauto|left]. }
  assert (A2 : absent id l2).
  { apply not_true_iff_false. intros (x & Hx & Ex)%existsb_witness. apply has_id_spec in Ex.
    apply Hn2, rid_elem. eauto. }
  unfold del. rewrite List.filter_app. simpl. rewrite H0. simpl.
  change (List.filter _ l1) with (del (has_id id) l1). change (List.filter _ l2) with (del (has_id id) l2).
  by rewrite !absent_del.
Qed.

Lemma replaced_put id r l l' : kept l → replaced id r l l' → put id r l l'.
Proof.
  intros Hk (l1 & r0 & l2 & -> & H0 & ->). unfold put. rewrite kept_split by done.
  symmetry. apply Permutation_middle.
Qed.

Lemma appended_put id r l : absent id l → put id r l (l ++ [r]).
Proof. intros Ha. unfold put. rewrite absent_del by done. symmetry. apply Permutation_cons_append. Qed.

Lemma removed_del id l l' : kept l → removed id l l' → l' = del (has_id id) l.
Proof. intros Hk (l1 & r0 & l2 & -> & H0 & ->). by rewrite kept_split. Qed.
End Kept.

(** *** Entries *)

Section Entries.
Context `{Sh : Sha1}.
Implicit Types (l : list json) (r : json) (id h u : string).

Lemma serves_route h h' u p : serves h' (makeRoute h u p) = (h =s h').
Proof. unfold serves. simpl. unfold names_host. simpl. by rewrite !orb_false_r, andb_true_r. Qed.

Lemma passes_route h h' u p : passes h' (makeRoute h u p) = false.
Proof. unfold passes. simpl. unfold names_host. simpl. by rewrite andb_false_r. Qed.

Lemma serves_sibling h h' u p : serves h' (makeHTTPPassthroughRoute h u p) = false.
Proof. unfold serves. simpl. unfold names_host. simpl. by rewrite andb_false_r. Qed.

Lemma passes_sibling h h' u p : passes h' (makeHTTPPassthroughRoute h u p) = (h =s h').
Proof. unfold passes. simpl. unfold names_host. simpl. by rewrite !orb_false_r, andb_true_r. Qed.

Lemma own_route h u p : own (routeID h) (makeRoute h u p).
Proof.
  split; [done|]. split; intros h'; [rewrite serves_route; intros E; bool_simp; by subst|by rewrite passes_route].
Qed.

Lemma own_sibling h u p : own (httpPassthroughRouteID h) (makeHTTPPassthroughRoute h u p).
Proof.
  split; [done|]. split; intros h'; [by rewrite serves_sibling|rewrite passes_sibling; intros E; bool_simp; by subst].
Qed.

Lemma target_route h u p : (0 < p <= 65535)%Z → target (makeRoute h u p) = Some (u, p).
Proof. intros Hp. unfold target. simpl. by rewrite dial_roundtrip. Qed.

Lemma find_kept l h r : kept l → r ∈ l → serves h r = true → List.find (serves h) l = Some r.
Proof.
  intros Hk Hr Hs. destruct (List.find (serves h) l) as [x|] eqn:E.
  - apply List.find_some in E as [Hx Hxs]. apply list_elem_of_In in Hx. f_equal.
    apply (kept_unique l x r (routeID h)); [done..| |]; by apply (kept_serves l Hk).
  - pose proof (List.find_none _ _ E r) as Hn. rewrite list_elem_of_In in Hr. rewrite Hn in Hs; done.
Qed.

Lemma find_absent l h : (∀ r, r ∈ l → serves h r = false) → List.find (serves h) l = None.
Proof.
  intros Ha. destruct (List.find (serves h) l) as [x|] eqn:E; [|done].
  apply List.find_some in E as [Hx Hxs]. apply list_elem_of_In in Hx. by rewrite Ha in Hxs.
Qed.

(** Only the routes that name the host matter. *)
Lemma entry_ext l l' h : kept l → kept l' →
  (∀ r, serves h r = true ∨ passes h r = true → (r ∈ l ↔ r ∈ l')) → entry l h = entry l' h.
Proof.
  intros Hk Hk' He. unfold entry.
  assert (List.find (serves h) l = List.find (serves h) l') as ->.
  { destruct (List.find (serves h) l') as [x|] eqn:E.
    - apply List.find_some in E as [Hx Hs]. apply list_elem_of_In in Hx. apply find_kept; [done| |done].
      apply He; auto.
    - apply find_absent. intros r Hr. apply not_true_iff_false. intros Hs.
      pose proof (List.find_none _ _ E r) as Hn. rewrite <- list_elem_of_In in Hn. rewrite Hn in Hs; [done|].
      apply He; auto. }
  assert (List.existsb (passes h) l = List.existsb (passes h) l') as ->; [|done].
  apply eq_true_iff_eq. rewrite !List.existsb_exists.
  split; intros (r & Hr & Hp); exists r; rewrite <- list_elem_of_In in *; (split; [apply He; auto|done]).
Qed.

Lemma put_elem id r l l' x : put id r l l' → x ∈ l' ↔ x = r ∨ (x ∈ l ∧ has_id id x = false).
Proof. unfold put. intros ->. by rewrite elem_of_cons, elem_of_del. Qed.

(** A change under an id that is not the host's leaves its entry. *)
Lemma other_ids id h r l : kept l → id ≠ routeID h → id ≠ httpPassthroughRouteID h →
  (serves h r = true ∨ passes h r = true) → r ∈ l → has_id id r = false.
Proof.
  intros Hk H1 H2 Hs Hr. apply not_true_iff_false. rewrite has_id_spec. intros E.
  destruct Hs as [Hs|Hs]; [apply (kept_serves l Hk) in Hs|apply (kept_passes l Hk) in Hs]; congruence.
Qed.

Lemma entry_put id r l l' h : kept l → own id r → put id r l l' →
  id ≠ routeID h → id ≠ httpPassthroughRouteID h → entry l' h = entry l h.
Proof.
  intros Hk Ho Hp H1 H2. pose proof (kept_put _ _ _ _ Hk Ho Hp) as Hk'. symmetry. apply entry_ext; [done..|].
  intros x Hx. rewrite (put_elem _ _ _ _ x Hp). split.
  - intros Hin. right. split; [done|]. by apply (other_ids id h x l).
  - intros [->|[? _]]; [|done]. destruct Ho as (_ & Ho1 & Ho2).
    destruct Hx as [Hx|Hx]; [by destruct H1; rewrite (Ho1 h)|by destruct H2; rewrite (Ho2 h)].
Qed.

Lemma entry_del id l h : kept l → id ≠ routeID h → id ≠ httpPassthroughRouteID h →
  entry (del (has_id id) l) h = entry l h.
Proof.
  intros Hk H1 H2. symmetry. apply entry_ext; [done|by apply kept_del|].
  intros x Hx. rewrite elem_of_del. split; [|tauto]. intros Hin. split; [done|]. by apply (other_ids id h x l).
Qed.

Lemma entry_route l h u p : kept l → (0 < p <= 65535)%Z → makeRoute h u p ∈ l →
  entry l h = Some (mkRoute u p (negb (List.existsb (passes h) l))).
Proof.
  intros Hk Hp Hin. unfold entry. rewrite (find_kept _ h (makeRoute h u p)); [|done..|by rewrite serves_route, String.eqb_refl].
  by rewrite target_route.
Qed.
End Entries.

(** *** Effects of the calls *)

Section ClientFacts.
Context {C : Type} `{AA : AdminAPI C} `{AL : !AdminLaws C} `{Sh : Sha1}.
Local Abbreviation cM := (M C CaddyErr).
Implicit Types (c : C) (id h u : string) (r : json).

Lemma outcome_ok m p o : outcome_error m p o = None ↔ succeeded o = true.
Proof.
  destruct o as [?|?|r]; simpl; [done..|]. destruct (rs_status r =? 404)%Z eqn:E.
  - bool_simp. rewrite E. done.
  - destruct (rs_status r / 100 =? 2)%Z; done.
Qed.

Lemma outcome_404 m p o e : outcome_error m p o = Some e → is_not_found e = not_found o.
Proof.
  destruct o as [?|?|r]; simpl; [by intros [= <-]..|]. destruct (rs_status r =? 404)%Z; [by intros [= <-]|].
  destruct (negb _); [by intros [= <-]|done].
Qed.

Lemma do_wp m p b (Q : C → CaddyErr + unit → Prop) c :
  (∀ c' o, exchange m p b c = (c', o) → succeeded o = true → Q c' (inr tt)) →
  (∀ c' o e, exchange m p b c = (c', o) → succeeded o = false → outcome_error m p o = Some e → Q c' (inl e)) →
  wp (do_ m p b) Q c.
Proof.
  intros Hok Herr. apply wp_bind. intros fs. unfold send. destruct (exchange m p b c) as [c' o] eqn:E. simpl.
  destruct (outcome_error m p o) as [e|] eqn:Eo.
  - apply wp_throw, (Herr c' o e); [done| |done]. apply not_true_iff_false. rewrite <- outcome_ok, Eo. done.
  - apply wp_ret, (Hok c' o); [done|]. by apply (outcome_ok m p).
Qed.

(** A call is a run of exchanges. *)
Lemma sends_call {A} I (m : cM A) (Q : C → CaddyErr + A → Prop) c : preserves I m → I c →
  wp m (λ c' res, I c' → Q c' res) c → wp m Q c.
Proof. intros Hp Hc Hm fs. by apply Hm, (Hp c Hc fs). Qed.

Lemma do_obeys m p b : preserves obeys (do_ m p b).
Proof.
  intros c Hc. apply do_wp; intros c' o; intros; by eapply obeys_sent.
Qed.

Lemma upsert_single_obeys r id : preserves obeys (upsertSingleRoute r id).
Proof.
  apply preserves_bind; [apply preserves_attempt, do_obeys|]. intros [?|?]; [|apply preserves_ret].
  apply preserves_bind; [apply preserves_attempt, do_obeys|]. intros [e|?]; [|apply preserves_ret].
  destruct (isInvalidTraversal e); [|apply preserves_throw].
  apply preserves_bind; [apply preserves_attempt, do_obeys|]. intros [?|?]; [apply preserves_throw|apply do_obeys].
Qed.

Lemma drop_obeys h : preserves obeys (drop_passthrough h).
Proof.
  apply preserves_bind; [apply preserves_attempt, do_obeys|].
  intros [e|_]; [destruct (is_not_found e); [apply preserves_ret|apply preserves_throw]|apply preserves_ret].
Qed.

Lemma upsert_obeys h u p f : preserves obeys (UpsertRoute h u p f).
Proof.
  unfold UpsertRoute. repeat (match goal with |- preserves _ (if ?b then _ else _) => destruct b end; [apply preserves_throw|]).
  apply preserves_bind; [apply upsert_single_obeys|]. intros _.
  destruct (negb f); [apply upsert_single_obeys|apply drop_obeys].
Qed.

Lemma remove_obeys h : preserves obeys (RemoveRoute h).
Proof.
  unfold RemoveRoute. destruct (h =s ""); [apply preserves_throw|].
  apply preserves_bind; [apply drop_obeys|]. intros _. apply do_obeys.
Qed.

Lemma get_config_obeys : preserves obeys GetConfig.
Proof.
  apply preserves_bind.
  - intros c Hc fs. unfold send. destruct (exchange _ _ _ c) as [c' o] eqn:E. simpl. by eapply obeys_sent.
  - intros [?|?|r]; [apply preserves_throw..|]. destruct (negb _); [apply preserves_throw|].
    destruct (rs_decoded r) as [|?|[]]; first [apply preserves_ret|apply preserves_throw].
Qed.

Lemma tls_obeys h (enable : bool) : preserves obeys (if enable then EnableTLS h else DisableTLS h).
Proof.
  unfold EnableTLS, DisableTLS, addToSkip, removeFromSkip. destruct enable, (h =s ""); try apply preserves_throw.
  all: apply preserves_bind; [apply get_config_obeys|]; intros cfg.
  all: match goal with |- preserves _ (if ?b then _ else _) => destruct b end; [apply preserves_ret|apply do_obeys].
Qed.

(** A lost answer may hide a change; a nil error means it was made. *)
Lemma upsert_single_wp id r (Q : C → CaddyErr + unit → Prop) c : kept (rts c) → obeys c →
  (∀ c' res, rts c' = rts c ∨ put id r (rts c) (rts c') → (res = inr tt → put id r (rts c) (rts c')) → Q c' res) →
  wp (upsertSingleRoute r id) Q c.
Proof.
  intros Hk Hob HQ. pose proof (λ id r r' c1 o c2 o', Hob c (relations.rtc_refl _ _) id r r' c1 o c2 o') as patch_then_post.
  apply wp_bind, wp_attempt, do_wp.
  { intros c1 o E Ho. apply wp_ret. assert (put id r (rts c) (rts c1)); [|apply HQ; auto].
    destruct (patch_id _ _ _ _ _ E) as [[_ Hf]|Hr]; [congruence|]. by apply replaced_put. }
  intros c1 o e E Ho _. apply wp_bind, wp_attempt.
  assert (H1 : rts c1 = rts c ∨ put id r (rts c) (rts c1)).
  { destruct (patch_id _ _ _ _ _ E) as [[? _]|Hr]; [by left|right; by apply replaced_put]. }
  destruct (List.existsb (has_id id) (rts c)) eqn:Ea.
  - assert (Hna : ¬ absent id (rts c)) by (unfold absent; congruence).
    assert (Hne : rts c1 ≠ []).
    { destruct H1 as [->|H1]; [by intros E0; rewrite E0 in Ea|]. intros E0. unfold put in H1. rewrite E0 in H1.
      by apply Permutation_nil_cons in H1. }
    apply do_wp.
    + intros c2 o2 E2 Ho2. destruct (patch_then_post _ _ _ _ _ _ _ E Ho Hna E2) as [_ ?]. congruence.
    + intros c2 o2 e2 E2 Ho2 Eo2. destruct (patch_then_post _ _ _ _ _ _ _ E Ho Hna E2) as [Hs _].
      destruct (isInvalidTraversal e2) eqn:Et.
      { by destruct (post_traversal _ _ _ _ _ E2 Eo2 Et). }
      apply wp_throw, HQ; [by rewrite Hs|done].
  - assert (Hs1 : rts c1 = rts c).
    { destruct (patch_id _ _ _ _ _ E) as [[? _]|(l1 & r0 & l2 & El & H0 & _)]; [done|].
      rewrite El, List.existsb_app in Ea. simpl in Ea. rewrite H0, orb_true_r in Ea. done. }
    assert (Hpost : ∀ cx c2 o2, rts cx = rts c → exchange "POST" routes_path (Some r) cx = (c2, o2) →
      (rts c2 = rts c ∧ succeeded o2 = false) ∨ put id r (rts c) (rts c2)).
    { intros cx c2 o2 Ex E2. destruct (post_route _ _ _ _ E2) as [[? ?]|Hr]; [left; split; congruence|right].
      rewrite Hr, Ex. by apply appended_put. }
    assert (Hlast : ∀ cx, rts cx = rts c → wp (do_ "POST" routes_path (Some r)) Q cx).
    { intros cx Hx. apply do_wp.
      - intros c2 o2 E2 Ho2. destruct (Hpost _ _ _ Hx E2) as [[_ ?]|?]; [congruence|]. apply HQ; auto.
      - intros c2 o2 e2 E2 Ho2 _. apply HQ; [|done]. destruct (Hpost _ _ _ Hx E2) as [[? _]|?]; auto. }
    apply do_wp.
    { intros c2 o2 E2 Ho2. apply wp_ret. destruct (Hpost _ _ _ Hs1 E2) as [[_ ?]|?]; [congruence|]. apply HQ; auto. }
    intros c2 o2 e2 E2 Ho2 Eo2. destruct (isInvalidTraversal e2) eqn:Et.
    + destruct (post_traversal _ _ _ _ _ E2 Eo2 Et) as [Hn1 Hn2]. assert (Hnc : rts c = []) by congruence.
      apply wp_bind, wp_attempt, do_wp.
      * intros c3 o3 E3 Ho3. apply Hlast. destruct (load_base _ _ _ E3); congruence.
      * intros c3 o3 e3 E3 _ _. apply wp_throw, HQ; [left; destruct (load_base _ _ _ E3); congruence|done].
    + apply wp_throw, HQ; [|done]. destruct (Hpost _ _ _ Hs1 E2) as [[? _]|?]; auto.
Qed.

(** The answer says that no route has the id any more. *)
Definition gone (res : CaddyErr + unit) : bool := match res with inr _ => true | inl e => is_not_found e end.

Lemma delete_wp id (Q : C → CaddyErr + unit → Prop) c : kept (rts c) →
  (∀ c' res, rts c' = rts c ∨ rts c' = del (has_id id) (rts c) →
     (gone res = true → rts c' = del (has_id id) (rts c)) → Q c' res) →
  wp (do_ "DELETE" ("/id/" ^^ id) None) Q c.
Proof.
  intros Hk HQ. apply do_wp.
  - intros c' o E Ho. destruct (delete_id _ _ _ _ E) as [(_ & ? & _)|Hr]; [congruence|].
    apply removed_del in Hr; [|done]. apply HQ; auto.
  - intros c' o e E Ho Eo. destruct (delete_id _ _ _ _ E) as [(Hs & _ & Ha)|Hr].
    + apply HQ; [by left|]. simpl. rewrite (outcome_404 _ _ _ _ Eo). intros Hn. by rewrite absent_del; auto.
    + apply removed_del in Hr; [|done]. apply HQ; auto.
Qed.

Lemma drop_wp h (Q : C → CaddyErr + unit → Prop) c : kept (rts c) →
  (∀ c' res, rts c' = rts c ∨ rts c' = del (has_id (httpPassthroughRouteID h)) (rts c) →
     (res = inr tt → rts c' = del (has_id (httpPassthroughRouteID h)) (rts c)) → Q c' res) →
  wp (drop_passthrough h) Q c.
Proof.
  intros Hk HQ. apply wp_bind, wp_attempt, delete_wp; [done|]. intros c' [e|[]] Ho Hg; [|by apply wp_ret, HQ; auto].
  simpl in Hg. destruct (is_not_found e); [apply wp_ret, HQ; auto|by apply wp_throw, HQ].
Qed.

(** What [UpsertRoute] does to the routes: the host's own route first, then its
    sibling; an error can come after any part of it. *)
Definition upserted h u p (f : bool) (l l' : list json) : Prop := ∃ l1,
  put (routeID h) (makeRoute h u p) l l1 ∧
  (if f then l' = del (has_id (httpPassthroughRouteID h)) l1
   else put (httpPassthroughRouteID h) (makeHTTPPassthroughRoute h u p) l1 l').
Definition half_upserted h u p (f : bool) (l l' : list json) : Prop :=
  l' = l ∨ put (routeID h) (makeRoute h u p) l l' ∨ upserted h u p f l l'.

Lemma upsert_wp h u p f (Q : C → CaddyErr + unit → Prop) c : kept (rts c) → obeys c →
  (∀ c' e, half_upserted h u p f (rts c) (rts c') → (0 < p <= 65535)%Z ∨ rts c' = rts c → Q c' (inl e)) →
  (∀ c', upserted h u p f (rts c) (rts c') → (0 < p <= 65535)%Z → Q c' (inr tt)) →
  wp (UpsertRoute h u p f) Q c.
Proof.
  intros Hk Hob He HQ. unfold UpsertRoute.
  destruct (h =s ""); [apply wp_throw, He; [by left|by right]|].
  destruct (u =s ""); [apply wp_throw, He; [by left|by right]|].
  destruct (_ || _) eqn:Ep; [apply wp_throw, He; [by left|by right]|]. bool_simp.
  assert (Hp : (0 < p <= 65535)%Z) by lia.
  apply wp_bind, (sends_call obeys); [apply upsert_single_obeys|done|].
  apply upsert_single_wp; [done..|]. intros c1 [e|[]] H1 Hok Hob1.
  { apply He; [|by left]. destruct H1 as [->|H1]; [by left|right; by left]. }
  specialize (Hok eq_refl). clear H1. pose proof (kept_put _ _ _ _ Hk (own_route h u p) Hok) as Hk1.
  destruct f; simpl.
  - apply drop_wp; [done|]. intros c2 [e|[]] H2 Hok2.
    + apply He; [|by left]. destruct H2 as [-> | ->]; [right; by left|]. right; right. by exists (rts c1).
    + apply HQ; [|done]. exists (rts c1). split; [done|]. by apply Hok2.
  - apply upsert_single_wp; [done..|]. intros c2 [e|[]] H2 Hok2.
    + apply He; [|by left]. destruct H2 as [->|H2]; [right; by left|]. right; right. by exists (rts c1).
    + apply HQ; [|done]. exists (rts c1). split; [done|]. by apply Hok2.
Qed.

Lemma get_config_wp (Q : C → CaddyErr + json → Prop) c :
  (∀ c' res, rts c' = rts c → Q c' res) → wp GetConfig Q c.
Proof.
  intros HQ. apply wp_bind. intros fs. unfold send. pose proof (get_config c) as Hg.
  destruct (exchange _ _ _ c) as [c' o]. simpl in Hg |- *.
  destruct o as [?|?|r]; [by apply wp_throw, HQ..|]. destruct (negb _); [by apply wp_throw, HQ|].
  destruct (rs_decoded r) as [|?|[]]; first [by apply wp_ret, HQ|by apply wp_throw, HQ].
Qed.

Lemma put_skip_wp s (Q : C → CaddyErr + unit → Prop) c :
  (∀ c' res, rts c' = rts c → Q c' res) → wp (putSkipList s) Q c.
Proof.
  intros HQ. pose proof (patch_skip (JArr (JStr <$> s)) c) as Hp.
  apply do_wp; intros c' o; intros; apply HQ; match goal with H : exchange _ _ _ _ = _ |- _ => by rewrite H in Hp end.
Qed.

Lemma tls_wp h (enable : bool) (Q : C → CaddyErr + unit → Prop) c :
  (∀ c' res, rts c' = rts c → Q c' res) → wp (if enable then EnableTLS h else DisableTLS h) Q c.
Proof.
  intros HQ. unfold EnableTLS, DisableTLS, addToSkip, removeFromSkip.
  destruct enable, (h =s ""); try (by apply wp_throw, HQ).
  all: apply wp_bind, get_config_wp; intros c1 [e|cfg] H1; [by apply HQ|].
  all: match goal with |- wp (if ?b then _ else _) _ _ => destruct b end; [by apply wp_ret, HQ|].
  all: apply put_skip_wp; intros c2 res H2; apply HQ; congruence.
Qed.
End ClientFacts.

(** ** The laws of the interface *)

Section Refinement.
Context {C : Type} `{AA : AdminAPI C} `{AL : !AdminLaws C} `{Sh : Sha1}.
Implicit Types (c : C) (h u : string).

(** The entry of a host that is not the one the call is about. *)
Lemma upserted_kept h u p f l l' : kept l → upserted h u p f l l' → kept l'.
Proof.
  intros Hk (l1 & H1 & H2). pose proof (kept_put _ _ _ _ Hk (own_route h u p) H1) as Hk1.
  destruct f; [rewrite H2; by apply kept_del|]. by apply (kept_put _ _ _ _ Hk1 (own_sibling h u p) H2).
Qed.

Lemma half_kept h u p f l l' : kept l → half_upserted h u p f l l' → kept l'.
Proof.
  intros Hk [->|[H|H]]; [done| |by eapply upserted_kept].
  by apply (kept_put _ _ _ _ Hk (own_route h u p) H).
Qed.

Lemma upserted_other h u p f l l' h' : kept l → routeID h' ≠ routeID h →
  upserted h u p f l l' → entry l' h' = entry l h'.
Proof.
  intros Hk Hne (l1 & H1 & H2). pose proof (kept_put _ _ _ _ Hk (own_route h u p) H1) as Hk1.
  assert (entry l1 h' = entry l h') as <-.
  { apply (entry_put _ _ _ _ _ Hk (own_route h u p) H1); [done|apply passthrough_ne]. }
  assert (httpPassthroughRouteID h ≠ httpPassthroughRouteID h') by (intros E%passthrough_inj; congruence).
  assert (httpPassthroughRouteID h ≠ routeID h') by (intros E; by apply (passthrough_ne h' h)).
  destruct f; [rewrite H2; by apply entry_del|].
  by apply (entry_put _ _ _ _ _ Hk1 (own_sibling h u p) H2).
Qed.

Lemma half_other h u p f l l' h' : kept l → routeID h' ≠ routeID h →
  half_upserted h u p f l l' → entry l' h' = entry l h'.
Proof.
  intros Hk Hne [->|[H|H]]; [done| |by eapply upserted_other].
  apply (entry_put _ _ _ _ _ Hk (own_route h u p) H); [done|apply passthrough_ne].
Qed.

Lemma put_in id r l l' : put id r l l' → r ∈ l'.
Proof. intros H. apply (put_elem _ _ _ _ r H). by left. Qed.

Lemma route_stays h h' u p : has_id (httpPassthroughRouteID h') (makeRoute h u p) = false.
Proof.
  apply not_true_iff_false. rewrite has_id_spec. intros E. apply (passthrough_ne h h'). by injection E.
Qed.

Lemma upserted_entry h u p f l l' : kept l → (0 < p <= 65535)%Z → upserted h u p f l l' →
  entry l' h = Some (mkRoute u p f).
Proof.
  intros Hk Hp H. pose proof (upserted_kept _ _ _ _ _ _ Hk H) as Hk'. destruct H as (l1 & H1 & H2).
  assert (Hin : makeRoute h u p ∈ l').
  { destruct f; [rewrite H2; apply elem_of_del; split; [by eapply put_in|apply route_stays]|].
    apply (put_elem _ _ _ _ _ H2). right. split; [by eapply put_in|apply route_stays]. }
  rewrite (entry_route l' h u p) by done. do 2 f_equal. destruct f.
  - apply negb_true_iff, not_true_iff_false. intros (r & Hr & Hps)%existsb_witness.
    apply (kept_passes l' Hk') in Hps; [|done]. rewrite H2 in Hr. apply elem_of_del in Hr as [_ Hr].
    apply has_id_spec in Hps. congruence.
  - apply negb_false_iff, List.existsb_exists. exists (makeHTTPPassthroughRoute h u p).
    rewrite <- list_elem_of_In, passes_sibling, String.eqb_refl. split; [by eapply put_in|done].
Qed.

Lemma half_entry h u p f l l' : kept l → (0 < p <= 65535)%Z ∨ l' = l → half_upserted h u p f l l' →
  entry l' h = entry l h ∨ ∃ f', entry l' h = Some (mkRoute u p f').
Proof.
  intros Hk Hp [->|[H|H]]; [by left| |].
  - destruct Hp as [Hp| ->]; [|by left]. right. eexists. apply entry_route; [|done|by eapply put_in].
    by apply (kept_put _ _ _ _ Hk (own_route h u p) H).
  - destruct Hp as [Hp| ->]; [|by left]. right. exists f. by eapply upserted_entry.
Qed.

Lemma remove_route_wp h (Q : C → CaddyErr + unit → Prop) c : kept (rts c) →
  (∀ c' res, kept (rts c') → (∀ h', routeID h' ≠ routeID h → entry (rts c') h' = entry (rts c) h') →
     (res = inr tt → entry (rts c') h = None) → Q c' res) →
  wp (RemoveRoute h) Q c.
Proof.
  intros Hk HQ. unfold RemoveRoute. destruct (h =s ""); [by apply wp_throw, HQ|].
  assert (Hsib : ∀ c1, rts c1 = rts c ∨ rts c1 = del (has_id (httpPassthroughRouteID h)) (rts c) →
    kept (rts c1) ∧ ∀ h', routeID h' ≠ routeID h → entry (rts c1) h' = entry (rts c) h').
  { intros c1 [-> | ->]; [done|]. split; [by apply kept_del|]. intros h' Hne. apply entry_del; [done| |].
    - intros E. by apply (passthrough_ne h' h).
    - intros E%passthrough_inj. congruence. }
  apply wp_bind, drop_wp; [done|]. intros c1 [e|[]] H1 _; destruct (Hsib c1 H1) as [Hk1 He1]; [by apply HQ|].
  apply delete_wp; [done|]. intros c2 res H2 Hg. apply HQ.
  - destruct H2 as [-> | ->]; [done|by apply kept_del].
  - intros h' Hne. rewrite <- (He1 h' Hne). destruct H2 as [-> | ->]; [done|].
    apply entry_del; [done|congruence|apply passthrough_ne].
  - intros ->. unfold entry. rewrite Hg by done. rewrite find_absent; [done|].
    intros r [Hr Hid]%elem_of_del. apply not_true_iff_false. intros Hs. apply (kept_serves _ Hk1) in Hs; [|done].
    apply has_id_spec in Hs. congruence.
Qed.

Lemma upsert_correct h u p f c : kept (rts c) → obeys c →
  wp (UpsertRoute h u p f) (λ c1 r1, kept (rts c1) ∧
    match r1 with
    | inr _ => entry (rts c1) h = Some (mkRoute u p f)
    | inl _ => entry (rts c1) h = entry (rts c) h ∨ ∃ f', entry (rts c1) h = Some (mkRoute u p f')
    end ∧ (∀ h', routeID h' ≠ routeID h → entry (rts c1) h' = entry (rts c) h')) c.
Proof.
  intros Hk Hob. apply upsert_wp; [done|done| |].
  - intros c1 e H Hp. split_and!; [by eapply half_kept|by eapply half_entry|]. intros. by eapply half_other.
  - intros c1 H Hp. split_and!; [by eapply upserted_kept|by eapply upserted_entry|]. intros. by eapply upserted_other.
Qed.

(** *** What holds in every run *)

(** Whatever names a host bears the id of that host; ids may be doubled. *)
Definition owned (l : list json) : Prop := ∀ r h, r ∈ l →
  (serves h r = true → rid r = Some (routeID h)) ∧ (passes h r = true → rid r = Some (httpPassthroughRouteID h)).
Definition foreign h (r : json) : Prop := serves h r = false ∧ passes h r = false.

Lemma kept_owned l : kept l → owned l.
Proof. intros Hk r h Hr. split; intros; [by eapply kept_serves|by eapply kept_passes]. Qed.

Lemma owned_mid l1 l2 r id : owned (l1 ++ l2) → own id r → owned (l1 ++ r :: l2).
Proof.
  intros Ho (Hi & Hs & Hp) x h Hx. rewrite elem_of_app, elem_of_cons in Hx.
  destruct Hx as [Hx|[->|Hx]]; [apply Ho, elem_of_app; by left| |apply Ho, elem_of_app; by right].
  rewrite Hi. split; [by intros <-%Hs|by intros <-%Hp].
Qed.

Lemma owned_drop l1 l2 r : owned (l1 ++ r :: l2) → owned (l1 ++ l2).
Proof. intros Ho x h Hx. apply Ho. rewrite elem_of_app, elem_of_cons. apply elem_of_app in Hx as [?|?]; auto. Qed.

(** A route that does not name the host does not count for it. *)
Lemma entry_foreign l1 l2 r h : foreign h r → entry (l1 ++ r :: l2) h = entry (l1 ++ l2) h.
Proof.
  intros [Hs Hp]. unfold entry. rewrite !List.existsb_app. simpl. rewrite Hp. simpl.
  assert (List.find (serves h) (l1 ++ r :: l2) = List.find (serves h) (l1 ++ l2)) as ->; [|done].
  induction l1 as [|x l1 IH]; simpl; [by rewrite Hs|]. by rewrite IH.
Qed.

(** The ids of one host's routes say nothing of another host. *)
Lemma foreign_id id h' r : owned [r] → has_id id r = true → id ≠ routeID h' → id ≠ httpPassthroughRouteID h' → foreign h' r.
Proof.
  intros Ho Hid%has_id_spec H1 H2. destruct (Ho r h' (list_elem_of_here _ _)) as [Hs Hp].
  split; apply not_true_iff_false; [intros E%Hs|intros E%Hp]; congruence.
Qed.

(** Where the host goes, whatever the redirect says. *)
Definition aim (l : list json) h : option (string * Z) := List.find (serves h) l ≫= target.

Lemma aim_entry l h : (λ r, (rt_upstream r, rt_port r)) <$> entry l h = aim l h.
Proof. unfold aim, entry. destruct (List.find _ l) as [r|]; [|done]. simpl. by destruct (target r) as [[u p]|]. Qed.

Lemma aim_put l1 l2 r0 r h : serves h r = true →
  aim (l1 ++ r :: l2) h = aim (l1 ++ r0 :: l2) h ∨ aim (l1 ++ r :: l2) h = target r.
Proof.
  intros Hs. unfold aim. induction l1 as [|x l1 IH]; simpl; [rewrite Hs; by right|by destruct (serves h x); [left|]].
Qed.

Lemma aim_append l r h : serves h r = true → aim (l ++ [r]) h = aim l h ∨ aim (l ++ [r]) h = target r.
Proof.
  intros Hs. unfold aim. induction l as [|x l IH]; simpl; [rewrite Hs; by right|by destruct (serves h x); [left|]].
Qed.

Lemma aim_foreign l1 l2 r h : serves h r = false → aim (l1 ++ r :: l2) h = aim (l1 ++ l2) h.
Proof. intros Hs. unfold aim. f_equal. induction l1 as [|x l1 IH]; simpl; [by rewrite Hs|]. by rewrite IH. Qed.

(** What an upsert of [h] does in any run. *)
Definition within h u (p : Z) (l0 l : list json) : Prop :=
  owned l ∧ (∀ h', routeID h' ≠ routeID h → entry l h' = entry l0 h') ∧ (aim l h = aim l0 h ∨ aim l h = Some (u, p)).

(** A route the upsert of [h] sends: under its id, and where it leads to. *)
Definition for_host h u (p : Z) (id : string) (r : json) : Prop :=
  own id r ∧ ((id = routeID h ∧ serves h r = true ∧ target r = Some (u, p)) ∨
              (id = httpPassthroughRouteID h ∧ serves h r = false)).

Lemma for_host_other h u p id r h' : for_host h u p id r → routeID h' ≠ routeID h →
  id ≠ routeID h' ∧ id ≠ httpPassthroughRouteID h'.
Proof.
  intros (_ & [(-> & _)|[-> _]]) Hne; split; try congruence.
  - apply passthrough_ne.
  - intros E. by apply (passthrough_ne h' h).
  - intros E%passthrough_inj. congruence.
Qed.

Lemma own_here id r : own id r → owned [r].
Proof.
  intros (Hi & Hs & Hp) x h Hx. apply list_elem_of_singleton in Hx as ->. rewrite Hi.
  split; [by intros <-%Hs|by intros <-%Hp].
Qed.
Lemma own_has id r : own id r → has_id id r = true.
Proof. intros (Hi & _). by apply has_id_spec. Qed.

Lemma owned_one l1 l2 r : owned (l1 ++ r :: l2) → owned [r].
Proof. intros Ho x h Hx. apply list_elem_of_singleton in Hx as ->. apply Ho, elem_of_app. right. left. Qed.

Lemma within_replaced h u p id r l0 l l' : for_host h u p id r → within h u p l0 l → replaced id r l l' → within h u p l0 l'.
Proof.
  intros Hf (Ho & He & Ha) (l1 & r0 & l2 & -> & H0 & ->). pose proof Hf as (Hr & Hc).
  pose proof (owned_one _ _ _ Ho) as Ho1. split_and!.
  - apply (owned_mid _ _ _ id); [by apply owned_drop in Ho|done].
  - intros h' Hne. rewrite <- (He h' Hne). destruct (for_host_other _ _ _ _ _ _ Hf Hne) as [H1 H2].
    rewrite !entry_foreign; [done| |]; apply (foreign_id id); try done; [by apply (own_here id)|by apply own_has].
  - destruct Hc as [(-> & Hs & Ht)|[-> Hs]].
    + destruct (aim_put l1 l2 r0 r h Hs) as [->| ->]; [done|by right].
    + rewrite aim_foreign by done. rewrite aim_foreign in Ha; [done|]. apply not_true_iff_false. intros Hs0.
      apply (Ho1 r0 h (list_elem_of_here _ _)) in Hs0. apply has_id_spec in H0. rewrite Hs0 in H0.
      apply (passthrough_ne h h). by injection H0.
Qed.

Lemma within_appended h u p id r l0 l : for_host h u p id r → within h u p l0 l → within h u p l0 (l ++ [r]).
Proof.
  intros Hf (Ho & He & Ha). pose proof Hf as (Hr & Hc). split_and!.
  - apply (owned_mid l [] r id); [by rewrite app_nil_r|done].
  - intros h' Hne. rewrite <- (He h' Hne). destruct (for_host_other _ _ _ _ _ _ Hf Hne) as [H1 H2].
    rewrite entry_foreign, app_nil_r; [done|]. apply (foreign_id id); try done; [by apply (own_here id)|by apply own_has].
  - destruct Hc as [(-> & Hs & Ht)|[-> Hs]].
    + destruct (aim_append l r h Hs) as [->| ->]; [done|by right].
    + by rewrite aim_foreign, app_nil_r.
Qed.

Lemma within_removed h u p l0 l l' : within h u p l0 l → removed (httpPassthroughRouteID h) l l' → within h u p l0 l'.
Proof.
  intros (Ho & He & Ha) (l1 & r0 & l2 & -> & H0 & ->). pose proof (owned_one _ _ _ Ho) as Ho1. split_and!.
  - by apply owned_drop in Ho.
  - intros h' Hne. rewrite <- (He h' Hne). symmetry. apply entry_foreign, (foreign_id (httpPassthroughRouteID h)); try done.
    intros E%passthrough_inj. congruence.
  - rewrite aim_foreign in Ha; [done|]. apply not_true_iff_false. intros Hs0.
    apply (Ho1 r0 h (list_elem_of_here _ _)) in Hs0. apply has_id_spec in H0. rewrite Hs0 in H0.
    apply (passthrough_ne h h). by injection H0.
Qed.

Lemma within_refl h u p l : owned l → within h u p l l.
Proof. intros Ho. split_and!; [done|done|by left]. Qed.

Lemma upsert_single_within h u p id r l0 : for_host h u p id r →
  preserves (λ c, within h u p l0 (rts c)) (upsertSingleRoute r id).
Proof.
  intros Hf c Hc. set (I := λ c, within h u p l0 (rts c)).
  assert (Hpost : ∀ cx c2 o2, I cx → exchange "POST" routes_path (Some r) cx = (c2, o2) → I c2).
  { intros cx c2 o2 Hx E2. unfold I. destruct (post_route _ _ _ _ E2) as [[-> _]| ->]; [done|by apply (within_appended _ _ _ id)]. }
  apply wp_bind, wp_attempt, do_wp.
  { intros c1 o E _. apply wp_ret. destruct (patch_id _ _ _ _ _ E) as [[-> _]|Hr]; [done|by eapply within_replaced]. }
  intros c1 o e E _ _. assert (H1 : I c1).
  { unfold I. destruct (patch_id _ _ _ _ _ E) as [[-> _]|Hr]; [done|by eapply within_replaced]. }
  apply wp_bind, wp_attempt, do_wp.
  { intros c2 o2 E2 _. apply wp_ret. by apply (Hpost c1 _ o2). }
  intros c2 o2 e2 E2 _ Eo2. pose proof (Hpost _ _ _ H1 E2) as H2. destruct (isInvalidTraversal e2) eqn:Et; [|by apply wp_throw].
  destruct (post_traversal _ _ _ _ _ E2 Eo2 Et) as [_ Hn2].
  assert (H3 : ∀ c3 o3, exchange "POST" "/load" (Some baseConfig) c2 = (c3, o3) → I c3).
  { intros c3 o3 E3. unfold I in *. assert (rts c3 = rts c2) as ->; [|done]. destruct (load_base _ _ _ E3); congruence. }
  apply wp_bind, wp_attempt, do_wp.
  - intros c3 o3 E3 _. apply do_wp; intros; (eapply Hpost; [exact (H3 _ _ E3)|eassumption]).
  - intros c3 o3 e3 E3 _ _. apply wp_throw. exact (H3 _ _ E3).
Qed.

Lemma drop_within h u p l0 : preserves (λ c, within h u p l0 (rts c)) (drop_passthrough h).
Proof.
  assert (Hd : ∀ c, within h u p l0 (rts c) → ∀ c' o, exchange "DELETE" ("/id/" ^^ httpPassthroughRouteID h) None c = (c', o) →
    within h u p l0 (rts c')).
  { intros c Hc c' o E. destruct (delete_id _ _ _ _ E) as [(-> & _)|Hr]; [done|by eapply within_removed]. }
  intros c Hc. apply wp_bind, wp_attempt, do_wp; intros c1 o; intros.
  - apply wp_ret. by eapply Hd.
  - match goal with |- wp (if ?b then _ else _) _ _ => destruct b end; [apply wp_ret|apply wp_throw]; by eapply Hd.
Qed.

Lemma upsert_within h u p f c : owned (rts c) → wp (UpsertRoute h u p f) (λ c' _, within h u p (rts c) (rts c')) c.
Proof.
  intros Ho. pose proof (within_refl h u p (rts c) Ho) as Hw. unfold UpsertRoute.
  destruct (h =s ""); [by apply wp_throw|]. destruct (u =s ""); [by apply wp_throw|].
  destruct (_ || _) eqn:Ep; [by apply wp_throw|]. bool_simp. assert (Hp : (0 < p <= 65535)%Z) by lia.
  assert (H1 : for_host h u p (routeID h) (makeRoute h u p)).
  { split; [apply own_route|]. left. split_and!; [done|by rewrite serves_route, String.eqb_refl|by apply target_route]. }
  assert (H2 : for_host h u p (httpPassthroughRouteID h) (makeHTTPPassthroughRoute h u p)).
  { split; [apply own_sibling|]. right. split; [done|apply serves_sibling]. }
  apply (wp_keep (λ c', within h u p (rts c) (rts c'))); [by apply upsert_single_within|done|done|].
  intros c1 _ Hc1. destruct (negb f); [by apply (upsert_single_within _ _ _ _ _ _ H2)|by apply drop_within].
Qed.

(** C11: The client over any admin API that behaves as documented, from a
    configuration in order (no id twice, every host under its own ids).
    In every run, requests being refused or their answers lost at any point:
    no call touches the entry of a host with another id; the TLS calls leave
    the routes as they are; [RemoveRoute] keeps the configuration in order, and
    without an error leaves the host without a route; [UpsertRoute] leaves the
    host at the upstream it had or at the new one.  In a run in which no PATCH
    of an existing route is refused and the POST after it accepted ([obeys]),
    [UpsertRoute] keeps the configuration in order as well, and without an error
    the host is routed exactly as requested, with one as before or to the new
    upstream.  (Outside these runs a nil error can leave the old route first:
    [Divergences.failed_patch_leaves_stale_route].) *)
Theorem client_correct h u p f c fs : kept (rts c) →
  let '(c1, _, r1) := UpsertRoute h u p f c fs in
  let '(c2, _, r2) := RemoveRoute h c fs in
  let '(c3, _, _) := EnableTLS h c fs in
  let '(c4, _, _) := DisableTLS h c fs in
  (∀ h', routeID h' ≠ routeID h →
     entry (rts c1) h' = entry (rts c) h' ∧ entry (rts c2) h' = entry (rts c) h') ∧
  (rts c3 = rts c ∧ rts c4 = rts c) ∧
  (kept (rts c2) ∧ (r2 = inr tt → entry (rts c2) h = None)) ∧
  (aim (rts c1) h = aim (rts c) h ∨ aim (rts c1) h = Some (u, p)) ∧
  (obeys c → kept (rts c1) ∧
     match r1 with
     | inr _ => entry (rts c1) h = Some (mkRoute u p f)
     | inl _ => entry (rts c1) h = entry (rts c) h ∨ ∃ f', entry (rts c1) h = Some (mkRoute u p f')
     end).
Proof.
  intros Hk. pose proof (upsert_within h u p f c (kept_owned _ Hk)) as H0.
  assert (H1 : obeys c → wp (UpsertRoute h u p f) (λ c1 r1, kept (rts c1) ∧ match r1 with
    | inr _ => entry (rts c1) h = Some (mkRoute u p f)
    | inl _ => entry (rts c1) h = entry (rts c) h ∨ ∃ f', entry (rts c1) h = Some (mkRoute u p f') end) c).
  { intros Hob. eapply wp_mono; [by apply upsert_correct|]. naive_solver. }
  assert (H2 : wp (RemoveRoute h) (λ c2 r2, kept (rts c2) ∧ (r2 = inr tt → entry (rts c2) h = None) ∧
    (∀ h', routeID h' ≠ routeID h → entry (rts c2) h' = entry (rts c) h')) c) by by apply remove_route_wp.
  assert (H3 : wp (EnableTLS h) (λ c3 _, rts c3 = rts c) c) by by apply (tls_wp h true).
  assert (H4 : wp (DisableTLS h) (λ c4 _, rts c4 = rts c) c) by by apply (tls_wp h false).
  specialize (H0 fs). specialize (H2 fs). specialize (H3 fs). specialize (H4 fs).
  assert (H1' : obeys c → _) by (intros Hob; exact (H1 Hob fs)). clear H1.
  destruct (UpsertRoute h u p f c fs) as [[c1 ?] r1], (RemoveRoute h c fs) as [[c2 ?] r2],
    (EnableTLS h c fs) as [[c3 ?] ?], (DisableTLS h c fs) as [[c4 ?] ?]. simpl in *.
  destruct H0 as (_ & He & Ha), H2 as (? & ? & ?). split_and!; auto.
Qed.

(** *** The client as an instance of the interface *)

Definition res_of (r : CaddyErr + unit) : caddy_res :=
  match r with inr _ => COk | inl e => if is_not_found e then CRouteNotFound else CFailed end.

#[export] Instance client_calls : CaddyClient C := {|
  Routing.UpsertRoute h u p f c := ((UpsertRoute h u p f c []).1.1, res_of (UpsertRoute h u p f c []).2);
  Routing.RemoveRoute h c := ((RemoveRoute h c []).1.1, res_of (RemoveRoute h c []).2);
  Routing.EnableTLS h c := ((EnableTLS h c []).1.1, res_of (EnableTLS h c []).2);
  Routing.DisableTLS h c := ((DisableTLS h c []).1.1, res_of (DisableTLS h c []).2);
|}.

Lemma res_ok r : res_of r = COk ↔ r = inr tt.
Proof. destruct r as [e|[]]; simpl; [|done]. by destruct (is_not_found e). Qed.

(** Steady are the configurations in order of a run the client is right in. *)
#[export] Instance client_laws : RouteLaws C.
Proof.
  refine {| route_of c := entry (rts c); apart h h' := routeID h ≠ routeID h'; steady c := kept (rts c) ∧ obeys c |}; simpl.
  - intros h u p f c [Hk Ho]. split; [apply (upsert_correct h u p f c Hk Ho [])|apply (upsert_obeys h u p f c Ho [])].
  - intros h c [Hk Ho]. split; [apply (remove_route_wp h (λ c' _, kept (rts c'))); auto|apply (remove_obeys h c Ho [])].
  - intros h c [Hk Ho]. split; [apply (tls_wp h true (λ c' _, kept (rts c'))); by intros c' res ->|apply (tls_obeys h true c Ho [])].
  - intros h c [Hk Ho]. split; [apply (tls_wp h false (λ c' _, kept (rts c'))); by intros c' res ->|apply (tls_obeys h false c Ho [])].
  - intros h u p f c c' [Hk Ho] [= <- Hr%res_ok]. pose proof (upsert_correct h u p f c Hk Ho []) as (_ & H & _). by rewrite Hr in H.
  - intros h u p f c c' e [Hk Ho] [= <- Hr] Hne. pose proof (upsert_correct h u p f c Hk Ho []) as (_ & H & _).
    destruct (UpsertRoute h u p f c []).2 as [?|[]]; [done|]. by subst.
  - intros h u p f c h' [Hk Ho] Hne. pose proof (upsert_correct h u p f c Hk Ho []) as (_ & _ & H). by apply H.
  - intros h c c' [Hk Ho] [= <- Hr%res_ok]. revert Hr.
    apply (remove_route_wp h (λ c' r, r = inr tt → entry (rts c') h = None)); [done|]. auto.
  - intros h c h' [Hk Ho] Hne.
    apply (remove_route_wp h (λ c' r, entry (rts c') h' = entry (rts c) h')); [done|]. auto.
  - intros h c h' [Hk Ho]. apply (tls_wp h true (λ c' _, entry (rts c') h' = entry (rts c) h')). by intros c' _ ->.
  - intros h c h' [Hk Ho]. apply (tls_wp h false (λ c' _, entry (rts c') h' = entry (rts c) h')). by intros c' _ ->.
Defined.

End Refinement.

(** ** A concrete API, for evaluation *)

(** A reachable or unreachable Caddy with the routes of [srv0], if it exists,
    and its skip list. *)
Record Mem := mkMem { m_up : bool; m_routes : option (list json); m_skip : list string }.

Definition answer (status : Z) (text : string) : Outcome := Answer (mkResponse status text DecEOF).

(** The first element with the id, if any, and what is before and after it. *)
Fixpoint split_at (p : json → bool) (l : list json) : option (list json * list json) :=
  match l with
  | [] => None
  | r :: l => if p r then Some ([], l)
              else match split_at p l with Some (l1, l2) => Some (r :: l1, l2) | None => None end
  end.

Definition mem_config (m : Mem) : json :=
  JObj [("apps", JObj [("http", JObj [("servers",
    match m_routes m with
    | Some l => JObj [("srv0", JObj [("routes", JArr l); ("automatic_https", JObj [("skip", JArr (JStr <$> m_skip m))])])]
    | None => JObj []
    end)])])].

Definition mem_change (id : string) (f : list json → list json → list json) (m : Mem) : Mem * Outcome :=
  match split_at (has_id id) (default [] (m_routes m)) with
  | Some (l1, l2) => (mkMem true (Some (f l1 l2)) (m_skip m), answer 200 "")
  | None => (m, answer 404 "unknown object ID")
  end.

#[export] Instance mem_api : AdminAPI Mem := {
  exchange method path body m :=
    if negb (m_up m) then (m, NoAnswer "connection refused")
    else if (method =s "POST") && (path =s "/load") then (mkMem true (Some []) [], answer 200 "")
    else if (method =s "POST") && (path =s routes_path) then
      match m_routes m, body with
      | Some l, Some r => (mkMem true (Some (l ++ [r])) (m_skip m), answer 200 "")
      | _, _ => (m, answer 400 "invalid traversal path at: config/apps/http/servers/srv0")
      end
    else if (method =s "GET") && (path =s "/config/") then
      (m, Answer (mkResponse 200 "" (DecJson (mem_config m))))
    else if HasPrefix path "/id/" then
      let id := drop_s 4 path in
      if method =s "PATCH" then mem_change id (λ l1 l2, match body with Some r => l1 ++ r :: l2 | None => l1 ++ l2 end) m
      else mem_change id (λ l1 l2, l1 ++ l2) m
    else (m, answer 404 "not found")
}.

Lemma split_at_some p l l1 l2 : split_at p l = Some (l1, l2) → ∃ r0, l = l1 ++ r0 :: l2 ∧ p r0 = true.
Proof.
  revert l1. induction l as [|r l IH]; intros l1 E; simpl in E; [done|].
  destruct (p r) eqn:Ep; [simplify_eq; by exists r|].
  destruct (split_at p l) as [[l1' l2']|]; simplify_eq. destruct (IH l1' eq_refl) as (r0 & -> & ?). by exists r0.
Qed.

Lemma split_at_none p l : split_at p l = None → List.existsb p l = false.
Proof.
  induction l as [|r l IH]; simpl; [done|]. destruct (p r); [done|].
  destruct (split_at p l) as [[? ?]|]; [done|]. intros _. by apply IH.
Qed.

Lemma mem_id id : HasPrefix ("/id/" ^^ id) "/id/" = true ∧ drop_s 4 ("/id/" ^^ id) = id.
Proof.
  split; [unfold HasPrefix; simpl; by destruct id|]. unfold drop_s. rewrite string_app_length.
  change (String.length "/id/") with 4. replace (4 + String.length id - 4) with (String.length id) by lia.
  apply (substring_all id).
Qed.

Lemma mem_by_id method id b m : method ≠ "GET" → method ≠ "POST" →
  exchange method ("/id/" ^^ id) b m =
  if negb (m_up m) then (m, NoAnswer "connection refused")
  else if method =s "PATCH" then mem_change id (λ l1 l2, match b with Some r => l1 ++ r :: l2 | None => l1 ++ l2 end) m
  else mem_change id (λ l1 l2, l1 ++ l2) m.
Proof.
  intros H1%String.eqb_neq H2%String.eqb_neq. unfold exchange, mem_api. destruct (mem_id id) as [E1 E2].
  rewrite H1, H2, E1, E2. done.
Qed.

Definition mem_rts (m : Mem) : list json := default [] (m_routes m).

Lemma mem_post r m : exchange "POST" routes_path (Some r) m =
  if negb (m_up m) then (m, NoAnswer "connection refused")
  else match m_routes m with
       | Some l => (mkMem true (Some (l ++ [r])) (m_skip m), answer 200 "")
       | None => (m, answer 400 "invalid traversal path at: config/apps/http/servers/srv0")
       end.
Proof. unfold exchange, mem_api. destruct (m_up m); [|done]. simpl. by destruct (m_routes m). Qed.

#[export] Instance mem_laws : AdminLaws Mem.
Proof.
  refine {| rts := mem_rts |}.
  - intros id r m m' o. rewrite mem_by_id by done. unfold mem_change, mem_rts.
    destruct (m_up m); simpl; [|intros [= <- <-]; by left].
    destruct (split_at _ _) as [[l1 l2]|] eqn:E; intros [= <- <-]; [right|by left].
    apply split_at_some in E as (r0 & E & ?). exists l1, r0, l2. done.
  - intros id m m' o. rewrite mem_by_id by done. unfold mem_change, mem_rts.
    destruct (m_up m); simpl; [|intros [= <- <-]; by left].
    destruct (split_at _ _) as [[l1 l2]|] eqn:E; intros [= <- <-].
    + right. apply split_at_some in E as (r0 & E & ?). exists l1, r0, l2. done.
    + left. split_and!; [done..|]. intros _. by apply split_at_none.
  - intros r m m' o. rewrite mem_post. unfold mem_rts.
    destruct (m_up m); simpl; [|intros [= <- <-]; by left].
    destruct (m_routes m) eqn:E; intros [= <- <-]; [by right|left; by rewrite E].
  - intros r m m' o e. rewrite mem_post. unfold mem_rts.
    destruct (m_up m); simpl; [|intros [= <- <-]; simpl; by intros [= <-]].
    destruct (m_routes m) eqn:E; intros [= <- <-]; [done|]. by rewrite E.
  - intros m m' o. unfold exchange, mem_api. destruct (m_up m); simpl; intros [= <- <-]; [by right|by left].
  - intros m. unfold exchange, mem_api. by destruct (m_up m).
  - intros b m. unfold exchange, mem_api. by destruct (m_up m).
Defined.

(** This Caddy takes every request or none. *)
Lemma mem_obeys m : obeys m.
Proof.
  intros m0 _ id r r' m1 o m2 o'. rewrite mem_by_id by done. unfold mem_change.
  destruct (m_up m0) eqn:Eu; cbn [negb].
  - destruct (split_at _ _) as [[l1 l2]|] eqn:E; intros [= <- <-]; [done|]. intros _ Hna. by apply split_at_none in E.
  - intros [= <- <-] _ _. rewrite mem_post, Eu. simpl. by intros [= <- <-].
Qed.

#[local] Instance no_sha : Sha1 := {| sha1_4 s := s |}.

(** A Caddy without [srv0] gets one, with the two routes of the host. *)
Lemma client_correct_witness :
  let m := mkMem true None [] in
  let m' := (UpsertRoute "shop.example.com" "web" 8080 false m []).1.1 in
  kept (rts m) ∧ obeys m ∧ entry (rts m') "shop.example.com" = Some (mkRoute "web" 8080 false) ∧ length (rts m') = 2.
Proof.
  intros m m'. split; [exact kept_nil|]. split; [exact (mem_obeys m)|].
  pose proof (client_correct "shop.example.com" "web" 8080 false m [] kept_nil) as H.
  assert (Hr : (UpsertRoute "shop.example.com" "web" 8080 false m []).2 = inr tt) by (vm_compute; reflexivity).
  assert (Hl : length (rts m') = 2) by (vm_compute; reflexivity).
  unfold m' in *. destruct (UpsertRoute _ _ _ _ _ _) as [[c1 f1] r1]. simpl in Hr, Hl |- *.
  destruct (RemoveRoute _ _ _) as [[c2 f2] r2], (EnableTLS _ _ _) as [[c3 f3] r3], (DisableTLS _ _ _) as [[c4 f4] r4].
  destruct H as (_ & _ & _ & _ & H). destruct (H (mem_obeys m)) as [_ He]. subst r1. split; [exact He|exact Hl].
Defined.
