(* ===== verification/Swap.v ===== *)
(** * Container swap (internal/deploy: swap, healthCheck, appDomains and the
    naming helpers of engine.go)

    The replacement of an application's container by a new one.  The state is
    the database, the container engine and the reverse proxy; every state these
    two go through is logged, so that "at no moment" can be stated.  Answers of
    the environment (secrets, health probes, clock, random names) are arguments;
    the log file is not modelled. *)

From S2P Require Import Prelude Effects GoStrings Schema Routing Docker Domains.

Inductive DeployErr :=
  | ErrDeployNotFound
  | ErrDeployInProgress
  | ErrTooManyDeploys
  | ErrDeploy (where_ : string)
  | ErrDeployDb (where_ : string)
  | ErrDeployDocker (where_ : string) (e : DkErr)
  | ErrDeployDomains (e : DomErr).

(** The engine and which of its optional collaborators are wired. *)
Record Engine := mkEngine {
  en_Secrets : bool; en_Caddy : bool; en_AppVolumes : bool; en_Limit : option Z; en_LogDir : string;
}.

(** The environment of one run: the runtime secrets of the app ([None]: the
    resolution fails), the health probes made and the time of each, the free
    ports of the host, the clock, and the random strings that may be drawn. *)
Record Env := mkEnv {
  ev_secrets : string → option (gmap string string);
  ev_probes : list (Z * option Z);
  ev_free : Z → bool;
  ev_now : Z;
  ev_uuid : string;
  ev_hex : string;
}.

Definition derefStr (p : option string) : string := match p with None => "" | Some s => s end.
Definition intPtrToInt64 (p : option Z) : Z := match p with None => 0%Z | Some z => z end.

(** [x != nil && strings.TrimSpace( *x) != ""]. *)
Definition given (x : option string) : bool :=
  match x with None => false | Some s => negb (TrimSpace s =s "") end.

(** ** Names *)

(** [r[:strings.LastIndex(r, ":")]], the whole string without a colon. *)
Fixpoint before_colon (l : list ascii) : option (list ascii) :=
  match l with
  | [] => None
  | c :: l => match before_colon l with
              | Some r => Some (c :: r)
              | None => if Ascii.eqb c ":"%char then Some [] else None
              end
  end.
Definition strip_tag (s : string) : string :=
  match before_colon (String.list_ascii_of_string s) with
  | Some l => String.string_of_list_ascii l
  | None => s
  end.

(** [hex]: the first seven characters of a fresh UUID. *)
Definition imageShortSHA (hex imageRef appName : string) : string :=
  let r := strip_tag imageRef in
  let prefix := "prexel-" ^^ appName ^^ "-" in
  if HasPrefix r prefix then drop_s (String.length prefix) r else hex.

Fixpoint legacy_from (seen : list string) (names : list string) : list string :=
  match names with
  | [] => []
  | n :: names =>
    if n =s "" then legacy_from seen names
    else if bool_decide (n ∈ seen) then legacy_from seen names
    else n :: legacy_from (n :: seen) names
  end.
Definition legacyDedupe (names : list string) : list string := legacy_from [] names.

(** The loop of [slugify]: [prev] is [prevDash]. *)
Fixpoint fold_dashes (prev : bool) (l : list ascii) : list ascii :=
  match l with
  | [] => []
  | c :: l =>
    let z := byte c in
    if is_lower_ascii z || in_range 48 57 z || (z =? 95)%Z then c :: fold_dashes false l
    else if prev then fold_dashes true l else "-"%char :: fold_dashes true l
  end.

Definition slugify `{Unicode} (s : string) : string :=
  let s := ToLower (TrimSpace s) in
  if s =s "" then ""
  else Trim (String.string_of_list_ascii (fold_dashes false (String.list_ascii_of_string s))) "-".

Definition namedVolumeName `{Unicode} (appName mountPath : string) : string :=
  "prexel-vol-" ^^ slugify appName ^^ "-" ^^ slugify mountPath.

Definition containerName_of (a : App) : string :=
  let n := derefStr (a_container_name a) in if n =s "" then a_name a else n.
Definition legacyName_of (a : App) : string := "prexel-" ^^ a_name a.
Definition tempName_of (hex imageRef : string) (a : App) : string :=
  containerName_of a ^^ "-deploying-" ^^ imageShortSHA hex imageRef (a_name a).
Definition containerPort_of (a : App) : Z :=
  match a_port a with Some p => if (0 <? p)%Z then p else 80%Z | None => 80%Z end.

(** ** Health check *)

(** What the probes ask for: URL, method, expected status, timeout in seconds. *)
Record Probe := mkProbe { pr_url : string; pr_method : string; pr_want : Z; pr_timeout : Z }.

Definition probe_of `{Unicode} (a : App) (containerName : string) (containerPort : Z) : Probe :=
  let path := if a_health_check_path a =s "" then "/" else a_health_check_path a in
  let path := if HasPrefix path "/" then path else "/" ^^ path in
  let port := match a_health_check_port a with
              | Some p => if (0 <? p)%Z then p else containerPort
              | None => containerPort
              end in
  let method := ToUpper (a_health_check_method a) in
  let method := if method =s "" then "GET" else method in
  let want := (if a_health_check_return_code a =? 0 then 200 else a_health_check_return_code a)%Z in
  let timeout := (if a_health_check_timeout a <=? 0 then 60 else a_health_check_timeout a)%Z in
  mkProbe ("http://" ^^ containerName ^^ ":" ^^ Itoa port ^^ path) method want timeout.

(** The polling loop: each iteration reads the clock, probes and waits; the
    list ends where the context is cancelled. *)
Fixpoint poll (deadline want : Z) (probes : list (Z * option Z)) : bool :=
  match probes with
  | [] => false
  | (now, answer) :: probes =>
    if (deadline <? now)%Z then false
    else if match answer with Some code => (code =? want)%Z | None => false end then true
    else poll deadline want probes
  end.

(** [true]: healthy.  Without a health check, only a cancelled context (no
    probe at all) fails. *)
Definition healthCheck `{Unicode} (start : Z) (probes : list (Z * option Z)) (a : App) (name : string) (port : Z) : bool :=
  if negb (a_health_check_enabled a) then negb (is_nil probes)
  else
    let p := probe_of a name port in
    poll (start + Z.max 0 (a_health_check_start_period a) + pr_timeout p) (pr_want p) probes.

(** ** The world *)

Record World (D C : Type) := mkWorld {
  w_db : Db; w_docker : D; w_caddy : C; w_events : list (string * string); w_log : list (D * C);
}.
Arguments mkWorld {D C}. Arguments w_db {D C}. Arguments w_docker {D C}. Arguments w_caddy {D C}.
Arguments w_events {D C}. Arguments w_log {D C}.

Section World.
Context {D C : Type} `{DD : DockerDaemon D} `{CC : CaddyClient C} `{Fl : Floats} `{Nt : Nat} `{Uc : Unicode}.

Definition wM := M (World D C) DeployErr.

Definition set_wdb (d : Db) (w : World D C) : World D C :=
  mkWorld d (w_docker w) (w_caddy w) (w_events w) (w_log w).

Definition wquery {A} (s : string) (f : Db → A) : wM A := query (ErrDeployDb s) (λ w, f (w_db w)).
Definition wexec (s : string) (f : Db → Db) : wM unit :=
  exec (ErrDeployDb s) (λ w, set_wdb (f (w_db w)) w).

(** A helper of dockersvc, its error as a value. *)
Definition docker {A} (m : dockM (D := D) A) : wM (DkErr + A) := λ w fs,
  let '(s, fs', r) := m (w_docker w, []) fs in
  (mkWorld (w_db w) s.1 (w_caddy w) (w_events w) (w_log w ++ ((λ d, (d, w_caddy w)) <$> s.2)), fs', inr r).

(** A call of the proxy client. *)
Definition proxy (f : C → C * caddy_res) : wM caddy_res := λ w fs,
  let '(c, r) := f (w_caddy w) in
  (mkWorld (w_db w) (w_docker w) c (w_events w) (w_log w ++ [(w_docker w, c)]), fs, inr r).

Definition domains_state (w : World D C) : DomState C := mkDomState (w_db w) (w_caddy w) [] ∅.
Definition put_domains (s : DomState C) (w : World D C) : World D C :=
  mkWorld (ds_db s) (w_docker w) (ds_caddy s) (w_events w) (w_log w).

Definition domains_list (appID : string) : wM (list Domain) :=
  zoom domains_state put_domains ErrDeployDomains (List_ (Some appID)).

Definition assign_port (free : Z → bool) (appID : string) : wM Z :=
  zoom w_db set_wdb ErrDeployDomains (AssignHostPort free appID).

(** [publish]: two topics per event. *)
Definition suffixForType (t : string) : string :=
  if t =s "deploy.started" then "started"
  else if t =s "deploy.log" then "log"
  else if t =s "deploy.success" then "success"
  else if t =s "deploy.failed" then "failed"
  else if t =s "app.status_changed" then "status_changed"
  else ReplaceAll t "." "_".

Definition publish (appID deploymentID eventType : string) : wM unit :=
  modify (λ w, mkWorld (w_db w) (w_docker w) (w_caddy w)
    (w_events w ++ [("deploy." ^^ deploymentID ^^ "." ^^ suffixForType eventType, eventType);
                    ("app." ^^ appID ^^ "." ^^ suffixForType eventType, eventType)]) (w_log w)).

(** ** Rows (deploy/repo.go, app/service.go: SetStatus) *)

Definition is_deployment (id : string) (d : Deployment) : bool := dp_id d =s id.

(** [updateFields]: an UPDATE of some columns. *)
Definition updateFields (id : string) (f : Deployment → Deployment) : wM unit :=
  n ← fallible (ErrDeployDb "update") (λ w,
        (set_wdb (on_deployments (upd (is_deployment id) f) (w_db w)) w, cnt (is_deployment id) (deployments (w_db w))));
  if (n =? 0)%nat then throw ErrDeployNotFound else mret tt.


Definition SetStatus (id status : string) : wM unit :=
  cur ← wquery "get app" (λ d, sel (is_app id) (apps d));
  match cur with
  | None => throw ErrDeployNotFound
  | Some cur =>
    if (a_status cur =s "unreachable") && negb (status =s "running") then mret tt
    else wexec "update status" (on_apps (upd (is_app id) (set_app_status status)))
  end.

(** ** Domains of the app *)

Fixpoint split_primary (l : list Domain) (primary : string) (aliases : list string) : string * list string :=
  match l with
  | [] => (primary, aliases)
  | d :: l => if d_is_primary d && (primary =s "") then split_primary l (d_name d) aliases
              else split_primary l primary (aliases ++ [d_name d])
  end.

(** [appDomains]: the primary host ("" when there is no domain), the others and
    the redirect flag of each. *)
Definition appDomains (appID : string) : wM (string * list string * gmap string bool) :=
  doms ← domains_list appID;
  let force := list_to_map (rev ((λ d, (d_name d, d_force_https d)) <$> doms)) in
  let '(primary, aliases) := split_primary doms "" [] in
  match primary =s "", aliases with
  | true, x :: aliases => mret (x, aliases, force)
  | _, _ => mret (primary, aliases, force)
  end.

(** ** swap *)

(** Rows of [app_volumes] of an app, by mount path. *)
Definition before_path (x y : Volume) : bool := String.leb (v_mount_path x) (v_mount_path y).
Definition by_path (l : list Volume) : list Volume := sort_by before_path l.
Definition volumes_of (appID : string) (d : Db) : list Volume :=
  by_path (List.filter (λ v, v_app_id v =s appID) (app_volumes d)).

(** The error of a helper, other than "no such container", is only logged. *)
Definition stop_and_remove (name : string) : wM unit :=
  _ ← docker (StopContainer name);
  _ ← docker (RemoveContainer name);
  mret tt.

Definition preDeployHook (a : App) (containerName : string) : wM unit :=
  if given (a_pre_deploy_command a) then
    ex ← docker (ContainerExists containerName);
    if match ex with inr b => b | inl _ => false end then
      r ← docker (Exec containerName (derefStr (a_pre_deploy_command a)));
      match r with inl e => throw (ErrDeployDocker "pre-deploy" e) | inr _ => mret tt end
    else mret tt
  else mret tt.

Definition postDeployHook (a : App) (containerName : string) : wM unit :=
  when (given (a_post_deploy_command a)) (
    _ ← docker (Exec containerName (derefStr (a_post_deploy_command a))); mret tt).

(** App environment overridden by the runtime secrets. *)
Definition runtime_env (e : Engine) (v : Env) (a : App) : wM (gmap string string) :=
  if en_Secrets e then
    match ev_secrets v (a_id a) with
    | None => throw (ErrDeploy "resolve runtime secrets")
    | Some secs => mret (secs ∪ a_env_vars a)
    end
  else mret (a_env_vars a).

Fixpoint mounts_of (a : App) (vols : list Volume) : wM (list Mount) :=
  match vols with
  | [] => mret []
  | v :: vols =>
    if match v_service v with Some _ => true | None => false end then mounts_of a vols
    else
      m ← (if v_is_named v then
             let source := namedVolumeName (a_name a) (v_mount_path v) in
             r ← docker (EnsureVolume source
                   (<["prexel.app_id" := a_id a]> {["prexel.app_name" := a_name a]}));
             match r with
             | inl err => throw (ErrDeployDocker "ensure volume" err)
             | inr _ => mret (mkMount source (v_mount_path v) "volume" (v_read_only v))
             end
           else match v_host_path v with
           | None => throw (ErrDeploy "bind mount has no host_path")
           | Some h => mret (mkMount h (v_mount_path v) "bind" (v_read_only v))
           end);
      ms ← mounts_of a vols;
      mret (m :: ms)
  end.

Definition load_mounts (e : Engine) (a : App) : wM (list Mount) :=
  if en_AppVolumes e then
    vols ← attempt (wquery "volumes" (volumes_of (a_id a)));
    mounts_of a (match vols with inr l => l | inl _ => [] end)
  else mret [].

Definition candidate_labels (a : App) (deploymentID : string) : gmap string string :=
  <["prexel.app_id" := a_id a]> (<["prexel.app_name" := a_name a]> (<["prexel.deployment" := deploymentID]>
    (<["prexel.role" := "candidate"]> (a_docker_labels a)))).

Definition candidate_opts (a : App) (deploymentID imageRef tempName : string) (env : gmap string string)
    (bindings : list PortBinding) (mounts : list Mount) : ContainerOpts :=
  mkContainerOpts tempName imageRef [] env (candidate_labels a deploymentID) "" [tempName] bindings
    (if a_restart_policy a =s "" then "unless-stopped" else a_restart_policy a)
    (derefStr (a_limits_memory a)) (derefStr (a_limits_cpus a)) (derefStr (a_limits_memory_swap a))
    (a_limits_memory_swappiness a) (derefStr (a_limits_memory_reservation a)) (derefStr (a_limits_cpuset a))
    (intPtrToInt64 (a_limits_cpu_shares a)) mounts.

(** The host port of an app without a domain. *)
Definition port_bindings (v : Env) (a : App) (hasDomain : bool) : wM (list PortBinding) :=
  if hasDomain then mret []
  else
    hostPort ← (match a_host_port a with
                | Some p => if (0 <? p)%Z then mret p else assign_port (ev_free v) (a_id a)
                | None => assign_port (ev_free v) (a_id a)
                end);
    mret [mkPortBinding hostPort (containerPort_of a) "tcp"].

(** Routing every host to [upstream]; the first error ends the deploy... *)
Fixpoint route_all (force : gmap string bool) (upstream : string) (port : Z) (hosts : list string) : wM unit :=
  match hosts with
  | [] => mret tt
  | h :: hosts =>
    r ← proxy (UpsertRoute h upstream port (default false (force !! h)));
    match r with
    | COk => route_all force upstream port hosts
    | _ => throw (ErrDeploy ("caddy upsert " ^^ h))
    end
  end.
(** ... or is only logged. *)
Fixpoint reroute_all (force : gmap string bool) (upstream : string) (port : Z) (hosts : list string) : wM unit :=
  match hosts with
  | [] => mret tt
  | h :: hosts =>
    _ ← proxy (UpsertRoute h upstream port (default false (force !! h)));
    reroute_all force upstream port hosts
  end.

(** From the health check of the candidate to its rename. *)
Definition promote (e : Engine) (v : Env) (a : App) (imageRef tempName : string)
    (hosts : list string) (force : gmap string bool) (hasDomain : bool) : wM unit :=
  let containerName := containerName_of a in
  let containerPort := containerPort_of a in
  if negb (healthCheck (ev_now v) (ev_probes v) a tempName containerPort) then
    _ ← docker (StopContainer tempName);
    _ ← docker (RemoveContainer tempName);
    _ ← docker (RemoveImage imageRef);
    throw (ErrDeploy "health check")
  else
    _ ← when (hasDomain && en_Caddy e) (route_all force tempName containerPort hosts);
    _ ← each stop_and_remove (legacyDedupe [containerName; legacyName_of a]);
    r ← docker (RenameContainer tempName containerName);
    match r with
    | inl err => throw (ErrDeployDocker "rename" err)
    | inr _ =>
      _ ← when (hasDomain && en_Caddy e) (reroute_all force containerName containerPort hosts);
      postDeployHook a containerName
    end.

Definition swap (e : Engine) (v : Env) (a : App) (imageRef : string) (deploymentID : string) : wM unit :=
  _ ← ignore (updateFields deploymentID (set_dp_status "deploying"));
  _ ← ignore (SetStatus (a_id a) "deploying");
  _ ← publish (a_id a) deploymentID "app.status_changed";
  let containerName := containerName_of a in
  let tempName := tempName_of (ev_hex v) imageRef a in
  _ ← preDeployHook a containerName;
  env ← runtime_env e v a;
  doms ← appDomains (a_id a);
  let '(primary, aliases, force) := doms in
  let hasDomain := negb (primary =s "") in
  bindings ← port_bindings v a hasDomain;
  _ ← when (negb hasDomain) (each stop_and_remove (legacyDedupe [containerName; legacyName_of a]));
  _ ← docker (RemoveContainer tempName);
  mounts ← load_mounts e a;
  r ← docker (RunContainer (candidate_opts a deploymentID imageRef tempName env bindings mounts));
  match r with
  | inl err => throw (ErrDeployDocker "run container" err)
  | inr _ => promote e v a imageRef tempName (primary :: aliases) force hasDomain
  end.
End World.

(** ** Invariants of a swap *)

(** Some running container answers to [upstream]. *)
Definition served (l : list Container) (upstream : string) : bool := List.existsb (λ c, answers c upstream) l.

Section SwapFacts.
Context {D C : Type} `{DD : DockerDaemon D} `{DL : !DockerLaws D} `{CC : CaddyClient C} `{RL : !RouteLaws C}.
Context `{Fl : Floats} `{Nt : Nat} `{Uc : Unicode}.
Local Abbreviation World := (World D C).
Implicit Types (w : World) (c : C) (l : list Container) (hosts : list string).

(** Host names the proxy can hold side by side. *)
Definition usable hosts : Prop :=
  ("" ∉ hosts) ∧ (∀ h h', h ∈ hosts → h' ∈ hosts → h ≠ h' → apart h h').

(** Every host is routed to a running container. *)
Definition Serving hosts c l : Prop := ∀ h, h ∈ hosts → ∃ r, route_of c h = Some r ∧ served l (rt_upstream r) = true.

(** ... and was so after every call of the engine or of the proxy. *)
Definition LogOk hosts w : Prop := Forall (λ s, Serving hosts s.2 (ps s.1)) (w_log w).

Definition Keeps hosts (J : C → list Container → Prop) w : Prop :=
  LogOk hosts w ∧ J (w_caddy w) (ps (w_docker w)).

Definition implies_serving hosts (J : C → list Container → Prop) : Prop := ∀ c l, J c l → Serving hosts c l.

Lemma served_elem l x u : x ∈ l → answers x u = true → served l u = true.
Proof. intros Hx Ha. apply List.existsb_exists. exists x. split; [by apply list_elem_of_In|done]. Qed.

Lemma log_nil w : LogOk [] w.
Proof. apply Forall_forall. intros s _ h Hh. by apply not_elem_of_nil in Hh. Qed.

Section Preserve.
Variable hosts : list string.
Variable J : C → list Container → Prop.
Hypothesis HJ : implies_serving hosts J.

(** A helper of the engine that keeps [J] keeps the log. *)
Lemma docker_wp {A} (m : dockM A) w (Q : World → DeployErr + (DkErr + A) → Prop) :
  Keeps hosts J w →
  wp m (λ s r, along (J (w_caddy w)) s ∧
    ∀ w', w_db w' = w_db w → w_caddy w' = w_caddy w → LogOk hosts w' → w_docker w' = s.1 → Q w' (inr r))
    (w_docker w, []) →
  wp (docker m) Q w.
Proof.
  intros [Hl Hj] Hm fs. specialize (Hm fs). unfold docker.
  destruct (m (w_docker w, []) fs) as [[s fs'] r]. destruct Hm as [Ha Hq]. apply Hq; [done..| |done].
  unfold LogOk. simpl. apply Forall_app. split; [exact Hl|]. apply Forall_fmap.
  eapply Forall_impl; [exact Ha|]. intros d Hd. by apply HJ.
Qed.

Lemma docker_keeps {A} (m : dockM A) :
  (∀ c d, J c (ps d) → wp m (λ s _, along (J c) s ∧ J c (ps s.1)) (d, [])) →
  preserves (Keeps hosts J) (docker m).
Proof.
  intros Hm w Hw. apply docker_wp; [done|]. eapply wp_mono; [apply Hm, Hw|].
  intros s r [Ha Hj]. split; [done|]. intros w' _ Hc Hl Hd. split; [done|]. by rewrite Hc, Hd.
Qed.

Lemma stop_keeps n :
  (∀ c l, J c l → J c (upd (finds (ByName n)) (set_running false) l)) → preserves (Keeps hosts J) (docker (StopContainer n)).
Proof.
  intros Hs. apply docker_keeps. intros c d Hj. apply (stop_wp n (J c)); [constructor|done|by apply Hs|].
  intros s' r Ha [[-> _]| ->]; split; auto.
Qed.

Lemma remove_keeps n :
  (∀ c l, J c l → J c (del (finds (ByName n)) l)) → preserves (Keeps hosts J) (docker (RemoveContainer n)).
Proof.
  intros Hs. apply docker_keeps. intros c d Hj. apply (remove_wp n (J c)); [constructor|done|by apply Hs|].
  intros s' r Ha [[-> _]| ->]; split; auto.
Qed.

Lemma stop_and_remove_keeps n :
  (∀ c l, J c l → J c (upd (finds (ByName n)) (set_running false) l)) →
  (∀ c l, J c l → J c (del (finds (ByName n)) l)) → preserves (Keeps hosts J) (stop_and_remove n).
Proof.
  intros. apply preserves_bind; [by apply stop_keeps|]. intros _.
  apply preserves_bind; [by apply remove_keeps|]. intros _. apply preserves_ret.
Qed.

(** Calls that do not concern containers. *)
Lemma frame_keeps {A} (m : dockM A) :
  (∀ P s, along P s → P (ps s.1) → wp m (λ s' _, along P s' ∧ ps s'.1 = ps s.1) s) →
  preserves (Keeps hosts J) (docker m).
Proof.
  intros Hm. apply docker_keeps. intros c d Hj. eapply wp_mono; [apply (Hm (J c)); [constructor|done]|].
  intros s' r [Ha E]. split; [done|by rewrite E].
Qed.

Lemma exec_keeps n cmd : preserves (Keeps hosts J) (docker (Exec n cmd)).
Proof. apply frame_keeps. intros P s Ha Hp. apply (named_call_frame _ _ _ P); auto. intros; apply exec_ps. Qed.

Lemma remove_image_keeps i : preserves (Keeps hosts J) (docker (RemoveImage i)).
Proof. apply frame_keeps. intros P s Ha Hp. apply (named_call_frame _ _ _ P); auto. intros; apply image_remove_ps. Qed.

Lemma frame_call {A} (f : D → D * A) P s : (∀ d, ps (f d).1 = ps d) → along P s → P (ps s.1) →
  wp (call f) (λ s' _, along P s' ∧ ps s'.1 = ps s.1) s.
Proof. intros Hf Ha Hp. apply wp_call. split; [apply along_snoc; [done|by rewrite Hf]|by apply Hf]. Qed.

Lemma exists_keeps n : preserves (Keeps hosts J) (docker (ContainerExists n)).
Proof.
  apply frame_keeps. intros P s Ha Hp. apply wp_bind. eapply wp_mono; [by apply frame_call; [apply inspect_ps|..]|].
  intros s' [e|[r b]] H; [exact H|]. simpl. destruct r; [by apply wp_ret|by apply wp_ret|by apply wp_throw].
Qed.

Lemma ensure_volume_keeps n ls : preserves (Keeps hosts J) (docker (EnsureVolume n ls)).
Proof.
  apply frame_keeps. intros P s Ha Hp. unfold EnsureVolume. destruct (_ =s _); [by apply wp_throw|].
  apply wp_bind. eapply wp_mono; [by apply frame_call; [apply volume_create_ps|..]|].
  intros s' [e|r] H; [exact H|]. destruct (is_ok r); [by apply wp_ret|by apply wp_throw].
Qed.

(** Database, events: neither the engine nor the proxy is touched. *)
Lemma local_keeps {A} (m : wM A) :
  (∀ w fs, let w' := (m w fs).1.1 in w_docker w' = w_docker w ∧ w_caddy w' = w_caddy w ∧ w_log w' = w_log w) →
  preserves (Keeps hosts J) m.
Proof.
  intros Hm w [Hl Hj] fs. destruct (Hm w fs) as (E1 & E2 & E3). unfold Keeps, LogOk. by rewrite E1, E2, E3.
Qed.

Lemma wquery_keeps {A} t (f : Db → A) : preserves (Keeps hosts J) (wquery t f).
Proof. apply local_keeps. intros w [|[] fs]; done. Qed.

Lemma wexec_keeps t f : preserves (Keeps hosts J) (wexec t f).
Proof. apply local_keeps. intros w [|[] fs]; done. Qed.

Lemma publish_keeps app dep ev : preserves (Keeps hosts J) (publish app dep ev).
Proof. by apply local_keeps. Qed.

Lemma updateFields_keeps id f : preserves (Keeps hosts J) (updateFields id f).
Proof.
  apply preserves_bind.
  - apply local_keeps. intros w [|[] fs]; done.
  - intros n. destruct (n =? 0)%nat; [apply preserves_throw|apply preserves_ret].
Qed.

Lemma SetStatus_keeps id st : preserves (Keeps hosts J) (SetStatus id st).
Proof.
  apply preserves_bind; [apply wquery_keeps|]. intros [cur|]; [|apply preserves_throw].
  destruct (_ && _); [apply preserves_ret|apply wexec_keeps].
Qed.

Lemma domains_list_keeps id : preserves (Keeps hosts J) (domains_list id).
Proof. apply local_keeps. intros w [|[] fs]; done. Qed.

Lemma assign_port_keeps free id : preserves (Keeps hosts J) (assign_port free id).
Proof.
  apply local_keeps. intros w fs. unfold assign_port, zoom, AssignHostPort.
  destruct (FindAvailablePort _ _ _); [done|]. unfold mbind, M_bind, bind.
  destruct fs as [|[] fs]; simpl; try done; by destruct (_ =? 0)%nat.
Qed.

Lemma appDomains_keeps id : preserves (Keeps hosts J) (appDomains id).
Proof.
  apply preserves_bind; [apply domains_list_keeps|]. intros l. cbv zeta.
  destruct (split_primary _ _ _) as [p al]. destruct (p =s ""); [|apply preserves_ret].
  destruct al; apply preserves_ret.
Qed.

Lemma env_keeps e v a : preserves (Keeps hosts J) (runtime_env e v a).
Proof.
  unfold runtime_env. destruct (en_Secrets e); [|apply preserves_ret].
  destruct (ev_secrets v _); [apply preserves_ret|apply preserves_throw].
Qed.

Lemma mounts_keeps e a : preserves (Keeps hosts J) (load_mounts e a).
Proof.
  unfold load_mounts. destruct (en_AppVolumes e); [|apply preserves_ret].
  apply preserves_bind; [apply preserves_attempt, wquery_keeps|]. intros r.
  generalize (match r with inr l => l | inl _ => [] end). clear r. intros l.
  induction l as [|x l IH]; [apply preserves_ret|]. simpl.
  destruct (match v_service x with Some _ => true | None => false end); [exact IH|].
  apply preserves_bind; [|intros m; apply preserves_bind; [exact IH|intros; apply preserves_ret]].
  destruct (v_is_named x).
  - apply preserves_bind; [apply ensure_volume_keeps|]. intros [?|?]; [apply preserves_throw|apply preserves_ret].
  - destruct (v_host_path x); [apply preserves_ret|apply preserves_throw].
Qed.

Lemma bindings_keeps v a b : preserves (Keeps hosts J) (port_bindings v a b).
Proof.
  unfold port_bindings. destruct b; [apply preserves_ret|]. apply preserves_bind; [|intros; apply preserves_ret].
  destruct (a_host_port a) as [p|]; [destruct (0 <? p)%Z|]; [apply preserves_ret|apply assign_port_keeps..].
Qed.

Lemma pre_hook_keeps a n : preserves (Keeps hosts J) (preDeployHook a n).
Proof.
  unfold preDeployHook. destruct (given _); [|apply preserves_ret].
  apply preserves_bind; [apply exists_keeps|]. intros r. destruct (match r with inr b => b | inl _ => false end); [|apply preserves_ret].
  apply preserves_bind; [apply exec_keeps|]. intros [?|?]; [apply preserves_throw|apply preserves_ret].
Qed.

Lemma post_hook_keeps a n : preserves (Keeps hosts J) (postDeployHook a n).
Proof.
  apply preserves_when, preserves_bind; [apply exec_keeps|]. intros; apply preserves_ret.
Qed.

Lemma reroute_keeps force u port hs :
  (∀ c l h p f c' r, h ∈ hs → J c l → UpsertRoute h u p f c = (c', r) → J c' l) →
  preserves (Keeps hosts J) (reroute_all force u port hs).
Proof.
  induction hs as [|h hs IH]; intros Hu; simpl; [apply preserves_ret|].
  apply preserves_bind; [|intros _; apply IH; intros; eapply Hu; [by right|done..]].
  intros w [Hl Hj] fs. unfold proxy. destruct (UpsertRoute _ _ _ _ _) as [c' r] eqn:E. simpl.
  assert (J c' (ps (w_docker w))) by (eapply Hu; [left|done..]).
  split; [|done]. unfold LogOk. simpl. apply Forall_app. split; [done|]. constructor; [|done]. by apply HJ.
Qed.
End Preserve.
End SwapFacts.

Create HintDb swap.

#[export] Hint Resolve wquery_keeps wexec_keeps publish_keeps updateFields_keeps SetStatus_keeps domains_list_keeps
  assign_port_keeps appDomains_keeps env_keeps mounts_keeps bindings_keeps pre_hook_keeps post_hook_keeps
  remove_image_keeps exec_keeps exists_keeps preserves_ignore preserves_attempt preserves_throw preserves_ret
  preserves_when : swap.

(** ** The domains of an app *)

Definition app_hosts (d : Db) (appID : string) : list string :=
  d_name <$> by_created (List.filter (of_app appID) (domains d)).

Lemma split_primary_elem l p0 al0 p al h :
  (∀ d, d ∈ l → d_name d ≠ "") → split_primary l p0 al0 = (p, al) →
  (h ∈ al ∨ h = p ∧ p ≠ "") ↔ (h ∈ al0 ∨ h = p0 ∧ p0 ≠ "" ∨ h ∈ d_name <$> l).
Proof.
  revert p0 al0. induction l as [|d l IH]; intros p0 al0 Hn E; simpl in E.
  - simplify_eq. rewrite fmap_nil, elem_of_nil. tauto.
  - assert (Hd : d_name d ≠ "") by (apply Hn; left).
    assert (Hl : ∀ x, x ∈ l → d_name x ≠ "") by (intros; apply Hn; by right).
    rewrite fmap_cons, elem_of_cons. destruct (d_is_primary d && (p0 =s "")) eqn:Ep.
    + bool_simp. subst p0. rewrite (IH _ _ Hl E). naive_solver.
    + rewrite (IH _ _ Hl E), elem_of_app, list_elem_of_singleton. tauto.
Qed.

Section AppDomains.
Context {D C : Type} `{DD : DockerDaemon D} `{CC : CaddyClient C}.

Lemma appDomains_wp id (Q : World D C → DeployErr + (string * list string * gmap string bool) → Prop) w :
  (∀ h, h ∈ app_hosts (w_db w) id → h ≠ "") →
  (∀ e, Q w (inl e)) →
  (∀ p al force, (app_hosts (w_db w) id = [] → p = "") →
     (app_hosts (w_db w) id ≠ [] → p ≠ "" ∧ ∀ h, h ∈ p :: al ↔ h ∈ app_hosts (w_db w) id) →
     Q w (inr (p, al, force))) →
  wp (appDomains id) Q w.
Proof.
  intros Hne He HQ. apply wp_bind, wp_zoom.
  assert (Hput : put_domains (domains_state w) w = w) by by destruct w.
  apply wp_query; rewrite ?Hput; [apply He|]. cbv zeta. simpl.
  set (l := by_created _). assert (Hl : ∀ d, d ∈ l → d_name d ≠ "").
  { intros d Hd. apply Hne. unfold app_hosts. fold l. by apply list_elem_of_fmap_2. }
  assert (Hh : app_hosts (w_db w) id = d_name <$> l) by done. rewrite Hh in HQ.
  destruct (split_primary l "" []) as [p al] eqn:E.
  pose proof (λ h, split_primary_elem l "" [] p al h Hl E) as Hs.
  assert (Hs' : ∀ h, (h ∈ al ∨ h = p ∧ p ≠ "") ↔ h ∈ d_name <$> l).
  { intros h. rewrite Hs, elem_of_nil. naive_solver. }
  clear Hs. destruct (p =s "") eqn:Ep; bool_simp.
  - subst p. destruct al as [|x al].
    + apply wp_ret, HQ; [done|]. intros Hnn. exfalso. destruct (d_name <$> l) as [|y t] eqn:El; [done|].
      destruct (proj2 (Hs' y)) as [?%not_elem_of_nil|[_ ?]]; [left|done|done].
    + apply wp_ret, HQ.
      * intros E0. exfalso. apply (not_elem_of_nil (A := string) x). rewrite <- E0. apply Hs'. left. left.
      * intros _. split.
        -- apply Hne. rewrite Hh. apply Hs'. left. left.
        -- intros h. rewrite <- Hs'. naive_solver.
  - apply wp_ret, HQ.
    + intros E0. exfalso. apply (not_elem_of_nil (A := string) p). rewrite <- E0. apply Hs'. by right.
    + intros _. split; [done|]. intros h. rewrite <- Hs', elem_of_cons. naive_solver.
Qed.
End AppDomains.

(** ** The phases of a swap *)

Section Phases.
Context {D C : Type} `{DD : DockerDaemon D} `{DL : !DockerLaws D} `{CC : CaddyClient C} `{RL : !RouteLaws C}.
Context `{Fl : Floats} `{Nt : Nat} `{Uc : Unicode}.
Local Abbreviation World := (World D C).
Implicit Types (w : World) (c : C) (l : list Container).
Variables (hosts : list string) (temp canonical image : string).

(** A host served by a container that is not the candidate... *)
Definition old_host (h : string) c l : Prop := ∃ r x,
  route_of c h = Some r ∧ x ∈ l ∧ answers x (rt_upstream r) = true ∧ c_name x ≠ temp.
Definition to_upstream (us : list string) (h : string) c : Prop := ∃ r, route_of c h = Some r ∧ rt_upstream r ∈ us.

(** ... the running candidate, and the container it becomes. *)
Definition aliased (x : Container) : bool := List.existsb (λ a, a =s temp) (cf_Aliases (c_config x)).
Definition candidate_up l : Prop := ∃ x,
  x ∈ l ∧ c_name x = temp ∧ answers x temp = true ∧ aliased x = true ∧ cf_Image (c_config x) = image.
Definition promoted_up l : Prop := ∃ x, x ∈ l ∧ c_name x = canonical ∧ answers x temp = true ∧
  answers x canonical = true ∧ cf_Image (c_config x) = image.

Definition PhaseOld c l : Prop := steady c ∧ ∀ h, h ∈ hosts → old_host h c l.
Definition PhaseBoth c l : Prop :=
  steady c ∧ candidate_up l ∧ ∀ h, h ∈ hosts → old_host h c l ∨ to_upstream [temp] h c.
Definition PhaseNew c l : Prop := steady c ∧ candidate_up l ∧ ∀ h, h ∈ hosts → to_upstream [temp] h c.
Definition PhaseDone c l : Prop := steady c ∧ promoted_up l ∧ ∀ h, h ∈ hosts → to_upstream [temp; canonical] h c.

Lemma old_host_serving h c l : old_host h c l → ∃ r, route_of c h = Some r ∧ served l (rt_upstream r) = true.
Proof. intros (r & x & Hr & Hx & Ha & _). exists r. split; [done|]. by eapply served_elem. Qed.

Lemma candidate_serving h c l : candidate_up l → to_upstream [temp] h c →
  ∃ r, route_of c h = Some r ∧ served l (rt_upstream r) = true.
Proof.
  intros (x & Hx & _ & Ha & _) (r & Hr & Hu). apply list_elem_of_singleton in Hu.
  exists r. split; [done|]. rewrite Hu. by eapply served_elem.
Qed.

Lemma old_serving : implies_serving hosts PhaseOld.
Proof. intros c l [_ Hs] h Hh. by apply old_host_serving, Hs. Qed.

Lemma both_serving : implies_serving hosts PhaseBoth.
Proof. intros c l (_ & Hc & Hs) h Hh. destruct (Hs h Hh); [by apply old_host_serving|by apply candidate_serving]. Qed.

Lemma new_serving : implies_serving hosts PhaseNew.
Proof. intros c l (_ & Hc & Hs) h Hh. by apply candidate_serving, Hs. Qed.

Lemma done_serving : implies_serving hosts PhaseDone.
Proof.
  intros c l (_ & (x & Hx & _ & Ht & Hc & _) & Hs) h Hh. destruct (Hs h Hh) as (r & Hr & Hu). exists r. split; [done|].
  apply elem_of_cons in Hu as [->|Hu]; [by eapply served_elem|].
  apply list_elem_of_singleton in Hu. rewrite Hu. by eapply served_elem.
Qed.

(** Stopping or removing the containers of one name leaves the others. *)
Lemma other_upd n f x l : x ∈ l → c_name x ≠ n → x ∈ upd (finds (ByName n)) f l.
Proof. intros Hx Hn. apply elem_of_upd. exists x. split; [done|]. simpl. by apply String.eqb_neq in Hn as ->. Qed.

Lemma other_del n x l : x ∈ l → c_name x ≠ n → x ∈ del (finds (ByName n)) l.
Proof. intros Hx Hn. apply elem_of_del. split; [done|]. simpl. by apply String.eqb_neq. Qed.

Lemma old_stop c l : PhaseOld c l → PhaseOld c (upd (finds (ByName temp)) (set_running false) l).
Proof. intros [? Hs]. split; [done|]. intros h Hh. destruct (Hs h Hh) as (r & x & ? & ? & ? & ?). exists r, x. split_and!; auto using other_upd. Qed.

Lemma old_remove c l : PhaseOld c l → PhaseOld c (del (finds (ByName temp)) l).
Proof. intros [? Hs]. split; [done|]. intros h Hh. destruct (Hs h Hh) as (r & x & ? & ? & ? & ?). exists r, x. split_and!; auto using other_del. Qed.

Lemma old_add c l x : PhaseOld c l → PhaseOld c (l ++ [x]).
Proof.
  intros [? Hs]. split; [done|]. intros h Hh. destruct (Hs h Hh) as (r & y & ? & ? & ? & ?). exists r, y. split_and!; auto. apply elem_of_app; auto.
Qed.

Lemma new_stop n c l : n ≠ temp → PhaseNew c l → PhaseNew c (upd (finds (ByName n)) (set_running false) l).
Proof.
  intros Hn (? & (x & Hx & Hname & ?) & Hs). split_and!; [done| |done]. exists x. split_and!; try tauto. apply other_upd; congruence.
Qed.

Lemma new_remove n c l : n ≠ temp → PhaseNew c l → PhaseNew c (del (finds (ByName n)) l).
Proof.
  intros Hn (? & (x & Hx & Hname & ?) & Hs). split_and!; [done| |done]. exists x. split_and!; try tauto. apply other_del; congruence.
Qed.

Lemma next_steady h u p f c c' r : steady c → UpsertRoute h u p f c = (c', r) → steady c'.
Proof. intros Hst E. pose proof (upsert_steady h u p f c Hst) as H. by rewrite E in H. Qed.

(** One route at a time. *)
Lemma upsert_host us h u p f c c' r h' : steady c → u ∈ us → (h' ≠ h → apart h' h) → UpsertRoute h u p f c = (c', r) →
  (to_upstream us h' c → to_upstream us h' c') ∧ (h' = h → r = COk → to_upstream us h' c').
Proof.
  intros Hst Hu Hap E. destruct (decide (h' = h)) as [->|Hne].
  - destruct (decide (r = COk)) as [->|Hr].
    + pose proof (upsert_ok _ _ _ _ _ _ Hst E) as Ho. split; intros; eexists; split; [exact Ho|done|exact Ho|done].
    + split; [|done]. intros (r0 & Hr0 & Hin). destruct (upsert_failed _ _ _ _ _ _ _ Hst E Hr) as [Ho|[f' Ho]].
      * exists r0. by rewrite Ho.
      * eexists. by split; [exact Ho|].
  - pose proof (upsert_other h u p f c h' Hst (Hap Hne)) as Ho. rewrite E in Ho. simpl in Ho.
    unfold to_upstream. by rewrite Ho.
Qed.

Lemma both_upsert h p f c l c' r :
  usable hosts → h ∈ hosts → PhaseBoth c l → UpsertRoute h temp p f c = (c', r) → PhaseBoth c' l.
Proof.
  intros [_ Hap] Hh (Hst & Hc & Hs) E. split; [by apply (next_steady _ _ _ _ _ _ _ Hst E)|]. split; [done|]. intros h' Hh'.
  destruct (decide (h' = h)) as [->|Hne].
  - destruct (decide (r = COk)) as [->|Hr].
    + right. assert (Hin : temp ∈ [temp]) by left.
      destruct (upsert_host _ _ _ _ _ _ _ _ h Hst Hin ltac:(done) E) as [_ G]. by apply G.
    + destruct (upsert_failed _ _ _ _ _ _ _ Hst E Hr) as [Ho|[f' Ho]].
      * unfold old_host, to_upstream. rewrite Ho. by apply Hs.
      * right. eexists. split; [exact Ho|left].
  - pose proof (upsert_other h temp p f c h' Hst (Hap h' h Hh' Hh Hne)) as Ho. rewrite E in Ho. simpl in Ho.
    unfold old_host, to_upstream. rewrite Ho. by apply Hs.
Qed.

Lemma done_upsert h p f c l c' r :
  usable hosts → h ∈ hosts → PhaseDone c l → UpsertRoute h canonical p f c = (c', r) → PhaseDone c' l.
Proof.
  intros [_ Hap] Hh (Hst & Hc & Hs) E. split; [by apply (next_steady _ _ _ _ _ _ _ Hst E)|]. split; [done|]. intros h' Hh'.
  assert (Hin : canonical ∈ [temp; canonical]) by (right; left).
  destruct (upsert_host _ _ _ _ _ _ _ _ h' Hst Hin (Hap h' h Hh' Hh) E) as [G _]. by apply G, Hs.
Qed.

(** The rename makes the candidate the canonical container; both names, the
    alias of its creation and the new one, reach it. *)
Lemma rename_done c l :
  PhaseNew c l → PhaseDone c (upd (finds (ByName temp)) (set_name canonical) l).
Proof.
  intros (Hst & (x & Hx & Hn & Ha & Hal & Hi) & Hs). unfold aliased in Hal. split; [done|]. split.
  - exists (set_name canonical x). split_and!; [|done| | |done].
    + apply elem_of_upd. exists x. split; [done|]. simpl. by rewrite Hn, String.eqb_refl.
    + unfold answers in *. simpl. apply andb_true_iff in Ha as [-> _]. rewrite Hal. by rewrite orb_true_r.
    + unfold answers in *. simpl. apply andb_true_iff in Ha as [-> _]. by rewrite String.eqb_refl.
  - intros h Hh. destruct (Hs h Hh) as (r & Hr & Hu). exists r. split; [done|].
    apply list_elem_of_singleton in Hu. rewrite Hu. left.
Qed.
End Phases.

(** ** The swap as a whole *)

Lemma legacy_from_elem seen names n : n ∈ legacy_from seen names → n ∈ names.
Proof.
  revert seen. induction names as [|x names IH]; intros seen Hin; simpl in Hin; [done|].
  destruct (x =s ""); [right; by eapply IH|]. destruct (bool_decide _); [right; by eapply IH|].
  apply elem_of_cons in Hin as [->|Hin]; [left|right; by eapply IH].
Qed.

Lemma temp_not_canonical hex image a : tempName_of hex image a ≠ containerName_of a.
Proof.
  intros E. apply (f_equal String.length) in E. unfold tempName_of in E.
  rewrite !string_app_length in E. simpl in E. lia.
Qed.

Section SwapProof.
Context {D C : Type} `{DD : DockerDaemon D} `{DL : !DockerLaws D} `{CC : CaddyClient C} `{RL : !RouteLaws C}.
Context `{Fl : Floats} `{Nt : Nat} `{Uc : Unicode}.
Local Abbreviation World := (World D C).

(** Only the domains table matters for the hosts of an app. *)
Definition has_domains (t : list Domain) (w : World) : Prop := domains (w_db w) = t.

Lemma docker_domains {A} t (m : dockM A) : preserves (has_domains t) (docker m).
Proof. intros w Hw fs. unfold docker. by destruct (m (w_docker w, []) fs) as [[s fs'] r]. Qed.

Lemma updateFields_domains t id f : preserves (has_domains t) (updateFields id f).
Proof.
  apply preserves_bind; [intros w Hw; by apply wp_fallible|].
  intros n. destruct (n =? 0)%nat; [apply preserves_throw|apply preserves_ret].
Qed.

Lemma SetStatus_domains t id st : preserves (has_domains t) (SetStatus id st).
Proof.
  apply preserves_bind; [apply preserves_query|]. intros [cur|]; [|apply preserves_throw].
  destruct (_ && _); [apply preserves_ret|]. by apply preserves_exec.
Qed.

Lemma pre_hook_domains t a n : preserves (has_domains t) (preDeployHook a n).
Proof.
  unfold preDeployHook. destruct (given _); [|apply preserves_ret].
  apply preserves_bind; [apply docker_domains|]. intros r.
  destruct (match r with inr b => b | inl _ => false end); [|apply preserves_ret].
  apply preserves_bind; [apply docker_domains|]. intros [?|?]; [apply preserves_throw|apply preserves_ret].
Qed.

Lemma env_domains t e v a : preserves (has_domains t) (runtime_env e v a).
Proof.
  unfold runtime_env. destruct (en_Secrets e); [|apply preserves_ret].
  destruct (ev_secrets v _); [apply preserves_ret|apply preserves_throw].
Qed.

(** The first part of a swap: up to the domains of the app. *)
Lemma swap_prefix hosts (J : C → list Container → Prop) e v a imageRef dep (Q : World → DeployErr + unit → Prop) w :
  implies_serving hosts J → Keeps hosts J w →
  (∀ h, h ∈ app_hosts (w_db w) (a_id a) → h ≠ "") →
  (∀ w' err, Keeps hosts J w' → Q w' (inl err)) →
  (∀ w' env p al force, Keeps hosts J w' →
     (app_hosts (w_db w) (a_id a) = [] → p = "") →
     (app_hosts (w_db w) (a_id a) ≠ [] → p ≠ "" ∧ ∀ h, h ∈ p :: al ↔ h ∈ app_hosts (w_db w) (a_id a)) →
     wp (let hasDomain := negb (p =s "") in
         let containerName := containerName_of a in
         let tempName := tempName_of (ev_hex v) imageRef a in
         bindings ← port_bindings v a hasDomain;
         _ ← when (negb hasDomain) (each stop_and_remove (legacyDedupe [containerName; legacyName_of a]));
         _ ← docker (RemoveContainer tempName);
         mounts ← load_mounts e a;
         r ← docker (RunContainer (candidate_opts a dep imageRef tempName env bindings mounts));
         match r with
         | inl err => throw (ErrDeployDocker "run container" err)
         | inr _ => promote e v a imageRef tempName (p :: al) force hasDomain
         end) Q w') →
  wp (swap e v a imageRef dep) Q w.
Proof.
  intros HJ Hw Hne He HQ. unfold swap.
  pose (I := λ w' : World, Keeps hosts J w' ∧ has_domains (domains (w_db w)) w').
  assert (HI : I w) by done.
  apply (wp_keep I); [|done|intros ?? []; by apply He|].
  { apply preserves_and; [by apply preserves_ignore, updateFields_keeps|apply preserves_ignore, updateFields_domains]. }
  intros w1 _ HI1. apply (wp_keep I); [|done|intros ?? []; by apply He|].
  { apply preserves_and; [by apply preserves_ignore, SetStatus_keeps|apply preserves_ignore, SetStatus_domains]. }
  intros w2 _ HI2. apply (wp_keep I); [|done|intros ?? []; by apply He|].
  { apply preserves_and; [by apply publish_keeps|by apply preserves_modify]. }
  intros w3 _ HI3. cbv zeta. apply (wp_keep I); [|done|intros ?? []; by apply He|].
  { apply preserves_and; [by apply pre_hook_keeps|apply pre_hook_domains]. }
  intros w4 _ HI4. apply (wp_keep I); [|done|intros ?? []; by apply He|].
  { apply preserves_and; [by apply env_keeps|apply env_domains]. }
  intros w5 env [Hk Hd]. apply wp_bind.
  assert (Hh : app_hosts (w_db w5) (a_id a) = app_hosts (w_db w) (a_id a)) by (unfold app_hosts; by rewrite Hd).
  apply appDomains_wp; rewrite ?Hh; [done|intros; by apply He|].
  intros p al force H1 H2. by apply HQ.
Qed.

Lemma alive_candidate l id opts cfg temp :
  config_of opts = inr cfg → o_Name opts = temp →
  candidate_up temp (o_Image opts) (l ++ [mkContainer id (o_Name opts) cfg true]).
Proof.
  intros Ec <-. exists (mkContainer id (o_Name opts) cfg true).
  assert (cf_Aliases cfg = o_Name opts :: o_Aliases opts ∧ cf_Image cfg = o_Image opts) as [Ea Ei].
  { unfold config_of in Ec. cbv zeta in Ec. unfold mbind, sum_bind in Ec. repeat case_match; by simplify_eq/=. }
  split_and!; [apply elem_of_app; right; left|done| | |done].
  - unfold answers. simpl. by rewrite String.eqb_refl.
  - unfold aliased. simpl. by rewrite Ea; simpl; rewrite String.eqb_refl.
Qed.

Lemma route_all_wp hosts temp image force port hs (Q : World → DeployErr + unit → Prop) w :
  usable hosts → (∀ h, h ∈ hs → h ∈ hosts) → Keeps hosts (PhaseBoth hosts temp image) w →
  (∀ w' e, Keeps hosts (PhaseBoth hosts temp image) w' → Q w' (inl e)) →
  (∀ w', Keeps hosts (PhaseBoth hosts temp image) w' →
     (∀ h, h ∈ hosts → h ∈ hs ∨ to_upstream [temp] h (w_caddy w) → to_upstream [temp] h (w_caddy w')) → Q w' (inr tt)) →
  wp (route_all force temp port hs) Q w.
Proof.
  intros Hus Hsub Hw He HQ. revert w Hw HQ. induction hs as [|h hs IH]; intros w Hw HQ; simpl.
  { apply wp_ret, HQ; [done|]. intros h _ [?%not_elem_of_nil|?]; done. }
  assert (Hh : h ∈ hosts) by (apply Hsub; left). pose proof (proj1 (proj2 Hw)) as Hst.
  apply wp_bind. intros fs. unfold proxy. destruct (UpsertRoute _ _ _ _ _) as [c' r] eqn:E. simpl.
  set (w' := mkWorld _ _ _ _ _).
  assert (Hw' : Keeps hosts (PhaseBoth hosts temp image) w').
  { destruct Hw as [Hl Hb]. pose proof (both_upsert _ _ _ _ _ _ _ _ _ _ Hus Hh Hb E) as Hb'. split; [|done].
    apply Forall_app. split; [done|]. constructor; [|done]. by eapply both_serving. }
  assert (Hin : temp ∈ [temp]) by left.
  destruct r; [apply IH; [by intros; apply Hsub; right|done|]|by apply wp_throw, He|by apply wp_throw, He].
  intros w2 Hw2 Hr. apply HQ; [done|]. intros h' Hin' Hh'. apply Hr; [done|].
  destruct (upsert_host _ _ _ _ _ _ _ _ h' Hst Hin (proj2 Hus h' h Hin' Hh) E) as [G1 G2].
  destruct Hh' as [[->|?]%elem_of_cons|Hh']; [right; by apply G2|by left|right; by apply G1].
Qed.

(** From the health check on, for an app with domains. *)
Lemma promote_wp e v a imageRef temp hosts p al force w :
  usable hosts → temp ≠ containerName_of a → temp ≠ legacyName_of a → en_Caddy e = true →
  (∀ h, h ∈ p :: al ↔ h ∈ hosts) →
  Keeps hosts (λ c l, PhaseOld hosts temp c l ∧ candidate_up temp imageRef l) w →
  wp (promote e v a imageRef temp (p :: al) force true)
     (λ w' r, match r with
              | inl _ => Keeps hosts (Serving hosts) w'
              | inr _ => Keeps hosts (PhaseDone hosts temp (containerName_of a) imageRef) w'
              end) w.
Proof.
  intros Hus Hnc Hnl Hcad Hhs Hw. unfold promote. cbv zeta. rewrite Hcad. simpl (true && true).
  destruct (negb (healthCheck _ _ _ _ _)).
  { assert (Hold : implies_serving hosts (PhaseOld hosts temp)) by apply old_serving.
    apply (wp_keep (Keeps hosts (PhaseOld hosts temp))); [apply stop_keeps; [done|apply old_stop]|split; apply Hw| |].
    { intros w' err [Hl Hj]. split; [done|by apply Hold]. }
    intros w1 _ Hw1. apply (wp_keep (Keeps hosts (PhaseOld hosts temp))); [apply remove_keeps; [done|apply old_remove]|done| |].
    { intros w' err [Hl Hj]. split; [done|by apply Hold]. }
    intros w2 _ Hw2. apply (wp_keep (Keeps hosts (PhaseOld hosts temp))); [by apply remove_image_keeps|done| |].
    { intros w' err [Hl Hj]. split; [done|by apply Hold]. }
    intros w3 _ [Hl Hj]. apply wp_throw. split; [done|by apply Hold]. }
  pose proof (both_serving hosts temp imageRef) as Hboth. pose proof (new_serving hosts temp imageRef) as Hnew.
  pose proof (done_serving hosts temp (containerName_of a) imageRef) as Hdone.
  apply wp_bind, (route_all_wp hosts temp imageRef); [done|by intros h ?%Hhs|..].
  { destruct Hw as [Hl [[Hst Ho] Hc]]. split; [done|]. split_and!; [done|done|]. intros h Hh. left. by apply Ho. }
  { intros w' err [Hl Hj]. split; [done|by apply Hboth]. }
  intros w1 [Hl1 (Hst1 & Hc1 & _)] Hr1.
  assert (Hw1 : Keeps hosts (PhaseNew hosts temp imageRef) w1).
  { split; [done|]. split_and!; [done|done|]. intros h Hh. apply Hr1; [done|]. left. by apply Hhs. }
  assert (Herr : ∀ w' err, Keeps hosts (PhaseNew hosts temp imageRef) w' →
    match (inl err : DeployErr + unit) with inl _ => Keeps hosts (Serving hosts) w'
    | inr _ => Keeps hosts (PhaseDone hosts temp (containerName_of a) imageRef) w' end).
  { intros w' err [Hl Hj]. split; [done|by apply Hnew]. }
  apply (wp_keep (Keeps hosts (PhaseNew hosts temp imageRef))); [|done|done|].
  { set (names := legacyDedupe _).
    assert (Hn : ∀ n, n ∈ names → n ≠ temp).
    { intros n Hn%legacy_from_elem. apply elem_of_cons in Hn as [->|Hn%list_elem_of_singleton]; congruence. }
    clearbody names. induction names as [|n names IH]; [apply preserves_ret|].
    apply preserves_bind; [|intros _; apply IH; intros; apply Hn; by right].
    assert (n ≠ temp) by (apply Hn; left).
    apply stop_and_remove_keeps; [done|intros; by apply new_stop|intros; by apply new_remove]. }
  intros w2 _ [Hl2 Hj2]. apply wp_bind. apply (docker_wp hosts (Serving hosts)); [by intros ??|split; [done|by apply Hnew]|].
  pose proof (rename_done hosts temp (containerName_of a) imageRef _ _ Hj2) as Hren.
  apply (rename_wp _ _ (Serving hosts (w_caddy w2))); [constructor|by apply Hnew|intros _ _; by apply Hdone| |].
  { intros s err Ha Hps. split; [done|]. intros w' _ Hc Hl Hd. apply wp_throw. split; [done|].
    rewrite Hc, Hd, Hps. by apply Hnew. }
  intros s Ha _ _ Hps. split; [done|]. intros w' _ Hc Hl Hd.
  assert (Hw' : Keeps hosts (PhaseDone hosts temp (containerName_of a) imageRef) w').
  { split; [done|]. by rewrite Hc, Hd, Hps. }
  apply (wp_keep (Keeps hosts (PhaseDone hosts temp (containerName_of a) imageRef))); [|done| |].
  { apply reroute_keeps; [done|]. intros c l h pt f c' r Hin Hj E. eapply done_upsert; [done|by apply Hhs|done..]. }
  { intros w3 err [? ?]. split; [done|by apply Hdone]. }
  intros w3 _ Hw3. eapply wp_mono; [by apply (post_hook_keeps hosts (PhaseDone hosts temp (containerName_of a) imageRef))|].
  intros w4 [err|[]] [? ?]; split; try done. by apply Hdone.
Qed.

(** What a swap guarantees of the hosts of an app, under every fault. *)
Definition swap_post (hosts : list string) temp canonical image (w' : World) (r : DeployErr + unit) : Prop :=
  LogOk hosts w' ∧ Serving hosts (w_caddy w') (ps (w_docker w')) ∧
  (r = inr tt → hosts ≠ [] → PhaseDone hosts temp canonical image (w_caddy w') (ps (w_docker w'))).

Lemma swap_wp e v a imageRef dep (w : World) :
  let hosts := app_hosts (w_db w) (a_id a) in
  let temp := tempName_of (ev_hex v) imageRef a in
  en_Caddy e = true → temp ≠ legacyName_of a → usable hosts → Keeps hosts (PhaseOld hosts temp) w →
  wp (swap e v a imageRef dep) (swap_post hosts temp (containerName_of a) imageRef) w.
Proof.
  intros hosts temp Hcad Htl Hne Hw. set (Q := swap_post _ _ _ _).
  destruct (decide (hosts = [])) as [Hnil|Hnn].
  { intros f. unfold Q. rewrite Hnil. split_and!; [apply log_nil|by intros h ?%not_elem_of_nil|done]. }
  assert (HJ : implies_serving hosts (PhaseOld hosts temp)) by apply old_serving.
  assert (Herr : ∀ w' err, Keeps hosts (PhaseOld hosts temp) w' → Q w' (inl err)).
  { intros w' err [? ?]. split_and!; [done|by apply HJ|done]. }
  apply (swap_prefix hosts (PhaseOld hosts temp)); [done|done|intros h Hh ->; by apply (proj1 Hne)|done|].
  fold hosts temp. intros w1 env p al force Hw1 _ Hpal. destruct (Hpal Hnn) as [Hp Hmem]. clear Hpal.
  apply String.eqb_neq in Hp. rewrite Hp. cbv zeta. simpl negb.
  apply (wp_keep (Keeps hosts (PhaseOld hosts temp))); [by apply bindings_keeps|done|auto|]. intros w2 bs Hw2.
  apply (wp_keep (Keeps hosts (PhaseOld hosts temp))); [apply preserves_ret|done|auto|]. intros w3 _ Hw3.
  apply (wp_keep (Keeps hosts (PhaseOld hosts temp))); [apply remove_keeps; [done|apply old_remove]|done|auto|]. intros w4 _ Hw4.
  apply (wp_keep (Keeps hosts (PhaseOld hosts temp))); [by apply mounts_keeps|done|auto|]. intros w5 ms [Hl5 Hj5].
  apply wp_bind, (docker_wp hosts (PhaseOld hosts temp)); [done|done|].
  apply (run_wp _ (PhaseOld hosts temp (w_caddy w5))); [constructor|done|intros; by apply old_add| |].
  { intros s err Ha Hps. split; [done|]. intros w' _ Hc Hl Hd. apply wp_throw, Herr. split; [done|].
    rewrite Hc, Hd. destruct Hps as [-> |(x & -> & _)]; [done|by apply old_add]. }
  intros s id cfg Ha Hcfg _ _ Hps. split; [done|]. intros w' _ Hc Hl Hd.
  eapply wp_mono; [apply promote_wp; [exact Hne|apply temp_not_canonical|done|done|exact Hmem|]|].
  - split; [done|]. rewrite Hc, Hd, Hps. split; [by apply old_add|].
    by apply (alive_candidate _ _ (candidate_opts a dep imageRef temp env bs ms)).
  - intros w6 [err|[]] [? Hj]; split_and!; try done. by apply done_serving in Hj.
Qed.

(** ** A candidate that fails *)

(** The containers that bear none of the given names. *)
Definition others (names : list string) (l : list Container) : list Container :=
  List.filter (λ x, negb (bool_decide (c_name x ∈ names))) l.

Lemma others_upd names n f l : n ∈ names → others names (upd (finds (ByName n)) (set_running f) l) = others names l.
Proof.
  intros Hn. unfold others. induction l as [|x l IH]; [done|]. simpl. rewrite IH.
  destruct (c_name x =s n) eqn:E; simpl; [|done]. bool_simp. rewrite E.
  by rewrite (bool_decide_eq_true_2 _ Hn).
Qed.

Lemma others_del names n l : n ∈ names → others names (del (finds (ByName n)) l) = others names l.
Proof.
  intros Hn. unfold others, del, finds. induction l as [|x l IH]; [done|]. simpl.
  destruct (c_name x =s n) eqn:E; simpl; [|by rewrite IH]. bool_simp. rewrite IH, E.
  by rewrite (bool_decide_eq_true_2 _ Hn).
Qed.

Lemma others_add names l x : c_name x ∈ names → others names (l ++ [x]) = others names l.
Proof.
  intros Hx. unfold others. rewrite List.filter_app. simpl. rewrite (bool_decide_eq_true_2 _ Hx). simpl.
  by rewrite app_nil_r.
Qed.

(** Routes and containers other than those of the given names, unchanged. *)
Definition Untouched (names : list string) (c0 : C) (l0 : list Container) (c : C) (l : list Container) : Prop :=
  c = c0 ∧ others names l = others names l0.

Section Untouched.
Variables (names : list string) (c0 : C) (l0 : list Container).
Local Abbreviation J := (Untouched names c0 l0).

Lemma untouched_serving : implies_serving [] J.
Proof. by intros c l _ h ?%not_elem_of_nil. Qed.

Lemma untouched_remove n : n ∈ names → preserves (Keeps [] J) (docker (D := D) (RemoveContainer n)).
Proof. intros Hn. apply remove_keeps; [apply untouched_serving|]. intros c l [? ?]. split; [done|]. by rewrite others_del. Qed.

Lemma untouched_stop n : n ∈ names → preserves (Keeps [] J) (docker (D := D) (StopContainer n)).
Proof. intros Hn. apply stop_keeps; [apply untouched_serving|]. intros c l [? ?]. split; [done|]. by rewrite others_upd. Qed.

Lemma untouched_stop_and_remove n : n ∈ names → preserves (Keeps [] J) (stop_and_remove (D := D) n).
Proof.
  intros Hn. apply preserves_bind; [by apply untouched_stop|]. intros _.
  apply preserves_bind; [by apply untouched_remove|]. intros _. apply preserves_ret.
Qed.

Lemma untouched_run opts : o_Name opts ∈ names → preserves (Keeps [] J) (docker (D := D) (RunContainer opts)).
Proof.
  intros Hn. apply docker_keeps; [apply untouched_serving|]. intros c d Hj.
  assert (Hadd : ∀ x, c_name x = o_Name opts → J c (ps d ++ [x])).
  { intros x Hx. destruct Hj as [-> Ho]. split; [done|]. rewrite others_add; [done|by rewrite Hx]. }
  apply (run_wp _ (J c)); [constructor|done|done| |].
  - intros s err Ha [-> |(x & -> & Hx & _)]; split; auto.
  - intros s id cfg Ha _ _ _ ->. split; [done|]. by apply Hadd.
Qed.
End Untouched.

(** The containers a swap may take down before its candidate is healthy: the
    candidate's own name, and for an app without a domain, which publishes host
    ports two containers cannot share, the names of the one that is running. *)
Definition given_up (hosts : list string) temp a : list string :=
  if bool_decide (hosts = []) then [temp; containerName_of a; legacyName_of a] else [temp].

(** The tail of a swap whose candidate is not healthy. *)
Lemma unhealthy_promote names c0 l0 e v a imageRef temp hosts force hasDomain (w : World) :
  temp ∈ names → healthCheck (ev_now v) (ev_probes v) a temp (containerPort_of a) = false →
  Keeps [] (Untouched names c0 l0) w →
  wp (promote e v a imageRef temp hosts force hasDomain)
     (λ w' r, (∃ err, r = inl err) ∧ Untouched names c0 l0 (w_caddy w') (ps (w_docker w'))) w.
Proof.
  intros Ht Hh Hw. unfold promote. cbv zeta. rewrite Hh. simpl negb. cbv iota.
  assert (Herr : ∀ w' (err : DeployErr), Keeps [] (Untouched names c0 l0) w' →
    (∃ err', (inl err : DeployErr + unit) = inl err') ∧ Untouched names c0 l0 (w_caddy w') (ps (w_docker w'))).
  { intros w' err [_ ?]. split; [by exists err|done]. }
  apply (wp_keep (Keeps [] (Untouched names c0 l0))); [by apply untouched_stop|done|auto|]. intros w7 _ Hw7.
  apply (wp_keep (Keeps [] (Untouched names c0 l0))); [by apply untouched_remove|done|auto|]. intros w8 _ Hw8.
  apply (wp_keep (Keeps [] (Untouched names c0 l0))); [by apply remove_image_keeps, untouched_serving|done|auto|]. intros w9 _ Hw9.
  apply wp_throw. auto.
Qed.

Lemma untouched_each names c0 l0 (l : list string) : (∀ n, n ∈ l → n ∈ names) →
  preserves (Keeps [] (Untouched names c0 l0)) (each (stop_and_remove (D := D)) l).
Proof.
  induction l as [|n l IH]; intros Hl; [apply preserves_ret|].
  apply preserves_bind; [apply untouched_stop_and_remove, Hl; left|]. intros _. apply IH. intros; apply Hl; by right.
Qed.

(** C8: When the candidate does not become healthy the swap fails and, whatever
    else fails on the way, no route has changed and no container but those the
    swap gives up.  For an app with a domain that is the candidate itself: the
    running container stays as it is.  For an app without one the running
    container is stopped and removed before the candidate is started
    (engine.go:645: a host port can be bound once), and only the containers of the app's own three names
    are touched. *)
Theorem failed_candidate_harmless e v a imageRef dep (w : World) fs :
  let hosts := app_hosts (w_db w) (a_id a) in
  let temp := tempName_of (ev_hex v) imageRef a in
  "" ∉ hosts →
  healthCheck (ev_now v) (ev_probes v) a temp (containerPort_of a) = false →
  let w' := (swap e v a imageRef dep w fs).1.1 in
  let own := given_up hosts temp a in
  (∃ err, (swap e v a imageRef dep w fs).2 = inl err) ∧
  w_caddy w' = w_caddy w ∧ others own (ps (w_docker w')) = others own (ps (w_docker w)).
Proof.
  intros hosts temp Hne Hh w' own. subst w'. revert fs.
  pose (J := Untouched own (w_caddy w) (ps (w_docker w))).
  pose (Q := λ (w' : World) (r : DeployErr + unit), (∃ err, r = inl err) ∧ J (w_caddy w') (ps (w_docker w'))).
  enough (HW : wp (swap e v a imageRef dep) Q w) by (intros fs; apply HW).
  assert (HJ : implies_serving [] J) by apply untouched_serving.
  assert (Hw : Keeps [] J w) by (split; [apply log_nil|done]).
  assert (Herr : ∀ w' err, Keeps [] J w' → Q w' (inl err)) by (intros w' err [_ ?]; split; eauto).
  assert (Ht : temp ∈ own) by (unfold own, given_up; case_bool_decide; left).
  apply (swap_prefix [] J); [done|done|intros h Hin ->; done|done|].
  fold hosts temp. intros w1 env p al force Hw1 Hnil Hpal. cbv zeta.
  apply (wp_keep (Keeps [] J)); [by apply bindings_keeps|done|auto|]. intros w2 bs Hw2.
  apply (wp_keep (Keeps [] J)); [|done|auto|].
  { destruct (String.eqb_spec p "") as [Hp|]; [|apply preserves_ret]. simpl. apply untouched_each.
    intros n Hn%legacy_from_elem. unfold own, given_up. case_bool_decide as E; [set_solver|by destruct (Hpal E)]. }
  intros w3 _ Hw3.
  apply (wp_keep (Keeps [] J)); [by apply untouched_remove|done|auto|]. intros w4 _ Hw4.
  apply (wp_keep (Keeps [] J)); [by apply mounts_keeps|done|auto|]. intros w5 ms Hw5.
  apply (wp_keep (Keeps [] J)); [by apply untouched_run|done|auto|].
  intros w6 [err|id] Hw6; [apply wp_throw; auto|]. by apply unhealthy_promote.
Qed.
End SwapProof.

(** ** Health checks *)

Lemma poll_spec deadline want probes :
  poll deadline want probes = true ↔
  ∃ i now, probes !! i = Some (now, Some want) ∧
    ∀ j t r, j ≤ i → probes !! j = Some (t, r) → (t <= deadline)%Z.
Proof.
  induction probes as [|[t r] probes IH]; simpl.
  { split; [done|]. by intros (i & now & ? & _). }
  destruct (deadline <? t)%Z eqn:Et; bool_simp.
  { split; [done|]. intros (i & now & _ & Hle). specialize (Hle 0 t r ltac:(lia) eq_refl). lia. }
  destruct (match r with Some code => (code =? want)%Z | None => false end) eqn:Er.
  - split; [|done]. intros _. destruct r as [code|]; [|done]. bool_simp. subst code. exists 0, t. split; [done|].
    intros j t' r' Hj E. replace j with 0 in E by lia. by simplify_eq/=.
  - rewrite IH. split.
    + intros (i & now & Hi & Hle). exists (S i), now. split; [done|]. intros [|j] t' r' Hj E; simplify_eq/=; [done|].
      apply (Hle j t' r'); [lia|done].
    + intros ([|i] & now & Hi & Hle); simplify_eq/=; [by rewrite Z.eqb_refl in Er|].
      exists i, now. split; [done|]. intros j t' r' Hj E. apply (Hle (S j) t' r'); [lia|done].
Qed.

(** The candidate counts as healthy exactly when a probe made before the
    deadline, with no earlier iteration past it, gets the expected status. *)
Theorem health_check_spec `{Uc : Unicode} start probes a name port :
  a_health_check_enabled a = true →
  let p := probe_of a name port in
  let deadline := (start + Z.max 0 (a_health_check_start_period a) + pr_timeout p)%Z in
  (healthCheck start probes a name port = true ↔
   ∃ i now, probes !! i = Some (now, Some (pr_want p)) ∧
     ∀ j t r, j ≤ i → probes !! j = Some (t, r) → (t <= deadline)%Z) ∧
  (0 < pr_timeout p)%Z ∧ pr_want p ≠ 0%Z ∧ pr_method p ≠ "".
Proof.
  intros He p deadline. unfold healthCheck. rewrite He. simpl negb. cbv iota zeta. fold p. fold deadline.
  split; [apply poll_spec|]. unfold p, probe_of. simpl. split_and!.
  - destruct (_ <=? _)%Z eqn:E; bool_simp; lia.
  - destruct (_ =? _)%Z eqn:E; bool_simp; lia.
  - destruct (_ =s _) eqn:E; by bool_simp.
Qed.
