(* ===== verification/Compose.v ===== *)
(** * Compose deployments (internal/deploy: engine_compose.go)

    The swap of an application made of several services: every service gets a
    candidate, the candidates replace the old containers one after the other,
    the domains bound to a service are routed to its container, and containers
    of services that left the specification are removed. *)

From S2P Require Import Prelude Effects GoStrings Schema Routing Docker Domains Swap.

(** build.ComposeServiceSummary, and the result of a build. *)
Record ComposeServiceSummary := mkComposeService {
  cs_Name : string; cs_Image : string; cs_Ports : list Z; cs_Env : gmap string string;
  cs_Command : list string; cs_Restart : string;
}.

Record BuildResult := mkBuildResult {
  br_ImageRef : string; br_CommitSHA : string; br_Compose : option (list ComposeServiceSummary);
}.

Record composeCandidate := mkComposeCandidate {
  cc_serviceName : string; cc_canonicalName : string; cc_tempName : string; cc_ports : list Z;
}.

Record composeDomainRow := mkComposeDomainRow { cd_host : string; cd_port : option Z }.

Definition composeCanonicalName (appName serviceName : string) : string := appName ^^ "-" ^^ serviceName.
Definition legacyComposeName (appName serviceName : string) : string :=
  "prexel-" ^^ appName ^^ "-" ^^ serviceName.
Definition shortDeployID (id : string) : string :=
  let id := ReplaceAll id "-" "" in if (7 <? len id)%Z then take_s 7 id else id.

Section Compose.
Context {D C : Type} `{DD : DockerDaemon D} `{CC : CaddyClient C} `{Fl : Floats} `{Nt : Nat} `{Uc : Unicode}.
Local Abbreviation wM := (wM (D := D) (C := C)).

(** The rows with a service, in the order of their creation. *)
Definition appDomainsByService (appID : string) : wM (list (string * composeDomainRow)) :=
  doms ← domains_list appID;
  mret (omap (λ d, match d_service d with
                   | Some s => if TrimSpace s =s "" then None else Some (s, mkComposeDomainRow (d_name d) (d_port d))
                   | None => None
                   end) doms).

(** Rows of [l] under the key [k]: [m[k]] of a map from names to lists. *)
Definition under {A} (k : string) (l : list (string * A)) : list A :=
  omap (λ p, if p.1 =s k then Some p.2 else None) l.

Fixpoint compose_mounts (a : App) (vols : list Volume) : wM (list (string * Mount)) :=
  match vols with
  | [] => mret []
  | v :: vols =>
    match v_service v with
    | None => compose_mounts a vols
    | Some svc =>
      if TrimSpace svc =s "" then compose_mounts a vols
      else if v_is_named v then
        let source := namedVolumeName (a_name a) (svc ^^ "-" ^^ v_mount_path v) in
        _ ← docker (EnsureVolume source (<["prexel.app_id" := a_id a]>
              (<["prexel.app_name" := a_name a]> {["prexel.service" := svc]})));
        ms ← compose_mounts a vols;
        mret ((svc, mkMount source (v_mount_path v) "volume" (v_read_only v)) :: ms)
      else match v_host_path v with
      | None => compose_mounts a vols
      | Some h =>
        ms ← compose_mounts a vols;
        mret ((svc, mkMount h (v_mount_path v) "bind" (v_read_only v)) :: ms)
      end
    end
  end.

Definition collectComposeVolumes (e : Engine) (a : App) : wM (list (string * Mount)) :=
  if en_AppVolumes e then
    vols ← attempt (wquery "volumes" (volumes_of (a_id a)));
    match vols with inl _ => mret [] | inr l => compose_mounts a l end
  else mret [].

Definition compose_labels (a : App) (deploymentID : string) (svc : string) : gmap string string :=
  <["prexel.compose" := "true"]> (<["prexel.service" := svc]>
    (<["com.docker.compose.project" := a_name a]> (<["com.docker.compose.service" := svc]>
      (<["com.docker.compose.container-number" := "1"]> (<["com.docker.compose.oneoff" := "False"]>
        (candidate_labels a deploymentID)))))).

Definition compose_opts (a : App) (deploymentID : string) (svc : ComposeServiceSummary) (baseEnv : gmap string string)
    (mounts : list Mount) (defaultRestart : string) : ContainerOpts :=
  let canonicalName := composeCanonicalName (a_name a) (cs_Name svc) in
  let tempName := canonicalName ^^ "-deploying-" ^^ shortDeployID deploymentID in
  mkContainerOpts tempName (cs_Image svc) (cs_Command svc) (cs_Env svc ∪ baseEnv)
    (compose_labels a deploymentID (cs_Name svc)) "" [cs_Name svc; canonicalName; tempName] []
    (let r := TrimSpace (cs_Restart svc) in if r =s "" then defaultRestart else r)
    (derefStr (a_limits_memory a)) (derefStr (a_limits_cpus a)) (derefStr (a_limits_memory_swap a))
    (a_limits_memory_swappiness a) (derefStr (a_limits_memory_reservation a)) (derefStr (a_limits_cpuset a))
    (intPtrToInt64 (a_limits_cpu_shares a)) mounts.

Definition startComposeCandidate (a : App) (deploymentID : string) (svc : ComposeServiceSummary)
    (baseEnv : gmap string string) (mounts : list Mount) (defaultRestart : string) : wM (DkErr + composeCandidate) :=
  let canonicalName := composeCanonicalName (a_name a) (cs_Name svc) in
  let tempName := canonicalName ^^ "-deploying-" ^^ shortDeployID deploymentID in
  _ ← docker (RemoveContainer tempName);
  r ← docker (RunContainer (compose_opts a deploymentID svc baseEnv mounts defaultRestart));
  match r with
  | inl err => mret (inl err)
  | inr _ => mret (inr (mkComposeCandidate (cs_Name svc) canonicalName tempName (cs_Ports svc)))
  end.

(** Phase 1; a failed start removes the candidates started before. *)
Fixpoint start_all (a : App) (deploymentID : string) (baseEnv : gmap string string) (mounts : list (string * Mount))
    (restart : string) (started : list composeCandidate) (svcs : list ComposeServiceSummary)
    : wM (list composeCandidate) :=
  match svcs with
  | [] => mret started
  | svc :: svcs =>
    r ← startComposeCandidate a deploymentID svc baseEnv (under (cs_Name svc) mounts) restart;
    match r with
    | inl err =>
      _ ← each stop_and_remove (cc_tempName <$> started);
      throw (ErrDeployDocker "run container" err)
    | inr c => start_all a deploymentID baseEnv mounts restart (started ++ [c]) svcs
    end
  end.

(** Phase 2. *)
Definition swap_service (a : App) (c : composeCandidate) : wM unit :=
  _ ← each stop_and_remove [cc_canonicalName c; legacyComposeName (a_name a) (cc_serviceName c)];
  r ← docker (RenameContainer (cc_tempName c) (cc_canonicalName c));
  match r with inl err => throw (ErrDeployDocker "rename" err) | inr _ => mret tt end.

(** Phase 3: the port of the domain, else the first one of the service. *)
Definition route_port (dom : composeDomainRow) (ports : list Z) : Z :=
  let port := match cd_port dom with Some p => if (0 <? p)%Z then p else 0%Z | None => 0%Z end in
  if (port =? 0)%Z then match ports with p :: _ => p | [] => 0%Z end else port.

Definition route_domain (force : gmap string bool) (c : composeCandidate) (dom : composeDomainRow) : wM unit :=
  let port := route_port dom (cc_ports c) in
  if (port =? 0)%Z then mret tt
  else
    _ ← proxy (UpsertRoute (cd_host dom) (cc_canonicalName c) port (default false (force !! cd_host dom)));
    mret tt.

(** Phase 4: each listed container of a service that is not live; [Names] of a
    container is its name. *)
Definition prune_orphan (live : list string) (x : Container) : wM unit :=
  let svc := default "" (cf_Labels (c_config x) !! "prexel.service") in
  if (svc =s "") || bool_decide (svc ∈ live) || (c_name x =s "") then mret tt
  else stop_and_remove (c_name x).

Definition pruneOrphanComposeContainers (a : App) (live : list string) : wM unit :=
  l ← docker (ListContainers "prexel.app_id" (a_id a));
  match l with inl _ => mret tt | inr l => each (prune_orphan live) l end.

(** [settled]: the five seconds pass before the context is cancelled. *)
Definition swapCompose (e : Engine) (v : Env) (settled : bool) (a : App) (res : BuildResult) (deploymentID : string)
    : wM unit :=
  match br_Compose res with
  | None => throw (ErrDeploy "missing compose result")
  | Some svcs =>
    if is_nil svcs then throw (ErrDeploy "no services to deploy")
    else
      _ ← ignore (updateFields deploymentID (set_dp_status "deploying"));
      _ ← ignore (SetStatus (a_id a) "deploying");
      _ ← publish (a_id a) deploymentID "app.status_changed";
      baseEnv ← runtime_env e v a;
      doms ← appDomains (a_id a);
      let '(_, _, force) := doms in
      perService ← appDomainsByService (a_id a);
      mounts ← collectComposeVolumes e a;
      let restart := if a_restart_policy a =s "" then "unless-stopped" else a_restart_policy a in
      candidates ← start_all a deploymentID baseEnv mounts restart [] svcs;
      if negb settled then
        _ ← each stop_and_remove (cc_tempName <$> candidates);
        throw (ErrDeploy "cancelled")
      else
        _ ← each (swap_service a) candidates;
        _ ← when (en_Caddy e)
              (each (λ c, each (route_domain force c) (under (cc_serviceName c) perService)) candidates);
        pruneOrphanComposeContainers a (cc_serviceName <$> candidates)
  end.
End Compose.

(** ** Starting the candidates *)

Section ComposeFacts.
Context {D C : Type} `{DD : DockerDaemon D} `{DL : !DockerLaws D} `{CC : CaddyClient C} `{RL : !RouteLaws C}.
Context `{Fl : Floats} `{Nt : Nat} `{Uc : Unicode}.

Definition tempNames (a : App) (deploymentID : string) (svcs : list ComposeServiceSummary) : list string :=
  (λ s, composeCanonicalName (a_name a) (cs_Name s) ^^ "-deploying-" ^^ shortDeployID deploymentID) <$> svcs.

Lemma start_wp names c0 l0 a dep svc env mounts restart (Q : World D C → DeployErr + (DkErr + composeCandidate) → Prop) w :
  (∀ n, n ∈ tempNames a dep [svc] → n ∈ names) → Keeps [] (Untouched names c0 l0) w →
  (∀ w' e, Keeps [] (Untouched names c0 l0) w' → Q w' (inl e)) →
  (∀ w' r, Keeps [] (Untouched names c0 l0) w' → (∀ c, r = inr c → cc_tempName c ∈ names) → Q w' (inr r)) →
  wp (startComposeCandidate a dep svc env mounts restart) Q w.
Proof.
  intros Hn Hw He HQ. unfold startComposeCandidate. cbv zeta.
  set (temp := composeCanonicalName (a_name a) (cs_Name svc) ^^ "-deploying-" ^^ shortDeployID dep).
  assert (Ht : temp ∈ names) by (apply Hn; left).
  apply (wp_keep (Keeps [] (Untouched names c0 l0))); [by apply untouched_remove|done|done|]. intros w1 _ Hw1.
  apply (wp_keep (Keeps [] (Untouched names c0 l0))); [by apply untouched_run|done|done|]. intros w2 [err|id] Hw2.
  - by apply wp_ret, HQ.
  - apply wp_ret, HQ; [done|]. by intros ? [= <-].
Qed.

Lemma start_all_untouched names c0 l0 a dep env mounts restart started svcs :
  (∀ n, n ∈ tempNames a dep svcs → n ∈ names) → (∀ c, c ∈ started → cc_tempName c ∈ names) →
  preserves (Keeps [] (Untouched names c0 l0)) (start_all (D := D) (C := C) a dep env mounts restart started svcs).
Proof.
  revert started. induction svcs as [|svc svcs IH]; intros started Hn Hs; simpl; [apply preserves_ret|].
  intros w Hw. apply wp_bind, (start_wp names c0 l0); [|done|done|].
  { intros n ->%list_elem_of_singleton. apply Hn. left. }
  intros w1 [err|c] Hw1 Hc.
  - apply (wp_keep (Keeps [] (Untouched names c0 l0))); [|done|done|intros; by apply wp_throw].
    clear IH. induction started as [|c started IHs]; [apply preserves_ret|].
    apply preserves_bind; [apply untouched_stop_and_remove, Hs; left|]. intros _. apply IHs.
    intros; apply Hs; by right.
  - apply IH; [intros; apply Hn; by right| |done].
    intros c' [?| ->%list_elem_of_singleton]%elem_of_app; [auto|]. by apply Hc.
Qed.

(** Starting the candidates of a compose deployment, with or without
    success and whatever fails, leaves the routes and every container alone but
    those of the candidates' temporary names. *)
Theorem compose_start_isolated a dep env mounts restart svcs (w : World D C) fs :
  let w' := (start_all a dep env mounts restart [] svcs w fs).1.1 in
  w_caddy w' = w_caddy w ∧
  others (tempNames a dep svcs) (ps (w_docker w')) = others (tempNames a dep svcs) (ps (w_docker w)).
Proof.
  assert (Hp : preserves (Keeps [] (Untouched (tempNames a dep svcs) (w_caddy w) (ps (w_docker w))))
    (start_all (D := D) (C := C) a dep env mounts restart [] svcs)).
  { apply start_all_untouched; [done|]. by intros c ?%not_elem_of_nil. }
  apply (Hp w). by split; [apply log_nil|].
Qed.
End ComposeFacts.
