(* ===== verification/Deploy.v ===== *)
(** * The deployment engine (internal/deploy: engine.go, repo.go, reconcile.go)

    Deployments, rollbacks, restarts and stops, the admission of concurrent
    runs, the reconciliation at startup, and the rows of [deployments]. *)

From S2P Require Import Prelude Effects GoStrings Regex Schema Routing Docker Domains Caddy Swap Compose.
From Stdlib Require Import Permutation Sorted.

Record DeployOptions := mkDeployOptions {
  do_Branch : string; do_CommitSHA : string; do_ImageTag : string; do_DeploymentID : string;
}.

(** build.BuildOptions. *)
Record BuildOptions := mkBuildOptions {
  bo_DeploymentID : string; bo_AppID : string; bo_Branch : string; bo_CommitSHA : string; bo_ImageTag : string;
}.

(** More of the environment of a run: the log file can be created, the server
    can be reached, the five seconds of a compose deployment pass, and the
    build, which works on the container engine. *)
Record RunEnv (D : Type) := mkRunEnv {
  re_env : Env;
  re_log_ok : bool;
  re_provider : string → bool;
  re_settled : bool;
  re_build : App → BuildOptions → D → D * option BuildResult;
  re_show : DeployErr → string;
}.
Arguments mkRunEnv {D}. Arguments re_env {D}. Arguments re_log_ok {D}. Arguments re_provider {D}.
Arguments re_settled {D}. Arguments re_build {D}. Arguments re_show {D}.

Section Rows.
Context {D C : Type}.
Local Abbreviation wM := (wM (D := D) (C := C)).

(** [insert]: the primary key and the foreign keys. *)
Definition insert (d : Deployment) : wM unit :=
  checked (ErrDeployDb "insert") (λ w,
    if List.existsb (is_deployment (dp_id d)) (deployments (w_db w))
       || negb (List.existsb (is_app (dp_app_id d)) (apps (w_db w)))
       || match dp_rollback_of d with
          | None => false
          | Some r => negb (List.existsb (is_deployment r) (deployments (w_db w)) || (r =s dp_id d))
          end
    then inl (ErrDeployDb "insert")
    else inr (set_wdb (on_deployments (λ l, l ++ [d]) (w_db w)) w, tt)).

Definition get_deployment (id : string) : wM Deployment :=
  row ← wquery "get" (λ d, sel (is_deployment id) (deployments d));
  match row with None => throw ErrDeployNotFound | Some d => mret d end.

(** [ORDER BY created_at DESC, id DESC]. *)
Definition newer (a b : Deployment) : bool :=
  (dp_created_at b <? dp_created_at a)%Z
  || ((dp_created_at a =? dp_created_at b)%Z && String.leb (dp_id b) (dp_id a)).
Definition by_newest (l : list Deployment) : list Deployment := sort_by newer l.

Definition listByApp (appID : string) (limit : Z) : wM (list Deployment) :=
  let limit := (if (limit <=? 0) || (500 <? limit) then 50 else limit)%Z in
  wquery "list" (λ d, firstn (Z.to_nat limit) (by_newest (List.filter (λ x, dp_app_id x =s appID) (deployments d)))).

Definition is_success (appID excludeID : string) (d : Deployment) : bool :=
  (dp_app_id d =s appID) && (dp_status d =s "success") && negb (negb (excludeID =s "") && (dp_id d =s excludeID)).

Definition lastSuccess (appID excludeID : string) : wM Deployment :=
  row ← wquery "last success" (λ d, head (by_newest (List.filter (is_success appID excludeID) (deployments d))));
  match row with None => throw ErrDeployNotFound | Some d => mret d end.

Definition in_flight (d : Deployment) : bool :=
  (dp_status d =s "pending") || (dp_status d =s "building") || (dp_status d =s "deploying").

Definition failPending (now : Z) : wM unit :=
  wexec "fail pending" (on_deployments (upd in_flight (λ d, set_dp_finished_at (Some now) (set_dp_status "failed" d)))).

(** [Apps.Get]: by id or by name; [ListAll]. *)
Definition Apps_Get (idOrName : string) : wM App :=
  let v := TrimSpace idOrName in
  if v =s "" then throw ErrDeployNotFound
  else
    row ← wquery "get app" (λ d, sel (λ a, if MatchString uuidRegex v then a_id a =s v else a_name a =s v) (apps d));
    match row with None => throw ErrDeployNotFound | Some a => mret a end.
Definition ListAll : wM (list App) := wquery "list apps" apps.

Definition Servers_Get (id : string) : wM Server :=
  row ← wquery "get server" (λ d, sel (λ s, sv_id s =s id) (servers d));
  match row with None => throw (ErrDeploy "server not found") | Some s => mret s end.

(** [Servers.Provider]: the row, and a connection to the server. *)
Definition Provider (reach : string → bool) (id : string) : wM unit :=
  _ ← Servers_Get id;
  if reach id then mret tt else throw (ErrDeploy "provider").
End Rows.

Section Engine.
Context {D C : Type} `{DD : DockerDaemon D} `{CC : CaddyClient C} `{Fl : Floats} `{Nt : Nat} `{Uc : Unicode}.
Local Abbreviation wM := (wM (D := D) (C := C)).
Local Abbreviation Run := (Deployment * option DeployErr)%type.

Definition LogPath (e : Engine) (deploymentID : string) : string := en_LogDir e ^^ "/" ^^ deploymentID ^^ ".log".

(** [failDeploy]: the row as it is left, with the app's status. *)
Definition failDeploy (v : RunEnv D) (a : App) (d : Deployment) (cause : DeployErr) : wM Deployment :=
  let now := ev_now (re_env v) in
  let msg := re_show v cause in
  let fail x := set_dp_error_message (Some msg) (set_dp_finished_at (Some now) (set_dp_status "failed" x)) in
  _ ← ignore (updateFields (dp_id d) fail);
  prev ← attempt (lastSuccess (a_id a) (dp_id d));
  _ ← ignore (SetStatus (a_id a) (match prev with inr _ => "running" | inl _ => "error" end));
  _ ← publish (a_id a) (dp_id d) "deploy.failed";
  mret (fail d).

(** A failed run: the deployment is returned next to the error. *)
Definition failed (v : RunEnv D) (a : App) (d : Deployment) (cause : DeployErr) : wM Run :=
  d ← failDeploy v a d cause;
  mret (d, Some cause).

(** sort.Slice by decreasing creation time. *)
Definition newest_first (l : list (string * Z)) : list (string * Z) := sort_by (λ x y, y.2 <=? x.2)%Z l.

(** The images of an app: the first tag with its prefix, and the creation time. *)
Definition app_images (name : string) (imgs : list (list string * Z)) : list (string * Z) :=
  omap (λ i, match List.find (λ t, HasPrefix t ("prexel-" ^^ name ^^ "-")) i.1 with
             | Some t => Some (t, i.2)
             | None => None
             end) imgs.
Definition pruned (keep : nat) (name : string) (imgs : list (list string * Z)) : list string :=
  List.skipn keep (newest_first (app_images name imgs)).*1.

Definition pruneImages (a : App) (keep : nat) : wM unit :=
  imgs ← docker (call ImageList);
  match imgs with
  | inr (Some imgs) => each (λ r, _ ← docker (RemoveImage r); mret tt) (pruned keep (a_name a) imgs)
  | _ => mret tt
  end.

(** The row a deployment starts with. *)
Definition new_row (e : Engine) (v : RunEnv D) (a : App) (opts : DeployOptions) (rollbackOf : string) : Deployment :=
  let t := TrimSpace (do_DeploymentID opts) in
  let id := if t =s "" then ev_uuid (re_env v) else t in
  let b := TrimSpace (do_Branch opts) in
  let commit := TrimSpace (do_CommitSHA opts) in
  mkDeployment id (a_id a)
    (if negb (commit =s "") then Some commit else if given (a_git_commit_sha a) then a_git_commit_sha a else None)
    None (Some (if b =s "" then a_branch a else b)) None (if rollbackOf =s "" then None else Some rollbackOf)
    "pending" (Some (LogPath e id)) None None None (ev_now (re_env v)).

(** The end of a successful run. *)
Definition succeed (v : RunEnv D) (a : App) (d : Deployment) (setImage : Deployment → Deployment) : wM Deployment :=
  let now := ev_now (re_env v) in
  let done x := set_dp_finished_at (Some now) (setImage (set_dp_status "success" x)) in
  _ ← ignore (updateFields (dp_id d) done);
  _ ← ignore (SetStatus (a_id a) "running");
  _ ← publish (a_id a) (dp_id d) "deploy.success";
  mret (done d).

(** Building and swapping, once the row exists. *)
Definition build_and_swap (e : Engine) (v : RunEnv D) (a : App) (opts : DeployOptions) (d : Deployment) : wM Run :=
  let id := dp_id d in
  _ ← ignore (updateFields id (λ x, set_dp_started_at (Some (ev_now (re_env v))) (set_dp_status "building" x)));
  _ ← ignore (SetStatus (a_id a) "building");
  _ ← publish (a_id a) id "app.status_changed";
  res ← docker (call (re_build v a (mkBuildOptions id (a_id a) (derefStr (dp_branch d)) (do_CommitSHA opts) (do_ImageTag opts))));
  match res with
  | inl err => failed v a d (ErrDeployDocker "build" err)
  | inr None => failed v a d (ErrDeploy "build")
  | inr (Some res) =>
    let built := negb (br_CommitSHA res =s "") in
    _ ← when built (ignore (updateFields id (set_dp_commit_sha (Some (br_CommitSHA res)))));
    let d := if built then set_dp_commit_sha (Some (br_CommitSHA res)) d else d in
    r ← attempt (if a_build_type a =s "docker_compose" then swapCompose e (re_env v) (re_settled v) a res id
                 else swap e (re_env v) a (br_ImageRef res) id);
    match r with
    | inl err => failed v a d err
    | inr _ =>
      d ← succeed v a d (set_dp_image_tag (Some (br_ImageRef res)));
      _ ← publish (a_id a) id "app.status_changed";
      _ ← pruneImages a 5;
      mret (d, None)
    end
  end.

Definition runDeploy (e : Engine) (v : RunEnv D) (a : App) (opts : DeployOptions) (rollbackOf : string) : wM Run :=
  match a_server_id a with
  | None => throw (ErrDeploy "app has no server")
  | Some server =>
    srv ← Servers_Get server;
    if negb (sv_status srv =s "connected") then throw (ErrDeploy "server status")
    else
      let d := new_row e v a opts rollbackOf in
      _ ← insert d;
      if negb (re_log_ok v) then
        _ ← ignore (updateFields (dp_id d) (λ x, set_dp_finished_at (Some (ev_now (re_env v))) (set_dp_status "failed" x)));
        throw (ErrDeploy "log file")
      else
        _ ← publish (a_id a) (dp_id d) "deploy.started";
        r ← attempt (Provider (re_provider v) server);
        match r with
        | inl err => failed v a d err
        | inr _ =>
          r ← docker (EnsureNetwork PrexelNetwork);
          match r with
          | inl err => failed v a d (ErrDeployDocker "ensure network" err)
          | inr _ => build_and_swap e v a opts d
          end
        end
  end.

Definition runFromImage (e : Engine) (v : RunEnv D) (a : App) (imageRef rollbackOf preallocatedID : string) : wM Run :=
  let t := TrimSpace preallocatedID in
  let id := if t =s "" then ev_uuid (re_env v) else t in
  let now := ev_now (re_env v) in
  let d := mkDeployment id (a_id a) None None None (Some imageRef) (Some rollbackOf) "deploying" (Some (LogPath e id))
             None (Some now) None now in
  _ ← insert d;
  if negb (re_log_ok v) then
    _ ← ignore (updateFields id (λ x, set_dp_finished_at (Some now) (set_dp_status "failed" x)));
    throw (ErrDeploy "log file")
  else
    _ ← publish (a_id a) id "deploy.started";
    r ← attempt (swap e (re_env v) a imageRef id);
    match r with
    | inl err => failed v a d err
    | inr _ =>
      d ← succeed v a d (λ x, x);
      mret (d, None)
    end.

(** [Rollback] once the app's lock and a slot are held. *)
Definition rollback_body (e : Engine) (v : RunEnv D) (a : App) (targetDeploymentID : string) (opts : DeployOptions) : wM Run :=
  target ← (if negb (targetDeploymentID =s "") then
              t ← get_deployment targetDeploymentID;
              if negb (dp_app_id t =s a_id a) then throw (ErrDeploy "belongs to a different app")
              else if negb (dp_status t =s "success") then throw (ErrDeploy "need success")
              else mret t
            else
              r ← attempt (lastSuccess (a_id a) "");
              match r with
              | inl ErrDeployNotFound => throw (ErrDeploy "no successful deployment to roll back to")
              | inl err => throw err
              | inr t => mret t
              end);
  if derefStr (dp_image_tag target) =s "" then throw (ErrDeploy "no image tag")
  else
    _ ← Provider (re_provider v) (derefStr (a_server_id a));
    r ← docker (call (ImageInspect (derefStr (dp_image_tag target))));
    if match r with inr DOk => false | _ => true end then throw (ErrDeploy "image_not_found")
    else runFromImage e v a (derefStr (dp_image_tag target)) (dp_id target) (do_DeploymentID opts).

Definition Restart (v : RunEnv D) (appID : string) : wM unit :=
  a ← Apps_Get appID;
  match a_container_name a with
  | None => throw (ErrDeploy "app has no container_name")
  | Some c =>
    _ ← Provider (re_provider v) (derefStr (a_server_id a));
    r ← docker (call (ContainerRestart c));
    match r with inr DOk => mret tt | _ => throw (ErrDeploy "restart") end
  end.

Definition Stop (v : RunEnv D) (appID : string) : wM unit :=
  a ← Apps_Get appID;
  _ ← (match a_container_name a return wM unit with
       | None => mret tt
       | Some c =>
         r ← attempt (Provider (re_provider v) (derefStr (a_server_id a)));
         match r with inl _ => mret tt | inr _ => _ ← docker (StopContainer c); mret tt end
       end);
  SetStatus (a_id a) "stopped".

(** ** reconcile.go *)

Definition inspectAppContainer (v : RunEnv D) (server container : string) : wM string :=
  r ← attempt (Provider (re_provider v) server);
  match r with
  | inl _ => mret "error"
  | inr _ =>
    i ← docker (call (ContainerInspect container));
    match i with
    | inl _ => mret "error"
    | inr x =>
      match x.1 with
      | DOk => mret (if x.2 : bool then "running" else "stopped")
      | DNotFound => mret "stopped"
      | DFailed => mret "error"
      end
    end
  end.

Definition reconcile_app (v : RunEnv D) (a : App) : wM unit :=
  if negb ((a_status a =s "building") || (a_status a =s "deploying")) then mret tt
  else match a_server_id a, a_container_name a with
  | Some server, Some container =>
    st ← inspectAppContainer v server container;
    ignore (SetStatus (a_id a) st)
  | _, _ => ignore (SetStatus (a_id a) "error")
  end.

Definition Reconcile (v : RunEnv D) : wM unit :=
  l ← ListAll;
  _ ← ignore (failPending (ev_now (re_env v)));
  each (reconcile_app v) l.
End Engine.

(** ** Runs keep the hosts of the app served *)

Section RunFacts.
Context {D C : Type} `{DD : DockerDaemon D} `{DL : !DockerLaws D} `{CC : CaddyClient C} `{RL : !RouteLaws C}.
Context `{Fl : Floats} `{Nt : Nat} `{Uc : Unicode}.
Local Abbreviation World := (World D C).
Local Abbreviation wM := (wM (D := D) (C := C)).
Local Abbreviation Run := (Deployment * option DeployErr)%type.

Section Keep.
Variable hosts : list string.
Variable J : C → list Container → Prop.
Hypothesis HJ : implies_serving hosts J.

Lemma get_server_keeps id : preserves (Keeps hosts J) (Servers_Get (D := D) (C := C) id).
Proof. apply preserves_bind; [by apply wquery_keeps|]. intros [?|]; [apply preserves_ret|apply preserves_throw]. Qed.

Lemma provider_keeps reach id : preserves (Keeps hosts J) (Provider (D := D) (C := C) reach id).
Proof.
  apply preserves_bind; [apply get_server_keeps|]. intros _. destruct (reach id); [apply preserves_ret|apply preserves_throw].
Qed.

Lemma insert_keeps d : preserves (Keeps hosts J) (insert (D := D) (C := C) d).
Proof.
  apply local_keeps. intros w fs. unfold insert, checked. destruct fs as [|[] fs]; [|done|];
    match goal with |- context [if ?c then _ else _] => by destruct c end.
Qed.

Lemma last_success_keeps id ex : preserves (Keeps hosts J) (lastSuccess (D := D) (C := C) id ex).
Proof. apply preserves_bind; [by apply wquery_keeps|]. intros [?|]; [apply preserves_ret|apply preserves_throw]. Qed.

Lemma get_deployment_keeps id : preserves (Keeps hosts J) (get_deployment (D := D) (C := C) id).
Proof. apply preserves_bind; [by apply wquery_keeps|]. intros [?|]; [apply preserves_ret|apply preserves_throw]. Qed.

Lemma failed_keeps v a d cause : preserves (Keeps hosts J) (failed (C := C) v a d cause).
Proof.
  unfold failed, failDeploy. apply preserves_bind; [|intros; apply preserves_ret].
  apply preserves_bind; [by apply preserves_ignore, updateFields_keeps|]. intros _.
  apply preserves_bind; [by apply preserves_attempt, last_success_keeps|]. intros prev.
  apply preserves_bind; [by apply preserves_ignore, SetStatus_keeps|]. intros _.
  apply preserves_bind; [by apply publish_keeps|]. intros _. apply preserves_ret.
Qed.

Lemma succeed_keeps v a d f : preserves (Keeps hosts J) (succeed (C := C) (D := D) v a d f).
Proof.
  unfold succeed. apply preserves_bind; [by apply preserves_ignore, updateFields_keeps|]. intros _.
  apply preserves_bind; [by apply preserves_ignore, SetStatus_keeps|]. intros _.
  apply preserves_bind; [by apply publish_keeps|]. intros _. apply preserves_ret.
Qed.

Lemma call_keeps {A} (f : D → D * A) : (∀ d, ps (f d).1 = ps d) → preserves (Keeps hosts J) (docker (call f)).
Proof. intros Hf. apply frame_keeps; [done|]. intros P s Ha Hp. by apply frame_call. Qed.

Lemma prune_keeps a keep : preserves (Keeps hosts J) (pruneImages a keep).
Proof.
  apply preserves_bind; [by apply call_keeps, image_list_ps|]. intros [?|[imgs|]]; try apply preserves_ret.
  apply each_preserves. intros r. apply preserves_bind; [by apply remove_image_keeps|]. intros; apply preserves_ret.
Qed.

Lemma network_keeps n : preserves (Keeps hosts J) (docker (EnsureNetwork n)).
Proof.
  apply frame_keeps; [done|]. intros P s Ha Hp. unfold EnsureNetwork. destruct (n =s ""); [by apply wp_throw|].
  apply wp_bind. eapply wp_mono; [by apply frame_call; [apply network_inspect_ps|..]|].
  intros s1 [err|r] [Ha1 E1]; [done|]. destruct r; [by apply wp_ret| |by apply wp_throw].
  apply wp_bind. eapply wp_mono; [apply (frame_call _ P); [apply network_create_ps|done|by rewrite E1]|].
  intros s2 [err|r] [Ha2 E2]; [by rewrite E2, E1|]. destruct (is_ok r); [apply wp_ret; by rewrite E2, E1|].
  apply wp_bind. eapply wp_mono; [apply (frame_call _ P); [apply network_inspect_ps|done|by rewrite E2, E1]|].
  intros s3 [err|r'] [Ha3 E3]; [by rewrite E3, E2, E1|].
  destruct (is_ok r'); [apply wp_ret|apply wp_throw]; by rewrite E3, E2, E1.
Qed.
End Keep.

(** The same for the domains table. *)
Lemma insert_domains t d : preserves (has_domains t) (insert (D := D) (C := C) d).
Proof.
  apply preserves_checked. intros w Hw. by match goal with |- context [if ?c then _ else _] => destruct c end.
Qed.

Lemma provider_domains t reach id : preserves (has_domains (D := D) (C := C) t) (Provider reach id).
Proof.
  apply preserves_bind.
  - apply preserves_bind; [apply preserves_query|]. intros [?|]; [apply preserves_ret|apply preserves_throw].
  - intros _. destruct (reach id); [apply preserves_ret|apply preserves_throw].
Qed.

(** A host that is served, and not by a candidate. *)
Definition stable_host (a : App) (h : string) (c : C) (l : list Container) : Prop := ∃ r x,
  route_of c h = Some r ∧ x ∈ l ∧ answers x (rt_upstream r) = true ∧
  ∀ s, c_name x ≠ containerName_of a ^^ "-deploying-" ^^ s.
Definition Stable (hosts : list string) (a : App) (c : C) (l : list Container) : Prop :=
  steady c ∧ ∀ h, h ∈ hosts → stable_host a h c l.

Lemma stable_old hosts a hex image c l : Stable hosts a c l → PhaseOld hosts (tempName_of hex image a) c l.
Proof. intros [? Hs]. split; [done|]. intros h Hh. destruct (Hs h Hh) as (r & x & ? & ? & ? & Hn). exists r, x. split_and!; [done..|apply Hn]. Qed.

Lemma stable_serving hosts a : implies_serving hosts (Stable hosts a).
Proof.
  intros c l [_ Hs] h Hh. destruct (Hs h Hh) as (r & x & Hr & Hx & Ha & _). exists r. split; [done|]. by eapply served_elem.
Qed.

(** The outcome of a run of the app [a]: every logged state serves the hosts,
    so does the last one, and after a success it is the new container that does. *)
Definition run_post (hosts : list string) (v : RunEnv D) (a : App) (w' : World) (r : DeployErr + (Deployment * option DeployErr)) : Prop :=
  LogOk hosts w' ∧ Serving hosts (w_caddy w') (ps (w_docker w')) ∧
  ∀ d, r = inr (d, None) → hosts ≠ [] → ∃ image, dp_image_tag d = Some image ∧
    PhaseDone hosts (tempName_of (ev_hex (re_env v)) image a) (containerName_of a) image (w_caddy w') (ps (w_docker w')).

Lemma run_failed hosts v a d cause w :
  Keeps hosts (Serving hosts) w → wp (failed v a d cause) (run_post hosts v a) w.
Proof.
  intros Hw.
  assert (Hp : preserves (Keeps hosts (Serving hosts)) (failed (C := C) v a d cause)) by by apply failed_keeps.
  eapply wp_mono; [apply wp_and; [by apply Hp|]|].
  - instantiate (1 := λ _ r, ∀ d, r ≠ inr (d, None)). intros fs d'. unfold failed, mbind, M_bind, bind.
    by destruct (failDeploy v a d cause w fs) as [[? ?] [?|?]].
  - intros w' r [[Hl Hs] Hr]. split_and!; [done|done|]. intros d' E. by destruct (Hr d').
Qed.

Lemma run_swapped hosts v a image (d : Deployment) setImage (after : Deployment → wM Run) w r :
  (∀ x, dp_image_tag (setImage x) = Some image ∨ setImage x = x ∧ dp_image_tag d = Some image) →
  (∀ J d' w', implies_serving hosts J → Keeps hosts J w' →
     wp (after d') (λ w'' r, Keeps hosts J w'' ∧ ∀ d'', r = inr (d'', None) → d'' = d') w') →
  swap_post hosts (tempName_of (ev_hex (re_env v)) image a) (containerName_of a) image w r →
  wp (match r with
      | inl err => failed v a d err
      | inr _ => d' ← succeed v a d setImage; after d'
      end) (run_post hosts v a) w.
Proof.
  intros Himg Hafter (Hl & Hs & Hd). destruct r as [err|[]]; [by apply run_failed|].
  set (J := λ (c : C) (l : list Container), Serving hosts c l ∧
    (hosts ≠ [] → PhaseDone hosts (tempName_of (ev_hex (re_env v)) image a) (containerName_of a) image c l)).
  assert (HJ : implies_serving hosts J) by by intros ?? [? _].
  assert (Herr : ∀ w' err, Keeps hosts J w' → run_post hosts v a w' (inl err)).
  { intros w' err [? [? _]]. by split_and!. }
  assert (Hw : Keeps hosts J w) by (split; [done|split; [done|auto]]).
  pose proof (succeed_keeps hosts J v a d setImage) as Hsk.
  apply wp_bind. eapply wp_mono; [apply wp_and; [by apply Hsk|]|].
  - instantiate (1 := λ _ r, ∀ d', r = inr d' → dp_image_tag d' = Some image). intros fs d' E.
    unfold succeed, mbind, M_bind, bind, ignore, mret, M_ret, ret, publish, modify in E.
    repeat case_match; simplify_eq/=. destruct (Himg (set_dp_status "success" d)) as [?|[-> ?]]; done.
  - intros w1 [err|d'] [Hw1 Hd']; [by apply Herr|]. eapply wp_mono; [by apply (Hafter J)|].
    intros w2 r [[Hl2 [Hs2 Hp2]] Hr]. split_and!; [done|done|]. intros d'' E Hnn. rewrite (Hr d'' E).
    exists image. split; [by apply Hd'|auto].
Qed.

(** A step before the swap: hosts stay stable and the domains the same. *)
Definition Before (a : App) (w0 : World) : World → Prop := λ w,
  Keeps (app_hosts (w_db w0) (a_id a)) (Stable (app_hosts (w_db w0) (a_id a)) a) w ∧
  has_domains (domains (w_db w0)) w.

Lemma before_failed a w0 v d cause w :
  Before a w0 w → wp (failed v a d cause) (run_post (app_hosts (w_db w0) (a_id a)) v a) w.
Proof. intros [[Hl Hs] _]. apply run_failed. split; [done|by eapply stable_serving]. Qed.

Lemma before_error a w0 v w err : Before a w0 w → run_post (app_hosts (w_db w0) (a_id a)) v a w (inl err).
Proof. intros [[Hl Hs] _]. split_and!; [done|by eapply stable_serving|done]. Qed.

Lemma before_swap e v a image dep w0 w (k : DeployErr + unit → wM Run) :
  en_Caddy e = true → (∀ s, legacyName_of a ≠ containerName_of a ^^ "-deploying-" ^^ s) →
  usable (app_hosts (w_db w0) (a_id a)) → Before a w0 w →
  (∀ w' r, swap_post (app_hosts (w_db w0) (a_id a)) (tempName_of (ev_hex (re_env v)) image a) (containerName_of a) image w' r →
     wp (k r) (run_post (app_hosts (w_db w0) (a_id a)) v a) w') →
  wp (r ← attempt (swap e (re_env v) a image dep); k r) (run_post (app_hosts (w_db w0) (a_id a)) v a) w.
Proof.
  intros Hcad Hleg Hne [[Hl Hs] Hd] Hk. apply wp_bind, wp_attempt.
  assert (Hh : app_hosts (w_db w) (a_id a) = app_hosts (w_db w0) (a_id a)) by (unfold app_hosts; by rewrite Hd).
  eapply wp_mono; [apply swap_wp; [done| |by rewrite Hh|rewrite Hh; split; [done|by apply stable_old]]|].
  - intros E. by eapply Hleg.
  - rewrite Hh. exact Hk.
Qed.

Lemma before_update a w0 id f : preserves (Before a w0) (ignore (updateFields id f)).
Proof. apply preserves_and; [by apply preserves_ignore, updateFields_keeps|apply preserves_ignore, updateFields_domains]. Qed.

Lemma before_status a w0 id st : preserves (Before a w0) (ignore (SetStatus id st)).
Proof. apply preserves_and; [by apply preserves_ignore, SetStatus_keeps|apply preserves_ignore, SetStatus_domains]. Qed.

Lemma before_publish a w0 x y z : preserves (Before a w0) (publish x y z).
Proof. apply preserves_and; [by apply publish_keeps|by apply preserves_modify]. Qed.

Lemma before_insert a w0 d : preserves (Before a w0) (insert d).
Proof. apply preserves_and; [by apply insert_keeps|apply insert_domains]. Qed.

Lemma before_provider a w0 reach id : preserves (Before a w0) (Provider reach id).
Proof. apply preserves_and; [by apply provider_keeps|apply provider_domains]. Qed.

Lemma before_call {A} a w0 (f : D → D * A) : (∀ d, ps (f d).1 = ps d) → preserves (Before a w0) (docker (call f)).
Proof. intros. apply preserves_and; [by apply call_keeps; [apply stable_serving|]|apply docker_domains]. Qed.

Lemma before_network a w0 n : preserves (Before a w0) (docker (EnsureNetwork n)).
Proof. apply preserves_and; [by apply network_keeps, stable_serving|apply docker_domains]. Qed.

Lemma build_and_swap_wp e v a opts d w0 w :
  en_Caddy e = true → a_build_type a ≠ "docker_compose" →
  (∀ s, legacyName_of a ≠ containerName_of a ^^ "-deploying-" ^^ s) →
  (∀ o x, ps (re_build v a o x).1 = ps x) →
  usable (app_hosts (w_db w0) (a_id a)) → Before a w0 w →
  wp (build_and_swap e v a opts d) (run_post (app_hosts (w_db w0) (a_id a)) v a) w.
Proof.
  intros Hcad Hbt Hleg Hb Hne Hw. unfold build_and_swap. cbv zeta.
  apply (wp_keep (Before a w0)); [apply before_update|done|intros; by apply before_error|]. intros w1 _ Hw1.
  apply (wp_keep (Before a w0)); [apply before_status|done|intros; by apply before_error|]. intros w2 _ Hw2.
  apply (wp_keep (Before a w0)); [apply before_publish|done|intros; by apply before_error|]. intros w3 _ Hw3.
  apply (wp_keep (Before a w0)); [apply before_call, Hb|done|intros; by apply before_error|].
  intros w4 [err|[res|]] Hw4; [by apply before_failed| |by apply before_failed].
  apply (wp_keep (Before a w0)); [|done|intros; by apply before_error|].
  { apply preserves_when, before_update. }
  intros w5 _ Hw5. apply String.eqb_neq in Hbt. rewrite Hbt.
  apply before_swap; [done..|]. intros w6 r Hr.
  apply (run_swapped _ v a (br_ImageRef res)); [| |done].
  - intros x. by left.
  - clear. intros J d' w' HJ Hw'.
    assert (Herr : ∀ w'' err, Keeps (app_hosts (w_db w0) (a_id a)) J w'' →
      Keeps (app_hosts (w_db w0) (a_id a)) J w'' ∧ ∀ d'', (inl err : DeployErr + Run) = inr (d'', None) → d'' = d') by done.
    apply (wp_keep (Keeps (app_hosts (w_db w0) (a_id a)) J)); [by apply publish_keeps|done|done|]. intros w1 _ Hw1.
    apply (wp_keep (Keeps (app_hosts (w_db w0) (a_id a)) J)); [by apply prune_keeps|done|done|]. intros w2 _ Hw2.
    apply wp_ret. split; [done|]. by intros ? [= ->].
Qed.

Lemma runDeploy_wp e v a opts rb w :
  en_Caddy e = true → a_build_type a ≠ "docker_compose" →
  (∀ s, legacyName_of a ≠ containerName_of a ^^ "-deploying-" ^^ s) →
  (∀ o x, ps (re_build v a o x).1 = ps x) →
  usable (app_hosts (w_db w) (a_id a)) → Before a w w →
  wp (runDeploy e v a opts rb) (run_post (app_hosts (w_db w) (a_id a)) v a) w.
Proof.
  intros Hcad Hbt Hleg Hb Hne Hw. unfold runDeploy. cbv zeta.
  destruct (a_server_id a) as [server|]; [|apply wp_throw; by apply before_error].
  apply (wp_keep (Before a w)); [|done|intros; by apply before_error|].
  { apply preserves_and; [apply get_server_keeps|]. apply preserves_bind; [apply preserves_query|].
    intros [?|]; [apply preserves_ret|apply preserves_throw]. }
  intros w1 srv Hw1. destruct (negb _); [apply wp_throw; by apply before_error|].
  apply (wp_keep (Before a w)); [apply before_insert|done|intros; by apply before_error|]. intros w2 _ Hw2.
  destruct (negb _).
  { apply (wp_keep (Before a w)); [apply before_update|done|intros; by apply before_error|]. intros w3 _ Hw3.
    apply wp_throw. by apply before_error. }
  apply (wp_keep (Before a w)); [apply before_publish|done|intros; by apply before_error|]. intros w3 _ Hw3.
  apply (wp_keep (Before a w)); [apply preserves_attempt, before_provider|done|intros; by apply before_error|].
  intros w4 [err|[]] Hw4; [by apply before_failed|].
  apply (wp_keep (Before a w)); [apply before_network|done|intros; by apply before_error|].
  intros w5 [err|[]] Hw5; [by apply before_failed|]. by apply build_and_swap_wp.
Qed.

Lemma runFromImage_wp e v a image rb pre w0 w :
  en_Caddy e = true → (∀ s, legacyName_of a ≠ containerName_of a ^^ "-deploying-" ^^ s) →
  usable (app_hosts (w_db w0) (a_id a)) → Before a w0 w →
  wp (runFromImage e v a image rb pre) (run_post (app_hosts (w_db w0) (a_id a)) v a) w.
Proof.
  intros Hcad Hleg Hne Hw. unfold runFromImage. cbv zeta.
  apply (wp_keep (Before a w0)); [apply before_insert|done|intros; by apply before_error|]. intros w2 _ Hw2.
  destruct (negb _).
  { apply (wp_keep (Before a w0)); [apply before_update|done|intros; by apply before_error|]. intros w3 _ Hw3.
    apply wp_throw. by apply before_error. }
  apply (wp_keep (Before a w0)); [apply before_publish|done|intros; by apply before_error|]. intros w3 _ Hw3.
  apply before_swap; [done..|]. intros w6 r Hr. apply (run_swapped _ v a image); [|intros|done].
  - intros x. by right.
  - apply wp_ret. split; [done|]. by intros ? [= ->].
Qed.

(** C1: An application with domains, deployed as a container behind the proxy,
    is never unreachable while it is deployed or rolled back.  The hypotheses:
    the engine has a proxy client, and the proxy is [steady] (it is not going to
    refuse the PATCH of an existing route and accept the POST after it, which the
    client takes for a success); the hosts of the app are names the proxy tells
    apart, none empty; when the run starts each of them is routed to a running
    container that is not itself a candidate; the app is not a compose project
    (for [Deploy]; compose stacks take another path), its legacy container name
    is not that of one of its candidates, and a build leaves the running
    containers alone.  Then after every call of the container engine and of the
    proxy, whatever fails and wherever the run ends, each host is routed to a
    running container; and when the run succeeds, that container is the new
    one. *)
Theorem zero_downtime e v a opts target (w : World) fs :
  let hosts := app_hosts (w_db w) (a_id a) in
  en_Caddy e = true → steady (w_caddy w) → usable hosts → (∀ s, legacyName_of a ≠ containerName_of a ^^ "-deploying-" ^^ s) →
  (∀ o x, ps (re_build v a o x).1 = ps x) →
  (∀ h, h ∈ hosts → stable_host a h (w_caddy w) (ps (w_docker w))) → w_log w = [] →
  let safe (w' : World) (r : DeployErr + Run) :=
    (∀ d c, (d, c) ∈ w_log w' → Serving hosts c (ps d)) ∧
    Serving hosts (w_caddy w') (ps (w_docker w')) ∧
    (∀ d, r = inr (d, None) → hosts ≠ [] → ∃ image, dp_image_tag d = Some image ∧
       promoted_up (tempName_of (ev_hex (re_env v)) image a) (containerName_of a) image (ps (w_docker w')) ∧
       ∀ h, h ∈ hosts → to_upstream [tempName_of (ev_hex (re_env v)) image a; containerName_of a] h (w_caddy w')) in
  (a_build_type a ≠ "docker_compose" →
   safe (runDeploy e v a opts "" w fs).1.1 (runDeploy e v a opts "" w fs).2) ∧
  safe (rollback_body e v a target opts w fs).1.1 (rollback_body e v a target opts w fs).2.
Proof.
  intros hosts Hcad Hsd Hne Hleg Hb Hst Hlog safe.
  assert (Hsafe : ∀ w' r, run_post hosts v a w' r → safe w' r).
  { intros w' r (Hl & Hs & Hd). split_and!; [|done|].
    2:{ intros d E Hnn. destruct (Hd d E Hnn) as (image & ? & _ & ? & ?). by exists image. }
    intros d c Hin. unfold LogOk in Hl. rewrite Forall_forall in Hl. by apply (Hl (d, c)). }
  assert (Hw : Before a w w) by (split; [split; [unfold LogOk; by rewrite Hlog|by split]|done]).
  split; [intros Hbt; apply Hsafe; by apply (runDeploy_wp e v a opts "" w)|].
  apply Hsafe. revert fs.
  match goal with |- ∀ fs, run_post _ _ _ (?m w fs).1.1 (?m w fs).2 => change (wp m (run_post hosts v a) w) end.
  unfold rollback_body.
  apply (wp_keep (Before a w)); [|done|intros; by apply before_error|].
  { destruct (negb _).
    - apply preserves_bind; [apply preserves_and|].
      + apply get_deployment_keeps.
      + apply preserves_bind; [apply preserves_query|]. intros [?|]; [apply preserves_ret|apply preserves_throw].
      + intros t. destruct (negb _); [apply preserves_throw|]. destruct (negb _); [apply preserves_throw|apply preserves_ret].
    - apply preserves_bind; [apply preserves_attempt, preserves_and|].
      + apply last_success_keeps.
      + apply preserves_bind; [apply preserves_query|]. intros [?|]; [apply preserves_ret|apply preserves_throw].
      + intros [[]|]; first [apply preserves_throw|apply preserves_ret]. }
  intros w1 t Hw1. destruct (_ =s ""); [apply wp_throw; by apply before_error|].
  apply (wp_keep (Before a w)); [apply before_provider|done|intros; by apply before_error|]. intros w2 _ Hw2.
  apply (wp_keep (Before a w)); [apply before_call, image_inspect_ps|done|intros; by apply before_error|].
  intros w3 r Hw3. destruct (match r with inr DOk => false | _ => true end); [apply wp_throw; by apply before_error|].
  by apply runFromImage_wp.
Qed.
End RunFacts.

(** ** Admission: the per-app locks and the global slots *)

(** The locks that are held, the slots in use, and the capacity of the
    semaphore once it exists. *)
Record Gate := mkGate { g_locks : list string; g_used : Z; g_capacity : option Z }.

Definition acquireLock (appID : string) (g : Gate) : Gate * bool :=
  if bool_decide (appID ∈ g_locks g) then (g, false)
  else (mkGate (appID :: g_locks g) (g_used g) (g_capacity g), true).
Definition unlock (appID : string) (g : Gate) : Gate :=
  mkGate (List.filter (λ x, negb (x =s appID)) (g_locks g)) (g_used g) (g_capacity g).

(** [limit]: what [MaxConcurrentDeploys] returns now, [None] without a limiter. *)
Definition acquireGlobalSlot (limit : option Z) (g : Gate) : Gate * bool :=
  match limit with
  | None => (g, true)
  | Some max =>
    let capacity := match g_capacity g with
                    | Some c => c
                    | None => if (max <? 1)%Z then 1%Z else max
                    end in
    if (g_used g <? capacity)%Z then (mkGate (g_locks g) (g_used g + 1) (Some capacity), true)
    else (mkGate (g_locks g) (g_used g) (Some capacity), false)
  end.
Definition releaseSlot (limit : option Z) (g : Gate) : Gate :=
  match limit with
  | None => g
  | Some _ => mkGate (g_locks g) (g_used g - 1) (g_capacity g)
  end.

(** The entry of [Deploy] and [Rollback], and their deferred exit. *)
Definition enter (limit : option Z) (appID : string) (g : Gate) : Gate * option DeployErr :=
  let '(g1, ok) := acquireLock appID g in
  if negb ok then (g1, Some ErrDeployInProgress)
  else
    let '(g2, ok) := acquireGlobalSlot limit g1 in
    if negb ok then (unlock appID g2, Some ErrTooManyDeploys) else (g2, None).
Definition leave (limit : option Z) (appID : string) (g : Gate) : Gate := unlock appID (releaseSlot limit g).

Definition idle : Gate := mkGate [] 0 None.

(** Concurrent requests: runs enter and leave in any order; the limiter may
    answer differently each time, but is wired or not for good. *)
Inductive admission (limited : bool) : Gate → list string → Prop :=
  | adm_idle : admission limited idle []
  | adm_enter g running limit a g' :
      admission limited g running → (is_some limit) = limited → enter limit a g = (g', None) →
      admission limited g' (a :: running)
  | adm_reject g running limit a g' e :
      admission limited g running → (is_some limit) = limited → enter limit a g = (g', Some e) →
      admission limited g' running
  | adm_leave g running limit a :
      admission limited g running → (is_some limit) = limited → a ∈ running →
      admission limited (leave limit a g) (List.filter (λ x, negb (x =s a)) running).

Record admitted (limited : bool) (g : Gate) (running : list string) : Prop := {
  ad_locks : g_locks g = running;
  ad_nodup : NoDup running;
  ad_used : limited = true → g_used g = Z.of_nat (length running);
  ad_cap : match g_capacity g with Some c => (1 <= c ∧ g_used g <= c)%Z | None => g_used g = 0%Z end;
}.

Lemma length_remove (a : string) l : NoDup l → a ∈ l →
  S (length (List.filter (λ x, negb (x =s a)) l)) = length l.
Proof.
  induction l as [|x l IH]; [by intros _ ?%not_elem_of_nil|]. rewrite list.NoDup_cons. intros [Hx Hl] Ha. simpl.
  destruct (x =s a) eqn:E; simpl; bool_simp.
  - subst x. f_equal. f_equal. clear IH Ha Hl. induction l as [|y l IH]; [done|]. simpl.
    rewrite not_elem_of_cons in Hx. destruct Hx as [Hy Hx]. destruct (y =s a) eqn:E; bool_simp; [congruence|]. simpl.
    by rewrite IH.
  - f_equal. apply IH; [done|]. by apply elem_of_cons in Ha as [->|Ha].
Qed.

Lemma remove_head (a : string) l : a ∉ l → List.filter (λ x, negb (x =s a)) (a :: l) = l.
Proof.
  intros Ha. simpl. rewrite String.eqb_refl. simpl. induction l as [|x l IH]; [done|]. simpl.
  rewrite not_elem_of_cons in Ha. destruct Ha as [Hx Ha]. destruct (x =s a) eqn:E; bool_simp; [congruence|]. simpl.
  by rewrite IH.
Qed.

Lemma enter_spec limited limit a g running :
  admitted limited g running → (is_some limit) = limited →
  match enter limit a g with
  | (g', None) => (a ∉ running) ∧ admitted limited g' (a :: running)
  | (g', Some e) => admitted limited g' running ∧
      (e = ErrDeployInProgress ∧ a ∈ running ∨
       e = ErrTooManyDeploys ∧ limited = true ∧ (a ∉ running) ∧ ∃ c, g_capacity g' = Some c ∧ Z.of_nat (length running) = c)
  end.
Proof.
  intros [Hl Hn Hu Hc] Hlim. unfold enter, acquireLock. rewrite Hl.
  destruct (bool_decide (a ∈ running)) eqn:E; simpl; [apply bool_decide_eq_true in E; split; [by constructor|auto]|].
  apply bool_decide_eq_false in E. unfold acquireGlobalSlot. destruct limit as [max|]; simpl.
  - assert (limited = true) as -> by done. specialize (Hu eq_refl).
    set (c := match g_capacity g with Some c => c | None => _ end).
    assert (Hcap : (1 <= c ∧ g_used g <= c)%Z).
    { unfold c. destruct (g_capacity g); [done|]. destruct (max <? 1)%Z eqn:Em; bool_simp; lia. }
    destruct (g_used g <? c)%Z eqn:Eu; simpl; bool_simp.
    + split; [done|]. constructor; simpl; [done|by constructor|intros _; lia|lia].
    + unfold unlock. cbn [g_locks g_used g_capacity]. rewrite remove_head by done.
      split; [constructor; simpl; auto; lia|]. right. split_and!; [done|done|done|]. exists c. split; [done|]. lia.
  - split; [done|]. subst limited. constructor; simpl; [done|by constructor|done|done].
Qed.

Lemma admission_admitted limited g running : admission limited g running → admitted limited g running.
Proof.
  induction 1 as [|g running limit a g' _ IH Hlim He|g running limit a g' e _ IH Hlim He|g running limit a _ IH Hlim Ha].
  - by constructor; [|constructor|..].
  - pose proof (enter_spec _ _ a _ _ IH Hlim) as Hs. rewrite He in Hs. apply Hs.
  - pose proof (enter_spec _ _ a _ _ IH Hlim) as Hs. rewrite He in Hs. apply Hs.
  - destruct IH as [Hl Hn Hu Hc]. pose proof (length_remove a running Hn Ha) as Hlen.
    assert (Hn' : NoDup (List.filter (λ x, negb (x =s a)) running)).
    { pose proof (NoDup_fmap_filter id (λ x, negb (x =s a)) running) as Hf. rewrite !list_fmap_id in Hf. auto. }
    constructor; unfold leave, unlock, releaseSlot; destruct limit as [max|]; simpl; rewrite ?Hl; try done.
    + intros Ht. specialize (Hu Ht). lia.
    + intros ->. done.
    + destruct (g_capacity g); [lia|]. subst limited. specialize (Hu eq_refl). destruct running; [by apply not_elem_of_nil in Ha|]. simpl in Hu. lia.
Qed.

(** C4: Whatever requests come in and whatever the limiter answers over time,
    no two runs of one app are in progress, the runs never exceed the capacity
    the semaphore was created with, and a request is refused only because its
    app is running or every slot is taken. *)
Theorem admission_control limited g running limit a :
  admission limited g running → (is_some limit) = limited →
  NoDup running ∧
  (limited = true → match g_capacity g with
                    | Some c => (1 <= c ∧ Z.of_nat (length running) <= c)%Z
                    | None => running = []
                    end) ∧
  (enter limit a g).2 = match decide (a ∈ running) with
    | left _ => Some ErrDeployInProgress
    | right _ => if limited then
                   match g_capacity (enter limit a g).1 with
                   | Some c => if (Z.of_nat (length running) =? c)%Z then Some ErrTooManyDeploys else None
                   | None => None
                   end
                 else None
    end.
Proof.
  intros Hadm Hlim. pose proof (admission_admitted _ _ _ Hadm) as Hok.
  pose proof (enter_spec _ _ a _ _ Hok Hlim) as He. destruct Hok as [Hl Hn Hu Hc]. split_and!; [done| |].
  - intros Ht. specialize (Hu Ht). destruct (g_capacity g); [lia|]. destruct running; [done|]. simpl in Hu. lia.
  - destruct (enter limit a g) as [g' [e|]]; simpl.
    + destruct He as [Hok' [[-> Ha]|(-> & Ht & Ha & c & Hcap & Hlen)]]; destruct (decide (a ∈ running)); try done.
      by rewrite Ht, Hcap, (proj2 (Z.eqb_eq _ _) Hlen).
    + destruct He as [Ha Hok']. destruct (decide (a ∈ running)); [done|]. destruct limited; [|done].
      destruct Hok' as [_ _ Hu' Hc']. specialize (Hu' eq_refl). destruct (g_capacity g'); [|done].
      simpl in Hu'. destruct (_ =? _)%Z eqn:E; bool_simp; [lia|done].
Qed.

(** [Deploy] and [Rollback]: the lookup of the app, the admission, the run.  The
    deferred [leave] runs when they return. *)
Section Entry.
Context {D C : Type} `{DD : DockerDaemon D} `{CC : CaddyClient C} `{Fl : Floats} `{Nt : Nat} `{Uc : Unicode}.

Definition Deploy (e : Engine) (v : RunEnv D) (g : Gate) (appID : string) (opts : DeployOptions)
    : wM (D := D) (C := C) (Deployment * option DeployErr) :=
  a ← Apps_Get appID;
  match (enter (en_Limit e) (a_id a) g).2 with
  | Some err => throw err
  | None => runDeploy e v a opts ""
  end.

Definition Rollback (e : Engine) (v : RunEnv D) (g : Gate) (appID targetDeploymentID : string) (opts : DeployOptions)
    : wM (D := D) (C := C) (Deployment * option DeployErr) :=
  a ← Apps_Get appID;
  match (enter (en_Limit e) (a_id a) g).2 with
  | Some err => throw err
  | None => rollback_body e v a targetDeploymentID opts
  end.
End Entry.

(** ** Rows *)

Section RowFacts.
Implicit Types (l : list Deployment).

Lemma newer_total x y : newer x y = false → newer y x = true.
Proof.
  unfold newer. rewrite orb_false_iff, andb_false_iff, orb_true_iff, andb_true_iff, !Z.ltb_lt, Z.ltb_ge, !Z.eqb_eq, Z.eqb_neq.
  intros [? [?|Hl]]; [left; lia|]. apply string_leb_total in Hl.
  destruct (Z.eq_dec (dp_created_at y) (dp_created_at x)); [right; auto|left; lia].
Qed.

Lemma newer_trans x y z : newer x y = true → newer y z = true → newer x z = true.
Proof.
  unfold newer. rewrite !orb_true_iff, !andb_true_iff, !Z.ltb_lt, !Z.eqb_eq.
  intros [?|[? Hxy]] [?|[? Hyz]]; [left; lia..|]. right. split; [lia|]. by eapply string_leb_trans.
Qed.

(** The deployment [lastSuccess] picks: no other success of the app is newer. *)
Lemma last_success_pick appID ex l d :
  head (by_newest (List.filter (is_success appID ex) l)) = Some d →
  d ∈ l ∧ is_success appID ex d = true ∧ ∀ d', d' ∈ l → is_success appID ex d' = true → d' ≠ d → newer d d' = true.
Proof.
  intros Hh. destruct (sort_by_head _ newer_total newer_trans _ _ Hh) as [Hin Hall].
  apply elem_of_filter_b in Hin as [? ?]. split_and!; [done..|].
  intros d' ? ? ?. apply Hall; [|done]. by apply elem_of_filter_b.
Qed.
End RowFacts.

(** ** Rollback *)

Section RollbackFacts.
Context {D C : Type} `{DD : DockerDaemon D} `{CC : CaddyClient C} `{Fl : Floats} `{Nt : Nat} `{Uc : Unicode}.
Local Abbreviation World := (World D C).

(** What the returned row has in common with the one the run started with. *)
Definition same_run (d d' : Deployment) : Prop :=
  dp_image_tag d' = dp_image_tag d ∧ dp_rollback_of d' = dp_rollback_of d ∧ dp_app_id d' = dp_app_id d.

Lemma failDeploy_returns v a d cause : returns (same_run d) (failDeploy (D := D) (C := C) v a d cause).
Proof. unfold failDeploy. do 4 (apply returns_bind; intros ?). by apply returns_ret. Qed.

Lemma succeed_returns v a d : returns (same_run d) (succeed (C := C) (D := D) v a d (λ x, x)).
Proof. unfold succeed. do 3 (apply returns_bind; intros ?). by apply returns_ret. Qed.

Lemma runFromImage_returns e v a image rb pre :
  returns (λ x, dp_image_tag x.1 = Some image ∧ dp_rollback_of x.1 = Some rb ∧ dp_app_id x.1 = a_id a)
    (runFromImage (C := C) e v a image rb pre).
Proof.
  unfold runFromImage. cbv zeta. apply returns_bind. intros _.
  destruct (negb _); [apply returns_bind; intros _; apply returns_throw|]. apply returns_bind. intros _.
  apply returns_bind. intros [err|[]].
  - eapply returns_bind_with; [apply failDeploy_returns|]. intros d' Hd. by apply returns_ret.
  - eapply returns_bind_with; [apply succeed_returns|]. intros d' Hd. by apply returns_ret.
Qed.

(** A rollback runs only for a successful deployment of the same app that
    has an image: the one asked for, or else the newest success; the new row
    points at it and carries its image.  Asked for any other row, it fails and
    changes nothing. *)
Theorem rollback_target e v a target opts (w : World) fs :
  (∀ d o, (rollback_body e v a target opts w fs).2 = inr (d, o) → ∃ t image,
     t ∈ deployments (w_db w) ∧ dp_app_id t = a_id a ∧ dp_status t = "success" ∧
     dp_image_tag t = Some image ∧ image ≠ "" ∧
     (target ≠ "" → dp_id t = target) ∧
     (target = "" → ∀ t', t' ∈ deployments (w_db w) → dp_app_id t' = a_id a → dp_status t' = "success" → t' ≠ t →
        newer t t' = true) ∧
     dp_app_id d = a_id a ∧ dp_image_tag d = Some image ∧ dp_rollback_of d = Some (dp_id t)) ∧
  (target ≠ "" →
   (∀ t, sel (is_deployment target) (deployments (w_db w)) = Some t →
      dp_app_id t ≠ a_id a ∨ dp_status t ≠ "success" ∨ derefStr (dp_image_tag t) = "") →
   (rollback_body e v a target opts w fs).1.1 = w ∧ ∃ err, (rollback_body e v a target opts w fs).2 = inl err).
Proof.
  pose (good := λ t, t ∈ deployments (w_db w) ∧ dp_app_id t = a_id a ∧ dp_status t = "success" ∧
     (target ≠ "" → dp_id t = target ∧ sel (is_deployment target) (deployments (w_db w)) = Some t) ∧
     (target = "" → ∀ t', t' ∈ deployments (w_db w) → dp_app_id t' = a_id a → dp_status t' = "success" → t' ≠ t →
        newer t t' = true)).
  pose (bad := target ≠ "" ∧ ∀ t, sel (is_deployment target) (deployments (w_db w)) = Some t →
      dp_app_id t ≠ a_id a ∨ dp_status t ≠ "success" ∨ derefStr (dp_image_tag t) = "").
  enough (HW : wp (rollback_body e v a target opts) (λ w' r,
    (∀ d o, r = inr (d, o) → ∃ t image, good t ∧ dp_image_tag t = Some image ∧ image ≠ "" ∧
       dp_app_id d = a_id a ∧ dp_image_tag d = Some image ∧ dp_rollback_of d = Some (dp_id t)) ∧
    (bad → w' = w ∧ ∃ err, r = inl err)) w).
  { destruct (HW fs) as [H1 H2]. split; [|intros; by apply H2].
    intros d o E. destruct (H1 d o E) as (t & image & (? & ? & ? & Ht & ?) & ?). exists t, image.
    split_and!; tauto. }
  unfold rollback_body. apply wp_bind.
  apply (wp_mono _ (λ w' r, w' = w ∧ ∀ t, r = inr t → good t)).
  { destruct (target =s "") eqn:Et; simpl; bool_simp.
    - apply wp_bind, wp_attempt, wp_bind, wp_query; [by apply wp_throw|].
      destruct (head _) as [t|] eqn:Eh; [|by apply wp_throw, wp_throw]. apply wp_ret, wp_ret. split; [done|].
      intros ? [= <-]. apply last_success_pick in Eh as (Hin & Hs & Hall). unfold is_success in Hs, Hall.
      subst target. simpl in Hs. bool_simp. split_and!; [done..|].
      intros _ t' Hin' Ha' Hst' Hne. apply Hall; [done| |done]. rewrite Ha', Hst', !String.eqb_refl. done.
    - apply wp_bind, wp_bind, wp_query; [done|]. destruct (sel _ _) as [t|] eqn:Es; [|by apply wp_throw].
      apply wp_ret. destruct (negb (dp_app_id t =s a_id a)) eqn:E1; [by apply wp_throw|].
      destruct (negb (dp_status t =s "success")) eqn:E2; [by apply wp_throw|]. bool_simp. apply wp_ret.
      split; [done|]. intros ? [= <-]. pose proof (sel_Some _ _ _ Es) as [Hin Hid]. unfold is_deployment in Hid. bool_simp.
      by split_and!. }
  intros w1 [err|t] [-> Hg]; [split; [done|]; intros; eauto|]. specialize (Hg t eq_refl).
  destruct (derefStr (dp_image_tag t) =s "") eqn:Ei; bool_simp; [apply wp_throw; split; [done|]; eauto|].
  assert (Himg : dp_image_tag t = Some (derefStr (dp_image_tag t))) by by destruct (dp_image_tag t).
  set (image := derefStr (dp_image_tag t)) in *. clearbody image.
  assert (Hbad : ¬ bad).
  { intros [Hne Hb]. destruct Hg as (_ & Ha & Hs & Ht & _). destruct (Ht Hne) as [_ Hsel].
    destruct (Hb t Hsel) as [?|[?|Hi]]; [done..|]. rewrite Himg in Hi. done. }
  match goal with |- wp ?m _ _ => assert (Hret : returns (λ x : Deployment * option DeployErr,
    dp_image_tag x.1 = Some image ∧ dp_rollback_of x.1 = Some (dp_id t) ∧ dp_app_id x.1 = a_id a) m) end.
  { apply returns_bind. intros _. apply returns_bind. intros r.
    destruct (match r with inr DOk => false | _ => true end); [apply returns_throw|apply runFromImage_returns]. }
  eapply wp_mono; [apply Hret|]. intros w' r Hr. split; [|done]. intros d o E. exists t, image.
  destruct (Hr (d, o) E) as (? & ? & ?). by split_and!.
Qed.
End RollbackFacts.

(** ** A failed run, and the startup reconciliation *)

Section Effects.
Context {D C : Type} `{DD : DockerDaemon D} `{DL : !DockerLaws D} `{CC : CaddyClient C}.
Local Abbreviation World := (World D C).

Lemma SetStatus_run id st cur (w : World) :
  sel (is_app id) (apps (w_db w)) = Some cur → a_status cur ≠ "unreachable" ∨ st = "running" →
  SetStatus id st w [] = (set_wdb (on_apps (upd (is_app id) (set_app_status st)) (w_db w)) w, [], inr tt).
Proof.
  intros Hs Hst. unfold SetStatus, mbind, M_bind, bind, wquery, query, fallible. simpl. rewrite Hs.
  destruct (_ && _) eqn:E; [|done]. bool_simp. by destruct Hst.
Qed.

Lemma updateFields_run id f (w : World) : ∃ r, updateFields id f w [] =
  (set_wdb (on_deployments (upd (is_deployment id) f) (w_db w)) w, [], r).
Proof.
  unfold updateFields, mbind, M_bind, bind, fallible. simpl. destruct (_ =? 0)%nat; by eexists.
Qed.

(** The last success of the app other than [ex], if there is one. *)
Lemma lastSuccess_run appID ex (w : World) :
  lastSuccess appID ex w [] = (w, [],
    match head (by_newest (List.filter (is_success appID ex) (deployments (w_db w)))) with
    | Some d => inr d
    | None => inl ErrDeployNotFound
    end).
Proof.
  unfold lastSuccess, mbind, M_bind, bind, wquery, query, fallible. simpl.
  by destruct (head _).
Qed.

Lemma head_by_newest (p : Deployment → bool) l :
  match head (by_newest (List.filter p l)) with Some _ => true | None => false end = List.existsb p l.
Proof.
  destruct (List.existsb p l) eqn:E.
  - apply existsb_witness in E as (d & Hd & Hp).
    assert (d ∈ by_newest (List.filter p l)) as Hin by (apply sort_by_elem, elem_of_filter_b; done).
    destruct (by_newest _); [by apply not_elem_of_nil in Hin|done].
  - destruct (by_newest (List.filter p l)) as [|d t] eqn:Es; [done|]. exfalso.
    assert (d ∈ by_newest (List.filter p l)) as Hin by (rewrite Es; left).
    apply sort_by_elem, elem_of_filter_b in Hin as [Hin Hp]. by rewrite (existsb_false_elem _ _ _ E Hin) in Hp.
Qed.

(** A failed run, when nothing else fails, leaves its row [failed] with the
    cause and the time, the app [running] when it has an earlier success and in
    [error] otherwise, and every other row of both tables as it was. *)
Theorem fail_deploy_effect (v : RunEnv D) a d cause (w : World) :
  dp_id d ≠ "" → (∃ cur, sel (is_app (a_id a)) (apps (w_db w)) = Some cur ∧ a_status cur ≠ "unreachable") →
  let fail x := set_dp_error_message (Some (re_show v cause))
                  (set_dp_finished_at (Some (ev_now (re_env v))) (set_dp_status "failed" x)) in
  let before := List.existsb (λ x, (dp_app_id x =s a_id a) && (dp_status x =s "success") && negb (dp_id x =s dp_id d))
                  (deployments (w_db w)) in
  match run (failDeploy v a d cause) w with
  | (w', r) =>
    r = inr (fail d) ∧
    deployments (w_db w') = upd (is_deployment (dp_id d)) fail (deployments (w_db w)) ∧
    apps (w_db w') = upd (is_app (a_id a)) (set_app_status (if before then "running" else "error")) (apps (w_db w)) ∧
    domains (w_db w') = domains (w_db w) ∧ w_docker w' = w_docker w ∧ w_caddy w' = w_caddy w
  end.
Proof.
  intros Hid (cur & Hcur & Hst) fail before. unfold run, failDeploy. fold fail.
  unfold mbind at 1, M_bind at 1, bind at 1. unfold ignore at 1.
  destruct (updateFields_run (dp_id d) fail w) as [r0 ->].
  set (w1 := set_wdb _ w). unfold mbind at 1, M_bind at 1, bind at 1. unfold attempt. rewrite lastSuccess_run.
  set (prev := match head _ with Some x => inr x | None => inl ErrDeployNotFound end).
  assert (Hprev : (match prev with inr _ => "running" | inl _ => "error" end) = if before then "running" else "error").
  { unfold before, prev. pose proof (head_by_newest (is_success (a_id a) (dp_id d)) (deployments (w_db w1))) as Hh.
    assert (Heq : List.existsb (is_success (a_id a) (dp_id d)) (deployments (w_db w1)) = before).
    { unfold before, w1. simpl. apply String.eqb_neq in Hid. revert Hid. clear. intros Hid.
      induction (deployments (w_db w)) as [|x l IH]; [done|]. simpl. rewrite IH. f_equal.
      unfold is_success, is_deployment. rewrite Hid. simpl.
      destruct (dp_id x =s dp_id d) eqn:E; simpl; rewrite E; simpl; by rewrite ?andb_false_r. }
    unfold before in Heq. rewrite <- Heq, <- Hh. by destruct (head _). }
  rewrite Hprev. unfold mbind at 1, M_bind at 1, bind at 1. unfold ignore.
  assert (Hsel : sel (is_app (a_id a)) (apps (w_db w1)) = Some cur) by done.
  rewrite (SetStatus_run _ _ cur) by auto. simpl. by split_and!.
Qed.

Definition busy (a : App) : bool := (a_status a =s "building") || (a_status a =s "deploying").
Definition settled_status (st : string) : Prop := st ∈ ["running"; "stopped"; "error"].

Lemma inspect_run v server container (w : World) : ∃ w' st,
  inspectAppContainer v server container w [] = (w', [], inr st) ∧ settled_status st ∧
  w_db w' = w_db w ∧ w_caddy w' = w_caddy w ∧ ps (w_docker w') = ps (w_docker w).
Proof.
  unfold inspectAppContainer, mbind at 1, M_bind at 1, bind at 1. unfold attempt.
  assert (Hp : ∃ r, Provider (re_provider v) server w [] = (w, [], r)).
  { unfold Provider, Servers_Get, mbind, M_bind, bind, wquery, query, fallible. simpl.
    destruct (sel _ _); [|by eexists]. destruct (re_provider v server); by eexists. }
  destruct Hp as [[err|[]] ->]; [exists w, "error"; split_and!; [done|set_solver|done..]|].
  unfold mbind, M_bind, bind, docker, call. simpl.
  pose proof (inspect_ps container (w_docker w)) as Hps.
  destruct (ContainerInspect container (w_docker w)) as [d' [[] b]]; simpl in *;
    eexists _, _; split_and!; try reflexivity; try done; try (by destruct b; set_solver); set_solver.
Qed.

(** One app: its status is settled if it was busy, nothing else changes. *)
Lemma reconcile_app_run v a (w : World) :
  sel (is_app (a_id a)) (apps (w_db w)) = Some a → ∃ w' st,
  reconcile_app v a w [] = (w', [], inr tt) ∧ settled_status st ∧
  apps (w_db w') = (if busy a then upd (is_app (a_id a)) (set_app_status st) (apps (w_db w)) else apps (w_db w)) ∧
  deployments (w_db w') = deployments (w_db w) ∧ w_caddy w' = w_caddy w ∧ ps (w_docker w') = ps (w_docker w).
Proof.
  intros Hs. unfold reconcile_app. fold (busy a). destruct (busy a) eqn:Hb; simpl.
  2: { exists w, "error". split_and!; [done|set_solver|done..]. }
  assert (Hun : a_status a ≠ "unreachable").
  { intros E. unfold busy in Hb. by rewrite E in Hb. }
  assert (Herr : ∃ w' st, ignore (SetStatus (D := D) (C := C) (a_id a) "error") w [] = (w', [], inr tt) ∧ settled_status st ∧
    apps (w_db w') = upd (is_app (a_id a)) (set_app_status st) (apps (w_db w)) ∧
    deployments (w_db w') = deployments (w_db w) ∧ w_caddy w' = w_caddy w ∧ ps (w_docker w') = ps (w_docker w)).
  { unfold ignore. rewrite (SetStatus_run _ _ a) by auto. eexists _, "error". split_and!; try reflexivity. set_solver. }
  destruct (a_server_id a) as [server|]; [|exact Herr]. destruct (a_container_name a) as [container|]; [|exact Herr].
  unfold mbind, M_bind, bind. destruct (inspect_run v server container w) as (w1 & st & -> & Hst & Hdb & Hc & Hp).
  unfold ignore. rewrite (SetStatus_run _ _ a) by (rewrite ?Hdb; auto).
  eexists _, st. split_and!; try reflexivity; try done; simpl; by rewrite Hdb.
Qed.

Lemma reconcile_all_run v l (w : World) :
  NoDup (a_id <$> apps (w_db w)) → NoDup l → (∀ a, a ∈ l → a ∈ apps (w_db w)) →
  (∀ a, a ∈ apps (w_db w) → busy a = true → a ∈ l) → ∃ w',
  each (reconcile_app v) l w [] = (w', [], inr tt) ∧
  (∀ a, a ∈ apps (w_db w') → busy a = false) ∧ a_id <$> apps (w_db w') = a_id <$> apps (w_db w) ∧
  (∀ a, a ∈ apps (w_db w) → busy a = false → a ∈ apps (w_db w')) ∧
  deployments (w_db w') = deployments (w_db w) ∧ w_caddy w' = w_caddy w ∧ ps (w_docker w') = ps (w_docker w).
Proof.
  revert w. induction l as [|a l IH]; intros w Hids Hnd Hin Hbusy; simpl.
  - exists w. split_and!; try done. intros a Ha. apply not_true_iff_false. intros Hb.
    by apply Hbusy, not_elem_of_nil in Hb.
  - rewrite list.NoDup_cons in Hnd. destruct Hnd as [Ha Hnd].
    assert (Haw : a ∈ apps (w_db w)) by (apply Hin; left).
    assert (Hsel : sel (is_app (a_id a)) (apps (w_db w)) = Some a).
    { apply (sel_key a_id); [|done|done]. intros r. unfold is_app. apply String.eqb_eq. }
    destruct (reconcile_app_run v a w Hsel) as (w1 & st & E1 & Hst & Hap & Hdp & Hc & Hp).
    unfold bind. rewrite E1.
    assert (Hid1 : a_id <$> apps (w_db w1) = a_id <$> apps (w_db w)).
    { rewrite Hap. destruct (busy a); [|done]. by apply (map_upd a_id). }
    assert (Hsame : ∀ x, x ∈ apps (w_db w) → x ≠ a → x ∈ apps (w_db w1)).
    { intros x Hx Hne. rewrite Hap. destruct (busy a); [|done]. apply elem_of_upd. exists x. split; [done|].
      destruct (is_app (a_id a) x) eqn:E; [|done]. unfold is_app in E. bool_simp. destruct Hne.
      by apply (NoDup_fmap_inj a_id (apps (w_db w))). }
    destruct (IH w1) as (w2 & E2 & Hnb & Hid2 & Hkeep & Hdp2 & Hc2 & Hp2).
    + by rewrite Hid1.
    + done.
    + intros x Hx. apply Hsame; [apply Hin; by right|]. by intros ->.
    + intros x Hx Hb. rewrite Hap in Hx. destruct (busy a) eqn:Hba.
      * apply elem_of_upd in Hx as (x0 & Hx0 & ->). destruct (is_app (a_id a) x0) eqn:E.
        -- exfalso. unfold busy in Hb. simpl in Hb. unfold settled_status in Hst.
           rewrite !elem_of_cons, elem_of_nil in Hst. by destruct Hst as [->|[->|[->|[]]]].
        -- apply Hbusy in Hb as [->|?]%elem_of_cons; [|done|done]. unfold is_app in E. by rewrite String.eqb_refl in E.
      * apply Hbusy in Hb as Hb'; [|done]. apply elem_of_cons in Hb' as [->|?]; [congruence|done].
    + exists w2. rewrite E2. split_and!; [done|done|by rewrite Hid2| |by rewrite Hdp2|by rewrite Hc2|by rewrite Hp2].
      intros x Hx Hb. apply Hkeep; [|done]. destruct (busy a) eqn:Hba; [|by rewrite Hap].
      apply Hsame; [done|]. intros ->. congruence.
Qed.

(** After a startup without faults no deployment is in flight and no app is
    being built or deployed; deployments that had ended and apps that were idle
    are as they were, and neither containers nor routes are touched. *)
Theorem reconcile_effect (v : RunEnv D) (w : World) :
  NoDup (a_id <$> apps (w_db w)) →
  match run (Reconcile v) w with
  | (w', r) =>
    r = inr tt ∧
    deployments (w_db w') = upd in_flight (λ d, set_dp_finished_at (Some (ev_now (re_env v))) (set_dp_status "failed" d))
                              (deployments (w_db w)) ∧
    (∀ d, d ∈ deployments (w_db w') → in_flight d = false) ∧
    (∀ a, a ∈ apps (w_db w') → busy a = false) ∧ a_id <$> apps (w_db w') = a_id <$> apps (w_db w) ∧
    (∀ a, a ∈ apps (w_db w) → busy a = false → a ∈ apps (w_db w')) ∧
    w_caddy w' = w_caddy w ∧ ps (w_docker w') = ps (w_docker w)
  end.
Proof.
  intros Hids. unfold run, Reconcile, mbind, M_bind. unfold bind at 1. unfold ListAll, wquery, query, fallible. simpl.
  unfold bind at 1, ignore, failPending, wexec, exec, fallible. simpl.
  set (w1 := set_wdb _ w).
  destruct (reconcile_all_run v (apps (w_db w)) w1) as (w2 & -> & Hnb & Hid & Hkeep & Hdp & Hc & Hp); try done.
  { by apply NoDup_fmap_1 in Hids. }
  split_and!; try done. intros d Hd. rewrite Hdp in Hd. unfold w1 in Hd. simpl in Hd.
  apply elem_of_upd in Hd as (d0 & _ & ->). destruct (in_flight d0) eqn:E; [done|exact E].
Qed.
End Effects.

(** ** Pruning images *)

(** Pruning removes only images of the app's prefix, one reference per
    image, and keeps the [keep] newest of them: no removed image is newer than
    a kept one. *)
Theorem prune_spec (keep : nat) (name : string) (imgs : list (list string * Z)) :
  let mine := app_images name imgs in
  ∃ kept, Permutation (kept ++ skipn keep (newest_first mine)) mine ∧
    pruned keep name imgs = (skipn keep (newest_first mine)).*1 ∧
    length kept = Nat.min keep (length mine) ∧
    (∀ k r, k ∈ kept → r ∈ skipn keep (newest_first mine) → (r.2 <= k.2)%Z) ∧
    (∀ t, t ∈ pruned keep name imgs →
       HasPrefix t ("prexel-" ^^ name ^^ "-") = true ∧ ∃ i, i ∈ imgs ∧ t ∈ i.1).
Proof.
  intros mine. exists (firstn keep (newest_first mine)).
  assert (Hperm : Permutation (newest_first mine) mine) by apply sort_by_perm. split_and!.
  - by rewrite take_drop.
  - unfold pruned. fold mine. by rewrite fmap_drop.
  - rewrite length_take. by rewrite Hperm.
  - assert (Hs : StronglySorted (λ x y : string * Z, (y.2 <=? x.2)%Z = true) (newest_first mine)).
    { apply (sort_by_strongly (λ x y : string * Z, (y.2 <=? x.2)%Z)); intros x y; [|intros z]; rewrite ?Z.leb_gt, ?Z.leb_le; lia. }
    revert Hs. generalize (newest_first mine). clear. induction keep as [|keep IH]; intros l Hs k r Hk Hr; [by apply not_elem_of_nil in Hk|].
    destruct l as [|x l]; [by apply not_elem_of_nil in Hk|]. simpl in Hk, Hr. inversion_clear Hs as [|? ? Hl Hall].
    apply elem_of_cons in Hk as [->|Hk]; [|by apply (IH l)].
    rewrite List.Forall_forall in Hall. apply Z.leb_le, Hall, list_elem_of_In.
    rewrite <- (take_drop keep l). apply elem_of_app. by right.
  - intros t Ht. unfold pruned in Ht. fold mine in Ht.
    assert (t ∈ mine.*1) as Hm.
    { rewrite <- Hperm. rewrite <- (take_drop keep (newest_first mine).*1). apply elem_of_app. by right. }
    apply list_elem_of_fmap in Hm as (p & -> & Hp). unfold mine, app_images in Hp.
    apply list_elem_of_omap in Hp as (i & Hi & E). destruct (List.find _ _) as [t|] eqn:Ef; [|done]. simplify_eq/=.
    apply List.find_some in Ef as [Hin Hpre]. split; [done|]. exists i. split; [done|]. by apply list_elem_of_In.
Qed.

(** ** Witnesses *)

Definition wd_config (name image : string) : Config :=
  mkConfig name image [] ∅ ∅ PrexelNetwork [name] [] "unless-stopped" (mkResources 0 0 0 0 None "" 0) [].
Definition wd_app : App :=
  bare_app "a" "web" (Some "s") (Some "web") true.
Definition wd_db : Db :=
  on_servers (λ _, [mkServer "s" "local" "local" None 22 None None None "connected" None None 0]) (on_apps (λ _, [wd_app])
    (on_domains (λ _, [w_dom "d0" "example.com" "active" true]) empty_db)).
Definition wd_world : World (list Container) (gmap string Route) :=
  mkWorld wd_db [mkContainer "1" "web" (wd_config "web" "prexel-web-aaa:1") true]
    {["example.com" := mkRoute "web" 8080 true]} [] [].
Definition wd_engine : Engine := mkEngine true true true None "/logs".
Definition wd_run : RunEnv (list Container) :=
  mkRunEnv (mkEnv (λ _, Some ∅) [(10, None); (15, Some 200)]%Z (λ _, true) 0 "dep-1" "abcdef0") true (λ _, true) true
    (λ _ _ d, (d, Some (mkBuildResult "prexel-web-bbb:2" "bbb" None))) (λ _, "failed").
Definition wd_opts : DeployOptions := mkDeployOptions "" "" "" "".

(** The deployment through the client of internal/caddy, over a Caddy that
    serves the host from the old container. *)
#[local] Existing Instances Caddy.no_sha Caddy.mem_laws.
Definition wd_caddy : Mem := mkMem true (Some [makeRoute "example.com" "web" 8080]) [].
Definition wd_world_caddy : World (list Container) Mem := mkWorld wd_db (w_docker wd_world) wd_caddy [] [].

Lemma wd_caddy_steady : steady wd_caddy.
Proof.
  split; [|apply mem_obeys]. apply (kept_put (routeID "example.com") (makeRoute "example.com" "web" 8080) []).
  - exact kept_nil.
  - apply own_route.
  - unfold put; reflexivity.
Qed.

Lemma zero_downtime_witness :
  let w' := (runDeploy (Fl := z_floats) (Nt := any_port) (Uc := ascii_only) wd_engine wd_run wd_app wd_opts "" wd_world_caddy []).1.1 in
  (∀ d c, (d, c) ∈ w_log w' → Serving ["example.com"] c d) ∧ length (w_log w') = 13 ∧
  (λ c, (c_name c, cf_Image (c_config c), c_running c)) <$> w_docker w' = [("web", "prexel-web-bbb:2", true)] ∧
  entry (mem_rts (w_caddy w')) "example.com" = Some (mkRoute "web" 8080 true).
Proof.
  intros w'.
  destruct (zero_downtime (Fl := z_floats) (Nt := any_port) (Uc := ascii_only) wd_engine wd_run wd_app wd_opts "" wd_world_caddy []
    eq_refl wd_caddy_steady) as [Hd _].
  - split; [intros Hin; apply list_elem_of_singleton in Hin; discriminate|].
    by intros h h' ->%list_elem_of_singleton ->%list_elem_of_singleton.
  - intros s. discriminate.
  - done.
  - intros h ->%list_elem_of_singleton. eexists (mkRoute "web" 8080 true), _. split; [vm_compute; reflexivity|].
    split; [left|]. split; [reflexivity|]. intros s. discriminate.
  - reflexivity.
  - split; [|split; [|split]; vm_compute; reflexivity]. apply Hd. discriminate.
Defined.

(** Two requests are running, a third app is refused, one run ends. *)
Lemma admission_control_witness :
  let g1 := (enter (Some 2%Z) "a" idle).1 in let g2 := (enter (Some 5%Z) "b" g1).1 in
  admission true g2 ["b"; "a"] ∧ (enter (Some 5%Z) "c" g2).2 = Some ErrTooManyDeploys.
Proof.
  intros g1 g2.
  assert (Hadm : admission true g2 ["b"; "a"]).
  { apply (adm_enter true g1 ["a"] (Some 5%Z) "b"); [|reflexivity|reflexivity].
    apply (adm_enter true idle [] (Some 2%Z) "a"); [constructor|reflexivity|reflexivity]. }
  split; [exact Hadm|].
  destruct (admission_control true g2 ["b"; "a"] (Some 5%Z) "c" Hadm eq_refl) as (_ & _ & ->). reflexivity.
Defined.

Definition wd_row (id status : string) : Deployment :=
  mkDeployment id "a" None None None (Some "prexel-web-aaa:1") None status None None None None 0.
Definition wd_crashed : World (list Container) (gmap string Route) :=
  set_wdb (on_apps (λ _, [set_app_status "deploying" wd_app])
    (on_deployments (λ _, [wd_row "dep-0" "success"; wd_row "dep-1" "building"]) wd_db)) wd_world.

Lemma fail_deploy_effect_witness :
  let w' := (run (failDeploy wd_run wd_app (wd_row "dep-1" "building") (ErrDeploy "build")) wd_crashed).1 in
  List.map dp_status (deployments (w_db w')) = ["success"; "failed"] ∧ List.map a_status (apps (w_db w')) = ["running"].
Proof.
  intros w'. pose proof (fail_deploy_effect wd_run wd_app (wd_row "dep-1" "building") (ErrDeploy "build") wd_crashed) as H.
  unfold w'. destruct (run _ _) as [w2 r].
  destruct H as (_ & Hd & Ha & _); [done|eexists; split; [reflexivity|done]|]. simpl.
  rewrite Hd, Ha. split; reflexivity.
Defined.

Lemma reconcile_effect_witness :
  let w' := (run (Reconcile wd_run) wd_crashed).1 in
  List.map dp_status (deployments (w_db w')) = ["success"; "failed"] ∧
  (∀ a, a ∈ apps (w_db w') → busy a = false) ∧ length (apps (w_db w')) = 1.
Proof.
  intros w'. pose proof (reconcile_effect wd_run wd_crashed) as H. unfold w'. destruct (run _ _) as [w2 r].
  destruct H as (_ & Hd & _ & Hb & Hid & _); [apply NoDup_singleton|]. simpl.
  rewrite Hd. split; [reflexivity|]. split; [exact Hb|]. apply (f_equal length) in Hid. by rewrite !length_fmap in Hid.
Defined.

Lemma failed_candidate_harmless_witness :
  let v := mkEnv (λ _, Some ∅) [(10, Some 500); (90, Some 200)]%Z (λ _, true) 0 "dep-1" "abcdef0" in
  let r := swap (Fl := z_floats) (Nt := any_port) (Uc := ascii_only) wd_engine v wd_app "prexel-web-bbb:2" "dep-1" wd_world [] in
  w_caddy r.1.1 = w_caddy wd_world ∧ others ["web-deploying-bbb"] (w_docker r.1.1) = w_docker wd_world.
Proof.
  intros v r.
  destruct (failed_candidate_harmless (Fl := z_floats) (Nt := any_port) (Uc := ascii_only) wd_engine v wd_app
    "prexel-web-bbb:2" "dep-1" wd_world []) as (_ & Hc & Ho).
  - intros Hin. simpl in Hin. apply list_elem_of_singleton in Hin. discriminate.
  - reflexivity.
  - split; [exact Hc|]. exact (eq_trans Ho eq_refl).
Defined.
