(* ===== verification/Servers.v ===== *)
(** * Servers

    The hosts that run containers (internal/server): registration of the local
    engine and of remote hosts, the connection test with its host-key pinning
    (internal/ssh), the version floor of the engine (dockersvc/helpers.go:
    Version) and the status loop that marks the apps of a lost server.  The
    texts of the checks in a report are left out; their names and verdicts are
    kept. *)

From S2P Require Import Prelude Effects GoStrings Decimal Schema Cipher Apps.
From stdpp Require Import gmap.

(** ** Engine versions (dockersvc/helpers.go) *)

Definition minSupportedDockerVersion : string := "20.10".
Definition max_int64 : Z := 9223372036854775807.

(** [strconv.Atoi] on a string of digits. *)
Definition Atoi_digits (l : list ascii) : option Z := if (num l <=? max_int64)%Z then Some (num l) else None.

Fixpoint lead_digits (l : list ascii) : list ascii :=
  match l with [] => [] | c :: l => if is_digit c then c :: lead_digits l else [] end.

Fixpoint parse_parts (parts : list string) : list Z :=
  match parts with
  | [] => []
  | p :: parts =>
    let l := String.list_ascii_of_string p in
    let d := lead_digits l in
    if is_nil d then []
    else match Atoi_digits d with
         | None => []
         | Some n => n :: (if (length d <? length l)%nat then [] else parse_parts parts)
         end
  end.
Definition parseDottedVersion (s : string) : list Z := parse_parts (Split s ".").

Fixpoint at_least (gp wp : list Z) : bool :=
  match wp with
  | [] => true
  | w :: wp =>
    let g := default 0%Z (head gp) in
    if (w <? g)%Z then true else if (g <? w)%Z then false else at_least (tail gp) wp
  end.
Definition versionAtLeast (got want : string) : bool := at_least (parseDottedVersion got) (parseDottedVersion want).

(** [Version]: what the engine reported ("" when it did not answer) and
    whether the call succeeded. *)
Definition Version (answer : option string) : string * bool :=
  match answer with
  | None => ("", false)
  | Some v => (v, versionAtLeast v minSupportedDockerVersion)
  end.

(** *** The version floor *)

Lemma Itoa_nonempty n : (0 <= n)%Z → String.list_ascii_of_string (Itoa n) ≠ [].
Proof.
  intros Hn. unfold Itoa. rewrite (proj2 (Z.ltb_ge n 0)) by lia.
  pose proof (itoa_fuel_nonempty 19 n "") as Hne. by destruct (itoa_fuel 20 n "").
Qed.

Lemma lead_digits_app l r : Forall (λ c, is_digit c = true) l → lead_digits (l ++ r) = l ++ lead_digits r.
Proof. induction 1 as [|c l Hc _ IH]; [done|]. simpl. by rewrite Hc, IH. Qed.

(** What follows the digits of a field is empty or starts with another byte. *)
Definition ends_number (s : string) : Prop := ∀ c t, s = String c t → is_digit c = false.

Lemma parse_number n r parts : (0 <= n <= max_int64)%Z → ends_number r →
  parse_parts ((Itoa n ^^ r) :: parts) = n :: (if r =s "" then parse_parts parts else []).
Proof.
  intros Hn Hr. assert (Hn' : (0 <= n < 10 ^ 20)%Z) by (unfold max_int64 in Hn; lia). destruct (Itoa_spec n Hn') as [Hd Hv].
  pose proof (Itoa_nonempty n (proj1 Hn)) as Hne. cbn [parse_parts]. cbv zeta. rewrite list_of_app, lead_digits_app by done.
  assert (lead_digits (String.list_ascii_of_string r) = []) as -> by (destruct r as [|c r]; [done|]; cbn [String.list_ascii_of_string lead_digits]; by rewrite (Hr c r eq_refl)).
  rewrite app_nil_r. destruct (String.list_ascii_of_string (Itoa n)) as [|x l] eqn:E; [done|]. cbn [is_nil]. unfold Atoi_digits.
  rewrite Hv, (proj2 (Z.leb_le n max_int64)) by lia. f_equal. rewrite length_app. destruct r as [|c r]; simpl length.
  - by rewrite Nat.add_0_r, Nat.ltb_irrefl.
  - by rewrite (proj2 (Nat.ltb_lt _ _)) by (simpl; lia).
Qed.

Lemma Itoa_no_dot n : (0 <= n <= max_int64)%Z → all_bytes (λ z, negb (z =? byte ".")%Z) (Itoa n) = true.
Proof.
  intros Hn. destruct (Itoa_spec n) as [Hd _]; [unfold max_int64 in Hn; lia|]. unfold all_bytes. apply List.forallb_forall. intros c Hc.
  rewrite list.Forall_forall in Hd. specialize (Hd c (proj2 (list_elem_of_In _ _) Hc)). unfold is_digit in Hd. apply in_range_spec in Hd.
  apply negb_true_iff, Z.eqb_neq. change (byte ".") with 46%Z. lia.
Qed.

(** An engine is accepted exactly from version 20.10 on, whatever follows
    the minor number. *)
Theorem version_floor a b rest : (0 <= a <= max_int64)%Z → (0 <= b <= max_int64)%Z → ends_number rest →
  versionAtLeast (Itoa a ^^ "." ^^ Itoa b ^^ rest) minSupportedDockerVersion = ((20 <? a) || (a =? 20) && (10 <=? b))%Z.
Proof.
  intros Ha Hb Hr. unfold versionAtLeast, parseDottedVersion at 1, Split.
  change (Itoa a ^^ "." ^^ Itoa b ^^ rest) with (Itoa a ^^ String "." (Itoa b ^^ rest)).
  rewrite split_from_app by (by apply Itoa_no_dot). rewrite string_nil_app. unfold Split.
  destruct (split_from_head "." "" (Itoa b) rest) as (r & l & -> & Hrr); [by apply Itoa_no_dot|]. rewrite string_nil_app.
  rewrite <- (string_app_nil (Itoa a)), parse_number by (done || by intros ? ?). cbn [String.eqb].
  assert (Her : ends_number r).
  { destruct Hrr as [->|(c & t & r' & -> & ->)]; [by intros ? ?|]. intros c' t' [= <- <-]. by apply (Hr c t). }
  rewrite parse_number by done. change (parseDottedVersion minSupportedDockerVersion) with [20; 10]%Z. cbn [at_least head tail from_option id].
  destruct (Z.ltb_spec 20 a); [done|]. destruct (Z.ltb_spec a 20); simpl.
  - assert ((a =? 20)%Z = false) as -> by (apply Z.eqb_neq; lia). done.
  - assert ((a =? 20)%Z = true) as -> by (apply Z.eqb_eq; lia). simpl.
    destruct (Z.ltb_spec 10 b), (Z.ltb_spec b 10), (Z.leb_spec 10 b); done || lia.
Qed.

(** ** SSH (internal/ssh) *)

(** golang.org/x/crypto/ssh: parsing of private keys, public keys as lines of
    authorized_keys. *)
Class SshLib := {
  Signer : Type;
  ParsePrivateKey : string → option Signer;
  MarshalAuthorizedKey : Signer → string;
}.

Section Ssh.
Context `{SshLib}.

Definition ParseKey (data : string) : option Signer := if data =s "" then None else ParsePrivateKey data.

Definition PublicKeyToAuthorizedKey (s : Signer) : string :=
  TrimSuffix (MarshalAuthorizedKey s) (String (of_byte 10) "").

(** How the engine of a server is reached. *)
Inductive Target := Local (name : string) | Remote (name host : string) (port : Z) (user pem : string).

(** The network during a call: name service, TCP, the fingerprint of the key
    that answers at an address, whether it accepts the user's key, the engine's
    answers to [Info] and [ServerVersion], temporary files. *)
Record Net := mkNet {
  nt_LookupHost : string → bool;
  nt_Dial : string → bool;
  nt_host_key : string → option string;
  nt_accepts : string → string → Signer → bool;
  nt_Info : Target → bool;
  nt_Version : Target → option string;
  nt_temp_file : bool;
}.

(** [net.JoinHostPort]. *)
Definition JoinHostPort (host port : string) : string :=
  if Contains host ":" then "[" ^^ host ^^ "]:" ^^ port else host ^^ ":" ^^ port.

Definition NewLocalProvider (name : string) : Target := Local (if name =s "" then "local" else name).

Definition NewRemoteProvider (net : Net) (name host : string) (port : Z) (user pem : string) : option Target :=
  if name =s "" then None
  else if host =s "" then None
  else if user =s "" then None
  else if pem =s "" then None
  else if nt_temp_file net then Some (Remote name host (if (port <=? 0)%Z then 22 else port) user pem) else None.
End Ssh.

(** ** The repository *)

Inductive SrvErr :=
  | ErrSrvNotFound
  | ErrLocalAlreadyExists
  | ErrHasApps (n : nat)
  | ErrSrvName
  | ErrSrvInvalid (code : string)
  | ErrSrvDocker (where_ : string)
  | ErrSrvCipher (e : CipherErr)
  | ErrSrvDb (where_ : string).

Local Abbreviation sM := (M Db SrvErr).

Definition srv_is (id : string) (s : Server) : bool := sv_id s =s id.
Definition is_local (s : Server) : bool := sv_type s =s "local".

Definition countLocal : sM nat := query (ErrSrvDb "count local") (λ d, cnt is_local (servers d)).

(** UNIQUE ids and names, CHECK on the type. *)
Definition insert (s : Server) : sM unit :=
  checked (ErrSrvDb "insert") (λ d,
    if List.existsb (λ x, srv_is (sv_id s) x || (sv_name x =s sv_name s)) (servers d) then inl ErrSrvName
    else if (sv_type s =s "local") || (sv_type s =s "remote") then inr (on_servers (λ l, l ++ [s]) d, tt)
    else inl (ErrSrvDb "insert")).

(** [ORDER BY created_at ASC]. *)
Definition created_le (s t : Server) : bool := (sv_created_at s <=? sv_created_at t)%Z.
Definition list_servers : sM (list Server) := query (ErrSrvDb "list") (λ d, sort_by created_le (servers d)).

Definition get (id : string) : sM Server :=
  row ← query (ErrSrvDb "get") (λ d, sel (srv_is id) (servers d));
  match row with None => throw ErrSrvNotFound | Some s => mret s end.

(** The blob, empty for NULL. *)
Definition getPrivateKey (id : string) : sM string :=
  row ← query (ErrSrvDb "private key") (λ d, sel (srv_is id) (servers d));
  match row with None => throw ErrSrvNotFound | Some s => mret (default "" (sv_private_key s)) end.

Record Patch := mkSrvPatch { pa_Name : option string; pa_Host : option string; pa_Port : option Z; pa_User : option string }.

Definition no_patch (p : Patch) : bool :=
  is_none (pa_Name p) && is_none (pa_Host p) && is_none (pa_Port p) && is_none (pa_User p).
Definition apply_patch (p : Patch) (s : Server) : Server :=
  mkServer (sv_id s) (default (sv_name s) (pa_Name p)) (sv_type s)
    (match pa_Host p with Some h => Some h | None => sv_host s end) (default (sv_port s) (pa_Port p))
    (match pa_User p with Some u => Some u | None => sv_user s end) (sv_private_key s) (sv_host_key_fingerprint s)
    (sv_status s) (sv_docker_version s) (sv_last_checked_at s) (sv_created_at s).

Definition updatePatch (id : string) (p : Patch) : sM Server :=
  if no_patch p then get id
  else
    n ← checked (ErrSrvDb "update") (λ d,
          if List.existsb (λ x, srv_is id x && List.existsb (λ y, negb (srv_is id y) && (sv_name y =s sv_name (apply_patch p x)))
               (servers d)) (servers d)
          then inl ErrSrvName
          else inr (on_servers (upd (srv_is id) (apply_patch p)) d, cnt (srv_is id) (servers d)));
    if (n =? 0)%nat then throw ErrSrvNotFound else get id.

Definition on_server (id : string) (a : App) : bool := bool_decide (a_server_id a = Some id).

(** The reference of [apps] guards the DELETE too. *)
Definition delete (id : string) : sM unit :=
  n ← query (ErrSrvDb "count apps") (λ d, cnt (on_server id) (apps d));
  if (0 <? n)%nat then throw (ErrHasApps n)
  else
    k ← checked (ErrSrvDb "delete") (λ d,
          if List.existsb (on_server id) (apps d) then inl (ErrSrvDb "delete")
          else inr (on_servers (del (srv_is id)) d, cnt (srv_is id) (servers d)));
    if (k =? 0)%nat then throw ErrSrvNotFound else mret tt.

Definition set_srv_status (status : string) (ver : option string) (now : Z) (s : Server) : Server :=
  mkServer (sv_id s) (sv_name s) (sv_type s) (sv_host s) (sv_port s) (sv_user s) (sv_private_key s)
    (sv_host_key_fingerprint s) status ver (Some now) (sv_created_at s).
Definition updateStatus (now : Z) (id status : string) (ver : option string) : sM unit :=
  exec (ErrSrvDb "update status") (on_servers (upd (srv_is id) (set_srv_status status ver now))).

Definition set_host_key (fp : string) (s : Server) : Server :=
  mkServer (sv_id s) (sv_name s) (sv_type s) (sv_host s) (sv_port s) (sv_user s) (sv_private_key s)
    (Some fp) (sv_status s) (sv_docker_version s) (sv_last_checked_at s) (sv_created_at s).
Definition updateHostKey (id fp : string) : sM unit :=
  exec (ErrSrvDb "update host key") (on_servers (upd (srv_is id) (set_host_key fp))).

Definition markAppsUnreachable (id : string) : sM unit :=
  exec (ErrSrvDb "mark apps") (on_apps (upd (λ a, on_server id a && negb (a_status a =s "unreachable"))
    (set_app_status "unreachable"))).

(** ** The service *)

Record CreateInput := mkSrvInput {
  si_Type : string; si_Name : string; si_Host : string; si_Port : Z; si_User : string;
  si_GenerateKey : bool; si_PrivateKey : string;
}.

(** One check of a report: its name and verdict. *)
Record Check := mkCheck { ck_Name : string; ck_OK : bool }.
Record TestReport := mkReport { rp_ServerID : string; rp_Type : string; rp_Status : string; rp_Checks : list Check }.

Inductive SshRes := SshOk | SshHostKeyMismatch | SshFailed.

Definition strPtrOrNil (s : string) : option string := if s =s "" then None else Some s.

Section Service.
Context `{AeadLib} `{SshLib} (cipher : Cipher).

Definition createLocal (net : Net) (id : string) (now : Z) (name : string) : sM Server :=
  n ← countLocal;
  if (0 <? n)%nat then throw ErrLocalAlreadyExists
  else
    let p := NewLocalProvider name in
    if negb (nt_Info net p) then throw (ErrSrvDocker "info")
    else
      let '(v, ok) := Version (nt_Version net p) in
      if negb ok then throw (ErrSrvDocker "version")
      else
        _ ← insert (mkServer id name "local" None 22 None None None "connected" (Some v) (Some now) now);
        get id.

(** [gen]: the key pair [GenerateEd25519] returns, if it does. *)
Definition key_pair (gen : option (string * string)) (inp : CreateInput) : SrvErr + string * string :=
  if si_GenerateKey inp then
    match gen with None => inl (ErrSrvInvalid "generate key") | Some (pem, pub) => inr (pem, TrimSpace pub) end
  else if negb (si_PrivateKey inp =s "") then
    match ParseKey (si_PrivateKey inp) with
    | None => inl (ErrSrvInvalid "invalid_private_key")
    | Some signer => inr (si_PrivateKey inp, PublicKeyToAuthorizedKey signer)
    end
  else inl (ErrSrvInvalid "missing_key").

Definition valid_remote (inp : CreateInput) : SrvErr + string * string * Z :=
  let host := TrimSpace (si_Host inp) in
  let user := TrimSpace (si_User inp) in
  let port := (if si_Port inp =? 0 then 22 else si_Port inp)%Z in
  if (host =s "") || (user =s "") then inl (ErrSrvInvalid "missing_fields")
  else if (port <? 1)%Z || (65535 <? port)%Z then inl (ErrSrvInvalid "invalid_port")
  else inr (host, user, port).

(** The row and the public key. *)
Definition createRemote (gen : option (string * string)) (nonce : option string) (id : string) (now : Z)
    (name : string) (inp : CreateInput) : sM (Server * string) :=
  a ← of_result (valid_remote inp);
  let '(host, user, port) := a in
  k ← of_result (key_pair gen inp);
  let '(pem, pub) := k in
  enc ← of_result (match Encrypt cipher nonce pem with inl e => inl (ErrSrvCipher e) | inr enc => inr enc end);
  _ ← insert (mkServer id name "remote" (Some host) port (Some user) (strPtrOrNil enc) None "unknown" None None now);
  got ← get id;
  mret (got, pub).

Definition Create (net : Net) (gen : option (string * string)) (nonce : option string) (id : string) (now : Z)
    (inp : CreateInput) : sM (Server * string) :=
  let name := TrimSpace (si_Name inp) in
  if name =s "" then throw (ErrSrvInvalid "missing_name")
  else if si_Type inp =s "local" then s ← createLocal net id now name; mret (s, "")
  else if si_Type inp =s "remote" then createRemote gen nonce id now name inp
  else throw (ErrSrvInvalid "invalid_type").

Definition List_ : sM (list Server) := list_servers.
Definition Get (id : string) : sM Server := get id.

Definition Update (id : string) (p : Patch) : sM Server :=
  _ ← when (match pa_Port p with Some n => (n <? 1)%Z || (65535 <? n)%Z | None => false end)
        (throw (ErrSrvInvalid "invalid_port"));
  match pa_Name p with
  | None => updatePatch id p
  | Some n =>
    let trimmed := TrimSpace n in
    if trimmed =s "" then throw (ErrSrvInvalid "invalid_name")
    else updatePatch id (mkSrvPatch (Some trimmed) (pa_Host p) (pa_Port p) (pa_User p))
  end.

Definition Delete (id : string) : sM unit := delete id.

(** *** Connection tests *)

Definition testLocal (net : Net) (now : Z) (srv : Server) : sM TestReport :=
  let p := NewLocalProvider (sv_name srv) in
  let report st cs := mkReport (sv_id srv) "local" st cs in
  if negb (nt_Info net p) then
    _ ← ignore (updateStatus now (sv_id srv) "disconnected" None);
    mret (report "disconnected" [mkCheck "docker_info" false])
  else
    let info := mkCheck "docker_info" true in
    let '(v, ok) := Version (nt_Version net p) in
    if negb ok then
      _ ← ignore (updateStatus now (sv_id srv) "disconnected" (strPtrOrNil v));
      mret (report "disconnected" [info; mkCheck "docker_version" false])
    else
      _ ← ignore (updateStatus now (sv_id srv) "connected" (Some v));
      mret (report "connected" [info; mkCheck "docker_version" true; mkCheck "docker_socket" true]).

(** The callback of the handshake: trust on first use. *)
Definition Callback (stored : string) (save : string → sM unit) (fp : string) : sM SshRes :=
  if stored =s "" then
    r ← attempt (save fp);
    mret (match r with inl _ => SshFailed | inr _ => SshOk end)
  else mret (if stored =s fp then SshOk else SshHostKeyMismatch).

(** [Connect]: the arguments, the handshake with the callback, then the
    authentication. *)
Definition Connect (net : Net) (host : string) (port : Z) (user : string) (signer : Signer)
    (hostkey : string → sM SshRes) : sM SshRes :=
  if (host =s "") || ((port <=? 0)%Z || (65535 <? port)%Z) || (user =s "") then mret SshFailed
  else
    let addr := JoinHostPort host (Itoa port) in
    match nt_host_key net addr with
    | None => mret SshFailed
    | Some fp =>
      r ← hostkey fp;
      match r with
      | SshOk => mret (if nt_accepts net addr user signer then SshOk else SshFailed)
      | r => mret r
      end
    end.

(** The engine of a remote host, after the handshake. *)
Definition testRemoteDocker (net : Net) (now : Z) (srv : Server) (host user pem : string) (cs : list Check) : sM TestReport :=
  let report st cs := mkReport (sv_id srv) "remote" st cs in
  let refuse ver name := _ ← ignore (updateStatus now (sv_id srv) "disconnected" ver);
    mret (report "disconnected" (cs ++ [mkCheck name false])) in
  match NewRemoteProvider net (sv_name srv) host (sv_port srv) user pem with
  | None => refuse None "docker_info"
  | Some rp =>
    if negb (nt_Info net rp) then refuse None "docker_info"
    else
      let '(v, ok) := Version (nt_Version net rp) in
      if negb ok then
        _ ← ignore (updateStatus now (sv_id srv) "disconnected" (strPtrOrNil v));
        mret (report "disconnected" (cs ++ [mkCheck "docker_info" true; mkCheck "docker_version" false]))
      else
        _ ← ignore (updateStatus now (sv_id srv) "connected" (Some v));
        mret (report "connected" (cs ++ [mkCheck "docker_info" true; mkCheck "docker_version" true; mkCheck "docker_socket" true]))
  end.

Definition testRemote (net : Net) (now : Z) (srv : Server) : sM TestReport :=
  let refuse cs := _ ← ignore (updateStatus now (sv_id srv) "disconnected" None);
    mret (mkReport (sv_id srv) "remote" "disconnected" cs) in
  match sv_host srv, sv_user srv with
  | Some host, Some user =>
    if negb (nt_LookupHost net host) then refuse [mkCheck "hostname_resolves" false]
    else
      let dns := mkCheck "hostname_resolves" true in
      if negb (nt_Dial net (JoinHostPort host (Itoa (sv_port srv)))) then refuse [dns; mkCheck "ssh_port_open" false]
      else
        let tcp := mkCheck "ssh_port_open" true in
        let no_auth := refuse [dns; tcp; mkCheck "ssh_authenticates" false] in
        blob ← attempt (getPrivateKey (sv_id srv));
        match blob with
        | inl _ => no_auth
        | inr blob =>
          if blob =s "" then no_auth
          else match Decrypt cipher blob with
          | inl _ => no_auth
          | inr pem =>
            match ParseKey pem with
            | None => no_auth
            | Some signer =>
              r ← Connect net host (sv_port srv) user signer
                    (Callback (default "" (sv_host_key_fingerprint srv)) (updateHostKey (sv_id srv)));
              match r with
              | SshOk => testRemoteDocker net now srv host user pem [dns; tcp; mkCheck "ssh_authenticates" true]
              | _ => no_auth
              end
            end
          end
        end
  | _, _ => refuse [mkCheck "config" false]
  end.

Definition TestConnection (net : Net) (now : Z) (id : string) : sM TestReport :=
  srv ← get id;
  if is_local srv then testLocal net now srv else testRemote net now srv.

(** *** Providers, the status loop *)

Definition Provider (net : Net) (id : string) : sM Target :=
  srv ← get id;
  if is_local srv then mret (NewLocalProvider (sv_name srv))
  else if sv_type srv =s "remote" then
    match sv_host srv, sv_user srv with
    | Some host, Some user =>
      blob ← getPrivateKey (sv_id srv);
      if blob =s "" then throw (ErrSrvInvalid "no private key stored")
      else match Decrypt cipher blob with
      | inl e => throw (ErrSrvCipher e)
      | inr pem =>
        match NewRemoteProvider net (sv_name srv) host (sv_port srv) user pem with
        | None => throw (ErrSrvDocker "provider")
        | Some t => mret t
        end
      end
    | _, _ => throw (ErrSrvInvalid "missing host/user")
    end
  else throw (ErrSrvInvalid "unknown type").

(** What a version answer means for the status. *)
Definition pinged (answer : option string) : string * option string :=
  let '(v, ok) := Version answer in if ok then ("connected", Some v) else ("disconnected", None).

(** The status and the version; never an error. *)
Definition ping (net : Net) (srv : Server) : sM (string * option string) :=
  if is_local srv then mret (pinged (nt_Version net (NewLocalProvider (sv_name srv))))
  else if sv_type srv =s "remote" then
    match sv_host srv, sv_user srv with
    | Some host, Some user =>
      blob ← attempt (getPrivateKey (sv_id srv));
      match blob with
      | inl _ => mret ("unknown", None)
      | inr blob =>
        if blob =s "" then mret ("unknown", None)
        else match Decrypt cipher blob with
        | inl _ => mret ("disconnected", None)
        | inr pem =>
          match NewRemoteProvider net (sv_name srv) host (sv_port srv) user pem with
          | None => mret ("disconnected", None)
          | Some rp => mret (pinged (nt_Version net rp))
          end
        end
      end
    | _, _ => mret ("disconnected", None)
    end
  else mret ("unknown", None).

Definition probe (net : Net) (now : Z) (srv : Server) : sM unit :=
  r ← ping net srv;
  let '(status, ver) := r in
  e ← attempt (updateStatus now (sv_id srv) status ver);
  match e with
  | inl _ => mret tt
  | inr _ => when ((status =s "disconnected") && negb (sv_status srv =s "disconnected"))
               (ignore (markAppsUnreachable (sv_id srv)))
  end.

(** One pass over the servers as they were listed. *)
Definition runOnce (net : Net) (now : Z) : sM unit :=
  l ← attempt List_;
  match l with inl _ => mret tt | inr l => each (probe net now) l end.
End Service.

(** ** Steps

    Every call changes the tables by a sequence of these steps. *)

Definition statuses : list string := ["unknown"; "connected"; "disconnected"].

Section Steps.
Context `{AeadLib} `{SshLib} (cipher : Cipher).

(** A key that is stored can be used. *)
Definition key_opens (s : Server) : Prop := ∃ blob pem, sv_private_key s = Some blob ∧ blob ≠ "" ∧ Decrypt cipher blob = inr pem.

Record server_ok (s : Server) : Prop := {
  so_name : sv_name s ≠ "";
  so_port : (1 <= sv_port s <= 65535)%Z;
  so_status : sv_status s ∈ statuses;
  so_type : sv_type s = "local" ∧ sv_private_key s = None ∨
            sv_type s = "remote" ∧ is_Some (sv_host s) ∧ is_Some (sv_user s) ∧ key_opens s;
}.

Record servers_wf (d : Db) : Prop := {
  sw_rows : ∀ s, s ∈ servers d → server_ok s;
  sw_ids : NoDup (sv_id <$> servers d);
  sw_names : NoDup (sv_name <$> servers d);
  sw_local : cnt is_local (servers d) ≤ 1;
}.

Definition patch_valid (p : Patch) : Prop :=
  (∀ n, pa_Name p = Some n → n ≠ "") ∧ (∀ n, pa_Port p = Some n → (1 <= n <= 65535)%Z).
Definition name_free (id name : string) (d : Db) : Prop :=
  ∀ x, x ∈ servers d → sv_id x ≠ id → sv_name x ≠ name.
Definition mark (id : string) : Db → Db :=
  on_apps (upd (λ a, on_server id a && negb (a_status a =s "unreachable")) (set_app_status "unreachable")).

(** [gone]: the servers that may be deleted. *)
Inductive srv_step (gone : string → Prop) (d : Db) : Db → Prop :=
  | st_insert s : server_ok s → sv_host_key_fingerprint s = None →
      (∀ x, x ∈ servers d → sv_id x ≠ sv_id s ∧ sv_name x ≠ sv_name s) → (is_local s = true → cnt is_local (servers d) = 0) →
      srv_step gone d (on_servers (λ l, l ++ [s]) d)
  | st_patch id p : patch_valid p → (∀ x, x ∈ servers d → sv_id x = id → name_free id (sv_name (apply_patch p x)) d) →
      srv_step gone d (on_servers (upd (srv_is id) (apply_patch p)) d)
  | st_status id st ver now : st ∈ statuses → srv_step gone d (on_servers (upd (srv_is id) (set_srv_status st ver now)) d)
  | st_pin id fp s : sel (srv_is id) (servers d) = Some s → default "" (sv_host_key_fingerprint s) = "" →
      srv_step gone d (on_servers (upd (srv_is id) (set_host_key fp)) d)
  | st_delete id : gone id → (∀ a, a ∈ apps d → a_server_id a ≠ Some id) → srv_step gone d (on_servers (del (srv_is id)) d)
  | st_mark id : srv_step gone d (mark id d).

Lemma upd_servers_wf id f d : servers_wf d → (∀ s, s ∈ servers d → sv_id s = id → server_ok (f s)) →
  (∀ s, sv_id (f s) = sv_id s ∧ sv_type (f s) = sv_type s) →
  (∀ s, s ∈ servers d → sv_id s = id → name_free id (sv_name (f s)) d) →
  servers_wf (on_servers (upd (srv_is id) f) d).
Proof.
  intros [H1 H2 H3 H4] Hok Hf Hn. split; simpl.
  - intros s (x & Hx & ->)%elem_of_upd. destruct (srv_is id x) eqn:E; [|auto]. apply String.eqb_eq in E. auto.
  - change (NoDup (List.map sv_id (upd (srv_is id) f (servers d)))). rewrite map_upd; [done|]. intros x. apply Hf.
  - apply NoDup_fmap_2_strong.
    + intros x y (x' & Hx & ->)%elem_of_upd (y' & Hy & ->)%elem_of_upd E.
      assert (Hxy : sv_id x' = sv_id y' → x' = y') by (intros; by apply (NoDup_fmap_inj sv_id (servers d))).
      unfold srv_is in *. destruct (sv_id x' =s id) eqn:Ex, (sv_id y' =s id) eqn:Ey; bool_simp.
      * by rewrite Hxy by congruence.
      * by destruct (Hn x' Hx Ex y' Hy Ey).
      * by destruct (Hn y' Hy Ey x' Hx Ex).
      * by apply (NoDup_fmap_inj sv_name (servers d)).
    + apply (NoDup_fmap_1 sv_id). change (NoDup (List.map sv_id (upd (srv_is id) f (servers d)))).
      rewrite map_upd; [done|]. intros x. apply Hf.
  - rewrite cnt_upd_eq; [done|]. intros s. unfold is_local. by rewrite (proj2 (Hf s)).
Qed.

Lemma status_ok st ver now s : st ∈ statuses → server_ok s → server_ok (set_srv_status st ver now s).
Proof. by intros Hst [? ? ? ?]. Qed.
Lemma pin_ok fp s : server_ok s → server_ok (set_host_key fp s).
Proof. by intros [? ? ? ?]. Qed.
Lemma patched_ok p s : patch_valid p → server_ok s → server_ok (apply_patch p s).
Proof.
  intros [Hn Hp] [H1 H2 H3 H4]. destruct p as [n h port u]. simpl in *. split; simpl.
  - destruct n; [by apply Hn|done].
  - destruct port; [by apply Hp|done].
  - done.
  - destruct H4 as [?|(? & [? E1] & [? E2] & ?)]; [by left|right]. destruct h, u; rewrite ?E1, ?E2; eauto.
Qed.

Lemma step_servers gone d d' : srv_step gone d d' → servers_wf d → servers_wf d'.
Proof.
  intros Hs Hwf. pose proof Hwf as [H1 H2 H3 H4].
  assert (Hown : ∀ s, s ∈ servers d → name_free (sv_id s) (sv_name s) d).
  { intros s Hs' x Hx Hne E. apply Hne. by rewrite (NoDup_fmap_inj sv_name (servers d) x s). }
  destruct Hs as [s Hok _ Hnew Hl|id p Hp Hn|id st ver now Hst|id fp s Hsel _|id _ _|id].
  - split; simpl.
    + intros x [Hx| ->%list_elem_of_singleton]%elem_of_app; auto.
    + rewrite fmap_app. apply NoDup_snoc; [done|]. intros (x & E & Hx)%list_elem_of_fmap. by destruct (Hnew x).
    + rewrite fmap_app. apply NoDup_snoc; [done|]. intros (x & E & Hx)%list_elem_of_fmap. by destruct (Hnew x).
    + rewrite cnt_app, cnt_cons. change (cnt is_local []) with 0. destruct (is_local s); [rewrite Hl by done|]; lia.
  - apply upd_servers_wf; [done| |done|done]. intros s Hs _. exact (patched_ok p s Hp (H1 s Hs)).
  - apply upd_servers_wf; [done| |done|]; intros s Hs E; [exact (status_ok st ver now s Hst (H1 s Hs))|]. rewrite <- E. exact (Hown s Hs).
  - apply upd_servers_wf; [done| |done|]; intros x Hs E; [exact (pin_ok fp x (H1 x Hs))|]. rewrite <- E. exact (Hown x Hs).
  - split; simpl; [|by apply NoDup_fmap_filter..|].
    + intros s [Hs _]%elem_of_del. auto.
    + pose proof (cnt_del_le is_local (srv_is id) (servers d)). lia.
  - done.
Qed.

Lemma refers_weaken {A} (key : A → string) l l' v : (∀ x, v = Some x → x ∈ key <$> l → x ∈ key <$> l') →
  refers key l v = true → refers key l' v = true.
Proof.
  destruct v as [v|]; [|done]. intros Hl (x & Hx & E%String.eqb_eq)%existsb_witness. simpl.
  destruct (proj1 (list_elem_of_fmap key l' v)) as (y & Ey & Hy).
  { apply Hl; [done|]. apply list_elem_of_fmap. by exists x. }
  apply List.existsb_exists. exists y. split; [by apply list_elem_of_In|]. by apply String.eqb_eq.
Qed.

Lemma refs_weaken d d' a : (∀ x, a_server_id a = Some x → x ∈ sv_id <$> servers d → x ∈ sv_id <$> servers d') →
  teams d' = teams d → git_sources d' = git_sources d → app_refs d a = true → app_refs d' a = true.
Proof.
  intros Hs Et Eg. unfold app_refs. rewrite Et, Eg, !andb_true_iff. intros [[H1 H2] H3].
  by split_and!; [|eapply refers_weaken|].
Qed.

(** A step keeps the apps well formed: their servers stay. *)
Lemma step_apps gone d d' : srv_step gone d d' → apps_wf d → apps_wf d'.
Proof.
  intros Hs Hwf. pose proof Hwf as [H1 H2 H3 H4].
  assert (Hupd : ∀ id f, (∀ s, sv_id (f s) = sv_id s) → apps_wf (on_servers (upd (srv_is id) f) d)).
  { intros id f Hf. split; simpl; [done| |done|done]. intros a Ha. apply (refs_weaken d); [|done|done|auto].
    intros x _ Hx. simpl. change (x ∈ List.map sv_id (upd (srv_is id) f (servers d))). by rewrite map_upd. }
  destruct Hs as [s _ _ _ _|id p _ _|id st ver now _|id fp s _ _|id _ Hno|id]; [|by apply Hupd..| |].
  - split; simpl; [done| |done|done]. intros a Ha. apply (refs_weaken d); [|done|done|auto].
    intros x _ Hx. simpl. rewrite fmap_app. set_solver.
  - split; simpl; [done| |done|done]. intros a Ha. apply (refs_weaken d); [|done|done|auto].
    intros x Ex (s & -> & Hs)%list_elem_of_fmap. apply list_elem_of_fmap. exists s. split; [done|]. apply elem_of_del.
    split; [done|]. apply String.eqb_neq. intros E. apply (Hno a Ha). by rewrite Ex, E.
  - unfold mark. apply upd_wf; [done| |done|]; intros a Ha _; [by apply set_app_status_ok, H1|]. exact (H2 a Ha).
Qed.
End Steps.

(** ** Calls are sequences of steps *)

Inductive srv_call `{SshLib} :=
  | SCreate (net : Net) (gen : option (string * string)) (nonce : option string) (id : string) (now : Z) (inp : CreateInput)
  | SUpdate (id : string) (p : Patch)
  | SDelete (id : string)
  | STest (net : Net) (now : Z) (id : string)
  | SLoop (net : Net) (now : Z).

Section Calls.
Context `{AeadLib} `{!AeadLaws} `{SshLib} (cipher : Cipher).

Definition done_ {A} (m : sM A) : sM unit := _ ← m; mret tt.
Definition srv_serve (c : srv_call) : sM unit :=
  match c with
  | SCreate net gen nonce id now inp => done_ (Create cipher net gen nonce id now inp)
  | SUpdate id p => done_ (Update id p)
  | SDelete id => Delete id
  | STest net now id => done_ (TestConnection cipher net now id)
  | SLoop net now => runOnce cipher net now
  end.

(** The nonce that is read has twelve bytes. *)
Definition call_ok (c : srv_call) : Prop :=
  match c with SCreate _ _ nonce _ _ _ => ∀ n, nonce = Some n → len n = nonceLen | _ => True end.

Definition Steps (gone : string → Prop) (d0 d : Db) : Prop := rtc (srv_step cipher gone) d0 d.

Section Fix.
Variable gone : string → Prop.
Variable d0 : Db.
Local Abbreviation S := (Steps gone d0).

Lemma then_step d d' : S d → srv_step cipher gone d d' → S d'.
Proof. apply rtc_r. Qed.

Lemma get_steps id : preserves S (get id).
Proof. apply preserves_bind; [apply preserves_query|]. intros [s|]; [apply preserves_ret|apply preserves_throw]. Qed.
Lemma getPrivateKey_steps id : preserves S (getPrivateKey id).
Proof. apply preserves_bind; [apply preserves_query|]. intros [s|]; [apply preserves_ret|apply preserves_throw]. Qed.

Lemma status_steps now id st ver : st ∈ statuses → preserves S (updateStatus now id st ver).
Proof. intros Hst. apply preserves_exec. intros d Hd. by eapply then_step; [|apply st_status]. Qed.

Lemma insert_steps s : (∀ d, S d → server_ok cipher s ∧ sv_host_key_fingerprint s = None ∧ (is_local s = true → cnt is_local (servers d) = 0)) →
  preserves S (insert s).
Proof.
  intros Hs. apply preserves_checked. intros d Hd. destruct (List.existsb _ _) eqn:E; [done|]. destruct (_ || _); [|done].
  destruct (Hs d Hd) as (Hok & Hfp & Hl). eapply then_step; [done|]. apply st_insert; [done|done| |done].
  intros x Hx. pose proof (existsb_false_elem _ _ x E Hx) as Hf. unfold srv_is in Hf. bool_simp. done.
Qed.

Lemma patch_steps id p : patch_valid p → preserves S (updatePatch id p).
Proof.
  intros Hp. unfold updatePatch. destruct (no_patch p); [apply get_steps|]. apply preserves_bind.
  - apply preserves_checked. intros d Hd. destruct (List.existsb _ _) eqn:E; [done|]. eapply then_step; [done|].
    apply st_patch; [done|]. intros x Hx Ex y Hy Ey En.
    pose proof (existsb_false_elem _ _ x E Hx) as Hf. simpl in Hf. unfold srv_is in Hf. rewrite Ex, String.eqb_refl in Hf. simpl in Hf.
    pose proof (existsb_false_elem _ _ y Hf Hy) as Hg. simpl in Hg. rewrite En, String.eqb_refl, andb_true_r in Hg.
    apply negb_false_iff, String.eqb_eq in Hg. done.
  - intros n. destruct (n =? 0)%nat; [apply preserves_throw|apply get_steps].
Qed.

Lemma update_steps id p : preserves S (Update id p).
Proof.
  intros d Hd. unfold Update. apply wp_bind. unfold when.
  destruct (match pa_Port p with Some n => _ | None => false end) eqn:Ep; [by apply wp_throw|apply wp_ret].
  assert (Hport : ∀ n, pa_Port p = Some n → (1 <= n <= 65535)%Z) by (intros n E; rewrite E in Ep; bool_simp; lia).
  destruct (pa_Name p) as [n|] eqn:En; [|by apply patch_steps; [split; [intros ?; congruence|done]|]].
  cbv zeta. destruct (TrimSpace n =s "") eqn:E; [by apply wp_throw|]. apply String.eqb_neq in E.
  apply patch_steps; [|done]. split; [by intros ? [= <-]|done].
Qed.

Lemma delete_steps id : gone id → preserves S (Delete id).
Proof.
  intros Hg. apply preserves_bind; [apply preserves_query|]. intros n. destruct (0 <? n)%nat; [apply preserves_throw|].
  apply preserves_bind; [|intros k; destruct (k =? 0)%nat; [apply preserves_throw|apply preserves_ret]].
  apply preserves_checked. intros d Hd. destruct (List.existsb _ _) eqn:E; [done|]. eapply then_step; [done|].
  apply st_delete; [done|]. intros a Ha Ea. pose proof (existsb_false_elem _ _ a E Ha) as Hf. unfold on_server in Hf.
  by apply bool_decide_eq_false in Hf.
Qed.

Lemma mark_steps id : preserves S (markAppsUnreachable id).
Proof. apply preserves_exec. intros d Hd. by eapply then_step; [|apply st_mark]. Qed.

(** *** Probes *)

Lemma pinged_status answer : (pinged answer).1 ∈ statuses.
Proof. unfold pinged. destruct (Version answer) as [v []]; set_solver. Qed.

Lemma ping_returns net srv : returns (λ r, r.1 ∈ statuses) (ping cipher net srv).
Proof.
  unfold ping. destruct (is_local srv); [apply returns_ret, pinged_status|]. destruct (_ =s "remote"); [|apply returns_ret; set_solver].
  destruct (sv_host srv), (sv_user srv); try (apply returns_ret; set_solver). apply returns_bind. intros [e|blob]; [apply returns_ret; set_solver|].
  destruct (_ =s _); [apply returns_ret; set_solver|]. destruct (Decrypt _ _); [apply returns_ret; set_solver|].
  destruct (NewRemoteProvider _ _ _ _ _ _); [apply returns_ret, pinged_status|apply returns_ret; set_solver].
Qed.

Lemma ping_steps I net srv : preserves I (ping cipher net srv).
Proof.
  unfold ping. destruct (is_local srv); [apply preserves_ret|]. destruct (_ =s "remote"); [|apply preserves_ret].
  destruct (sv_host srv), (sv_user srv); try apply preserves_ret. apply preserves_bind.
  { apply preserves_attempt, preserves_bind; [apply preserves_query|]. intros []; [apply preserves_ret|apply preserves_throw]. }
  intros [e|blob]; [apply preserves_ret|]. destruct (_ =s _); [apply preserves_ret|]. destruct (Decrypt _ _); [apply preserves_ret|].
  destruct (NewRemoteProvider _ _ _ _ _ _); apply preserves_ret.
Qed.

Lemma probe_steps net now srv : preserves S (probe cipher net now srv).
Proof.
  intros d Hd. apply wp_bind. eapply wp_mono; [apply wp_and; [by apply ping_steps|apply ping_returns]|].
  intros d1 [e|[st ver]] [Hd1 Hst]; [done|]. specialize (Hst _ eq_refl). apply (wp_keep S); [by apply preserves_attempt, status_steps|done|done|].
  intros d2 [e|[]] Hd2; [by apply wp_ret|]. revert d2 Hd2. apply preserves_when, preserves_ignore, mark_steps.
Qed.

Lemma loop_steps net now : preserves S (runOnce cipher net now).
Proof.
  apply preserves_bind; [apply preserves_attempt, preserves_query|]. intros [e|l]; [apply preserves_ret|].
  apply each_preserves. intros s. apply probe_steps.
Qed.

(** *** Creation *)

Lemma createLocal_steps net id now name : name ≠ "" → preserves S (createLocal net id now name).
Proof.
  intros Hn d Hd. apply wp_bind, wp_query; [done|]. destruct (0 <? _)%nat eqn:E; [by apply wp_throw|]. apply Nat.ltb_ge in E.
  cbv zeta. destruct (negb (nt_Info net _)); [by apply wp_throw|]. destruct (Version _) as [v []]; simpl negb; cbv iota; [|by apply wp_throw].
  apply wp_bind, wp_checked; [done|]. destruct (List.existsb _ _) eqn:Ex; [done|]. simpl.
  assert (Hn' : S (on_servers (λ l, l ++ [mkServer id name "local" None 22 None None None "connected" (Some v) (Some now) now]) d)).
  { eapply then_step; [done|]. apply st_insert; [|done| |intros _; lia].
    - split; simpl; [done|lia|set_solver|by left].
    - intros x Hx. pose proof (existsb_false_elem _ _ x Ex Hx) as Hf. unfold srv_is in Hf. simpl in *. bool_simp. done. }
  revert Hn'. apply (get_steps id).
Qed.

Lemma createRemote_steps gen nonce id now name inp : (∀ n, nonce = Some n → len n = nonceLen) → name ≠ "" →
  preserves S (createRemote cipher gen nonce id now name inp).
Proof.
  intros Hnonce Hname d Hd. unfold createRemote. apply wp_bind, wp_of_result.
  destruct (valid_remote inp) as [e|[[host user] port]] eqn:Ev; [done|].
  assert (Hport : (1 <= port <= 65535)%Z).
  { unfold valid_remote in Ev. cbv zeta in Ev. destruct ((_ =s _) || _); [done|].
    destruct ((_ <? 1)%Z || _) eqn:Ep; [done|]. simplify_eq. bool_simp. lia. }
  apply wp_bind, wp_of_result. destruct (key_pair gen inp) as [e|[pem pub]]; [done|].
  apply wp_bind, wp_of_result. destruct nonce as [n|]; [|done].
  destruct (decrypt_encrypt cipher n pem (Hnonce n eq_refl)) as (enc & -> & Hdec).
  assert (Hne : enc ≠ "") by (intros ->; by unfold Decrypt in Hdec; simpl in Hdec).
  apply (wp_keep S); [|done|done|].
  - apply insert_steps. intros d1 _. split_and!; [|done|by intros ?]. unfold strPtrOrNil. apply String.eqb_neq in Hne as Hne'. rewrite Hne'.
    split; simpl; [done|done|set_solver|]. right. split_and!; [done|by eexists..|]. by exists enc, pem.
  - intros d1 _ Hd1. apply (wp_keep S); [apply get_steps|done|done|]. intros d2 got Hd2. by apply wp_ret.
Qed.

Lemma create_steps net gen nonce id now inp : (∀ n, nonce = Some n → len n = nonceLen) →
  preserves S (Create cipher net gen nonce id now inp).
Proof.
  intros Hnonce. unfold Create. cbv zeta. destruct (TrimSpace _ =s "") eqn:E; [apply preserves_throw|]. apply String.eqb_neq in E.
  destruct (_ =s "local"); [apply preserves_bind; [by apply createLocal_steps|intros; apply preserves_ret]|].
  destruct (_ =s "remote"); [by apply createRemote_steps|apply preserves_throw].
Qed.

(** *** Connection tests *)

Lemma report_steps {A} now id st ver (r : A) : st ∈ statuses → preserves S (_ ← ignore (updateStatus now id st ver); mret r).
Proof. intros Hst. apply preserves_bind; [by apply preserves_ignore, status_steps|]. intros _. apply preserves_ret. Qed.

Lemma testLocal_steps net now srv : preserves S (testLocal net now srv).
Proof.
  unfold testLocal. cbv zeta. destruct (negb _); [apply report_steps; set_solver|]. destruct (Version _) as [v []]; apply report_steps; set_solver.
Qed.

Lemma docker_steps net now srv host user pem cs : preserves S (testRemoteDocker net now srv host user pem cs).
Proof.
  unfold testRemoteDocker. cbv zeta. destruct (NewRemoteProvider _ _ _ _ _ _); [|apply report_steps; set_solver].
  destruct (negb _); [apply report_steps; set_solver|]. destruct (Version _) as [v []]; apply report_steps; set_solver.
Qed.

(** The callback pins a key only where none was stored. *)
Lemma callback_steps id fp srv d : S d → sel (srv_is id) (servers d) = Some srv →
  wp (Callback (default "" (sv_host_key_fingerprint srv)) (updateHostKey id) fp) (λ d' _, S d') d.
Proof.
  intros Hd Hs. unfold Callback. destruct (_ =s "") eqn:E; [|by apply wp_ret]. apply String.eqb_eq in E.
  apply wp_bind, wp_attempt, wp_exec; apply wp_ret; [done|]. by eapply then_step; [|eapply st_pin].
Qed.

Lemma testRemote_steps net now srv d : S d → sel (srv_is (sv_id srv)) (servers d) = Some srv →
  wp (testRemote cipher net now srv) (λ d' _, S d') d.
Proof.
  intros Hd Hs. unfold testRemote. cbv zeta.
  assert (Hrep : ∀ cs d', S d' → wp (_ ← ignore (updateStatus now (sv_id srv) "disconnected" None);
      mret (mkReport (sv_id srv) "remote" "disconnected" cs)) (λ d' _, S d') d').
  { intros cs. apply report_steps. set_solver. }
  destruct (sv_host srv) as [host|]; [|auto]. destruct (sv_user srv) as [user|]; [|auto].
  destruct (negb (nt_LookupHost _ _)); [auto|]. destruct (negb (nt_Dial _ _)); [auto|].
  apply wp_bind, wp_attempt. unfold getPrivateKey. apply wp_bind, wp_query; [auto|]. rewrite Hs. apply wp_ret.
  destruct (_ =s ""); [auto|]. destruct (Decrypt _ _) as [e|pem]; [auto|]. destruct (ParseKey pem) as [signer|]; [|auto].
  apply wp_bind. unfold Connect. destruct (_ || _); [apply wp_ret; auto|]. cbv zeta.
  destruct (nt_host_key _ _) as [fp|]; [|apply wp_ret; auto].
  apply wp_bind. eapply wp_mono; [by apply callback_steps|]. intros d1 [e|[]] Hd1; [done|apply wp_ret..]; [|auto..].
  destruct (nt_accepts _ _ _ _); [|auto]. by apply docker_steps.
Qed.

Lemma test_steps net now id : preserves S (TestConnection cipher net now id).
Proof.
  intros d Hd. apply wp_bind. unfold get. apply wp_bind, wp_query; [done|].
  destruct (sel (srv_is id) (servers d)) as [srv|] eqn:E; [apply wp_ret|by apply wp_throw].
  destruct (is_local srv); [by apply testLocal_steps|]. apply testRemote_steps; [done|].
  pose proof (sel_Some _ _ _ E) as [_ Hid]. apply String.eqb_eq in Hid. by rewrite Hid.
Qed.
End Fix.

(** Every call is a sequence of steps, and deletes at most what it names. *)
Lemma serve_steps c d fs : call_ok c → Steps (λ id, c = SDelete id) d (srv_serve c d fs).1.1.
Proof.
  intros Hok. assert (Hd : Steps (λ id, c = SDelete id) d d) by apply rtc_refl. revert fs. change (wp (srv_serve c) (λ d' _, Steps (λ id, c = SDelete id) d d') d).
  assert (Hdone : ∀ A (m : sM A), preserves (Steps (λ id, c = SDelete id) d) m → preserves (Steps (λ id, c = SDelete id) d) (done_ m)).
  { intros A m Hm. apply preserves_bind; [done|]. intros _. apply preserves_ret. }
  destruct c; simpl in *; [apply Hdone; [by apply create_steps|done]|apply Hdone; [by apply update_steps|done]|
    by apply delete_steps|apply Hdone; [by apply test_steps|done]|by apply loop_steps].
Qed.
End Calls.

(** ** Histories of server and app calls *)

Inductive op `{SshLib} := OSrv (c : srv_call) | OApp (c : Apps.call).

Section Histories.
Context `{AeadLib} `{!AeadLaws} `{SshLib} `{Unicode} (cipher : Cipher) (svc : Apps.Service).

Definition perform (o : op) (fs : list bool) (d : Db) : Db :=
  match o with OSrv c => (srv_serve cipher c d fs).1.1 | OApp c => (Apps.serve svc c d fs).1.1 end.
Definition performed (l : list (op * list bool)) (d : Db) : Db := foldl (λ d o, perform o.1 o.2 d) d l.
Definition op_ok (o : op) : Prop := match o with OSrv c => call_ok c | OApp _ => True end.

(** What every step of a server call and every app call keeps. *)
Lemma performed_keeps (I : Db → Prop) (P : op → Prop) l d :
  (∀ c fs d, P (OSrv c) → I d → I (srv_serve cipher c d fs).1.1) → (∀ c, P (OApp c) → preserves I (Apps.serve svc c)) →
  (∀ o fs, (o, fs) ∈ l → P o) → I d → I (performed l d).
Proof.
  intros Hs Ha. revert d. induction l as [|[o fs] l IH]; intros d Hl Hd; [done|].
  apply IH; [intros o' fs' Hin; apply (Hl o' fs'); by right|]. assert (P o) as Ho by (apply (Hl o fs); left).
  destruct o as [c|c]; simpl; [auto|]. exact (Ha c Ho d Hd fs).
Qed.

Lemma steps_keep (I : Db → Prop) gone d d' : (∀ d d', srv_step cipher gone d d' → I d → I d') → Steps cipher gone d d' → I d → I d'.
Proof. intros Hs Hst. induction Hst; eauto. Qed.

(** Along every history of server and app calls, whatever fails, every
    server stays well formed (a port in range, a known status; remote servers
    with host, user and a private key that decrypts), there is at most one local
    server, names and ids are unique, and every app stays well formed, on a server
    that exists. *)
Theorem hosts_typed l d : (∀ o fs, (o, fs) ∈ l → op_ok o) →
  servers_wf cipher d → apps_wf d → servers_wf cipher (performed l d) ∧ apps_wf (performed l d).
Proof.
  intros Hl Hs Ha. apply (performed_keeps (λ d, servers_wf cipher d ∧ apps_wf d) op_ok); [| |done|done].
  - intros c fs d' Hc Hd'. eapply (steps_keep (λ d, servers_wf cipher d ∧ apps_wf d)); [|by apply serve_steps|done].
    intros d1 d2 Hst [Hw1 Hw2]. split; [by eapply step_servers|by eapply step_apps].
  - intros c _ d' [Hw1 Hw2] fs. split; [|exact (serve_wf svc c d' Hw2 fs)].
    refine (serve_keeps svc (servers_wf cipher) c _ _ _ d' Hw1 fs); clear; intros ? ? ; [|intros ? ? |]; by intros [? ? ? ?].
Qed.

(** *** Pinned host keys *)

Definition pinned (id fp : string) (d : Db) : Prop :=
  ∃ s, sel (srv_is id) (servers d) = Some s ∧ sv_host_key_fingerprint s = Some fp.

Lemma sel_srv_upd id id' f d s : (∀ s, sv_id (f s) = sv_id s) → sel (srv_is id) (servers d) = Some s →
  sel (srv_is id) (upd (srv_is id') f (servers d)) = Some (if srv_is id' s then f s else s).
Proof. intros Hf Hs. rewrite sel_upd, Hs; [done|]. intros r. unfold srv_is. by rewrite Hf. Qed.

Lemma step_pinned gone id fp d d' : fp ≠ "" → ¬ gone id → srv_step cipher gone d d' → pinned id fp d → pinned id fp d'.
Proof.
  intros Hne Hg Hst (s & Hs & Hfp).
  assert (Hupd : ∀ id' f, (∀ s, sv_id (f s) = sv_id s) → (srv_is id' s = true → sv_host_key_fingerprint (f s) = Some fp) →
    pinned id fp (on_servers (upd (srv_is id') f) d)).
  { intros id' f Hf Hk. eexists. split; [by apply sel_srv_upd|]. destruct (srv_is id' s); auto. }
  destruct Hst as [x _ _ _ _|id' p _ _|id' st ver now _|id' fp' s' Hs' Hno|id' Hg' _|id']; [|by apply Hupd..| | |by exists s].
  - exists s. split; [|done]. simpl. by rewrite sel_app, Hs.
  - apply Hupd; [done|]. intros E. pose proof (sel_Some _ _ _ Hs) as [_ Eid]. unfold srv_is in *. bool_simp.
    assert (id' = id) as -> by congruence. rewrite Hs in Hs'. simplify_eq. rewrite Hfp in Hno. by simpl in Hno.
  - exists s. split; [|done]. simpl. rewrite sel_del; [done|]. intros r Er. unfold srv_is in *. bool_simp.
    intros E. apply Hg. by rewrite <- Er, E.
Qed.

(** A report that a remote server is connected: the key that answered is the
    one stored now. *)
Definition pin_report (net : Net) (srv : Server) (d : Db) (r : SrvErr + TestReport) : Prop :=
  ∀ rep, r = inr rep → rp_Status rep = "connected" →
  ∃ host fp, sv_host srv = Some host ∧ nt_host_key net (JoinHostPort host (Itoa (sv_port srv))) = Some fp ∧
    (default "" (sv_host_key_fingerprint srv) = "" ∨ sv_host_key_fingerprint srv = Some fp) ∧ pinned (sv_id srv) fp d.

Lemma docker_pins net now srv user pem cs d (Q : Db → SrvErr + TestReport → Prop) host :
  (∀ d', (∀ fp, pinned (sv_id srv) fp d → pinned (sv_id srv) fp d') → ∀ r, Q d' r) →
  wp (testRemoteDocker net now srv host user pem cs) Q d.
Proof.
  intros HQ.
  assert (Hst : ∀ st ver, ∀ fp, pinned (sv_id srv) fp d → pinned (sv_id srv) fp (on_servers (upd (srv_is (sv_id srv)) (set_srv_status st ver now)) d)).
  { intros st ver fp (s & Hs & Hfp). eexists. split; [by apply sel_srv_upd|]. by destruct (srv_is _ s). }
  assert (Hrep : ∀ A st ver (r : A) (Q : Db → SrvErr + A → Prop),
    (∀ d', (∀ fp, pinned (sv_id srv) fp d → pinned (sv_id srv) fp d') → ∀ r, Q d' r) →
    wp (_ ← ignore (updateStatus now (sv_id srv) st ver); mret r) Q d).
  { intros A st ver r Q' HQ'. apply wp_bind, wp_ignore, wp_exec; apply wp_ret, HQ'; auto. }
  unfold testRemoteDocker. cbv zeta. destruct (NewRemoteProvider _ _ _ _ _ _); [|by apply Hrep].
  destruct (negb _); [by apply Hrep|]. destruct (Version _) as [v []]; by apply Hrep.
Qed.

Lemma connected_pins net now id d srv : sel (srv_is id) (servers d) = Some srv → is_local srv = false →
  wp (TestConnection cipher net now id) (pin_report net srv) d.
Proof.
  intros Hs Hl. pose proof (sel_Some _ _ _ Hs) as [_ Eid]. apply String.eqb_eq in Eid. subst id.
  assert (Hrep : ∀ cs d', wp (_ ← ignore (updateStatus now (sv_id srv) "disconnected" None);
    mret (mkReport (sv_id srv) "remote" "disconnected" cs)) (pin_report net srv) d').
  { intros cs d'. apply wp_bind, wp_ignore, wp_exec; apply wp_ret; by intros ? [= <-]. }
  apply wp_bind. unfold get. apply wp_bind, wp_query; [by intros ?|]. rewrite Hs. apply wp_ret. rewrite Hl. unfold testRemote. cbv zeta.
  destruct (sv_host srv) as [host|] eqn:Eh; [|auto]. destruct (sv_user srv) as [user|]; [|auto].
  destruct (negb (nt_LookupHost _ _)); [auto|]. destruct (negb (nt_Dial _ _)); [auto|].
  apply wp_bind, wp_attempt. unfold getPrivateKey. apply wp_bind, wp_query; [auto|]. rewrite Hs. apply wp_ret.
  destruct (_ =s ""); [auto|]. destruct (Decrypt _ _) as [e|pem]; [auto|]. destruct (ParseKey pem) as [signer|]; [|auto].
  apply wp_bind. unfold Connect. destruct (_ || _); [apply wp_ret; auto|]. cbv zeta.
  destruct (nt_host_key _ _) as [fp|] eqn:Ek; [|apply wp_ret; auto]. apply wp_bind.
  assert (Hgo : ∀ d', pinned (sv_id srv) fp d' → (default "" (sv_host_key_fingerprint srv) = "" ∨ sv_host_key_fingerprint srv = Some fp) →
    ∀ cs, wp (testRemoteDocker net now srv host user pem cs) (pin_report net srv) d').
  { intros d' Hp Hfp cs. apply docker_pins. intros d'' Hd'' r rep _ _. exists host, fp. split_and!; auto. }
  unfold Callback. destruct (_ =s "") eqn:E.
  - apply String.eqb_eq in E. apply wp_bind, wp_attempt, wp_exec; apply wp_ret, wp_ret; [auto|].
    destruct (nt_accepts _ _ _ _); [|auto]. apply Hgo; [|by left].
    eexists. split; [by apply (sel_srv_upd _ _ (set_host_key fp))|]. unfold srv_is. by rewrite String.eqb_refl.
  - apply wp_ret. destruct (_ =s fp) eqn:Ef; apply wp_ret; [|auto]. apply String.eqb_eq in Ef. apply String.eqb_neq in E.
    destruct (sv_host_key_fingerprint srv) as [fp'|] eqn:Efp; [|done]. simpl in Ef. subst fp'.
    destruct (nt_accepts _ _ _ _); [|auto]. apply Hgo; [by exists srv|by right].
Qed.

Lemma pinned_forever id fp l d : (∀ o fs, (o, fs) ∈ l → op_ok o ∧ o ≠ OSrv (SDelete id)) → fp ≠ "" → pinned id fp d →
  pinned id fp (performed l d).
Proof.
  intros Hl Hne Hp. apply (performed_keeps (pinned id fp) (λ o, op_ok o ∧ o ≠ OSrv (SDelete id))); [| |done|done].
  - intros c fs d' [Hc Hnd] Hd'. eapply (steps_keep (pinned id fp)); [|by apply serve_steps|done].
    intros d1 d2 Hst. eapply step_pinned; [done| |done]. simpl. congruence.
  - intros c _ d' Hd' fs. refine (serve_keeps svc (pinned id fp) c _ _ _ d' Hd' fs);
      clear; intros ? ?; [|intros ? ?|]; by intros (s & Hs & Hfp); exists s.
Qed.

(** C35: Trust on first use.  A connection test that reports a remote server
    connected met the key that was stored for it, if one was, and leaves the key
    it met stored; after any later history of calls that does not delete the
    server, that fingerprint is still stored and no test reports the server
    connected under another key. *)
Theorem host_key_pinned id d net now fs rep srv : sel (srv_is id) (servers d) = Some srv → is_local srv = false →
  (TestConnection cipher net now id d fs).2 = inr rep → rp_Status rep = "connected" →
  ∃ host fp, sv_host srv = Some host ∧ nt_host_key net (JoinHostPort host (Itoa (sv_port srv))) = Some fp ∧
    (default "" (sv_host_key_fingerprint srv) = "" ∨ sv_host_key_fingerprint srv = Some fp) ∧
    let d1 := (TestConnection cipher net now id d fs).1.1 in
    pinned id fp d1 ∧
    ∀ l, fp ≠ "" → (∀ o fs, (o, fs) ∈ l → op_ok o ∧ o ≠ OSrv (SDelete id)) →
      let d2 := performed l d1 in
      pinned id fp d2 ∧
      ∀ net' now' fs' rep' srv', sel (srv_is id) (servers d2) = Some srv' → is_local srv' = false →
        (TestConnection cipher net' now' id d2 fs').2 = inr rep' → rp_Status rep' = "connected" →
        ∃ host', sv_host srv' = Some host' ∧ nt_host_key net' (JoinHostPort host' (Itoa (sv_port srv'))) = Some fp.
Proof.
  intros Hs Hloc Hr Hc. pose proof (sel_Some _ _ _ Hs) as [_ Eid]. apply String.eqb_eq in Eid.
  destruct (connected_pins net now id d srv Hs Hloc fs rep Hr Hc) as (host & fp & Eh & Ek & Hfp & Hp). rewrite Eid in Hp.
  exists host, fp. split_and!; [done..|]. intros d1. split; [done|]. intros l Hne Hl d2.
  assert (Hp2 : pinned id fp d2) by (by apply pinned_forever). split; [done|].
  intros net' now' fs' rep' srv' Hs' Hloc' Hr' Hc'.
  destruct (connected_pins net' now' id d2 srv' Hs' Hloc' fs' rep' Hr' Hc') as (host' & fp' & Eh' & Ek' & Hfp' & _).
  destruct Hp2 as (s & Hs2 & Hfp2). rewrite Hs' in Hs2. simplify_eq. exists host'. split; [done|].
  destruct Hfp' as [E|E]; rewrite Hfp2 in E; simpl in E; congruence.
Qed.
End Histories.

(** ** One pass of the status loop *)

Section Pass.
Context `{AeadLib} `{SshLib} (cipher : Cipher) (net : Net) (now : Z).

(** The engine of a server as the loop reaches it. *)
Definition engine_of (s : Server) : option Target :=
  if is_local s then Some (NewLocalProvider (sv_name s))
  else match sv_host s, sv_user s, Decrypt cipher (default "" (sv_private_key s)) with
       | Some host, Some user, inr pem => NewRemoteProvider net (sv_name s) host (sv_port s) user pem
       | _, _, _ => None
       end.

(** It answers, and its version is supported. *)
Definition reachable (s : Server) : bool :=
  match engine_of s with Some t => (Version (nt_Version net t)).2 | None => false end.
Definition version_of (s : Server) : option string :=
  if reachable s then t ← engine_of s; nt_Version net t else None.
Definition newly_lost (s : Server) : bool := negb (reachable s) && negb (sv_status s =s "disconnected").

Definition seen (s x : Server) : Server :=
  set_srv_status (if reachable s then "connected" else "disconnected") (version_of s) now x.

(** What the pass over the servers [l] makes of a server and of an app. *)
Definition seen_in (l : list Server) (x : Server) : Server :=
  match sel (srv_is (sv_id x)) l with Some s => seen s x | None => x end.
Definition lost_in (l : list Server) (a : App) : App :=
  if List.existsb (λ s, newly_lost s && on_server (sv_id s) a) l then set_app_status "unreachable" a else a.

Lemma pinged_spec s t : engine_of s = Some t → pinged (nt_Version net t) = (if reachable s then "connected" else "disconnected", version_of s).
Proof.
  intros E. unfold pinged, version_of, reachable. rewrite E. simpl. unfold Version. destruct (nt_Version net t) as [v|]; [|done]. simpl.
  by destruct (versionAtLeast _ _).
Qed.

(** Without faults the ping of a well-formed server tells whether its engine is
    reachable. *)
Lemma ping_run s s' d : server_ok cipher s → sel (srv_is (sv_id s)) (servers d) = Some s' → sv_private_key s' = sv_private_key s →
  ping cipher net s d [] = (d, [], inr (if reachable s then "connected" else "disconnected", version_of s)).
Proof.
  intros Hok Hs Hk. unfold ping. destruct (is_local s) eqn:El.
  { rewrite (pinged_spec s (NewLocalProvider (sv_name s))) by (unfold engine_of; by rewrite El). done. }
  destruct (so_type cipher s Hok) as [[Et _]|(Et & [host Eh] & [user Eu] & (blob & pem & Eb & Hne & Ed))].
  { unfold is_local in El. by rewrite Et in El. }
  assert (Hg : getPrivateKey (sv_id s) d [] = (d, [], inr blob)).
  { unfold getPrivateKey, mbind, M_bind, bind, query, fallible. simpl. rewrite Hs. unfold mret, M_ret, ret. by rewrite Hk, Eb. }
  rewrite Et, Eh, Eu. simpl. unfold mbind, M_bind, bind, attempt. rewrite Hg.
  apply String.eqb_neq in Hne. rewrite Hne, Ed.
  assert (He : engine_of s = NewRemoteProvider net (sv_name s) host (sv_port s) user pem).
  { unfold engine_of. rewrite El, Eh, Eu, Eb. simpl. by rewrite Ed. }
  destruct (NewRemoteProvider _ _ _ _ _ _) as [t|] eqn:En.
  - by rewrite (pinged_spec s t).
  - unfold version_of, reachable. by rewrite He.
Qed.

Definition marked (s : Server) (d : Db) : Db := if newly_lost s then mark (sv_id s) d else d.

Lemma probe_run s d : server_ok cipher s → sel (srv_is (sv_id s)) (servers d) = Some s →
  probe cipher net now s d [] = (marked s (on_servers (upd (srv_is (sv_id s)) (seen s)) d), [], inr tt).
Proof.
  intros Hok Hs. unfold probe. unfold mbind at 1, M_bind at 1, bind at 1. rewrite (ping_run s s d Hok Hs eq_refl).
  unfold mbind, M_bind, bind, attempt, updateStatus, exec, fallible. simpl. unfold marked, newly_lost, seen, when.
  destruct (reachable s); [done|]. by destruct (sv_status s =s "disconnected").
Qed.

Definition pass (l : list Server) (d : Db) : Db := on_apps (fmap (lost_in l)) (on_servers (fmap (seen_in l)) d).

Lemma on_apps_id d : on_apps (fmap (lost_in [])) d = d.
Proof. destruct d. unfold on_apps. simpl. f_equal. by apply list_fmap_id. Qed.

Lemma unreachable_idem a : a_status a = "unreachable" → set_app_status "unreachable" a = a.
Proof. intros E. rewrite <- E. by destruct a. Qed.

Lemma pass_cons s l d : NoDup (sv_id <$> s :: l) → pass l (marked s (on_servers (upd (srv_is (sv_id s)) (seen s)) d)) = pass (s :: l) d.
Proof.
  intros [Hni Hnd]%list.NoDup_cons.
  assert (Hno : ∀ x, sv_id x = sv_id s → sel (srv_is (sv_id x)) l = None).
  { intros x E. destruct (sel _ l) as [y|] eqn:Ey; [|done]. apply sel_Some in Ey as [Hy Ey]. apply String.eqb_eq in Ey.
    destruct Hni. rewrite <- E, <- Ey. by apply list_elem_of_fmap_2. }
  assert (Hsrv : seen_in l <$> upd (srv_is (sv_id s)) (seen s) (servers d) = seen_in (s :: l) <$> servers d).
  { change (upd (srv_is (sv_id s)) (seen s) (servers d)) with ((λ x, if srv_is (sv_id s) x then seen s x else x) <$> servers d).
    rewrite <- list_fmap_compose. apply list_fmap_ext. intros i x _. cbn beta delta [compose].
    assert (Es : srv_is (sv_id x) s = srv_is (sv_id s) x) by apply String.eqb_sym. unfold seen_in. cbn [sel List.find]. rewrite Es.
    destruct (srv_is (sv_id s) x) eqn:E; [|done]. apply String.eqb_eq in E. change (sv_id (seen s x)) with (sv_id x). by rewrite Hno. }
  assert (Happ : ∀ d', apps d' = apps d → lost_in l <$> apps (marked s d') = lost_in (s :: l) <$> apps d).
  { intros d' E'. unfold marked. destruct (newly_lost s) eqn:En.
    - unfold mark. simpl. rewrite E'.
      change (lost_in l <$> ((λ a, if on_server (sv_id s) a && negb (a_status a =s "unreachable") then set_app_status "unreachable" a else a) <$> apps d)
              = lost_in (s :: l) <$> apps d).
      rewrite <- list_fmap_compose. apply list_fmap_ext. intros i a _. cbn beta delta [compose]. unfold lost_in at 2. simpl. rewrite En. simpl.
      destruct (on_server (sv_id s) a) eqn:Eo; simpl; [|done]. unfold lost_in. destruct (a_status a =s "unreachable") eqn:Eu; simpl.
      + apply String.eqb_eq in Eu. rewrite unreachable_idem by done. by destruct (List.existsb _ _).
      + by destruct (List.existsb _ _).
    - rewrite E'. apply list_fmap_ext. intros i a _. unfold lost_in at 2. simpl. by rewrite En. }
  assert (Hmk : servers (marked s (on_servers (upd (srv_is (sv_id s)) (seen s)) d)) = upd (srv_is (sv_id s)) (seen s) (servers d))
    by (unfold marked; by destruct (newly_lost s)).
  specialize (Happ (on_servers (upd (srv_is (sv_id s)) (seen s)) d) eq_refl).
  unfold pass, on_apps, on_servers. simpl. f_equal; try (unfold marked; by destruct (newly_lost s)).
  exact Happ.
Qed.

Lemma sel_marked s d : servers (marked s d) = servers d.
Proof. unfold marked. by destruct (newly_lost s). Qed.

Lemma pass_run l d : NoDup (sv_id <$> l) → (∀ s, s ∈ l → server_ok cipher s ∧ sel (srv_is (sv_id s)) (servers d) = Some s) →
  run (each (probe cipher net now) l) d = (pass l d, inr tt).
Proof.
  revert d. induction l as [|s l IH]; intros d Hnd Hl.
  - unfold run, pass. simpl. f_equal. f_equal. destruct d. unfold on_apps, on_servers. simpl. f_equal; symmetry; by apply list_fmap_id.
  - destruct (Hl s) as [Hok Hs]; [left|]. simpl. rewrite (run_bind _ _ _ _ _ (probe_run s d Hok Hs)), IH.
    + by rewrite pass_cons.
    + by apply list.NoDup_cons in Hnd as [_ ?].
    + intros x Hx. destruct (Hl x) as [Hokx Hsx]; [by right|]. split; [done|]. rewrite sel_marked. simpl.
      rewrite (sel_srv_upd _ _ (seen s)) with (s := x) by done.
      assert (srv_is (sv_id s) x = false) as ->; [|done]. apply (proj2 (String.eqb_neq _ _)). intros E.
      apply list.NoDup_cons in Hnd as [Hni _]. apply Hni. rewrite <- E. by apply list_elem_of_fmap_2.
Qed.

(** *** Under faults *)

(** What may happen to an app in a pass. *)
Definition app_spared (d : Db) (a a' : App) : Prop :=
  a' = a ∨ a' = set_app_status "unreachable" a ∧
    ∃ s, s ∈ servers d ∧ a_server_id a = Some (sv_id s) ∧ newly_lost s = true.

Record in_pass (d d' : Db) : Prop := {
  ip_apps : Forall2 (app_spared d) (apps d) (apps d');
  ip_keys : ∀ s, s ∈ servers d → ∃ s', sel (srv_is (sv_id s)) (servers d') = Some s' ∧ sv_private_key s' = sv_private_key s;
}.

Lemma in_pass_refl d : NoDup (sv_id <$> servers d) → in_pass d d.
Proof.
  intros Hnd. split; [induction (apps d); constructor; [by left|done]|].
  intros s Hs. exists s. split; [|done]. apply (sel_key sv_id); [|done..]. intros r. apply String.eqb_eq.
Qed.

(** Whatever fails, a server is pinged "disconnected" only when its engine is
    not reachable. *)
Lemma ping_lost s d d' : server_ok cipher s → s ∈ servers d → in_pass d d' →
  wp (ping cipher net s) (λ d'' r, d'' = d' ∧ ∀ ver, r = inr ("disconnected", ver) → reachable s = false) d'.
Proof.
  intros Hok Hs Hd. destruct (ip_keys d d' Hd s Hs) as (s' & Hsel & Hk). unfold ping.
  assert (Hp : ∀ t, engine_of s = Some t → ∀ ver, inr (A := SrvErr) (pinged (nt_Version net t)) = inr ("disconnected", ver) → reachable s = false).
  { intros t Et ver. rewrite (pinged_spec s t Et). by destruct (reachable s). }
  destruct (is_local s) eqn:El; [apply wp_ret; split; [done|]; apply Hp; unfold engine_of; by rewrite El|].
  destruct (so_type cipher s Hok) as [[Et _]|(Et & [host Eh] & [user Eu] & (blob & pem & Eb & Hne & Ed))].
  { unfold is_local in El. by rewrite Et in El. }
  rewrite Et, Eh, Eu. simpl. apply wp_bind, wp_attempt. unfold getPrivateKey.
  apply wp_bind, wp_query; [apply wp_ret; split; [done|]; by intros ?|]. rewrite Hsel. apply wp_ret. rewrite Hk, Eb. simpl.
  apply String.eqb_neq in Hne. rewrite Hne, Ed.
  assert (He : engine_of s = NewRemoteProvider net (sv_name s) host (sv_port s) user pem).
  { unfold engine_of. rewrite El, Eh, Eu, Eb. simpl. by rewrite Ed. }
  destruct (NewRemoteProvider _ _ _ _ _ _) as [t|] eqn:En; apply wp_ret; (split; [done|]); [by apply Hp|].
  intros ver _. unfold reachable. by rewrite He.
Qed.

Lemma status_in_pass s st ver d : preserves (in_pass d) (updateStatus now (sv_id s) st ver).
Proof.
  apply preserves_exec. intros d' [H1 H2]. split; [done|]. intros x Hx. destruct (H2 x Hx) as (x' & Hx' & Hk).
  eexists. split; [by apply sel_srv_upd|]. by destruct (srv_is _ x').
Qed.

Lemma mark_in_pass s d : s ∈ servers d → newly_lost s = true → preserves (in_pass d) (markAppsUnreachable (sv_id s)).
Proof.
  intros Hs Hn. apply preserves_exec. intros d' [H1 H2]. split; [simpl|done]. revert H1. generalize (apps d) (apps d').
  induction 1 as [|a a' l l' Ha _ IH]; [constructor|]. simpl. constructor; [|done].
  destruct (on_server (sv_id s) a' && _) eqn:E; [|done]. apply andb_true_iff in E as [E Eu]. unfold on_server in E. apply bool_decide_eq_true in E.
  right. destruct Ha as [->|[-> _]]; (split; [done|]; exists s; split_and!; done).
Qed.

Lemma probe_in_pass s d : server_ok cipher s → s ∈ servers d → preserves (in_pass d) (probe cipher net now s).
Proof.
  intros Hok Hs d' Hd. apply wp_bind. eapply wp_mono; [by eapply ping_lost|].
  intros d1 [e|[st ver]] [-> Hl]; [done|]. apply (wp_keep (in_pass d)); [apply preserves_attempt, status_in_pass|done|done|].
  intros d2 [e|[]] Hd2; [by apply wp_ret|]. unfold when. destruct (_ && _) eqn:E; [|by apply wp_ret].
  apply andb_true_iff in E as [Est Ep]. apply String.eqb_eq in Est. subst st. apply preserves_ignore; [|done]. apply mark_in_pass; [done|].
  unfold newly_lost. by rewrite (Hl ver eq_refl), Ep.
Qed.

Lemma pass_all l d : Permutation l (servers d) → NoDup (sv_id <$> servers d) →
  pass l d = on_apps (fmap (lost_in (servers d))) (on_servers (fmap (λ s, seen s s)) d).
Proof.
  intros Hp Hnd. unfold pass, on_apps, on_servers. simpl. f_equal.
  - apply list_fmap_ext. intros i x Hx%list_elem_of_lookup_2. unfold seen_in. rewrite (sel_key sv_id _ _ x); [done| | |by rewrite Hp].
    + intros r. apply String.eqb_eq.
    + by rewrite Hp.
  - apply list_fmap_ext. intros i a _. unfold lost_in. assert (Hex : ∀ p : Server → bool, List.existsb p l = List.existsb p (servers d)).
    { intros p. apply eq_true_iff_eq. rewrite !List.existsb_exists. setoid_rewrite <- list_elem_of_In. by setoid_rewrite Hp. }
    by rewrite Hex.
Qed.

Lemma runOnce_run d : servers_wf cipher d → run (runOnce cipher net now) d =
  (on_apps (fmap (lost_in (servers d))) (on_servers (fmap (λ s, seen s s)) d), inr tt).
Proof.
  intros [H1 H2 H3 H4]. pose proof (sort_by_perm created_le (servers d)) as Hp.
  rewrite <- (pass_all (sort_by created_le (servers d))) by done. change (run (runOnce cipher net now) d) with
    (run (each (probe cipher net now) (sort_by created_le (servers d))) d). apply pass_run; [by rewrite Hp|].
  intros s Hs%sort_by_elem. split; [auto|]. apply (sel_key sv_id); [|done..]. intros r. apply String.eqb_eq.
Qed.

(** A pass of the status loop.  When nothing fails, every server gets the
    status its engine deserves (connected exactly if it answers with a supported
    version) and every app whose server was lost since the last pass becomes
    unreachable, and nothing else changes; whatever fails, an app changes only
    in that way and only when its server's engine is out of reach. *)
Theorem status_pass d : servers_wf cipher d →
  run (runOnce cipher net now) d =
    (on_apps (fmap (lost_in (servers d))) (on_servers (fmap (λ s, seen s s)) d), inr tt) ∧
  wp (runOnce cipher net now) (λ d' _, Forall2 (app_spared d) (apps d) (apps d')) d.
Proof.
  intros Hwf. split; [by apply runOnce_run|]. destruct Hwf as [H1 H2 H3 H4].
  apply wp_bind, wp_attempt. apply wp_query; [by apply wp_ret, in_pass_refl|].
  apply (wp_each _ (in_pass d)); [by apply in_pass_refl| |intros d'; apply ip_apps].
  intros s d' Hs%sort_by_elem Hd. eapply wp_mono; [by apply (probe_in_pass s d); auto|].
  intros d'' [e|[]] Hd''; [by apply ip_apps|done].
Qed.
End Pass.

(** ** Lost servers and the app service *)

Section Lost.
Context `{AeadLib} `{!AeadLaws} `{SshLib} `{Unicode} (cipher : Cipher) (svc : Apps.Service).

Lemma step_held gone id d d' : srv_step cipher gone d d' → held id d → held id d'.
Proof.
  intros Hst Hd. destruct Hst as [| | | | |id']; try exact Hd. destruct Hd as [(a & Ha & Ea) Hs]. unfold mark. split; simpl.
  - eexists. split; [apply elem_of_upd; by exists a|]. by destruct (_ && _).
  - intros b (x & Hx & ->)%elem_of_upd. destruct (_ && _); [done|]. by apply Hs.
Qed.

(** After a pass of the status loop that finds a server newly out of reach,
    every app on it is unreachable, and stays so along every history of server
    and app calls (later passes that find the server back included) until a
    deploy reports it running or it is deleted. *)
Theorem lost_apps_held net now d s a l :
  servers_wf cipher d → apps_wf d → s ∈ servers d → newly_lost cipher net s = true → a ∈ apps d → a_server_id a = Some (sv_id s) →
  (∀ o fs, (o, fs) ∈ l → op_ok o ∧ o ≠ OApp (CSetStatus (a_id a) "running") ∧ o ≠ OApp (CDelete (a_id a))) →
  held (a_id a) (performed cipher svc l (run (runOnce cipher net now) d).1).
Proof.
  intros Hs Ha Hin Hl Hap Esv Hops. rewrite (runOnce_run cipher net now d Hs). simpl fst.
  apply (performed_keeps cipher svc (held (a_id a)) (λ o, op_ok o ∧ o ≠ OApp (CSetStatus (a_id a) "running") ∧ o ≠ OApp (CDelete (a_id a))));
    [| |done|].
  - intros c fs d' [Hc _] Hd'. eapply (steps_keep cipher (held (a_id a))); [|by apply serve_steps|done]. intros d1 d2. apply step_held.
  - intros c (_ & Hne1 & Hne2) d' Hd' fs. apply (serve_held svc (a_id a) c); congruence.
  - assert (Hlost : ∀ b, b ∈ apps d → a_id b = a_id a → lost_in cipher net (servers d) b = set_app_status "unreachable" b).
    { intros b Hb E. assert (b = a) as -> by (by apply (NoDup_fmap_inj a_id (apps d)); [apply Ha|..]). unfold lost_in.
      assert (List.existsb (λ s, newly_lost cipher net s && on_server (sv_id s) a) (servers d) = true) as ->; [|done].
      apply List.existsb_exists. exists s. split; [by apply list_elem_of_In|]. rewrite Hl. unfold on_server. by rewrite bool_decide_eq_true_2. }
    assert (Hid : ∀ b, a_id (lost_in cipher net (servers d) b) = a_id b) by (intros b; unfold lost_in; by destruct (List.existsb _ _)).
    split; simpl.
    + exists (lost_in cipher net (servers d) a). split; [by apply list_elem_of_fmap_2|apply Hid].
    + intros x (b & -> & Hb)%list_elem_of_fmap E. rewrite Hid in E. by rewrite (Hlost b Hb E).
Qed.
End Lost.

(** ** Examples *)

Definition no_ssh : SshLib := {| Signer := string; ParsePrivateKey s := Some s; MarshalAuthorizedKey s := s |}.
Definition dead_net : Net (H := no_ssh) :=
  mkNet (H := no_ssh) (λ _, true) (λ _, true) (λ _, Some "SHA256:k") (λ _ _ _, true) (λ _, false) (λ _, None) true.
Definition live_net : Net (H := no_ssh) :=
  mkNet (H := no_ssh) (λ _, true) (λ _, true) (λ _, Some "SHA256:k") (λ _ _ _, true) (λ _, true) (λ _, Some "24.0.7") true.

Lemma ex_servers_wf : servers_wf (H := toy_aead) "k" ex_db.
Proof.
  split; simpl.
  - intros s ->%list_elem_of_singleton. split; simpl; [done|lia|set_solver|by left].
  - apply NoDup_singleton.
  - apply NoDup_singleton.
  - vm_compute. lia.
Qed.

Definition ex_input : CreateInput := mkSrvInput "remote" " edge " "10.0.0.2" 0 "root" true "".

Lemma hosts_typed_witness :
  let d := performed (H := toy_aead) (H1 := no_ssh) (H2 := ascii_only) "k" ex_svc
    [(OSrv (SCreate live_net (Some ("PEM", "ssh-ed25519 AAAA")) (Some "abcdefghijkl") "s2" 7 ex_input), []);
     (OSrv (SLoop dead_net 9), [false; true]); (OApp (CStop "a"), []); (OSrv (SDelete "s"), [])] ex_db in
  (servers_wf (H := toy_aead) "k" d ∧ apps_wf d) ∧
  (λ s, (sv_name s, sv_port s, sv_status s)) <$> servers d = [("local", 22, "connected"); ("edge", 22, "disconnected")]%Z.
Proof.
  split; [|vm_compute; reflexivity].
  apply (hosts_typed (H := toy_aead) (H0 := toy_aead_laws) (H1 := no_ssh) (H2 := ascii_only)); [|exact ex_servers_wf|exact ex_db_wf].
  intros o fs Ho. rewrite !elem_of_cons in Ho.
  destruct Ho as [[= -> ->]|[[= -> ->]|[[= -> ->]|[[= -> ->]|Ho%not_elem_of_nil]]]]; simpl; try done. by intros n [= <-].
Defined.

Definition edge : Server :=
  mkServer "s2" "edge" "remote" (Some "10.0.0.2") 22 (Some "root")
    (match Encrypt (H := toy_aead) "k" (Some "abcdefghijkl") "PEM" with inr c => Some c | inl _ => None end)
    None "unknown" None None 7.
Definition edge_db : Db := on_servers (λ l, l ++ [edge]) ex_db.
Definition other_net : Net (H := no_ssh) :=
  mkNet (H := no_ssh) (λ _, true) (λ _, true) (λ _, Some "SHA256:other") (λ _ _ _, true) (λ _, true) (λ _, Some "24.0.7") true.

Lemma host_key_pinned_witness :
  let test := TestConnection (H := toy_aead) (H0 := no_ssh) "k" in
  let d1 := (test live_net 8%Z "s2" edge_db []).1.1 in
  let d2 := performed (H := toy_aead) (H1 := no_ssh) (H2 := ascii_only) "k" ex_svc
    [(OSrv (SLoop dead_net 9), []); (OSrv (SUpdate "s2" (mkSrvPatch (Some "edge-1") (Some "10.0.0.3") None None)), [])] d1 in
  pinned "s2" "SHA256:k" d2 ∧
  match (test other_net 10%Z "s2" d2 []).2 with inr rep => rp_Status rep = "disconnected" | inl _ => False end.
Proof.
  intros test d1 d2. split; [|vm_compute; reflexivity].
  destruct (host_key_pinned (H := toy_aead) (H0 := toy_aead_laws) (H1 := no_ssh) (H2 := ascii_only) "k" ex_svc "s2" edge_db live_net 8 []
    (mkReport "s2" "remote" "connected" ((λ n, mkCheck n true) <$> ["hostname_resolves"; "ssh_port_open"; "ssh_authenticates"; "docker_info"; "docker_version"; "docker_socket"]))
    edge) as (host & fp & Eh & Ek & _ & _ & Hl); [by vm_compute..|].
  simpl in Ek. injection Ek as <-. apply Hl; [done|].
  intros o fs Ho. rewrite !elem_of_cons in Ho. by destruct Ho as [[= -> ->]|[[= -> ->]|Ho%not_elem_of_nil]].
Defined.

Lemma status_pass_witness :
  let r := run (runOnce (H := toy_aead) (H0 := no_ssh) "k" dead_net 9) ex_db in
  r = (on_apps (fmap (lost_in (H := toy_aead) (H0 := no_ssh) "k" dead_net (servers ex_db)))
        (on_servers (fmap (λ s, seen (H := toy_aead) (H0 := no_ssh) "k" dead_net 9 s s)) ex_db), inr tt) ∧
  (sv_status <$> servers r.1 = ["disconnected"] ∧ a_status <$> apps r.1 = ["unreachable"]).
Proof.
  split; [|vm_compute; by split]. apply (status_pass (H := toy_aead) (H0 := no_ssh) "k" dead_net 9 ex_db ex_servers_wf).
Defined.

Lemma lost_apps_held_witness :
  held "a" (performed (H := toy_aead) (H1 := no_ssh) (H2 := ascii_only) "k" ex_svc
    [(OSrv (SLoop live_net 20), []); (OApp (CStop "a"), []); (OApp (CSetStatus "a" "error"), [])]
    (run (runOnce (H := toy_aead) (H0 := no_ssh) "k" dead_net 9) ex_db).1).
Proof.
  apply (lost_apps_held (H := toy_aead) (H0 := toy_aead_laws) (H1 := no_ssh) (H2 := ascii_only) "k" ex_svc dead_net 9 ex_db ex_server ex_app).
  - exact ex_servers_wf.
  - exact ex_db_wf.
  - left.
  - by vm_compute.
  - left.
  - done.
  - intros o fs Ho. rewrite !elem_of_cons in Ho. by destruct Ho as [[= -> ->]|[[= -> ->]|[[= -> ->]|Ho%not_elem_of_nil]]].
Defined.

(** A connection test that finds the server down records it, and the next pass
    then sees no change: the apps keep their status (statusloop.go: "When a server
    flips to disconnected, every app attached to it gets status=unreachable"). *)
Lemma test_hides_outage :
  let pass d := (run (runOnce (H := toy_aead) (H0 := no_ssh) "k" dead_net 9) d).1 in
  let tested := (run (TestConnection (H := toy_aead) (H0 := no_ssh) "k" dead_net 8 "s") ex_db).1 in
  sv_status <$> servers tested = ["disconnected"] ∧ a_status <$> apps (pass ex_db) = ["unreachable"] ∧
  a_status <$> apps (pass tested) = a_status <$> apps ex_db.
Proof. split_and!; vm_compute; reflexivity. Qed.

Lemma version_floor_witness :
  versionAtLeast (Itoa 20 ^^ "." ^^ Itoa 10 ^^ ".7-ce") minSupportedDockerVersion = true ∧
  versionAtLeast (Itoa 19 ^^ "." ^^ Itoa 99 ^^ "") minSupportedDockerVersion = false.
Proof.
  assert (Hce : ends_number ".7-ce") by (intros c t [= <- <-]; reflexivity). assert (Hnil : ends_number "") by (by intros ? ?).
  split.
  - by rewrite (version_floor 20 10 ".7-ce").
  - by rewrite (version_floor 19 99 "").
Defined.
