(* ===== verification/Launch.v ===== *)
(** * What the services accept, the engine can run

    The app and volume services validate what they store; much later the
    deploy engine turns the rows into a container configuration and the
    helpers of dockersvc parse the limits.  This file composes the two: a
    stored app never fails on the text of its limits, its ports or its mounts. *)

From S2P Require Import Prelude Effects GoStrings Decimal Regex Schema Routing Docker Domains Swap Apps Volumes.
From stdpp Require Import gmap.

(** [strconv.ParseFloat] accepts decimal numerals; 300 digits are far from the
    range of a float64. *)
Class FloatLaws `{Floats} := {
  parse_numeral : ∀ s, MatchString numeral s = true → (len s <= 300)%Z → is_Some (ParseFloat s);
}.
(** [nat.NewPort] accepts the ports of TCP. *)
Class NatLaws `{Nat} := { port_accepted : ∀ p, (1 <= p <= 65535)%Z → NewPort "tcp" p = true }.

Definition short (v : option string) : Prop := ∀ s, v = Some s → (len s <= 300)%Z.

(** ** Numerals *)

Definition num_byte (z : Z) : bool := d09 z || (z =? 46)%Z.

(** The last byte of a string. *)
Definition ends (p : Z → bool) (s : string) : Prop :=
  ∃ l c, String.list_ascii_of_string s = l ++ [c] ∧ p (byte c) = true.

Lemma ends_all p s : s ≠ "" → all_bytes p s = true → ends p s.
Proof.
  intros Hne Hall. destruct (String.list_ascii_of_string s) as [|c l _] eqn:E using rev_ind.
  - destruct s; [done|discriminate].
  - exists l, c. split; [done|]. unfold all_bytes in Hall. rewrite E, List.forallb_app in Hall. simpl in Hall. bool_simp. done.
Qed.

Lemma ends_app p s t : ends p t → ends p (s ^^ t).
Proof. intros (l & c & E & Hc). exists (String.list_ascii_of_string s ++ l), c. by rewrite list_of_app, E, app_assoc. Qed.

Lemma plus_spec p s : denotes (Plus (Cls p)) s → s ≠ "" ∧ all_bytes p s = true.
Proof.
  intros Hd. split; [|eapply within_all; [|exact Hd]; simpl; auto].
  inversion Hd as [| |r1 r2 s1 s2 H1 H2| | | |]; subst. by inversion H1; subst.
Qed.

Lemma numeral_spec s : denotes numeral s → s ≠ "" ∧ all_bytes num_byte s = true ∧ ends d09 s.
Proof.
  intros Hd. assert (Hall : all_bytes num_byte s = true).
  { assert (Hdig : ∀ z, d09 z = true → num_byte z = true) by (unfold num_byte; intros z ->; done).
    assert (Hdot : ∀ z, (z =? byte ".")%Z = true → num_byte z = true) by (intros z ->%Z.eqb_eq; done).
    eapply within_all; [|exact Hd]. repeat split; intros c Hc; solve [by apply Hdig|by apply Hdot]. }
  inversion Hd as [| |r1 r2 s1 s2 H1 H2| | | |]; subst. apply plus_spec in H1 as [N1 A1].
  split_and!; [by intros [-> ->]%app_empty|done|].
  inversion H2 as [| | |q1 q2 s' H3|q1 q2 s' H3| |]; subst.
  - inversion H3; subst. rewrite string_app_nil. by apply ends_all.
  - inversion H3 as [| |q1 q2 s3 s4 H4 H5| | | |]; subst. apply plus_spec in H5 as [N5 A5]. by apply ends_app, ends_app, ends_all.
Qed.

(** ** Trimming a suffix *)

Lemma trim_right_snoc p l c : trim_right_where p (l ++ [c]) = if p c then trim_right_where p l else l ++ [c].
Proof.
  induction l as [|x l IH]; simpl; [by destruct (p c)|]. rewrite IH. destruct (p c); [done|]. by destruct l.
Qed.

Lemma digit_not_unit c : d09 (byte c) = true → in_cutset "kmgb" c = false.
Proof. destruct c as [[] [] [] [] [] [] [] []]; by vm_compute. Qed.

Lemma TrimRight_numeral s c : ends d09 s → in_cutset "kmgb" c = true →
  TrimRight s "kmgb" = s ∧ TrimRight (s ^^ String c "") "kmgb" = s.
Proof.
  intros (l & x & E & Hx) Hc. unfold TrimRight.
  assert (Hs : trim_right_where (in_cutset "kmgb") (String.list_ascii_of_string s) = String.list_ascii_of_string s).
  { by rewrite E, trim_right_snoc, (digit_not_unit x Hx). }
  split; [by rewrite Hs, String.string_of_list_ascii_of_string|].
  rewrite list_of_app. change (String.list_ascii_of_string (String c "")) with [c].
  by rewrite trim_right_snoc, Hc, Hs, String.string_of_list_ascii_of_string.
Qed.

(** ** Limits are accepted *)

Section Limits.
Context `{FL : FloatLaws} `{Unicode}.

Lemma ToLower_ascii_app s t : all_bytes (λ z, (z <? 128)%Z && negb (is_upper_ascii z)) s = true → ToLower (s ^^ t) = s ^^ ToLower t.
Proof.
  induction s as [|c s IH]; [done|]. rewrite all_bytes_cons. intros Hs. bool_simp. pose proof (byte_range c).
  rewrite string_app_cons, ToLower_cons, IH, rune_lower_id, encode_rune_ascii by (done || lia). by rewrite of_byte_byte.
Qed.

Lemma num_plain s : all_bytes num_byte s = true → all_bytes (λ z, (z <? 128)%Z && negb (is_upper_ascii z)) s = true ∧ all_bytes graphic s = true.
Proof.
  assert (Hz : ∀ z, num_byte z = true → (46 <= z <= 57)%Z).
  { intros z Hz. unfold num_byte, d09 in Hz. apply orb_true_iff in Hz as [Hz|Hz]; [apply in_range_spec in Hz; lia|apply Z.eqb_eq in Hz; lia]. }
  intros Hs. split; (eapply all_bytes_mono; [|exact Hs]); intros z Hn%Hz.
  - apply andb_true_iff. split; [apply Z.ltb_lt; lia|]. apply negb_true_iff, in_range_false. lia.
  - apply in_range_spec. lia.
Qed.

(** A unit in either case is a unit in lower case. *)
Lemma unit_lower c : one_of "mgkbMGKB" (byte c) = true →
  ∃ c', ToLower (String c "") = String c' "" ∧ in_cutset "kmgb" c' = true ∧ graphic (byte c') = true.
Proof.
  unfold one_of. rewrite of_byte_byte. intros (x & Hx & Ex)%existsb_witness. apply Ascii.eqb_eq in Ex. subst x.
  simpl in Hx. rewrite !elem_of_cons in Hx.
  destruct Hx as [->|[->|[->|[->|[->|[->|[->|[->|Hx%not_elem_of_nil]]]]]]]]; [..|done];
    (eexists; split; [vm_compute; reflexivity|]; split; by vm_compute).
Qed.

Lemma memory_accepted s : MatchString memRegex s = true → (len s <= 300)%Z → is_Some (match parseMemory s with inr v => Some v | inl _ => None end).
Proof.
  intros Hm%MatchString_spec Hl. inversion Hm as [| |r1 r2 n u H1 H2 Er Es| | | |]. subst r1 r2.
  pose proof H1 as Hnum. apply numeral_spec in H1 as (Hne & Hall & Hend). destruct (num_plain n Hall) as [Hlow Hgr].
  assert (Hln : (len n <= 300)%Z) by (unfold len in *; rewrite <- Es, string_app_length in Hl; lia).
  assert (Hp : is_Some (ParseFloat n)) by (apply parse_numeral; [by apply MatchString_spec|done]).
  assert (Hcase : ∃ t, TrimSpace (ToLower s) = n ^^ t ∧ TrimRight (n ^^ t) "kmgb" = n).
  { rewrite <- Es, ToLower_ascii_app by done. inversion H2 as [| | |q1 q2 x H3|q1 q2 x H3| |]; subst.
    - inversion H3; subst. exists "". change (ToLower "") with "". rewrite string_app_nil, TrimSpace_id by done.
      split; [done|]. by apply (TrimRight_numeral n "k").
    - inversion H3 as [|p c Hc| | | | |]; subst. destruct (unit_lower c Hc) as (c' & E & Hcut & Hg). exists (String c' "").
      rewrite E. rewrite TrimSpace_id by (rewrite all_bytes_app, Hgr, all_bytes_cons, Hg; done). split; [done|].
      by apply TrimRight_numeral. }
  destruct Hcase as (t & Et & Etr). unfold parseMemory. cbv zeta. rewrite Es, Et.
  assert ((n ^^ t =s "") = false) as -> by (apply String.eqb_neq; by intros [-> _]%app_empty).
  rewrite Etr. destruct Hp as [v ->]. by eexists.
Qed.

Lemma cpus_accepted s : MatchString cpuRegex s = true → (len s <= 300)%Z → is_Some (match parseCPUs s with inr v => Some v | inl _ => None end).
Proof.
  intros Hm Hl. pose proof Hm as Hd. apply MatchString_spec in Hd. apply numeral_spec in Hd as (Hne & Hall & _). destruct (num_plain s Hall) as [_ Hg].
  unfold parseCPUs. rewrite TrimSpace_id by done. apply String.eqb_neq in Hne. rewrite Hne.
  destruct (parse_numeral s Hm Hl) as [v ->]. by eexists.
Qed.

Lemma swap_accepted s : MatchString memRegex s = true → (len s <= 300)%Z → is_Some (match parseMemorySwap s with inr v => Some v | inl _ => None end).
Proof.
  intros Hm Hl. unfold parseMemorySwap. cbv zeta.
  pose proof (memRegex_graphic s Hm) as Hg.
  rewrite TrimSpace_id by done. destruct (s =s "") eqn:E1; [by eexists|]. destruct (s =s "-1"); [by eexists|]. by apply memory_accepted.
Qed.
End Limits.

(** ** From rows to a configuration *)

Lemma inr_of {E A} (r : E + A) : is_Some (match r with inr v => Some v | inl _ => None end) → ∃ v, r = inr v.
Proof. destruct r as [e|v]; [by intros [? ?]|eauto]. Qed.

Section Launch.
Context {D C : Type} `{DD : DockerDaemon D} `{CC : CaddyClient C} `{Fl : Floats} `{Nt : Nat} `{Uc : Unicode}.
Context `{!FloatLaws} `{!NatLaws}.

(** The limits of an app, no longer than ParseFloat is known to take. *)
Definition limits_short (a : App) : Prop :=
  short (a_limits_memory a) ∧ short (a_limits_memory_swap a) ∧ short (a_limits_memory_reservation a) ∧ short (a_limits_cpus a).

(** A parser that accepts what the column stores, applied where the text is not empty. *)
Lemma limit_parsed (parse : string → DkErr + Z) (r : re) (v : option string) z :
  (∀ s, MatchString r s = true → (len s <= 300)%Z → is_Some (match parse s with inr v => Some v | inl _ => None end)) →
  stored_ok r v → short v → ∃ x, (if negb (derefStr v =s "") then parse (derefStr v) else inr z) = inr x.
Proof.
  intros Hp Hok Hs. destruct v as [s|]; [|by eexists]. simpl. destruct (s =s ""); [by eexists|]. simpl.
  apply inr_of, Hp; auto.
Qed.

Lemma resources_accepted a dep image temp env bs ms : app_ok a → limits_short a →
  ∃ r, resources_of (candidate_opts a dep image temp env bs ms) = inr r.
Proof.
  intros Ha (S1 & S2 & S3 & S4). destruct (ok_memory a Ha) as (M1 & M2 & M3). destruct (ok_cpu a Ha) as [C1 _].
  destruct (limit_parsed parseMemory memRegex _ 0 memory_accepted M1 S1) as [m Em].
  destruct (limit_parsed parseCPUs cpuRegex _ 0 cpus_accepted C1 S4) as [c Ec].
  destruct (limit_parsed parseMemorySwap memRegex _ 0 swap_accepted M2 S2) as [sw Esw].
  destruct (limit_parsed parseMemory memRegex _ 0 memory_accepted M3 S3) as [rs Ers].
  unfold resources_of, parseResources, candidate_opts. simpl. rewrite Em. simpl. rewrite Ec. simpl. rewrite Esw. simpl.
  rewrite Ers. simpl. by eexists.
Qed.

Lemma containerPort_range a : app_ok a → (1 <= containerPort_of a <= 65535)%Z.
Proof.
  intros Ha. destruct (ok_ports a Ha) as (Hp & _). unfold containerPort_of. unfold within_ok in Hp.
  destruct (a_port a) as [p|]; [|lia]. destruct (0 <? p)%Z eqn:E; [|lia]. bool_simp. lia.
Qed.

Lemma config_accepted a dep image temp env bs ms : app_ok a → limits_short a →
  (∀ b, b ∈ bs → pb_ContainerPort b = containerPort_of a ∧ pb_Protocol b = "tcp") → List.forallb mount_ok ms = true →
  ∃ cfg, config_of (candidate_opts a dep image temp env bs ms) = inr cfg.
Proof.
  intros Ha Hs Hbs Hms. unfold config_of. cbv zeta. destruct (resources_accepted a dep image temp env bs ms Ha Hs) as [r Er].
  assert (Hp : List.forallb (λ b, NewPort (pb_Protocol b) (pb_ContainerPort b)) (normal_port <$> bs) = true).
  { apply List.forallb_forall. intros b Hb%list_elem_of_In. apply list_elem_of_fmap in Hb as (b' & -> & Hb').
    destruct (Hbs b' Hb') as [E1 E2]. unfold normal_port. simpl. rewrite E1, E2. simpl.
    apply port_accepted, containerPort_range, Ha. }
  rewrite Er. cbn. rewrite Hp, Hms. by eexists.
Qed.

Definition bindings_fit (a : App) (bs : list PortBinding) : Prop :=
  ∀ b, b ∈ bs → pb_ContainerPort b = containerPort_of a ∧ pb_Protocol b = "tcp".

(** The errors a swap reports about the text of a row. *)
Definition bad_config (err : DkErr) : bool :=
  match err with ErrInvalidResource => true | ErrDocker w => (w =s "port") || (w =s "mount") | _ => false end.
Definition row_error (err : DeployErr) : bool :=
  match err with
  | ErrDeploy m => m =s "bind mount has no host_path"
  | ErrDeployDocker _ err => bad_config err
  | _ => false
  end.

Definition rows_ok (w : World D C) : Prop := Forall vol_ok (app_volumes (w_db w)).

(** [m] keeps the volumes valid, reports no such error and returns values in [P]. *)
Definition fine {A} (P : A → Prop) (m : wM (D := D) (C := C) A) : Prop := ∀ w fs, rows_ok w →
  rows_ok (m w fs).1.1 ∧ match (m w fs).2 with inl err => row_error err = false | inr x => P x end.

Definition whatever {A} (x : A) : Prop := True.
Definition not_bad {A} (r : DkErr + A) : Prop := match r with inl err => bad_config err = false | inr _ => True end.

Lemma fine_bind {A B} (P : A → Prop) (Q : B → Prop) (m : wM A) (k : A → wM B) :
  fine P m → (∀ x, P x → fine Q (k x)) → fine Q (mbind k m).
Proof.
  intros Hm Hk w fs Hw. unfold mbind, M_bind, bind. specialize (Hm w fs Hw). destruct (m w fs) as [[w' fs'] [err|x]]; simpl in *; [done|].
  destruct Hm as [Hw' Hx]. by apply Hk.
Qed.

Lemma fine_ret {A} (P : A → Prop) x : P x → fine P (mret x : wM A).
Proof. by intros Hx w fs Hw. Qed.
Lemma fine_throw {A} (P : A → Prop) err : row_error err = false → fine P (throw err : wM A).
Proof. by intros He w fs Hw. Qed.
Lemma fine_when b (m : wM unit) : fine whatever m → fine whatever (when b m).
Proof. intros Hm. destruct b; [exact Hm|by apply fine_ret]. Qed.
Lemma fine_ignore {A} (P : A → Prop) (m : wM A) : fine P m → fine whatever (ignore m).
Proof. intros Hm w fs Hw. specialize (Hm w fs Hw). unfold ignore. destruct (m w fs) as [[w' fs'] r]. simpl in *. by destruct Hm. Qed.
Lemma fine_each {A} (f : A → wM unit) l : (∀ x, fine whatever (f x)) → fine whatever (each f l).
Proof. intros Hf. induction l; simpl; [by apply fine_ret|]. eapply fine_bind; [apply Hf|done]. Qed.
Lemma fine_docker {A} (P : DkErr + A → Prop) (m : dockM (D := D) A) : (∀ s fs, P (m s fs).2) → fine P (docker m).
Proof. intros Hm w fs Hw. unfold docker. specialize (Hm (w_docker w, []) fs). by destruct (m _ _) as [[s fs'] r]. Qed.
Lemma fine_call {A} (m : dockM (D := D) A) : fine whatever (docker m).
Proof. by apply fine_docker. Qed.
Lemma fine_query {A} t (f : Db → A) : fine whatever (wquery t f : wM A).
Proof. intros w [|[] fs] Hw; done. Qed.
Lemma fine_proxy f : fine whatever (proxy f : wM caddy_res).
Proof. intros w fs Hw. unfold proxy. by destruct (f _). Qed.

(** *** The helpers report none of these errors *)

Lemma named_not_bad w nf (f : D → D * dk_res) s fs :
  bad_config nf = false → bad_config (ErrDocker w) = false → not_bad (named_call w nf f s fs).2.
Proof. intros Hn Hw. unfold named_call, mbind, M_bind, bind, Docker.call. simpl. by destruct (f s.1).2. Qed.

Lemma ensure_not_bad n ls s fs : not_bad (EnsureVolume (D := D) n ls s fs).2.
Proof. unfold EnsureVolume. destruct (_ =s _); [done|]. unfold mbind, M_bind, bind, Docker.call. simpl. by destruct (is_ok _). Qed.

Lemma run_not_bad opts cfg s fs : config_of opts = inr cfg → not_bad (RunContainer (D := D) opts s fs).2.
Proof.
  intros E. unfold RunContainer. do 2 (destruct (_ =s _); [done|]). rewrite E. unfold mbind, M_bind, bind, Docker.call. simpl.
  destruct (ContainerCreate cfg s.1) as [d [r id]]. simpl. destruct (is_ok r); [|done]. simpl. by destruct (is_ok _).
Qed.

(** *** The steps of a swap *)

Lemma fine_updateFields id f : fine whatever (Swap.updateFields id f : wM unit).
Proof.
  eapply (fine_bind whatever); [intros w [|[] fs] Hw; by split|]. intros n _. destruct (n =? 0)%nat; [by apply fine_throw|by apply fine_ret].
Qed.

Lemma fine_SetStatus id st : fine whatever (Swap.SetStatus id st : wM unit).
Proof.
  eapply fine_bind; [apply fine_query|]. intros [cur|] _; [|by apply fine_throw].
  destruct (_ && _); [by apply fine_ret|]. intros w [|[] fs] Hw; by split.
Qed.

Lemma fine_stop_and_remove n : fine whatever (stop_and_remove n : wM unit).
Proof. do 2 (eapply fine_bind; [apply fine_call|intros _ _]). by apply fine_ret. Qed.

Lemma fine_preHook a n : fine whatever (preDeployHook a n : wM unit).
Proof.
  unfold preDeployHook. destruct (Swap.given _); [|by apply fine_ret]. eapply fine_bind; [apply fine_call|]. intros ex _.
  destruct (match ex with inr b => b | inl _ => false end); [|by apply fine_ret].
  eapply (fine_bind not_bad); [apply fine_docker; intros; by apply named_not_bad|]. intros [err|?] Hr; [by apply fine_throw|by apply fine_ret].
Qed.

Lemma fine_env e v a : fine whatever (runtime_env e v a : wM _).
Proof.
  unfold runtime_env. destruct (en_Secrets e); [|by apply fine_ret]. destruct (ev_secrets v _); [by apply fine_ret|by apply fine_throw].
Qed.

Lemma fine_appDomains id : fine whatever (appDomains id : wM _).
Proof.
  apply (fine_bind whatever); [intros w [|[] fs] Hw; by split|]. intros l _. cbv zeta. destruct (split_primary _ _ _) as [p al].
  destruct (p =s ""); [|by apply fine_ret]. destruct al; by apply fine_ret.
Qed.

Lemma fine_assign free id : fine whatever (assign_port free id : wM Z).
Proof.
  intros w fs Hw. unfold assign_port, zoom, AssignHostPort. destruct (FindAvailablePort _ _ _); [done|].
  unfold mbind, M_bind, bind. destruct fs as [|[] fs]; simpl; try done; by destruct (_ =? 0)%nat.
Qed.

Lemma fine_bindings v a b : fine (bindings_fit a) (port_bindings v a b : wM _).
Proof.
  unfold port_bindings. destruct b; [apply fine_ret; by intros b ?%not_elem_of_nil|].
  apply (fine_bind whatever).
  - destruct (a_host_port a) as [p|]; [destruct (0 <? p)%Z|]; [by apply fine_ret|apply fine_assign..].
  - intros p _. apply fine_ret. by intros b ->%list_elem_of_singleton.
Qed.

Lemma vol_source a v : path_ok (v_mount_path v) → mount_ok (mkMount (namedVolumeName (a_name a) (v_mount_path v)) (v_mount_path v) "volume" (v_read_only v)) = true.
Proof. intros (Hne & _). apply String.eqb_neq in Hne. unfold mount_ok. simpl. by rewrite Hne. Qed.

Lemma fine_mounts a vols : Forall vol_ok vols → fine (λ ms, List.forallb mount_ok ms = true) (mounts_of a vols : wM _).
Proof.
  induction 1 as [|v vols Hv _ IH]; simpl; [by apply fine_ret|]. destruct (match v_service v with Some _ => true | None => false end); [done|].
  apply (fine_bind (λ m, mount_ok m = true)); [|intros m Hm; apply (fine_bind (λ ms, List.forallb mount_ok ms = true)); [done|];
    intros ms Hms; apply fine_ret; simpl; by rewrite Hm, Hms].
  pose proof (vo_mount v Hv) as Hp. pose proof (vo_host v Hv) as Hh. destruct (v_host_path v) as [h|].
  - destruct Hh as [-> (Hne & _)]. apply fine_ret. destruct Hp as (Hnm & _). apply String.eqb_neq in Hne, Hnm.
    unfold mount_ok. simpl. by rewrite Hne, Hnm.
  - rewrite Hh. apply (fine_bind not_bad); [apply fine_docker; intros; apply ensure_not_bad|].
    intros [err|?] Hr; [by apply fine_throw|]. by apply fine_ret, vol_source.
Qed.

Lemma fine_routes force up port hosts : fine whatever (route_all force up port hosts : wM unit).
Proof.
  induction hosts as [|h hosts IH]; simpl; [by apply fine_ret|]. eapply fine_bind; [apply fine_proxy|].
  intros [] _; [done|by apply fine_throw..].
Qed.

Lemma fine_reroutes force up port hosts : fine whatever (reroute_all force up port hosts : wM unit).
Proof. induction hosts as [|h hosts IH]; simpl; [by apply fine_ret|]. by eapply fine_bind; [apply fine_proxy|]. Qed.

Lemma fine_promote e v a image temp hosts force b : fine whatever (promote e v a image temp hosts force b : wM unit).
Proof.
  unfold promote. cbv zeta. destruct (negb _).
  { do 3 (eapply fine_bind; [apply fine_call|intros _ _]). by apply fine_throw. }
  eapply fine_bind; [apply fine_when, fine_routes|]. intros _ _.
  eapply fine_bind; [apply fine_each, fine_stop_and_remove|]. intros _ _.
  apply (fine_bind not_bad); [apply fine_docker; intros; by apply named_not_bad|]. intros [err|?] Hr; [by apply fine_throw|].
  eapply fine_bind; [apply fine_when, fine_reroutes|]. intros _ _. apply fine_when.
  eapply fine_bind; [apply fine_call|]. intros _ _. by apply fine_ret.
Qed.

Lemma fine_load e a : fine (λ ms, List.forallb mount_ok ms = true) (load_mounts e a : wM _).
Proof.
  unfold load_mounts. destruct (en_AppVolumes e); [|by apply fine_ret].
  apply (fine_bind (λ r, match r with inr l => Forall vol_ok l | inl _ => True end)).
  - assert (Hl : ∀ w, rows_ok w → Forall vol_ok (volumes_of (a_id a) (w_db w))).
    { intros w Hw. apply list.Forall_forall. intros v Hv. apply sort_by_elem, list_elem_of_In, List.filter_In in Hv as [Hv _].
      apply list_elem_of_In in Hv. by apply (proj1 (list.Forall_forall _ _) Hw). }
    intros w [|[] fs] Hw; by (split; [|try apply Hl]).
  - intros [err|l] Hl; apply fine_mounts; [constructor|done].
Qed.

(** C15: A swap of an app whose row went through the app service, with volumes
    that went through the volume service, never fails on the text of a row,
    provided its limits have at most 300 characters each: whatever else fails,
    the errors it returns are not those of an unparsable limit, a refused port,
    an unknown or empty mount, a bind mount without a host path.  The service
    has no bound on the length of a limit, and one of 400 digits is stored
    ([long_limit_stored]); ParseFloat answers it with a range error, and the
    launch fails on it ([long_limit_fails]). *)
Theorem stored_rows_launch e v a image dep (w : World D C) fs :
  app_ok a → limits_short a → vols_wf (w_db w) →
  match (swap e v a image dep w fs).2 with inl err => row_error err = false | inr _ => True end.
Proof.
  intros Ha Hs Hw. assert (Hrows : rows_ok w) by (apply list.Forall_forall, (vw_rows _ Hw)).
  enough (Hf : fine whatever (swap e v a image dep)) by apply (Hf w fs Hrows). unfold swap.
  eapply fine_bind; [eapply fine_ignore, fine_updateFields|]. intros _ _.
  eapply fine_bind; [eapply fine_ignore, fine_SetStatus|]. intros _ _.
  apply (fine_bind whatever); [by intros ??|]. intros _ _. cbv zeta.
  eapply fine_bind; [apply fine_preHook|]. intros _ _.
  eapply fine_bind; [apply fine_env|]. intros env _.
  eapply fine_bind; [apply fine_appDomains|]. intros [[p al] force] _. cbv zeta.
  eapply fine_bind; [apply fine_bindings|]. intros bs Hbs.
  eapply fine_bind; [apply fine_when, fine_each, fine_stop_and_remove|]. intros _ _.
  eapply fine_bind; [apply fine_call|]. intros _ _.
  eapply fine_bind; [apply fine_load|]. intros ms Hms.
  destruct (config_accepted a dep image (tempName_of (ev_hex v) image a) env bs ms Ha Hs Hbs Hms) as [cfg Ec].
  apply (fine_bind not_bad); [apply fine_docker; intros; by eapply run_not_bad|].
  intros [err|?] Hr; [by apply fine_throw|apply fine_promote].
Qed.
End Launch.

(** ** Limits beyond the bound *)

(** A limit of four hundred digits passes the service. *)
Definition long_limit : string := Nat.iter 400 (String "9") "".

Lemma long_limit_stored : validateLimits (Some long_limit) (Some long_limit) = inr tt ∧ len long_limit = 400%Z.
Proof. split; vm_compute; reflexivity. Qed.

(** A ParseFloat that answers numbers out of range with an error, as strconv
    documents it, makes the engine refuse the limit. *)
Lemma long_limit_fails `{Fl : Floats} `{Uc : Unicode} : ToLower long_limit = long_limit → TrimSpace long_limit = long_limit →
  ParseFloat long_limit = None → parseMemory long_limit = inl ErrInvalidResource.
Proof.
  intros El Et Hf. unfold parseMemory. rewrite El, Et.
  assert ((long_limit =s "") = false) as -> by (vm_compute; reflexivity).
  assert (TrimRight long_limit "kmgb" = long_limit) as -> by (vm_compute; reflexivity). by rewrite Hf.
Qed.

(** ** Example *)

(** Numerals by their length: enough to satisfy the laws. *)
Definition numeral_floats : Floats :=
  {| float64 := Z; ParseFloat s := if MatchString numeral s then Some (len s) else None; scaled v m := (v * m)%Z |}.

Lemma numeral_laws : FloatLaws (H := numeral_floats).
Proof. split. intros s Hs _. simpl. rewrite Hs. by eexists. Qed.

Lemma any_port_laws : NatLaws (H := any_port).
Proof. split. intros p Hp. simpl. apply andb_true_iff. rewrite !Z.leb_le. lia. Qed.

(** An app with limits, a port and two named volumes. *)
Definition lx_app : App :=
  apply_app_sets (patch_sets None None None (mkPatch None None false None false None None None None None None
    None None None None None None None None None (Some 9000%Z) None None (Some "1.5G") (Some "0.5") None None false None None None false
    None None false None None None None)) ex_app.

Lemma stored_rows_launch_witness :
  let v := mkEnv (λ _, Some ∅) [(10, Some 200)]%Z (λ _, true) 0 "dep-1" "abcdef0" in
  let e := mkEngine false true true None "/logs" in
  let w : World (list Container) (gmap string Route) := mkWorld two_vols [] ∅ [] [] in
  let r := swap (Fl := numeral_floats) (Nt := any_port) (Uc := ascii_only) e v lx_app "prexel-web-bbb:2" "dep-1" w [] in
  match r.2 with inl err => row_error err = false | inr _ => True end ∧ r.2 = inr tt ∧
  (λ c, (c_name c, r_Memory (cf_Resources (c_config c)), mt_Target <$> cf_Mounts (c_config c))) <$> w_docker r.1.1 =
    [("web", 3 * 1024 * 1024 * 1024, ["/data"; "/logs"])%Z].
Proof.
  intros v e w r. split.
  - apply (stored_rows_launch (Fl := numeral_floats) (Nt := any_port) (Uc := ascii_only) (H := numeral_laws) (H0 := any_port_laws)).
    + split; try (apply (bool_decide_unpack _); by vm_compute); try by split_and!.
      all: split_and!; intros s Hs; vm_compute in Hs; simplify_eq; by vm_compute.
    + split_and!; intros s Hs; vm_compute in Hs; simplify_eq; by vm_compute.
    + exact two_vols_wf.
  - split; vm_compute; reflexivity.
Defined.
