(* ===== verification/Backup.v ===== *)
(** * Backups

    Snapshots of the instance (internal/backup) and their restoration
    (internal/cli/command/restore.go): the file format, atomic writes, the
    service over the snapshot directory.  The file system is a map from paths to
    contents with times; every operation on it can fail.  Key derivation, AES-GCM
    with additional data, tar with gzip and JSON are operations of a class, with
    what their documentation promises as laws. *)

From S2P Require Import Prelude Effects GoStrings Regex Paths.
From stdpp Require Import gmap.

(** ** Libraries *)

(** [Manifest]; the time is kept as the number of nanoseconds it denotes. *)
Record Manifest := mkManifest { mf_FormatVersion : Z; mf_InstanceID : string; mf_AppVersion : string; mf_CreatedAt : Z }.

Class BackupLib := {
  (** [scrypt.Key] with the parameters of the format. *)
  scrypt_key : string → string → option string;
  (** AES-256-GCM: key, nonce, text, additional data. *)
  aad_seal : string → string → string → string → string;
  aad_open : string → string → string → string → option string;
  (** A gzipped tar of named files; [None]: any error of either reader. *)
  pack : list (string * string) → string;
  unpack : string → option (list (string * string));
  json_encode : Manifest → string;
  json_decode : string → option Manifest;
}.

(** A name a tar header holds as it is. *)
Definition plain_name (s : string) : bool := negb (s =s "") && (len s <=? 100)%Z && all_bytes graphic s.

(** A manifest whose strings are UTF-8 and whose time is in the range. *)
Definition plain_manifest (m : Manifest) : bool :=
  ValidString (mf_InstanceID m) && ValidString (mf_AppVersion m) && (0 <=? mf_CreatedAt m)%Z && (mf_CreatedAt m <? 2 ^ 63)%Z.

Class BackupLaws `{Bl : BackupLib} := {
  scrypt_total : ∀ pass salt, is_Some (scrypt_key pass salt);
  aad_roundtrip : ∀ k n pt aad, len n = 12%Z → aad_open k n (aad_seal k n pt aad) aad = Some pt;
  (** The tag is a function of the rest: only what was sealed opens. *)
  aad_sound : ∀ k n ct aad pt, aad_open k n ct aad = Some pt → ct = aad_seal k n pt aad;
  unpack_pack : ∀ l, Forall (λ e, plain_name e.1 = true) l → unpack (pack l) = Some l;
  (** encoding/json replaces what is not UTF-8 in a string; a time has a year
      up to 9999, and the clock of the server is an int64. *)
  json_roundtrip : ∀ m, plain_manifest m = true → json_decode (json_encode m) = Some m;
}.

(** ** Paths *)

(** [filepath.Join] of a clean directory and a file name. *)
Definition in_dir (dir name : string) : string := dir ^^ "/" ^^ name.

(** ** The file system *)

Record File := mkFile { fl_data : string; fl_mtime : Z }.
Local Abbreviation Fs := (gmap string File).

Inductive BkErr :=
  | ErrBadMagic
  | ErrBadPassphrase
  | ErrWeakPassphrase
  | ErrMissingDB
  | ErrInvalidID
  | ErrBkNotFound
  | ErrArchive (where_ : string)
  | ErrIO (where_ : string).

Local Abbreviation bM := (M Fs BkErr).

(** [now]: the clock; [part]: what a failing write leaves behind. *)
Section Files.
Variables (now : Z) (part : string).

Definition ReadFile (w path : string) : bM string :=
  checked (ErrIO w) (λ fs, match fs !! path with None => inl (ErrIO w) | Some f => inr (fs, fl_data f) end).
Definition content (fs : Fs) (path : string) : string := match fs !! path with Some f => fl_data f | None => "" end.
(** The file gets [data], or [part] when the call fails. *)
Definition put (w path : string) (data : Fs → string) : bM unit := λ fs faults,
  match faults with
  | true :: faults => (<[path := mkFile part now]> fs, faults, inl (ErrIO w))
  | _ => (<[path := mkFile (data fs) now]> fs, tail faults, inr tt)
  end.
(** [tmp.Write] and [os.WriteFile]. *)
Definition append (w path data : string) : bM unit := put w path (λ fs, content fs path ^^ data).
Definition WriteFile (w path data : string) : bM unit := put w path (λ _, data).
Definition Rename (w from to : string) : bM unit :=
  checked (ErrIO w) (λ fs, match fs !! from with
    | None => inl (ErrIO w)
    | Some f => inr (<[to := f]> (delete from fs), tt)
    end).
Definition Remove (w path : string) : bM bool :=
  fallible (ErrIO w) (λ fs, (delete path fs, match fs !! path with Some _ => true | None => false end)).
Definition Stat (w path : string) : bM (option File) := query (ErrIO w) (λ fs, fs !! path).

(** ** The format (format.go) *)

Definition FormatVersion : Z := 1.
Definition FileExtension : string := ".prexel-backup".
Definition saltLen : nat := 16.
Definition nonceLen : nat := 12.
Definition magicV1 : string := "PRXBKP" ^^ String (of_byte 0) (String (of_byte FormatVersion) "").

Record Inputs := mkInputs { in_DBPath : string; in_SecretKey : string; in_InstanceID : string; in_AppVersion : string; in_Passphrase : string }.
Record ReadResult := mkResult { rd_Manifest : Manifest; rd_DBBytes : string; rd_SecretKey : string }.

Context `{Bl : BackupLib}.

Definition entries (db secret : string) (m : Manifest) : list (string * string) :=
  [("prexel.db", db); ("secret_key.txt", secret); ("manifest.json", json_encode m)].

Definition buildArchive (inp : Inputs) : bM string :=
  db ← ReadFile "read db" (in_DBPath inp);
  mret (pack (entries db (in_SecretKey inp) (mkManifest FormatVersion (in_InstanceID inp) (in_AppVersion inp) now))).

Definition deriveKey (pass salt : string) : BkErr + string :=
  match scrypt_key pass salt with None => inl (ErrIO "scrypt") | Some k => inr k end.

Definition backup_bytes (key salt nonce plain : string) : string :=
  magicV1 ^^ salt ^^ nonce ^^ aad_seal key nonce plain magicV1.

(** [salt], [nonce]: the random bytes, if the source answers; [tmp]: the name
    of the temporary file next to [out]. *)
Definition Write (inp : Inputs) (out tmp : string) (salt nonce : option string) : bM Z :=
  if (len (in_Passphrase inp) <? 12)%Z then throw ErrWeakPassphrase
  else
    plain ← buildArchive inp;
    salt ← of_result (match salt with None => inl (ErrIO "salt") | Some s => inr s end);
    nonce ← of_result (match nonce with None => inl (ErrIO "nonce") | Some n => inr n end);
    key ← of_result (deriveKey (in_Passphrase inp) salt);
    let ct := aad_seal key nonce plain magicV1 in
    _ ← exec (ErrIO "temp") <[tmp := mkFile "" now]>;
    (** [defer os.Remove(tmpPath)] *)
    r ← attempt (
      _ ← append "write" tmp magicV1;
      _ ← append "write" tmp salt;
      _ ← append "write" tmp nonce;
      _ ← append "write" tmp ct;
      _ ← exec (ErrIO "sync") (λ fs, fs);
      _ ← exec (ErrIO "close") (λ fs, fs);
      _ ← Rename "rename" tmp out;
      st ← Stat "stat" out;
      match st with None => throw (ErrIO "stat") | Some f => mret (len (fl_data f)) end);
    _ ← ignore (Remove "temp" tmp);
    of_result r.

Fixpoint unpack_entries (l : list (string * string)) (out : ReadResult) (foundDB : bool) : BkErr + ReadResult :=
  match l with
  | [] => if foundDB then inr out else inl ErrMissingDB
  | (name, data) :: l =>
    let clean := Clean name in
    if negb (clean =s name) || IsAbs clean then inl (ErrArchive "bad entry name")
    else if name =s "prexel.db" then unpack_entries l (mkResult (rd_Manifest out) data (rd_SecretKey out)) true
    else if name =s "secret_key.txt" then unpack_entries l (mkResult (rd_Manifest out) (rd_DBBytes out) (TrimSpace data)) foundDB
    else if name =s "manifest.json" then
      match json_decode data with
      | None => inl (ErrArchive "manifest decode")
      | Some m => unpack_entries l (mkResult m (rd_DBBytes out) (rd_SecretKey out)) foundDB
      end
    else unpack_entries l out foundDB
  end.
Definition unpackArchive (plain : string) : BkErr + ReadResult :=
  match unpack plain with
  | None => inl (ErrArchive "gunzip, tar")
  | Some l => unpack_entries l (mkResult (mkManifest 0 "" "" 0) "" "") false
  end.

(** The bytes of a file, as [Read] takes them apart. *)
Definition decode (data passphrase : string) : BkErr + ReadResult :=
  let header := (String.length magicV1 + saltLen + nonceLen)%nat in
  if (String.length data <? header)%nat then inl ErrBadMagic
  else if negb (take_s (String.length magicV1) data =s magicV1) then inl ErrBadMagic
  else
    let salt := take_s saltLen (drop_s (String.length magicV1) data) in
    let nonce := take_s nonceLen (drop_s (String.length magicV1 + saltLen) data) in
    key ← deriveKey passphrase salt;
    match aad_open key nonce (drop_s header data) magicV1 with
    | None => inl ErrBadPassphrase
    | Some plain => unpackArchive plain
    end.

Definition Read (path passphrase : string) : bM ReadResult :=
  data ← ReadFile "open" path;
  of_result (decode data passphrase).
End Files.

(** ** The service (service.go) *)

Record Entry := mkEntry { en_ID : string; en_FileName : string; en_SizeBytes : Z; en_CreatedAt : Z }.

(** The host's state: database path, secret key, instance id, version. *)
Record Snapshotter := mkSnapshotter {
  sn_DBPath : string; sn_SecretKey : string; sn_InstanceID : option string; sn_AppVersion : string;
}.

Definition id_rune (r : Z) : bool :=
  (r =? 45)%Z || (r =? 95)%Z || (r =? 58)%Z || in_range 48 57 r || in_range 97 122 r || in_range 65 90 r.
Definition validateID (id : string) : BkErr + string :=
  if id =s "" then inl ErrInvalidID
  else if negb (List.forallb id_rune (runes id)) then inl ErrInvalidID
  else if Contains id ".." || HasPrefix id "." then inl ErrInvalidID
  else inr (id ^^ FileExtension).

Section Service.
Context `{Bl : BackupLib} (dir : string) (snap : Snapshotter).

(** [stamp]: the time in the layout of the file names. *)
Definition Create (now : Z) (part : string) (stamp : string) (tmp : string) (salt nonce : option string) (passphrase : string) : bM Entry :=
  if (len passphrase <? 12)%Z then throw ErrWeakPassphrase
  else
    iid ← of_result (match sn_InstanceID snap with None => inl (ErrIO "instance id") | Some i => inr i end);
    let id := "prexel-" ^^ stamp in
    let fileName := id ^^ FileExtension in
    size ← Write now part (mkInputs (sn_DBPath snap) (sn_SecretKey snap) iid (sn_AppVersion snap) passphrase)
             (in_dir dir fileName) (in_dir dir tmp) salt nonce;
    mret (mkEntry id fileName size now).

(** The files of the directory, by name. *)
Definition dir_entry (e : string * File) : option (string * File) :=
  let name := TrimPrefix e.1 (dir ^^ "/") in
  if HasPrefix e.1 (dir ^^ "/") && negb (Contains name "/") && HasSuffix name FileExtension then Some (name, e.2) else None.
Definition by_name (x y : string * File) : bool := String.leb x.1 y.1.
Definition newest_entry (x y : Entry) : bool := (en_CreatedAt y <=? en_CreatedAt x)%Z.
Definition List_ : bM (list Entry) :=
  query (ErrIO "list") (λ fs : Fs, sort_by newest_entry ((λ e : string * File,
    mkEntry (TrimSuffix e.1 FileExtension) e.1 (len (fl_data e.2)) (fl_mtime e.2)) <$>
    sort_by by_name (omap dir_entry (map_to_list (M := Fs) fs)))).

Definition Path (id : string) : bM string :=
  name ← of_result (validateID id);
  st ← Stat "stat" (in_dir dir name);
  match st with None => throw ErrBkNotFound | Some _ => mret (in_dir dir name) end.

Definition Delete (id : string) : bM unit :=
  name ← of_result (validateID id);
  there ← Remove "delete" (in_dir dir name);
  if (there : bool) then mret tt else throw ErrBkNotFound.
End Service.

(** ** Restoration (cli/command/restore.go) *)

Definition copyFile (now : Z) (part src dst : string) : bM unit :=
  data ← ReadFile "copy" src; WriteFile now part "copy" dst data.

(** [writable]: the file's mode lets it be opened for writing. *)
Definition isDBLocked (writable : bool) (path : string) : bM bool :=
  st ← attempt (Stat "lock" path);
  match st with
  | inr None => mret false
  | _ =>
    o ← attempt (checked (ErrIO "lock") (λ fs, if writable && is_some (fs !! path) then inr (fs, tt) else inl (ErrIO "lock")));
    mret (match o with inl _ => true | inr _ => false end)
  end.

(** [line]: what the operator answers. *)
Definition readYes `{Uc : Unicode} (line : string) : bool :=
  let a := ToLower (TrimSpace line) in (a =s "y") || (a =s "yes").

(** [passphrase]: the flag's or the prompt's; [yes]: the flag that skips the
    question; [part]: what a failing write leaves. *)
Definition restore `{Uc : Unicode} `{Bl : BackupLib} (now : Z) (part : string) (writable yes : bool) (line dataDir file passphrase : string) : bM unit :=
  _ ← when (file =s "") (throw (ErrArchive "file required"));
  _ ← when (negb (HasSuffix file FileExtension)) (throw (ErrArchive "extension"));
  st ← Stat "cannot read backup file" file;
  _ ← when (negb (is_some st)) (throw (ErrIO "cannot read backup file"));
  let dbPath := in_dir dataDir "prexel.db" in
  locked ← isDBLocked writable dbPath;
  _ ← when locked (throw (ErrIO "in use"));
  res ← Read file passphrase;
  _ ← when (negb yes && negb (readYes line)) (throw (ErrIO "aborted"));
  old ← attempt (Stat "stat" dbPath);
  _ ← match old with inr (Some _) => copyFile now part dbPath (dbPath ^^ ".pre-restore") | _ => mret tt end;
  let tmp := dbPath ^^ ".restoring" in
  _ ← WriteFile now part "write db" tmp (rd_DBBytes res);
  r ← attempt (Rename "swap db" tmp dbPath);
  match r with
  | inl e => _ ← ignore (Remove "tmp" tmp); throw e
  | inr _ => WriteFile now part "sidecar" (in_dir dataDir "SECRET_KEY.restored") (rd_SecretKey res ^^ String (of_byte 10) "")
  end.

(** ** The format *)

Section Format.
Context `{Bl : BackupLib} `{Bw : !BackupLaws}.

Lemma entries_names db secret m : Forall (λ e, plain_name e.1 = true) (entries db secret m).
Proof. by repeat constructor. Qed.

Lemma unpack_spec db secret m : plain_manifest m = true → unpackArchive (pack (entries db secret m)) = inr (mkResult m db (TrimSpace secret)).
Proof.
  intros Hm. unfold unpackArchive. rewrite unpack_pack by apply entries_names. unfold entries. cbn [unpack_entries].
  change (Clean "prexel.db") with "prexel.db". change (Clean "secret_key.txt") with "secret_key.txt".
  change (Clean "manifest.json") with "manifest.json". simpl. by rewrite json_roundtrip by done.
Qed.

(** The parts of a file. *)
Lemma parts salt nonce rest : String.length salt = saltLen → String.length nonce = nonceLen →
  let data := magicV1 ^^ salt ^^ nonce ^^ rest in
  (String.length data <? String.length magicV1 + saltLen + nonceLen)%nat = false ∧
  take_s (String.length magicV1) data = magicV1 ∧ take_s saltLen (drop_s (String.length magicV1) data) = salt ∧
  take_s nonceLen (drop_s (String.length magicV1 + saltLen) data) = nonce ∧
  drop_s (String.length magicV1 + saltLen + nonceLen) data = rest.
Proof.
  intros Hs Hn data. unfold data. split_and!.
  - apply Nat.ltb_ge. rewrite !string_app_length. lia.
  - by apply take_drop_app.
  - rewrite (proj2 (take_drop_app magicV1 (salt ^^ nonce ^^ rest) _ eq_refl)). by apply take_drop_app.
  - rewrite <- string_app_assoc. rewrite (proj2 (take_drop_app (magicV1 ^^ salt) _ (String.length magicV1 + saltLen) ltac:(rewrite string_app_length; lia))).
    by apply take_drop_app.
  - rewrite <- !string_app_assoc. apply take_drop_app. rewrite !string_app_length. lia.
Qed.

Lemma decode_bytes key salt nonce plain pass : String.length salt = saltLen → String.length nonce = nonceLen →
  scrypt_key pass salt = Some key → decode (backup_bytes key salt nonce plain) pass = unpackArchive plain.
Proof.
  intros Hs Hn Hk. unfold decode, backup_bytes. cbv zeta.
  destruct (parts salt nonce (aad_seal key nonce plain magicV1) Hs Hn) as (-> & -> & -> & -> & ->).
  rewrite String.eqb_refl. simpl negb. cbv iota. unfold deriveKey. rewrite Hk. simpl.
  rewrite aad_roundtrip; [done|]. unfold len. by rewrite Hn.
Qed.

(** Reading a backup accepts exactly the files that were sealed: when it
    returns a result, the file consists of the magic, a salt, a nonce and the
    sealing, under the key of the passphrase and that salt, of an archive that
    holds a database; any other bytes, or another passphrase that derives another
    key, give an error. *)
Theorem read_authentic data pass res : decode data pass = inr res →
  ∃ salt nonce key plain, String.length salt = saltLen ∧ String.length nonce = nonceLen ∧ scrypt_key pass salt = Some key ∧
    data = backup_bytes key salt nonce plain ∧ unpackArchive plain = inr res.
Proof.
  unfold decode. cbv zeta. destruct (_ <? _)%nat eqn:El; [done|]. apply Nat.ltb_ge in El.
  destruct (take_s (String.length magicV1) data =s magicV1) eqn:Em; simpl negb; cbv iota; [|done]. apply String.eqb_eq in Em.
  set (m := String.length magicV1) in *. intros Hr.
  destruct (cut m data ltac:(lia)) as [E1 L1]. set (d1 := drop_s m data) in *.
  assert (Hd1 : saltLen + nonceLen ≤ String.length d1) by (assert (String.length data = m + String.length d1) by (rewrite E1 at 1; rewrite string_app_length; lia); lia).
  destruct (cut saltLen d1 ltac:(lia)) as [E2 L2]. set (salt := take_s saltLen d1) in *. set (d2 := drop_s saltLen d1) in *.
  assert (Hd2 : nonceLen ≤ String.length d2) by (assert (String.length d1 = saltLen + String.length d2) by (rewrite E2 at 1; rewrite string_app_length; lia); lia).
  destruct (cut nonceLen d2 Hd2) as [E3 L3]. set (nonce := take_s nonceLen d2) in *. set (rest := drop_s nonceLen d2) in *.
  rewrite Em in E1. assert (Hdata : data = magicV1 ^^ salt ^^ nonce ^^ rest) by (rewrite E1 at 1; rewrite E2 at 1; by rewrite E3 at 1).
  destruct (parts salt nonce rest L2 L3) as (_ & _ & _ & P4 & P5). rewrite <- Hdata in P4, P5. unfold m in Hr. rewrite P4, P5 in Hr.
  unfold deriveKey in Hr. destruct (scrypt_key pass salt) as [key|] eqn:Ek; [|done]. simpl in Hr.
  destruct (aad_open _ _ _ _) as [plain|] eqn:Eo; [|done]. apply aad_sound in Eo.
  exists salt, nonce, key, plain. split_and!; [done..| |done]. unfold backup_bytes. by rewrite <- Eo.
Qed.
End Format.

(** ** Writing *)

Lemma wp_put now part w path data (Q : Fs → BkErr + unit → Prop) fs :
  Q (<[path := mkFile part now]> fs) (inl (ErrIO w)) → Q (<[path := mkFile (data fs) now]> fs) (inr tt) → wp (put now part w path data) Q fs.
Proof. by intros H1 H2 [|[] fs']. Qed.

Section Writing.
Context `{Bl : BackupLib} `{Bw : !BackupLaws} (now : Z) (part : string).

(** The manifest of a backup taken now. *)
Definition plain_inputs (inp : Inputs) : Prop := plain_manifest (mkManifest FormatVersion (in_InstanceID inp) (in_AppVersion inp) now) = true.

(** The file opens, with the passphrase, to the bytes the file prexel.db has in
    [fs].  The commits that are still in its -wal are no part of them. *)
Definition snapshot (inp : Inputs) (fs : Fs) (file : option File) : Prop :=
  ∃ db f, fs !! in_DBPath inp = Some db ∧ file = Some f ∧
    decode (fl_data f) (in_Passphrase inp) = inr (mkResult (mkManifest FormatVersion (in_InstanceID inp) (in_AppVersion inp) now)
      (fl_data db) (TrimSpace (in_SecretKey inp))).

Definition elsewhere (out tmp : string) (fs fs' : Fs) : Prop := ∀ p, p ≠ out → p ≠ tmp → fs' !! p = fs !! p.

(** What a write leaves, by its result. *)
Definition written (inp : Inputs) (out tmp : string) (fs fs' : Fs) (r : BkErr + Z) : Prop :=
  elsewhere out tmp fs fs' ∧
  match r with
  | inl _ => fs' !! out = fs !! out ∨ snapshot inp fs (fs' !! out)
  | inr n => snapshot inp fs (fs' !! out) ∧ n = len (content fs' out)
  end.

Lemma written_tmp inp out tmp fs x e : out ≠ tmp → written inp out tmp fs (<[tmp := x]> fs) (inl e).
Proof. intros Hne. split; [intros p _ Hp|left]; by rewrite lookup_insert_ne. Qed.

(** Appending to the temporary file. *)
Lemma wp_append w tmp c data (Q : Fs → BkErr + unit → Prop) fs :
  Q (<[tmp := mkFile part now]> fs) (inl (ErrIO w)) → Q (<[tmp := mkFile (c ^^ data) now]> fs) (inr tt) →
  wp (append now part w tmp data) Q (<[tmp := mkFile c now]> fs).
Proof.
  intros H1 H2. unfold append. apply wp_put.
  - by rewrite insert_insert_eq.
  - cbv beta. unfold content. by rewrite lookup_insert_eq, insert_insert_eq.
Qed.

(** The deferred removal of the temporary file changes nothing. *)
Lemma written_cleanup inp out tmp fs fs' r : out ≠ tmp → written inp out tmp fs fs' r → written inp out tmp fs (delete tmp fs') r.
Proof.
  intros Hne [He Hr]. assert (Ho : delete tmp fs' !! out = fs' !! out) by by rewrite lookup_delete_ne.
  split; [intros p Hp Hp'; rewrite lookup_delete_ne by done; by apply He|].
  destruct r; rewrite Ho; [done|]. destruct Hr as [Hs ->]. split; [done|]. unfold content. by rewrite Ho.
Qed.

Lemma write_wp inp out tmp salt nonce fs : plain_inputs inp →
  out ≠ tmp → (∀ s, salt = Some s → String.length s = saltLen) → (∀ n, nonce = Some n → String.length n = nonceLen) →
  wp (Write now part inp out tmp salt nonce) (written inp out tmp fs) fs.
Proof.
  intros Hplain Hne Hsalt Hnonce.
  assert (Hfail : ∀ e, written inp out tmp fs fs (inl e)) by (intros e; split; [done|by left]).
  unfold Write. apply wp_if; intros _; [by apply wp_throw|]. apply wp_bind. unfold buildArchive, ReadFile.
  apply wp_bind, wp_checked; [done|]. destruct (fs !! in_DBPath inp) as [db|] eqn:Edb; [apply wp_ret|done].
  apply wp_bind, wp_of_result. destruct salt as [salt|]; [|done].
  apply wp_bind, wp_of_result. destruct nonce as [nonce|]; [|done]. specialize (Hsalt _ eq_refl). specialize (Hnonce _ eq_refl).
  apply wp_bind, wp_of_result. unfold deriveKey. destruct (scrypt_total (in_Passphrase inp) salt) as [key Ek]. rewrite Ek. cbv zeta.
  apply wp_bind, wp_exec; [done|].
  set (plain := pack _). set (whole := backup_bytes key salt nonce plain).
  assert (Hdec : decode whole (in_Passphrase inp) = inr (mkResult (mkManifest FormatVersion (in_InstanceID inp) (in_AppVersion inp) now)
      (fl_data db) (TrimSpace (in_SecretKey inp)))) by (unfold whole; rewrite (decode_bytes key) by done; by apply unpack_spec).
  assert (Hsnap : snapshot inp fs (Some (mkFile whole now))) by (by exists db, (mkFile whole now)).
  assert (Htmp : ∀ x e, written inp out tmp fs (<[tmp := x]> fs) (inl e)) by (intros; by apply written_tmp).
  set (fs' := <[out := mkFile whole now]> (delete tmp (<[tmp := mkFile whole now]> fs))).
  assert (Hout : fs' !! out = Some (mkFile whole now)) by apply lookup_insert_eq.
  assert (Helse : elsewhere out tmp fs fs') by (intros p H1 H2; subst fs'; by rewrite lookup_insert_ne, lookup_delete_ne, lookup_insert_ne).
  apply wp_bind, wp_attempt. eapply (wp_mono _ (λ s r, written inp out tmp fs s r)).
  - do 4 (apply wp_bind, wp_append; [done|]). do 2 (apply wp_bind, wp_exec; [done|]).
    rewrite string_nil_app, !string_app_assoc. change (magicV1 ^^ _) with whole.
    apply wp_bind, wp_checked; [done|]. rewrite lookup_insert_eq. fold fs'.
    assert (Hl : ∀ e, written inp out tmp fs fs' (inl e)) by (intros e; split; [done|right; by rewrite Hout]).
    apply wp_bind, wp_query; [done|]. rewrite Hout. apply wp_ret. split; [done|]. unfold content. by rewrite Hout.
  - intros s r Hr. apply wp_bind, wp_ignore, wp_fallible; apply wp_of_result; [done|]. by apply written_cleanup.
Qed.

(** Writing a backup is atomic: whatever fails, and whatever a failing
    write leaves behind, the destination is either as it was or a complete
    snapshot of the file of the database, which the same passphrase opens; on success it is the
    snapshot, and no file but the destination and the temporary one is touched. *)
Theorem write_atomic inp out tmp salt nonce fs : plain_inputs inp →
  out ≠ tmp → (∀ s, salt = Some s → String.length s = saltLen) → (∀ n, nonce = Some n → String.length n = nonceLen) →
  wp (Write now part inp out tmp salt nonce) (written inp out tmp fs) fs.
Proof. apply write_wp. Qed.
End Writing.

(** ** Restoring *)

Section Restoring.
Context `{Uc : Unicode} `{Bl : BackupLib} (now : Z) (part : string) (writable yes : bool) (line dataDir file pass : string).

Let dbPath := in_dir dataDir "prexel.db".
Let pre := dbPath ^^ ".pre-restore".
Let tmp := dbPath ^^ ".restoring".
Let sidecar := in_dir dataDir "SECRET_KEY.restored".

Lemma paths_differ : dbPath ≠ pre ∧ dbPath ≠ tmp ∧ dbPath ≠ sidecar ∧ pre ≠ tmp ∧ pre ≠ sidecar ∧ tmp ≠ sidecar.
Proof. unfold pre, tmp, sidecar, dbPath, in_dir. rewrite !string_app_assoc. by split_and!; intros E%string_app_inj_l. Qed.

(** The database is as it was, or the one of an accepted backup. *)
Definition kept_or_restored (fs fs' : Fs) : Prop :=
  (∀ p, p ≠ dbPath → p ≠ pre → p ≠ tmp → p ≠ sidecar → fs' !! p = fs !! p) ∧
  (fs' !! dbPath = fs !! dbPath ∨
   ∃ f res, fs !! file = Some f ∧ decode (fl_data f) pass = inr res ∧ (yes || readYes line) = true ∧ fs' !! dbPath = Some (mkFile (rd_DBBytes res) now)).

Lemma isDBLocked_wp (Q : Fs → BkErr + bool → Prop) fs : (∀ b, Q fs (inr b)) → wp (isDBLocked writable dbPath) Q fs.
Proof.
  intros HQ. unfold isDBLocked. apply wp_bind, wp_attempt, wp_query.
  2: destruct (fs !! dbPath); [|by apply wp_ret].
  all: apply wp_bind, wp_attempt, wp_checked; [by apply wp_ret|]; destruct (writable && _); by apply wp_ret.
Qed.
Lemma restore_wp fs :
  wp (restore now part writable yes line dataDir file pass)
    (λ fs' r, kept_or_restored fs fs' ∧
      (r = inr tt → ∃ f res, fs !! file = Some f ∧ decode (fl_data f) pass = inr res ∧
        content fs' dbPath = rd_DBBytes res ∧ content fs' sidecar = rd_SecretKey res ^^ String (of_byte 10) "")) fs.
Proof.
  set (Q := λ _ _, _). destruct paths_differ as (N1 & N2 & N3 & N4 & N5 & N6).
  assert (Hnear : ∀ fs' e, (∀ p, p ≠ pre → p ≠ tmp → fs' !! p = fs !! p) → Q fs' (inl e)).
  { intros fs' e He. split; [|done]. split; [intros p _ Hp Hp' _; by apply He|left; by apply He]. }
  assert (Hfail : ∀ e, Q fs (inl e)) by (intros e; by apply Hnear).
  unfold restore. apply wp_guard; intros; [done|]. apply wp_guard; intros; [done|].
  apply wp_bind, wp_query; [done|]. apply wp_guard; intros; [done|]. cbv zeta. fold dbPath.
  apply wp_bind, isDBLocked_wp. intros locked. apply wp_guard; intros; [done|].
  apply wp_bind. unfold Read, ReadFile. apply wp_bind, wp_checked; [done|]. destruct (fs !! file) as [f|] eqn:Ef; [|done].
  apply wp_of_result. destruct (decode (fl_data f) pass) as [e|res] eqn:Ed; [done|].
  apply wp_guard; [done|]. intros Hc. rewrite <- negb_orb in Hc. apply negb_false_iff in Hc. apply wp_bind, wp_attempt.
  eapply (wp_mono _ (λ s _, s = fs)); [by apply wp_query|]. intros s old ->. cbv beta iota.
  apply wp_bind. eapply (wp_mono _ (λ s r, ∀ p, p ≠ pre → p ≠ tmp → s !! p = fs !! p)).
  { destruct old as [e|[o|]]; [by apply wp_ret| |by apply wp_ret]. unfold copyFile, ReadFile.
    apply wp_bind, wp_checked; [done|]. destruct (fs !! dbPath); [|done]. apply wp_put; intros p Hp Hp'; by rewrite lookup_insert_ne. }
  intros fs1 [e|[]] Hfs1; [by apply Hnear|]. fold pre tmp.
  apply wp_bind, wp_put; [apply Hnear; intros p Hp Hp'; rewrite lookup_insert_ne by done; by apply Hfs1|].
  set (fs2 := <[tmp := _]> fs1).
  assert (Hfs2 : ∀ p, p ≠ pre → p ≠ tmp → fs2 !! p = fs !! p) by (intros p Hp Hp'; unfold fs2; rewrite lookup_insert_ne by done; by apply Hfs1).
  apply wp_bind, wp_attempt, wp_checked.
  { apply wp_bind, wp_ignore, wp_fallible; apply wp_throw, Hnear; [done|]. intros p Hp Hp'. simpl. rewrite lookup_delete_ne by done. by apply Hfs2. }
  unfold fs2 at 1. rewrite lookup_insert_eq. fold fs2.
  assert (Hlast : ∀ x, kept_or_restored fs (<[sidecar := x]> (<[dbPath := mkFile (rd_DBBytes res) now]> (delete tmp fs2)))).
  { intros x. split; [|right; exists f, res; by rewrite lookup_insert_ne, lookup_insert_eq].
    intros p ? ? ? ?. rewrite !lookup_insert_ne, lookup_delete_ne by done. by apply Hfs2. }
  apply wp_put; (split; [apply Hlast|]); [done|]. intros _. exists f, res. unfold content.
  rewrite lookup_insert_eq, lookup_insert_ne, lookup_insert_eq by done. done.
Qed.

(** C34: Whatever fails during a restoration, the database afterwards is either
    untouched or exactly the one of the backup, which the passphrase opened and
    the operator confirmed; when no error is returned it is the backup's and the
    recovered key is in the sidecar file; four files at most are touched. *)
Theorem restore_safe fs :
  wp (restore now part writable yes line dataDir file pass)
    (λ fs' r, kept_or_restored fs fs' ∧
      (r = inr tt → ∃ f res, fs !! file = Some f ∧ decode (fl_data f) pass = inr res ∧
        content fs' dbPath = rd_DBBytes res ∧ content fs' sidecar = rd_SecretKey res ^^ String (of_byte 10) "")) fs.
Proof. apply restore_wp. Qed.
End Restoring.

(** ** From a snapshot to a restored instance *)

Lemma runs_put now part w path data fs : runs (put now part w path data) fs (<[path := mkFile (data fs) now]> fs) tt.
Proof. done. Qed.

Section RestoreRuns.
Context `{Uc : Unicode} `{Bl : BackupLib} (now : Z) (part : string).

(** A backup file accepted with its passphrase is restored. *)
Lemma restore_runs dataDir file pass fs f res :
  HasSuffix file FileExtension = true → fs !! file = Some f → decode (fl_data f) pass = inr res →
  let dbPath := in_dir dataDir "prexel.db" in
  ∃ fs', runs (restore now part true true "" dataDir file pass) fs fs' tt ∧
    (∀ old, fs !! dbPath = Some old → fs' !! (dbPath ^^ ".pre-restore") = Some (mkFile (fl_data old) now)).
Proof.
  intros Hsuf Hf Hd dbPath. destruct (paths_differ dataDir) as (N1 & N2 & N3 & N4 & N5 & N6).
  assert (Hne : (file =s "") = false) by (apply String.eqb_neq; by intros ->).
  assert (Hlock : runs (isDBLocked true dbPath) fs fs false).
  { unfold isDBLocked. destruct (fs !! dbPath) eqn:Eo.
    - eapply runs_bind; [apply runs_attempt; by eapply runs_query|]. cbv beta iota.
      eapply runs_bind; [apply runs_attempt, runs_checked; by rewrite Eo|]. apply runs_ret.
    - eapply runs_bind; [apply runs_attempt; by eapply runs_query|]. apply runs_ret. }
  set (fs1 := match fs !! dbPath with Some old => <[dbPath ^^ ".pre-restore" := mkFile (fl_data old) now]> fs | None => fs end).
  eexists. split.
  - unfold restore. apply runs_guard; [done|]. apply runs_guard; [by rewrite Hsuf|].
    eapply runs_bind; [by apply (runs_query _ _ _ (Some f))|]. apply runs_guard; [done|]. fold dbPath. cbv zeta.
    eapply runs_bind; [apply Hlock|]. apply runs_guard; [done|].
    eapply runs_bind; [eapply runs_bind; [by apply runs_checked; rewrite Hf|rewrite Hd; apply runs_of_result]|].
    apply runs_guard; [done|]. eapply runs_bind; [apply runs_attempt; by apply (runs_query _ _ _ (fs !! dbPath))|].
    eapply (runs_bind _ _ _ fs1).
    { unfold fs1. destruct (fs !! dbPath) eqn:Eo; [|apply runs_ret]. eapply runs_bind; [by apply runs_checked; rewrite Eo|]. apply runs_put. }
    eapply runs_bind; [apply runs_put|].
    eapply runs_bind; [apply runs_attempt, runs_checked; by rewrite lookup_insert_eq|]. apply runs_put.
  - intros old Ho. unfold fs1. rewrite Ho. rewrite !lookup_insert_ne, lookup_delete_ne, lookup_insert_ne by done. by apply lookup_insert_eq.
Qed.

End RestoreRuns.

Section Roundtrip.
Context `{Uc : Unicode} `{Bl : BackupLib} `{Bw : !BackupLaws} (now : Z) (part : string).

Lemma write_runs inp out tmp salt nonce fs db :
  out ≠ tmp → (12 <= len (in_Passphrase inp))%Z → fs !! in_DBPath inp = Some db →
  ∃ fs' n, runs (Write now part inp out tmp (Some salt) (Some nonce)) fs fs' n.
Proof.
  intros Hne Hp Hdb. unfold Write. replace (len (in_Passphrase inp) <? 12)%Z with false by (symmetry; apply Z.ltb_ge; lia).
  destruct (scrypt_total (in_Passphrase inp) salt) as [key Ek]. unfold deriveKey.
  eexists _, _. eapply runs_bind.
  { eapply runs_bind; [by apply runs_checked; rewrite Hdb|]. apply runs_ret. }
  do 2 (eapply runs_bind; [apply runs_of_result|]). eapply runs_bind; [rewrite Ek; apply runs_of_result|]. cbv zeta.
  eapply runs_bind; [apply runs_exec|]. eapply runs_bind.
  { apply runs_attempt. do 4 (eapply runs_bind; [apply runs_put|]). do 2 (eapply runs_bind; [apply runs_exec|]).
    eapply runs_bind; [by apply runs_checked; rewrite lookup_insert_eq|].
    eapply runs_bind; [by apply runs_query; rewrite lookup_insert_eq|]. apply runs_ret. }
  eapply runs_bind; [eapply runs_ignore, runs_fallible|]. apply runs_of_result.
Qed.

(** C33: A backup taken and restored without faults gives the file of the
    database back: when the id and the version of the instance are UTF-8, taking
    it succeeds and changes only the new file; and wherever that file is later
    found, restoring it with the same passphrase succeeds, puts the bytes that
    prexel.db had when it was read in place, keeps the replaced file beside it and
    writes the key to the sidecar.  The database is opened in WAL mode and the
    backup copies prexel.db alone: commits that are still in prexel.db-wal are
    not in those bytes, and a copy made during a checkpoint is whatever the one
    read finds. *)
Theorem backup_roundtrip dir snap stamp tmp salt nonce pass iid fs db :
  sn_InstanceID snap = Some iid → fs !! sn_DBPath snap = Some db → (12 <= len pass)%Z →
  String.length salt = saltLen → String.length nonce = nonceLen →
  ValidString iid = true → ValidString (sn_AppVersion snap) = true → (0 <= now < 2 ^ 63)%Z →
  let name := "prexel-" ^^ stamp ^^ FileExtension in
  name ≠ tmp →
  ∃ fs1 e, runs (Create dir snap now part stamp tmp (Some salt) (Some nonce) pass) fs fs1 e ∧
    elsewhere (in_dir dir name) (in_dir dir tmp) fs fs1 ∧
    ∀ now' dataDir file fs2, let dbPath := in_dir dataDir "prexel.db" in
      HasSuffix file FileExtension = true → fs2 !! file = fs1 !! in_dir dir name →
      ∃ fs3, runs (restore now' part true true "" dataDir file pass) fs2 fs3 tt ∧
        content fs3 dbPath = fl_data db ∧
        content fs3 (in_dir dataDir "SECRET_KEY.restored") = TrimSpace (sn_SecretKey snap) ^^ String (of_byte 10) "" ∧
        (∀ old, fs2 !! dbPath = Some old → fs3 !! (dbPath ^^ ".pre-restore") = Some (mkFile (fl_data old) now')).
Proof.
  intros Hi Hdb Hp Hs Hn Hiid Hver Hnow name Hne. set (inp := mkInputs (sn_DBPath snap) (sn_SecretKey snap) iid (sn_AppVersion snap) pass).
  assert (Hplain : plain_inputs now inp) by (unfold plain_inputs, plain_manifest; simpl; rewrite Hiid, Hver; lia).
  assert (Hne' : in_dir dir name ≠ in_dir dir tmp) by (intros E; by apply string_app_inj_l, string_app_inj_l in E).
  destruct (write_runs inp (in_dir dir name) (in_dir dir tmp) salt nonce fs db Hne' Hp Hdb) as (fs1 & n & Hrun).
  assert (Hw := write_wp now part inp (in_dir dir name) (in_dir dir tmp) (Some salt) (Some nonce) fs Hplain Hne' ltac:(by intros ? [= <-]) ltac:(by intros ? [= <-])).
  destruct (runs_wp _ _ _ _ _ Hrun Hw) as [He [(db' & f & Hdb' & Hf & Hd) _]].
  change (in_DBPath inp) with (sn_DBPath snap) in Hdb'. rewrite Hdb in Hdb'. simplify_eq.
  exists fs1, (mkEntry ("prexel-" ^^ stamp) (("prexel-" ^^ stamp) ^^ FileExtension) n now). split_and!; [|done|].
  - unfold Create. replace (len pass <? 12)%Z with false by (symmetry; apply Z.ltb_ge; lia). rewrite Hi.
    eapply runs_bind; [apply runs_of_result|]. cbv zeta. rewrite string_app_assoc. eapply runs_bind; [apply Hrun|]. apply runs_ret.
  - intros now' dataDir file fs2 dbPath Hsuf Hfile. rewrite Hf in Hfile.
    destruct (restore_runs now' part dataDir file pass fs2 f _ Hsuf Hfile Hd) as (fs3 & Hr & Hpre).
    destruct (runs_wp _ _ _ _ _ Hr (restore_wp now' part true true "" dataDir file pass fs2)) as [_ Hres].
    destruct (Hres eq_refl) as (f' & res & Hf' & Hd' & Hdata & Hkey). rewrite Hfile in Hf'. simplify_eq.
    change (in_Passphrase inp) with pass in Hd. rewrite Hd in Hd'. simplify_eq. by exists fs3.
Qed.
End Roundtrip.

(** ** The service *)

Definition not_slash (z : Z) : bool := negb (z =? 47)%Z.

Lemma id_rune_ascii z : id_rune z = true → (z < 128)%Z ∧ not_slash z = true.
Proof.
  unfold id_rune, in_range, not_slash. rewrite !orb_true_iff, !andb_true_iff, !Z.leb_le, !Z.eqb_eq, negb_true_iff, Z.eqb_neq. lia.
Qed.

(** An accepted identifier names a file of the directory itself. *)
Lemma validateID_name id name : validateID id = inr name → name = id ^^ FileExtension ∧ all_bytes not_slash name = true.
Proof.
  unfold validateID. destruct (id =s ""); [done|]. destruct (List.forallb id_rune (runes id)) eqn:Er; [|done].
  destruct (Contains id ".." || HasPrefix id "."); [done|]. intros [= <-]. split; [done|]. rewrite all_bytes_app.
  rewrite (all_bytes_mono id_rune); [done|intros z Hz; by apply id_rune_ascii|]. apply runes_ascii; [|done]. intros z Hz. by apply id_rune_ascii.
Qed.

(** Deleting a backup removes at most one file, whatever identifier the
    request carries: a file directly in the backup directory, with the backup
    extension; when an error is returned, nothing. *)
Theorem delete_confined dir id fs :
  wp (Delete dir id) (λ fs' r,
    (∃ e, r = inl e ∧ fs' = fs) ∨
    (r = inr tt ∧ ∃ name, name = id ^^ FileExtension ∧ all_bytes not_slash name = true ∧
      is_Some (fs !! in_dir dir name) ∧ fs' = delete (in_dir dir name) fs)) fs.
Proof.
  unfold Delete. apply wp_bind, wp_of_result. destruct (validateID id) as [e|name] eqn:Ev; [by left; exists e|].
  apply validateID_name in Ev as [-> Hs]. apply wp_bind, wp_fallible; [by left; eexists|]. simpl.
  destruct (fs !! _) eqn:Ef; simpl; [apply wp_ret|apply wp_throw].
  - right. split; [done|]. by eexists.
  - left. eexists. split; [done|]. by rewrite delete_id.
Qed.

(** ** A concrete library *)

Fixpoint bits_of (p : positive) : string :=
  match p with xH => "" | xO p => String "0" (bits_of p) | xI p => String "1" (bits_of p) end.
Fixpoint of_bits (s : string) : option positive :=
  match s with
  | "" => Some xH
  | String c s => p ← of_bits s; if (byte c =? 48)%Z then Some (xO p) else if (byte c =? 49)%Z then Some (xI p) else None
  end.

Lemma bits_roundtrip p : of_bits (bits_of p) = Some p.
Proof. induction p as [p IH|p IH|]; simpl; by rewrite ?IH. Qed.

Definition toy_pack (l : list (string * string)) : string := bits_of (encode l).
Definition toy_unpack (s : string) : option (list (string * string)) := of_bits s ≫= countable.decode.
Definition manifest_tuple (m : Manifest) := (mf_FormatVersion m, mf_InstanceID m, mf_AppVersion m, mf_CreatedAt m).
Definition toy_encode (m : Manifest) : string := bits_of (encode (manifest_tuple m)).
Definition toy_decode (s : string) : option Manifest :=
  p ← of_bits s; '(v, i, a, c) ← countable.decode (A := Z * string * string * Z) p; Some (mkManifest v i a c).

(** The key and the nonce in front of the text stand for its authentication. *)
Definition toy_tag (k n aad : string) : string := k ^^ "/" ^^ n ^^ "/" ^^ aad ^^ "/".
Definition toy_open (k n ct aad : string) : option string :=
  let tag := toy_tag k n aad in
  if (String.length tag <=? String.length ct)%nat && (take_s (String.length tag) ct =s tag) then Some (drop_s (String.length tag) ct) else None.

Definition toy_backup : BackupLib := {|
  scrypt_key := λ pass salt, Some (pass ^^ salt);
  aad_seal := λ k n pt aad, toy_tag k n aad ^^ pt;
  aad_open := toy_open;
  pack := toy_pack;
  unpack := toy_unpack;
  json_encode := toy_encode;
  json_decode := toy_decode;
|}.

Lemma toy_backup_laws : BackupLaws (Bl := toy_backup).
Proof.
  constructor; simpl.
  - done.
  - intros k n pt aad _. unfold toy_open. destruct (take_drop_app (toy_tag k n aad) pt _ eq_refl) as [-> ->].
    rewrite String.eqb_refl, string_app_length, (proj2 (Nat.leb_le _ _)); [done|lia].
  - intros k n ct aad pt. unfold toy_open. destruct (_ <=? _)%nat eqn:El; [|done]. apply Nat.leb_le in El.
    destruct (_ =s _) eqn:Et; [|done]. apply String.eqb_eq in Et. intros [= <-]. destruct (cut _ _ El) as [E _]. by rewrite Et in E.
  - intros l _. unfold toy_unpack, toy_pack. rewrite bits_roundtrip. simpl. apply decode_encode.
  - intros [v i a c] _. unfold toy_decode, toy_encode. rewrite bits_roundtrip. simpl. by rewrite decode_encode.
Qed.

Module Examples.
Definition salt : string := "0123456789abcdef".
Definition nonce : string := "0123456789ab".
Definition inp : Inputs := mkInputs "/data/prexel.db" "key" "inst" "1.0" "correct horse".
Definition snap : Snapshotter := mkSnapshotter "/data/prexel.db" "key" (Some "inst") "1.0".
Definition fs : gmap string File := {["/data/prexel.db" := mkFile "DB" 1]}.
Definition data : string := (backup_bytes (Bl := toy_backup) ("correct horse" ^^ salt) salt nonce (pack (BackupLib := toy_backup) (entries (Bl := toy_backup) "DB" "key" (mkManifest 1 "inst" "1.0" 7)))).
End Examples.

Lemma read_authentic_witness :
  ∃ salt nonce key plain, String.length salt = saltLen ∧ String.length nonce = nonceLen ∧
    scrypt_key (BackupLib := toy_backup) "correct horse" salt = Some key ∧
    Examples.data = backup_bytes (Bl := toy_backup) key salt nonce plain ∧
    unpackArchive (Bl := toy_backup) plain = inr (mkResult (mkManifest 1 "inst" "1.0" 7) "DB" "key").
Proof. apply (read_authentic (Bl := toy_backup) (Bw := toy_backup_laws)). vm_compute. reflexivity. Defined.

Lemma write_atomic_witness :
  wp (Write (Bl := toy_backup) 7 "" Examples.inp "/b/a" "/b/t" (Some Examples.salt) (Some Examples.nonce))
    (written (Bl := toy_backup) 7 Examples.inp "/b/a" "/b/t" Examples.fs) Examples.fs.
Proof. apply (write_atomic (Bl := toy_backup) (Bw := toy_backup_laws)); [reflexivity|done|by intros ? [= <-]|by intros ? [= <-]]. Defined.

Lemma backup_roundtrip_witness :
  ∃ fs1 e, runs (Create (Bl := toy_backup) "/b" Examples.snap 7 "" "2024" "t" (Some Examples.salt) (Some Examples.nonce) "correct horse") Examples.fs fs1 e ∧
    elsewhere "/b/prexel-2024.prexel-backup" "/b/t" Examples.fs fs1 ∧
    ∀ now' dataDir file fs2, let dbPath := in_dir dataDir "prexel.db" in
      HasSuffix file FileExtension = true → fs2 !! file = fs1 !! "/b/prexel-2024.prexel-backup" →
      ∃ fs3, runs (restore (Uc := ascii_only) (Bl := toy_backup) now' "" true true "" dataDir file "correct horse") fs2 fs3 tt ∧
        content fs3 dbPath = "DB" ∧
        content fs3 (in_dir dataDir "SECRET_KEY.restored") = "key" ^^ String (of_byte 10) "" ∧
        (∀ old, fs2 !! dbPath = Some old → fs3 !! (dbPath ^^ ".pre-restore") = Some (mkFile (fl_data old) now')).
Proof.
  apply (backup_roundtrip (Uc := ascii_only) (Bl := toy_backup) (Bw := toy_backup_laws) 7 "" "/b" Examples.snap "2024" "t" Examples.salt Examples.nonce
    "correct horse" "inst" Examples.fs (mkFile "DB" 1)); try reflexivity; try lia; by vm_compute.
Defined.

(** A slip out of the archive's directory is not among the names refused. *)
Lemma dotdot_accepted : (negb (Clean "../x" =s "../x") || IsAbs "../x") = false.
Proof. reflexivity. Qed.

(** When the second look at the database fails, the restoration goes on without
    the safety copy. *)
Lemma restore_without_copy :
  let fs := <["/r/a.prexel-backup" := mkFile Examples.data 7]> {["/d/prexel.db" := mkFile "OLD" 1]} in
  let '(fs', _, r) := restore (Uc := ascii_only) (Bl := toy_backup) 9 "" true true "" "/d" "/r/a.prexel-backup" "correct horse" fs [false; false; false; false; true] in
  r = inr tt ∧ content fs' "/d/prexel.db" = "DB" ∧ fs' !! "/d/prexel.db.pre-restore" = None.
Proof. by vm_compute. Qed.

(** Two backups in the same second: the second replaces the first. *)
Lemma same_second_overwrites :
  let create now s := Create (Bl := toy_backup) "/b" Examples.snap now "" "2024-01-01T00-00-00Z" "t" (Some s) (Some Examples.nonce) "correct horse" in
  let fs1 := (run (create 7%Z Examples.salt) Examples.fs).1 in
  let fs2 := (run (create 8%Z "fedcba9876543210") fs1).1 in
  length (map_to_list fs2) = length (map_to_list fs1) ∧
  fs2 !! "/b/prexel-2024-01-01T00-00-00Z.prexel-backup" ≠ fs1 !! "/b/prexel-2024-01-01T00-00-00Z.prexel-backup".
Proof. split; [by vm_compute|]. by vm_compute. Qed.
