(* ===== verification/Cleanup.v ===== *)
(** * Removing what is left of an app

    The worker of internal/appcleanup (worker.go), which removes the containers,
    images, volumes, routes and log files of a deleted app, and the nightly sweep
    of internal/instance (prunetarget.go and [runCleanup] of cleanup.go).

    [Leftovers] is one task, over the Docker hosts, the proxy and the files it
    touches; [Sweep] is the pruning of one host; [Queue] is the channel and its
    goroutines as a step relation on which acceptance, draining and termination
    are proved.  The images, volumes and prune calls of the daemon are the class
    [DockerHost], an extension of [DockerDaemon]. *)

From S2P Require Import Prelude Effects GoStrings Docker Routing Backup Instance.
From stdpp Require Import gmap relations sorting.

(** ** The rest of the daemon *)

(** [image.Summary] and [volume.Volume]: the fields the code reads. *)
Record Summary := mkSummary {
  im_ID : string; im_RepoTags : list string; im_RepoDigests : list string;
  im_Labels : gmap string string; im_Created : Z;
}.
Record Vol := mkVol { vl_Name : string; vl_Labels : gmap string string }.

(** A label filter of the API: [key] or [key=value]. *)
Definition label_matches (k v : string) (labels : gmap string string) : bool :=
  match labels !! k with Some x => (v =s "") || (x =s v) | None => false end.

Class DockerHost (D : Type) `{DockerDaemon D} := {
  ImageSummaries : string → string → D → D * option (list Summary);
  ImagesPrune : D → D * option Z;
  ContainersPrune : D → D * option Z;
  VolumeList : string → string → D → D * option (list Vol);
  VolumeRemove : string → D → D * dk_res;
}.

Class HostLaws (D : Type) `{DockerHost D} `{!DockerLaws D} := {
  vols : D → list Vol;
  (** The tags of the images of the host, in the order of the listing. *)
  tags : D → list string;
  summaries_ps : ∀ k v d, ps (ImageSummaries k v d).1 = ps d;
  images_prune_ps : ∀ d, ps (ImagesPrune d).1 = ps d;
  (** A prune removes stopped containers only, and all of them when it succeeds. *)
  prune_some : ∀ d c, c ∈ ps (ContainersPrune d).1 → c ∈ ps d;
  prune_running : ∀ d c, c ∈ ps d → c_running c = true → c ∈ ps (ContainersPrune d).1;
  prune_ok : ∀ d d' z, ContainersPrune d = (d', Some z) → ps d' = List.filter c_running (ps d);
  volume_list_ps : ∀ k v d, ps (VolumeList k v d).1 = ps d;
  volume_list_vols : ∀ k v d, vols (VolumeList k v d).1 = vols d;
  volume_list_ok : ∀ k v d d' l, VolumeList k v d = (d', Some l) → l = List.filter (λ x, label_matches k v (vl_Labels x)) (vols d);
  volume_remove_ps : ∀ n d, ps (VolumeRemove n d).1 = ps d;
  volume_remove_any : ∀ n d d' r, VolumeRemove n d = (d', r) →
    vols d' = vols d ∧ r = DFailed ∨ vols d' = List.filter (λ x, negb (vl_Name x =s n)) (vols d);
  stop_vols : ∀ x d, vols (ContainerStop x d).1 = vols d;
  remove_vols : ∀ x d, vols (ContainerRemove x d).1 = vols d;
  list_vols : ∀ k v d, vols (ContainerList k v d).1 = vols d;
  image_list_vols : ∀ d, vols (ImageList d).1 = vols d;
  image_remove_vols : ∀ i d, vols (ImageRemove i d).1 = vols d;
  stop_tags : ∀ x d, tags (ContainerStop x d).1 = tags d;
  remove_tags : ∀ x d, tags (ContainerRemove x d).1 = tags d;
  list_tags : ∀ k v d, tags (ContainerList k v d).1 = tags d;
  volume_list_tags : ∀ k v d, tags (VolumeList k v d).1 = tags d;
  volume_remove_tags : ∀ n d, tags (VolumeRemove n d).1 = tags d;
  image_list_tags : ∀ d, tags (ImageList d).1 = tags d;
  image_list_ok : ∀ d d' l, ImageList d = (d', Some l) → l ≫= fst = tags d;
  (** Removing an image by one of its tags takes that tag, or nothing. *)
  image_remove_tag : ∀ i d, i ∈ tags d →
    tags (ImageRemove i d).1 = tags d ∨ tags (ImageRemove i d).1 = List.filter (λ x, negb (x =s i)) (tags d);
}.

(** ** Helpers of dockersvc *)

Section Helpers.
Context {D : Type} `{DH : DockerHost D}.

(** A call that answers a value or fails. *)
Definition answered {A} (w : string) (f : D → D * option A) : dockM A :=
  r ← call f;
  match r with None => throw (ErrDocker w) | Some a => mret a end.

Definition ListImages (k v : string) : dockM (list Summary) := answered "list images" (ImageSummaries k v).
Definition PruneImages : dockM Z := answered "prune images" ImagesPrune.
Definition PruneContainers : dockM Z := answered "prune containers" ContainersPrune.
Definition ListVolumes (k v : string) : dockM (list Vol) := answered "list volumes" (VolumeList k v).

Definition RemoveVolume (name : string) : dockM unit :=
  r ← call (VolumeRemove name);
  match r with DFailed => throw (ErrDocker "remove volume") | _ => mret tt end.
End Helpers.

(** ** The sweep of a host *)

Section Sweep.
Context {D : Type} `{DH : DockerHost D}.

(** [firstNonEmpty]. *)
Fixpoint firstNonEmpty (slices : list (list string)) : string :=
  match slices with
  | [] => ""
  | (s :: _) :: rest => if negb (s =s "") then s else firstNonEmpty rest
  | [] :: rest => firstNonEmpty rest
  end.

Record imgEntry := mkEntry { ie_Created : Z; ie_Ref : string }.

Definition app_id_label (im : Summary) : string := default "" (im_Labels im !! "prexel.app_id").
Definition image_entry (im : Summary) : imgEntry :=
  mkEntry (im_Created im) (firstNonEmpty [im_RepoTags im; im_RepoDigests im; [im_ID im]]).

(** [groups[appID]], in the order of the listing. *)
Definition group (imgs : list Summary) (appID : string) : list imgEntry :=
  image_entry <$> List.filter (λ im, app_id_label im =s appID) imgs.

(** The keys of [groups]: the map is iterated in an order of its own, which the
    caller of [victims] gives. *)
Definition group_keys (imgs : list Summary) : list string :=
  List.filter (λ a, negb (a =s "")) (app_id_label <$> imgs).

(** [sort.Slice]: entries of the same date come in one of the orders it may give. *)
Definition newer_image (x y : imgEntry) : bool := (ie_Created y <=? ie_Created x)%Z.
Definition victims_of (n : nat) (imgs : list Summary) (appID : string) : list imgEntry :=
  let l := group imgs appID in
  if length l <=? n then [] else skipn n (sort_by newer_image l).

(** [removed++] for every removal that worked. *)
Fixpoint remove_each (l : list imgEntry) (removed : Z) : dockM Z :=
  match l with
  | [] => mret removed
  | v :: l =>
    r ← attempt (RemoveImage (ie_Ref v));
    remove_each l (match r with inr _ => removed + 1 | inl _ => removed end)%Z
  end.

(** [order]: the order in which Go iterates over the map of the groups. *)
Definition RetainImagesPerApp (order : list string → list string) (n : Z) : dockM Z :=
  let n := Z.to_nat (if (n <? 1)%Z then 1 else n) in
  imgs ← ListImages "prexel.app_id" "";
  remove_each (order (remove_dups (group_keys imgs)) ≫= victims_of n imgs) 0.

(** The value is returned next to the error of the second call. *)
Definition PruneDangling : dockM (Z * option DkErr) :=
  imgBytes ← PruneImages;
  r ← attempt PruneContainers;
  match r with
  | inl e => mret (imgBytes, Some e)
  | inr ctnBytes => mret (imgBytes + ctnBytes, None)%Z
  end.

(** [du(dataDir)]: the percentage, or an error. *)
Definition runCleanup (order : list string → list string) (cfg : CleanupConfig) (used : option Z) : dockM unit :=
  let healthy := (0 <? cc_DiskThreshold cfg)%Z && match used with Some u => (u <? cc_DiskThreshold cfg)%Z | None => false end in
  if healthy then ignore (RetainImagesPerApp order (cc_ImageRetention cfg))
  else
    _ ← ignore PruneDangling;
    ignore (RetainImagesPerApp order (cc_ImageRetention cfg)).

(** One tick of [CleanupLoop] with a target. *)
Definition tick (order : list string → list string) (cfg : CleanupConfig) (t : Moment) (used : option Z) : dockM unit :=
  if negb (cc_Enabled cfg) then mret tt
  else if negb (scheduleMatches (cc_Schedule cfg) t) then mret tt
  else runCleanup order cfg used.

(** [int(x)] of a [uint64]. *)
Definition as_int (z : Z) : Z := (if z <? 2 ^ 63 then z else z - 2 ^ 64)%Z.

(** [DefaultDiskUsage] on the two counters of statfs(2): they are [uint64], the
    products wrap, the result is clamped. *)
Definition percent_used (blocks free : Z) : Z :=
  if (blocks =? 0)%Z then 0%Z
  else
    let used := ((blocks - free) mod 2 ^ 64)%Z in
    let percent := as_int ((used * 100) mod 2 ^ 64 / blocks) in
    if (percent <? 0)%Z then 0%Z else if (100 <? percent)%Z then 100%Z else percent.
End Sweep.

(** ** One cleanup task (worker.go) *)

Record Task := mkTask {
  t_AppID : string; t_AppName : string; t_ServerID : string;
  t_Domains : list string; t_DeploymentIDs : list string;
}.

Section Leftovers.
Context {D C : Type} `{DH : DockerHost D} `{CC : CaddyClient C}.

(** What a task reaches: the Docker hosts by server id, each with the states it
    went through, the proxy, the paths of the existing files. *)
Record World := mkWorld { w_hosts : gmap string (D * list D); w_caddy : C; w_files : gset string }.

Definition set_host (id : string) (h : D * list D) (w : World) : World :=
  mkWorld (<[id := h]> (w_hosts w)) (w_caddy w) (w_files w).

Definition cM := M World unit.

(** [Worker]: a caddy client or nil, the log directory. *)
Record Worker := mkWorker { wk_caddy : bool; wk_servers : bool; wk_logDir : string }.

Definition drop_route (host : string) : cM unit :=
  if TrimSpace host =s "" then mret tt
  else modify (λ w, mkWorld (w_hosts w) (RemoveRoute host (w_caddy w)).1 (w_files w)).

Definition cleanupCaddy (wk : Worker) (t : Task) : cM unit :=
  if negb (wk_caddy wk) || is_nil (t_Domains t) then mret tt
  else each drop_route (t_Domains t).

(** Stop, then remove by force; the errors are logged. *)
Definition drop_container (c : Container) : dockM unit :=
  if c_name c =s "" then mret tt
  else
    _ ← ignore (StopContainer (c_name c));
    ignore (RemoveContainer (c_name c)).

(** The references with the prefix of the app, each once. *)
Definition image_prefix (name : string) : string := "prexel-" ^^ name ^^ "-".
Fixpoint unseen (seen refs : list string) : list string :=
  match refs with
  | [] => []
  | r :: refs => if decide (r ∈ seen) then unseen seen refs else r :: unseen (r :: seen) refs
  end.
Definition own_images (name : string) (imgs : list (list string * Z)) : list string :=
  unseen [] (List.filter (λ r, HasPrefix r (image_prefix name)) (imgs ≫= fst)).

Definition drop_containers (appID : string) : dockM unit :=
  r ← attempt (ListContainers "prexel.app_id" appID);
  match r with inl _ => mret tt | inr l => each drop_container l end.

Definition drop_images (name : string) : dockM unit :=
  imgs ← call ImageList;
  match imgs with None => mret tt | Some l => each (λ r, ignore (RemoveImage r)) (own_images name l) end.

Definition drop_volumes (appID : string) : dockM unit :=
  r ← attempt (ListVolumes "prexel.app_id" appID);
  match r with inl _ => mret tt | inr l => each (λ v, ignore (RemoveVolume (vl_Name v))) l end.

(** The three parts on the host; without a client only the containers. *)
Definition drop_all (t : Task) : dockM unit :=
  _ ← drop_containers (t_AppID t);
  _ ← exec (ErrDocker "client") (λ s, s);
  _ ← drop_images (t_AppName t);
  drop_volumes (t_AppID t).

Definition cleanupDocker (wk : Worker) (t : Task) : cM unit :=
  if negb (wk_servers wk) || (t_ServerID t =s "") then mret tt
  else
    provider ← attempt (query tt (λ w, w_hosts w !! t_ServerID t));
    match provider with
    | inl _ | inr None => mret tt
    | inr (Some h) =>
      ignore (zoom (λ w, default h (w_hosts w !! t_ServerID t)) (set_host (t_ServerID t)) (λ _, tt) (drop_all t))
    end.

Definition ContainsAny (s chars : string) : bool := List.existsb (in_cutset chars) (String.list_ascii_of_string s).

Definition log_path (dir id : string) : string := in_dir dir (id ^^ ".log").

Definition drop_log (dir id : string) : cM unit :=
  let id := TrimSpace id in
  if id =s "" then mret tt
  else if ContainsAny id "/\" then mret tt
  else ignore (exec tt (λ w, mkWorld (w_hosts w) (w_caddy w) (w_files w ∖ {[log_path dir id]}))).

Definition cleanupLogFiles (wk : Worker) (t : Task) : cM unit :=
  if (wk_logDir wk =s "") || is_nil (t_DeploymentIDs t) then mret tt
  else each (drop_log (wk_logDir wk)) (t_DeploymentIDs t).

(** [Worker.run]. *)
Definition run_task (wk : Worker) (t : Task) : cM unit :=
  _ ← cleanupCaddy wk t;
  _ ← cleanupDocker wk t;
  cleanupLogFiles wk t.
End Leftovers.

(** ** What a task may touch *)

Section Spared.
Context {X : Type} (mine : X → bool) (same : X → X → Prop) `{!Reflexive same} `{!Transitive same}.

(** The elements that are not mine are the same as before, and nothing is new. *)
Record spared (l0 l : list X) : Prop := {
  sp_others : List.filter (λ x, negb (mine x)) l = List.filter (λ x, negb (mine x)) l0;
  sp_from : ∀ x, x ∈ l → ∃ x0, x0 ∈ l0 ∧ same x0 x;
}.

Lemma spared_refl l : spared l l.
Proof. split; [done|]. intros x Hx. by exists x. Qed.

Lemma spared_upd p f l0 l : spared l0 l →
  (∀ x, x ∈ l → p x = true → mine x = true ∧ mine (f x) = true ∧ same x (f x)) → spared l0 (upd p f l).
Proof.
  intros [Ho Hf] Hp. split.
  - rewrite <-Ho. clear -Hp. unfold upd. induction l as [|x l IH]; [done|]. simpl.
    rewrite IH by (intros; apply Hp; [by right|done]). destruct (p x) eqn:E; [|done].
    destruct (Hp x) as (-> & -> & _); [by left|done|done].
  - intros x (y & Hy & ->)%elem_of_upd. destruct (Hf y Hy) as (x0 & Hx0 & Hs). exists x0. split; [done|].
    destruct (p y) eqn:E; [|done]. destruct (Hp y) as (_ & _ & Hs'); [done|done|]. by transitivity y.
Qed.

Lemma spared_filter p l0 l : spared l0 l → (∀ x, x ∈ l → p x = false → mine x = true) → spared l0 (List.filter p l).
Proof.
  intros [Ho Hf] Hp. split.
  - rewrite <-Ho. clear -Hp. induction l as [|x l IH]; [done|]. simpl.
    destruct (p x) eqn:E; simpl; rewrite IH by (intros; apply Hp; [by right|done]); [done|].
    by rewrite (Hp x ltac:(by left) E).
  - intros x [Hx _]%elem_of_filter_b. auto.
Qed.
End Spared.

(** The same container, apart from its running state. *)
Definition same_container (c c' : Container) : Prop := c_id c' = c_id c ∧ c_name c' = c_name c ∧ c_config c' = c_config c.
#[export] Instance same_container_refl : Reflexive same_container.
Proof. by intros c. Qed.
#[export] Instance same_container_trans : Transitive same_container.
Proof. intros a b c (H1 & H2 & H3) (H4 & H5 & H6). split_and!; congruence. Qed.

Definition has_app (a : string) (c : Container) : bool := label_matches "prexel.app_id" a (cf_Labels (c_config c)).
Definition vol_of_app (a : string) (v : Vol) : bool := label_matches "prexel.app_id" a (vl_Labels v).
Definition tag_of_app (name : string) (tag : string) : bool := HasPrefix tag (image_prefix name).

Section Confined.
Context {D : Type} `{DH : DockerHost D} `{DL : !DockerLaws D} `{HL : !HostLaws D}.
Context (a name : string) (d0 : D) (Hnames : NoDup (c_name <$> ps d0)) (Hvols : NoDup (vl_Name <$> vols d0)) (Ha : a ≠ "").

(** Containers and volumes without the label of the app, and tags without
    the prefix of its name, are as in [d0]. *)
Definition confined (d : D) : Prop := spared (has_app a) same_container (ps d0) (ps d) ∧
  spared (vol_of_app a) eq (vols d0) (vols d) ∧ spared (tag_of_app name) eq (tags d0) (tags d).

Definition keeps_host {A} (m : dockM A) : Prop := preserves (λ s : D * list D, confined s.1) m.

Lemma host_call_keeps {A} (f : D → D * A) : (∀ d, confined d → confined (f d).1) → keeps_host (call f).
Proof. intros Hf s Hs. apply wp_call. by apply Hf. Qed.

Lemma named_keeps w nf f : (∀ d, confined d → confined (f d).1) → keeps_host (named_call w nf f).
Proof.
  intros Hf. apply preserves_bind; [by apply host_call_keeps|]. intros []; [apply preserves_ret|apply preserves_throw..].
Qed.

(** A call that leaves containers and volumes alone. *)
Lemma confined_frame d d' : ps d' = ps d → vols d' = vols d → tags d' = tags d → confined d → confined d'.
Proof. intros E1 E2 E3. unfold confined. by rewrite E1, E2, E3. Qed.

Lemma same_name_mine d c n : confined d → (∃ c0, c0 ∈ ps d0 ∧ c_name c0 = n ∧ has_app a c0 = true) → c ∈ ps d → c_name c = n → has_app a c = true.
Proof.
  intros [[_ Hf] _] (c0 & Hc0 & Hn & Hm) Hc Hcn. destruct (Hf c Hc) as (c1 & Hc1 & _ & H2 & H3).
  assert (c1 = c0) as -> by (eapply (NoDup_fmap_inj c_name); [exact Hnames|done|done|congruence]). unfold has_app in *. by rewrite H3.
Qed.

Lemma drop_container_keeps c : (∃ c0, c0 ∈ ps d0 ∧ c_name c0 = c_name c ∧ has_app a c0 = true) → keeps_host (drop_container c).
Proof.
  intros Hc. unfold drop_container. destruct (_ =s _); [apply preserves_ret|].
  assert (Hm : ∀ d x, confined d → x ∈ ps d → finds (ByName (c_name c)) x = true → has_app a x = true).
  { intros d x Hd Hx Hn%String.eqb_eq. by eapply same_name_mine. }
  apply preserves_bind; [|intros _]; apply preserves_ignore, named_keeps; intros d Hd.
  - destruct (ContainerStop _ d) as [d' r] eqn:E. pose proof (stop_vols (ByName (c_name c)) d) as Hv.
    pose proof (stop_tags (ByName (c_name c)) d) as Hi. rewrite E in Hv, Hi. simpl in *.
    destruct (stop_any _ _ _ _ E) as [[Hp _]|Hp]; [by eapply confined_frame|]. destruct Hd as [H1 H2].
    split; [|by rewrite Hv, Hi]. rewrite Hp. apply spared_upd; [apply _|done|]. intros x Hx Hn. pose proof (Hm d x (conj H1 H2) Hx Hn). done.
  - destruct (ContainerRemove _ d) as [d' r] eqn:E. pose proof (remove_vols (ByName (c_name c)) d) as Hv.
    pose proof (remove_tags (ByName (c_name c)) d) as Hi. rewrite E in Hv, Hi. simpl in *.
    destruct (remove_any _ _ _ _ E) as [[Hp _]|Hp]; [by eapply confined_frame|]. destruct Hd as [H1 H2].
    split; [|by rewrite Hv, Hi]. rewrite Hp. apply spared_filter; [done|]. intros x Hx Hn.
    apply (Hm d x (conj H1 H2) Hx). by apply negb_false_iff.
Qed.

Lemma drop_containers_keeps : keeps_host (drop_containers a).
Proof.
  intros s Hs. unfold drop_containers, ListContainers. apply wp_bind, wp_attempt, wp_bind, wp_call.
  destruct (ContainerList _ _ s.1) as [d' [l|]] eqn:E; pose proof (list_ps "prexel.app_id" a s.1) as Hp;
    pose proof (list_vols "prexel.app_id" a s.1) as Hv; pose proof (list_tags "prexel.app_id" a s.1) as Hi;
    rewrite E in Hp, Hv, Hi; simpl in Hp, Hv, Hi; simpl; [|apply wp_throw, wp_ret; by eapply confined_frame].
  apply wp_ret. apply list_ok in E. apply (wp_each _ (λ s, confined s.1)); [by eapply confined_frame| |done].
  intros c s' Hc Hs'. eapply wp_mono; [apply drop_container_keeps; [|done]|by intros ? [?|[]]].
  subst l. apply elem_of_filter_b in Hc as [Hc Hm]. destruct Hs as [[_ Hf] _]. destruct (Hf c Hc) as (c0 & Hc0 & _ & H2 & H3).
  exists c0. split_and!; [done|done|]. unfold has_app, label_matches. rewrite <-H3. case_match; [|done]. rewrite Hm. by destruct (a =s "").
Qed.

Lemma unseen_spec seen refs : NoDup (unseen seen refs) ∧ ∀ r, r ∈ unseen seen refs → r ∈ refs ∧ r ∉ seen.
Proof.
  revert seen. induction refs as [|r refs IH]; intros seen; simpl; [split; [constructor|by intros ? ?%not_elem_of_nil]|].
  case_decide as Hr.
  - destruct (IH seen) as [H1 H2]. split; [done|]. intros x [? ?]%H2. split; [by right|done].
  - destruct (IH (r :: seen)) as [H1 H2]. split.
    + apply list.NoDup_cons. split; [|done]. intros [_ Hin]%H2. apply Hin. left.
    + intros x [->|Hx]%elem_of_cons; [split; [left|done]|]. apply H2 in Hx as [? Hn]. split; [by right|].
      intros Hs. apply Hn. by right.
Qed.

(** The tags still to go are on the host until their turn. *)
Lemma drop_tags_keeps l s : NoDup l → (∀ r, r ∈ l → tag_of_app name r = true ∧ r ∈ tags s.1) → confined s.1 →
  wp (each (λ r, ignore (RemoveImage r)) l) (λ s' _, confined s'.1) s.
Proof.
  revert s. induction l as [|r l IH]; intros s Hn Hl Hs; [by apply wp_ret|]. apply list.NoDup_cons in Hn as [Hr Hn].
  destruct (Hl r) as [Hm Hin]; [left|]. unfold each. fold (each (λ r, ignore (RemoveImage (D := D) r))).
  apply wp_bind, wp_ignore, wp_bind, wp_call.
  pose proof (image_remove_ps r s.1) as Hp. pose proof (image_remove_vols r s.1) as Hv. pose proof (image_remove_tag r s.1 Hin) as Hi.
  destruct (ImageRemove r s.1) as [d k]. simpl in Hp, Hv, Hi.
  assert (Hc : confined d).
  { destruct Hi as [Hi|Hi]; [by eapply confined_frame|]. destruct Hs as (H1 & H2 & H3). unfold confined. rewrite Hp, Hv, Hi.
    split_and!; [done|done|]. apply spared_filter; [done|]. intros x _ E. bool_simp. by subst. }
  assert (Hl' : ∀ x, x ∈ l → tag_of_app name x = true ∧ x ∈ tags d).
  { intros x Hx. destruct (Hl x) as [? Hxt]; [by right|]. split; [done|]. destruct Hi as [->| ->]; [done|].
    apply elem_of_filter_b. split; [done|]. apply negb_true_iff, String.eqb_neq. by intros ->. }
  destruct k; [apply wp_ret|apply wp_throw..]; by apply IH.
Qed.

Lemma drop_images_keeps : keeps_host (drop_images name).
Proof.
  intros s Hs. apply wp_bind, wp_call. pose proof (image_list_ps s.1) as Hp. pose proof (image_list_vols s.1) as Hv.
  pose proof (image_list_tags s.1) as Hi. destruct (ImageList s.1) as [d [l|]] eqn:E; simpl in *; [|apply wp_ret; by eapply confined_frame].
  destruct (unseen_spec [] (List.filter (λ r, HasPrefix r (image_prefix name)) (l ≫= fst))) as [Hn Hu].
  apply drop_tags_keeps; [done| |by eapply confined_frame]. intros r [Hr _]%Hu. apply elem_of_filter_b in Hr as [Hr Hpre].
  split; [done|]. simpl. rewrite Hi. by rewrite <- (image_list_ok _ _ _ E).
Qed.

Lemma drop_volumes_keeps : keeps_host (drop_volumes a).
Proof.
  intros s Hs. unfold drop_volumes, ListVolumes, answered. apply wp_bind, wp_attempt, wp_bind, wp_call.
  destruct (VolumeList _ _ s.1) as [d' [l|]] eqn:E; pose proof (volume_list_ps "prexel.app_id" a s.1) as Hp;
    pose proof (volume_list_vols "prexel.app_id" a s.1) as Hv; pose proof (volume_list_tags "prexel.app_id" a s.1) as Hi;
    rewrite E in Hp, Hv, Hi; simpl in Hp, Hv, Hi; simpl; [|apply wp_throw, wp_ret; by eapply confined_frame].
  apply wp_ret. apply volume_list_ok in E. apply (wp_each _ (λ s, confined s.1)); [by eapply confined_frame| |done].
  intros v s' Hv' (H1 & H2 & H3). subst l. apply elem_of_filter_b in Hv' as [Hin Hm].
  apply wp_ignore, wp_bind, wp_call. destruct (VolumeRemove (vl_Name v) s'.1) as [d2 r] eqn:E2.
  pose proof (volume_remove_ps (vl_Name v) s'.1) as Hp2. pose proof (volume_remove_tags (vl_Name v) s'.1) as Hi2.
  rewrite E2 in Hp2, Hi2. simpl in Hp2, Hi2. assert (Hc : confined d2).
  { split; [by rewrite Hp2|]. split; [|by rewrite Hi2]. destruct (volume_remove_any _ _ _ _ E2) as [[-> _]| ->]; [done|].
    apply spared_filter; [done|]. intros x Hx Hn%negb_false_iff%String.eqb_eq.
    destruct Hs as (_ & [_ Hf] & _). destruct (Hf v Hin) as (? & Hv0 & <-), H2 as [_ H2]. destruct (H2 x Hx) as (? & Hx0 & <-).
    by assert (x0 = x1) as -> by (by eapply (NoDup_fmap_inj vl_Name)). }
  destruct r; [apply wp_ret|apply wp_ret|apply wp_throw]; done.
Qed.

Lemma drop_all_keeps t : t_AppID t = a → t_AppName t = name → keeps_host (drop_all t).
Proof.
  intros E En. unfold drop_all. rewrite E, En. apply preserves_bind; [apply drop_containers_keeps|]. intros _.
  apply preserves_bind; [by apply preserves_exec|]. intros _.
  apply preserves_bind; [apply drop_images_keeps|intros _; apply drop_volumes_keeps].
Qed.
End Confined.

(** ** A host that answers is emptied *)

Section Emptied.
Context {D : Type} `{DH : DockerHost D} `{DL : !DockerLaws D} `{HL : !HostLaws D}.

(** No list or removal fails. *)
Record responsive : Prop := {
  rs_list : ∀ k v d, (ContainerList k v d).2 ≠ None;
  rs_remove : ∀ x d, (ContainerRemove x d).2 = DOk;
  rs_volume_list : ∀ k v d, (VolumeList k v d).2 ≠ None;
  rs_volume_remove : ∀ n d, (VolumeRemove n d).2 ≠ DFailed;
}.

Definition shrinks (s s' : D * list D) : Prop :=
  (∀ c, c ∈ ps s'.1 → ∃ c0, c0 ∈ ps s.1 ∧ same_container c0 c) ∧ (∀ v, v ∈ vols s'.1 → v ∈ vols s.1).

#[local] Instance shrinks_preorder : PreOrder shrinks.
Proof.
  split; [by intros s; split; [intros c ?; exists c|]|]. intros x y z [H1 H2] [H3 H4]. split; [|auto].
  intros c (c1 & Hc1 & Hs1)%H3. destruct (H1 _ Hc1) as (c0 & Hc0 & Hs0). exists c0. split; [done|by transitivity c1].
Qed.

Lemma shrinks_frame d tr d' tr' : ps d' = ps d → vols d' = vols d → shrinks (d, tr) (d', tr').
Proof. intros E1 E2. split; simpl; rewrite ?E1, ?E2; [|done]. intros c Hc. by exists c. Qed.

Lemma runs_call {A} (f : D → D * A) s : runs (call f) s ((f s.1).1, s.2 ++ [(f s.1).1]) (f s.1).2.
Proof. done. Qed.

Lemma runs_named w nf (f : D → D * dk_res) s : runs (ignore (named_call w nf f)) s ((f s.1).1, s.2 ++ [(f s.1).1]) tt.
Proof. unfold runs, ignore, named_call, call, mbind, M_bind, bind. simpl. by destruct (f s.1).2. Qed.

Lemma drop_container_runs (R : responsive) c s : c_name c ≠ "" → ∃ s', runs (drop_container c) s s' tt ∧ shrinks s s' ∧
  (∀ x, x ∈ ps s'.1 → c_name x ≠ c_name c).
Proof.
  intros Hn. unfold drop_container. apply String.eqb_neq in Hn as ->. eexists. split; [eapply runs_bind; apply runs_named|]. simpl.
  destruct (ContainerStop (ByName (c_name c)) s.1) as [d1 r1] eqn:E1. simpl.
  pose proof (stop_vols (ByName (c_name c)) s.1) as Hv1. rewrite E1 in Hv1. simpl in Hv1.
  destruct (ContainerRemove (ByName (c_name c)) d1) as [d2 r2] eqn:E2. simpl.
  pose proof (remove_vols (ByName (c_name c)) d1) as Hv2. pose proof (rs_remove R (ByName (c_name c)) d1) as Hr. rewrite E2 in Hv2, Hr. simpl in Hv2, Hr.
  destruct (remove_any _ _ _ _ E2) as [[_ ?]|Hp2]; [done|].
  assert (H1 : shrinks s (d1, s.2)).
  { split; simpl; [|by rewrite Hv1]. intros x Hx. destruct (stop_any _ _ _ _ E1) as [[Hp _]|Hp]; rewrite Hp in Hx; [by exists x|].
    apply elem_of_upd in Hx as (y & Hy & ->). exists y. split; [done|]. by case_match. }
  split.
  - transitivity (d1, s.2); [done|]. split; simpl; [|by rewrite Hv2]. intros x Hx. rewrite Hp2 in Hx.
    apply elem_of_del in Hx as [Hx _]. by exists x.
  - intros x Hx. rewrite Hp2 in Hx. apply elem_of_del in Hx as [_ Hx]. by apply String.eqb_neq.
Qed.

(** Names are kept from growing, so what is gone stays gone. *)
Lemma gone_stays n s s' : (∀ x, x ∈ ps s.1 → c_name x ≠ n) → shrinks s s' → ∀ x, x ∈ ps s'.1 → c_name x ≠ n.
Proof. intros Hg [Hs _] x (c0 & Hc0 & _ & -> & _)%Hs. by apply Hg. Qed.

Lemma drop_containers_runs (R : responsive) a s : a ≠ "" → (∀ c, c ∈ ps s.1 → c_name c ≠ "") → ∃ s', runs (drop_containers a) s s' tt ∧ shrinks s s' ∧
  (∀ x, x ∈ ps s'.1 → has_app a x = false).
Proof.
  intros Ha Hne. destruct (ContainerList "prexel.app_id" a s.1) as [d1 [l|]] eqn:E; [|by pose proof (rs_list R "prexel.app_id" a s.1) as HR; rewrite E in HR].
  pose proof (list_ps "prexel.app_id" a s.1) as Hp. pose proof (list_vols "prexel.app_id" a s.1) as Hv. rewrite E in Hp, Hv. simpl in Hp, Hv.
  pose proof (list_ok _ _ _ _ _ E) as ->.
  set (mine := List.filter _ _) in *.
  destruct (runs_each drop_container shrinks (λ c s, ∀ x, x ∈ ps s.1 → c_name x ≠ c_name c) mine) with (s := (d1, s.2 ++ [d1])) as (s' & H1 & H2 & H3).
  { intros c s1 Hc. apply drop_container_runs; [done|]. apply elem_of_filter_b in Hc as [Hc _]. auto. }
  { intros c s1 s2 Hg. by apply gone_stays. }
  exists s'. assert (Hs : shrinks s s').
  { transitivity (d1, s.2 ++ [d1]); [|done]. destruct s. by apply shrinks_frame. }
  split_and!; [|done|].
  - eapply (runs_bind _ _ _ (d1, s.2 ++ [d1]) _ (inr mine)); [|exact H1]. eapply runs_attempt, runs_bind; [apply runs_call|]. by rewrite E.
  - intros x Hx. apply not_true_iff_false. intros Hm. destruct Hs as [Hs _]. destruct (Hs x Hx) as (c0 & Hc0 & _ & Hn & Hcf).
    apply (H3 c0) in Hx; [done|]. apply elem_of_filter_b. split; [done|]. unfold has_app, label_matches in Hm. rewrite Hcf in Hm.
    case_match; [|done]. by rewrite (proj2 (String.eqb_neq a "") Ha) in Hm.
Qed.

Lemma drop_images_runs name s : ∃ s', runs (drop_images name) s s' tt ∧ shrinks s s'.
Proof.
  assert (H0 : shrinks s ((ImageList s.1).1, s.2 ++ [(ImageList s.1).1])).
  { destruct s. apply shrinks_frame; [apply image_list_ps|apply image_list_vols]. }
  destruct (ImageList s.1).2 as [l|] eqn:E.
  - destruct (runs_each (λ r, ignore (RemoveImage r)) shrinks (λ _ _, True) (own_images name l)) with (s := ((ImageList s.1).1, s.2 ++ [(ImageList s.1).1]))
      as (s' & H1 & H2 & _); [|done|].
    { intros r [d tr] _. eexists. split_and!; [apply runs_named| |done]. apply shrinks_frame; [apply image_remove_ps|apply image_remove_vols]. }
    exists s'. split; [|by etransitivity]. eapply runs_bind; [apply runs_call|]. by rewrite E.
  - eexists. split; [|exact H0]. eapply runs_bind; [apply runs_call|]. by rewrite E.
Qed.

Lemma drop_volumes_runs (R : responsive) a s : ∃ s', runs (drop_volumes a) s s' tt ∧ shrinks s s' ∧ (∀ v, v ∈ vols s'.1 → vol_of_app a v = false).
Proof.
  destruct (VolumeList "prexel.app_id" a s.1) as [d1 [l|]] eqn:E; [|by pose proof (rs_volume_list R "prexel.app_id" a s.1) as HR; rewrite E in HR].
  pose proof (volume_list_ps "prexel.app_id" a s.1) as Hp. pose proof (volume_list_vols "prexel.app_id" a s.1) as Hv. rewrite E in Hp, Hv. simpl in Hp, Hv.
  pose proof (volume_list_ok _ _ _ _ _ E) as ->.
  set (mine := List.filter _ _) in *.
  destruct (runs_each (λ v, ignore (RemoveVolume (vl_Name v))) shrinks (λ v s, ∀ x, x ∈ vols s.1 → vl_Name x ≠ vl_Name v) mine)
    with (s := (d1, s.2 ++ [d1])) as (s' & H1 & H2 & H3).
  { intros v s1 _. destruct (VolumeRemove (vl_Name v) s1.1) as [d2 r] eqn:E2. pose proof (rs_volume_remove R (vl_Name v) s1.1) as Hr.
    pose proof (volume_remove_ps (vl_Name v) s1.1) as Hp2. rewrite E2 in Hr, Hp2. simpl in Hr, Hp2.
    destruct (volume_remove_any _ _ _ _ E2) as [[_ ?]|Hv2]; [done|]. exists (d2, s1.2 ++ [d2]). split_and!; simpl.
    - unfold runs, ignore, RemoveVolume, call, mbind, M_bind, bind. rewrite E2. by destruct r.
    - split; simpl; rewrite ?Hp2, ?Hv2; [intros c Hc; by exists c|]. by intros x [? _]%elem_of_filter_b.
    - intros x Hx. rewrite Hv2 in Hx. apply elem_of_filter_b in Hx as [_ Hx]. by apply negb_true_iff, String.eqb_neq in Hx. }
  { intros v s1 s2 Hg [_ Hs] x Hx. auto. }
  exists s'. split_and!; [| |].
  - eapply (runs_bind _ _ _ (d1, s.2 ++ [d1]) _ (inr mine)); [|exact H1]. eapply runs_attempt, runs_bind; [apply runs_call|]. by rewrite E.
  - transitivity (d1, s.2 ++ [d1]); [|done]. destruct s. by apply shrinks_frame.
  - intros x Hx. apply not_true_iff_false. intros Hm. refine (H3 x _ x Hx eq_refl). apply elem_of_filter_b. split; [|done].
    destruct H2 as [_ H2]. apply H2 in Hx. simpl in Hx. by rewrite Hv in Hx.
Qed.

Lemma drop_all_runs (R : responsive) t s : t_AppID t ≠ "" → (∀ c, c ∈ ps s.1 → c_name c ≠ "") →
  ∃ s', runs (drop_all t) s s' tt ∧ (∀ c, c ∈ ps s'.1 → has_app (t_AppID t) c = false) ∧ (∀ v, v ∈ vols s'.1 → vol_of_app (t_AppID t) v = false).
Proof.
  intros Ha Hne. destruct (drop_containers_runs R (t_AppID t) s Ha Hne) as (s1 & R1 & _ & G1).
  destruct (drop_images_runs (t_AppName t) s1) as (s2 & R2 & S2). destruct (drop_volumes_runs R (t_AppID t) s2) as (s3 & R3 & S3 & G3).
  exists s3. split_and!; [|  |done].
  - eapply runs_bind; [exact R1|]. eapply runs_bind; [apply runs_exec|]. by eapply runs_bind.
  - intros c Hc. destruct S2 as [S2 _], S3 as [S3 _]. destruct (S3 c Hc) as (c2 & Hc2 & _ & _ & E2). destruct (S2 c2 Hc2) as (c1 & Hc1 & _ & _ & E1).
    unfold has_app in *. rewrite E2, E1. by apply G1.
Qed.
End Emptied.

(** ** A whole task *)

Section TaskFacts.
Context {D C : Type} `{DH : DockerHost D} `{DL : !DockerLaws D} `{HL : !HostLaws D} `{CC : CaddyClient C} `{RL : !RouteLaws C}.
Context (wk : Worker) (t : Task).
Implicit Types w : World (D := D) (C := C).

Definition other_routes w w' : Prop := ∀ h, (∀ d, d ∈ t_Domains t → apart h d) → route_of (w_caddy w') h = route_of (w_caddy w) h.

(** The deployments whose log file is removed. *)
Definition removable (id : string) : bool := negb (TrimSpace id =s "") && negb (ContainsAny (TrimSpace id) "/\").
Definition log_of (id : string) : string := log_path (wk_logDir wk) (TrimSpace id).

Definition files_kept w w' : Prop := w_files w' ⊆ w_files w ∧
  ∀ p, p ∈ w_files w → p ∉ w_files w' → ∃ id, id ∈ t_DeploymentIDs t ∧ removable id = true ∧ p = log_of id.

Definition host_kept w w' : Prop :=
  (∀ id, id ≠ t_ServerID t → w_hosts w' !! id = w_hosts w !! id) ∧
  ∀ h, w_hosts w !! t_ServerID t = Some h → ∃ h', w_hosts w' !! t_ServerID t = Some h' ∧ confined (t_AppID t) (t_AppName t) h.1 h'.1.

Lemma host_kept_refl w : host_kept w w.
Proof. split; [done|]. intros h Hh. exists h. split; [done|]. split_and!; apply spared_refl; by intros ?. Qed.

Lemma caddy_wp w : steady (w_caddy w) → wp (cleanupCaddy wk t) (λ w' r, r = inr tt ∧ w_hosts w' = w_hosts w ∧ w_files w' = w_files w ∧ other_routes w w') w.
Proof.
  intros Hst. unfold cleanupCaddy. destruct (_ || _); [by apply wp_ret|].
  apply (wp_each _ (λ w', w_hosts w' = w_hosts w ∧ w_files w' = w_files w ∧ steady (w_caddy w') ∧ other_routes w w'));
    [done| |by intros w' (? & ? & _ & ?)].
  intros h w' Hh (H1 & H2 & H3 & H4). unfold drop_route. destruct (_ =s _); [by apply wp_ret|]. apply wp_modify.
  split_and!; [done|done|by apply remove_steady|]. intros x Hx. simpl. rewrite remove_other by auto. by apply H4.
Qed.

Lemma host_wp w : t_AppID t ≠ "" →
  (∀ h, w_hosts w !! t_ServerID t = Some h → NoDup (c_name <$> ps h.1) ∧ NoDup (vl_Name <$> vols h.1)) →
  wp (cleanupDocker wk t) (λ w' r, r = inr tt ∧ host_kept w w' ∧ w_caddy w' = w_caddy w ∧ w_files w' = w_files w) w.
Proof.
  intros Ha Hnd. unfold cleanupDocker. pose proof (host_kept_refl w). destruct (_ || _); [by apply wp_ret|].
  apply wp_bind, wp_attempt, wp_query; [by apply wp_ret|]. destruct (w_hosts w !! t_ServerID t) as [h|] eqn:Eh; [|by apply wp_ret].
  destruct (Hnd h eq_refl) as [Hn Hv]. apply wp_ignore, wp_zoom. rewrite Eh. simpl.
  eapply wp_mono; [by apply (drop_all_keeps (t_AppID t) (t_AppName t) h.1); [..|split_and!; apply spared_refl; intros ?]|].
  intros s r Hs. simpl. split_and!; [done| |done|done]. split; simpl.
  - intros id Hid. by rewrite lookup_insert_ne.
  - intros h' [= <-]%(eq_trans (eq_sym Eh)). exists s. by rewrite lookup_insert_eq.
Qed.

Lemma logs_wp w : wp (cleanupLogFiles wk t) (λ w' r, r = inr tt ∧ w_hosts w' = w_hosts w ∧ w_caddy w' = w_caddy w ∧ files_kept w w') w.
Proof.
  assert (H0 : files_kept w w) by (by split). unfold cleanupLogFiles. destruct (_ || _); [by apply wp_ret|].
  apply (wp_each _ (λ w', w_hosts w' = w_hosts w ∧ w_caddy w' = w_caddy w ∧ files_kept w w')); [done| |done].
  intros id w' Hid (H1 & H2 & H3). unfold drop_log. cbv zeta. destruct (TrimSpace id =s "") eqn:E1; [by apply wp_ret|].
  destruct (ContainsAny _ _) eqn:E2; [by apply wp_ret|]. apply wp_ignore, wp_exec; [done|]. split_and!; [done|done|].
  destruct H3 as [Hs Hp]. split; simpl; [set_solver|]. intros p Hin Hout.
  destruct (decide (p ∈ w_files w')) as [Hp'|Hp']; [|by apply Hp].
  exists id. split_and!; [done|unfold removable; by rewrite E1, E2|].
  by apply not_elem_of_difference in Hout as [?|?%elem_of_singleton].
Qed.

(** C40: A cleanup stays within its app, images apart.  Whatever fails, a task
    ends without an error, and: every other server keeps its host; on the server
    of the task the containers and the volumes that do not carry the label of
    the app are exactly as before, in their order and running state, and none
    appears; of the image tags those are removed at most that begin with
    "prexel-<name>-", every other tag stays in its place and none appears (the
    prefix is also that of an app called "<name>-<more>", whose images go with
    it: [prefix_reaches_other_app]); a host the proxy tells apart from the
    domains of the app keeps its route; and a file that disappears is the log of
    one of the listed deployments, directly inside the log directory.  (Docker
    keeps the names of containers and of volumes unique; the proxy is steady.) *)
Theorem cleanup_confined w fs : t_AppID t ≠ "" → steady (w_caddy w) →
  (∀ h, w_hosts w !! t_ServerID t = Some h → NoDup (c_name <$> ps h.1) ∧ NoDup (vl_Name <$> vols h.1)) →
  let '(w', _, r) := run_task wk t w fs in r = inr tt ∧ host_kept w w' ∧ other_routes w w' ∧ files_kept w w'.
Proof.
  intros Ha Hst Hn. enough (HW : wp (run_task wk t) (λ w' r, r = inr tt ∧ host_kept w w' ∧ other_routes w w' ∧ files_kept w w') w).
  { specialize (HW fs). by destruct (run_task wk t w fs) as [[? ?] ?]. }
  apply wp_bind. eapply wp_mono; [by apply caddy_wp|]. intros w1 r1 (-> & H1 & F1 & R1).
  apply wp_bind. eapply wp_mono; [apply host_wp; [done|by rewrite H1]|]. intros w2 r2 (-> & H2 & C2 & F2).
  eapply wp_mono; [apply logs_wp|]. intros w3 r3 (-> & H3 & C3 & F3).
  unfold host_kept, other_routes, files_kept in *. rewrite F2, F1 in F3. rewrite H1 in H2. by rewrite H3, C3, C2.
Qed.

Hypothesis proxy_answers : ∀ h (c : C), (RemoveRoute h c).2 = COk.
Hypothesis domains_apart : ∀ d d', d ∈ t_Domains t → d' ∈ t_Domains t → d = d' ∨ apart d d'.

Lemma routes_run l w : (∀ d, d ∈ l → d ∈ t_Domains t) → steady (w_caddy w) → ∃ w', runs (each drop_route l) w w' tt ∧
  w_hosts w' = w_hosts w ∧ steady (w_caddy w') ∧
  (∀ d, d ∈ t_Domains t → route_of (w_caddy w) d = None → route_of (w_caddy w') d = None) ∧
  (∀ d, d ∈ l → TrimSpace d ≠ "" → route_of (w_caddy w') d = None).
Proof.
  revert w. induction l as [|d l IH]; intros w Hl Hst; [exists w; split_and!; [done..|by intros ? ?%not_elem_of_nil]|].
  assert (H1 : ∃ w1, runs (drop_route d) w w1 tt ∧ w_hosts w1 = w_hosts w ∧ steady (w_caddy w1) ∧
    (∀ x, x ∈ t_Domains t → route_of (w_caddy w) x = None → route_of (w_caddy w1) x = None) ∧
    (TrimSpace d ≠ "" → route_of (w_caddy w1) d = None)).
  { unfold drop_route. destruct (TrimSpace d =s "") eqn:Et.
    { exists w. split_and!; [done..|]. by apply String.eqb_eq in Et. }
    assert (Hr : route_of (RemoveRoute d (w_caddy w)).1 d = None).
    { eapply remove_ok; [exact Hst|]. rewrite (surjective_pairing (RemoveRoute d (w_caddy w))). by rewrite proxy_answers. }
    eexists. split_and!; [done|done|by apply remove_steady| |done]. intros x Hx Hn. simpl.
    destruct (domains_apart x d Hx ltac:(apply Hl; left)) as [->|Hap]; [done|by rewrite remove_other]. }
  destruct H1 as (w1 & R1 & E1 & Hst1 & K1 & G1).
  destruct (IH w1) as (w2 & R2 & E2 & Hst2 & K2 & G2); [intros; apply Hl; by right|done|].
  exists w2. split_and!; [by eapply runs_bind|congruence|done|auto|].
  intros x [->|Hx]%elem_of_cons Ht; [|by apply G2]. apply K2; [apply Hl; left|by apply G1].
Qed.

Lemma caddy_runs w : steady (w_caddy w) → ∃ w', runs (cleanupCaddy wk t) w w' tt ∧ w_hosts w' = w_hosts w ∧
  (wk_caddy wk = true → ∀ d, d ∈ t_Domains t → TrimSpace d ≠ "" → route_of (w_caddy w') d = None).
Proof.
  intros Hst. unfold cleanupCaddy. destruct (negb (wk_caddy wk) || is_nil (t_Domains t)) eqn:E.
  { exists w. split_and!; [done|done|]. intros Hc d Hd. rewrite Hc in E. by destruct (t_Domains t); [apply not_elem_of_nil in Hd|]. }
  destruct (routes_run (t_Domains t) w) as (w' & R1 & E1 & _ & _ & G1); [done|done|]. by exists w'.
Qed.

Lemma logs_runs w : ∃ w', runs (cleanupLogFiles wk t) w w' tt ∧ w_hosts w' = w_hosts w ∧ w_caddy w' = w_caddy w ∧
  (wk_logDir wk ≠ "" → ∀ id, id ∈ t_DeploymentIDs t → removable id = true → log_of id ∉ w_files w').
Proof.
  unfold cleanupLogFiles. destruct ((wk_logDir wk =s "") || is_nil (t_DeploymentIDs t)) eqn:E.
  { exists w. split_and!; [done|done|done|]. intros Hd id Hid. apply String.eqb_neq in Hd. rewrite Hd in E.
    by destruct (t_DeploymentIDs t); [apply not_elem_of_nil in Hid|]. }
  pose (R := λ w w', w_hosts w' = w_hosts w ∧ w_caddy w' = w_caddy w ∧ w_files w' ⊆ w_files w).
  assert (PreOrder R). { split; [by split|]. intros x y z (? & ? & ?) (? & ? & ?). split_and!; [congruence|congruence|set_solver]. }
  destruct (runs_each (drop_log (wk_logDir wk)) R (λ id w, removable id = true → log_of id ∉ w_files w) (t_DeploymentIDs t)) with (s := w)
    as (w' & H1 & (H2 & H3 & _) & H4); [| |by exists w'; eauto].
  - intros id w1 Hd. unfold drop_log, removable, log_of. cbv zeta. destruct (TrimSpace id =s ""); [by exists w1|].
    destruct (ContainsAny _ _); [by exists w1|]. eexists. split_and!; [eapply runs_ignore, runs_exec|split_and!; simpl; [done|done|set_solver]|].
    intros _. simpl. set_solver.
  - intros id w1 w2 Hp (_ & _ & Hk) Hr. specialize (Hp Hr). set_solver.
Qed.

Lemma docker_runs w : responsive (D := D) → t_AppID t ≠ "" → (∀ h c, w_hosts w !! t_ServerID t = Some h → c ∈ ps h.1 → c_name c ≠ "") →
  ∃ w', runs (cleanupDocker wk t) w w' tt ∧ w_caddy w' = w_caddy w ∧
  (wk_servers wk = true → t_ServerID t ≠ "" → ∀ h, w_hosts w' !! t_ServerID t = Some h →
    (∀ c, c ∈ ps h.1 → has_app (t_AppID t) c = false) ∧ (∀ v, v ∈ vols h.1 → vol_of_app (t_AppID t) v = false)).
Proof.
  intros R Ha Hn. unfold cleanupDocker. destruct (negb (wk_servers wk) || (t_ServerID t =s "")) eqn:E.
  { exists w. split_and!; [done|done|]. intros Hw Hs%String.eqb_neq. by rewrite Hw, Hs in E. }
  destruct (w_hosts w !! t_ServerID t) as [h|] eqn:Eh.
  - destruct (drop_all_runs R t h Ha ltac:(intros c Hc; eapply Hn; [reflexivity|exact Hc])) as (s & R1 & G1 & G2).
    exists (set_host (t_ServerID t) s w). split_and!; [|done|].
    + eapply (runs_bind _ _ _ w _ (inr (Some h))); [by apply runs_attempt, runs_query|]. eapply runs_ignore. unfold runs, zoom. rewrite Eh. simpl. by rewrite R1.
    + intros _ _ h' Hh'. simpl in Hh'. rewrite lookup_insert_eq in Hh'. by simplify_eq.
  - exists w. split_and!; [|done|].
    + by eapply (runs_bind _ _ _ w _ (inr None)); [apply runs_attempt, runs_query|].
    + intros _ _ h' Hh'. congruence.
Qed.

(** A cleanup is complete.  When nothing fails, after the task no container
    and no volume of the server carries the label of the app, none of its domains
    has a route, and the log files of its deployments are gone. *)
Theorem cleanup_complete w : responsive (D := D) → steady (w_caddy w) → t_AppID t ≠ "" → t_ServerID t ≠ "" →
  wk_caddy wk = true → wk_servers wk = true → wk_logDir wk ≠ "" →
  (∀ h c, w_hosts w !! t_ServerID t = Some h → c ∈ ps h.1 → c_name c ≠ "") →
  let '(w', r) := run (run_task wk t) w in r = inr tt ∧
  (∀ h, w_hosts w' !! t_ServerID t = Some h →
    (∀ c, c ∈ ps h.1 → has_app (t_AppID t) c = false) ∧ (∀ v, v ∈ vols h.1 → vol_of_app (t_AppID t) v = false)) ∧
  (∀ d, d ∈ t_Domains t → TrimSpace d ≠ "" → route_of (w_caddy w') d = None) ∧
  (∀ id, id ∈ t_DeploymentIDs t → removable id = true → log_of id ∉ w_files w').
Proof.
  intros R Hst Ha Hs Hc Hsv Hl Hn. destruct (caddy_runs w Hst) as (w1 & R1 & H1 & G1).
  destruct (docker_runs w1 R Ha) as (w2 & R2 & H2 & G2); [by rewrite H1|].
  destruct (logs_runs w2) as (w3 & R3 & H3 & C3 & G3).
  erewrite runs_run; [|by eapply runs_bind; [exact R1|eapply runs_bind; [exact R2|exact R3]]].
  rewrite H3, C3, H2. split_and!; auto.
Qed.
End TaskFacts.

(** ** The queue *)

Section Queue.

Inductive phase := Selecting | Draining | Working (t : Task) (draining : bool) | Exited.

(** The channel with its capacity, the stop channel, the goroutines, the tasks
    that were accepted and the tasks that were run, in the order of their ends. *)
Record Queue := mkQueue {
  q_inbox : list Task; q_cap : nat; q_stopped : bool; q_loops : list phase;
  q_accepted : list Task; q_done : list Task;
}.

Definition New (queueSize : Z) : Queue := mkQueue [] (Z.to_nat (if (queueSize <=? 0)%Z then 64 else queueSize)) false [] [] [].

Inductive SubmitErr := ErrEmptyAppID | ErrQueueFull.

Definition Submit (t : Task) (q : Queue) : Queue * option SubmitErr :=
  if t_AppID t =s "" then (q, Some ErrEmptyAppID)
  else if length (q_inbox q) <? q_cap q
  then (mkQueue (q_inbox q ++ [t]) (q_cap q) (q_stopped q) (q_loops q) (q_accepted q ++ [t]) (q_done q), None)
  else (q, Some ErrQueueFull).

Definition Start (q : Queue) : Queue :=
  mkQueue (q_inbox q) (q_cap q) (q_stopped q) (q_loops q ++ [Selecting]) (q_accepted q) (q_done q).

(** Closing the channel; the wait that follows ends when every loop has exited. *)
Definition Stop (q : Queue) : Queue := mkQueue (q_inbox q) (q_cap q) true (q_loops q) (q_accepted q) (q_done q).

(** A step of [loop]: its phase, the inbox, and the tasks it completes.  When
    both channels are ready the outer [select] takes either. *)
Inductive loop_step (stopped : bool) : phase → list Task → phase → list Task → list Task → Prop :=
  | step_take t r : loop_step stopped Selecting (t :: r) (Working t false) r []
  | step_stop inbox : stopped = true → loop_step stopped Selecting inbox Draining inbox []
  | step_drain t r : loop_step stopped Draining (t :: r) (Working t true) r []
  | step_exit : loop_step stopped Draining [] Exited [] []
  | step_finish t d inbox : loop_step stopped (Working t d) inbox (if d then Draining else Selecting) inbox [t].

Inductive wstep : Queue → Queue → Prop :=
  | worker_step i p p' q inbox' finished :
      q_loops q !! i = Some p → loop_step (q_stopped q) p (q_inbox q) p' inbox' finished →
      wstep q (mkQueue inbox' (q_cap q) (q_stopped q) (<[i := p']> (q_loops q)) (q_accepted q) (q_done q ++ finished)).

Inductive qstep : Queue → Queue → Prop :=
  | q_submit t q : qstep q (Submit t q).1
  | q_start q : qstep q (Start q)
  | q_stop q : qstep q (Stop q)
  | q_worker q q' : wstep q q' → qstep q q'.

Definition working (p : phase) : list Task := match p with Working t _ => [t] | _ => [] end.
Definition being_run (q : Queue) : list Task := q_loops q ≫= working.

(** Nothing accepted is lost or run twice; no loop leaves before the stop. *)
Definition live (p : phase) : bool := match p with Selecting | Working _ false => true | _ => false end.
Record queue_ok (q : Queue) : Prop := {
  qo_tasks : q_accepted q ≡ₚ q_done q ++ being_run q ++ q_inbox q;
  qo_cap : length (q_inbox q) ≤ q_cap q;
  qo_live : q_stopped q = false → Forall (λ p, live p = true) (q_loops q);
}.

(** With one goroutine the tasks are run in the order of their submission. *)
Definition fifo (q : Queue) : Prop := length (q_loops q) ≤ 1 → q_accepted q = q_done q ++ being_run q ++ q_inbox q.

Lemma in_flight_insert (l : list phase) i p p' : l !! i = Some p →
  ∃ a b, l = a ++ p :: b ∧ <[i := p']> l = a ++ p' :: b.
Proof.
  intros Hi. exists (take i l), (drop (S i) l). split; [symmetry; by apply take_drop_middle|].
  rewrite insert_take_drop by (by eapply lookup_lt_Some). done.
Qed.

Lemma loop_step_tasks b p i p' i' f : loop_step b p i p' i' f → f ++ working p' ++ i' = working p ++ i.
Proof. inversion 1; subst; try done. by destruct d. Qed.

Lemma loop_step_inbox b p i p' i' f : loop_step b p i p' i' f → length i' ≤ length i.
Proof. inversion 1; subst; simpl; lia. Qed.

Lemma wstep_ok q q' : wstep q q' → queue_ok q → queue_ok q'.
Proof.
  intros [i p p' q0 inbox' f Hi Hs] [Ht Hc Hl]. pose proof (loop_step_tasks _ _ _ _ _ _ Hs) as He.
  destruct (in_flight_insert _ _ _ p' Hi) as (a & b & Ea & Eb). split; simpl.
  - etransitivity; [exact Ht|]. unfold being_run. simpl. rewrite Eb, Ea, !bind_app, !bind_cons, <-!(assoc_L (++)).
    apply Permutation_app_head. transitivity ((working p ++ q_inbox q0) ++ (a ≫= working) ++ (b ≫= working)); [solve_Permutation|].
    rewrite <-He. solve_Permutation.
  - apply loop_step_inbox in Hs. lia.
  - intros Hst. specialize (Hl Hst). apply Forall_insert; [done|].
    pose proof (proj1 (Forall_lookup _ _) Hl _ _ Hi) as Hp. inversion Hs; subst; try done; [congruence|by destruct d].
Qed.

Lemma wstep_fifo q q' : wstep q q' → fifo q → fifo q'.
Proof.
  intros [i p p' q0 inbox' f Hi Hs] Hf Hlen. pose proof (loop_step_tasks _ _ _ _ _ _ Hs) as He.
  simpl in Hlen. rewrite length_insert in Hlen. specialize (Hf Hlen). simpl. rewrite Hf.
  unfold being_run in *. simpl. destruct (q_loops q0) as [|x [|]]; simpl in *; [done| |lia].
  destruct i; [|done]. simplify_eq/=.
  rewrite !app_nil_r, <-!(assoc_L (++)). by rewrite He.
Qed.

Lemma qstep_ok q q' : qstep q q' → queue_ok q → queue_ok q'.
Proof.
  intros [t ?|?|?|? ? Hw]; [| | |by apply wstep_ok].
  - intros [Ht Hc Hl]. unfold Submit. destruct (_ =s _); [by split|]. destruct (Nat.ltb_spec (length (q_inbox q0)) (q_cap q0)); [|by split].
    split; simpl; [|rewrite length_app; simpl; lia|done]. unfold being_run in *. simpl. by rewrite Ht, !(assoc_L (++)).
  - intros [Ht Hc Hl]. split; simpl; [|done|].
    + unfold being_run in *. simpl. by rewrite bind_app, app_nil_r.
    + intros Hs. apply Forall_app. split; [by apply Hl|by repeat constructor].
  - intros [Ht Hc Hl]. by split.
Qed.

Lemma qstep_fifo q q' : qstep q q' → fifo q → fifo q'.
Proof.
  intros [t ?|?|?|? ? Hw] Hf; [| |done|by eapply wstep_fifo].
  - unfold Submit. destruct (_ =s _); [done|]. destruct (_ <? _); [|done]. intros Hl. simpl in *.
    unfold being_run in *. simpl. by rewrite Hf, !(assoc_L (++)).
  - intros Hl. unfold being_run, Start in *. simpl in *. rewrite length_app in Hl. simpl in Hl.
    rewrite Hf by lia. by rewrite bind_app, app_nil_r.
Qed.

Lemma new_queue_ok n : queue_ok (New n).
Proof. split; simpl; [done|lia|constructor]. Qed.

Lemma reachable_queue n q : rtc qstep (New n) q → queue_ok q ∧ fifo q.
Proof.
  intros Hr. assert (H0 : queue_ok (New n) ∧ fifo (New n)) by (split; [apply new_queue_ok|done]).
  revert H0. induction Hr as [|x y z Hxy _ IH]; [done|]. intros [H1 H2]. apply IH.
  split; [by eapply qstep_ok|by eapply qstep_fifo].
Qed.

(** *** Draining *)

Definition weight (p : phase) : nat := match p with Selecting => 2 | Draining => 1 | Working _ false => 3 | Working _ true => 2 | Exited => 0 end.
Definition remaining (q : Queue) : nat := 3 * length (q_inbox q) + sum_list_with weight (q_loops q).

Lemma wstep_shrinks q q' : wstep q q' → remaining q' < remaining q.
Proof.
  intros [i p p' q0 inbox' f Hi Hs]. destruct (in_flight_insert _ _ _ p' Hi) as (a & b & Ea & Eb).
  unfold remaining. simpl. rewrite Eb, Ea, !sum_list_with_app. simpl.
  inversion Hs; subst; simpl in *; try lia. destruct d; simpl; lia.
Qed.

Lemma nsteps_bound n q q' : nsteps wstep n q q' → n + remaining q' ≤ remaining q.
Proof. induction 1 as [|n x y z H1 H2 IH]; [lia|]. apply wstep_shrinks in H1. lia. Qed.

Lemma stuck_exited q : q_stopped q = true → nf wstep q → Forall (λ p, p = Exited) (q_loops q).
Proof.
  intros Hs Hn. apply Forall_lookup. intros i p Hi. destruct p as [| |t d|]; [| | |done]; exfalso; apply Hn.
  - eexists. eapply worker_step; [exact Hi|]. by apply step_stop.
  - destruct (q_inbox q) as [|t r] eqn:E; eexists; (eapply worker_step; [exact Hi|]); rewrite E; constructor.
  - eexists. eapply worker_step; [exact Hi|]. constructor.
Qed.

(** *** After the stop

    [Submit] does not look at the stop channel: tasks may still arrive.
    [after_stop q0 k m q]: from the stop of [q0], after [k] steps of goroutines and
    [m] submissions. *)
Inductive after_stop (q0 : Queue) : nat → nat → Queue → Prop :=
  | as_stop : after_stop q0 0 0 (Stop q0)
  | as_step k m q q' : after_stop q0 k m q → wstep q q' → after_stop q0 (S k) m q'
  | as_submit k m q t : after_stop q0 k m q → after_stop q0 k (S m) (Submit t q).1.

(** Until the tasks accepted before the stop have been taken from the inbox no
    goroutine returns; then only late ones are left in it. *)
Definition draining_ok (q0 q : Queue) : Prop := q_stopped q = true ∧ length (q_loops q) = length (q_loops q0) ∧
  ∃ late, q_accepted q = q_accepted q0 ++ late ∧
    ((∃ i, q_inbox q = i ++ late ∧ i ≠ [] ∧ Forall (λ p, p ≠ Exited) (q_loops q)) ∨
     ∃ run, late = run ++ q_inbox q).

Lemma stop_draining q : queue_ok q → q_stopped q = false → draining_ok q (Stop q).
Proof.
  intros [_ _ Hl] Hst. split_and!; [done|done|]. exists []. split; [by rewrite app_nil_r|]. simpl.
  destruct (q_inbox q) as [|t r]; [right; by exists []|left]. exists (t :: r). split_and!; [by rewrite app_nil_r|done|].
  eapply Forall_impl; [by apply Hl|]. by intros [].
Qed.

Lemma wstep_draining q0 q q' : wstep q q' → draining_ok q0 q → draining_ok q0 q'.
Proof.
  intros [i p p' q1 inbox' f Hi Hs] (Hst & Hlen & late & Ha & Hd). split_and!; simpl; [done|by rewrite length_insert|].
  exists late. split; [done|]. destruct Hd as [(i1 & Ei & Hne & Hf)|(run & Er)].
  - rewrite Ei in Hs. destruct i1 as [|t i1]; [done|].
    assert (Hx : p' ≠ Exited) by (inversion Hs; subst; [done..|by destruct d]).
    assert (Hf' : Forall (λ p, p ≠ Exited) (<[i:=p']> (q_loops q1))) by by apply Forall_insert.
    assert (Hin : inbox' = t :: i1 ++ late ∨ inbox' = i1 ++ late) by (inversion Hs; subst; auto).
    destruct Hin as [-> | ->]; [left; by exists (t :: i1)|]. destruct i1 as [|t' i1]; [right; by exists []|left; by exists (t' :: i1)].
  - right. assert (Hin : q_inbox q1 = inbox' ∨ ∃ t, q_inbox q1 = t :: inbox') by (inversion Hs; subst; eauto).
    destruct Hin as [E|[t E]]; [exists run; by rewrite <- E|]. exists (run ++ [t]). by rewrite Er, E, <- app_assoc.
Qed.

Lemma submit_draining q0 t q : draining_ok q0 q → draining_ok q0 (Submit t q).1.
Proof.
  intros (Hst & Hlen & late & Ha & Hd). unfold Submit. destruct (_ =s _); [by split_and!; [..|exists late]|].
  destruct (_ <? _); [|by split_and!; [..|exists late]]. split_and!; [done|done|]. simpl. exists (late ++ [t]).
  split; [by rewrite Ha, app_assoc|]. destruct Hd as [(i1 & Ei & ? & ?)|(run & Er)].
  - left. exists i1. by rewrite Ei, app_assoc.
  - right. exists run. by rewrite Er, app_assoc.
Qed.

Lemma submit_remaining t q : remaining (Submit t q).1 ≤ remaining q + 3.
Proof.
  unfold Submit. destruct (_ =s _); [simpl; lia|]. destruct (_ <? _); [|simpl; lia]. unfold remaining. simpl.
  rewrite length_app. simpl. lia.
Qed.

Lemma wstep_accepted q q' : wstep q q' → q_accepted q' = q_accepted q.
Proof. by intros []. Qed.

Lemma after_stop_inv q0 k m q : queue_ok q0 → fifo q0 → q_stopped q0 = false → after_stop q0 k m q →
  queue_ok q ∧ fifo q ∧ draining_ok q0 q ∧ k + remaining q ≤ remaining (Stop q0) + 3 * m.
Proof.
  intros Hok Hf Hst. induction 1 as [|k m q q' _ (H1 & H2 & H3 & H4) Hw|k m q t _ (H1 & H2 & H3 & H4)].
  - split_and!; [by eapply qstep_ok; [apply q_stop|]|by eapply qstep_fifo; [apply q_stop|]|by apply stop_draining|lia].
  - split_and!; [by eapply wstep_ok|by eapply wstep_fifo|by eapply wstep_draining|]. apply wstep_shrinks in Hw. lia.
  - split_and!; [by eapply qstep_ok; [apply (q_submit t)|]|by eapply qstep_fifo; [apply (q_submit t)|]|by apply submit_draining|].
    pose proof (submit_remaining t q). lia.
Qed.

(** C39: Stopping the worker ends, and loses nothing that was accepted before.
    In any history of submissions, starts and steps, once the stop channel is
    closed the goroutines take at most [remaining] steps and three more for every
    task that is still submitted, under every choice of the scheduler and of
    [select].  When they can take no more, all of them have returned; and if
    the worker was started before, the tasks that were run are exactly those
    accepted before the stop and the first of those submitted after it, with a
    single goroutine in the order of their submission.  What was submitted later
    stays in the channel and is never run; when nothing is submitted after the
    stop, exactly the accepted tasks have been run. *)
Theorem stop_drains (n : Z) (q : Queue) k m (q' : Queue) :
  rtc qstep (New n) q → q_stopped q = false → after_stop q k m q' →
  k ≤ remaining (Stop q) + 3 * m ∧
  (nf wstep q' → Forall (λ p, p = Exited) (q_loops q') ∧
     (q_loops q ≠ [] → ∃ late,
        q_accepted q' = q_accepted q ++ late ++ q_inbox q' ∧
        q_done q' ≡ₚ q_accepted q ++ late ∧
        (length (q_loops q) = 1 → q_done q' = q_accepted q ++ late) ∧
        (m = 0 → late = [] ∧ q_inbox q' = []))).
Proof.
  intros Hr Hst Has. apply reachable_queue in Hr as [Hok0 Hf0].
  destruct (after_stop_inv q k m q' Hok0 Hf0 Hst Has) as (Hok & Hf & (Hs' & Hlen & late & Ha & Hd) & Hk).
  split; [lia|]. intros Hn. pose proof (stuck_exited _ Hs' Hn) as He. split; [done|]. intros Hne.
  destruct Hd as [(_ & _ & _ & Hx)|(run & Er)].
  { destruct (q_loops q') as [|p l]; [by destruct (q_loops q)|].
    apply Forall_cons in Hx as [Hp _], He as [-> _]. done. }
  assert (Hfl : being_run q' = []).
  { unfold being_run. clear -He. induction He as [|x l -> _ IH]; [done|]. by rewrite bind_cons. }
  destruct Hok as [Ht _ _]. rewrite Hfl, Ha, Er in Ht. simpl in Ht. rewrite app_assoc in Ht. apply Permutation_app_inv_r in Ht.
  exists run. split_and!; [by rewrite Ha, Er|by symmetry| |].
  - intros H1. specialize (Hf ltac:(lia)). rewrite Hfl, Ha, Er in Hf. simpl in Hf. rewrite app_assoc in Hf.
    by apply app_inv_tail in Hf.
  - intros ->. assert (Hacc : q_accepted q' = q_accepted q).
    { clear -Has. remember 0 as m eqn:Em. induction Has as [|k m q1 q' _ IH Hw|]; [done| |done].
      rewrite (wstep_accepted _ _ Hw). by apply IH. }
    rewrite Ha in Hacc. apply (f_equal length) in Hacc. rewrite length_app in Hacc.
    assert (late = []) as -> by (apply length_zero_iff_nil; lia). by apply app_eq_nil.
Qed.
End Queue.

(** ** The sweep *)

Section SweepFacts.
Context {D : Type} `{DH : DockerHost D} `{DL : !DockerLaws D} `{HL : !HostLaws D}.

(** The containers of [d] that run are still there. *)
Definition running_kept (d d' : D) : Prop := ∀ c, c ∈ ps d → c_running c = true → c ∈ ps d'.

Lemma remove_each_wp l z s (Q : D * list D → DkErr + Z → Prop) :
  (∀ s' z', ps s'.1 = ps s.1 → (z <= z' <= z + Z.of_nat (length l))%Z → Q s' (inr z')) → wp (remove_each l z) Q s.
Proof.
  revert z s. induction l as [|v l IH]; intros z s HQ; simpl in *.
  - apply wp_ret, HQ; [done|lia].
  - apply wp_bind, wp_attempt, wp_bind, wp_call. pose proof (image_remove_ps (ie_Ref v) s.1) as Hp.
    destruct (ImageRemove (ie_Ref v) s.1) as [d r]. simpl in *.
    destruct r; [apply wp_ret|apply wp_throw..]; apply IH; intros s' z' E1 E2; apply HQ; simpl in *; (congruence || lia).
Qed.

Lemma retain_wp order n s (Q : D * list D → DkErr + Z → Prop) :
  (∀ s' r, ps s'.1 = ps s.1 → Q s' r) → wp (RetainImagesPerApp order n) Q s.
Proof.
  intros HQ. apply wp_bind, wp_bind, wp_call. pose proof (summaries_ps "prexel.app_id" "" s.1) as Hp.
  destruct (ImageSummaries _ _ s.1) as [d [l|]]; simpl in *; [apply wp_ret|by apply wp_throw, HQ].
  apply remove_each_wp. intros. apply HQ. simpl in *. congruence.
Qed.

Lemma prune_wp s (Q : D * list D → DkErr + (Z * option DkErr) → Prop) :
  (∀ s' r, running_kept s.1 s'.1 → Q s' r) → wp PruneDangling Q s.
Proof.
  intros HQ. apply wp_bind, wp_bind, wp_call. pose proof (images_prune_ps s.1) as Hp.
  destruct (ImagesPrune s.1) as [d1 [b|]]; simpl in *; [apply wp_ret|apply wp_throw, HQ; intros c; simpl; by rewrite Hp].
  apply wp_bind, wp_attempt, wp_bind, wp_call. simpl. pose proof (prune_running d1) as Hr. rewrite Hp in Hr.
  destruct (ContainersPrune d1) as [d2 [z|]]; simpl in *; [apply wp_ret|apply wp_throw]; by apply wp_ret, HQ.
Qed.

(** The nightly sweep never takes a running container, whatever fails in it,
    and touches no container at all unless it is enabled, due, and the disk is
    above the threshold (or its use unknown, or no threshold set). *)
Theorem sweep_safe order cfg t used s fs :
  let '(s', _, _) := tick order cfg t used s fs in
  running_kept s.1 s'.1 ∧
  (cc_Enabled cfg = false ∨ scheduleMatches (cc_Schedule cfg) t = false ∨
   (∃ u, used = Some u ∧ (u < cc_DiskThreshold cfg)%Z ∧ (0 < cc_DiskThreshold cfg)%Z) → ps s'.1 = ps s.1).
Proof.
  enough (HW : wp (tick order cfg t used) (λ s' _, running_kept s.1 s'.1 ∧
    (cc_Enabled cfg = false ∨ scheduleMatches (cc_Schedule cfg) t = false ∨
     (∃ u, used = Some u ∧ (u < cc_DiskThreshold cfg)%Z ∧ (0 < cc_DiskThreshold cfg)%Z) → ps s'.1 = ps s.1)) s).
  { specialize (HW fs). by destruct (tick order cfg t used s fs) as [[? ?] ?]. }
  assert (Hid : running_kept s.1 s.1) by (by intros c). unfold tick, runCleanup.
  destruct (cc_Enabled cfg); simpl; [|by apply wp_ret]. destruct (scheduleMatches _ _); simpl; [|by apply wp_ret].
  case_match eqn:Eh.
  - apply wp_ignore, retain_wp. intros s' _ E. unfold running_kept. by rewrite E.
  - apply wp_bind, wp_ignore, prune_wp. intros s1 _ H1. apply wp_ignore, retain_wp. intros s2 _ E2.
    split; [intros c; rewrite E2; apply H1|]. intros [?|[?|(u & -> & Hu & H0)]]; [done|done|].
    apply Z.ltb_lt in Hu, H0. by rewrite Hu, H0 in Eh.
Qed.
End SweepFacts.

Lemma later_total x y : newer_image x y = false → newer_image y x = true.
Proof. unfold newer_image. lia. Qed.

Lemma later_trans x y z : newer_image x y = true → newer_image y z = true → newer_image x z = true.
Proof. unfold newer_image. lia. Qed.

(** Retention keeps the newest images.  For every app the images with its
    label split into those kept and those the sweep asks to remove: the kept ones
    are as many as the limit or all there are, none is older than a removed one,
    and an image without the label, or of another app, is in neither. *)
Theorem retention_spec n imgs a :
  let kept := if length (group imgs a) <=? n then group imgs a else take n (sort_by newer_image (group imgs a)) in
  group imgs a ≡ₚ kept ++ victims_of n imgs a ∧ length kept = n `min` length (group imgs a) ∧
  (∀ k v, k ∈ kept → v ∈ victims_of n imgs a → (ie_Created v <= ie_Created k)%Z) ∧
  (∀ e, e ∈ group imgs a → ∃ im, im ∈ imgs ∧ e = image_entry im ∧ default "" (im_Labels im !! "prexel.app_id") = a).
Proof.
  assert (Hg : ∀ e, e ∈ group imgs a → ∃ im, im ∈ imgs ∧ e = image_entry im ∧ default "" (im_Labels im !! "prexel.app_id") = a).
  { intros e (im & -> & Him)%list_elem_of_fmap. apply elem_of_filter_b in Him as [Him E%String.eqb_eq]. by exists im. }
  unfold victims_of. destruct (Nat.leb_spec (length (group imgs a)) n); cbv zeta.
  - rewrite app_nil_r. split_and!; [done|lia| |done]. by intros k v _ ?%not_elem_of_nil.
  - pose proof (sort_by_perm newer_image (group imgs a)) as Hp. split_and!; [| | |done].
    + by rewrite take_drop, Hp.
    + rewrite length_take, (Permutation_length Hp). done.
    + intros k v Hk Hv. pose proof (sort_by_strongly newer_image later_total later_trans (group imgs a)) as HS.
      rewrite <-(take_drop n (sort_by newer_image (group imgs a))) in HS.
      apply StronglySorted_app in HS as (Hc & _). specialize (Hc k v Hk Hv). unfold newer_image in Hc. lia.
Qed.

(** ** A concrete host *)

Record Toy := mkToy { ty_ps : list Container; ty_vols : list Vol; ty_images : list Summary }.

Definition on_ps {A} (f : list Container → list Container * A) (d : Toy) : Toy * A :=
  (mkToy (f (ty_ps d)).1 (ty_vols d) (ty_images d), (f (ty_ps d)).2).

(** [rmi] of a tag: an image without tags left goes. *)
Definition untag (tag : string) (im : Summary) : Summary :=
  mkSummary (im_ID im) (List.filter (λ x, negb (x =s tag)) (im_RepoTags im)) (im_RepoDigests im) (im_Labels im) (im_Created im).

Lemma untag_all tag l : (untag tag <$> l) ≫= im_RepoTags = List.filter (λ x, negb (x =s tag)) (l ≫= im_RepoTags).
Proof. induction l as [|im l IH]; [done|]. rewrite fmap_cons, !bind_cons, List.filter_app. by rewrite IH. Qed.

#[export] Instance toy_daemon : DockerDaemon Toy := {
  ContainerCreate cfg := on_ps (ContainerCreate cfg);
  ContainerStart i := on_ps (ContainerStart i);
  ContainerStop r := on_ps (ContainerStop r);
  ContainerRemove r := on_ps (ContainerRemove r);
  ContainerRename o n := on_ps (ContainerRename o n);
  ContainerRestart n := on_ps (ContainerRestart n);
  ContainerInspect n := on_ps (ContainerInspect n);
  ContainerList k v := on_ps (ContainerList k v);
  ContainerExec n c d := (d, DOk);
  ImageInspect i d := (d, DOk);
  ImageRemove i d := (mkToy (ty_ps d) (ty_vols d) (untag i <$> ty_images d), DOk);
  ImageList d := (d, Some ((λ im, (im_RepoTags im, im_Created im)) <$> ty_images d));
  NetworkInspect n d := (d, DOk);
  NetworkCreate n d := (d, DOk);
  VolumeCreate n l d := (mkToy (ty_ps d) (ty_vols d ++ [mkVol n l]) (ty_images d), DOk);
}.

Lemma on_ps_eq {A} (f : list Container → list Container * A) d d' r : on_ps f d = (d', r) → f (ty_ps d) = (ty_ps d', r).
Proof. unfold on_ps. intros [= <- <-]. apply surjective_pairing. Qed.

#[export] Instance toy_laws : DockerLaws Toy := {
  ps := ty_ps;
  create_ok o d d' id E := create_ok (D := list Container) o _ _ id (on_ps_eq _ _ _ _ E);
  create_failed o d d' r id E := create_failed (D := list Container) o _ _ r id (on_ps_eq _ _ _ _ E);
  start_ok i d d' E := start_ok (D := list Container) i _ _ (on_ps_eq _ _ _ _ E);
  start_failed i d d' r E := start_failed (D := list Container) i _ _ r (on_ps_eq _ _ _ _ E);
  stop_any x d d' r E := stop_any (D := list Container) x _ _ r (on_ps_eq _ _ _ _ E);
  remove_any x d d' r E := remove_any (D := list Container) x _ _ r (on_ps_eq _ _ _ _ E);
  rename_ok o n d d' E := rename_ok (D := list Container) o n _ _ (on_ps_eq _ _ _ _ E);
  rename_failed o n d d' r E := rename_failed (D := list Container) o n _ _ r (on_ps_eq _ _ _ _ E);
  restart_any n d d' r E := restart_any (D := list Container) n _ _ r (on_ps_eq _ _ _ _ E);
  inspect_ps n d := eq_refl;
  list_ps k v d := eq_refl;
  list_ok k v d d' l E := list_ok (D := list Container) k v _ _ l (on_ps_eq _ _ _ _ E);
  exec_ps n c d := eq_refl;
  image_inspect_ps i d := eq_refl;
  image_remove_ps i d := eq_refl;
  image_list_ps d := eq_refl;
  network_inspect_ps n d := eq_refl;
  network_create_ps n d := eq_refl;
  volume_create_ps n l d := eq_refl;
}.

#[export] Instance toy_host : DockerHost Toy := {
  ImageSummaries k v d := (d, Some (List.filter (λ im, label_matches k v (im_Labels im)) (ty_images d)));
  ImagesPrune d := (mkToy (ty_ps d) (ty_vols d) (List.filter (λ im, negb (is_nil (im_RepoTags im))) (ty_images d)), Some 0%Z);
  ContainersPrune d := (mkToy (List.filter c_running (ty_ps d)) (ty_vols d) (ty_images d), Some 0%Z);
  VolumeList k v d := (d, Some (List.filter (λ x, label_matches k v (vl_Labels x)) (ty_vols d)));
  VolumeRemove n d := (mkToy (ty_ps d) (List.filter (λ x, negb (vl_Name x =s n)) (ty_vols d)) (ty_images d), DOk);
}.

#[export] Instance toy_host_laws : HostLaws Toy.
Proof.
  refine {| vols := ty_vols; tags d := ty_images d ≫= im_RepoTags |}; simpl; intros; simplify_eq/=; try done.
  - by apply elem_of_filter_b in H as [? _].
  - by apply elem_of_filter_b.
  - by right.
  - induction (ty_images d') as [|im l IH]; [done|]. by rewrite fmap_cons, !bind_cons, IH.
  - right. apply untag_all.
Defined.

Lemma toy_responsive : responsive (D := Toy).
Proof. by split. Qed.

Module Examples.

Definition cfg_of (name app : string) : Config :=
  mkConfig name "img" [] ∅ {["prexel.app_id" := app; "prexel.managed" := "true"]} PrexelNetwork [name] [] "unless-stopped" (mkResources 0 0 0 0 None "" 0) [].

(** Two apps and their volumes on one server; the second app is stopped. *)
Definition shop : Toy := mkToy
  [mkContainer "1" "web" (cfg_of "web" "a1") true; mkContainer "2" "web-api" (cfg_of "web-api" "a2") false]
  [mkVol "v1" {["prexel.app_id" := "a1"]}; mkVol "v2" {["prexel.app_id" := "a2"]}]
  [mkSummary "i1" ["prexel-web-abc:1"] [] {["prexel.app_id" := "a1"]} 1; mkSummary "i2" ["prexel-web-api-abc:1"] [] {["prexel.app_id" := "a2"]} 2;
   mkSummary "i3" ["postgres:16"] [] ∅ 3].

Definition world : World (D := Toy) (C := gmap string Route) :=
  mkWorld {["srv" := (shop, [])]} {["web.test" := mkRoute "web" 80 true; "api.test" := mkRoute "web-api" 80 true]} {["/logs/d1.log"; "/logs/d2.log"]}.

Definition task : Task := mkTask "a1" "web" "srv" ["web.test"] ["d1"; "../d2"].
Definition worker : Worker := mkWorker true true "/logs".

(** The tags after the task: those of "web-api" go with those of "web". *)
Lemma cleanup_confined_witness :
  t_AppID task ≠ "" ∧ let '(w', _, r) := run_task worker task world [false; false; true] in
    (r = inr tt ∧ host_kept task world w' ∧ other_routes task world w' ∧ files_kept worker task world w') ∧
    (λ h : Toy * list Toy, tags h.1) <$> w_hosts w' !! "srv" = Some ["postgres:16"].
Proof.
  split; [done|].
  assert (H : let '(w', _, r) := run_task worker task world [false; false; true] in
    r = inr tt ∧ host_kept task world w' ∧ other_routes task world w' ∧ files_kept worker task world w').
  { apply (cleanup_confined worker task world [false; false; true]); [done|done|].
    intros h Hh. apply (inj Some) in Hh as <-. split; apply (bool_decide_unpack _); by vm_compute. }
  assert (E : (λ h : Toy * list Toy, tags h.1) <$> w_hosts (run_task worker task world [false; false; true]).1.1 !! "srv"
    = Some ["postgres:16"]) by (vm_compute; reflexivity).
  destruct (run_task worker task world [false; false; true]) as [[w' fs] r]. split; [exact H|exact E].
Defined.

Lemma cleanup_complete_witness :
  let '(w', r) := run (run_task worker task) world in r = inr tt ∧
  (∀ h, w_hosts w' !! "srv" = Some h → (∀ c, c ∈ ps h.1 → has_app "a1" c = false) ∧ (∀ v, v ∈ vols h.1 → vol_of_app "a1" v = false)) ∧
  (∀ d, d ∈ ["web.test"] → TrimSpace d ≠ "" → route_of (w_caddy w') d = None) ∧
  (∀ id, id ∈ ["d1"; "../d2"] → removable id = true → log_of worker id ∉ w_files w').
Proof.
  apply (cleanup_complete worker task); try done.
  - intros d d' [->|?%not_elem_of_nil]%elem_of_cons [->|?%not_elem_of_nil]%elem_of_cons; auto; done.
  - intros h c Hh. apply (inj Some) in Hh as <-.
    intros [->|[->|?%not_elem_of_nil]%elem_of_cons]%elem_of_cons; done.
Defined.

(** A queue of two tasks is stopped, and a third one submitted after that: the
    goroutine drains all three and returns. *)
Definition two_tasks : Queue := (Submit task (Submit task (Start (New 0))).1).1.
Definition drained : Queue := mkQueue [] 64 true [Exited] [task; task; task] [task; task; task].

Lemma two_tasks_reachable : rtc qstep (New 0) two_tasks.
Proof.
  eapply rtc_l; [apply q_start|]. eapply rtc_l; [apply (q_submit task)|]. eapply rtc_l; [apply (q_submit task)|]. apply rtc_refl.
Qed.

Lemma two_tasks_drained : after_stop two_tasks 8 1 drained.
Proof.
  pose proof (as_submit two_tasks 0 0 _ task (as_stop _)) as H.
  eapply as_step in H; [|eapply (worker_step 0); [reflexivity|apply step_take]].
  eapply as_step in H; [|eapply (worker_step 0); [reflexivity|apply step_finish]].
  eapply as_step in H; [|eapply (worker_step 0); [reflexivity|by apply step_stop]].
  eapply as_step in H; [|eapply (worker_step 0); [reflexivity|apply step_drain]].
  eapply as_step in H; [|eapply (worker_step 0); [reflexivity|apply step_finish]].
  eapply as_step in H; [|eapply (worker_step 0); [reflexivity|apply step_drain]].
  eapply as_step in H; [|eapply (worker_step 0); [reflexivity|apply step_finish]].
  eapply as_step in H; [|eapply (worker_step 0); [reflexivity|apply step_exit]]. exact H.
Qed.

Lemma drained_stuck : nf wstep drained.
Proof.
  intros [q' Hw]. inversion Hw as [i p p' q0 inbox' f Hi Hs]; subst. destruct i; [|done]. simplify_eq/=. inversion Hs.
Qed.

Lemma stop_drains_witness : after_stop two_tasks 8 1 drained ∧ 8 ≤ remaining (Stop two_tasks) + 3 ∧ nf wstep drained ∧
  ∃ late, q_done drained = q_accepted two_tasks ++ late.
Proof.
  destruct (stop_drains 0 two_tasks 8 1 drained two_tasks_reachable eq_refl two_tasks_drained) as [Hk Hd].
  split; [exact two_tasks_drained|]. split; [exact Hk|]. split; [exact drained_stuck|].
  destruct (Hd drained_stuck) as [_ Hl]. destruct (Hl ltac:(discriminate)) as (late & _ & _ & H & _).
  exists late. apply H. reflexivity.
Defined.

(** *** What differs from the comments *)

(** [Start] a second time adds a goroutine: two tasks run at once. *)
Lemma second_start_runs_two :
  ∃ q, rtc qstep (New 0) q ∧ length (being_run q) = 2.
Proof.
  eexists. split.
  - eapply rtc_l; [apply (q_submit task)|]. eapply rtc_l; [apply (q_submit task)|]. eapply rtc_l; [apply q_start|].
    eapply rtc_l; [apply q_start|].
    eapply rtc_l; [apply q_worker; eapply (worker_step 0); [reflexivity|apply step_take]|].
    eapply rtc_l; [apply q_worker; eapply (worker_step 1); [reflexivity|apply step_take]|]. apply rtc_refl.
  - done.
Qed.

(** A task submitted after the stop is accepted and never run. *)
Lemma accepted_after_stop :
  ∃ q, rtc qstep (New 0) q ∧ (Submit task q).2 = None ∧ ∀ q', rtc wstep (Submit task q).1 q' → q_done q' = [].
Proof.
  exists (mkQueue [] 64 true [Exited] [] []). split_and!; [|done|].
  - eapply rtc_l; [apply q_start|]. eapply rtc_l; [apply q_stop|].
    eapply rtc_l; [apply q_worker; eapply (worker_step 0); [reflexivity|by apply step_stop]|].
    eapply rtc_l; [apply q_worker; eapply (worker_step 0); [reflexivity|apply step_exit]|]. apply rtc_refl.
  - intros q' Hr. inversion Hr as [|x y z Hw]; subst; [done|]. exfalso.
    inversion Hw as [i p p' q0 inbox' f Hi Hs]; subst. destruct i; [|done]. simplify_eq/=. inversion Hs.
Qed.

(** The image prefix of "web" covers the images of "web-api". *)
Lemma prefix_reaches_other_app : own_images "web" [(["prexel-web-abc:1"], 1%Z); (["prexel-web-api-abc:1"], 2%Z)] = ["prexel-web-abc:1"; "prexel-web-api-abc:1"].
Proof. done. Qed.

(** The sweep removes the container of an app that was stopped. *)
Lemma stopped_app_pruned : ContainerExists "web-api" (shop, []) [] = ((shop, [shop]), [], inr true) ∧
  (run (ContainerExists "web-api") (run PruneDangling (shop, [])).1).2 = inr false.
Proof. by split. Qed.
End Examples.
