(* ===== verification/ComposeSpec.v ===== *)
(** * Compose files (internal/composespec)

    The projection of a compose document: names, images, ports, environment,
    command and dependencies of its services, with the syntaxes the format
    allows for each.  The YAML decoder is the class [YamlLib]; the order in which
    Go's runtime visits a map is an argument. *)

From S2P Require Import Prelude Effects GoStrings Paths Decimal.
From stdpp Require Import gmap.

Inductive Kind := NoKind | ScalarNode | SequenceNode | MappingNode | OtherNode.

Record rawService (N : Type) := mkRaw {
  rw_Image : string; rw_Build : N; rw_Ports : list N; rw_Expose : list N; rw_Healthcheck : N;
  rw_Environment : N; rw_Command : N; rw_Restart : string; rw_DependsOn : N;
}.
Arguments mkRaw {N}. Arguments rw_Image {N}. Arguments rw_Build {N}. Arguments rw_Ports {N}. Arguments rw_Expose {N}.
Arguments rw_Healthcheck {N}. Arguments rw_Environment {N}. Arguments rw_Command {N}. Arguments rw_Restart {N}. Arguments rw_DependsOn {N}.

(** gopkg.in/yaml.v3: nodes, and [Node.Decode] into the types the code asks for. *)
Class YamlLib := {
  Node : Type;
  node_IsZero : Node → bool;
  node_Kind : Node → Kind;
  node_Value : Node → string;
  dec_strings : Node → option (list string);
  dec_string_map : Node → option (gmap string string);
  dec_keys : Node → option (list string);
  dec_target : Node → option Z;
  dec_build : Node → option (string * string * Node);
  (** The map under [services] of a document. *)
  yaml_Unmarshal : string → option (list (string * rawService Node));
}.

Record BuildSpec := mkBuildSpec { bs_Context : string; bs_Dockerfile : string; bs_Args : gmap string string }.

Record Service := mkService {
  sp_Name : string; sp_Image : string; sp_HasBuild : bool; sp_Build : option BuildSpec; sp_Ports : list Z; sp_HasHealthcheck : bool;
  sp_Env : gmap string string; sp_Command : list string; sp_Restart : string; sp_DependsOn : list string;
}.

Inductive SpecErr := ErrEmptyDocument | ErrParseYaml | ErrNoServices.

(** ** Ports *)

Definition extractContainerPort (s : string) : Z :=
  let s := TrimSpace s in
  if s =s "" then 0%Z
  else
    let s := match Index s "/" with Some i => take_s i s | None => s end in
    let last := List.last (Split s ":") "" in
    let last := match Index last "-" with Some i => take_s i last | None => last end in
    default 0%Z (Atoi (TrimSpace last)).

(** [seen] holds what [out] has. *)
Definition add_port (out : list Z) (p : Z) : list Z :=
  if (p <=? 0)%Z || (65535 <? p)%Z then out else if List.existsb (Z.eqb p) out then out else out ++ [p].

Section Spec.
Context `{Unicode} `{YamlLib}.

Definition port_of (n : Node) : option Z :=
  match node_Kind n with
  | ScalarNode => Some (extractContainerPort (node_Value n))
  | MappingNode => dec_target n
  | _ => None
  end.
Definition exposed_port (n : Node) : option Z :=
  match node_Kind n with ScalarNode => Some (extractContainerPort (node_Value n)) | _ => None end.

Definition collectPorts (ports expose : list Node) : list Z :=
  foldl add_port [] (omap port_of ports ++ omap exposed_port expose).

(** ** The two syntaxes *)

(** [strings.Cut(item, "=")] into the map; without "=" the value is empty. *)
Definition env_entry (item : string) : string * string :=
  match Index item "=" with
  | Some i => (TrimSpace (take_s i item), drop_s (i + 1) item)
  | None => (TrimSpace item, "")
  end.

Definition decodeEnv (n : Node) : gmap string string :=
  if node_IsZero n then ∅
  else match node_Kind n with
       | MappingNode => default ∅ (dec_string_map n)
       | SequenceNode => foldl (λ m item, <[(env_entry item).1 := (env_entry item).2]> m) ∅ (default [] (dec_strings n))
       | _ => ∅
       end.

Definition decodeBuild (n : Node) : option BuildSpec :=
  if node_IsZero n then None
  else match node_Kind n with
       | ScalarNode => let v := TrimSpace (node_Value n) in if v =s "" then None else Some (mkBuildSpec v "" ∅)
       | MappingNode =>
         match dec_build n with
         | None => None
         | Some (context, dockerfile, args) => Some (mkBuildSpec (TrimSpace context) (TrimSpace dockerfile) (decodeEnv args))
         end
       | _ => None
       end.

Definition decodeCommand (n : Node) : list string :=
  if node_IsZero n then []
  else match node_Kind n with
       | ScalarNode => let s := TrimSpace (node_Value n) in if s =s "" then [] else Fields s
       | SequenceNode => default [] (dec_strings n)
       | _ => []
       end.

(** The keys of a mapping come in the order of a Go map. *)
Definition decodeDependsOn (ord : list string → list string) (n : Node) : list string :=
  if node_IsZero n then []
  else match node_Kind n with
       | SequenceNode => default [] (dec_strings n)
       | MappingNode => match dec_keys n with None => [] | Some keys => ord keys end
       | _ => []
       end.

Definition service_of (ord : list string → list string) (e : string * rawService Node) : Service :=
  let '(name, rs) := e in
  mkService name (TrimSpace (rw_Image rs)) (negb (node_IsZero (rw_Build rs))) (decodeBuild (rw_Build rs)) (collectPorts (rw_Ports rs) (rw_Expose rs))
    (negb (node_IsZero (rw_Healthcheck rs))) (decodeEnv (rw_Environment rs)) (decodeCommand (rw_Command rs)) (TrimSpace (rw_Restart rs))
    (decodeDependsOn ord (rw_DependsOn rs)).

(** [visit]: the order in which the services come. *)
Definition Parse (ord : list string → list string) (visit : list (string * rawService Node) → list (string * rawService Node)) (data : string) : SpecErr + list Service :=
  if data =s "" then inl ErrEmptyDocument
  else match yaml_Unmarshal data with
       | None => inl ErrParseYaml
       | Some [] => inl ErrNoServices
       | Some raw => inr (service_of ord <$> visit raw)
       end.
End Spec.

(** ** Ports of a service *)

Definition port_ok (p : Z) : Prop := (1 <= p <= 65535)%Z.

Lemma add_ports_spec l out : NoDup out → Forall port_ok out →
  NoDup (foldl add_port out l) ∧ Forall port_ok (foldl add_port out l) ∧ (∀ p, p ∈ foldl add_port out l ↔ p ∈ out ∨ p ∈ l ∧ port_ok p).
Proof.
  revert out. induction l as [|q l IH]; intros out Hn Hp; simpl; [split_and!; [done..|]; set_solver|].
  assert (Hstep : NoDup (add_port out q) ∧ Forall port_ok (add_port out q) ∧ ∀ p, p ∈ add_port out q ↔ p ∈ out ∨ p = q ∧ port_ok p).
  { unfold add_port. destruct (_ || _) eqn:E; [|destruct (List.existsb _ _) eqn:Ex].
    - split_and!; [done..|]. intros p. split; [by left|]. intros [Hin | [-> Hq]]; [done|]. unfold port_ok in Hq. lia.
    - split_and!; [done..|]. apply existsb_witness in Ex as (x & Hx & Ex). assert (q = x) as <- by lia. intros p. split; [by left|]. by intros [Hin | [-> _]].
    - assert (port_ok q) by (unfold port_ok; lia).
      assert (q ∉ out). { intros Hin. pose proof (existsb_false_elem _ _ _ Ex Hin). lia. }
      split_and!; [by apply NoDup_snoc|apply Forall_app; split; [done|by apply Forall_singleton]|].
      intros p. rewrite elem_of_app, list_elem_of_singleton. split; [intros [Hin| ->]; auto|intros [Hin | [-> _]]; auto]. }
  destruct Hstep as (H1 & H2 & H3). destruct (IH _ H1 H2) as (I1 & I2 & I3). split_and!; [done..|]. intros p. rewrite I3, H3, elem_of_cons. naive_solver.
Qed.

Lemma collect_ports_ok `{Unicode} `{YamlLib} ports expose : NoDup (collectPorts ports expose) ∧ Forall port_ok (collectPorts ports expose) ∧
  (∀ p, p ∈ collectPorts ports expose ↔ port_ok p ∧ ((∃ n, n ∈ ports ∧ port_of n = Some p) ∨ ∃ n, n ∈ expose ∧ exposed_port n = Some p)).
Proof.
  destruct (add_ports_spec (omap port_of ports ++ omap exposed_port expose) []) as (H1 & H2 & H3); [constructor|constructor|].
  split_and!; [done..|]. intros p. unfold collectPorts. rewrite H3, elem_of_app, !list_elem_of_omap, elem_of_nil. split; [intros [[]|[H4 H5]]|intros [H4 H5]; right]; by split.
Qed.

(** ** The short syntax reads back *)

Definition plain (s : string) : bool := all_bytes (λ z, graphic z && negb (z =? 47)%Z && negb (z =? 58)%Z && negb (z =? 45)%Z) s.

Lemma plain_graphic s : plain s = true → all_bytes graphic s = true.
Proof. unfold plain, all_bytes. rewrite !List.forallb_forall. intros Hs c Hc. specialize (Hs c Hc). by bool_simp. Qed.
Lemma plain_free s c : plain s = true → byte c = 47%Z ∨ byte c = 58%Z ∨ byte c = 45%Z → all_bytes (λ z, negb (z =? byte c)%Z) s = true.
Proof.
  unfold plain, all_bytes. rewrite !List.forallb_forall. intros Hs Hc x Hx. specialize (Hs x Hx). rewrite !andb_true_iff in Hs. destruct Hc as [-> | [-> | ->]]; tauto.
Qed.

Lemma Itoa_plain p : (0 <= p < 2 ^ 63)%Z → plain (Itoa p) = true.
Proof.
  intros Hp. destruct (Itoa_spec p ltac:(lia)) as [Hd _]. unfold plain, all_bytes. apply List.forallb_forall. intros c Hc.
  rewrite list.Forall_forall in Hd. specialize (Hd c (proj2 (list_elem_of_In _ _) Hc)). unfold is_digit, graphic, in_range in *. lia.
Qed.

(** Digits, possibly followed by a dash and the end of a range. *)
Lemma read_segment p t : (0 <= p < 2 ^ 63)%Z → t = "" ∨ (∃ q, t = "-" ^^ q) →
  default 0%Z (Atoi (TrimSpace (match Index (Itoa p ^^ t) "-" with Some i => take_s i (Itoa p ^^ t) | None => Itoa p ^^ t end))) = p.
Proof.
  intros Hp Ht. pose proof (Itoa_plain p Hp) as Hpl. assert (F : free_of "-" (Itoa p)) by (apply plain_free; [done|by right; right]).
  assert (match Index (Itoa p ^^ t) "-" with Some i => take_s i (Itoa p ^^ t) | None => Itoa p ^^ t end = Itoa p) as ->.
  { destruct Ht as [-> | [q ->]].
    - rewrite string_app_nil. assert (Index (Itoa p) "-" = None) as ->; [|done]. apply (Contains_char "-") in F. unfold Contains in F. by destruct (Index (Itoa p) "-").
    - assert (Index (Itoa p ^^ "-" ^^ q) "-" = Some (String.length (Itoa p))) as ->; [apply (Index_char "-"); by exists (Itoa p), q|].
      by apply take_drop_app. }
  rewrite TrimSpace_id by (by apply plain_graphic). by rewrite Atoi_Itoa.
Qed.

(** A port, after a host part, before the end of a range and a protocol. *)
Theorem ports_read host p range proto : (1 <= p <= 65535)%Z →
  (host = "" ∨ ∃ h, host = h ^^ ":" ∧ all_bytes graphic h = true ∧ free_of "/" h) →
  (range = "" ∨ ∃ q, range = "-" ^^ Itoa q ∧ (0 <= q < 2 ^ 63)%Z) →
  (proto = "" ∨ ∃ x, proto = "/" ^^ x ∧ all_bytes graphic x = true) →
  extractContainerPort (host ^^ Itoa p ^^ range ^^ proto) = p.
Proof.
  intros Hp Hh Hr Hx. assert (Pp := Itoa_plain p ltac:(lia)).
  assert (Hrange : all_bytes graphic range = true ∧ free_of "/" range ∧ free_of ":" range ∧ (range = "" ∨ ∃ q, range = "-" ^^ q)).
  { destruct Hr as [-> | (q & -> & Hq)]; [split_and!; try done; by left|]. assert (Pq := Itoa_plain q Hq).
    rewrite all_bytes_app, !free_of_app. split_and!; try done; [by apply plain_graphic|apply plain_free; auto|apply plain_free; auto|right; eauto]. }
  destruct Hrange as (Rg & Rs & Rc & Rr).
  set (u := Itoa p ^^ range). assert (Hu : free_of ":" u ∧ free_of "/" u ∧ all_bytes graphic u = true).
  { unfold u. rewrite all_bytes_app, !free_of_app. split_and!; try done; [apply plain_free; auto|apply plain_free; auto|by rewrite (plain_graphic _ Pp)]. }
  destruct Hu as (Uc & Us & Ug).
  set (v := host ^^ u). assert (Hv : free_of "/" v ∧ all_bytes graphic v = true).
  { unfold v. destruct Hh as [-> | (h & -> & Hg & Hs)]; [done|]. rewrite !all_bytes_app, !free_of_app, Hg, Ug. by split_and!. }
  destruct Hv as (Vs & Vg).
  assert (E : host ^^ Itoa p ^^ range ^^ proto = v ^^ proto) by (unfold v, u; by rewrite !string_app_assoc). rewrite E.
  unfold extractContainerPort. rewrite TrimSpace_id by (rewrite all_bytes_app, Vg; destruct Hx as [-> | (x & -> & Hx)]; [done|by rewrite all_bytes_app, Hx]).
  cbv zeta. assert (Hne : (v ^^ proto =s "") = false).
  { apply String.eqb_neq. intros E0. apply (f_equal String.length) in E0. unfold v, u in E0. rewrite !string_app_length in E0. simpl in E0.
    assert (Itoa p ≠ "") as Hi; [|destruct (Itoa p); [done|simpl in E0; lia]]. intros Ei. destruct (Itoa_spec p ltac:(lia)) as [_ Hnum]. rewrite Ei in Hnum. simpl in Hnum. lia. }
  rewrite Hne. assert (match Index (v ^^ proto) "/" with Some i => take_s i (v ^^ proto) | None => v ^^ proto end = v) as ->.
  { destruct Hx as [-> | (x & -> & _)].
    - rewrite string_app_nil. apply (Contains_char "/") in Vs. unfold Contains in Vs. by destruct (Index v "/").
    - assert (Index (v ^^ "/" ^^ x) "/" = Some (String.length v)) as ->; [apply (Index_char "/"); by exists v, x|]. by apply take_drop_app. }
  assert (List.last (Split v ":") "" = u) as ->.
  { unfold v, Split. destruct Hh as [-> | (h & -> & _)]; [by rewrite string_nil_app, (split_free ":")|].
    rewrite string_app_assoc. change (":" ^^ u) with (String ":" u). by apply (split_last ":"). }
  apply read_segment; [lia|done].
Qed.
