(* ===== verification/Build.v ===== *)
(** * Image builds (internal/build)

    The build half of a deployment: the checkout, the build context, the docker
    builds and pulls, and the log they stream.  Docker, the file system of the
    clone and the JSON records of the daemon are arguments; git runs through
    [GitSources].  The state records what was asked of git and of Docker, the
    temporary directories that exist, and the lines of the log. *)

From S2P Require Import Prelude Effects GoStrings Paths Schema Cipher GitUrl GitSources Secrets Compose Deploy ComposeSpec.
From stdpp Require Import gmap.

(** ** Results *)

Record ComposeResult := mkComposeResult { cr_Images : gmap string string; cr_Services : list ComposeServiceSummary }.
Record Result := mkResult { rs_ImageRef : string; rs_ShortSHA : string; rs_CommitSHA : string; rs_Compose : option ComposeResult }.

Inductive Call :=
  | Pulled (ref : string)
  | Built (context dockerfile ref : string) (args labels : gmap string string).
Definition call_ref (c : Call) : string := match c with Pulled ref => ref | Built _ _ ref _ _ => ref end.

Record World := mkWorld {
  bw_db : Db; bw_host : Host; bw_tmp : list string; bw_calls : list Call; bw_log : list (string * string);
}.
Definition put_bdb (d : Db) (w : World) : World := mkWorld d (bw_host w) (bw_tmp w) (bw_calls w) (bw_log w).
Definition put_bhost (h : Host) (w : World) : World := mkWorld (bw_db w) h (bw_tmp w) (bw_calls w) (bw_log w).
Definition on_tmp (f : list string → list string) (w : World) : World := mkWorld (bw_db w) (bw_host w) (f (bw_tmp w)) (bw_calls w) (bw_log w).
Definition add_call (c : Call) (w : World) : World := mkWorld (bw_db w) (bw_host w) (bw_tmp w) (bw_calls w ++ [c]) (bw_log w).
Definition add_line (l : string * string) (w : World) : World := mkWorld (bw_db w) (bw_host w) (bw_tmp w) (bw_calls w) (bw_log w ++ [l]).

Inductive BuildErr :=
  | ErrBuildType | ErrMissingImage | ErrDockerClient | ErrImagePull | ErrRecord (msg : string) | ErrScanner | ErrTmpDir | ErrWriteFile
  | ErrBuildSource (e : GitErr) | ErrBuildClone (e : CloneErr) | ErrPublicClone (out : string) | ErrNoCode | ErrBuildSecrets (e : SecretErr)
  | ErrImageBuild | ErrTarContext | ErrComposeParse (e : SpecErr) | ErrEmptyServices (names : list string) | ErrInlineBuild (name : string)
  | ErrNoBuildBlock | ErrContextEscapes | ErrContextMissing | ErrReadCompose.

Local Abbreviation bM := (M World BuildErr).

(** ** Helpers *)

Definition crlf : string := String (of_byte 13) (String (of_byte 10) "").
Definition lf : string := String (of_byte 10) "".

(** One line of the log; it is also published on the bus. *)
Definition line (stream text : string) : bM unit :=
  let text := TrimRight text crlf in
  if text =s "" then mret tt else modify (add_line (stream, text)).

Definition splitLines (s : string) : list string :=
  let s := ReplaceAll s crlf lf in
  let s := TrimSuffix s lf in
  if s =s "" then [] else Split s lf.

Definition shortenSHA (s : string) : string :=
  let s := TrimSpace s in if (7 <=? len s)%Z then take_s 7 s else s.

(** [uuid]: a fresh UUID; [ts]: the Unix time. *)
Definition imageRefFor (uuid : string) (ts : Z) (appName shortSHA : string) : string :=
  let shortSHA := if shortSHA =s "" then take_s 7 uuid else shortSHA in
  "prexel-" ^^ appName ^^ "-" ^^ shortSHA ^^ ":" ^^ Itoa ts.
Definition composeImageRefFor (ts : Z) (appName serviceName shortSHA : string) : string :=
  "prexel-" ^^ appName ^^ "-" ^^ serviceName ^^ "-" ^^ shortSHA ^^ ":" ^^ Itoa ts.

Definition derefString (s : option string) : string := default "" s.
Definition not_blank_opt (s : option string) : bool := match s with Some s => negb (TrimSpace s =s "") | None => false end.

Record jsonMessage := mkMessage { jm_Stream : string; jm_Status : string; jm_ID : string; jm_Progress : string; jm_Error : string }.

(** What the branches of a record write. *)
Definition record_lines (msg : jsonMessage) : list string :=
  if negb (jm_Stream msg =s "") then List.filter (λ l, negb (l =s "")) (splitLines (jm_Stream msg))
  else if negb (jm_Status msg =s "") then
    let s := if jm_ID msg =s "" then jm_Status msg else jm_ID msg ^^ ": " ^^ jm_Status msg in
    [if jm_Progress msg =s "" then s else s ^^ " " ^^ jm_Progress msg]
  else [].

(** [decode]: encoding/json on a record. *)
Fixpoint stream_records (decode : string → option jsonMessage) (records : list string) : bM unit :=
  match records with
  | [] => mret tt
  | raw :: records =>
    if raw =s "" then stream_records decode records
    else match decode raw with
         | None => _ ← line "stdout" raw; stream_records decode records
         | Some msg =>
           if negb (jm_Error msg =s "") then _ ← line "stderr" (jm_Error msg); throw (ErrRecord (jm_Error msg))
           else _ ← each (line "stdout") (record_lines msg); stream_records decode records
         end
  end.
(** The records of a body, and whether the scanner fails after them. *)
Definition streamJSONMessage (decode : string → option jsonMessage) (body : list string * bool) : bM unit :=
  _ ← stream_records decode body.1;
  if body.2 then throw ErrScanner else mret tt.

(** [defer os.RemoveAll(dir)], its error dropped. *)
Definition RemoveAll (dir : string) : bM unit := ignore (exec ErrTmpDir (on_tmp (del (String.eqb dir)))).
Definition finally {A} (f : bM unit) (m : bM A) : bM A := λ w fs,
  match m w fs with (w', fs', r) => ((f w' fs').1.1, (f w' fs').1.2, r) end.

(** [.git/HEAD], or the ref it names. *)
Definition readGitHead (read_file : string → option string) (cloneDir : string) : string :=
  match read_file (PathJoin [cloneDir; ".git"; "HEAD"]) with
  | None => ""
  | Some out =>
    let s := TrimSpace out in
    if HasPrefix s "ref:" then
      match read_file (PathJoin [cloneDir; ".git"; TrimSpace (TrimPrefix s "ref:")]) with None => "" | Some b => TrimSpace b end
    else s
  end.

(** [filepath.Dir]. *)
Fixpoint dir_part (l : list ascii) : list ascii :=
  match l with
  | [] => []
  | c :: l' => if List.existsb (Ascii.eqb "/") l then c :: dir_part l' else []
  end.
Definition Dir (p : string) : string := Clean (String.string_of_list_ascii (dir_part (String.list_ascii_of_string p))).

(** ** The engine *)

Section Engine.
Context `{Uc : Unicode} `{UL : UrlLib} `{AL : AeadLib} `{GL : GitHubLib} `{YL : YamlLib}.
(** The cipher, and what a clone reads (see [GitSources]). *)
Context (cipher : Cipher) (LookupIP : string → option (list IP)) (tmp keyFile : string) (git : Cmd → option string).
Context (now at_ : Z) (answer : string → string → option (string * Z)).
(** The orders of two Go maps; JSON records; the bodies the daemon streams for
    a pull and for a build; an error of the tar writer that has arrived when the
    body ends; the file system; a UUID and the time of each image reference. *)
Context (ord : list string → list string) (visit : list (string * rawService Node) → list (string * rawService Node)).
Context (decode : string → option jsonMessage) (body : string → list string * bool) (tar_error : string → bool).
Context (read_file : string → option string) (is_dir : string → bool) (uuid : string) (stamp : string → Z).
(** The service of secrets is wired. *)
Context (with_secrets : bool).

(** *** Pulls and builds of one image *)

Definition client : bM unit := exec ErrDockerClient (λ w, w).

Definition pull (ref : string) : bM unit :=
  _ ← exec ErrImagePull (add_call (Pulled ref));
  streamJSONMessage decode (body ref).

Definition pullImage (a : App) (opts : BuildOptions) : bM Result :=
  if negb (not_blank_opt (a_image_name a)) then throw ErrMissingImage
  else
    let tag := if bo_ImageTag opts =s "" then a_image_tag a else bo_ImageTag opts in
    let tag := if tag =s "" then "latest" else tag in
    let ref := TrimSpace (derefString (a_image_name a)) ^^ ":" ^^ tag in
    _ ← line "stdout" ("Pulling image " ^^ ref ^^ "...");
    _ ← client;
    _ ← pull ref;
    _ ← line "stdout" ("Image pulled: " ^^ ref);
    mret (mkResult ref "image" "" None).

Record buildImageInput := mkInput {
  in_ContextDir : string; in_Dockerfile : string; in_ImageRef : string; in_BuildArgs : gmap string string; in_Labels : gmap string string;
}.

(** The labels of the engine are written last. *)
Definition image_labels (a : App) (opts : BuildOptions) (extra : gmap string string) : gmap string string :=
  <["prexel.deployment" := bo_DeploymentID opts]> (<["prexel.app_name" := a_name a]> (<["prexel.app_id" := a_id a]> (<["prexel.managed" := "true"]> extra))).

Definition buildImageFromContext (a : App) (opts : BuildOptions) (i : buildImageInput) : bM unit :=
  let dockerfile := if in_Dockerfile i =s "" then "Dockerfile" else in_Dockerfile i in
  _ ← client;
  _ ← line "stdout" ("Starting docker build (tag=" ^^ in_ImageRef i ^^ ")...");
  _ ← exec ErrImageBuild (add_call (Built (in_ContextDir i) dockerfile (in_ImageRef i) (in_BuildArgs i) (image_labels a opts (in_Labels i))));
  _ ← streamJSONMessage decode (body (in_ImageRef i));
  _ ← when (tar_error (in_ContextDir i)) (throw ErrTarContext);
  line "stdout" ("Build complete: " ^^ in_ImageRef i).

(** Secrets for builds, if the app opts in, and the commit. *)
Definition build_args (a : App) (commitSHA : string) : bM (gmap string string) :=
  secs ← (if a_build_args_inject a && with_secrets then zoom bw_db put_bdb ErrBuildSecrets (ResolveBuildTime cipher (a_id a)) else mret ∅);
  mret (if a_build_args_source_commit a && negb (commitSHA =s "") then <["SOURCE_COMMIT" := commitSHA]> secs else secs).

(** *** The checkout *)

Definition run_public (c : Cmd) : bM unit :=
  _ ← modify (λ w, put_bhost (add_run c (bw_host w)) w);
  match git c with None => mret tt | Some out => throw (ErrPublicClone out) end.

Definition publicClone (repoURL branch commitSHA dest : string) : bM unit :=
  _ ← run_public (mkCmd ["clone"; "--branch"; branch; "--single-branch"; "--depth"; "1"; repoURL; dest] []);
  if commitSHA =s "" then mret tt
  else
    _ ← run_public (mkCmd ["-C"; dest; "fetch"; "--unshallow"] []);
    run_public (mkCmd ["-C"; dest; "checkout"; commitSHA] []).

Definition branch_of (a : App) (opts : BuildOptions) : string := let b := TrimSpace (bo_Branch opts) in if b =s "" then a_branch a else b.
Definition commit_of (a : App) (opts : BuildOptions) : string :=
  let c := TrimSpace (bo_CommitSHA opts) in
  if c =s "" then match a_git_commit_sha a with Some c => TrimSpace c | None => c end else c.

(** Clones the repository of the app and returns the commit that is checked out. *)
Definition checkout (a : App) (opts : BuildOptions) (repoURL cloneDir : string) : bM string :=
  let branch := branch_of a opts in
  let commit := commit_of a opts in
  source ← (if not_blank_opt (a_git_source_id a)
            then src ← zoom bw_db put_bdb ErrBuildSource (GitSources.Get (TrimSpace (derefString (a_git_source_id a)))); mret (Some src)
            else mret None);
  _ ← line "stdout" ("Cloning " ^^ repoURL ^^ " (branch=" ^^ branch ^^ ")...");
  _ ← match source with
      | Some src => zoom bw_host put_bhost ErrBuildClone (Clone cipher LookupIP tmp keyFile git now at_ answer (mkCloneOptions (Some src) repoURL branch commit cloneDir))
      | None => publicClone repoURL branch commit cloneDir
      end;
  let commitSHA := TrimSpace (readGitHead read_file cloneDir) in
  mret (if commitSHA =s "" then commit else commitSHA).

(** *** dockerfile *)

(** The commit, its short form and the build context. *)
Definition dockerfile_context (a : App) (opts : BuildOptions) (tmpDir : string) : bM (string * string * string) :=
  if not_blank_opt (a_dockerfile_inline a) then
    _ ← exec ErrWriteFile (λ w, w);
    _ ← line "stdout" "Using inline Dockerfile";
    mret ("", "inline", tmpDir)
  else if not_blank_opt (a_repo_url a) then
    let cloneDir := PathJoin [tmpDir; "src"] in
    commitSHA ← checkout a opts (derefString (a_repo_url a)) cloneDir;
    let short := shortenSHA commitSHA in
    let short := if short =s "" then "src" else short in
    let contextDir := if (a_build_context a =s "") || (a_build_context a =s ".") then cloneDir else PathJoin [cloneDir; a_build_context a] in
    _ ← line "stdout" ("Clone complete (commit=" ^^ short ^^ ")");
    mret (commitSHA, short, contextDir)
  else throw ErrNoCode.

(** [tmpDir]: what [os.MkdirTemp] names. *)
Definition dockerfileBuild (tmpDir : string) (a : App) (opts : BuildOptions) : bM Result :=
  _ ← exec ErrTmpDir (on_tmp (cons tmpDir));
  finally (RemoveAll tmpDir) (
    c ← dockerfile_context a opts tmpDir;
    let '(commitSHA, short, contextDir) := c in
    args ← build_args a commitSHA;
    let ref := imageRefFor uuid (stamp "") (a_name a) short in
    let dockerfile := if not_blank_opt (a_dockerfile_inline a) then "Dockerfile" else a_dockerfile_path a in
    _ ← buildImageFromContext a opts (mkInput contextDir dockerfile ref args ∅);
    mret (mkResult ref short commitSHA None)).

(** *** docker_compose *)

(** [ws_tmp]: the directory the clean-up removes. *)
Record composeWorkspace := mkWorkspace { ws_yaml : string; ws_composeDir : string; ws_commitSHA : string; ws_tmp : option string }.

Definition cleanup (ws_tmp : option string) : bM unit := match ws_tmp with Some d => RemoveAll d | None => mret tt end.

(** [cleanup(); return err] on an error. *)
Definition or_cleanup {A} (d : string) (m : bM A) : bM A :=
  r ← attempt m;
  match r with inl e => _ ← RemoveAll d; throw e | inr x => mret x end.

Definition loadComposeWorkspace (tmpDir : string) (a : App) (opts : BuildOptions) : bM composeWorkspace :=
  if not_blank_opt (a_compose_inline a) then
    _ ← line "stdout" "Using inline docker-compose.yml";
    mret (mkWorkspace (derefString (a_compose_inline a)) "" "" None)
  else if negb (not_blank_opt (a_repo_url a)) then throw ErrNoCode
  else
    _ ← exec ErrTmpDir (on_tmp (cons tmpDir));
    let cloneDir := PathJoin [tmpDir; "src"] in
    commitSHA ← or_cleanup tmpDir (checkout a opts (derefString (a_repo_url a)) cloneDir);
    let composeRel := TrimSpace (derefString (a_compose_file a)) in
    let composeRel := if composeRel =s "" then "docker-compose.yml" else composeRel in
    let composePath := PathJoin [cloneDir; composeRel] in
    match read_file composePath with
    | None => _ ← RemoveAll tmpDir; throw ErrReadCompose
    | Some data =>
      _ ← line "stdout" ("Loaded " ^^ composeRel ^^ " (" ^^ Itoa (len data) ^^ " bytes, commit=" ^^ shortenSHA commitSHA ^^ ")");
      mret (mkWorkspace data (Dir composePath) commitSHA (Some tmpDir))
    end.

Definition buildComposeService (a : App) (opts : BuildOptions) (loaded : composeWorkspace) (svc : ComposeSpec.Service) (shortSHA : string) (shared : gmap string string) : bM string :=
  match sp_Build svc with
  | None => throw ErrNoBuildBlock
  | Some b =>
    let ctxRel := TrimSpace (bs_Context b) in
    let ctxRel := if ctxRel =s "" then "." else ctxRel in
    let contextDir := PathJoin [ws_composeDir loaded; ctxRel] in
    let escapes := match Rel (ws_composeDir loaded) contextDir with None => true | Some rel => HasPrefix rel ".." end in
    _ ← when escapes (throw ErrContextEscapes);
    _ ← when (negb (is_dir contextDir)) (throw ErrContextMissing);
    let dockerfile := TrimSpace (bs_Dockerfile b) in
    let dockerfile := if dockerfile =s "" then "Dockerfile" else dockerfile in
    let args := bs_Args b ∪ shared in
    let ref := composeImageRefFor (stamp (sp_Name svc)) (a_name a) (sp_Name svc) shortSHA in
    _ ← line "stdout" ("[" ^^ sp_Name svc ^^ "] building " ^^ ref ^^ " (context=" ^^ ctxRel ^^ ", dockerfile=" ^^ dockerfile ^^ ")");
    _ ← buildImageFromContext a opts (mkInput contextDir dockerfile ref args (<["prexel.service" := sp_Name svc]> {["prexel.compose" := "true"]}));
    mret ref
  end.

(** The image of a service: pulled if it names one, built otherwise. *)
Definition prepare (a : App) (opts : BuildOptions) (loaded : composeWorkspace) (shortSHA : string) (shared : gmap string string) (s : ComposeSpec.Service) : bM (option string) :=
  if negb (sp_Image s =s "") then
    let ref := TrimSpace (sp_Image s) in
    _ ← line "stdout" ("[" ^^ sp_Name s ^^ "] pulling " ^^ ref ^^ "...");
    _ ← pull ref;
    _ ← line "stdout" ("[" ^^ sp_Name s ^^ "] image ready: " ^^ ref);
    mret (Some ref)
  else match sp_Build s with
       | Some _ => ref ← buildComposeService a opts loaded s shortSHA shared; mret (Some ref)
       | None => mret None
       end.

Fixpoint prepare_all (a : App) (opts : BuildOptions) (loaded : composeWorkspace) (shortSHA : string) (shared : gmap string string)
    (images : gmap string string) (services : list ComposeSpec.Service) : bM (gmap string string * list ComposeServiceSummary) :=
  match services with
  | [] => mret (images, [])
  | s :: services =>
    ref ← prepare a opts loaded shortSHA shared s;
    let images := match ref with Some ref => <[sp_Name s := ref]> images | None => images end in
    rest ← prepare_all a opts loaded shortSHA shared images services;
    mret (rest.1, mkComposeService (sp_Name s) (default "" (images !! sp_Name s)) (sp_Ports s) (sp_Env s) (sp_Command s) (sp_Restart s) :: rest.2)
  end.

(** Services without image and build; services to build without a tree. *)
Definition empty_services (l : list ComposeSpec.Service) : list string :=
  sp_Name <$> List.filter (λ s, (sp_Image s =s "") && is_none (sp_Build s)) l.
Definition to_build (s : ComposeSpec.Service) : bool := (sp_Image s =s "") && is_some (sp_Build s).

Definition composeBuild (tmpDir : string) (a : App) (opts : BuildOptions) : bM Result :=
  loaded ← loadComposeWorkspace tmpDir a opts;
  finally (cleanup (ws_tmp loaded)) (
    spec ← of_result (match Parse ord visit (ws_yaml loaded) with inl e => inl (ErrComposeParse e) | inr l => inr l end);
    _ ← when (is_nil spec) (throw (ErrEmptyServices []));
    _ ← when (negb (is_nil (empty_services spec))) (throw (ErrEmptyServices (empty_services spec)));
    _ ← when (ws_composeDir loaded =s "") (match List.find to_build spec with Some s => throw (ErrInlineBuild (sp_Name s)) | None => mret tt end);
    _ ← client;
    shared ← build_args a (ws_commitSHA loaded);
    let short := shortenSHA (ws_commitSHA loaded) in
    let short := if short =s "" then "compose" else short in
    out ← prepare_all a opts loaded short shared ∅ spec;
    let first := match out.2 with [] => "" | s :: _ => cs_Image s end in
    mret (mkResult first short (ws_commitSHA loaded) (Some (mkComposeResult out.1 out.2)))).

Definition Build (tmpDir : string) (a : App) (opts : BuildOptions) : bM Result :=
  if a_build_type a =s "docker_image" then pullImage a opts
  else if a_build_type a =s "dockerfile" then dockerfileBuild tmpDir a opts
  else if a_build_type a =s "docker_compose" then composeBuild tmpDir a opts
  else throw ErrBuildType.
End Engine.

(** ** What a build leaves alone *)

(** A property that survives lines, directories, git and the calls of [Pc]. *)
Record survives (Pc : Call → Prop) (I : World → Prop) : Prop := {
  su_line : ∀ l w, I w → I (add_line l w);
  su_tmp : ∀ f w, I w → I (on_tmp f w);
  su_host : ∀ h w, I w → I (put_bhost h w);
  su_call : ∀ c w, Pc c → I w → I (add_call c w);
}.

Lemma finally_wp {A} (f : M World BuildErr unit) (m : M World BuildErr A) Q w :
  wp m (λ w' r, wp f (λ w2 _, Q w2 r) w') w → wp (finally f m) Q w.
Proof. intros H fs. specialize (H fs). unfold finally. destruct (m w fs) as [[w' fs'] r]. apply (H fs'). Qed.

Section Keep.
Context `{Uc : Unicode} `{UL : UrlLib} `{AL : AeadLib} `{GL : GitHubLib}.
Context (cipher : Cipher) (LookupIP : string → option (list IP)) (tmp keyFile : string) (git : Cmd → option string).
Context (now at_ : Z) (answer : string → string → option (string * Z)).
Context (decode : string → option jsonMessage) (body : string → list string * bool) (tar_error : string → bool).
Context (read_file : string → option string) (with_secrets : bool).
Context (Pc : Call → Prop) (I : World → Prop) (HI : survives Pc I).

Lemma line_keeps stream text : preserves I (line stream text).
Proof. unfold line. destruct (_ =s ""); [apply preserves_ret|]. apply preserves_modify. intros w. by apply (su_line _ _ HI). Qed.

Lemma stream_keeps b : preserves I (streamJSONMessage decode b).
Proof.
  apply preserves_bind; [|intros _; destruct b.2; [apply preserves_throw|apply preserves_ret]].
  induction b.1 as [|raw l IH]; simpl; [apply preserves_ret|]. destruct (raw =s ""); [done|].
  destruct (decode raw) as [msg|]; [|apply preserves_bind; [apply line_keeps|done]].
  destruct (negb _); (apply preserves_bind; [|intros _]); [apply line_keeps|apply preserves_throw|apply each_preserves, line_keeps|done].
Qed.

Lemma client_keeps : preserves I client.
Proof. by apply preserves_exec. Qed.
Lemma removeall_keeps d : preserves I (RemoveAll d).
Proof. apply preserves_ignore, preserves_exec. intros w. apply (su_tmp _ _ HI). Qed.
Lemma cleanup_keeps d : preserves I (cleanup d).
Proof. destruct d; [apply removeall_keeps|apply preserves_ret]. Qed.
Lemma finally_keeps {A} f (m : M World BuildErr A) : preserves I f → preserves I m → preserves I (finally f m).
Proof. intros Hf Hm w Hw. apply finally_wp. eapply wp_mono; [by apply Hm|]. intros w' r Hw'. by apply Hf. Qed.
Lemma or_cleanup_keeps {A} d (m : M World BuildErr A) : preserves I m → preserves I (or_cleanup d m).
Proof.
  intros Hm. apply preserves_bind; [by apply preserves_attempt|]. intros [e|x]; [|apply preserves_ret].
  apply preserves_bind; [apply removeall_keeps|intros _; apply preserves_throw].
Qed.

Lemma pull_keeps ref : Pc (Pulled ref) → preserves I (pull decode body ref).
Proof. intros Hp. apply preserves_bind; [|intros _; apply stream_keeps]. apply preserves_exec. intros w. by apply (su_call _ _ HI). Qed.

Lemma built_keeps a opts i : Pc (Built (in_ContextDir i) (if in_Dockerfile i =s "" then "Dockerfile" else in_Dockerfile i) (in_ImageRef i) (in_BuildArgs i) (image_labels a opts (in_Labels i))) →
  preserves I (buildImageFromContext decode body tar_error a opts i).
Proof.
  intros Hp. unfold buildImageFromContext. cbv zeta. apply preserves_bind; [apply client_keeps|]. intros _. apply preserves_bind; [apply line_keeps|]. intros _.
  apply preserves_bind; [apply preserves_exec; intros w; by apply (su_call _ _ HI)|]. intros _. apply preserves_bind; [apply stream_keeps|]. intros _.
  apply preserves_bind; [apply preserves_when, preserves_throw|]. intros _. apply line_keeps.
Qed.

(** Reading the database gives it back. *)
Lemma read_keeps {E A} (m : M Db E A) (wrap : E → BuildErr) : (∀ d, preserves (λ d', d' = d) m) → preserves I (zoom bw_db put_bdb wrap m).
Proof. intros Hm w Hw. apply wp_zoom. eapply wp_mono; [by apply (Hm (bw_db w))|]. intros d' _ ->. by destruct w. Qed.

Lemma args_keeps a commit : preserves I (build_args cipher with_secrets a commit).
Proof.
  apply preserves_bind; [|intros; apply preserves_ret]. destruct (_ && _); [|apply preserves_ret]. apply read_keeps. intros d.
  apply preserves_bind; [|intros; apply preserves_ret].
  apply preserves_bind; [apply preserves_query|intros; apply preserves_of_result].
Qed.

Lemma public_keeps url branch commit dest : preserves I (publicClone git url branch commit dest).
Proof.
  assert (Hr : ∀ c, preserves I (run_public git c)).
  { intros c. apply preserves_bind; [apply preserves_modify; intros w; apply (su_host _ _ HI)|]. intros _. destruct (git c); [apply preserves_throw|apply preserves_ret]. }
  apply preserves_bind; [done|]. intros _. destruct (_ =s ""); [apply preserves_ret|]. by apply preserves_bind.
Qed.

Lemma checkout_keeps a opts url dir : preserves I (checkout cipher LookupIP tmp keyFile git now at_ answer read_file a opts url dir).
Proof.
  unfold checkout. cbv zeta. apply preserves_bind.
  - destruct (not_blank_opt _); [|apply preserves_ret]. apply preserves_bind; [|intros; apply preserves_ret]. apply read_keeps. intros d. unfold GitSources.Get.
    apply preserves_bind; [apply preserves_query|]. intros [r|]; [apply preserves_ret|apply preserves_throw].
  - intros source. apply preserves_bind; [apply line_keeps|]. intros _. apply preserves_bind; [|intros; apply preserves_ret].
    destruct source; [|apply public_keeps]. intros w Hw. apply wp_zoom. intros fs. by apply (su_host _ _ HI).
Qed.
End Keep.

(** ** What a build asks of Docker *)

Section Sound.
Context `{Uc : Unicode} `{UL : UrlLib} `{AL : AeadLib} `{GL : GitHubLib} `{YL : YamlLib}.
Context (cipher : Cipher) (LookupIP : string → option (list IP)) (tmp keyFile : string) (git : Cmd → option string).
Context (now at_ : Z) (answer : string → string → option (string * Z)).
Context (ord : list string → list string) (visit : list (string * rawService Node) → list (string * rawService Node)).
Context (decode : string → option jsonMessage) (body : string → list string * bool) (tar_error : string → bool).
Context (read_file : string → option string) (is_dir : string → bool) (uuid : string) (stamp : string → Z) (with_secrets : bool).
Context (tmpDir : string) (a : App) (opts : BuildOptions).

Local Abbreviation build := (Build cipher LookupIP tmp keyFile git now at_ answer ord visit decode body tar_error read_file is_dir uuid stamp with_secrets).
Local Abbreviation prepare := (prepare decode body tar_error is_dir stamp).
Local Abbreviation prepare_all := (prepare_all decode body tar_error is_dir stamp).

(** Labels that mark an image as one of this app and deployment. *)
Definition labelled (labels : gmap string string) : Prop :=
  labels !! "prexel.managed" = Some "true" ∧ labels !! "prexel.app_id" = Some (a_id a) ∧
  labels !! "prexel.app_name" = Some (a_name a) ∧ labels !! "prexel.deployment" = Some (bo_DeploymentID opts).

Lemma image_labelled extra : labelled (image_labels a opts extra).
Proof. unfold labelled, image_labels. by rewrite !lookup_insert. Qed.

(** The directory of the compose file inside the clone. *)
Definition compose_dir : string :=
  let rel := TrimSpace (derefString (a_compose_file a)) in
  Dir (PathJoin [PathJoin [tmpDir; "src"]; if rel =s "" then "docker-compose.yml" else rel]).

(** Inside [dir], by the segments of the paths. *)
Definition inside (dir ctx : string) : Prop := ∃ D down, Forall seg_ok (D ++ down) ∧ dir = abs_path D ∧ ctx = abs_path (D ++ down).

Definition call_ok (c : Call) : Prop :=
  match c with
  | Pulled _ => a_build_type a ≠ "dockerfile"
  | Built ctx _ ref _ labels => labelled labels ∧ HasPrefix ref ("prexel-" ^^ a_name a ^^ "-") = true ∧ a_build_type a ≠ "docker_image" ∧
      (a_build_type a = "docker_compose" → inside compose_dir ctx)
  end.

(** From [w0] on only calls of [P], and the database as it was. *)
Definition grown (P : Call → Prop) (w0 w : World) : Prop := bw_db w = bw_db w0 ∧ ∃ l, bw_calls w = bw_calls w0 ++ l ∧ Forall P l.

Lemma grown_survives P w0 : survives P (grown P w0).
Proof.
  split; try done. intros c w Hc [Hd (l & E & HF)]. split; [done|]. exists (l ++ [c]). simpl. rewrite E, app_assoc. split; [done|].
  apply Forall_app. split; [done|by apply Forall_singleton].
Qed.
Lemma grown_refl P w : grown P w w.
Proof. split; [done|]. exists []. by rewrite app_nil_r. Qed.

Lemma prefixed ref : HasPrefix ("prexel-" ^^ a_name a ^^ "-" ^^ ref) ("prexel-" ^^ a_name a ^^ "-") = true.
Proof. apply has_prefix_app. exists ref. by rewrite !string_app_assoc. Qed.

Lemma is_abs_app p q : IsAbs p = true → IsAbs (p ^^ q) = true.
Proof. unfold IsAbs. intros (x & ->)%has_prefix_app. apply has_prefix_app. exists (x ^^ q). by rewrite string_app_assoc. Qed.

Lemma join_abs p q : IsAbs p = true → ∃ l, Forall seg_ok l ∧ PathJoin [p; q] = abs_path l.
Proof.
  intros Hp. unfold PathJoin. cbn [List.filter]. assert (negb (p =s "") = true) as -> by (by destruct p).
  destruct (q =s ""); cbn [negb is_nil]; apply clean_rooted; [done|]. by apply is_abs_app.
Qed.

Lemma compose_dir_abs : IsAbs tmpDir = true → ∃ D, Forall seg_ok D ∧ compose_dir = abs_path D.
Proof.
  intros Ht. unfold compose_dir. cbv zeta. set (rel := if _ =s "" then _ else _).
  destruct (join_abs tmpDir "src" Ht) as (l & _ & ->). destruct (join_abs (abs_path l) rel) as (l' & _ & ->); [by apply (is_abs_app "/")|].
  unfold Dir. apply clean_rooted. unfold IsAbs, abs_path. apply has_prefix_app. cbn [String.list_ascii_of_string String.append dir_part]. simpl.
  by eexists.
Qed.

(** *** Compose *)

Section Compose.
Context (I : World → Prop) (HI : survives call_ok I) (Hc : a_build_type a = "docker_compose").

(** The workspace of a clone lies below the temporary directory. *)
Definition workspace_ok (ws : composeWorkspace) : Prop := ws_composeDir ws = "" ∨ ws_composeDir ws = compose_dir ∧ ∃ D, Forall seg_ok D ∧ compose_dir = abs_path D.

Lemma service_keeps loaded svc short shared : ws_composeDir loaded = compose_dir → (∃ D, Forall seg_ok D ∧ compose_dir = abs_path D) →
  preserves I (buildComposeService decode body tar_error is_dir stamp a opts loaded svc short shared).
Proof.
  intros Hl (D & HD & ED). unfold buildComposeService. destruct (sp_Build svc) as [b|]; [|apply preserves_throw]. cbv zeta. rewrite Hl, ED.
  set (ctx := if TrimSpace (bs_Context b) =s "" then "." else TrimSpace (bs_Context b)).
  destruct (Rel (abs_path D) (PathJoin [abs_path D; ctx])) as [rel|] eqn:Er; [|by intros w Hw; apply wp_guard].
  destruct (HasPrefix rel "..") eqn:Ep; [by intros w Hw; apply wp_guard|]. destruct (join_inside D ctx rel HD Er Ep) as (down & Hd & Ej).
  apply preserves_bind; [apply preserves_ret|]. intros _. apply preserves_bind; [apply preserves_when, preserves_throw|]. intros _.
  apply preserves_bind; [by eapply line_keeps|]. intros _. apply preserves_bind; [|intros; apply preserves_ret].
  apply (built_keeps _ _ _ call_ok I HI). split; [apply image_labelled|]. split; [apply prefixed|]. split; [by rewrite Hc|]. intros _.
  exists D, down. rewrite Forall_app. by split_and!.
Qed.

Lemma prepare_keeps loaded short shared s : workspace_ok loaded → (ws_composeDir loaded = "" → to_build s = false) → preserves I (prepare a opts loaded short shared s).
Proof.
  intros Hw Hb. unfold Build.prepare. destruct (sp_Image s =s "") eqn:Ei; cbn [negb].
  - destruct (sp_Build s) eqn:Eb; [|apply preserves_ret]. apply preserves_bind; [|intros; apply preserves_ret]. destruct Hw as [Hw|[Hw HD]]; [|by apply service_keeps].
    specialize (Hb Hw). unfold to_build in Hb. by rewrite Ei, Eb in Hb.
  - apply preserves_bind; [by eapply line_keeps|]. intros _. apply preserves_bind; [eapply pull_keeps; [done|simpl; by rewrite Hc]|]. intros _.
    apply preserves_bind; [by eapply line_keeps|]. intros _. apply preserves_ret.
Qed.

Lemma prepare_all_keeps loaded short shared l : ∀ images, workspace_ok loaded → (ws_composeDir loaded = "" → Forall (λ s, to_build s = false) l) →
  preserves I (prepare_all a opts loaded short shared images l).
Proof.
  induction l as [|s l IH]; intros images Hw Hb; simpl; [apply preserves_ret|].
  apply preserves_bind; [apply prepare_keeps; [done|]; intros H; specialize (Hb H); by inversion Hb|]. intros ref.
  apply preserves_bind; [|intros; apply preserves_ret]. apply IH; [done|]. intros H. specialize (Hb H). by inversion Hb.
Qed.

Lemma load_wp w : IsAbs tmpDir = true → I w →
  wp (loadComposeWorkspace cipher LookupIP tmp keyFile git now at_ answer read_file tmpDir a opts) (λ w' r, I w' ∧ ∀ ws, r = inr ws → workspace_ok ws) w.
Proof.
  intros Ht Hw. apply wp_and.
  - revert w Hw. unfold loadComposeWorkspace. destruct (not_blank_opt (a_compose_inline a)); [apply preserves_bind; [by eapply line_keeps|intros; apply preserves_ret]|].
    destruct (negb _); [apply preserves_throw|]. apply preserves_bind; [apply preserves_exec; intros w; apply (su_tmp _ _ HI)|]. intros _. cbv zeta.
    apply preserves_bind; [by eapply or_cleanup_keeps, checkout_keeps|]. intros commit. destruct (read_file _).
    + apply preserves_bind; [by eapply line_keeps|intros; apply preserves_ret].
    + apply preserves_bind; [by eapply removeall_keeps|intros; apply preserves_throw].
  - assert (G : returns workspace_ok (loadComposeWorkspace cipher LookupIP tmp keyFile git now at_ answer read_file tmpDir a opts)); [|exact (G w)].
    unfold loadComposeWorkspace. destruct (not_blank_opt (a_compose_inline a)); [apply returns_bind; intros _; apply returns_ret; by left|].
    destruct (negb _); [apply returns_throw|]. apply returns_bind. intros _. cbv zeta. apply returns_bind. intros commit.
    destruct (read_file _); apply returns_bind; intros _; [|apply returns_throw]. apply returns_ret. right. split; [done|]. by apply compose_dir_abs.
Qed.

Lemma compose_keeps : IsAbs tmpDir = true → preserves I (composeBuild cipher LookupIP tmp keyFile git now at_ answer ord visit decode body tar_error read_file is_dir stamp with_secrets tmpDir a opts).
Proof.
  intros Ht w Hw. unfold composeBuild. apply wp_bind. eapply wp_mono; [by apply load_wp|]. intros w1 [e|ws] [H1 Hok]; [done|]. specialize (Hok ws eq_refl).
  revert w1 H1. eapply finally_keeps; [by eapply cleanup_keeps|]. apply preserves_bind; [apply preserves_of_result|]. intros spec.
  apply preserves_bind; [apply preserves_when, preserves_throw|]. intros _. apply preserves_bind; [apply preserves_when, preserves_throw|]. intros _.
  assert (Hgo : ∀ A (m : M World BuildErr A), ((ws_composeDir ws = "" → Forall (λ s, to_build s = false) spec) → preserves I m) →
    preserves I (_ ← when (ws_composeDir ws =s "") (match List.find to_build spec with Some s => throw (ErrInlineBuild (sp_Name s)) | None => mret tt end); m)).
  { intros A m Hm w' Hw'. apply wp_bind. unfold when. destruct (ws_composeDir ws =s "") eqn:Ed.
    - destruct (List.find to_build spec) eqn:Ef; [by apply wp_throw|]. apply wp_ret. apply Hm; [|done]. intros _.
      apply list.Forall_forall. intros s Hs. by eapply sel_None.
    - apply wp_ret. apply Hm; [|done]. by bool_simp. }
  apply Hgo. intros Hb. apply preserves_bind; [by apply client_keeps|]. intros _. apply preserves_bind; [by apply args_keeps|]. intros shared. cbv zeta.
  apply preserves_bind; [by apply prepare_all_keeps|]. intros out. apply preserves_ret.
Qed.
End Compose.

Lemma image_keeps I : survives call_ok I → a_build_type a = "docker_image" → preserves I (pullImage decode body a opts).
Proof.
  intros HI Hi. unfold pullImage. destruct (negb _); [apply preserves_throw|]. cbv zeta. apply preserves_bind; [by eapply line_keeps|]. intros _.
  apply preserves_bind; [by apply client_keeps|]. intros _. apply preserves_bind; [eapply pull_keeps; [done|simpl; by rewrite Hi]|]. intros _.
  apply preserves_bind; [by eapply line_keeps|]. intros _. apply preserves_ret.
Qed.

Lemma dockerfile_keeps I : survives call_ok I → a_build_type a = "dockerfile" →
  preserves I (dockerfileBuild cipher LookupIP tmp keyFile git now at_ answer decode body tar_error read_file uuid stamp with_secrets tmpDir a opts).
Proof.
  intros HI Hi. apply preserves_bind; [apply preserves_exec; intros w; apply (su_tmp _ _ HI)|]. intros _. eapply finally_keeps; [by eapply removeall_keeps|].
  apply preserves_bind.
  - unfold dockerfile_context. destruct (not_blank_opt _); [|destruct (not_blank_opt _); [|apply preserves_throw]].
    + apply preserves_bind; [by apply preserves_exec|]. intros _. apply preserves_bind; [by eapply line_keeps|intros; apply preserves_ret].
    + cbv zeta. apply preserves_bind; [by eapply checkout_keeps|]. intros commit. apply preserves_bind; [by eapply line_keeps|intros; apply preserves_ret].
  - intros [[commit short] ctx]. apply preserves_bind; [by apply args_keeps|]. intros args. cbv zeta. apply preserves_bind; [|intros; apply preserves_ret].
    apply (built_keeps _ _ _ call_ok I HI). split; [apply image_labelled|]. split; [unfold imageRefFor; apply prefixed|]. by rewrite Hi.
Qed.

(** C19: Whatever fails, a build changes nothing in the database, asks Docker only
    for pulls and for builds that are labelled with the app and the deployment
    and named after the app, whatever labels a compose file has; and the context
    of each build of a compose app lies inside the directory of its compose file. *)
Theorem builds_confined w : IsAbs tmpDir = true →
  wp (build tmpDir a opts) (λ w' _, bw_db w' = bw_db w ∧ ∃ calls, bw_calls w' = bw_calls w ++ calls ∧ Forall call_ok calls) w.
Proof.
  intros Ht. assert (Hp : preserves (grown call_ok w) (build tmpDir a opts)); [|apply Hp, grown_refl]. unfold Build.
  destruct (a_build_type a =s "docker_image") eqn:E1; [|destruct (a_build_type a =s "dockerfile") eqn:E2; [|destruct (a_build_type a =s "docker_compose") eqn:E3; [|apply preserves_throw]]]; bool_simp.
  - apply image_keeps; [apply grown_survives|done].
  - apply dockerfile_keeps; [apply grown_survives|done].
  - apply compose_keeps; [apply grown_survives|done|done].
Qed.

(** *** Results *)

(** Since [w0] an image was asked for under [ref]. *)
Definition since (w0 w : World) : Prop := ∃ l, bw_calls w = bw_calls w0 ++ l.
Definition made (w0 : World) (ref : string) (w : World) : Prop := ∃ l, bw_calls w = bw_calls w0 ++ l ∧ ref ∈ call_ref <$> l.
Local Abbreviation any := (λ _ : Call, True).

Lemma since_survives w0 : survives any (since w0).
Proof. split; try done. intros c w _ [l E]. exists (l ++ [c]). simpl. by rewrite E, app_assoc. Qed.
Lemma made_survives w0 ref : survives any (made w0 ref).
Proof. split; try done. intros c w _ (l & E & Hin). exists (l ++ [c]). simpl. rewrite E, app_assoc, fmap_app. split; [done|]. apply elem_of_app. by left. Qed.
Lemma made_since w0 ref w : made w0 ref w → since w0 w.
Proof. intros (l & E & _). by exists l. Qed.
Lemma call_made w0 c w : since w0 w → made w0 (call_ref c) (add_call c w).
Proof. intros [l E]. exists (l ++ [c]). simpl. rewrite E, app_assoc, fmap_app. split; [done|]. apply elem_of_app. right. by left. Qed.

(** After [m], whatever it does, [R] holds and, on success, [Q] of the value. *)
Definition yields {A} (R : World → Prop) (Q : A → World → Prop) (m : bM A) : Prop :=
  ∀ w, R w → wp m (λ w' r, match r with inl _ => True | inr x => R w' ∧ Q x w' end) w.

Lemma yields_ret {A} R (Q : A → World → Prop) x : (∀ w, R w → Q x w) → yields R Q (mret x).
Proof. intros H w Hw. apply wp_ret. auto. Qed.
Lemma yields_throw {A} R (Q : A → World → Prop) e : yields R Q (throw e).
Proof. intros w Hw. by apply wp_throw. Qed.
Lemma yields_keep {A B} R (Q : B → World → Prop) (m : bM A) k : preserves R m → (∀ x, yields R Q (k x)) → yields R Q (mbind k m).
Proof. intros Hm Hk w Hw. apply wp_bind. eapply wp_mono; [by apply Hm|]. intros w' [e|x] Hw'; [done|]. by apply Hk. Qed.
Lemma yields_bind {A B} R (P : A → World → Prop) (Q : B → World → Prop) (m : bM A) k :
  yields R P m → (∀ x, yields (λ w, R w ∧ P x w) Q (k x)) → yields R Q (mbind k m).
Proof.
  intros Hm Hk w Hw. apply wp_bind. eapply wp_mono; [by apply Hm|]. intros w' [e|x]; [done|]. intros HR.
  eapply wp_mono; [by apply Hk|]. intros w2 [e|y]; [done|]. by intros [[? _] ?].
Qed.
Lemma yields_finally {A} R (Q : A → World → Prop) f (m : bM A) : (∀ x, preserves (λ w, R w ∧ Q x w) f) → yields R Q m → yields R Q (finally f m).
Proof.
  intros Hf Hm w Hw. apply finally_wp. eapply wp_mono; [by apply Hm|]. intros w' [e|x] H; [by intros fs|]. by apply Hf.
Qed.
Lemma yields_step {A} R (Q Q' : A → World → Prop) (m : bM A) : yields R Q m → (∀ x w, R w → Q x w → Q' x w) → yields R Q' m.
Proof. intros Hm HQ w Hw. eapply wp_mono; [by apply Hm|]. intros w' [e|x]; [done|]. intros []. auto. Qed.

Lemma pair_survives w0 P : survives any P → survives any (λ w, since w0 w ∧ P w).
Proof.
  destruct (since_survives w0) as [S1 S2 S3 S4]. intros [P1 P2 P3 P4].
  split; [intros l w []|intros f w []|intros h w []|intros c w Hc []]; split; auto.
Qed.

Section Made.
Context (w0 : World).

Lemma pull_made ref : yields (since w0) (λ _, made w0 ref) (pull decode body ref).
Proof.
  intros w Hw. apply wp_bind, wp_exec; [done|]. eapply wp_mono; [eapply (stream_keeps _ any (made w0 ref)); [apply made_survives|by apply (call_made w0 (Pulled ref))]|].
  intros w' [e|[]] Hm; [done|]. split; [by eapply made_since|done].
Qed.

Lemma built_made i : yields (since w0) (λ _, made w0 (in_ImageRef i)) (buildImageFromContext decode body tar_error a opts i).
Proof.
  assert (S := since_survives w0). assert (Mk := made_survives w0 (in_ImageRef i)). unfold buildImageFromContext. cbv zeta.
  apply yields_keep; [by apply client_keeps|]. intros _. apply yields_keep; [by eapply line_keeps|]. intros _ w Hw. apply wp_bind, wp_exec; [done|].
  match goal with |- wp ?m _ _ => assert (Hk : preserves (made w0 (in_ImageRef i)) m) end.
  { apply preserves_bind; [by eapply stream_keeps|]. intros _. apply preserves_bind; [apply preserves_when, preserves_throw|]. intros _. by eapply line_keeps. }
  eapply wp_mono; [apply Hk; by apply (call_made w0 (Built _ _ (in_ImageRef i) _ _))|]. intros w' [e|[]] Hm; [done|]. split; [by eapply made_since|done].
Qed.

Lemma service_made loaded svc short shared : yields (since w0) (λ ref, made w0 ref) (buildComposeService decode body tar_error is_dir stamp a opts loaded svc short shared).
Proof.
  assert (S := since_survives w0). unfold buildComposeService. destruct (sp_Build svc); [|apply yields_throw]. cbv zeta.
  do 2 (apply yields_keep; [apply preserves_when, preserves_throw|]; intros _). apply yields_keep; [by eapply line_keeps|]. intros _.
  eapply yields_bind; [apply built_made|]. intros []. apply yields_ret. by intros w [_ ?].
Qed.

(** The summary of a service: its image as the file names it, or built. *)
Definition summarises (s : ComposeSpec.Service) (x : ComposeServiceSummary) : Prop :=
  cs_Name x = sp_Name s ∧ cs_Ports x = sp_Ports s ∧ cs_Env x = sp_Env s ∧ cs_Command x = sp_Command s ∧ cs_Restart x = sp_Restart s ∧
  (sp_Image s ≠ "" → cs_Image x = TrimSpace (sp_Image s)).

Lemma prepare_made loaded short shared s : sp_Image s ≠ "" ∨ is_some (sp_Build s) = true →
  yields (since w0) (λ r w, ∃ ref, r = Some ref ∧ made w0 ref w ∧ (sp_Image s ≠ "" → ref = TrimSpace (sp_Image s))) (prepare a opts loaded short shared s).
Proof.
  intros Hs. assert (S := since_survives w0). unfold Build.prepare. destruct (sp_Image s =s "") eqn:Ei; cbn [negb]; bool_simp.
  - destruct (sp_Build s); [|by destruct Hs]. eapply yields_bind; [apply service_made|]. intros ref. apply yields_ret. intros w [_ Hm]. by exists ref.
  - apply yields_keep; [by eapply line_keeps|]. intros _. eapply yields_bind; [apply pull_made|]. intros [].
    assert (Sm := pair_survives w0 _ (made_survives w0 (TrimSpace (sp_Image s)))).
    apply yields_keep; [by eapply line_keeps|]. intros _. apply yields_ret. intros w [_ Hm]. by exists (TrimSpace (sp_Image s)).
Qed.
End Made.

Lemma since_refl w : since w w.
Proof. exists []. by rewrite app_nil_r. Qed.
Lemma made_mono w0 w1 w2 ref : made w0 ref w1 → since w1 w2 → made w0 ref w2.
Proof. intros (l & E & Hin) [l' E']. exists (l ++ l'). rewrite E', E, app_assoc, fmap_app. split; [done|]. apply elem_of_app. by left. Qed.
Lemma made_back w0 w1 w2 ref : since w0 w1 → made w1 ref w2 → made w0 ref w2.
Proof. intros [l E] (l' & E' & Hin). exists (l ++ l'). rewrite E', E, app_assoc, fmap_app. split; [done|]. apply elem_of_app. by right. Qed.
Lemma since_trans w0 w1 w2 : since w0 w1 → since w1 w2 → since w0 w2.
Proof. intros [l E] [l' E']. exists (l ++ l'). by rewrite E', E, app_assoc. Qed.

Lemma prepare_all_made loaded short shared l : Forall (λ s, sp_Image s ≠ "" ∨ is_some (sp_Build s) = true) l →
  ∀ images w0 w, since w0 w → wp (prepare_all a opts loaded short shared images l) (λ w' r,
    match r with inl _ => True | inr out => since w0 w' ∧ Forall2 summarises l out.2 ∧ Forall (λ x, made w0 (cs_Image x) w') out.2 end) w.
Proof.
  induction 1 as [|s l Hs Hl IH]; intros images w0 w Hw; simpl; [by apply wp_ret|].
  apply wp_bind. eapply wp_mono; [by apply (prepare_made w0)|]. intros w1 [e|r]; [done|]. intros (S1 & ref & -> & M1 & Hi).
  apply wp_bind. eapply wp_mono; [apply (IH _ w1), since_refl|]. intros w2 [e|out]; [done|]. intros (S2 & F2 & M2). apply wp_ret. simpl.
  rewrite lookup_insert_eq. cbn [default]. split; [by eapply since_trans|]. split; constructor; try done.
  - simpl. by eapply made_mono.
  - eapply List.Forall_impl; [|done]. intros x. by apply made_back.
Qed.

(** The text of the compose file of the app. *)
Definition compose_text (yaml : string) : Prop :=
  if not_blank_opt (a_compose_inline a) then yaml = derefString (a_compose_inline a)
  else let rel := TrimSpace (derefString (a_compose_file a)) in
       read_file (PathJoin [PathJoin [tmpDir; "src"]; if rel =s "" then "docker-compose.yml" else rel]) = Some yaml.

Lemma load_text : returns (λ ws, compose_text (ws_yaml ws)) (loadComposeWorkspace cipher LookupIP tmp keyFile git now at_ answer read_file tmpDir a opts).
Proof.
  unfold loadComposeWorkspace, compose_text. destruct (not_blank_opt (a_compose_inline a)); [apply returns_bind; intros _; by apply returns_ret|].
  destruct (negb _); [apply returns_throw|]. apply returns_bind. intros _. cbv zeta. apply returns_bind. intros commit.
  destruct (read_file _) eqn:E; apply returns_bind; intros _; [by apply returns_ret|apply returns_throw].
Qed.

(** What a result promises to the deployment. *)
Record ready (w0 : World) (res : Result) (w : World) : Prop := {
  rd_single : rs_Compose res = None → a_build_type a ≠ "docker_compose" ∧ made w0 (rs_ImageRef res) w;
  rd_compose : ∀ c, rs_Compose res = Some c → a_build_type a = "docker_compose" ∧
    ∃ yaml spec, compose_text yaml ∧ Parse ord visit yaml = inr spec ∧ spec ≠ [] ∧ Forall2 summarises spec (cr_Services c) ∧
      Forall (λ x, made w0 (cs_Image x) w) (cr_Services c) ∧ cs_Image <$> head (cr_Services c) = Some (rs_ImageRef res);
}.

Lemma ready_mono w0 res w w' : (∀ ref, made w0 ref w → made w0 ref w') → ready w0 res w → ready w0 res w'.
Proof.
  intros Hm [R1 R2]. split.
  - intros H. destruct (R1 H). auto.
  - intros c Hc. destruct (R2 c Hc) as (? & yaml & spec & ? & ? & ? & ? & HF & ?). split; [done|]. exists yaml, spec. split_and!; try done.
    eapply List.Forall_impl; [|exact HF]. auto.
Qed.
Lemma ready_survives w0 res : survives any (ready w0 res).
Proof.
  split; [intros l w|intros f w|intros h w|intros c w _]; apply ready_mono; intros ref; destruct (made_survives w0 ref) as [S1 S2 S3 S4]; auto.
Qed.

Lemma compose_ready w0 : a_build_type a = "docker_compose" → wp (composeBuild cipher LookupIP tmp keyFile git now at_ answer ord visit decode body tar_error read_file is_dir stamp with_secrets tmpDir a opts)
  (λ w' r, match r with inl _ => True | inr res => ready w0 res w' end) w0.
Proof.
  intros Hc. assert (S := since_survives w0). unfold composeBuild. apply wp_bind.
  assert (HL : preserves (since w0) (loadComposeWorkspace cipher LookupIP tmp keyFile git now at_ answer read_file tmpDir a opts)).
  { unfold loadComposeWorkspace. destruct (not_blank_opt _); [apply preserves_bind; [by eapply line_keeps|intros; apply preserves_ret]|].
    destruct (negb _); [apply preserves_throw|]. apply preserves_bind; [apply preserves_exec; intros w; apply (su_tmp _ _ S)|]. intros _. cbv zeta.
    apply preserves_bind; [by eapply or_cleanup_keeps, checkout_keeps|]. intros commit. destruct (read_file _).
    + apply preserves_bind; [by eapply line_keeps|intros; apply preserves_ret].
    + apply preserves_bind; [by eapply removeall_keeps|intros; apply preserves_throw]. }
  eapply wp_mono; [apply wp_and; [apply HL, since_refl|apply load_text]|]. intros w1 [e|ws] [S1 Ht]; [done|]. specialize (Ht ws eq_refl).
  apply finally_wp.
  match goal with |- wp ?m _ _ => assert (HY : yields (since w0) (ready w0) m) end.
  { intros w Hw. apply wp_bind, wp_of_result. destruct (Parse ord visit (ws_yaml ws)) as [e|spec] eqn:Ep; [done|]. revert w Hw.
    destruct (is_nil spec) eqn:En; [by intros w Hw; apply wp_guard|]. apply yields_keep; [apply preserves_ret|]. intros _.
    destruct (is_nil (empty_services spec)) eqn:Ee; [|by intros w Hw; apply wp_guard]. apply yields_keep; [apply preserves_ret|]. intros _.
    apply yields_keep; [apply preserves_when; destruct (List.find _ _); [apply preserves_throw|apply preserves_ret]|]. intros _.
    apply yields_keep; [by apply client_keeps|]. intros _. apply yields_keep; [by apply args_keeps|]. intros shared. cbv zeta. intros w Hw.
    assert (Hs : Forall (λ s, sp_Image s ≠ "" ∨ is_some (sp_Build s) = true) spec).
    { apply list.Forall_forall. intros s Hin. destruct (sp_Image s =s "") eqn:Ei; [|left; by apply String.eqb_neq]. right. destruct (sp_Build s) eqn:Eb; [done|]. exfalso.
      assert (Hx : sp_Name s ∈ empty_services spec); [|by destruct (empty_services spec); [apply not_elem_of_nil in Hx|]].
      apply list_elem_of_fmap_2, elem_of_filter_b. by rewrite Ei, Eb. }
    apply wp_bind. eapply wp_mono; [by apply (prepare_all_made _ _ _ spec Hs ∅ w0)|]. intros w2 [e|out]; [done|]. intros (S2 & F2 & M2). apply wp_ret. split; [done|].
    split; [done|]. simpl. intros c [= <-]. split; [done|]. exists (ws_yaml ws), spec. split_and!; try done; [by intros ->|].
    simpl. destruct F2; done. }
  eapply wp_mono; [by apply HY|]. intros w2 [e|res]; [by intros _ fs|]. intros [_ [R1 R2]].
  assert (Hk : preserves (λ w, ready w0 res w) (cleanup (ws_tmp ws))); [|by apply Hk].
  apply (cleanup_keeps any), ready_survives.
Qed.

(** Whatever fails, when a build returns a result its images are there: each
    image the result names was pulled or built by this run. For a compose app the
    services are those of its file, in the order they were read, with their
    ports, environment, command and restart policy; a service that names an
    image gets that image; the image of the first service is the reference. *)
Theorem images_ready w : wp (build tmpDir a opts) (λ w' r, match r with inl _ => True | inr res => ready w res w' end) w.
Proof.
  assert (S := since_survives w). unfold Build.
  destruct (a_build_type a =s "docker_image") eqn:E1; [|destruct (a_build_type a =s "dockerfile") eqn:E2; [|destruct (a_build_type a =s "docker_compose") eqn:E3; [|by apply wp_throw]]]; bool_simp.
  - assert (HY : yields (since w) (ready w) (pullImage decode body a opts)); [|eapply wp_mono; [apply HY, since_refl|by intros w' [e|res] H; [|destruct H]]].
    unfold pullImage. destruct (negb _); [apply yields_throw|]. cbv zeta. apply yields_keep; [by eapply line_keeps|]. intros _.
    apply yields_keep; [by apply client_keeps|]. intros _. eapply yields_bind; [apply pull_made|]. intros [].
    assert (Sm := pair_survives w _ (made_survives w (TrimSpace (derefString (a_image_name a)) ^^ ":" ^^ (if (if bo_ImageTag opts =s "" then a_image_tag a else bo_ImageTag opts) =s "" then "latest" else if bo_ImageTag opts =s "" then a_image_tag a else bo_ImageTag opts)))).
    apply yields_keep; [by eapply line_keeps|]. intros _. apply yields_ret. intros w' [_ Hm]. split; [|done]. intros _. simpl. by rewrite E1.
  - assert (HY : yields (since w) (ready w) (dockerfileBuild cipher LookupIP tmp keyFile git now at_ answer decode body tar_error read_file uuid stamp with_secrets tmpDir a opts));
      [|eapply wp_mono; [apply HY, since_refl|by intros w' [e|res] H; [|destruct H]]].
    apply yields_keep; [apply preserves_exec; intros w'; apply (su_tmp _ _ S)|]. intros _.
    apply yields_finally; [intros res; apply (removeall_keeps any), pair_survives, ready_survives|]. apply yields_keep.
    + unfold dockerfile_context. destruct (not_blank_opt _); [|destruct (not_blank_opt _); [|apply preserves_throw]].
      * apply preserves_bind; [by apply preserves_exec|]. intros _. apply preserves_bind; [by eapply line_keeps|intros; apply preserves_ret].
      * cbv zeta. apply preserves_bind; [by eapply checkout_keeps|]. intros commit. apply preserves_bind; [by eapply line_keeps|intros; apply preserves_ret].
    + intros [[commit short] ctx]. apply yields_keep; [by apply args_keeps|]. intros args. cbv zeta. eapply yields_bind; [apply built_made|]. intros [].
      apply yields_ret. intros w' [_ Hm]. split; [|done]. intros _. simpl. by rewrite E2.
  - by apply compose_ready.
Qed.
End Sound.

(** ** Examples *)

Module Examples.
#[local] Existing Instance ascii_only.
#[local] Existing Instance GitUrl.Examples.toy_url.
#[local] Existing Instance toy_aead.
#[local] Existing Instance GitSources.Examples.toy_hub.

(** Nodes are scalars; one document is known. *)
Inductive toy_node := TNone | TScalar (s : string).
Definition one_service (image build : string) : rawService toy_node :=
  mkRaw image (if build =s "" then TNone else TScalar build) [TScalar "127.0.0.1:8080:80/tcp"] [TScalar "9000"] TNone TNone (TScalar "run now") "always" TNone.
#[local] Instance toy_yaml : YamlLib := {|
  Node := toy_node;
  node_IsZero n := match n with TNone => true | _ => false end;
  node_Kind n := match n with TNone => NoKind | _ => ScalarNode end;
  node_Value n := match n with TNone => "" | TScalar s => s end;
  dec_strings _ := None; dec_string_map _ := None; dec_keys _ := None; dec_target _ := None; dec_build _ := None;
  yaml_Unmarshal s := if s =s "two" then Some [("db", one_service "postgres:16" ""); ("web", one_service "" "./web")]
                      else if s =s "out" then Some [("web", one_service "" "../../..")] else None;
|}.

Definition example_app (bt : string) (repo : option string) (ctx : string) (file inline image : option string) : App :=
  let b := bare_app "a" "web" None None false in
  mkApp (a_id b) (a_name b) (a_description b) (a_team_id b) (a_server_id b) None repo "main" None bt "Dockerfile" ctx None file inline image "" (a_install_command b) (a_build_command b) (a_start_command b) (a_pre_deploy_command b) (a_post_deploy_command b) (a_port b) (a_host_port b) (a_container_name b) (a_health_check_enabled b) (a_health_check_path b) (a_health_check_method b) (a_health_check_port b) (a_health_check_return_code b) (a_health_check_interval b) (a_health_check_timeout b) (a_health_check_retries b) (a_health_check_start_period b) (a_limits_memory b) (a_limits_cpus b) (a_limits_memory_swap b) (a_limits_memory_swappiness b) (a_limits_memory_reservation b) (a_limits_cpuset b) (a_limits_cpu_shares b) (a_restart_policy b) (a_auto_deploy_branch b) false true (a_docker_labels b) (a_env_vars b) (a_status b) (a_created_at b).

Definition files (p : string) : option string :=
  if p =s "/tmp/b1/src/.git/HEAD" then Some "0123456789abcdef"
  else if p =s "/tmp/b1/src/deploy/compose.yml" then Some "two"
  else if p =s "/tmp/b1/src/out.yml" then Some "out"
  else if p =s "/etc/compose.yml" then Some "two" else None.
Definition opts : BuildOptions := mkBuildOptions "d1" "a" "" "" "".
Definition idle : World := mkWorld empty_db (mkHost ∅ ∅ []) [] [] [].

Definition go (a : App) : World * (BuildErr + Result) :=
  run (Build "key" GitUrl.Examples.names "/tmp" "/tmp/k" (λ _, None) 0 0 GitSources.Examples.installations (λ l, l) (λ l, l) (λ _, None) (λ _, (["ok"], false)) (λ _, false)
    files (λ _, true) "" (λ _, 7%Z) true "/tmp/b1" a opts) idle.

Definition compose_app : App := example_app "docker_compose" (Some "https://github.com/acme/web") "." (Some "deploy/compose.yml") None None.
Example compose_built :
  (bw_tmp (go compose_app).1, call_ref <$> bw_calls (go compose_app).1,
   match (go compose_app).2 with inr r => Some (rs_ImageRef r, rs_ShortSHA r, (λ c, (λ x, (cs_Name x, cs_Image x, cs_Ports x, cs_Command x)) <$> cr_Services c) <$> rs_Compose r) | inl _ => None end)
  = ([], ["postgres:16"; "prexel-web-web-0123456:7"],
     Some ("postgres:16", "0123456", Some [("db", "postgres:16", [80; 9000]%Z, ["run"; "now"]); ("web", "prexel-web-web-0123456:7", [80; 9000]%Z, ["run"; "now"])])).
Proof. by vm_compute. Qed.

Lemma builds_confined_witness : IsAbs "/tmp/b1" = true ∧
  bw_db (go compose_app).1 = empty_db ∧ ∃ calls, bw_calls (go compose_app).1 = calls ∧ Forall (call_ok "/tmp/b1" compose_app opts) calls.
Proof.
  split; [reflexivity|].
  exact (wp_run _ _ _ (builds_confined "key" GitUrl.Examples.names "/tmp" "/tmp/k" (λ _, None) 0 0 GitSources.Examples.installations (λ l, l) (λ l, l) (λ _, None) (λ _, (["ok"], false)) (λ _, false)
    files (λ _, true) "" (λ _, 7%Z) true "/tmp/b1" compose_app opts idle eq_refl)).
Defined.

Definition out_app : App := example_app "docker_compose" (Some "https://github.com/acme/web") "." (Some "out.yml") None None.
Example escape_refused : (go out_app).2 = inl ErrContextEscapes ∧ bw_tmp (go out_app).1 = [] ∧ bw_calls (go out_app).1 = [].
Proof. by vm_compute. Qed.

(** The context of a Dockerfile app has no such check: it can be any directory of the host. *)
Definition etc_app : App := example_app "dockerfile" (Some "https://github.com/acme/web") "../../../etc" None None None.
Lemma dockerfile_context_escapes : (λ c, match c with Built ctx _ _ _ _ => Some ctx | Pulled _ => None end) <$> bw_calls (go etc_app).1 = [Some "/etc"].
Proof. by vm_compute. Qed.

(** Neither has the path of the compose file. *)
Lemma compose_file_escapes : compose_dir "/tmp/b1" (example_app "docker_compose" None "." (Some "../../../etc/compose.yml") None None) = "/etc".
Proof. by vm_compute. Qed.

(** A public repository is cloned from any URL: the gate of [GitSources.Clone] is not asked. *)
Definition metadata_app : App := example_app "dockerfile" (Some "http://169.254.169.254/latest") "." None None None.
Lemma public_clone_ungated : ValidateRepoURL GitUrl.Examples.names "http://169.254.169.254/latest" ≠ inr tt ∧
  cm_args <$> head (ho_ran (bw_host (go metadata_app).1)) = Some ["clone"; "--branch"; "main"; "--single-branch"; "--depth"; "1"; "http://169.254.169.254/latest"; "/tmp/b1/src"].
Proof. split; [by vm_compute|by vm_compute]. Qed.
End Examples.
