(* ===== verification/GitApi.v ===== *)
(** * Git source and webhook endpoints

    The handlers of internal/api/handler/gitsource.go: creation of sources, the
    manifest and installation flows of a GitHub App, the projections that hide
    credentials; and of webhook.go, which starts deployments for signed pushes.
    Requests are decoded ([None]: invalid JSON); ids, random bytes and nonces
    are arguments, and so are the answers of api.github.com.  The pages the
    browser is sent are kept as what goes into them. *)

From S2P Require Import Prelude Effects GoStrings Decimal Regex Paths Schema Cipher Apps Instance Deploy GitUrl GitSources Http.
From stdpp Require Import gmap.

(** ** Answers *)

Record sourceDTO := mkDTO {
  dt_ID : string; dt_Type : string; dt_Name : string; dt_InstallationID : option string; dt_PublicKey : option string;
  dt_HasToken : bool; dt_HasPrivateKey : bool; dt_AppID : string; dt_AppSlug : string; dt_AccountLogin : string; dt_AccountType : string;
  dt_PendingInstall : bool; dt_CreatedAt : Z; dt_WebhookURL : string; dt_WebhookSecret : string; dt_WebhookSecretSet : bool;
}.

Record GitHubRepository := mkRepository { gr_FullName : string }.
Record RepositoryInspect := mkInspect {
  ri_RepoURL : string; ri_Branch : string; ri_DockerfilePath : option string; ri_ComposeFile : option string;
  ri_BuildContext : string; ri_SuggestedType : string; ri_FoundFiles : list string;
}.

Inductive Page :=
  | ManifestFormHTML (baseURL state appName org : string)
  | callbackHTML (installationID setupAction : string)
  | manifestCallbackHTML (sourceID slug installURL : string).

Inductive Body :=
  | BSource (d : sourceDTO) | BSources (l : list sourceDTO) | BUrl (url : string) | BImported (source_id install_url : string)
  | BTest (ok : bool) (error : option CloneErr) | BPage (p : Page)
  | BRepos (l : list GitHubRepository) (ok : bool) | BNames (l : list (string * string)) (ok : bool) | BInspect (i : option RepositoryInspect)
  | BMatched (l : list (string * option string)) (branch event : string).

(** The database, the host of the cloner, the deployments started so far. *)
Record Api := mkApi { ga_db : Db; ga_host : Host; ga_started : list (string * DeployOptions) }.
Definition put_db (d : Db) (s : Api) : Api := mkApi d (ga_host s) (ga_started s).
Definition put_host (h : Host) (s : Api) : Api := mkApi (ga_db s) h (ga_started s).

Local Abbreviation hM := (M Api Empty_set).
Definition db {E A} (m : M Db E A) : hM (E + A) := calling ga_db put_db m.

(** ** Sources *)

(** [time.Time{}] in seconds: the field the struct of an INSERT leaves unset. *)
Definition zero_time : Z := -62135596800.

Section GitSource.
Context `{Uc : Unicode} `{UL : UrlLib} `{AL : AeadLib} `{GL : GitHubLib}.
(** The cipher of the repository; the instance URL, if the reader is wired. *)
Context (cipher : Cipher) (instance : option string).

Definition webhookURLFor (sourceID : string) : string :=
  match instance with
  | None => ""
  | Some url => let host := TrimSpace url in if host =s "" then "" else "https://" ^^ host ^^ "/webhooks/github/" ^^ sourceID
  end.

Definition is_app (s : Source) : bool := so_Type s =s "github_app".

Definition toDTOReveal (s : Source) (reveal : bool) : sourceDTO :=
  mkDTO (so_ID s) (so_Type s) (so_Name s) (so_InstallationID s) (so_PublicKey s) (negb (so_Token s =s "")) (negb (so_PrivateKey s =s ""))
    (so_AppID s) (so_AppSlug s) (so_AccountLogin s) (so_AccountType s)
    (is_app s && (default "" (so_InstallationID s) =s "")) (so_CreatedAt s)
    (if is_app s then webhookURLFor (so_ID s) else "")
    (if is_app s && reveal then so_WebhookSecret s else "")
    (is_app s && negb (TrimSpace (so_WebhookSecret s) =s "")).
Definition toDTO (s : Source) : sourceDTO := toDTOReveal s false.

Definition source_error {B} (e : GitErr) : Reply B :=
  match e with ErrSrcNotFound => Refuse 404 "not_found" | _ => Refuse 500 "db_error" end.

Definition List_ : hM (Reply Body) :=
  r ← db GitSources.List_;
  mret match r with inl _ => Refuse 500 "db_error" | inr l => Answer 200 (BSources (toDTO <$> l)) end.

(** [src, err := Repo.Get(id)] with its two refusals. *)
Definition with_source (id : string) (k : Source → hM (Reply Body)) : hM (Reply Body) :=
  r ← db (GitSources.Get id);
  match r with inl e => mret (source_error e) | inr s => k s end.

Definition Get (id : string) : hM (Reply Body) := with_source id (λ s, mret (Answer 200 (BSource (toDTO s)))).

Record createReq := mkCreateReq { cq_Type : string; cq_Name : string; cq_Generate : bool; cq_PrivateKey : string; cq_Token : string }.

(** The columns of the new source: encrypted key, public key, encrypted token. *)
Definition new_credentials (gen : option (string * string)) (nonce : option string) (req : createReq)
    : (Z * string) + (string * option string * string) :=
  let encrypt s := match EncryptString cipher nonce s with inl _ => inl (500%Z, "encrypt_failed") | inr enc => inr enc end in
  if cq_Type req =s "github_app" then inl (400%Z, "github_app_via_manifest_only")
  else if cq_Type req =s "ssh_key" then
    k ← (if cq_Generate req then match gen with None => inl (500%Z, "keygen_failed") | Some k => inr k end
         else if TrimSpace (cq_PrivateKey req) =s "" then inl (400%Z, "missing_private_key") else inr (cq_PrivateKey req, ""));
    enc ← encrypt k.1;
    mret (enc, (if k.2 =s "" then None else Some (TrimSpace k.2)), "")
  else if cq_Type req =s "token" then
    if TrimSpace (cq_Token req) =s "" then inl (400%Z, "missing_token")
    else enc ← encrypt (cq_Token req); mret ("", None, enc)
  else inl (400%Z, "invalid_type").

(** [gen]: a fresh key pair, PEM and authorized_keys line. *)
Definition Create (id : string) (now : Z) (gen : option (string * string)) (nonce : option string) (req : option createReq) : hM (Reply Body) :=
  match req with
  | None => mret (Refuse 400 "invalid_json")
  | Some req =>
    let name := TrimSpace (cq_Name req) in
    if name =s "" then mret (Refuse 400 "missing_name")
    else match new_credentials gen nonce req with
         | inl (status, code) => mret (Refuse status code)
         | inr (key, pub, token) =>
           let src := mkSource id (cq_Type req) name None key pub token zero_time "" "" "" "" "" "" in
           r ← db (GitSources.Create now src);
           mret match r with inl _ => Refuse 500 "db_insert_failed" | inr _ => Answer 201 (BSource (toDTOReveal src true)) end
         end
  end.

Definition Delete (id : string) : hM (Reply Body) :=
  r ← db (GitSources.Delete id);
  mret match r with
  | inl ErrSrcInUse => Refuse 409 "in_use"
  | inl e => source_error e
  | inr _ => Bare 204
  end.

(** [test]: the cloner of [GitSources] with its readings. *)
Definition Test (test : option Source → string → M Host CloneErr unit) (id : string) (req : option string) : hM (Reply Body) :=
  with_source id (λ src,
    match req with
    | None => mret (Refuse 400 "invalid_json")
    | Some repoURL =>
      if TrimSpace repoURL =s "" then mret (Refuse 400 "missing_repo_url")
      else
        r ← calling ga_host put_host (test (Some src) repoURL);
        mret match r with inl e => Answer 200 (BTest false (Some e)) | inr _ => Answer 200 (BTest true None) end
    end).

(** *** The manifest flow *)

Record manifestStatePayload := mkPayload { ms_BaseURL : string; ms_Org : string; ms_SourceName : string }.

(** encoding/json on the payload. *)
Context (json_encode : manifestStatePayload → string) (json_decode : string → option manifestStatePayload).

Definition encodeManifestStatePayload (p : manifestStatePayload) : string := json_encode p.
Definition decodeManifestStatePayload (raw : string) : manifestStatePayload :=
  match json_decode raw with
  | Some p => if ms_BaseURL p =s "" then mkPayload raw "" "" else p
  | None => mkPayload raw "" ""
  end.

Fixpoint UpTo (n : nat) (r : re) : re := match n with O => Regex.Empty | S n => Opt (Cat r (UpTo n r)) end.
Definition githubOrgSlugRE : re :=
  Cat (Cls alnum) (Opt (Cat (UpTo 37 (Cls (λ z, alnum z || (z =? 45)%Z))) (Cls alnum))).

Record manifestURLReq := mkManifestReq { mq_BaseURL : string; mq_Account : string; mq_Org : string }.

(** The organisation the App is registered for, "" for the user's own account. *)
Definition manifest_org (req : manifestURLReq) : string + string :=
  let account := TrimSpace (mq_Account req) in
  let account := if account =s "" then "personal" else account in
  let org := TrimSpace (mq_Org req) in
  if account =s "personal" then inr ""
  else if account =s "org" then
    if org =s "" then inl "missing_org" else if negb (MatchString githubOrgSlugRE org) then inl "invalid_org" else inr org
  else inl "invalid_account".

Definition source_name (org : string) (count : nat) : string :=
  let scope := if org =s "" then "personal" else org in
  if (0 <? count)%nat then "GitHub · " ^^ scope ^^ " · " ^^ Itoa (Z.of_nat count + 1) else "GitHub · " ^^ scope.

Definition ManifestURL (rand : option string) (req : option manifestURLReq) : hM (Reply Body) :=
  match req with
  | None => mret (Refuse 400 "invalid_json")
  | Some req =>
    let baseURL := TrimRight (TrimSpace (mq_BaseURL req)) "/" in
    if (baseURL =s "") || negb (HasPrefix baseURL "http://" || HasPrefix baseURL "https://") then mret (Refuse 400 "invalid_base_url")
    else match manifest_org req with
         | inl code => mret (Refuse 400 code)
         | inr org =>
           n ← db CountGitHubSources;
           match n with
           | inl _ => mret (Refuse 500 "db_error")
           | inr count =>
             match NewManifestState rand with
             | None => mret (Refuse 500 "state_failed")
             | Some state =>
               r ← db (SaveManifestState state (encodeManifestStatePayload (mkPayload baseURL org (source_name org count))));
               mret match r with
               | inl _ => Refuse 500 "db_error"
               | inr _ => Answer 200 (BUrl (baseURL ^^ "/api/v1/git-sources/github/manifest-start?state=" ^^ state))
               end
             end
           end
         end
  end.

Definition ManifestStart (query_state : string) : hM (Reply Body) :=
  let state := TrimSpace query_state in
  if state =s "" then mret (Refuse 400 "missing_state")
  else
    r ← db (ConsumeManifestState state);
    match r with
    | inl _ => mret (Refuse 400 "invalid_state")
    | inr rawPayload =>
      let payload := decodeManifestStatePayload rawPayload in
      if ms_BaseURL payload =s "" then mret (Refuse 400 "invalid_state")
      else
        r ← db (SaveManifestState state rawPayload);
        match r with
        | inl _ => mret (Refuse 500 "db_error")
        | inr _ =>
          i ← db (Setting "instance_id");
          let instanceID := match i with inl _ => "" | inr v => v end in
          let suffix := TrimPrefix (TrimSpace instanceID) "prx_" in
          let appName := if suffix =s "" then ms_SourceName payload else ms_SourceName payload ^^ " · " ^^ suffix in
          mret (Answer 200 (BPage (ManifestFormHTML (ms_BaseURL payload) state appName (ms_Org payload))))
        end
    end.

(** [rand]: the bytes of the webhook secret. *)
Definition createPendingGitHubSource (id : string) (now : Z) (rand nonce : option string) (cfg : GitHubAppConfig) (sourceName : string) : hM (option (Source * string)) :=
  match EncryptString cipher nonce (gc_PrivateKey cfg) with
  | inl _ => mret None
  | inr encKey =>
    let sourceName := if TrimSpace sourceName =s "" then "GitHub · " ^^ gc_Slug cfg else sourceName in
    match NewWebhookSecret rand with
    | None => mret None
    | Some secret =>
      let src := mkSource id "github_app" sourceName None "" None "" zero_time (gc_AppID cfg) (gc_Slug cfg) encKey "" "" secret in
      r ← db (GitSources.Create now src);
      mret match r with inl _ => None | inr _ => Some (src, InstallURLFor src) end
    end
  end.

Record importReq := mkImportReq { iq_AppID : string; iq_Slug : string; iq_PrivateKey : string; iq_Name : string }.

Definition Import (id : string) (now : Z) (rand nonce : option string) (req : option importReq) : hM (Reply Body) :=
  match req with
  | None => mret (Refuse 400 "invalid_json")
  | Some req =>
    if (TrimSpace (iq_AppID req) =s "") || (TrimSpace (iq_Slug req) =s "") || (TrimSpace (iq_PrivateKey req) =s "")
    then mret (Refuse 400 "missing_app_credentials")
    else
      r ← createPendingGitHubSource id now rand nonce (mkAppConfig (TrimSpace (iq_AppID req)) (TrimSpace (iq_Slug req)) (iq_PrivateKey req)) (iq_Name req);
      mret match r with None => Refuse 500 "create_failed" | Some (src, url) => Answer 201 (BImported (so_ID src) url) end
  end.

(** What api.github.com answers for a code: id, slug and key. *)
Definition ConvertManifestCode (answer : string → option (Z * string * string)) (code : string) : option GitHubAppConfig :=
  if TrimSpace code =s "" then None
  else match answer code with
       | None => None
       | Some (id, slug, pem) => if (id =? 0)%Z || (TrimSpace pem =s "") then None else Some (mkAppConfig (Itoa id) slug pem)
       end.

Definition ManifestCallback (answer : string → option (Z * string * string)) (id : string) (now : Z) (rand nonce : option string)
    (query_state query_code : string) : hM (Reply Body) :=
  let state := TrimSpace query_state in
  let code := TrimSpace query_code in
  if (state =s "") || (code =s "") then mret (Refuse 400 "missing_manifest_callback_params")
  else
    r ← db (ConsumeManifestState state);
    match r with
    | inl _ => mret (Refuse 400 "invalid_state")
    | inr rawPayload =>
      match ConvertManifestCode answer code with
      | None => mret (Refuse 502 "github_manifest_conversion_failed")
      | Some cfg =>
        r ← createPendingGitHubSource id now rand nonce cfg (ms_SourceName (decodeManifestStatePayload rawPayload));
        mret match r with
        | None => Refuse 500 "create_failed"
        | Some (src, url) => Answer 200 (BPage (manifestCallbackHTML (so_ID src) (so_AppSlug src) url))
        end
      end
    end.

(** *** The installation flow *)

Definition GitHubCallback (installationID setupAction : string) : hM (Reply Body) := mret (Answer 200 (BPage (callbackHTML installationID setupAction))).

Definition Finalize (at_ : Z) (answer : string → string → option (string * string)) (id : string) (req : option string) : hM (Reply Body) :=
  with_source id (λ src,
    if negb (is_app src) then mret (Refuse 400 "not_github_app_source")
    else match req with
         | None => mret (Refuse 400 "invalid_json")
         | Some raw =>
           let installationID := TrimSpace raw in
           if installationID =s "" then mret (Refuse 400 "missing_installation_id")
           else match AppAuthFor cipher src with
                | inl _ => mret (Refuse 500 "decrypt_failed")
                | inr auth =>
                  match GetInstallationAccount at_ answer (mkAuth (aa_AppID auth) (aa_PrivateKeyPEM auth) installationID) with
                  | inl _ => mret (Refuse 502 "github_account_lookup_failed")
                  | inr (login, type) =>
                    r ← db (UpdateInstallation (so_ID src) installationID login type);
                    match r with
                    | inl e => mret (source_error e)
                    | inr _ =>
                      r ← db (GitSources.Get (so_ID src));
                      mret match r with inl _ => Refuse 500 "db_error" | inr updated => Answer 200 (BSource (toDTO updated)) end
                    end
                  end
                end
         end).

Definition InstallURL (id : string) : hM (Reply Body) :=
  with_source id (λ src,
    if negb (is_app src) then mret (Refuse 400 "not_github_app_source")
    else mret (if InstallURLFor src =s "" then Refuse 400 "github_app_slug_missing" else Answer 200 (BUrl (InstallURLFor src)))).

Definition with_webhook (secret : string) (s : Source) : Source :=
  mkSource (so_ID s) (so_Type s) (so_Name s) (so_InstallationID s) (so_PrivateKey s) (so_PublicKey s) (so_Token s) (so_CreatedAt s)
    (so_AppID s) (so_AppSlug s) (so_AppPrivateKey s) (so_AccountLogin s) (so_AccountType s) secret.

Definition RegenerateWebhook (rand : option string) (id : string) : hM (Reply Body) :=
  with_source id (λ src,
    if negb (is_app src) then mret (Refuse 400 "not_github_app_source")
    else match NewWebhookSecret rand with
         | None => mret (Refuse 500 "secret_generation_failed")
         | Some secret =>
           r ← db (SetWebhookSecret (so_ID src) secret);
           mret match r with inl e => source_error e | inr _ => Answer 200 (BSource (toDTOReveal (with_webhook secret src) true)) end
         end).

(** *** Repositories *)

Definition githubAppAuth (id : string) : hM (Reply Body + AppAuth) :=
  r ← db (GitSources.Get id);
  mret match r with
  | inl e => inl (source_error e)
  | inr src =>
    if negb (is_app src) then inl (Refuse 400 "not_github_app_source")
    else if TrimSpace (default "" (so_InstallationID src)) =s "" then inl (Refuse 400 "install_pending")
    else match AppAuthFor cipher src with
         | inl _ => inl (Refuse 500 "decrypt_failed")
         | inr auth => if negb (configured auth) then inl (Refuse 400 "github_app_not_configured") else inr auth
         end
  end.

Definition intQuery (v : string) (fallback : Z) : Z :=
  let v := TrimSpace v in
  if v =s "" then fallback else match Atoi v with None => fallback | Some n => if (n <=? 0)%Z then fallback else n end.

(** [answer]: the repositories of a page of a size. *)
Definition ListInstallationRepositories (answer : AppAuth → Z → Z → option (list GitHubRepository)) (auth : AppAuth) (query : string) (page perPage : Z)
    : option (list GitHubRepository) :=
  let page := if (page <? 1)%Z then 1%Z else page in
  let perPage := if (perPage <? 1)%Z || (100 <? perPage)%Z then 30%Z else perPage in
  match answer auth perPage page with
  | None => None
  | Some repos =>
    let q := ToLower (TrimSpace query) in
    if q =s "" then Some repos else Some (List.filter (λ r, Contains (ToLower (gr_FullName r)) q) repos)
  end.

Definition Repositories (answer : AppAuth → Z → Z → option (list GitHubRepository)) (id page per_page q : string) : hM (Reply Body) :=
  a ← githubAppAuth id;
  mret match a with
  | inl refusal => refusal
  | inr auth =>
    match ListInstallationRepositories answer auth q (intQuery page 1) (intQuery per_page 30) with
    | None => Answer 200 (BRepos [] false)
    | Some repos => Answer 200 (BRepos repos true)
    end
  end.

Definition Branches (answer : AppAuth → string → string → option (list (string * string))) (id owner repo : string) : hM (Reply Body) :=
  a ← githubAppAuth id;
  mret match a with
  | inl refusal => refusal
  | inr auth => match answer auth owner repo with None => Answer 200 (BNames [] false) | Some l => Answer 200 (BNames l true) end
  end.

(** [repositoryFileExists] for the candidates, in order. *)
Fixpoint find_files (exists_ : string → option bool) (candidates : list string) : option (list string) :=
  match candidates with
  | [] => Some []
  | path :: l =>
    match exists_ path with
    | None => None
    | Some ok => found ← find_files exists_ l; Some (if ok then path :: found else found)
    end
  end.
Definition InspectRepository_ (exists_ : string → option bool) (owner repo branch : string) : option RepositoryInspect :=
  let branch := if TrimSpace branch =s "" then "main" else branch in
  match find_files exists_ ["Dockerfile"; "docker-compose.yml"; "compose.yml"] with
  | None => None
  | Some found =>
    let url := "https://github.com/" ^^ owner ^^ "/" ^^ repo in
    match List.find (λ f, (f =s "docker-compose.yml") || (f =s "compose.yml")) found with
    | Some f => Some (mkInspect url branch None (Some f) "." "docker_compose" found)
    | None => Some (mkInspect url branch (List.find (String.eqb "Dockerfile") found) None "." "dockerfile" found)
    end
  end.

Record inspectRepoReq := mkInspectReq { nq_Owner : string; nq_Repo : string; nq_Branch : string }.
Definition InspectRepository (exists_ : AppAuth → string → string → string → string → option bool) (id : string) (req : option inspectRepoReq) : hM (Reply Body) :=
  a ← githubAppAuth id;
  mret match a with
  | inl refusal => refusal
  | inr auth =>
    match req with
    | None => Refuse 400 "invalid_json"
    | Some req =>
      if (TrimSpace (nq_Owner req) =s "") || (TrimSpace (nq_Repo req) =s "") then Refuse 400 "missing_repository"
      else
        let owner := TrimSpace (nq_Owner req) in
        let repo := TrimSpace (nq_Repo req) in
        let branch := TrimSpace (nq_Branch req) in
        let ref := if branch =s "" then "main" else branch in
        Answer 200 (BInspect (InspectRepository_ (exists_ auth owner repo ref) owner repo branch))
    end
  end.
End GitSource.

(** ** Pushes (webhook.go) *)

(** [hex.DecodeString]. *)
Fixpoint hex_decode (l : list ascii) : option (list ascii) :=
  match l with
  | [] => Some []
  | [_] => None
  | a :: b :: l => x ← hex_value a; y ← hex_value b; rest ← hex_decode l; Some (of_byte (x * 16 + y) :: rest)
  end.
Definition DecodeHex (s : string) : option string := String.string_of_list_ascii <$> hex_decode (String.list_ascii_of_string s).

Record pushEvent := mkPush { pe_Ref : string; pe_After : string; pe_CloneURL : string; pe_SSHURL : string; pe_Deleted : bool }.

Definition maxWebhookBody : Z := Z.shiftl 5 20.

Section Webhook.
Context `{Uc : Unicode}.
(** HMAC-SHA256 of a key and a message; encoding/json on a push. *)
Context (hmac_sha256 : string → string → string) (decode_push : string → option pushEvent).

Definition verifySignature (secret header body : string) : bool :=
  if (secret =s "") || (header =s "") then false
  else if negb (HasPrefix header "sha256=") then false
  else match DecodeHex (drop_s 7 header) with
       | None => false
       | Some provided => provided =s hmac_sha256 secret body
       end.

(** The tests of the loop over all apps. *)
Definition push_matches (sourceID branch : string) (ev : pushEvent) (a : App) : bool :=
  match a_git_source_id a with Some g => g =s sourceID | None => false end
  && match a_auto_deploy_branch a with Some b => TrimSpace b =s branch | None => false end
  && match a_repo_url a with Some u => repoURLMatches u (pe_CloneURL ev) (pe_SSHURL ev) | None => false end.

(** The deployment starts; [started]: the id it has within the budget. *)
Definition triggerDeploy (started : string → option string) (appID : string) (opts : DeployOptions) : hM (option string) :=
  _ ← modify (λ s, mkApi (ga_db s) (ga_host s) (ga_started s ++ [(appID, opts)]));
  mret (started appID).

Fixpoint trigger_all (started : string → option string) (sourceID branch : string) (ev : pushEvent) (all : list App) : hM (list (string * option string)) :=
  match all with
  | [] => mret []
  | a :: l =>
    if push_matches sourceID branch ev a then
      dep ← triggerDeploy started (a_id a) (mkDeployOptions branch (TrimSpace (pe_After ev)) "" "");
      rest ← trigger_all started sourceID branch ev l;
      mret ((a_id a, dep) :: rest)
    else trigger_all started sourceID branch ev l
  end.

(** [body]: what the sender streams, unless reading fails. *)
Definition read_body (body : option string) : option string :=
  match body with Some b => if (maxWebhookBody <? len b)%Z then None else Some b | None => None end.

Definition Handle (started : string → option string) (sourceID : string) (body : option string) (signature event : string) : hM (Reply Body) :=
  r ← db (GitSources.Get sourceID);
  match r with
  | inl ErrSrcNotFound => mret (Refuse 404 "source_not_found")
  | inl _ => mret (Refuse 500 "db_error")
  | inr src =>
    match read_body body with
    | None => mret (Refuse 413 "body_too_large")
    | Some body =>
      if negb (verifySignature (so_WebhookSecret src) signature body) then mret (Refuse 401 "invalid_signature")
      else if negb (TrimSpace event =s "push") then mret (Bare 204)
      else match decode_push body with
           | None => mret (Refuse 400 "invalid_json")
           | Some ev =>
             if pe_Deleted ev then mret (Bare 204)
             else
               let branch := branchFromRef (pe_Ref ev) in
               if branch =s "" then mret (Bare 204)
               else
                 all ← db Apps.ListAll;
                 match all with
                 | inl _ => mret (Refuse 500 "db_error")
                 | inr all =>
                   matched ← trigger_all started (so_ID src) branch ev all;
                   mret (Answer 202 (BMatched matched branch (TrimSpace event)))
                 end
           end
    end
  end.
End Webhook.

(** ** Which deliveries start deployments *)

Lemma encode_hex_length s : len (EncodeHex s) = (2 * len s)%Z.
Proof. unfold len. induction s as [|c s IH]; simpl; lia. Qed.

Section Authentic.
Context `{Uc : Unicode} (hmac_sha256 : string → string → string) (decode_push : string → option pushEvent).
Context (started : string → option string).

Lemma verify_signed secret signature body : verifySignature hmac_sha256 secret signature body = true ↔
  secret ≠ "" ∧ ∃ hex, signature = "sha256=" ^^ hex ∧ DecodeHex hex = Some (hmac_sha256 secret body).
Proof.
  unfold verifySignature. destruct (secret =s "") eqn:Es; simpl; bool_simp; [by split; [|intros []]|].
  destruct (signature =s "") eqn:Eg; bool_simp; [split; [done|by intros (_ & h & -> & _)]|].
  destruct (HasPrefix signature "sha256=") eqn:Ep; simpl.
  - apply has_prefix_app in Ep as [h ->]. destruct (take_drop_app "sha256=" h 7 eq_refl) as [_ ->]. split.
    + destruct (DecodeHex h) as [m|] eqn:Ed; [|discriminate]. intros ->%String.eqb_eq. split; [done|]. by exists h.
    + intros (_ & h' & Eh & Ed). simplify_eq/=. rewrite Ed. apply String.eqb_refl.
  - split; [done|]. intros (_ & h & Eh & _). assert (HasPrefix signature "sha256=" = true) by (apply has_prefix_app; by exists h). congruence.
Qed.

(** A delivery that is to be obeyed: signed with the secret of the source, of at
    most five megabytes, for a push to a branch that still exists. *)
Record authentic (d : Db) (sourceID : string) (body : option string) (signature event : string) (secret content : string) (ev : pushEvent) : Prop := {
  au_source : ∃ r, sel (src_is sourceID) (git_sources d) = Some r ∧ gs_webhook_secret r = Some secret;
  au_secret : secret ≠ "";
  au_body : body = Some content ∧ (len content <= 5 * 2 ^ 20)%Z;
  au_mac : ∃ hex, signature = "sha256=" ^^ hex ∧ DecodeHex hex = Some (hmac_sha256 secret content);
  au_event : TrimSpace event = "push";
  au_push : decode_push content = Some ev ∧ pe_Deleted ev = false;
  au_branch : branchFromRef (pe_Ref ev) ≠ "";
}.

(** The apps it is for, oldest first, each at the pushed commit of the branch. *)
Definition pushed_apps (sourceID : string) (ev : pushEvent) (d : Db) : list App :=
  List.filter (push_matches sourceID (branchFromRef (pe_Ref ev)) ev) (sort_by older (apps d)).
Definition starts (sourceID : string) (ev : pushEvent) (d : Db) : list (string * DeployOptions) :=
  (λ a, (a_id a, mkDeployOptions (branchFromRef (pe_Ref ev)) (TrimSpace (pe_After ev)) "" "")) <$> pushed_apps sourceID ev d.
Definition matches (sourceID : string) (ev : pushEvent) (d : Db) : list (string * option string) :=
  (λ a, (a_id a, started (a_id a))) <$> pushed_apps sourceID ev d.

Lemma trigger_all_eq sourceID branch ev l s fs : trigger_all started sourceID branch ev l s fs =
  (mkApi (ga_db s) (ga_host s) (ga_started s ++ ((λ a, (a_id a, mkDeployOptions branch (TrimSpace (pe_After ev)) "" "")) <$> List.filter (push_matches sourceID branch ev) l)),
   fs, inr ((λ a, (a_id a, started (a_id a))) <$> List.filter (push_matches sourceID branch ev) l)).
Proof.
  revert s. induction l as [|a l IH]; intros s; simpl; [rewrite app_nil_r; by destruct s|].
  destruct (push_matches sourceID branch ev a); [|apply IH]. unfold mbind, M_bind, bind, triggerDeploy, modify. simpl.
  unfold mbind, M_bind, bind, mret, M_ret, ret. simpl. rewrite IH. simpl. by rewrite <- app_assoc.
Qed.

Lemma all_apps l : List.filter (λ a : App, ("" =s "") || match a_server_id a with Some s => s =s "" | None => false end) l = l.
Proof. induction l as [|a l IH]; simpl; [done|]. by f_equal. Qed.

Lemma src_id d sourceID r : sel (src_is sourceID) (git_sources d) = Some r → so_ID (scanSource r) = sourceID.
Proof. intros [_ E]%sel_Some. unfold src_is in E. by bool_simp. Qed.

Lemma webhook_safe sourceID body signature event s :
  wp (Handle hmac_sha256 decode_push started sourceID body signature event) (λ s' r,
    (s' = s ∧ ∀ b, r ≠ inr (Answer 202 b))
    ∨ ∃ secret content ev, authentic (ga_db s) sourceID body signature event secret content ev ∧
        s' = mkApi (ga_db s) (ga_host s) (ga_started s ++ starts sourceID ev (ga_db s))) s.
Proof.
  unfold Handle, db, GitSources.Get, Apps.ListAll, list_apps. destruct s as [d host st].
  apply wp_bind, wp_calling. apply wp_bind, wp_query; [left; by split|]. simpl. destruct (sel (src_is sourceID) (git_sources d)) as [r|] eqn:Es; [|apply wp_throw; left; by split].
  apply wp_ret. unfold put_db. simpl. unfold read_body. destruct body as [content|]; [|left; by split].
  destruct (maxWebhookBody <? len content)%Z eqn:El; [left; by split|].
  destruct (verifySignature _ _ _ _) eqn:Ev; simpl; [|left; by split]. apply verify_signed in Ev as [Hs Hm].
  destruct (TrimSpace event =s "push") eqn:Ee; simpl; [|left; by split].
  destruct (decode_push content) as [ev|] eqn:Ed; [|left; by split]. destruct (pe_Deleted ev) eqn:Ex; [left; by split|].
  destruct (branchFromRef (pe_Ref ev) =s "") eqn:Eb; [left; by split|].
  apply wp_bind, wp_calling, wp_query; [left; by split|]. simpl. intros fs. unfold mbind, M_bind, bind. rewrite trigger_all_eq. simpl.
  right. exists (default "" (gs_webhook_secret r)), content, ev. bool_simp. split.
  - split; try done. exists r. split; [done|]. simpl in Hs. by destruct (gs_webhook_secret r).
  - unfold starts, pushed_apps. rewrite all_apps. apply src_id in Es. simpl in Es. by rewrite Es.
Qed.

Lemma webhook_runs sourceID body signature event secret content ev s :
  authentic (ga_db s) sourceID body signature event secret content ev →
  runs (Handle hmac_sha256 decode_push started sourceID body signature event) s
    (mkApi (ga_db s) (ga_host s) (ga_started s ++ starts sourceID ev (ga_db s)))
    (Answer 202 (BMatched (matches sourceID ev (ga_db s)) (branchFromRef (pe_Ref ev)) "push")).
Proof.
  intros [(r & Es & Er) Hs [-> Hl] Hm He [Hd Hx] Hb]. unfold Handle, db. destruct s as [d host st]. simpl in *.
  eapply runs_bind; [apply runs_calling; eapply runs_bind; [by apply (runs_query _ _ _ (Some r))|apply runs_ret]|]. unfold put_db. simpl.
  unfold maxWebhookBody. change (Z.shiftl 5 20) with (5 * 2 ^ 20)%Z. rewrite (proj2 (Z.ltb_ge _ _) Hl).
  rewrite (proj2 (verify_signed _ _ _)); [|by rewrite Er]. simpl. rewrite He, String.eqb_refl, Hd, Hx. simpl. rewrite (proj2 (String.eqb_neq _ _) Hb).
  eapply runs_bind; [apply runs_calling; by apply runs_query|]. simpl. eapply runs_bind; [unfold runs; by rewrite trigger_all_eq|].
  rewrite all_apps. apply src_id in Es. simpl in Es. rewrite Es. apply runs_ret.
Qed.
(** C18: Whatever fails, a delivery starts deployments only if the source exists
    and has a webhook secret, the body of at most five megabytes carries its
    HMAC-SHA256, the event is a push and the branch still exists; it then starts
    exactly the apps of that source, branch and repository, oldest first, each
    at the pushed commit, and changes nothing else. Without failures every such
    delivery does so and answers 202 with them. *)
Theorem webhook_authentic sourceID body signature event s :
  wp (Handle hmac_sha256 decode_push started sourceID body signature event) (λ s' r,
    (s' = s ∧ ∀ b, r ≠ inr (Answer 202 b))
    ∨ ∃ secret content ev, authentic (ga_db s) sourceID body signature event secret content ev ∧
        s' = mkApi (ga_db s) (ga_host s) (ga_started s ++ starts sourceID ev (ga_db s))) s
  ∧ ∀ secret content ev, authentic (ga_db s) sourceID body signature event secret content ev →
    runs (Handle hmac_sha256 decode_push started sourceID body signature event) s
      (mkApi (ga_db s) (ga_host s) (ga_started s ++ starts sourceID ev (ga_db s)))
      (Answer 202 (BMatched (matches sourceID ev (ga_db s)) (branchFromRef (pe_Ref ev)) "push")).
Proof. split; [apply webhook_safe|]. intros. by eapply webhook_runs. Qed.
End Authentic.

(** ** Histories *)

(** What the calls leave alone besides the sources and settings. *)
Definition framed (d0 d : Db) : Prop := apps d = apps d0 ∧ teams d = teams d0 ∧ servers d = servers d0.

Section Frame.
Context (I : Db → Prop) (HI : ∀ f d, I d → I (on_git_sources f d)).

Lemma create_frame now s : preserves I (GitSources.Create now s).
Proof. apply preserves_checked. intros d Hd. cbv beta zeta. destruct (_ || _); [done|by apply HI]. Qed.
Lemma or_missing_frame n : preserves I (or_missing n).
Proof. unfold or_missing. destruct (n =? 0)%nat; [apply preserves_throw|apply preserves_ret]. Qed.
Lemma set_webhook_frame id secret : preserves I (SetWebhookSecret id secret).
Proof. intros d Hd. apply wp_bind, wp_fallible; [done|]. by apply or_missing_frame, HI. Qed.
Lemma update_installation_frame id inst login type : preserves I (UpdateInstallation id inst login type).
Proof. intros d Hd. apply wp_bind, wp_checked; [done|]. destruct (_ && _); [done|]. by apply or_missing_frame, HI. Qed.
Lemma delete_frame id : preserves I (GitSources.Delete id).
Proof.
  intros d Hd. apply wp_bind, wp_query; [done|]. destruct (0 <? _)%nat; [by apply wp_throw|]. apply wp_bind, wp_checked; [done|].
  destruct (_ && _); [done|]. by apply or_missing_frame, HI.
Qed.

Hypothesis HS : ∀ f d, I d → I (on_settings f d).
Lemma save_state_frame state v : preserves I (SaveManifestState state v).
Proof. apply preserves_exec. intros. by apply HS. Qed.
Lemma consume_state_frame state : preserves I (ConsumeManifestState state).
Proof.
  apply preserves_tx, preserves_bind; [apply preserves_query|]. intros [v|]; [|apply preserves_throw].
  apply preserves_bind; [|intros; apply preserves_ret]. apply preserves_exec. intros. by apply HS.
Qed.
End Frame.

Section Typed.
Context `{Uc : Unicode} `{UL : UrlLib} `{AL : AeadLib} `{GL : GitHubLib}.
Context (cipher : Cipher).

Definition git_wf (d : Db) : Prop := sources_wf cipher d ∧ apps_wf d.

(** A change of the sources keeps the apps typed as long as the sources are. *)
Lemma sources_keep {A} (m : M Db GitErr A) : preserves (sources_wf cipher) m → (∀ d0, preserves (framed d0) m) → preserves git_wf m.
Proof.
  intros H1 H2 d [Hs Ha]. eapply wp_mono; [apply wp_and; [by apply H1|by apply (H2 d)]|]. intros d' _ [Hs' (Ea & Et & Ev)]. split; [done|].
  destruct Ha as [A1 A2 A3 A4]. split; rewrite Ea; try done. intros a Hin. specialize (A2 a Hin). unfold app_refs in *. rewrite Et, Ev.
  destruct (refers tm_id (teams d) (a_team_id a)), (refers sv_id (servers d) (a_server_id a)); try done. simpl in *.
  unfold refers in *. destruct (a_git_source_id a) as [g|] eqn:Eg; [|done].
  destruct (sc_apps _ _ Hs' a g) as (r & Hr & <-); [by rewrite Ea|done|]. apply List.existsb_exists. exists r. split; [by apply list_elem_of_In|apply String.eqb_refl].
Qed.

Lemma apps_keep svc c : preserves git_wf (Apps.serve svc c).
Proof.
  intros d [Hs Ha]. eapply wp_mono; [apply wp_and; [by apply (serve_wf svc c)|apply (serve_keeps svc (λ d', git_sources d' = git_sources d))]|]; try done.
  intros d' _ [Ha' E]. split; [|done]. destruct Hs as [H1 H2 H3 H4]. split; rewrite ?E; try done.
  intros a g Hin Hg. pose proof (wf_refs _ Ha' a Hin) as R. unfold app_refs, refers in R. rewrite Hg, E in R.
  apply andb_true_iff in R as [_ (r & Hr & ?)%existsb_witness]. exists r. split; [done|]. by bool_simp.
Qed.

(** *** New sources *)

Context `{!AeadLaws}.

Lemma encrypt_sealed nonce s blob : (∀ n, nonce = Some n → len n = nonceLen) → EncryptString cipher nonce s = inr blob → s ≠ "" → sealed cipher (nullBytes blob).
Proof.
  intros Hn. unfold EncryptString. destruct (s =s "") eqn:Es; [by bool_simp|]. destruct nonce as [n|]; [|done].
  destruct (decrypt_encrypt cipher n s) as (ct & E1 & E2); [by apply Hn|]. rewrite E1. intros [= <-] Hs. exists ct, s. split_and!; [|done|done].
  unfold nullBytes. destruct (ct =s "") eqn:Ec; [|done]. bool_simp. subst ct. done.
Qed.

Lemma hex_secret rand secret : (∀ x, rand = Some x → len x = 32%Z) → NewWebhookSecret rand = Some secret → len secret = 64%Z.
Proof. intros Hr. unfold NewWebhookSecret. destruct rand as [x|]; [|done]. intros [= <-]. rewrite encode_hex_length, (Hr x eq_refl). done. Qed.

Lemma new_credentials_ok id name now gen nonce req key pub token :
  (∀ n, nonce = Some n → len n = nonceLen) → (∀ k, gen = Some k → k.1 ≠ "") → new_credentials cipher gen nonce req = inr (key, pub, token) →
  src_ok cipher (row_of now (mkSource id (cq_Type req) name None key pub token zero_time "" "" "" "" "" "")).
Proof.
  intros Hn Hg. unfold new_credentials. destruct (cq_Type req =s "github_app") eqn:E1; [done|].
  destruct (cq_Type req =s "ssh_key") eqn:E2; [|destruct (cq_Type req =s "token") eqn:E3; [|done]]; bool_simp.
  - intros Ek. assert (∃ pem, pem ≠ "" ∧ EncryptString cipher nonce pem = inr key ∧ token = "") as (pem & Hp & He & ->).
    { destruct (cq_Generate req).
      - destruct gen as [[pem line]|]; [|done]. simpl in Ek. destruct (EncryptString cipher nonce pem) as [|enc] eqn:Ee; [done|].
        injection Ek as <- _ <-. exists pem. split_and!; [by apply (Hg _ eq_refl)|done|done].
      - destruct (TrimSpace (cq_PrivateKey req) =s "") eqn:Et; [done|]. simpl in Ek.
        destruct (EncryptString cipher nonce (cq_PrivateKey req)) as [|enc] eqn:Ee; [done|]. injection Ek as <- _ <-.
        eexists. split_and!; [|done|done]. intros E. by rewrite E in Et. }
    split; simpl; rewrite E2; try done; [by right; left|]. intros _. by eapply encrypt_sealed.
  - destruct (TrimSpace (cq_Token req) =s "") eqn:Et; [done|]. intros Ek. simpl in Ek.
    destruct (EncryptString cipher nonce (cq_Token req)) as [|enc] eqn:Ee; [done|]. injection Ek as <- _ <-.
    split; simpl; rewrite E3; try done; [by right; right; left|]. intros _. eapply encrypt_sealed; [done..|]. intros E. by rewrite E in Et.
Qed.

Lemma pending_ok id name now nonce cfg enc secret :
  (∀ n, nonce = Some n → len n = nonceLen) → gc_AppID cfg ≠ "" → gc_PrivateKey cfg ≠ "" → len secret = 64%Z → EncryptString cipher nonce (gc_PrivateKey cfg) = inr enc →
  src_ok cipher (row_of now (mkSource id "github_app" name None "" None "" zero_time (gc_AppID cfg) (gc_Slug cfg) enc "" "" secret)).
Proof.
  intros Hn Hi Hk Hs He. split; simpl; try done; [by left|by intros _; eapply encrypt_sealed| |]; intros _; unfold nullString.
  - rewrite (proj2 (String.eqb_neq _ _) Hi). by exists (gc_AppID cfg).
  - exists secret. split; [|done]. destruct (secret =s "") eqn:E; [|done]. bool_simp. by subst.
Qed.
End Typed.

(** *** Calls *)

(** What a handler draws and is answered is part of its call. *)
Inductive call :=
  | CList | CGet (id : string) | CInstallURL (id : string)
  | CCreate (id : string) (now : Z) (gen : option (string * string)) (nonce : option string) (req : option createReq)
  | CDelete (id : string)
  | CTest (test : option Source → string → M Host CloneErr unit) (id : string) (req : option string)
  | CManifestURL (rand : option string) (req : option manifestURLReq)
  | CManifestStart (state : string)
  | CManifestCallback (answer : string → option (Z * string * string)) (id : string) (now : Z) (rand nonce : option string) (state code : string)
  | CImport (id : string) (now : Z) (rand nonce : option string) (req : option importReq)
  | CFinalize (at_ : Z) (answer : string → string → option (string * string)) (id : string) (req : option string)
  | CRegenerate (rand : option string) (id : string)
  | CPush (started : string → option string) (sourceID : string) (body : option string) (signature event : string)
  | CApp (c : Apps.call).

(** Nonces have twelve bytes, secrets thirty-two, and a generated key is not empty. *)
Definition draws_ok (c : call) : Prop :=
  let sized n (x : option string) := ∀ b, x = Some b → len b = n in
  match c with
  | CCreate _ _ gen nonce _ => sized nonceLen nonce ∧ ∀ k, gen = Some k → k.1 ≠ ""
  | CManifestCallback _ _ _ rand nonce _ _ | CImport _ _ rand nonce _ => sized 32%Z rand ∧ sized nonceLen nonce
  | CRegenerate rand _ => sized 32%Z rand
  | _ => True
  end.

Section History.
Context `{Uc : Unicode} `{UL : UrlLib} `{AL : AeadLib} `{GL : GitHubLib}.
Context (cipher : Cipher) (instance : option string) (svc : Service).
Context (json_encode : manifestStatePayload → string) (json_decode : string → option manifestStatePayload).
Context (hmac_sha256 : string → string → string) (decode_push : string → option pushEvent).

Definition serve (c : call) : hM (Reply Body) :=
  match c with
  | CList => List_ instance
  | CGet id => Get instance id
  | CInstallURL id => InstallURL id
  | CCreate id now gen nonce req => Create cipher instance id now gen nonce req
  | CDelete id => Delete id
  | CTest test id req => Test test id req
  | CManifestURL rand req => ManifestURL json_encode rand req
  | CManifestStart state => ManifestStart json_decode state
  | CManifestCallback answer id now rand nonce state code => ManifestCallback cipher json_decode answer id now rand nonce state code
  | CImport id now rand nonce req => Import cipher id now rand nonce req
  | CFinalize at_ answer id req => Finalize cipher instance at_ answer id req
  | CRegenerate rand id => RegenerateWebhook instance rand id
  | CPush started id body signature event => Handle hmac_sha256 decode_push started id body signature event
  | CApp c => _ ← db (Apps.serve svc c); mret (Bare 204)
  end.

(** The calls of a history, each with its faults; their answers. *)
Fixpoint trace (l : list (call * list bool)) (s : Api) : list (call * option (Reply Body)) * Api :=
  match l with
  | [] => ([], s)
  | (c, fs) :: l =>
    match serve c s fs with
    | (s', _, r) => let '(t, s'') := trace l s' in ((c, match r with inl _ => None | inr a => Some a end) :: t, s'')
    end
  end.

(** An invariant of the database that every call keeps holds after a history. *)
Lemma trace_keeps (I : Db → Prop) (ok : call → Prop) l s :
  (∀ c, ok c → preserves (λ s, I (ga_db s)) (serve c)) → I (ga_db s) → Forall (λ c, ok c.1) l → I (ga_db (trace l s).2).
Proof.
  intros Hc. revert s. induction l as [|[c fs] l IH]; intros s Hs HF; simpl; [done|]. inversion_clear HF as [|? ? H1 H2].
  pose proof (Hc c H1 s Hs fs) as H. destruct (serve c s fs) as [[s' fs'] r]. simpl in H. specialize (IH s' H H2). by destruct (trace l s').
Qed.

(** What holds of each answer given in a state of the invariant. *)
Lemma trace_answers (I : Db → Prop) (ok : call → Prop) (P : call → option (Reply Body) → Prop) l s :
  (∀ c, ok c → preserves (λ s, I (ga_db s)) (serve c)) →
  (∀ c s, ok c → I (ga_db s) → wp (serve c) (λ _ r, P c (match r with inl _ => None | inr a => Some a end)) s) →
  I (ga_db s) → Forall (λ c, ok c.1) l → ∀ c r, (c, r) ∈ (trace l s).1 → P c r.
Proof.
  intros Hc HP. revert s. induction l as [|[c fs] l IH]; intros s Hs HF c' r'; simpl; [by intros ?%not_elem_of_nil|]. inversion_clear HF as [|? ? H1 H2].
  pose proof (Hc c H1 s Hs fs) as H. pose proof (HP c s H1 Hs fs) as H'. destruct (serve c s fs) as [[s' fs'] r]. simpl in H, H'.
  specialize (IH s' H H2 c' r'). destruct (trace l s') as [t s'']. intros [E|Hin]%elem_of_cons; [by simplify_eq|by apply IH].
Qed.
End History.

(** *** What the handlers keep *)

(** A tactic that follows a handler: the calls on the database are left. *)
Ltac keep_step :=
  match goal with
  | |- preserves _ (mbind _ _) => apply preserves_bind; [|intros ?]
  | |- preserves _ (mret _) => apply preserves_ret
  | |- preserves _ (throw _) => apply preserves_throw
  | |- preserves _ (query _ _) => apply preserves_query
  | |- preserves _ (match ?x with _ => _ end) => destruct x eqn:?
  | |- preserves (λ s, ?I (ga_db s)) (db ?m) => apply (preserves_calling ga_db put_db I); [done|]
  end; cbv beta zeta.
Ltac keeps := cbv beta zeta; repeat keep_step.

Section Keep.
Context `{Uc : Unicode} `{UL : UrlLib} `{AL : AeadLib} `{GL : GitHubLib} `{!AeadLaws}.
Context (cipher : Cipher) (instance : option string) (svc : Service).
Context (json_encode : manifestStatePayload → string) (json_decode : string → option manifestStatePayload).
Context (hmac_sha256 : string → string → string) (decode_push : string → option pushEvent).

Lemma source_reads (I : Db → Prop) id : preserves I (GitSources.Get id).
Proof. unfold GitSources.Get. keeps. Qed.

Lemma pending_keeps id now rand nonce cfg name : (∀ x, rand = Some x → len x = 32%Z) → (∀ n, nonce = Some n → len n = nonceLen) →
  gc_AppID cfg ≠ "" → gc_PrivateKey cfg ≠ "" →
  preserves (λ s, git_wf cipher (ga_db s)) (createPendingGitHubSource cipher id now rand nonce cfg name).
Proof.
  intros Hr Hn Hi Hk. unfold createPendingGitHubSource. keeps. apply sources_keep; [|intros; by apply create_frame].
  apply src_create_wf. eapply pending_ok; [done..|by eapply hex_secret|done].
Qed.

Lemma trigger_keeps (I : Db → Prop) started id branch ev l : preserves (λ s, I (ga_db s)) (trigger_all started id branch ev l).
Proof. intros s Hs fs. by rewrite trigger_all_eq. Qed.

Lemma itoa_nonempty n : Itoa n ≠ "".
Proof.
  assert (G : ∀ m, itoa_fuel 20 m "" ≠ "").
  { intros m. change (itoa_fuel 20 m "") with (let a := String (digit (m mod 10)) "" in if (m <? 10)%Z then a else itoa_fuel 19 (m / 10) a). cbv zeta.
    destruct (m <? 10)%Z; [done|by apply itoa_fuel_nonempty]. }
  unfold Itoa. destruct (n <? 0)%Z; [done|apply G].
Qed.

Lemma converted answer code cfg : ConvertManifestCode answer code = Some cfg → gc_AppID cfg ≠ "" ∧ gc_PrivateKey cfg ≠ "".
Proof.
  unfold ConvertManifestCode. destruct (TrimSpace code =s ""); [done|]. destruct (answer code) as [[[i slug] pem]|]; [|done].
  destruct (i =? 0)%Z; [done|]. destruct (TrimSpace pem =s "") eqn:E; [done|]. intros [= <-]. split; simpl; [apply itoa_nonempty|]. intros ->. by bool_simp.
Qed.

Lemma serve_typed c : draws_ok c → preserves (λ s, git_wf cipher (ga_db s)) (serve cipher instance svc json_encode json_decode hmac_sha256 decode_push c).
Proof.
  intros Hok. destruct c; simpl in *.
  - unfold List_, GitSources.List_. keeps.
  - unfold Get, with_source. keeps. apply source_reads.
  - unfold InstallURL, with_source. keeps. apply source_reads.
  - unfold Create. keeps. apply sources_keep; [|intros; by apply create_frame]. destruct Hok. apply src_create_wf. by eapply new_credentials_ok.
  - unfold Delete. keeps. apply sources_keep; [apply src_delete_wf|intros; by apply delete_frame].
  - unfold Test, with_source. keeps; [apply source_reads|]. intros x Hx. apply wp_calling. by intros fs.
  - unfold ManifestURL, CountGitHubSources. keeps. apply sources_keep; [apply save_state_wf|intros; by apply save_state_frame].
  - unfold ManifestStart, Setting. keeps; [apply sources_keep; [apply consume_state_wf|intros; by apply consume_state_frame]|].
    apply sources_keep; [apply save_state_wf|intros; by apply save_state_frame].
  - unfold ManifestCallback. keeps; [apply sources_keep; [apply consume_state_wf|intros; by apply consume_state_frame]|].
    destruct Hok, (converted _ _ _ ltac:(eassumption)). by apply pending_keeps.
  - unfold Import. keeps. bool_simp. destruct Hok. apply pending_keeps; try done. simpl. intros E. by rewrite E in *.
  - unfold Finalize, with_source. keeps; [apply source_reads| |apply source_reads]. apply sources_keep; [apply update_installation_wf|intros; by apply update_installation_frame].
  - unfold RegenerateWebhook, with_source. keeps; [apply source_reads|]. apply sources_keep; [|intros; by apply set_webhook_frame].
    apply set_webhook_wf. by eapply hex_secret.
  - unfold Handle. keeps; [apply source_reads| |apply trigger_keeps]. unfold Apps.ListAll, list_apps. keeps.
  - keeps. apply apps_keep.
Qed.

(** Through any history of requests and app calls, whatever fails in it, ids
    of sources are unique, each row has one of the three types with the columns
    its type needs — a key, token or App key that the cipher opens to a text, an
    App id, a webhook secret of 64 characters —, no installation belongs to two
    sources, and the sources apps refer to exist. *)
Theorem sources_typed l s : Forall (λ c, draws_ok c.1) l → sources_wf cipher (ga_db s) → apps_wf (ga_db s) →
  sources_wf cipher (ga_db (trace cipher instance svc json_encode json_decode hmac_sha256 decode_push l s).2).
Proof. intros Hl Hs Ha. by destruct (trace_keeps cipher instance svc json_encode json_decode hmac_sha256 decode_push (git_wf cipher) draws_ok l s serve_typed (conj Hs Ha) Hl). Qed.
(** *** States of the manifest flow *)

Definition absent (st : string) (d : Db) : Prop := setting (state_key st) d = None.
Definition draws (st : string) (c : call) : Prop := match c with CManifestURL rand _ => NewManifestState rand = Some st | _ => False end.
Definition uses_state (st : string) (c : call) : Prop :=
  match c with CManifestStart q | CManifestCallback _ _ _ _ _ q _ => TrimSpace q = st | _ => False end.

Lemma state_key_inj a b : state_key a = state_key b → a = b.
Proof. unfold state_key. intros E. by simplify_eq/=. Qed.

Lemma absent_other st st' v d : st ≠ st' → absent st d → absent st (upsert_setting (state_key st') v d).
Proof. unfold absent. intros Hne Ha. rewrite setting_upsert, (proj2 (String.eqb_neq _ _)); [done|]. intros ?%state_key_inj. congruence. Qed.

Lemma consume_wp st d : wp (ConsumeManifestState st) (λ d' r,
  match r with
  | inl _ => d' = d
  | inr v => setting (state_key st) d = Some v ∧ d' = on_settings (del (key_is (state_key st))) d
  end) d.
Proof.
  unfold ConsumeManifestState. apply wp_tx; [done|]. apply wp_bind, wp_query; [done|]. destruct (setting (state_key st) d) as [v|] eqn:E; [|by apply wp_throw].
  apply wp_bind, wp_exec; [done|]. by apply wp_ret.
Qed.

Lemma consumed_absent st d : absent st (on_settings (del (key_is (state_key st))) d).
Proof.
  unfold absent, setting, on_settings. simpl. destruct (sel _ _) as [e|] eqn:E; [|done]. apply sel_Some in E as [[_ H1]%elem_of_del H2]. by rewrite H2 in H1.
Qed.

Lemma absent_consume st st' d : absent st d → absent st (on_settings (del (key_is (state_key st'))) d).
Proof.
  unfold absent, setting, on_settings. simpl. intros E. destruct (sel _ (del _ _)) as [e|] eqn:Es; [|done].
  apply sel_Some in Es as [[He _]%elem_of_del Hk]. destruct (sel_is_Some _ _ _ He Hk) as [e' E']. by rewrite E' in E.
Qed.

(** No call brings a consumed state back, short of drawing it again. *)
Lemma serve_absent st c : ¬ draws st c → preserves (λ s, absent st (ga_db s)) (serve cipher instance svc json_encode json_decode hmac_sha256 decode_push c).
Proof.
  intros Hok. assert (Hg : ∀ f d, absent st d → absent st (on_git_sources f d)) by done.
  assert (Hp : ∀ id now rand nonce cfg name, preserves (λ s, absent st (ga_db s)) (createPendingGitHubSource cipher id now rand nonce cfg name)).
  { intros. unfold createPendingGitHubSource. keeps. by apply create_frame. }
  assert (Hc : ∀ st', preserves (absent st) (ConsumeManifestState st')).
  { intros st' d Hd. eapply wp_mono; [apply consume_wp|]. intros d' [e|v]; [by intros ->|]. intros [_ ->]. by apply absent_consume. }
  destruct c; simpl in *.
  - unfold List_, GitSources.List_. keeps.
  - unfold Get, with_source. keeps. apply source_reads.
  - unfold InstallURL, with_source. keeps. apply source_reads.
  - unfold Create. keeps. by apply create_frame.
  - unfold Delete. keeps. by apply delete_frame.
  - unfold Test, with_source. keeps; [apply source_reads|]. intros x Hx. apply wp_calling. by intros fs.
  - unfold ManifestURL, CountGitHubSources. keeps. apply preserves_exec. intros d. apply absent_other. congruence.
  - intros s Hs. unfold ManifestStart. cbv zeta. destruct (TrimSpace state =s "") eqn:E0; [by apply wp_ret|].
    apply wp_bind, wp_calling. eapply wp_mono; [apply consume_wp|]. intros d' [e|v]; [by intros ->; apply wp_ret|].
    intros [Ev ->]. assert (Hne : st ≠ TrimSpace state) by (intros ->; unfold absent in Hs; congruence).
    apply (absent_consume _ (TrimSpace state)) in Hs. revert Hs. generalize (on_settings (del (key_is (state_key (TrimSpace state)))) (ga_db s)). intros d' Hd'.
    match goal with |- wp ?m _ _ => assert (Hk : preserves (λ s, absent st (ga_db s)) m); [|by apply Hk] end.
    unfold Setting. keeps. apply preserves_exec. intros d. by apply absent_other.
  - unfold ManifestCallback. keeps; [apply Hc|apply Hp].
  - unfold Import. keeps. apply Hp.
  - unfold Finalize, with_source. keeps; [apply source_reads|by apply update_installation_frame|apply source_reads].
  - unfold RegenerateWebhook, with_source. keeps; [apply source_reads|by apply set_webhook_frame].
  - unfold Handle. keeps; [apply source_reads| |apply trigger_keeps]. unfold Apps.ListAll, list_apps. keeps.
  - keeps. by apply (serve_keeps svc (absent st)).
Qed.

(** An absent state is refused. *)
Lemma absent_refused st c s : uses_state st c → absent st (ga_db s) →
  wp (serve cipher instance svc json_encode json_decode hmac_sha256 decode_push c) (λ _ r, ∃ code, r = inr (Refuse 400 code)) s.
Proof.
  intros Hu Ha. assert (Hc : ∀ k : GitErr + string → hM (Reply Body), (∀ d e, wp (k (inl e)) (λ _ r, ∃ code, r = inr (Refuse 400 code)) d) → wp (r ← db (ConsumeManifestState st); k r) (λ _ r, ∃ code, r = inr (Refuse 400 code)) s).
  { intros k Hk. apply wp_bind, wp_calling. eapply wp_mono; [apply consume_wp|]. intros d' [e|v] HC; [apply Hk|]. destruct HC as [HC _]. unfold absent in Ha. congruence. }
  destruct c; simpl in Hu; try done; subst st; simpl.
  - unfold ManifestStart. cbv zeta. destruct (_ =s ""); [apply wp_ret; eauto|]. apply Hc. intros. apply wp_ret. eauto.
  - unfold ManifestCallback. cbv zeta. destruct (_ || _); [apply wp_ret; eauto|]. apply Hc. intros. apply wp_ret. eauto.
Qed.

(** A state of the manifest flow is good for one callback: a callback that is
    not refused for its parameters found the state stored, and through any later
    history in which the state is not drawn again, every callback and every start
    page that names it is refused, whatever fails. *)
Theorem manifest_state_once answer id now rand nonce q code fs l s :
  Forall (λ c, ¬ draws (TrimSpace q) c.1) l →
  match ManifestCallback cipher json_decode answer id now rand nonce q code s fs with
  | (s', _, r) =>
    (∃ code', r = inr (Refuse 400 code'))
    ∨ (∃ v, setting (state_key (TrimSpace q)) (ga_db s) = Some v) ∧
      ∀ c reply, (c, reply) ∈ (trace cipher instance svc json_encode json_decode hmac_sha256 decode_push l s').1 → uses_state (TrimSpace q) c →
        ∃ code', reply = Some (Refuse 400 code')
  end.
Proof.
  intros Hl.
  assert (HW : wp (ManifestCallback cipher json_decode answer id now rand nonce q code) (λ s' r,
    (∃ code', r = inr (Refuse 400 code')) ∨ (∃ v, setting (state_key (TrimSpace q)) (ga_db s) = Some v) ∧ absent (TrimSpace q) (ga_db s')) s).
  { unfold ManifestCallback. cbv zeta. destruct (_ || _); [apply wp_ret; eauto|]. apply wp_bind, wp_calling.
    eapply wp_mono; [apply consume_wp|]. intros d' [e|v]; [intros _; apply wp_ret; eauto|]. intros [Ev ->].
    pose proof (consumed_absent (TrimSpace q) (ga_db s)) as Ha. revert Ha. generalize (on_settings (del (key_is (state_key (TrimSpace q)))) (ga_db s)). intros d' Hd'.
    match goal with |- wp ?m _ _ => assert (Hk : preserves (λ s, absent (TrimSpace q) (ga_db s)) m) end.
    { unfold createPendingGitHubSource. keeps. by apply create_frame. }
    eapply wp_mono; [by apply Hk|]. intros s' r Hs'. right. split; [by exists v|done]. }
  specialize (HW fs). destruct (ManifestCallback _ _ _ _ _ _ _ _ _ s fs) as [[s' fs'] r]. destruct HW as [|[Hv Ha]]; [by left|]. right. split; [done|].
  intros c reply Hin. revert Hin.
  apply (trace_answers cipher instance svc json_encode json_decode hmac_sha256 decode_push (absent (TrimSpace q)) (λ c, ¬ draws (TrimSpace q) c)
    (λ c reply, uses_state (TrimSpace q) c → ∃ code', reply = Some (Refuse 400 code'))); [apply serve_absent| |done|done].
  intros c0 s0 _ H0 fs0 Hu. destruct (absent_refused _ c0 s0 Hu H0 fs0) as [code' E]. simpl in E. rewrite E. by exists code'.
Qed.
End Keep.

(** ** What reading shows *)

Section Masked.
Context (instance : option string) `{Uc : Unicode}.

Definition same_emptiness (f : string → string) (a b : option string) : Prop := (f (default "" a) = "") ↔ (f (default "" b) = "").

(** Rows that differ in their credentials only. *)
Record masked (r r' : GitSource) : Prop := {
  mk_public : gs_id r = gs_id r' ∧ gs_type r = gs_type r' ∧ gs_name r = gs_name r' ∧ gs_installation_id r = gs_installation_id r' ∧
    gs_public_key r = gs_public_key r' ∧ gs_app_id r = gs_app_id r' ∧ gs_app_slug r = gs_app_slug r' ∧
    gs_account_login r = gs_account_login r' ∧ gs_account_type r = gs_account_type r' ∧ gs_created_at r = gs_created_at r';
  mk_key : same_emptiness (λ s, s) (gs_private_key r) (gs_private_key r');
  mk_token : same_emptiness (λ s, s) (gs_token r) (gs_token r');
  mk_webhook : same_emptiness TrimSpace (gs_webhook_secret r) (gs_webhook_secret r');
}.

Lemma eqb_iff a b : (a = "" ↔ b = "") → (a =s "") = (b =s "").
Proof. intros E. apply eq_true_iff_eq. by rewrite !String.eqb_eq. Qed.

Lemma masked_dto r r' : masked r r' → toDTO instance (scanSource r) = toDTO instance (scanSource r').
Proof.
  intros [(E1 & E2 & E3 & E4 & E5 & E6 & E7 & E8 & E9 & E10) H1 H2 H3]. unfold toDTO, toDTOReveal, is_app, scanSource, same_emptiness in *. simpl.
  rewrite E1, E2, E3, E4, E5, E6, E7, E8, E9, E10, (eqb_iff _ _ H1), (eqb_iff _ _ H2), (eqb_iff _ _ H3). by rewrite !andb_false_r.
Qed.

Lemma masked_sel id l l' : Forall2 masked l l' →
  match sel (src_is id) l, sel (src_is id) l' with Some r, Some r' => masked r r' | None, None => True | _, _ => False end.
Proof.
  induction 1 as [|r r' l l' H HF IH]; [done|]. unfold sel in *. simpl.
  assert (src_is id r = src_is id r') as -> by (unfold src_is; by destruct (mk_public _ _ H) as [-> _]). by destruct (src_is id r').
Qed.

Lemma masked_insert r r' l l' : masked r r' → Forall2 masked l l' → Forall2 masked (insert_by newer r l) (insert_by newer r' l').
Proof.
  intros H. induction 1 as [|x x' l l' Hx HF IH]; simpl; [by apply list.Forall2_cons|].
  assert (newer r x = newer r' x') as ->. { unfold newer. destruct (mk_public _ _ H) as (_ & _ & _ & _ & _ & _ & _ & _ & _ & ->), (mk_public _ _ Hx) as (_ & _ & _ & _ & _ & _ & _ & _ & _ & ->). done. }
  destruct (newer r' x'); repeat (apply list.Forall2_cons; split || done); by try apply list.Forall2_cons.
Qed.
Lemma masked_sort l l' : Forall2 masked l l' → Forall2 masked (sort_by newer l) (sort_by newer l').
Proof. induction 1; simpl; [constructor|by apply masked_insert]. Qed.

(** Reading a source or the list of sources, and asking for an installation
    page, answer the same whatever the keys, tokens and webhook secrets stored
    are, short of their being empty, and whatever fails. *)
Theorem credentials_masked s s' fs id : Forall2 masked (git_sources (ga_db s)) (git_sources (ga_db s')) →
  (List_ instance s fs).2 = (List_ instance s' fs).2 ∧ (Get instance id s fs).2 = (Get instance id s' fs).2 ∧ (InstallURL id s fs).2 = (InstallURL id s' fs).2.
Proof.
  intros HF. assert (Hd : ∀ l l', Forall2 masked l l' → toDTO instance <$> (scanSource <$> l) = toDTO instance <$> (scanSource <$> l')).
  { induction 1 as [|r r' l l' H _ IH]; [done|]. cbn. by rewrite (masked_dto _ _ H), IH. }
  assert (Hs := masked_sel id _ _ HF). split_and!.
  - unfold List_, db, GitSources.List_, calling, mbind, M_bind, bind, query, fallible, mret, M_ret, ret.
    destruct fs as [|[] fs]; simpl; [|done|]; by rewrite (Hd _ _ (masked_sort _ _ HF)).
  - unfold Get, with_source, db, GitSources.Get, calling, mbind, M_bind, bind, query, fallible, mret, M_ret, ret, throw.
    destruct fs as [|[] fs]; simpl; [|done|];
      (destruct (sel (src_is id) (git_sources (ga_db s))) as [r|], (sel (src_is id) (git_sources (ga_db s'))) as [r'|]; try done; simpl; by rewrite (masked_dto _ _ Hs)).
  - unfold InstallURL, with_source, db, GitSources.Get, calling, mbind, M_bind, bind, query, fallible, mret, M_ret, ret, throw.
    destruct fs as [|[] fs]; simpl; [|done|];
      (destruct (sel (src_is id) (git_sources (ga_db s))) as [r|], (sel (src_is id) (git_sources (ga_db s'))) as [r'|]; try done; simpl;
       destruct (mk_public _ _ Hs) as (_ & E2 & _ & _ & _ & _ & E7 & _); unfold InstallURLFor, is_app; simpl; rewrite E2, E7;
       destruct (negb _); [done|]; by destruct (_ =s "")).
Qed.
End Masked.

(** ** Examples *)

Module Examples.
#[local] Existing Instance ascii_only.
#[local] Existing Instance GitUrl.Examples.toy_url.
#[local] Existing Instance toy_aead.
#[local] Existing Instance toy_aead_laws.
#[local] Existing Instance GitSources.Examples.toy_hub.

Definition rand32 : string := "0123456789abcdefghijklmnopqrstuv".
Definition nonce12 : string := "abcdefghijkl".
Definition start : Api := mkApi ex_db GitSources.Examples.no_host [].
(** A MAC that shows its key and message; a payload whose text is the base URL. *)
Definition toy_hmac (k m : string) : string := k ^^ "." ^^ m.
Definition toy_encode (p : manifestStatePayload) : string := ms_BaseURL p.
Definition toy_decode (s : string) : option manifestStatePayload := Some (mkPayload s "" "").
Definition push : pushEvent := mkPush "refs/heads/main" "c0ffee" "https://github.com/acme/web.git" "git@github.com:acme/web.git" false.
Definition decode_push (s : string) : option pushEvent := if s =s "{}" then Some push else None.
Definition link_patch : UpdatePatch :=
  mkPatch None None false (Some "g1") false (Some "https://github.com/acme/web") None None None None None None None None None None None None None None
    None None None None None None None false None None None false None (Some "main") false None None None None.
Definition import : call := CImport "g1" 5 (Some rand32) (Some nonce12) (Some (mkImportReq "12" "acme-app" "pem" "")).
Definition link : call := CApp (Apps.CUpdate "a" link_patch).

Definition calm (l : list call) : list (call * list bool) := (λ c, (c, [])) <$> l.
Definition play (l : list call) (s : Api) : list (call * option (Reply Body)) * Api :=
  trace "key" (Some "prexel.test") (mkService true None None) toy_encode toy_decode toy_hmac decode_push (calm l) s.
Definition linked : Api := (play [import; link] start).2.

(** The body "{}" under the hexadecimal of its MAC. *)
Definition signature : string := "sha256=" ^^ EncodeHex (toy_hmac (EncodeHex rand32) "{}").
Definition started (id : string) : option string := Some ("dep-" ^^ id).

Lemma webhook_authentic_witness :
  authentic toy_hmac decode_push (ga_db linked) "g1" (Some "{}") signature "push" (EncodeHex rand32) "{}" push ∧
  runs (Handle toy_hmac decode_push started "g1" (Some "{}") signature "push") linked
    (mkApi (ga_db linked) (ga_host linked) [("a", mkDeployOptions "main" "c0ffee" "" "")])
    (Answer 202 (BMatched [("a", Some "dep-a")] "main" "push")).
Proof.
  assert (Ha : authentic toy_hmac decode_push (ga_db linked) "g1" (Some "{}") signature "push" (EncodeHex rand32) "{}" push).
  { split; try by vm_compute.
    - eexists. split; vm_compute; reflexivity.
    - eexists. split; [reflexivity|by vm_compute]. }
  split; [exact Ha|]. exact (proj2 (webhook_authentic toy_hmac decode_push started "g1" (Some "{}") signature "push" linked) _ _ _ Ha).
Defined.

Definition forged : call := CPush started "g1" (Some "{}") ("sha256=" ^^ EncodeHex (toy_hmac "guess" "{}")) "push".
Example forged_refused : snd <$> (play [forged] linked).1 = [Some (Refuse 401 "invalid_signature")].
Proof. by vm_compute. Qed.

Lemma empty_sources_wf : sources_wf "key" (ga_db start).
Proof. split; simpl; [constructor|by intros r ?%not_elem_of_nil|by intros r r' i ?%not_elem_of_nil|]. by intros a g ->%list_elem_of_singleton. Qed.

Lemma sources_typed_witness : Forall (λ c, draws_ok c.1) (calm [import; link]) ∧ sources_wf "key" (ga_db linked).
Proof.
  assert (Hd : Forall (λ c, draws_ok c.1) (calm [import; link])).
  { repeat constructor; simpl; intros b [= <-]; by vm_compute. }
  split; [exact Hd|]. exact (sources_typed "key" (Some "prexel.test") (mkService true None None) toy_encode toy_decode toy_hmac decode_push _ start Hd empty_sources_wf ex_db_wf).
Defined.

Definition ask : call := CManifestURL (Some rand32) (Some (mkManifestReq "https://prexel.test/" "" "")).
Definition asked : Api := (play [ask] start).2.
Definition convert (code : string) : option (Z * string * string) := if code =s "c" then Some (12%Z, "acme-app", "pem") else None.
Definition callback (id : string) : call := CManifestCallback convert id 5 (Some rand32) (Some nonce12) (EncodeHex rand32) "c".

Lemma manifest_state_once_witness : Forall (λ c, ¬ draws (EncodeHex rand32) c.1) (calm [callback "g2"]) ∧
  (snd <$> (play [callback "g1"; callback "g2"] asked).1) = [Some (Answer 200 (BPage (manifestCallbackHTML "g1" "acme-app" "https://github.com/apps/acme-app/installations/new")));
     Some (Refuse 400 "invalid_state")] ∧
  ∀ c reply, (c, reply) ∈ (play [callback "g2"] (play [callback "g1"] asked).2).1 → uses_state (EncodeHex rand32) c → ∃ code', reply = Some (Refuse 400 code').
Proof.
  assert (Hd : Forall (λ c, ¬ draws (EncodeHex rand32) c.1) (calm [callback "g2"])) by (repeat constructor; by intros []).
  split; [exact Hd|]. split; [by vm_compute|].
  assert (E : TrimSpace (EncodeHex rand32) = EncodeHex rand32) by (by vm_compute).
  pose proof (manifest_state_once "key" (Some "prexel.test") (mkService true None None) toy_encode toy_decode toy_hmac decode_push
    convert "g1" 5 (Some rand32) (Some nonce12) (EncodeHex rand32) "c" [] (calm [callback "g2"]) asked) as H. rewrite E in H. specialize (H Hd).
  match type of H with match ?m with _ => _ end => destruct m as [[s' fs'] r] eqn:Er end.
  assert (Es : s' = (play [callback "g1"] asked).2) by (apply (f_equal (λ x, x.1.1)) in Er; etransitivity; [exact (eq_sym Er)|]; by vm_compute). subst s'.
  destruct H as [[code' Hr]|[_ H]]; [|exact H]. exfalso. rewrite Hr in Er. apply (f_equal snd) in Er. by vm_compute in Er.
Defined.

(** The start page puts the state back: it opens as often as it is asked for. *)
Lemma start_reopens : option_map is_refusal <$> (snd <$> (play [CManifestStart (EncodeHex rand32); CManifestStart (EncodeHex rand32)] asked).1) = [Some false; Some false].
Proof. by vm_compute. Qed.

Definition token_row (id token : string) : GitSource := mkGitSource id "token" "PAT" None None None (Some token) None None None None None None 0.
Definition with_token_row (token : string) : Api := mkApi (on_git_sources (λ _, [token_row "t" token]) empty_db) GitSources.Examples.no_host [].
Lemma credentials_masked_witness : Forall2 masked (git_sources (ga_db (with_token_row "x"))) (git_sources (ga_db (with_token_row "y"))) ∧
  (Get None "t" (with_token_row "x") []).2 = (Get None "t" (with_token_row "y") []).2.
Proof.
  assert (HF : Forall2 masked (git_sources (ga_db (with_token_row "x"))) (git_sources (ga_db (with_token_row "y")))) by (repeat constructor; by vm_compute).
  split; [exact HF|]. exact (proj1 (proj2 (credentials_masked None _ _ [] "t" HF))).
Defined.
End Examples.
