(* ===== verification/AppsApi.v ===== *)
(** * App endpoints

    The handlers of internal/api/handler/app.go: the requests on apps with
    their authorization by team, the statistics of a container, the merged view
    of declared and running containers, and the projection of one container.
    Requests are decoded ([None]: invalid JSON); the user comes from the
    authentication middleware, the answers of the Docker daemon of the server,
    of the fetcher of compose files and of the clock are arguments. *)

From S2P Require Import Prelude Effects GoStrings Decimal Regex Schema Http Rbac RateLimit ComposeSpec Build Compose Apps.
From stdpp Require Import gmap.

(** ** Requests *)

Record healthCheckReq := mkHealthReq {
  hq_Enabled : option bool; hq_Path : string; hq_Port : option Z; hq_Method : string; hq_ReturnCode : Z;
  hq_Interval : Z; hq_Timeout : Z; hq_Retries : Z; hq_StartPeriod : Z;
}.
Definition toOpts (h : healthCheckReq) : HealthCheckOpts :=
  mkHealth (hq_Enabled h) (hq_Path h) (hq_Port h) (hq_Method h) (hq_ReturnCode h) (hq_Interval h) (hq_Timeout h) (hq_Retries h) (hq_StartPeriod h).

Record createAppReq := mkCreateAppReq {
  rq_Name : string; rq_Description : string; rq_TeamID : option string; rq_ServerID : string;
  rq_GitSourceID : option string; rq_RepoURL : option string; rq_Branch : string; rq_GitCommitSHA : option string;
  rq_BuildType : string; rq_DockerfilePath : string; rq_BuildContext : string; rq_DockerfileInline : option string;
  rq_ComposeFile : option string; rq_ComposeInline : option string; rq_ImageName : option string; rq_ImageTag : string;
  rq_InstallCommand : option string; rq_BuildCommand : option string; rq_StartCommand : option string;
  rq_PreDeployCommand : option string; rq_PostDeployCommand : option string; rq_Port : option Z; rq_HostPort : option Z;
  rq_HealthCheck : healthCheckReq; rq_LimitsMemory : option string; rq_LimitsCPUs : option string;
  rq_LimitsMemorySwap : option string; rq_LimitsMemorySwappiness : option Z; rq_LimitsMemoryReservation : option string;
  rq_LimitsCPUSet : option string; rq_LimitsCPUShares : option Z; rq_RestartPolicy : string;
  rq_AutoDeployBranch : option string; rq_BuildArgsInject : option bool; rq_BuildArgsSourceCommit : option bool;
  rq_DockerLabels : option (gmap string string); rq_EnvVars : option (gmap string string);
}.

Definition create_input (q : createAppReq) : CreateInput :=
  mkCreate (rq_Name q) (rq_Description q) (rq_TeamID q) (rq_ServerID q) (rq_GitSourceID q) (rq_RepoURL q) (rq_Branch q) (rq_GitCommitSHA q)
    (rq_BuildType q) (rq_DockerfilePath q) (rq_BuildContext q) (rq_DockerfileInline q) (rq_ComposeFile q) (rq_ComposeInline q)
    (rq_ImageName q) (rq_ImageTag q) (rq_InstallCommand q) (rq_BuildCommand q) (rq_StartCommand q) (rq_PreDeployCommand q)
    (rq_PostDeployCommand q) (rq_Port q) (rq_HostPort q) (toOpts (rq_HealthCheck q)) (rq_LimitsMemory q) (rq_LimitsCPUs q)
    (rq_LimitsMemorySwap q) (rq_LimitsMemorySwappiness q) (rq_LimitsMemoryReservation q) (rq_LimitsCPUSet q) (rq_LimitsCPUShares q)
    (rq_RestartPolicy q) (rq_AutoDeployBranch q) (rq_BuildArgsInject q) (rq_BuildArgsSourceCommit q) (rq_DockerLabels q) (rq_EnvVars q).

Record patchAppReq := mkPatchAppReq {
  pq_Description : option string; pq_TeamID : option string; pq_GitSourceID : option string; pq_RepoURL : option string;
  pq_Branch : option string; pq_GitCommitSHA : option string; pq_DockerfilePath : option string; pq_BuildContext : option string;
  pq_DockerfileInline : option string; pq_ComposeFile : option string; pq_ComposeInline : option string; pq_ImageName : option string;
  pq_ImageTag : option string; pq_InstallCommand : option string; pq_BuildCommand : option string; pq_StartCommand : option string;
  pq_PreDeployCommand : option string; pq_PostDeployCommand : option string; pq_Port : option Z; pq_HostPort : option Z;
  pq_HealthCheck : option healthCheckReq; pq_LimitsMemory : option string; pq_LimitsCPUs : option string;
  pq_LimitsMemorySwap : option string; pq_LimitsMemorySwappiness : option Z; pq_LimitsMemoryReservation : option string;
  pq_LimitsCPUSet : option string; pq_LimitsCPUShares : option Z; pq_RestartPolicy : option string;
  pq_AutoDeployBranch : option string; pq_BuildArgsInject : option bool; pq_BuildArgsSourceCommit : option bool;
  pq_DockerLabels : option (gmap string string); pq_EnvVars : option (gmap string string);
}.

(** [nulls]: the keys the JSON object maps to null. *)
Definition update_patch (q : patchAppReq) (nulls : list string) : UpdatePatch :=
  let null key := List.existsb (String.eqb key) nulls in
  mkPatch (pq_Description q) (pq_TeamID q) (null "team_id") (pq_GitSourceID q) false (pq_RepoURL q) (pq_Branch q) (pq_GitCommitSHA q)
    (pq_DockerfilePath q) (pq_BuildContext q) (pq_DockerfileInline q) (pq_ComposeFile q) (pq_ComposeInline q) (pq_ImageName q)
    (pq_ImageTag q) (pq_InstallCommand q) (pq_BuildCommand q) (pq_StartCommand q) (pq_PreDeployCommand q) (pq_PostDeployCommand q)
    (pq_Port q) (pq_HostPort q) (toOpts <$> pq_HealthCheck q) (pq_LimitsMemory q) (pq_LimitsCPUs q) (pq_LimitsMemorySwap q)
    (pq_LimitsMemorySwappiness q) (null "limits_memory_swappiness") (pq_LimitsMemoryReservation q) (pq_LimitsCPUSet q)
    (pq_LimitsCPUShares q) (null "limits_cpu_shares") (pq_RestartPolicy q) (pq_AutoDeployBranch q) (null "auto_deploy_branch")
    (pq_BuildArgsInject q) (pq_BuildArgsSourceCommit q) (pq_DockerLabels q) (pq_EnvVars q).

(** ** What Docker answers *)

Record ContainerState := mkState { st_Status : string; st_ExitCode : Z; st_StartedAt : string; st_FinishedAt : string }.
(** [cf_ExposedPorts]: [Port()] of each key, in the order of the map. *)
Record ContainerConfig := mkConfig {
  cf_Image : string; cf_Labels : gmap string string; cf_Env : list string; cf_ExposedPorts : list string;
  cf_Cmd : list string; cf_Entrypoint : list string;
}.
Record MountPoint := mkMountPoint { mp_Type : string; mp_Source : string; mp_Destination : string; mp_RW : bool }.
(** [ij_Networks]: name and address, in the order of the map.  The daemon always
    sends a state. *)
Record ContainerJSON := mkInspected {
  ij_Name : string; ij_Created : string; ij_State : ContainerState; ij_Config : option ContainerConfig;
  ij_Mounts : list MountPoint; ij_RestartPolicy : option string; ij_Networks : option (list (string * string));
}.
Record Container := mkContainer {
  ct_Names : list string; ct_Image : string; ct_State : string; ct_Labels : gmap string string; ct_PrivatePorts : list Z;
}.
Record StatsResponse := mkStats {
  ss_TotalUsage : Z; ss_PercpuUsage : list Z; ss_SystemUsage : Z; ss_OnlineCPUs : Z;
  ss_MemoryUsage : Z; ss_MemoryLimit : Z; ss_MemoryStats : gmap string Z;
}.

(** A client of the daemon; [ContainerList] with a label filter; the samples of
    a stream that decode, or [None] when the call fails. *)
Record Docker := mkDocker {
  dk_Inspect : string → option ContainerJSON;
  dk_List : string → option (list Container);
  dk_Stats : string → option (list StatsResponse);
}.

(** ** Answers *)

Record containerRow := mkRow {
  cr_Service : string; cr_Image : string; cr_State : string; cr_ContainerName : string; cr_Ports : list Z; cr_HasHealthcheck : bool;
}.
Record containerMount := mkCMount { cm_Type : string; cm_Source : string; cm_Destination : string; cm_ReadOnly : bool }.
Record ContainerDetailDTO := mkDetail {
  cd_Service : string; cd_ContainerName : string; cd_Image : string; cd_State : string; cd_Status : string; cd_ExitCode : Z;
  cd_Ports : list Z; cd_Env : gmap string string; cd_Mounts : list containerMount; cd_Labels : gmap string string;
  cd_Cmd : list string; cd_Entrypoint : list string; cd_Networks : list string; cd_IPAddress : string; cd_RestartPolicy : string;
  cd_CreatedAt : Z; cd_StartedAt : Z; cd_FinishedAt : Z; cd_Preview : bool;
}.
Record CleanupTask := mkCleanup {
  ck_AppID : string; ck_AppName : string; ck_ServerID : string; ck_Domains : list string; ck_DeploymentIDs : list string;
}.

(** ** Statistics *)

Section Stats.
Context `{Fl : Float64}.

Record containerStatsResp := mkStatsResp { sr_CPUPercent : f64; sr_MemoryUsedBytes : Z; sr_MemoryLimitBytes : Z; sr_SampledAt : Z }.

(** [x <= 0] and [x == 0] of numbers. *)
Definition not_positive (x : f64) : bool := negb (f_lt (f_of_Z 0) x).
Definition is_zero (x : f64) : bool := negb (f_lt (f_of_Z 0) x) && negb (f_lt x (f_of_Z 0)).

Definition computeCPUPercent (prev curr : StatsResponse) : f64 :=
  let cpuDelta := f_sub (f_of_Z (ss_TotalUsage curr)) (f_of_Z (ss_TotalUsage prev)) in
  let sysDelta := f_sub (f_of_Z (ss_SystemUsage curr)) (f_of_Z (ss_SystemUsage prev)) in
  if not_positive cpuDelta || not_positive sysDelta then f_of_Z 0
  else
    let cpus := f_of_Z (ss_OnlineCPUs curr) in
    let cpus := if is_zero cpus then f_of_Z (Z.of_nat (length (ss_PercpuUsage curr))) else cpus in
    let cpus := if is_zero cpus then f_of_Z 1 else cpus in
    f_mul (f_mul (f_div cpuDelta sysDelta) cpus) (f_of_Z 100).

Definition memoryUsage (s : StatsResponse) : Z :=
  let used := ss_MemoryUsage s in
  let less key := match ss_MemoryStats s !! key with Some c => if (c <=? used)%Z then Some (used - c)%Z else None | None => None end in
  match less "cache" with
  | Some n => n
  | None => default used (less "inactive_file")
  end.

Definition memoryOnlySnapshot (now : Z) (s : StatsResponse) : containerStatsResp :=
  mkStatsResp (f_of_Z 0) (memoryUsage s) (ss_MemoryLimit s) now.

(** [None]: the call failed, or no sample decoded. *)
Definition readContainerStats (now : Z) (samples : option (list StatsResponse)) : option containerStatsResp :=
  match samples with
  | None | Some [] => None
  | Some [prev] => Some (memoryOnlySnapshot now prev)
  | Some (prev :: curr :: _) => Some (mkStatsResp (computeCPUPercent prev curr) (memoryUsage curr) (ss_MemoryLimit curr) now)
  end.
End Stats.

(** ** Rows of declared and running containers *)

Definition imageOf (a : App) : string :=
  if a_build_type a =s "docker_image" then
    default "" (a_image_name a) ^^ ":" ^^ (if a_image_tag a =s "" then "latest" else a_image_tag a)
  else "".

Section Preview.
Context `{Uc : Unicode} `{YL : YamlLib}.
(** The orders of the maps of a compose file (see [ComposeSpec]). *)
Context (ord : list string → list string) (visit : list (string * rawService Node) → list (string * rawService Node)).

Definition preview_row (s : ComposeSpec.Service) : containerRow :=
  mkRow (sp_Name s) (sp_Image s) "preview" "" (sp_Ports s) (sp_HasHealthcheck s).

Definition composePreviewFromYAML (yaml : string) : list containerRow :=
  match Parse ord visit yaml with inl _ => [] | inr services => preview_row <$> services end.

Definition composePreview (a : App) : list containerRow :=
  if a_build_type a =s "docker_compose" then
    match a_compose_inline a with
    | Some y => if TrimSpace y =s "" then [] else composePreviewFromYAML y
    | None => []
    end
  else
    let ports := match a_port a with Some p => if (0 <? p)%Z then [p] else [] | None => [] end in
    [mkRow (a_name a) (imageOf a) "preview" "" ports false].

Definition preview_matches (a : App) (name : string) (p : containerRow) : bool :=
  (cr_Service p =s name) ||
  (let expected := "prexel-" ^^ a_name a in
   let expected := if negb (cr_Service p =s "") && negb (cr_Service p =s a_name a) then expected ^^ "-" ^^ cr_Service p else expected in
   expected =s name).

Definition matchContainerDetailPreview (a : App) (name : string) (previews : list containerRow) : option ContainerDetailDTO :=
  (λ p, mkDetail (cr_Service p) name (cr_Image p) "preview" "Pendente — sem container ativo" 0 (cr_Ports p) ∅ [] ∅ [] [] [] "" "" 0 0 0 true)
    <$> List.find (preview_matches a name) previews.

Definition containerDetailPreview (a : App) (name : string) : option ContainerDetailDTO := matchContainerDetailPreview a name (composePreview a).
Definition containerDetailPreviewFromYAML (a : App) (name yaml : string) : option ContainerDetailDTO :=
  matchContainerDetailPreview a name (composePreviewFromYAML yaml).
End Preview.

Definition label (labels : gmap string string) (key : string) : string := default "" (labels !! key).

Definition live_row (c : Container) : containerRow :=
  let service := if label (ct_Labels c) "prexel.service" =s "" then label (ct_Labels c) "prexel.app_name" else label (ct_Labels c) "prexel.service" in
  let name := match ct_Names c with [] => "" | n :: _ => TrimPrefix n "/" end in
  mkRow service (ct_Image c) (ct_State c) name (List.filter (λ p, (0 <? p)%Z) (ct_PrivatePorts c)) false.

Definition listLiveContainers (cli : Docker) (appID : string) : option (list containerRow) :=
  fmap (M := list) live_row <$> dk_List cli ("prexel.app_id=" ^^ appID).

(** *** The merge *)

Definition add_preview (by_ : gmap string containerRow) (p : containerRow) : gmap string containerRow := <[cr_Service p := p]> by_.

Definition merged_row (p l : containerRow) : containerRow :=
  mkRow (cr_Service p) (if cr_Image p =s "" then cr_Image l else cr_Image p) (cr_State l) (cr_ContainerName l)
    (if is_nil (cr_Ports p) then cr_Ports l else cr_Ports p) (cr_HasHealthcheck p).

Definition add_live (by_ : gmap string containerRow) (l : containerRow) : gmap string containerRow :=
  if cr_Service l =s "" then <["_" ^^ cr_ContainerName l := l]> by_
  else match by_ !! cr_Service l with
       | None => <[cr_Service l := l]> by_
       | Some p => <[cr_Service l := merged_row p l]> by_
       end.

Definition service_le (a b : containerRow) : bool := String.leb (cr_Service a) (cr_Service b).

(** [sort.Slice] leaves rows of one service in any order: [shuffle] is the order
    in which the rows come out of the map. *)
Definition mergeContainers (shuffle : list containerRow → list containerRow) (preview live : list containerRow) : list containerRow :=
  let by_ := foldl add_live (foldl add_preview ∅ preview) live in
  sort_by service_le (shuffle ((map_to_list by_).*2)).

(** ** One container *)

(** [int(d.Seconds())] and the like: exact while a duration in hours and its
    fraction fit a float64, which takes a span of months. *)
Definition second : Z := 1000000000.
Definition shortDuration (d : Z) : string :=
  if (d <? 60 * second)%Z then Itoa (Z.quot d second) ^^ "s"
  else if (d <? 3600 * second)%Z then Itoa (Z.quot d (60 * second)) ^^ "m"
  else if (d <? 24 * (3600 * second))%Z then Itoa (Z.quot d (3600 * second)) ^^ "h"
  else Itoa (Z.quot (Z.quot d (3600 * second)) 24) ^^ "d".

(** [strings.Title] on ASCII text. *)
Fixpoint title_from (prev : bool) (l : list ascii) : list ascii :=
  match l with
  | [] => []
  | c :: l =>
    let word := alnum (byte c) || (byte c =? 95)%Z in
    (if prev then c else if in_range 97 122 (byte c) then of_byte (byte c - 32) else c) :: title_from word l
  end.
Definition Title (s : string) : string := String.string_of_list_ascii (title_from false (String.list_ascii_of_string s)).

(** [fmt.Sscanf(raw, "%d", &n)]: an optional sign and the digits that follow;
    anything else leaves 0. *)
Fixpoint digits_of (l : list ascii) : list ascii :=
  match l with c :: l => if is_digit c then c :: digits_of l else [] | [] => [] end.
Definition scan_int (raw : string) : Z :=
  match String.list_ascii_of_string raw with
  | c :: l =>
    let sign := Ascii.eqb c "-"%char || Ascii.eqb c "+"%char in
    let text := if sign then c :: digits_of l else digits_of (c :: l) in
    default 0%Z (Atoi (String.string_of_list_ascii text))
  | [] => 0%Z
  end.

Section Inspect.
(** [time.Parse(time.RFC3339Nano, s)] in seconds; now, in nanoseconds. *)
Context (parse_time : string → option Z) (now : Z).

Definition parseDockerTime (s : string) : Z :=
  if (s =s "") || HasPrefix s "0001-" then 0%Z else default 0%Z (parse_time s).

Definition humanContainerStatus (s : ContainerState) : string :=
  let since t := shortDuration (now - t * second)%Z in
  if st_Status s =s "running" then
    let t := parseDockerTime (st_StartedAt s) in
    if (0 <? t)%Z then "Up " ^^ since t else "Running"
  else if st_Status s =s "exited" then
    let t := parseDockerTime (st_FinishedAt s) in
    if (0 <? t)%Z then "Exited (" ^^ Itoa (st_ExitCode s) ^^ ") " ^^ since t ^^ " ago" else "Exited (" ^^ Itoa (st_ExitCode s) ^^ ")"
  else if st_Status s =s "restarting" then "Restarting"
  else if st_Status s =s "paused" then "Paused"
  else if st_Status s =s "created" then "Created"
  else Title (st_Status s).

Definition containerDetailFromInspect (insp : ContainerJSON) (c : ContainerConfig) : ContainerDetailDTO :=
  let st := ij_State insp in
  let service := if label (cf_Labels c) "prexel.service" =s "" then label (cf_Labels c) "prexel.app_name" else label (cf_Labels c) "prexel.service" in
  let env := foldl (λ m e, <[(env_entry e).1 := (env_entry e).2]> m) (∅ : gmap string string) (cf_Env c) in
  let ports := sort_by Z.leb (List.filter (λ n, (0 <? n)%Z) (scan_int <$> cf_ExposedPorts c)) in
  let mounts := (λ m, mkCMount (mp_Type m) (mp_Source m) (mp_Destination m) (negb (mp_RW m))) <$> ij_Mounts insp in
  let networks := default [] (ij_Networks insp) in
  let ip := match List.find (λ n : string * string, negb (n.2 =s "")) networks with Some n => n.2 | None => "" end in
  mkDetail service (TrimPrefix (ij_Name insp) "/") (cf_Image c) (st_Status st) (humanContainerStatus st) (st_ExitCode st)
    ports env mounts (cf_Labels c) (cf_Cmd c) (cf_Entrypoint c) (sort_strings networks.*1) ip (default "" (ij_RestartPolicy insp))
    (parseDockerTime (ij_Created insp)) (parseDockerTime (st_StartedAt st)) (parseDockerTime (st_FinishedAt st)) false.
End Inspect.

(** The container is one of the app. *)
Definition containerBelongsToApp (id : string) (insp : ContainerJSON) : option ContainerConfig :=
  match ij_Config insp with
  | Some c => if label (cf_Labels c) "prexel.app_id" =s id then Some c else None
  | None => None
  end.

(** ** The handlers *)

Section Handlers.
Context `{Uc : Unicode} `{YL : YamlLib} `{Fl : Float64}.

Inductive Body :=
  | BApp (a : App) (tags : list string) | BApps (l : list (App * list string)) | BStats (s : containerStatsResp)
  | BContainers (l : list containerRow) | BDetail (d : ContainerDetailDTO).

(** The database, and the tasks the cleanup worker has taken. *)
Record Api := mkApi { aa_db : Db; aa_tasks : list CleanupTask }.
Definition put_db (d : Db) (s : Api) : Api := mkApi d (aa_tasks s).
Definition put_tasks (l : list CleanupTask) (s : Api) : Api := mkApi (aa_db s) l.

Local Abbreviation hM := (M Api Empty_set).
Definition db {E A} (m : M Db E A) : hM (E + A) := calling aa_db put_db m.

(** The service of apps; the Docker host of a server, if the service of servers
    is wired: its provider, then the client of the provider; the fetcher of
    compose files, if wired; whether the cleanup worker is. *)
Context (svc : Apps.Service) (servers : option (string → option (option Docker))) (composeFetcher : option (App → option string)) (with_cleanup : bool).
Context (ord : list string → list string) (visit : list (string * rawService Node) → list (string * rawService Node)).
Context (shuffle : list containerRow → list containerRow) (parse_time : string → option Z) (now : Z).
(** The user of the session. *)
Context (user : option string).

Definition appError {B} (e : AppErr) : Reply B :=
  match e with
  | ErrAppNotFound => Refuse 404 "not_found"
  | ErrNameInUse => Refuse 409 "name_in_use"
  | ErrServerNotConnected _ => Refuse 400 "bad_request"
  | ErrInvalid code =>
    if List.existsb (HasPrefix code) ["invalid_"; "missing_"; "server_not_connected"; "empty_value"; "git_sources_disabled"]
    then Refuse 400 "bad_request" else Refuse 500 "internal_error"
  | ErrAppDb _ => Refuse 500 "internal_error"
  end.

(** [if !h.authorizeTeam(...) { return }]. *)
Definition authorizeTeam {B} (permission : string) (teamID : option string) (k : hM (Reply B)) : hM (Reply B) :=
  match user with
  | None => mret (Refuse 401 "unauthorized")
  | Some u =>
    r ← db (CanAccessTeam u teamID permission);
    match r with
    | inl _ => mret (Refuse 500 "db_error")
    | inr true => k
    | inr false => mret (Refuse 403 "forbidden")
    end
  end.

Definition blank_opt (v : option string) : bool := match v with Some s => TrimSpace s =s "" | None => true end.
Definition sameOptionalString (a b : option string) : bool :=
  if blank_opt a then blank_opt b
  else match b with Some b => TrimSpace (default "" a) =s TrimSpace b | None => false end.

(** [target, err := h.svc.Get(id)] and the authorization on its team. *)
Definition with_app {B} (id permission : string) (k : App → list string → hM (Reply B)) : hM (Reply B) :=
  r ← db (Apps.Get svc id);
  match r with
  | inl e => mret (appError e)
  | inr x => authorizeTeam permission (a_team_id x.1) (k x.1 x.2)
  end.

Definition Create (id : string) (at_ : Z) (req : option createAppReq) : hM (Reply Body) :=
  match req with
  | None => mret (Refuse 400 "invalid_json")
  | Some req =>
    authorizeTeam PermAppsCreate (rq_TeamID req) (
      r ← db (Apps.Create svc id at_ (create_input req));
      mret (match r with inl e => appError e | inr a => Answer 201 (BApp a []) end : Reply Body))
  end.

Fixpoint accessible (u : string) (l : list (App * list string)) : hM (option (list (App * list string))) :=
  match l with
  | [] => mret (Some [])
  | x :: l =>
    r ← db (CanAccessTeam u (a_team_id x.1) PermAppsView);
    match r with
    | inl _ => mret None
    | inr true => rest ← accessible u l; mret (fmap (M := option) (cons x) rest)
    | inr false => accessible u l
    end
  end.

Definition List_ (server_id : string) : hM (Reply Body) :=
  r ← db (Apps.List_ svc server_id);
  match r, user with
  | inl _, _ => mret (Refuse 500 "db_error")
  | inr _, None => mret (Refuse 401 "unauthorized")
  | inr out, Some u =>
    filtered ← accessible u out;
    mret match filtered with None => Refuse 500 "db_error" | Some l => Answer 200 (BApps l) end
  end.

Definition Get (id : string) : hM (Reply Body) := with_app id PermAppsView (λ a tags, mret (Answer 200 (BApp a tags))).

Definition Patch (id : string) (req : option (patchAppReq * list string)) : hM (Reply Body) :=
  match req with
  | None => mret (Refuse 400 "invalid_json")
  | Some (req, nulls) =>
    with_app id PermAppsUpdate (λ current _,
      let update :=
        r ← db (Apps.Update svc id (update_patch req nulls));
        mret match r with inl e => appError e | inr a => Answer 200 (BApp a []) end in
      if is_some (pq_TeamID req) && negb (sameOptionalString (a_team_id current) (pq_TeamID req))
      then authorizeTeam PermAppsUpdate (pq_TeamID req) update else update)
  end.

(** The worker takes a task unless its queue is full; the error is dropped. *)
Definition Submit (t : CleanupTask) : hM unit := _ ← calling aa_tasks put_tasks (exec tt (λ l, l ++ [t])); mret tt.

Definition Delete (id : string) : hM (Reply Body) :=
  with_app id PermAppsDelete (λ target _,
    t ← db (GatherCleanupTargets (a_id target));
    let targets := match t with inl _ => mkTargets [] [] | inr t => t end in
    r ← db (Apps.Delete id);
    match r with
    | inl e => mret (appError e)
    | inr _ =>
      _ ← (if with_cleanup
           then Submit (mkCleanup (a_id target) (a_name target) (default "" (a_server_id target)) (ct_Domains targets) (ct_DeploymentIDs targets))
           else mret tt);
      mret (Bare 204)
    end).

Definition Stop (id : string) : hM (Reply Body) :=
  with_app id PermAppsUpdate (λ _ _,
    r ← db (Apps.Stop id);
    mret match r with inl e => appError e | inr _ => Bare 204 end).

(** [env]: the decoded body; [Some None] is a JSON null. *)
Definition SetEnvVars (id : string) (env : option (option (gmap string string))) : hM (Reply Body) :=
  with_app id PermAppsUpdate (λ target _,
    match env with
    | None => mret (Refuse 400 "invalid_json")
    | Some env =>
      r ← db (Apps.SetEnvVars (a_id target) env);
      mret match r with inl e => appError e | inr a => Answer 200 (BApp a []) end
    end).

(** *** Containers *)

(** [h.servers.Provider] and [provider.Client], with their refusals. *)
Definition client_of {B} (serverID : string) : Reply B + Docker :=
  match servers with
  | None => inl (Refuse 503 "no_server")
  | Some provider =>
    match provider serverID with
    | None => inl (Refuse 503 "provider_unavailable")
    | Some None => inl (Refuse 502 "docker_unreachable")
    | Some (Some cli) => inr cli
    end
  end.

Definition stats_of (cli : Docker) (name : string) : Reply Body :=
  match readContainerStats (now / second) (dk_Stats cli name) with
  | None => Refuse 502 "docker_stats_failed"
  | Some snap => Answer 200 (BStats snap)
  end.

Definition Stats (id : string) : hM (Reply Body) :=
  with_app id PermAppsView (λ target _, mret (
    match a_container_name target with
    | None => Refuse 404 "no_container"
    | Some name =>
      if TrimSpace name =s "" then Refuse 404 "no_container"
      else if is_none servers then Refuse 503 "stats_unavailable"
      else if blank_opt (a_server_id target) then Refuse 503 "no_server"
      else match client_of (default "" (a_server_id target)) with inl r => r | inr cli => stats_of cli name end
    end)).

(** The compose file of the repository, if there is a fetcher and it answers. *)
Definition fetched (a : App) : option string :=
  if a_build_type a =s "docker_compose" then
    match composeFetcher with
    | Some fetch => match fetch a with Some yaml => if yaml =s "" then None else Some yaml | None => None end
    | None => None
    end
  else None.

Definition previews (a : App) : list containerRow :=
  match composePreview ord visit a with
  | [] => match fetched a with Some yaml => composePreviewFromYAML ord visit yaml | None => [] end
  | l => l
  end.

Definition lives (a : App) : list containerRow :=
  if blank_opt (a_server_id a) then []
  else match client_of (B := Body) (default "" (a_server_id a)) with
       | inl _ => []
       | inr cli => default [] (listLiveContainers cli (a_id a))
       end.

Definition Containers (id : string) : hM (Reply Body) :=
  with_app id PermAppsView (λ target _, mret (Answer 200 (BContainers (mergeContainers shuffle (previews target) (lives target))))).

(** The start both requests on a container share. *)
Definition with_container (id name : string) (k : App → Docker → string → Reply Body) : hM (Reply Body) :=
  let containerName := TrimSpace name in
  if containerName =s "" then mret (Refuse 400 "missing_container_name")
  else
    with_app id PermAppsView (λ target _, mret (
      if blank_opt (a_server_id target) then Refuse 503 "no_server"
      else match client_of (default "" (a_server_id target)) with inl r => r | inr cli => k target cli containerName end)).

Definition detail_preview (a : App) (name : string) : option ContainerDetailDTO :=
  match containerDetailPreview ord visit a name with
  | Some p => Some p
  | None => match fetched a with Some yaml => containerDetailPreviewFromYAML ord visit a name yaml | None => None end
  end.

Definition ContainerDetail (id name : string) : hM (Reply Body) :=
  with_container id name (λ target cli containerName,
    match dk_Inspect cli containerName with
    | None => match detail_preview target containerName with Some p => Answer 200 (BDetail p) | None => Refuse 404 "container_not_found" end
    | Some insp =>
      match containerBelongsToApp (a_id target) insp with
      | None => Refuse 404 "container_not_found"
      | Some c => Answer 200 (BDetail (containerDetailFromInspect parse_time now insp c))
      end
    end).

Definition ContainerStats (id name : string) : hM (Reply Body) :=
  with_container id name (λ target cli containerName,
    match dk_Inspect cli containerName with
    | None => Refuse 404 "container_not_found"
    | Some insp =>
      match containerBelongsToApp (a_id target) insp with
      | None => Refuse 404 "container_not_found"
      | Some _ => if negb (EqualFold (st_Status (ij_State insp)) "running") then Refuse 409 "container_not_running" else stats_of cli containerName
      end
    end).

(** *** Requests *)

Inductive request :=
  | RCreate (id : string) (at_ : Z) (req : option createAppReq) | RList (server_id : string) | RGet (id : string)
  | RPatch (id : string) (req : option (patchAppReq * list string)) | RDelete (id : string) | RStop (id : string)
  | RSetEnvVars (id : string) (env : option (option (gmap string string)))
  | RStats (id : string) | RContainers (id : string) | RContainerDetail (id name : string) | RContainerStats (id name : string).

Definition serve (r : request) : hM (Reply Body) :=
  match r with
  | RCreate id at_ req => Create id at_ req
  | RList server_id => List_ server_id
  | RGet id => Get id
  | RPatch id req => Patch id req
  | RDelete id => Delete id
  | RStop id => Stop id
  | RSetEnvVars id env => SetEnvVars id env
  | RStats id => Stats id
  | RContainers id => Containers id
  | RContainerDetail id name => ContainerDetail id name
  | RContainerStats id name => ContainerStats id name
  end.
End Handlers.

(** ** The merged view *)

Definition declared (previews : list containerRow) (row : containerRow) : Prop := row ∈ previews.
Definition running_as (lives : list containerRow) (row : containerRow) : Prop :=
  ∃ l, l ∈ lives ∧ cr_State row = cr_State l ∧ cr_ContainerName row = cr_ContainerName l.

Lemma merge_rows shuffle previews lives row : (∀ l, Permutation (shuffle l) l) →
  row ∈ mergeContainers shuffle previews lives → row ∈ previews ∨ running_as lives row.
Proof.
  intros Hs. unfold mergeContainers. rewrite sort_by_elem, (Hs _), list_elem_of_fmap.
  intros ([k x] & -> & Hk%elem_of_map_to_list). simpl. revert k x Hk.
  change (map_Forall (λ _ x, x ∈ previews ∨ running_as lives x) (foldl add_live (foldl add_preview ∅ previews) lives)).
  assert (H0 : map_Forall (λ _ x, x ∈ previews ∨ running_as lives x) (foldl add_preview ∅ previews)).
  { assert (HG : ∀ l m, l ⊆ previews → map_Forall (λ _ x, x ∈ previews ∨ running_as lives x) m →
      map_Forall (λ _ x, x ∈ previews ∨ running_as lives x) (foldl add_preview m l)); [|apply HG; [done|apply map_Forall_empty]].
    induction l as [|p l IH]; intros m Hl Hm; [done|]. simpl. apply IH; [set_solver|].
    apply map_Forall_insert_2; [left; set_solver|done]. }
  assert (HG : ∀ l m, l ⊆ lives → map_Forall (λ _ x, x ∈ previews ∨ running_as lives x) m →
    map_Forall (λ _ x, x ∈ previews ∨ running_as lives x) (foldl add_live m l)); [|by apply HG].
  induction l as [|p l IH]; intros m Hl Hm; [done|]. simpl. apply IH; [set_solver|].
  assert (Hp : p ∈ lives) by set_solver. unfold add_live.
  destruct (cr_Service p =s ""); [|destruct (m !! cr_Service p)]; apply map_Forall_insert_2; auto; right; by exists p.
Qed.

(** Every declared service and every running one has its row, in order. *)
Definition has_row (k : string) (m : gmap string containerRow) : Prop := is_Some (m !! k).

Lemma has_row_keep {A} (f : gmap string containerRow → A → gmap string containerRow) k l m :
  (∀ m x, has_row k m → has_row k (f m x)) → has_row k m → has_row k (foldl f m l).
Proof. intros Hf. revert m. induction l as [|x l IH]; intros m Hm; [done|]. simpl. by apply IH, Hf. Qed.

Lemma has_row_insert k k' x m : has_row k m → has_row k (<[k' := x]> m).
Proof. intros [y Hy]. unfold has_row. destruct (decide (k = k')) as [->|Hn]; [rewrite lookup_insert_eq; by eexists|rewrite lookup_insert_ne by done; by eexists]. Qed.

Lemma add_live_keeps k m x : has_row k m → has_row k (add_live m x).
Proof. intros H. unfold add_live. destruct (_ =s _); [|destruct (m !! _)]; by apply has_row_insert. Qed.

Lemma has_row_mem {A} (f : gmap string containerRow → A → gmap string containerRow) (key : A → string) (P : A → Prop) x l m :
  (∀ k m x, has_row k m → has_row k (f m x)) → (∀ m x, P x → has_row (key x) (f m x)) → x ∈ l → P x → has_row (key x) (foldl f m l).
Proof.
  intros Hk Hf Hx HP. revert m. induction l as [|y l IH]; intros m; [by apply elem_of_nil in Hx|].
  apply elem_of_cons in Hx as [<-|Hx]; simpl; [|by apply IH]. apply has_row_keep; [by intros; apply Hk|by apply Hf].
Qed.

(** The rows are keyed by their service, the containers without one apart. *)
Definition keyed_by (m : gmap string containerRow) : Prop := map_Forall (λ k x, cr_Service x = k ∨ cr_Service x = "") m.

Lemma merged_keyed previews lives : keyed_by (foldl add_live (foldl add_preview ∅ previews) lives).
Proof.
  assert (HG : ∀ {A} (f : gmap string containerRow → A → gmap string containerRow) l m, (∀ m x, keyed_by m → keyed_by (f m x)) → keyed_by m → keyed_by (foldl f m l)).
  { intros A f l. induction l as [|x l IH]; intros m Hf Hm; [done|]. simpl. by apply IH; [|apply Hf]. }
  apply HG; [|apply HG; [|apply map_Forall_empty]].
  - intros m l Hm. unfold add_live. destruct (cr_Service l =s "") eqn:E; [apply map_Forall_insert_2; [right; by apply String.eqb_eq|done]|].
    destruct (m !! cr_Service l) as [p|] eqn:Ep; apply map_Forall_insert_2; auto; simpl. by apply (Hm _ _ Ep).
  - intros m p Hm. apply map_Forall_insert_2; auto.
Qed.

Lemma merge_complete shuffle previews lives k : (∀ l, Permutation (shuffle l) l) → k ≠ "" →
  (∃ x, x ∈ previews ++ lives ∧ cr_Service x = k) → ∃ row, row ∈ mergeContainers shuffle previews lives ∧ (cr_Service row = k ∨ cr_Service row = "").
Proof.
  intros Hs Hk (x & Hx & Ek). set (m := foldl add_live (foldl add_preview ∅ previews) lives).
  assert (Hm : has_row k m).
  { apply elem_of_app in Hx as [Hx|Hx].
    - apply has_row_keep; [by intros; apply add_live_keeps|]. rewrite <- Ek.
      apply (has_row_mem add_preview cr_Service (λ _, True)); [intros; by apply has_row_insert| |done|done].
      intros m' y _. unfold has_row, add_preview. rewrite lookup_insert_eq. by eexists.
    - rewrite <- Ek. apply (has_row_mem add_live cr_Service (λ y, cr_Service y ≠ "")); [intros; by apply add_live_keeps| |done|by rewrite Ek].
      intros m' y Hy. unfold has_row, add_live. rewrite (proj2 (String.eqb_neq _ _) Hy). destruct (m' !! _); rewrite lookup_insert_eq; by eexists. }
  destruct Hm as [row Hrow]. exists row. split; [|by apply (merged_keyed previews lives) in Hrow].
  unfold mergeContainers. rewrite sort_by_elem, (Hs _), list_elem_of_fmap. exists (k, row). split; [done|]. by apply elem_of_map_to_list.
Qed.

(** ** Authorization *)

Section Authorized.
Context `{Uc : Unicode} `{YL : YamlLib} `{Fl : Float64}.
Context (svc : Apps.Service) (servers : option (string → option (option Docker))) (composeFetcher : option (App → option string)) (with_cleanup : bool).
Context (ord : list string → list string) (visit : list (string * rawService Node) → list (string * rawService Node)).
Context (shuffle : list containerRow → list containerRow) (parse_time : string → option Z) (now : Z) (user : option string).

(** What the daemon documents of a label filter, for every server. *)
Definition filters_labels : Prop := ∀ provider id cli app_id l c, servers = Some provider → provider id = Some (Some cli) →
  dk_List cli ("prexel.app_id=" ^^ app_id) = Some l → c ∈ l → label (ct_Labels c) "prexel.app_id" = app_id.

Local Abbreviation hM := (M Api Empty_set).

(** The app a path names, by id or by name. *)
Definition called (d : Db) (id : string) (a : App) : Prop :=
  a ∈ apps d ∧ if MatchString uuidRegex (TrimSpace id) then a_id a = TrimSpace id else a_name a = TrimSpace id.

(** Ids are UUIDs, as [uuid.NewString] makes them. *)
Definition ids_uuid (d : Db) : Prop := ∀ a, a ∈ apps d → MatchString uuidRegex (a_id a) = true.

Lemma uuid_trim s : MatchString uuidRegex s = true → TrimSpace s = s.
Proof.
  intros Hm%MatchString_spec. apply TrimSpace_id. eapply within_all; [|exact Hm].
  assert (Hh : ∀ c, hex_digit (byte c) = true → graphic (byte c) = true).
  { intros c. unfold hex_digit, d09, graphic, in_range. rewrite !orb_true_iff, !andb_true_iff, !Z.leb_le. lia. }
  unfold uuidRegex. cbn. repeat split; try exact Hh; by intros c ->%Z.eqb_eq.
Qed.

Lemma called_id d id a x : apps_wf d → ids_uuid d → called d id a → x ∈ apps d → a_id x = id → a = x ∧ id = a_id a.
Proof.
  intros Hwf Hu [Ha Hc] Hx <-. rewrite uuid_trim, (Hu x Hx) in Hc by by apply Hu.
  split; [|done]. by apply (NoDup_fmap_inj a_id (apps d)); [apply Hwf| | |].
Qed.

(** *** The steps every handler shares *)

Lemma app_db_wp {E A B} (m : M Db E A) (k : E + A → hM (Reply B)) (P : Db → E + A → Prop) Q s :
  wp m P (aa_db s) → (∀ d r, P d r → wp (k r) Q (put_db d s)) → wp (r ← db m; k r) Q s.
Proof. intros Hm Hk. apply wp_bind, wp_calling. eapply wp_mono; [exact Hm|]. intros d r HP. by apply Hk. Qed.

Lemma put_same s : put_db (aa_db s) s = s.
Proof. by destruct s. Qed.

Lemma app_error_refuses {B} e : ∃ st code, appError (B := B) e = Refuse st code.
Proof. destruct e; simpl; try (by repeat eexists). destruct (_ || _); by repeat eexists. Qed.

Lemma get_called id d : wp (Apps.Get svc id) (λ d' r, d' = d ∧ match r with inr x => called d id x.1 | inl _ => True end) d.
Proof.
  assert (Hrow : ∀ p, wp (row ← query (ErrAppDb "get") (λ d, sel p (apps d)); found row)
    (λ d' r, d' = d ∧ match r with inr a => a ∈ apps d ∧ p a = true | inl _ => True end) d).
  { intros p. apply wp_bind, wp_query; [done|]. destruct (sel p (apps d)) as [a|] eqn:E; [apply wp_ret|by apply wp_throw].
    split; [done|]. by apply sel_Some in E. }
  unfold Apps.Get, called. apply wp_if; intros E; [by apply wp_throw|]. apply wp_bind.
  assert (Hg : wp (if MatchString uuidRegex (TrimSpace id) then get (TrimSpace id) else getByName (TrimSpace id))
    (λ d' r, d' = d ∧ match r with inr a => called d id a | inl _ => True end) d).
  { unfold called. destruct (MatchString uuidRegex (TrimSpace id)); eapply wp_mono; try apply Hrow; intros d' [e|a] [-> H]; (split; [done|]); try done;
      destruct H as [Ha H%String.eqb_eq]; done. }
  eapply wp_mono; [exact Hg|]. intros d' [e|a] [-> Ha]; [done|]. unfold populateTags. destruct (sv_tags svc) as [t|]; [|by apply wp_ret].
  apply wp_bind, wp_attempt. intros fs. rewrite (ForApp_reads (TagLister := t)). by apply wp_ret.
Qed.

(** The postcondition of a refusal. *)
Definition refused {B} (s s' : Api) (r : Empty_set + Reply B) : Prop := s' = s ∧ ∃ st code, r = inr (Refuse st code).

Lemma authorize_wp {B} perm team (k : hM (Reply B)) Q s : (∀ r, refused s s r → Q s r) →
  (∀ u, user = Some u → may_access (aa_db s) u team perm = true → wp k Q s) → wp (authorizeTeam user perm team k) Q s.
Proof.
  intros Hr Hk. assert (HR : ∀ st code, Q s (inr (Refuse st code))) by (intros; apply Hr; split; [done|by repeat eexists]).
  unfold authorizeTeam. destruct user as [u|]; [|by apply wp_ret].
  eapply app_db_wp; [apply can_access_team_wp|]. intros d [e|b] [-> Hb]; rewrite put_same; [by apply wp_ret|].
  specialize (Hb b eq_refl). destruct b; [by apply (Hk u)|by apply wp_ret].
Qed.

Lemma with_app_wp {B} id perm (k : App → list string → hM (Reply B)) Q s : (∀ r, refused s s r → Q s r) →
  (∀ u a tags, user = Some u → called (aa_db s) id a → may_access (aa_db s) u (a_team_id a) perm = true → wp (k a tags) Q s) →
  wp (with_app svc user id perm k) Q s.
Proof.
  intros Hr Hk. eapply app_db_wp; [apply get_called|]. intros d [e|[a tags]] [-> Ha]; rewrite put_same.
  - apply wp_ret, Hr. destruct (app_error_refuses (B := B) e) as (st & code & ->). split; [done|by repeat eexists].
  - apply authorize_wp; [done|]. intros u Hu Hm. by apply (Hk u a tags).
Qed.

(** Both spellings of a team ask for the same rights. *)
Lemma same_team_access d u a b p : sameOptionalString a b = true → may_access d u a p = may_access d u b p.
Proof.
  unfold sameOptionalString, may_access, active_user, blank_opt. intros H. destruct (sel _ (users d)) as [x|]; [|done].
  assert (E : match a with Some t => negb (TrimSpace t =s "") && team_perm d (TrimSpace t) u p | None => false end =
              match b with Some t => negb (TrimSpace t =s "") && team_perm d (TrimSpace t) u p | None => false end); [|by rewrite E].
  destruct a as [a|], b as [b|]; simpl in *; try done.
  - destruct (TrimSpace a =s "") eqn:Ea; [by rewrite H|]. apply String.eqb_eq in H. rewrite <- H. by rewrite Ea.
  - by destruct (TrimSpace a =s "").
  - by rewrite H.
Qed.

(** *** What an authorized request does *)

Definition reaches (a : App) (cli : Docker) : Prop :=
  ∃ provider, servers = Some provider ∧ provider (default "" (a_server_id a)) = Some (Some cli).

(** A container on the server of the app that carries the label of the app. *)
Definition own (a : App) (row : containerRow) : Prop :=
  ∃ cli l c, reaches a cli ∧ dk_List cli ("prexel.app_id=" ^^ a_id a) = Some l ∧ c ∈ l ∧ label (ct_Labels c) "prexel.app_id" = a_id a ∧
    cr_State row = ct_State c ∧ cr_ContainerName row = cr_ContainerName (live_row c).

(** The statistics of a container of the server of the app. *)
Definition measured (a : App) (name : string) (reply : Reply Body) : Prop :=
  ∃ cli samples snap, reaches a cli ∧ dk_Stats cli name = Some samples ∧ readContainerStats (now / second) (Some samples) = Some snap ∧ reply = Answer 200 (BStats snap).

Definition inspected (a : App) (name : string) (c : ContainerConfig) (insp : ContainerJSON) : Prop :=
  ∃ cli, reaches a cli ∧ dk_Inspect cli (TrimSpace name) = Some insp ∧ ij_Config insp = Some c ∧ label (cf_Labels c) "prexel.app_id" = a_id a.

Definition performs (u : string) (r : request) (s s' : Api) (reply : Reply Body) : Prop :=
  let d := aa_db s in let d' := aa_db s' in
  let on id perm P := ∃ a, called d id a ∧ may_access d u (a_team_id a) perm = true ∧ P a in
  let reads id P := on id PermAppsView (λ a, s' = s ∧ P a) in
  match r with
  | RCreate id at_ (Some q) =>
    may_access d u (rq_TeamID q) PermAppsCreate = true ∧ aa_tasks s' = aa_tasks s ∧
    (d' = d ∨ ∃ a, a_id a = id ∧ a_team_id a = trimmedPtr (rq_TeamID q) ∧ d' = on_apps (λ l, l ++ [a]) d)
  | RList server => s' = s ∧ ∃ l, reply = Answer 200 (BApps l) ∧ ∀ a, a ∈ l.*1 ↔
      a ∈ apps d ∧ (TrimSpace server = "" ∨ a_server_id a = Some (TrimSpace server)) ∧ may_access d u (a_team_id a) PermAppsView = true
  | RGet id => reads id (λ a, ∃ tags, reply = Answer 200 (BApp a tags))
  | RPatch id (Some (q, nulls)) => on id PermAppsUpdate (λ a,
      (∀ t, pq_TeamID q = Some t → may_access d u (Some t) PermAppsUpdate = true) ∧ aa_tasks s' = aa_tasks s ∧
      (d' = d ∨ ∃ a', updated (update_patch q nulls) a a' ∧ d' = on_apps (upd (app_is (a_id a)) (λ _, a')) d))
  | RDelete id => on id PermAppsDelete (λ a, reply = Bare 204 ∧ d' = delete_app (a_id a) d ∧
      (aa_tasks s' = aa_tasks s ∨ ∃ t, aa_tasks s' = aa_tasks s ++ [t] ∧ ck_AppID t = a_id a ∧ ck_AppName t = a_name a ∧
         targets_complete (a_id a) d d' (mkTargets (ck_Domains t) (ck_DeploymentIDs t))))
  | RStop id => on id PermAppsUpdate (λ a, aa_tasks s' = aa_tasks s ∧ (d' = d ∨ d' = on_apps (upd (app_is (a_id a)) (set_app_status "stopped")) d))
  | RSetEnvVars id (Some env) => on id PermAppsUpdate (λ a, aa_tasks s' = aa_tasks s ∧
      (d' = d ∨ validateEnvMap (default ∅ env) = inr tt ∧ d' = on_apps (upd (app_is (a_id a)) (set_env (default ∅ env))) d))
  | RStats id => reads id (λ a, ∃ name, a_container_name a = Some name ∧ measured a name reply)
  | RContainers id => reads id (λ a, ∃ rows, reply = Answer 200 (BContainers rows) ∧
      (∀ row, row ∈ rows → row ∈ previews composeFetcher ord visit a ∨ own a row) ∧
      (∀ p, p ∈ previews composeFetcher ord visit a → cr_Service p ≠ "" → ∃ row, row ∈ rows ∧ (cr_Service row = cr_Service p ∨ cr_Service row = "")))
  | RContainerDetail id name => reads id (λ a, ∃ x, reply = Answer 200 (BDetail x) ∧
      (cd_Preview x = true ∨ ∃ c insp, inspected a name c insp ∧ x = containerDetailFromInspect parse_time now insp c))
  | RContainerStats id name => reads id (λ a, ∃ c insp, inspected a name c insp ∧ measured a (TrimSpace name) reply)
  | _ => False
  end.

Definition outcome (r : request) (s s' : Api) (out : Empty_set + Reply Body) : Prop :=
  refused s s' out ∨ ∃ u reply, user = Some u ∧ out = inr reply ∧ performs u r s s' reply.

Lemma refusal_ok r s out : refused s s out → outcome r s s out.
Proof. by left. Qed.
Lemma refuse_wp {B} s st code : refused (B := B) s s (inr (Refuse st code)).
Proof. split; [done|by repeat eexists]. Qed.
Lemma app_error_ok {B} s e : refused (B := B) s s (inr (appError e)).
Proof. destruct (app_error_refuses (B := B) e) as (st & code & ->). split; [done|by repeat eexists]. Qed.

(** *** Writing requests *)

Lemma create_ok id at_ req s : wp (Create svc user id at_ req) (outcome (RCreate id at_ req) s) s.
Proof.
  destruct req as [q|]; [|apply wp_ret; left; by apply refuse_wp]. apply authorize_wp; [apply refusal_ok|]. intros u Hu Hm.
  eapply app_db_wp; [apply create_effect|]. intros d [e|a] Hd; apply wp_ret; right; exists u; eexists; (split; [done|]); (split; [done|]); simpl; split_and!; try done.
  all: destruct Hd as [[-> _]|(srv & hc & _ & _ & _ & Hn & _ & _ & -> & _)]; [by left|right]; eexists; split_and!; [| |done].
  all: unfold new_app; by destruct (limits_of _ _).
Qed.

Lemma patch_req_ok id req s : apps_wf (aa_db s) → ids_uuid (aa_db s) → wp (Patch svc user id req) (outcome (RPatch id req) s) s.
Proof.
  intros Hwf Hu. destruct req as [[q nulls]|]; [|apply wp_ret; left; by apply refuse_wp].
  apply with_app_wp; [apply refusal_ok|]. intros u a tags Eu Hc Hm. cbv zeta.
  assert (HW : (∀ t, pq_TeamID q = Some t → may_access (aa_db s) u (Some t) PermAppsUpdate = true) →
    wp (r ← db (Apps.Update svc id (update_patch q nulls)); mret (match r with inl e => appError e | inr a => Answer 200 (BApp a []) end : Reply Body))
      (outcome (RPatch id (Some (q, nulls))) s) s).
  { intros Ht. eapply app_db_wp; [by apply update_effect|]. intros d r Hd. apply wp_ret. right. exists u. eexists. split; [done|]. split; [done|].
    exists a. split_and!; try done. destruct Hd as [[-> _]|(x & a' & Hx & Hid & Hup & _ & -> & _)]; [by left|right].
    destruct (called_id _ _ _ _ Hwf Hu Hc Hx Hid) as [<- ->]. by exists a'. }
  destruct (pq_TeamID q) as [t|] eqn:Et; [|by apply HW]. simpl. destruct (sameOptionalString (a_team_id a) (Some t)) eqn:Es; simpl.
  - apply HW. intros ? [= <-]. by rewrite <- (same_team_access _ _ _ _ _ Es).
  - apply authorize_wp; [apply refusal_ok|]. intros u' Eu' Hm'. apply HW. intros ? [= <-]. congruence.
Qed.

Lemma app_stop_wp id d : wp (Apps.Stop id) (λ d' _, d' = d ∨ (∃ a, a ∈ apps d ∧ a_id a = id) ∧ d' = on_apps (upd (app_is id) (set_app_status "stopped")) d) d.
Proof.
  unfold Apps.Stop, get. apply wp_bind, wp_bind, wp_query; [by left|]. destruct (sel _ (apps d)) as [a|] eqn:E; [apply wp_ret|by apply wp_throw; left].
  apply sel_Some in E as [Ha E%String.eqb_eq]. destruct (_ =s _); [apply wp_ret; by left|]. apply wp_exec; [by left|]. right. split; [by exists a|done].
Qed.

Lemma stop_ok id s : apps_wf (aa_db s) → ids_uuid (aa_db s) → wp (Stop svc user id) (outcome (RStop id) s) s.
Proof.
  intros Hwf Hu. apply with_app_wp; [apply refusal_ok|]. intros u a tags Eu Hc Hm. eapply app_db_wp; [apply app_stop_wp|].
  intros d r Hd. apply wp_ret. right. exists u. eexists. split; [done|]. split; [done|]. exists a. split_and!; try done.
  destruct Hd as [->|[(x & Hx & Hid) ->]]; [by left|right]. by destruct (called_id _ _ _ _ Hwf Hu Hc Hx Hid) as [_ ->].
Qed.

Lemma set_env_wp id env d : wp (Apps.SetEnvVars id env) (λ d' _, d' = d ∨ validateEnvMap (default ∅ env) = inr tt ∧ d' = on_apps (upd (app_is id) (set_env (default ∅ env))) d) d.
Proof.
  unfold Apps.SetEnvVars, get, updateEnvVars, update_row. apply wp_bind, wp_of_result. destruct (validateEnvMap _) as [e|[]] eqn:Hv; [by left|].
  apply wp_bind, wp_bind, wp_query; [by left|]. destruct (sel _ (apps d)) as [a|]; [apply wp_ret|by apply wp_throw; left].
  apply wp_bind, wp_bind, wp_checked; [by left|]. destruct (List.forallb _ _); [|by left].
  destruct (_ =? 0)%nat; [apply wp_throw; by right|apply wp_ret]. apply wp_bind, wp_query; [by right|]. destruct (sel _ _); [apply wp_ret|apply wp_throw]; by right.
Qed.

Lemma set_env_ok id env s : wp (SetEnvVars svc user id env) (outcome (RSetEnvVars id env) s) s.
Proof.
  apply with_app_wp; [apply refusal_ok|]. intros u a tags Eu Hc Hm. destruct env as [env|]; [|apply wp_ret; left; by apply refuse_wp].
  eapply app_db_wp; [apply set_env_wp|]. intros d r Hd. apply wp_ret. right. exists u. eexists. split; [done|]. split; [done|]. by exists a.
Qed.

Lemma delete_ok id s : apps_wf (aa_db s) → ids_uuid (aa_db s) → wp (Delete svc with_cleanup user id) (outcome (RDelete id) s) s.
Proof.
  intros Hwf Hu. apply with_app_wp; [apply refusal_ok|]. intros u a tags Eu Hc Hm. eapply app_db_wp; [apply gather_wp|].
  intros d r [-> (t & -> & Ht)]. rewrite put_same. eapply app_db_wp; [apply delete_app_wp|]. intros d [e|[]] Hd.
  { rewrite Hd, put_same. apply wp_ret. left. apply app_error_ok. }
  destruct Hd as [-> (x & Hx & Hid)]. destruct (called_id _ _ _ _ Hwf Hu Hc Hx Hid) as [<- ->].
  assert (HP : ∀ s', aa_db s' = delete_app (a_id a) (aa_db s) → (aa_tasks s' = aa_tasks s ∨
     aa_tasks s' = aa_tasks s ++ [mkCleanup (a_id a) (a_name a) (default "" (a_server_id a)) (ct_Domains t) (ct_DeploymentIDs t)]) →
     outcome (RDelete (a_id a)) s s' (inr (Bare 204))).
  { intros s' Ed Et. right. exists u, (Bare 204). split; [done|]. split; [done|]. exists a. split_and!; try done. rewrite Ed.
    destruct Et as [Et|Et]; [by left|right]. eexists. split_and!; [exact Et|done|done|]. by destruct t. }
  apply wp_bind. destruct with_cleanup; [|apply wp_ret, wp_ret, HP; [done|by left]].
  apply wp_bind, wp_calling, wp_exec; apply wp_ret, wp_ret, HP; simpl; auto.
Qed.

(** *** Reading requests *)

Lemma populate_wp l d : wp (populate_all svc l) (λ d' r, d' = d ∧ match r with inr xs => xs.*1 = l | inl _ => True end) d.
Proof.
  induction l as [|a l IH]; simpl; [by apply wp_ret|]. apply wp_bind. unfold populateTags.
  assert (HK : ∀ x, x.1 = a → wp (xs ← populate_all svc l; mret (x :: xs)) (λ d' r, d' = d ∧ match r with inr xs => xs.*1 = a :: l | inl _ => True end) d).
  { intros x Hx. apply wp_bind. eapply wp_mono; [exact IH|]. intros d' [e|xs] [-> H]; [done|]. apply wp_ret. split; [done|]. by rewrite <- H, <- Hx. }
  destruct (sv_tags svc) as [t|]; [|apply wp_ret; by apply HK]. apply wp_bind, wp_attempt. intros fs. rewrite (ForApp_reads (TagLister := t)).
  apply wp_ret. by apply HK.
Qed.

Definition listed (d : Db) (server : string) (a : App) : Prop := a ∈ apps d ∧ (server = "" ∨ a_server_id a = Some server).

Lemma list_apps_wp server d : wp (Apps.List_ svc server) (λ d' r, d' = d ∧ match r with inr l => ∀ a, a ∈ l.*1 ↔ listed d (TrimSpace server) a | inl _ => True end) d.
Proof.
  unfold Apps.List_, list_apps. apply wp_bind, wp_query; [done|]. eapply wp_mono; [apply populate_wp|]. intros d' [e|l] [-> Hl]; [done|]. split; [done|].
  intros a. rewrite Hl, sort_by_elem, elem_of_filter_b, orb_true_iff. unfold listed. rewrite String.eqb_eq.
  destruct (a_server_id a) as [x|]; [rewrite String.eqb_eq|]; naive_solver.
Qed.

Lemma accessible_wp u l s : wp (accessible u l) (λ s' r, s' = s ∧ match r with
  | inr (Some xs) => ∀ a, a ∈ xs.*1 ↔ a ∈ l.*1 ∧ may_access (aa_db s) u (a_team_id a) PermAppsView = true | _ => True end) s.
Proof.
  induction l as [|x l IH]; simpl; [apply wp_ret; split; [done|]; intros a; split; [by intros ?%elem_of_nil|by intros [?%elem_of_nil _]]|].
  apply wp_bind, wp_calling. eapply wp_mono; [apply can_access_team_wp|]. intros d [e|b] [-> Hb]; rewrite put_same; [by apply wp_ret|].
  specialize (Hb b eq_refl). destruct b.
  - apply wp_bind. eapply wp_mono; [exact IH|]. intros s' [[]|o] [-> Ho]. apply wp_ret. split; [done|]. destruct o as [xs|]; [|done].
    intros a. change ((x :: xs).*1) with (x.1 :: xs.*1). rewrite !elem_of_cons, Ho. split; [intros [->|[??]]; auto|intros [[->|?] ?]; auto].
  - eapply wp_mono; [exact IH|]. intros s' [[]|[xs|]] [-> Ho]; split; try done. intros a. rewrite elem_of_cons, Ho.
    split; [intros [??]; auto|intros [[->|?] ?]; [congruence|auto]].
Qed.

Lemma list_ok server s : wp (List_ svc user server) (outcome (RList server) s) s.
Proof.
  eapply app_db_wp; [apply list_apps_wp|]. intros d r [-> Hr]. rewrite put_same.
  destruct r as [e|l]; [apply wp_ret; left; by apply refuse_wp|]. destruct user as [u|] eqn:Eu; [|apply wp_ret; left; by apply refuse_wp].
  apply wp_bind. eapply wp_mono; [apply accessible_wp|]. intros s' [[]|[xs|]] [-> Ho]; apply wp_ret; [|left; by apply refuse_wp].
  right. exists u, (Answer 200 (BApps xs)). split; [done|]. split; [done|]. split; [done|]. exists xs. split; [done|].
  intros a. rewrite Ho, Hr. unfold listed. tauto.
Qed.

Lemma get_ok id s : wp (Get svc user id) (outcome (RGet id) s) s.
Proof.
  apply with_app_wp; [apply refusal_ok|]. intros u a tags Eu Hc Hm. apply wp_ret. right. exists u. eexists. split; [done|]. split; [done|].
  exists a. split_and!; try done. by exists tags.
Qed.

Lemma client_of_ok {B} a : match client_of (B := B) servers (default "" (a_server_id a)) with inl r => ∃ st code, r = Refuse st code | inr cli => reaches a cli end.
Proof.
  unfold client_of, reaches. destruct servers as [provider|]; [|by repeat eexists].
  destruct (provider _) as [[cli|]|] eqn:E; [by exists provider|by repeat eexists..].
Qed.

Lemma stats_of_ok a cli name : reaches a cli → (∃ st code, stats_of now cli name = Refuse st code) ∨ measured a name (stats_of now cli name).
Proof.
  intros Hr. unfold stats_of. destruct (dk_Stats cli name) as [samples|] eqn:E; [|left; by repeat eexists].
  destruct (readContainerStats _ _) as [snap|] eqn:Es; [|left; by repeat eexists]. right. by exists cli, samples, snap.
Qed.

(** A handler that only reads: its answer is a refusal or what [P] says. *)
Lemma read_wp id r s (P : App → Reply Body → Prop) (k : App → Reply Body) :
  (∀ a, (∃ st code, k a = Refuse st code) ∨ P a (k a)) →
  (∀ u a, user = Some u → called (aa_db s) id a → may_access (aa_db s) u (a_team_id a) PermAppsView = true → P a (k a) → performs u r s s (k a)) →
  wp (with_app svc user id PermAppsView (λ a _, mret (k a))) (outcome r s) s.
Proof.
  intros Hk HP. apply with_app_wp; [apply refusal_ok|]. intros u a tags Eu Hc Hm. apply wp_ret.
  destruct (Hk a) as [(st & code & ->)|H]; [left; by apply refuse_wp|]. right. exists u, (k a). split; [done|]. split; [done|]. by apply HP.
Qed.

Lemma stats_ok id s : wp (Stats svc servers now user id) (outcome (RStats id) s) s.
Proof.
  apply (read_wp _ _ _ (λ a reply, ∃ name, a_container_name a = Some name ∧ measured a name reply)).
  - intros a. destruct (a_container_name a) as [name|]; [|left; by repeat eexists]. destruct (TrimSpace name =s ""); [left; by repeat eexists|].
    destruct (is_none servers); [left; by repeat eexists|]. destruct (blank_opt _); [left; by repeat eexists|].
    pose proof (client_of_ok (B := Body) a) as Hc. destruct (client_of _ _) as [r|cli]; [by left|]. destruct (stats_of_ok a cli name Hc) as [?|?]; [by left|right; by exists name].
  - intros u a _ Hc Hm HP. by exists a.
Qed.

Lemma containers_ok id s : filters_labels → (∀ l, Permutation (shuffle l) l) →
  wp (Containers svc servers composeFetcher ord visit shuffle user id) (outcome (RContainers id) s) s.
Proof.
  intros HL Hs. eapply (read_wp _ _ _ (λ _ _, True)); [by right|]. intros u a _ Hc Hm _. exists a. split_and!; try done. eexists. split; [done|]. split.
  - intros row Hrow. apply merge_rows in Hrow as [?|(l & Hl & Hst & Hn)]; [by left| |done]. right. unfold lives in Hl.
    destruct (blank_opt _); [by apply elem_of_nil in Hl|]. pose proof (client_of_ok (B := Body) a) as Hr. destruct (client_of _ _) as [r|cli]; [by apply elem_of_nil in Hl|].
    unfold listLiveContainers in Hl. destruct (dk_List cli _) as [cs|] eqn:El; [|by apply elem_of_nil in Hl]. apply list_elem_of_fmap in Hl as (c & -> & Hcs).
    exists cli, cs, c. split_and!; try done. destruct Hr as (provider & Hp & Hpc). by eapply HL.
  - intros p Hp Hne. apply (merge_complete _ _ (lives servers a)); [done|done|]. exists p. split; [set_solver|done].
Qed.

Lemma with_container_ok id name r s (P : App → Reply Body → Prop) (k : App → Docker → string → Reply Body) :
  (∀ a cli, reaches a cli → (∃ st code, k a cli (TrimSpace name) = Refuse st code) ∨ P a (k a cli (TrimSpace name))) →
  (∀ u a reply, user = Some u → called (aa_db s) id a → may_access (aa_db s) u (a_team_id a) PermAppsView = true → P a reply → performs u r s s reply) →
  wp (with_container svc servers user id name k) (outcome r s) s.
Proof.
  intros Hk HP. unfold with_container. destruct (TrimSpace name =s ""); [apply wp_ret; left; by apply refuse_wp|]. apply (read_wp _ _ _ P); [|eauto].
  intros a. destruct (blank_opt _); [left; by repeat eexists|]. pose proof (client_of_ok (B := Body) a) as Hr. destruct (client_of _ _) as [x|cli]; [by left|by apply Hk].
Qed.

Lemma belongs_ok a cli name insp c : reaches a cli → dk_Inspect cli (TrimSpace name) = Some insp → containerBelongsToApp (a_id a) insp = Some c → inspected a name c insp.
Proof.
  intros Hr Hi. unfold containerBelongsToApp. destruct (ij_Config insp) as [x|] eqn:Ex; [|done]. destruct (_ =s _) eqn:E; [|done]. intros [= <-].
  apply String.eqb_eq in E. by exists cli.
Qed.

Lemma detail_preview_ok a name x : detail_preview composeFetcher ord visit a name = Some x → cd_Preview x = true.
Proof.
  assert (Hm : ∀ l x, matchContainerDetailPreview a name l = Some x → cd_Preview x = true).
  { intros l y. unfold matchContainerDetailPreview. destruct (List.find _ l); [|done]. by intros [= <-]. }
  unfold detail_preview, containerDetailPreview, containerDetailPreviewFromYAML. destruct (matchContainerDetailPreview _ _ _) as [y|] eqn:E; [intros [= <-]; by eapply Hm|].
  destruct (fetched _ _); [apply Hm|done].
Qed.

Lemma detail_ok id name s : wp (ContainerDetail svc servers composeFetcher ord visit parse_time now user id name) (outcome (RContainerDetail id name) s) s.
Proof.
  apply (with_container_ok _ _ _ _ (λ a reply, ∃ x, reply = Answer 200 (BDetail x) ∧
    (cd_Preview x = true ∨ ∃ c insp, inspected a name c insp ∧ x = containerDetailFromInspect parse_time now insp c))).
  - intros a cli Hr. destruct (dk_Inspect cli _) as [insp|] eqn:Ei.
    + destruct (containerBelongsToApp _ _) as [c|] eqn:Eb; [|left; by repeat eexists]. right. eexists. split; [done|]. right. exists c, insp.
      split; [by eapply belongs_ok|done].
    + destruct (detail_preview _ _ _ _ _) as [x|] eqn:Ex; [|left; by repeat eexists]. right. exists x. split; [done|]. left. by eapply detail_preview_ok.
  - intros u a reply _ Hc Hm HP. by exists a.
Qed.

Lemma container_stats_ok id name s : wp (ContainerStats svc servers now user id name) (outcome (RContainerStats id name) s) s.
Proof.
  apply (with_container_ok _ _ _ _ (λ a reply, ∃ c insp, inspected a name c insp ∧ measured a (TrimSpace name) reply)).
  - intros a cli Hr. destruct (dk_Inspect cli _) as [insp|] eqn:Ei; [|left; by repeat eexists].
    destruct (containerBelongsToApp _ _) as [c|] eqn:Eb; [|left; by repeat eexists]. destruct (negb _); [left; by repeat eexists|].
    destruct (stats_of_ok a cli (TrimSpace name) Hr) as [?|?]; [by left|right]. exists c, insp. split; [by eapply belongs_ok|done].
  - intros u a reply _ Hc Hm HP. by exists a.
Qed.

(** C22: Whatever fails, a request on apps either is refused and changes nothing,
    or comes from a user whose role grants the permission of that request on the
    team of the app: view, create, update, delete, and update on a second team
    where a patch names one.  Then it does exactly what it says to that app
    alone: the list has the apps of the server the user may view and no other;
    a patch rewrites the columns it names; a deletion removes the app with what
    refers to it and hands the worker its targets.  The containers it shows are
    declared by the app or run on its server under the label of the app. *)
Theorem requests_authorized r s : apps_wf (aa_db s) → ids_uuid (aa_db s) → filters_labels → (∀ l, Permutation (shuffle l) l) →
  wp (serve svc servers composeFetcher with_cleanup ord visit shuffle parse_time now user r) (outcome r s) s.
Proof.
  intros Hwf Hu HL Hs. destruct r; simpl.
  - apply create_ok.
  - apply list_ok.
  - apply get_ok.
  - by apply patch_req_ok.
  - by apply delete_ok.
  - by apply stop_ok.
  - apply set_env_ok.
  - apply stats_ok.
  - by apply containers_ok.
  - apply detail_ok.
  - apply container_stats_ok.
Qed.
End Authorized.

(** ** Examples *)

Module Examples.
#[local] Existing Instance ascii_only.
#[local] Existing Instance Build.Examples.toy_yaml.
#[local] Existing Instance exact_floats.

Definition app1 : string := "11111111-2222-3333-4444-555555555555".
Definition web : App := bare_app app1 "web" (Some "s") (Some "web") true.
Definition person (id role status : string) : User := mkUser id (id ^^ "@acme.test") "hash" role None None status None false None None None None 0.
Definition office : Db :=
  on_users (λ _, [person "root" "admin" "active"; person "guest" "viewer" "active"]) (on_servers (λ _, [ex_server]) (on_apps (λ _, [web]) empty_db)).
Definition start : Api := mkApi office [].

(** A host with a container of the app and one of somebody else under the name
    of the app. *)
Definition labels (app : string) : gmap string string := {["prexel.app_id" := app]}.
Definition sample (cpu sys : Z) : StatsResponse := mkStats cpu [] sys 2 300 1000 {["cache" := 100%Z]}.
Definition stranger : ContainerJSON :=
  mkInspected "/web" "" (mkState "running" 0 "" "") (Some (mkConfig "redis" (labels "other") [] [] [] [])) [] None None.
Definition mine : ContainerJSON :=
  mkInspected "/web-1" "2024" (mkState "running" 0 "" "") (Some (mkConfig "web:1" (labels app1) ["A=1"; "B"] ["8080"; "53-60"] [] [])) [mkMountPoint "bind" "/d" "/e" false] (Some "no") (Some [("net", ""); ("lan", "10.0.0.2")]).
Definition host : Docker := mkDocker
  (λ n, if n =s "web" then Some stranger else if n =s "web-1" then Some mine else None)
  (λ l, if l =s "prexel.app_id=" ^^ app1 then Some [mkContainer ["/web-1"] "web:1" "running" (labels app1) [8080%Z; 0%Z]] else Some [])
  (λ _, Some [sample 100 1000; sample 200 2000; sample 300 3000]).
Definition hosts : option (string → option (option Docker)) := Some (λ id, if id =s "s" then Some (Some host) else None).

Definition ask (user : option string) (r : request) (s : Api) : Api * (Empty_set + Reply Body) :=
  run (serve ex_svc hosts None true id id id (λ _, None) 0 user r) s.

Lemma office_wf : apps_wf office.
Proof.
  split; simpl.
  - intros a ->%list_elem_of_singleton. split; try (apply (bool_decide_unpack _); by vm_compute); by split_and!.
  - by intros a ->%list_elem_of_singleton.
  - apply NoDup_singleton.
  - apply NoDup_singleton.
Qed.
Lemma office_uuid : ids_uuid office.
Proof. intros a ->%list_elem_of_singleton. by vm_compute. Qed.
Lemma hosts_filter : filters_labels hosts.
Proof.
  intros provider i cli app l c [= <-]. destruct (i =s "s"); [|done]. intros [= <-]. simpl.
  destruct (_ =s _) eqn:E; intros [= <-]; [intros ->%list_elem_of_singleton|by intros ?%elem_of_nil].
  apply String.eqb_eq in E. assert (app = app1) as -> by (by eapply string_app_inj_l). by vm_compute.
Qed.

Lemma requests_authorized_witness :
  ask (Some "root") (RDelete app1) start = (mkApi (delete_app app1 office) [mkCleanup app1 "web" "s" [] []], inr (Bare 204)) ∧
  wp (serve ex_svc hosts None true id id id (λ _, None) 0 (Some "root") (RDelete app1))
    (outcome hosts None id id (λ _, None) 0 (Some "root") (RDelete app1) start) start.
Proof.
  split; [by vm_compute|]. apply requests_authorized; [exact office_wf|exact office_uuid|exact hosts_filter|done].
Defined.

(** A viewer is refused, and a container without the label is not shown. *)
Lemma guest_refused : ask (Some "guest") (RDelete app1) start = (start, inr (Refuse 403 "forbidden")).
Proof. by vm_compute. Qed.
Lemma stranger_hidden : ask (Some "root") (RContainerDetail app1 "web") start = (start, inr (Refuse 404 "container_not_found")).
Proof. by vm_compute. Qed.
Lemma detail_shown : match (ask (Some "root") (RContainerDetail app1 "web-1") start).2 with
  | inr (Answer _ (BDetail x)) => (cd_Ports x, cd_Networks x, cd_IPAddress x, cd_Status x) = ([53; 8080]%Z, ["lan"; "net"], "10.0.0.2", "Running")
  | _ => False end.
Proof. by vm_compute. Qed.

(** The statistics of an app come from whatever container has its name. *)
Lemma stats_unlabelled : match (ask (Some "root") (RStats app1) start).2 with inr (Answer 200 (BStats x)) => sr_MemoryUsedBytes x = 200%Z | _ => False end.
Proof. by vm_compute. Qed.

(** The image of a service stays the declared one. *)
Lemma merge_keeps_image :
  cr_Image <$> mergeContainers id [mkRow "api" "api:2" "preview" "" [] false] [mkRow "api" "api:1" "running" "web-api" [] false] = ["api:2"].
Proof. by vm_compute. Qed.

(** The preview of a service is not found under the name its container gets. *)
Lemma preview_name_unmatched :
  let row := mkRow "api" "" "preview" "" [] false in
  preview_matches web (composeCanonicalName "web" "api") row = false ∧ preview_matches web "prexel-web-api" row = true.
Proof. by vm_compute. Qed.
End Examples.
