(* ===== verification/AppParts.v ===== *)
(** * Endpoints of the parts of an app

    Volumes, tags and secrets of an app: the handlers of
    internal/api/handler/appvolume.go, tag.go and secret.go over the services
    of [Volumes], [Tags] and [Secrets], with the authorization by team of
    [AppsApi] where the code has it.  Requests are
    decoded ([None]: invalid JSON); ids, nonces and the orders of Go maps are
    arguments. *)

From S2P Require Import Prelude Effects GoStrings Decimal Regex Schema Http Cipher Rbac Docker Apps Volumes Tags Secrets AppsApi.
From stdpp Require Import gmap.

Inductive Body :=
  | BVolumes (l : list Volume) | BVolume (v : Volume) | BTags (l : list Tag) | BTag (t : Tag) | BSecrets (l : list Secret).

Local Abbreviation hM := (M Api Empty_set).

Definition has_prefix_of (l : list string) (code : string) : bool := List.existsb (HasPrefix code) l.

Section Parts.
Context `{Uc : Unicode} `{AL : AeadLib}.
Context (svc : Apps.Service) (cipher : Cipher) (ord : list string → list string) (user : option string).

(** ** Volumes *)

Definition volumeError {B} (e : VolErr) : Reply B :=
  match e with
  | ErrVolNotFound => Refuse 404 "not_found"
  | ErrDuplicate => Refuse 409 "duplicate_mount"
  | ErrVolInvalid code => if has_prefix_of ["invalid_"; "missing_"] code then Refuse 400 "bad_request" else Refuse 500 "internal_error"
  | ErrVolApp _ | ErrVolDb _ => Refuse 500 "internal_error"
  end.

Definition volume_reply {A} (r : VolErr + A) (k : A → Reply Body) : hM (Reply Body) :=
  mret match r with inl e => volumeError e | inr x => k x end.

Definition VolumeList (id : string) : hM (Reply Body) :=
  with_app svc user id PermAppsView (λ target _,
    r ← db (Volumes.List_ (a_id target));
    mret match r with inl _ => Refuse 500 "db_error" | inr l => Answer 200 (BVolumes l) end).

(** The volume of the path, which must be one of the app. *)
Definition with_volume (target : App) (volID : string) (k : Volume → hM (Reply Body)) : hM (Reply Body) :=
  r ← db (Volumes.Get volID);
  match r with
  | inl e => mret (volumeError e)
  | inr v => if v_app_id v =s a_id target then k v else mret (Refuse 404 "not_found")
  end.

Definition VolumeGet (id volID : string) : hM (Reply Body) :=
  with_app svc user id PermAppsView (λ target _, with_volume target volID (λ v, mret (Answer 200 (BVolume v)))).

Record createVolumeReq := mkVolReq {
  vq_Service : option string; vq_MountPath : string; vq_HostPath : option string; vq_IsNamed : option bool; vq_ReadOnly : bool;
}.

Definition VolumeCreate (newID id : string) (req : option createVolumeReq) : hM (Reply Body) :=
  with_app svc user id PermAppsUpdate (λ target _,
    match req with
    | None => mret (Refuse 400 "invalid_json")
    | Some q =>
      r ← db (Volumes.Create svc newID (mkVolInput (a_id target) (vq_Service q) (vq_MountPath q) (vq_HostPath q) (default true (vq_IsNamed q)) (vq_ReadOnly q)));
      volume_reply r (λ v, Answer 201 (BVolume v))
    end).

Definition VolumePatch (id volID : string) (req : option Volumes.UpdatePatch) : hM (Reply Body) :=
  with_app svc user id PermAppsUpdate (λ target _, with_volume target volID (λ _,
    match req with
    | None => mret (Refuse 400 "invalid_json")
    | Some p => r ← db (Volumes.Update volID p); volume_reply r (λ v, Answer 200 (BVolume v))
    end)).

Definition VolumeDelete (id volID : string) : hM (Reply Body) :=
  with_app svc user id PermAppsUpdate (λ target _, with_volume target volID (λ _,
    r ← db (Volumes.Delete volID); volume_reply r (λ _, Bare 204))).

(** ** Tags *)

Definition tagError {B} (e : TagErr) : Reply B :=
  match e with
  | ErrTagNotFound => Refuse 404 "not_found"
  | ErrTagInvalid code => if has_prefix_of ["invalid_"; "missing_"] code then Refuse 400 "bad_request" else Refuse 500 "internal_error"
  | ErrTagNameInUse | ErrTagDb _ => Refuse 500 "internal_error"
  end.

Definition TagList : hM (Reply Body) :=
  r ← db Tags.List_;
  mret match r with inl _ => Refuse 500 "db_error" | inr l => Answer 200 (BTags l) end.

Definition TagCreate (newID : string) (req : option (string * option string)) : hM (Reply Body) :=
  match req with
  | None => mret (Refuse 400 "invalid_json")
  | Some (name, color) =>
    r ← db (Tags.Create newID name color);
    mret match r with inl e => tagError e | inr t => Answer 200 (BTag t) end
  end.

Definition TagDelete (id : string) : hM (Reply Body) :=
  r ← db (Tags.Delete id);
  mret match r with inl e => tagError e | inr _ => Bare 204 end.

Definition ListForApp (id : string) : hM (Reply Body) :=
  with_app svc user id PermAppsView (λ target _,
    r ← db (ForAppDetailed (a_id target));
    mret match r with inl _ => Refuse 500 "db_error" | inr l => Answer 200 (BTags l) end).

(** [ids]: the ids of the tags that have to be created. *)
Definition SetAppTags (ids : nat → string) (id : string) (req : option (list string)) : hM (Reply Body) :=
  with_app svc user id PermAppsUpdate (λ target _,
    match req with
    | None => mret (Refuse 400 "invalid_json")
    | Some names =>
      r ← db (Tags.SetAppTags ord (a_id target) names ids);
      mret match r with inl e => tagError e | inr l => Answer 200 (BTags l) end
    end).

(** ** Secrets *)

Definition secretError {B} (e : SecretErr) : Reply B :=
  match e with
  | ErrSecretNotFound => Refuse 404 "not_found"
  | ErrSecretInvalid code => if has_prefix_of ["invalid_"; "missing_"; "empty_value"] code then Refuse 400 "bad_request" else Refuse 500 "internal_error"
  | ErrCipher _ _ | ErrSecretDb _ => Refuse 500 "internal_error"
  end.

(** [resolveAppID]: the app of the path; no permission is asked. *)
Definition resolveAppID (id : string) (k : string → hM (Reply Body)) : hM (Reply Body) :=
  r ← db (Apps.Get svc id);
  match r with inl e => mret (appError e) | inr x => k (a_id x.1) end.

Definition secret_list (appID : string) : hM (Reply Body) :=
  r ← db (Secrets.List_ appID);
  mret match r with inl _ => Refuse 500 "db_error" | inr l => Answer 200 (BSecrets l) end.

Definition SecretList (id : string) : hM (Reply Body) := resolveAppID id secret_list.

(** The batch, in the two orders in which its map is read. *)
Definition SecretUpsert (id : string) (req : option (list (string * UpsertItem) * list Write)) : hM (Reply Body) :=
  resolveAppID id (λ appID,
    match req with
    | None => mret (Refuse 400 "invalid_json")
    | Some (checks, writes) =>
      r ← db (Secrets.Upsert cipher appID checks writes);
      match r with inl e => mret (secretError e) | inr _ => secret_list appID end
    end).

Definition SecretDelete (id key : string) : hM (Reply Body) :=
  resolveAppID id (λ appID,
    r ← db (Secrets.Delete appID key);
    mret match r with inl e => secretError e | inr _ => Bare 204 end).

(** ** Requests *)

Inductive request :=
  | VolumeList_ (id : string) | VolumeGet_ (id volID : string) | VolumeCreate_ (newID id : string) (req : option createVolumeReq)
  | VolumePatch_ (id volID : string) (req : option Volumes.UpdatePatch) | VolumeDelete_ (id volID : string)
  | ListForApp_ (id : string) | SetAppTags_ (ids : nat → string) (id : string) (req : option (list string))
  | SecretList_ (id : string) | SecretUpsert_ (id : string) (req : option (list (string * UpsertItem) * list Write)) | SecretDelete_ (id key : string)
  | TagList_ | TagCreate_ (newID : string) (req : option (string * option string)) | TagDelete_ (id : string).

Definition serve (r : request) : hM (Reply Body) :=
  match r with
  | VolumeList_ id => VolumeList id
  | VolumeGet_ id vol => VolumeGet id vol
  | VolumeCreate_ new id req => VolumeCreate new id req
  | VolumePatch_ id vol req => VolumePatch id vol req
  | VolumeDelete_ id vol => VolumeDelete id vol
  | ListForApp_ id => ListForApp id
  | SetAppTags_ ids id req => SetAppTags ids id req
  | SecretList_ id => SecretList id
  | SecretUpsert_ id req => SecretUpsert id req
  | SecretDelete_ id key => SecretDelete id key
  | TagList_ => TagList
  | TagCreate_ new req => TagCreate new req
  | TagDelete_ id => TagDelete id
  end.
End Parts.

(** ** What a request does *)

Section Confined.
Context `{Uc : Unicode} `{AL : AeadLib}.
Context (svc : Apps.Service) (cipher : Cipher) (ord : list string → list string) (user : option string).

Local Abbreviation hM := (M Api Empty_set).

(** Only rows of one app have changed, of one table. *)
Definition only_volumes (id : string) (d d' : Db) : Prop :=
  d' = on_app_volumes (λ _, app_volumes d') d ∧ ∀ v, v_app_id v ≠ id → v ∈ app_volumes d' ↔ v ∈ app_volumes d.
Definition only_secrets (id : string) (d d' : Db) : Prop :=
  d' = on_secrets (λ _, secrets d') d ∧ ∀ r, se_app_id r ≠ id → r ∈ secrets d' ↔ r ∈ secrets d.
(** Tags may be new; the links of other apps stay. *)
Definition only_links (id : string) (d d' : Db) : Prop :=
  d' = on_app_tags (λ _, app_tags d') (on_tags (λ _, tags d') d) ∧ (∀ t, t ∈ tags d → t ∈ tags d') ∧
  ∀ l, ag_app_id l ≠ id → l ∈ app_tags d' ↔ l ∈ app_tags d.
Definition only_tags (d d' : Db) : Prop := d' = on_tags (λ _, tags d') d ∧ ∀ t, t ∈ tags d → t ∈ tags d'.

Lemma only_volumes_refl id d : only_volumes id d d.
Proof. by destruct d. Qed.
Lemma only_secrets_refl id d : only_secrets id d d.
Proof. by destruct d. Qed.
Lemma only_links_refl id d : only_links id d d.
Proof. by destruct d. Qed.
Lemma only_tags_refl d : only_tags d d.
Proof. by destruct d. Qed.

Lemma volumes_step id d d' f : only_volumes id d d' →
  (∀ v, v_app_id v ≠ id → v ∈ f (app_volumes d') ↔ v ∈ app_volumes d') → only_volumes id d (on_app_volumes f d').
Proof. intros [E H] Hf. split; [rewrite E at 1; by destruct d|]. intros v Hv. simpl. by rewrite Hf, H. Qed.
Lemma secrets_step id d d' f : only_secrets id d d' →
  (∀ r, se_app_id r ≠ id → r ∈ f (secrets d') ↔ r ∈ secrets d') → only_secrets id d (on_secrets f d').
Proof. intros [E H] Hf. split; [rewrite E at 1; by destruct d|]. intros v Hv. simpl. by rewrite Hf, H. Qed.
Lemma links_step id d d' f : only_links id d d' →
  (∀ l, ag_app_id l ≠ id → l ∈ f (app_tags d') ↔ l ∈ app_tags d') → only_links id d (on_app_tags f d').
Proof. intros (E & T & H) Hf. split_and!; [rewrite E at 1; by destruct d|done|]. intros v Hv. simpl. by rewrite Hf, H. Qed.
Lemma tags_step id d d' t : only_links id d d' → only_links id d (on_tags (λ l, l ++ [t]) d').
Proof. intros (E & T & H). split_and!; [rewrite E at 1; by destruct d| |done]. intros x Hx. simpl. apply elem_of_app. left. auto. Qed.

(** A row that is rewritten or deleted. *)
Lemma upd_other {A} (p : A → bool) f (l : list A) x : (∀ y, p y = true → y ∈ l → y ≠ x ∧ f y ≠ x) → x ∈ upd p f l ↔ x ∈ l.
Proof.
  intros Hp. rewrite elem_of_upd. split.
  - intros (y & Hy & ->). destruct (p y) eqn:E; [|done]. by destruct (Hp y E Hy) as [_ []].
  - intros Hx. exists x. split; [done|]. destruct (p x) eqn:E; [|done]. by destruct (Hp x E Hx) as [[] _].
Qed.
Lemma del_other {A} (p : A → bool) (l : list A) x : p x = false → x ∈ del p l ↔ x ∈ l.
Proof. intros Hp. rewrite elem_of_del. naive_solver. Qed.

(** *** Volumes *)

Lemma insert_confined id v d : v_app_id v = id → preserves (only_volumes id d) (Volumes.insert v).
Proof.
  intros Hv. apply preserves_checked. intros d' Hd. destruct (List.existsb _ _); [done|]. destruct (List.existsb _ _); [|done].
  apply volumes_step; [done|]. intros x Hx. rewrite elem_of_app, list_elem_of_singleton. naive_solver.
Qed.

(** The statements on the row of one id. *)
Definition row_of (id vol : string) (d : Db) : Prop := ∀ v, v ∈ app_volumes d → v_id v = vol → v_app_id v = id.
#[local] Hint Resolve Volumes.get_reads : app_wf.

Lemma update_fields_confined id vol sets d : row_of id vol d → wp (Volumes.updateFields vol sets) (λ d' _, only_volumes id d d') d.
Proof.
  intros Hr. unfold updateFields. destruct (no_vol_sets sets); [apply (get_reads (only_volumes id d)); apply only_volumes_refl|].
  apply wp_bind, wp_checked; [apply only_volumes_refl|]. destruct (List.existsb _ _); [apply only_volumes_refl|].
  enough (H : only_volumes id d (on_app_volumes (upd (vol_is vol) (apply_vol sets)) d)) by (destruct (_ =? 0)%nat; [by apply wp_throw|by apply get_reads]).
  apply volumes_step; [apply only_volumes_refl|]. intros v Hv. apply upd_other. intros y Hy%String.eqb_eq Hin.
  specialize (Hr y Hin Hy). split; intros <-; by destruct Hv.
Qed.

Lemma update_confined id vol p d : row_of id vol d → wp (Volumes.Update vol p) (λ d' _, only_volumes id d d') d.
Proof.
  intros Hr. unfold Volumes.Update. apply wp_bind. eapply wp_mono; [by apply (get_reads (λ d', d' = d))|].
  intros d' [e|cur] ->; [apply only_volumes_refl|]. apply wp_bind, wp_of_result. destruct (host_set p); [apply only_volumes_refl|].
  apply wp_bind, wp_of_result. destruct (validatePairing _ _); [apply only_volumes_refl|].
  apply wp_bind, wp_of_result. destruct (mount_set p); [apply only_volumes_refl|]. by apply update_fields_confined.
Qed.

Lemma volume_delete_confined id vol d : row_of id (TrimSpace vol) d → wp (Volumes.Delete vol) (λ d' _, only_volumes id d d') d.
Proof.
  intros Hr. unfold Volumes.Delete, delete. apply wp_bind, wp_fallible; [apply only_volumes_refl|].
  enough (H : only_volumes id d (on_app_volumes (del (vol_is (TrimSpace vol))) d)) by (destruct (_ =? 0)%nat; [by apply wp_throw|by apply wp_ret]).
  apply volumes_step; [apply only_volumes_refl|]. intros v Hv. rewrite elem_of_del. split; [by intros []|]. intros Hin. split; [done|].
  unfold vol_is. apply String.eqb_neq. intros E. by destruct (Hv (Hr v Hin E)).
Qed.

(** The app a volume is created for is the app of the id. *)
Lemma get_app_wp a d : apps_wf d → ids_uuid d → a ∈ apps d →
  wp (Volumes.getApp svc (TrimSpace (a_id a))) (λ d' r, d' = d ∧ match r with inr x => a_id x = a_id a | inl _ => True end) d.
Proof.
  intros Hwf Hu Ha. rewrite uuid_trim by by apply Hu. unfold Volumes.getApp. apply wp_bind, wp_zoom. 
  eapply wp_mono; [apply get_called|]. intros d' [e|[x tags]] [-> Hc]; [done|]. apply wp_ret. split; [done|].
  destruct Hc as [_ Hc]. by rewrite uuid_trim, (Hu a Ha) in Hc by by apply Hu.
Qed.

Lemma create_confined a new inp d : apps_wf d → ids_uuid d → a ∈ apps d → vi_AppID inp = a_id a →
  wp (Volumes.Create svc new inp) (λ d' _, only_volumes (a_id a) d d') d.
Proof.
  intros Hwf Hu Ha Hi. pose proof (only_volumes_refl (a_id a) d) as H0. unfold Volumes.Create. rewrite Hi.
  apply (wp_keep (λ d', d' = d)); [apply preserves_when; auto with app_wf|done|by intros ? e ->|]. intros d' _ ->.
  apply wp_bind. eapply wp_mono; [by apply get_app_wp|]. intros d' [e|x] [-> Hx]; [done|].
  apply wp_bind, wp_of_result. destruct (normaliseService _) as [|service]; [done|].
  apply wp_bind, wp_of_result. destruct (validateMountPath _) as [|mount]; [done|].
  apply wp_bind, wp_of_result. destruct (validateHostPath _) as [|hp]; [done|].
  apply wp_bind, wp_of_result. destruct (validatePairing _ _); [done|].
  apply (wp_keep (only_volumes (a_id a) d)); [|done|done|].
  { apply preserves_when, preserves_bind; [|intros dup; apply preserves_when; auto with app_wf].
    apply preserves_bind; [apply preserves_query|auto with app_wf]. }
  intros d1 _ H1. apply (wp_keep (only_volumes (a_id a) d)); [by apply insert_confined|done|done|]. intros d2 _ H2. by apply get_reads.
Qed.

(** *** Tags *)

Lemma tag_create_keeps id new name color d : preserves (only_links id d) (Tags.Create new name color).
Proof.
  assert (Hf : ∀ row, preserves (only_links id d) (found_tag row)) by (intros [t|]; [apply preserves_ret|apply preserves_throw]).
  unfold Tags.Create. apply preserves_bind; [apply preserves_of_result|]. intros n. apply preserves_bind; [apply preserves_of_result|]. intros c.
  apply preserves_bind; [apply preserves_attempt, preserves_checked|].
  - intros d' Hd. destruct (List.existsb _ _); [done|]. by apply tags_step.
  - intros [[]|]; auto with app_wf; (apply preserves_bind; [apply preserves_query|exact Hf]).
Qed.

Lemma ensure_keeps id names d : ∀ ids, preserves (only_links id d) (ensure_all ids names).
Proof.
  induction names as [|n names IH]; intros ids; [apply preserves_ret|]. apply preserves_bind; [apply tag_create_keeps|].
  intros t. apply preserves_bind; [apply IH|]. intros ts. apply preserves_ret.
Qed.

Lemma set_tags_confined id names ids d : preserves (only_links id d) (Tags.SetAppTags ord id names ids).
Proof.
  unfold Tags.SetAppTags. apply preserves_bind; [apply preserves_of_result|]. intros normalized. apply preserves_bind; [apply ensure_keeps|]. intros desired.
  apply preserves_bind; [apply preserves_query|]. intros current. apply preserves_bind; [|intros _; apply preserves_bind; [|intros _; apply preserves_query]].
  - apply each_preserves. intros t. apply preserves_exec. intros d' Hd. apply links_step; [done|]. intros l Hl. apply del_other.
    unfold link_is. destruct (ag_app_id l =s id) eqn:E; [|done]. by apply String.eqb_eq in E.
  - apply each_preserves. intros t. apply preserves_checked. intros d' Hd. destruct (List.existsb _ _); [done|]. destruct (_ && _); [|done].
    apply links_step; [done|]. intros l Hl. rewrite elem_of_app, list_elem_of_singleton. split; [intros [?| ->]; [done|by destruct Hl]|by left].
Qed.

(** *** Secrets *)

Lemma upsert_confined id new key enc build multi d : preserves (only_secrets id d) (Secrets.upsert new id key enc build multi).
Proof.
  apply preserves_checked. intros d' Hd. destruct (List.existsb _ (secrets d')).
  - apply secrets_step; [done|]. intros r Hr. apply upd_other. intros y Hy _.
    unfold secret_is, secret_of in Hy. apply andb_true_iff in Hy as [Hy%String.eqb_eq _]. split; intros <-; by destruct Hr.
  - destruct (_ || _); [done|]. apply secrets_step; [done|]. intros r Hr. rewrite elem_of_app, list_elem_of_singleton.
    split; [intros [?| ->]; [done|by destruct Hr]|by left].
Qed.

Lemma write_confined id ws d : preserves (only_secrets id d) (write_items cipher id ws).
Proof.
  induction ws as [|w ws IH]; [apply preserves_ret|]. apply preserves_bind; [apply preserves_of_result|]. intros enc.
  apply preserves_bind; [apply upsert_confined|]. by intros _.
Qed.

Lemma secret_upsert_confined id checks ws d : preserves (only_secrets id d) (Secrets.Upsert cipher id checks ws).
Proof.
  unfold Secrets.Upsert. destruct (is_nil checks); [apply preserves_ret|]. apply preserves_bind; [apply preserves_of_result|]. intros _. apply write_confined.
Qed.

Lemma secret_delete_confined id key d : preserves (only_secrets id d) (Secrets.Delete id key).
Proof.
  unfold Secrets.Delete. cbv zeta. destruct (_ =s ""); [apply preserves_throw|]. apply preserves_bind; [|intros n; destruct (n =? 0)%nat; auto with app_wf].
  intros d' Hd. apply wp_fallible; [done|]. apply secrets_step; [done|]. intros r Hr. apply del_other.
  unfold secret_is, secret_of. destruct (se_app_id r =s id) eqn:E; [|done]. by apply String.eqb_eq in E.
Qed.

(** *** The requests *)

Definition performs (r : request) (s s' : Api) (reply : Reply Body) : Prop :=
  let d := aa_db s in let d' := aa_db s' in
  let on id perm P := ∃ u a, user = Some u ∧ called d id a ∧ may_access d u (a_team_id a) perm = true ∧ aa_tasks s' = aa_tasks s ∧ P a in
  let reads id P := on id PermAppsView (λ a, s' = s ∧ P a) in
  let changes id P := on id PermAppsUpdate (λ a, P (a_id a)) in
  let any id P := ∃ a, called d id a ∧ aa_tasks s' = aa_tasks s ∧ P (a_id a) in
  match r with
  | VolumeList_ id => reads id (λ a, ∃ l, reply = Answer 200 (BVolumes l) ∧ ∀ v, v ∈ l ↔ v ∈ app_volumes d ∧ v_app_id v = a_id a)
  | VolumeGet_ id vol => reads id (λ a, ∃ v, reply = Answer 200 (BVolume v) ∧ v ∈ app_volumes d ∧ v_app_id v = a_id a ∧ v_id v = TrimSpace vol)
  | VolumeCreate_ _ id _ | VolumePatch_ id _ _ | VolumeDelete_ id _ => changes id (λ app, only_volumes app d d')
  | ListForApp_ id => reads id (λ a, ∃ l, reply = Answer 200 (BTags l) ∧ ∀ t, t ∈ l ↔ t ∈ tags d ∧ mkAppTag (a_id a) (tg_id t) ∈ app_tags d)
  | SetAppTags_ _ id _ => changes id (λ app, only_links app d d')
  | SecretList_ id => any id (λ app, s' = s ∧ ∃ l, reply = Answer 200 (BSecrets l) ∧ ∀ m, m ∈ l ↔ ∃ r, r ∈ secrets d ∧ se_app_id r = app ∧ m = meta r)
  | SecretUpsert_ id _ | SecretDelete_ id _ => any id (λ app, only_secrets app d d')
  | TagList_ => s' = s ∧ ∃ l, reply = Answer 200 (BTags l) ∧ ∀ t, t ∈ l ↔ t ∈ tags d
  | TagCreate_ _ _ => aa_tasks s' = aa_tasks s ∧ only_tags d d'
  | TagDelete_ id => aa_tasks s' = aa_tasks s ∧ (d' = d ∨
      d' = on_app_tags (del (λ l, ag_tag_id l =s TrimSpace id)) (on_tags (del (tag_is (TrimSpace id))) d))
  end.

Definition outcome (r : request) (s s' : Api) (out : Empty_set + Reply Body) : Prop :=
  refused s s' out ∨ ∃ reply, out = inr reply ∧ performs r s s' reply.

Lemma refused_ok r s st code : outcome r s s (inr (Refuse st code)).
Proof. left. by apply refuse_wp. Qed.
#[local] Hint Resolve refused_ok : core.

Lemma volume_error_ok r s e : outcome r s s (inr (volumeError e)).
Proof. unfold volumeError. destruct e; try apply refused_ok. destruct (has_prefix_of _ _); apply refused_ok. Qed.

(** The volume of the path is one of the app. *)
Lemma with_volume_wp r a vol (k : Volume → hM (Reply Body)) s :
  (∀ v, v ∈ app_volumes (aa_db s) → v_id v = TrimSpace vol → v_app_id v = a_id a → wp (k v) (outcome r s) s) →
  wp (with_volume a vol k) (outcome r s) s.
Proof.
  intros Hk. eapply (app_db_wp _ _ (λ d' r, d' = aa_db s ∧ match r with inr v => v ∈ app_volumes (aa_db s) ∧ v_id v = TrimSpace vol | inl _ => True end)).
  - unfold Volumes.Get. cbv zeta. destruct (_ =s ""); [by apply wp_throw|]. apply wp_bind, wp_query; [done|].
    destruct (sel _ _) as [v|] eqn:E; [apply wp_ret|by apply wp_throw]. by apply sel_Some in E as [Hv Ev%String.eqb_eq].
  - intros d [e|v] [-> Hv]; rewrite put_same; [apply wp_ret, volume_error_ok|]. destruct (v_app_id v =s a_id a) eqn:E; [|by apply wp_ret].
    apply String.eqb_eq in E. apply Hk; tauto.
Qed.
Lemma tag_error_ok r s e : outcome r s s (inr (tagError e)).
Proof. unfold tagError. destruct e; try apply refused_ok. destruct (has_prefix_of _ _); apply refused_ok. Qed.
Lemma secret_error_ok r s e : outcome r s s (inr (secretError e)).
Proof. unfold secretError. destruct e; try apply refused_ok. destruct (has_prefix_of _ _); apply refused_ok. Qed.

(** An authorized change confined to the app, whatever the answer. *)
Lemma changes_wp {E A} r id (R : string → Db → Db → Prop) (m : App → M Db E A) (k : E + A → Reply Body) u a s :
  user = Some u → called (aa_db s) id a → may_access (aa_db s) u (a_team_id a) PermAppsUpdate = true →
  (∀ s' reply, performs r s s' reply ↔ ∃ u a, user = Some u ∧ called (aa_db s) id a ∧ may_access (aa_db s) u (a_team_id a) PermAppsUpdate = true ∧
     aa_tasks s' = aa_tasks s ∧ R (a_id a) (aa_db s) (aa_db s')) →
  wp (m a) (λ d' _, R (a_id a) (aa_db s) d') (aa_db s) → wp (x ← db (m a); mret (k x)) (outcome r s) s.
Proof.
  intros Hu Hc Hm Hr Hw. eapply app_db_wp; [exact Hw|]. intros d' x HR. apply wp_ret. right. eexists. split; [done|]. apply Hr. by exists u, a.
Qed.


(** Ids of volumes are unique and have no blanks around them. *)
Definition vol_ids (d : Db) : Prop := NoDup (v_id <$> app_volumes d) ∧ ∀ v, v ∈ app_volumes d → TrimSpace (v_id v) = v_id v.

Lemma vol_row' id v vol d : vol_ids d → v ∈ app_volumes d → v_id v = TrimSpace vol → v_app_id v = id → row_of id (TrimSpace vol) d.
Proof. intros [Hn _] Hv Ev <- x Hx Ex. f_equal. apply (NoDup_fmap_inj v_id (app_volumes d)); congruence. Qed.
Lemma vol_row id v vol d : vol_ids d → v ∈ app_volumes d → v_id v = TrimSpace vol → v_app_id v = id → row_of id vol d.
Proof. intros Hi Hv Ev Ha x Hx Ex. apply (vol_row' id v vol d Hi Hv Ev Ha x Hx). rewrite <- Ex. symmetry. by apply Hi. Qed.

Lemma volume_ok r s : apps_wf (aa_db s) → ids_uuid (aa_db s) → vol_ids (aa_db s) →
  match r with VolumeList_ _ | VolumeGet_ _ _ | VolumeCreate_ _ _ _ | VolumePatch_ _ _ _ | VolumeDelete_ _ _ => True | _ => False end →
  wp (serve svc cipher ord user r) (outcome r s) s.
Proof.
  intros Hwf Hids Hv0 Hr. destruct r as [id|id vol|new id req|id vol req|id vol| | | | | | | |]; try done; simpl;
    (apply with_app_wp; [intros; by left|]); intros u a tags Hu Hc Hm; pose proof (uuid_trim _ (Hids a (proj1 Hc))) as Ea.
  - eapply (app_db_wp _ _ (λ d' r, d' = aa_db s ∧ match r with inr l => ∀ v, v ∈ l ↔ v ∈ app_volumes (aa_db s) ∧ v_app_id v = a_id a | inl _ => True end)).
    + apply wp_query; [done|]. split; [done|]. intros v. rewrite sort_by_elem, elem_of_filter_b. unfold vol_of. by rewrite String.eqb_eq, Ea.
    + intros d' [e|l] [-> Hl]; rewrite put_same; apply wp_ret; [done|]. right. eexists. split; [done|]. exists u, a. split_and!; try done. by exists l.
  - apply with_volume_wp. intros v Hv Ev Ha. apply wp_ret. right. eexists. split; [done|]. exists u, a. split_and!; try done. by exists v.
  - destruct req as [q|]; [|by apply wp_ret]. apply (changes_wp _ id only_volumes (λ _, _) (λ x, match x with inl e => volumeError e | inr v => _ end) u a); try done.
    by apply create_confined; try apply Hc.
  - apply with_volume_wp. intros v Hv Ev Ha. destruct req as [p|]; [|by apply wp_ret].
    apply (changes_wp _ id only_volumes (λ _, _) (λ x, match x with inl e => volumeError e | inr v => _ end) u a); try done.
    apply update_confined. by apply (vol_row _ v vol).
  - apply with_volume_wp. intros v Hv Ev Ha.
    apply (changes_wp _ id only_volumes (λ _, _) (λ x, match x with inl e => volumeError e | inr v => _ end) u a); try done.
    apply volume_delete_confined. by apply (vol_row' _ v vol).
Qed.

Lemma links_ok r s : match r with ListForApp_ _ | SetAppTags_ _ _ _ => True | _ => False end → wp (serve svc cipher ord user r) (outcome r s) s.
Proof.
  intros Hr. destruct r as [| | | | |id|ids id req| | | | | |]; try done; simpl; (apply with_app_wp; [intros; by left|]); intros u a tags Hu Hc Hm.
  - eapply (app_db_wp _ _ (λ d' r, d' = aa_db s ∧ match r with inr l => ∀ t, t ∈ l ↔ t ∈ Schema.tags (aa_db s) ∧ mkAppTag (a_id a) (tg_id t) ∈ app_tags (aa_db s) | inl _ => True end)).
    + apply wp_query; [done|]. split; [done|]. intros t. by rewrite sort_by_elem, tags_of_elem.
    + intros d' [e|l] [-> Hl]; rewrite put_same; apply wp_ret; [done|]. right. eexists. split; [done|]. exists u, a. split_and!; try done. by exists l.
  - destruct req as [names|]; [|by apply wp_ret]. apply (changes_wp _ id only_links (λ _, _) (λ x, match x with inl e => tagError e | inr v => _ end) u a); try done.
    apply set_tags_confined, only_links_refl.
Qed.

(** The secrets of whoever's app. *)
Lemma resolve_wp r id (k : string → hM (Reply Body)) s : (∀ a, called (aa_db s) id a → wp (k (a_id a)) (outcome r s) s) →
  wp (resolveAppID svc id k) (outcome r s) s.
Proof.
  intros Hk. eapply app_db_wp; [apply get_called|]. intros d [e|x] [-> Hx]; rewrite put_same; [|by apply Hk].
  apply wp_ret. left. apply app_error_ok.
Qed.

Lemma secret_list_wp id d : wp (Secrets.List_ id) (λ d' r, d' = d ∧
  match r with inr l => ∀ m, m ∈ l ↔ ∃ x, x ∈ secrets d ∧ se_app_id x = id ∧ m = meta x | inl _ => True end) d.
Proof.
  apply wp_query; [done|]. split; [done|]. intros m. rewrite list_elem_of_fmap. setoid_rewrite sort_by_elem. setoid_rewrite elem_of_filter_b.
  unfold secret_of. setoid_rewrite String.eqb_eq. naive_solver.
Qed.

Lemma secrets_ok r s : match r with SecretList_ _ | SecretUpsert_ _ _ | SecretDelete_ _ _ => True | _ => False end → wp (serve svc cipher ord user r) (outcome r s) s.
Proof.
  intros Hr. destruct r as [| | | | | | |id|id req|id key| | |]; try done; simpl; apply resolve_wp; intros a Hc.
  - eapply app_db_wp; [apply secret_list_wp|]. intros d [e|l] [-> Hl]; rewrite put_same; apply wp_ret; [done|].
    right. eexists. split; [done|]. exists a. split_and!; try done. by exists l.
  - destruct req as [[checks ws]|]; [|by apply wp_ret]. eapply app_db_wp; [apply secret_upsert_confined, only_secrets_refl|].
    intros d1 [e|[]] H1.
    + apply wp_ret. right. eexists. split; [done|]. by exists a.
    + eapply app_db_wp; [apply secret_list_wp|]. intros d [e|l] [-> _]; apply wp_ret; right; eexists; (split; [done|]); by exists a.
  - eapply app_db_wp; [apply secret_delete_confined, only_secrets_refl|]. intros d x Hx. apply wp_ret. right. eexists. split; [done|]. by exists a.
Qed.

(** The tags themselves. *)
Lemma create_tag_wp new name color d : preserves (only_tags d) (Tags.Create new name color).
Proof.
  unfold Tags.Create. apply preserves_bind; [apply preserves_of_result|]. intros n. apply preserves_bind; [apply preserves_of_result|]. intros c.
  assert (Hf : ∀ row, preserves (only_tags d) (found_tag row)) by (intros [t|]; [apply preserves_ret|apply preserves_throw]).
  apply preserves_bind; [apply preserves_attempt, preserves_checked|].
  - intros d' [E H]. destruct (List.existsb _ _); [done|]. split; [rewrite E at 1; by destruct d|].
    intros t Ht. simpl. apply elem_of_app. left. auto.
  - intros [[]|]; auto with app_wf; (apply preserves_bind; [apply preserves_query|exact Hf]).
Qed.

Lemma tags_ok r s : match r with TagList_ | TagCreate_ _ _ | TagDelete_ _ => True | _ => False end → wp (serve svc cipher ord user r) (outcome r s) s.
Proof.
  intros Hr. destruct r as [| | | | | | | | | | |new req|id]; try done; simpl.
  - eapply (app_db_wp _ _ (λ d' r, d' = aa_db s ∧ match r with inr l => ∀ t, t ∈ l ↔ t ∈ Schema.tags (aa_db s) | inl _ => True end)).
    + apply wp_query; [done|]. split; [done|]. intros t. by rewrite sort_by_elem.
    + intros d [e|l] [-> Hl]; rewrite put_same; apply wp_ret; [done|]. right. eexists. split; [done|]. split; [done|]. by exists l.
  - destruct req as [[name color]|]; [|by apply wp_ret]. eapply app_db_wp; [apply create_tag_wp, only_tags_refl|].
    intros d x Hx. apply wp_ret. right. eexists. split; [done|]. by split.
  - eapply (app_db_wp _ _ (λ d' _, d' = aa_db s ∨ d' = on_app_tags (del (λ l, ag_tag_id l =s TrimSpace id)) (on_tags (del (tag_is (TrimSpace id))) (aa_db s)))).
    + unfold Tags.Delete, Tags.delete. apply wp_bind, wp_fallible; [by left|].
      enough (H : ∀ d', d' = (if List.existsb (tag_is (TrimSpace id)) (Schema.tags (aa_db s))
        then on_app_tags (del (λ l, ag_tag_id l =s TrimSpace id)) (on_tags (del (tag_is (TrimSpace id))) (aa_db s)) else aa_db s) →
        d' = aa_db s ∨ d' = on_app_tags (del (λ l, ag_tag_id l =s TrimSpace id)) (on_tags (del (tag_is (TrimSpace id))) (aa_db s))).
      { destruct (_ =? 0)%nat; [apply wp_throw|apply wp_ret]; by apply H. }
      intros d' ->. destruct (List.existsb _ _); [by right|by left].
    + intros d x Hx. apply wp_ret. right. eexists. split; [done|]. by split.
Qed.

(** C24: Whatever fails, a request on the parts of an app is refused and
    changes nothing, or does what follows and no more.  Volumes and tags of an
    app: the user has the permission of the request on the team of the app, and
    only volumes, or links to tags, of that app change; what is shown are the
    volumes and tags of the app.  Secrets: only secrets of the app that is
    called change, and what is shown are their keys and flags, never a value. *)
Theorem parts_confined r s : apps_wf (aa_db s) → ids_uuid (aa_db s) → vol_ids (aa_db s) →
  wp (serve svc cipher ord user r) (outcome r s) s.
Proof.
  intros Hwf Hids Hv. destruct r; first [by apply volume_ok|by apply links_ok|by apply secrets_ok|by apply tags_ok].
Qed.
End Confined.

(** ** Examples *)

Module Examples.
#[local] Existing Instance ascii_only.
#[local] Existing Instance toy_aead.

Definition other : App := bare_app "99999999-2222-3333-4444-555555555555" "other" (Some "s") (Some "other") true.
Definition vol (id app : string) : Volume := mkVolume id app None ("/" ^^ id) None true false.
Definition shared : Db :=
  on_app_volumes (λ _, [vol "v1" AppsApi.Examples.app1; vol "v2" (a_id other)])
    (on_apps (λ _, [AppsApi.Examples.web; other]) AppsApi.Examples.office).
Definition start : Api := mkApi shared [].
Definition ask (user : option string) (r : request) (s : Api) : Api * (Empty_set + Reply Body) :=
  run (serve ex_svc "k" id user r) s.

Lemma shared_wf : apps_wf shared.
Proof.
  split; simpl.
  - intros a [->| ->%list_elem_of_singleton]%elem_of_cons; (split; try (apply (bool_decide_unpack _); by vm_compute); by split_and!).
  - intros a [->| ->%list_elem_of_singleton]%elem_of_cons; done.
  - apply (bool_decide_unpack _). by vm_compute.
  - apply (bool_decide_unpack _). by vm_compute.
Qed.
Lemma shared_uuid : ids_uuid shared.
Proof. intros a [->| ->%list_elem_of_singleton]%elem_of_cons; by vm_compute. Qed.
Lemma shared_vols : vol_ids shared.
Proof. split; [apply (bool_decide_unpack _); by vm_compute|]. intros v [->| ->%list_elem_of_singleton]%elem_of_cons; by vm_compute. Qed.

Lemma parts_confined_witness :
  ask (Some "root") (VolumeDelete_ "web" " v1 ") start =
    (mkApi (on_app_volumes (λ _, [vol "v2" (a_id other)]) shared) [], inr (Bare 204)) ∧
  wp (serve ex_svc "k" id (Some "root") (VolumeDelete_ "web" " v1 ")) (outcome (Some "root") (VolumeDelete_ "web" " v1 ") start) start.
Proof.
  split; [by vm_compute|]. apply parts_confined; [exact shared_wf|exact shared_uuid|exact shared_vols].
Defined.

(** The volume of another app is not found under this one. *)
Lemma other_volume_hidden : ask (Some "root") (VolumeDelete_ "web" "v2") start = (start, inr (Refuse 404 "not_found")).
Proof. by vm_compute. Qed.

(** Secrets ask for no permission: a viewer who may not change the volumes of
    an app replaces its secrets. *)
Definition item : UpsertItem := mkItem "x" false false.
Lemma guest_writes_secret :
  ask (Some "guest") (VolumeDelete_ "web" "v1") start = (start, inr (Refuse 403 "forbidden")) ∧
  match ask (Some "guest") (SecretUpsert_ "web" (Some ([("TOKEN", item)], [mkWrite "TOKEN" item "s1" (Some "123456789012")]))) start with
  | (s, inr (Answer 200 (BSecrets [m]))) => sm_Key m = "TOKEN" ∧ length (secrets (aa_db s)) = 1
  | _ => False
  end.
Proof. by vm_compute. Qed.
End Examples.
