(* ===== verification/DeployApi.v ===== *)
(** * Endpoints of deployments (internal/api/handler/deployment.go)

    Starting deployments and rollbacks, restarting and stopping an app, the
    history of an app and its logs, over the engine of [Deploy].  A deployment
    runs in a goroutine of its own, on a context that outlives the request: the
    requests append to the list of goroutines, and [run_job] is what one of
    them does on whatever world it finds.  Log files are an argument. *)

From S2P Require Import Prelude Effects GoStrings Decimal Regex Schema Http Routing Docker Apps Domains Swap Compose Deploy AppsApi.

Inductive Body :=
  | BAccepted (deployment_id app_id message : string) | BDeployments (l : list Deployment) | BDeployment (d : Deployment) | BText (s : string).

Record deployReq := mkDeployReq { dq_Branch : string; dq_CommitSHA : string; dq_Tag : string }.

(** A goroutine that has been started. *)
Inductive Job :=
  | JDeploy (appID : string) (opts : DeployOptions)
  | JRollback (appID target : string) (opts : DeployOptions).

(** The body of a request: empty, invalid JSON with what the decoder has
    written before it failed, or decoded. *)
Inductive payload (A : Type) := Empty | Malformed (left : A) | Decoded (a : A).
Arguments Empty {A}. Arguments Malformed {A}. Arguments Decoded {A}.

(** ** The log of a deployment *)

Definition newline : string := String "010"%char "".

(** [bufio.ScanLines]: a line ends at a newline, and loses a carriage return
    before it. *)
Definition dropCR (s : string) : string := TrimSuffix s (String "013"%char "").
Definition raw_lines (s : string) : list string :=
  let l := Split s newline in match last l with Some "" => removelast l | _ => l end.

(** A [Scanner] gives up, without an error to its caller, at a line that does
    not fit its buffer. *)
Definition scanner_max : Z := 2 ^ 22.
Fixpoint scan (l : list string) : list string :=
  match l with
  | [] => []
  | s :: l => if (len s <? scanner_max)%Z then dropCR s :: scan l else []
  end.

(** The ring of the last [n] lines. *)
Definition ring_push (n : nat) (ring : list string) (line : string) : list string :=
  let ring := ring ++ [line] in if n <? length ring then tail ring else ring.
Definition ring (n : nat) (lines : list string) : list string := foldl (ring_push n) [] lines.

(** [make([]string, 0, tail+1)]: the addition wraps, and a capacity that is
    negative or beyond the address space panics. *)
Definition slots_max : Z := 2 ^ 44.
Definition make_panics (tail : Z) : bool :=
  let n := (if tail =? 2 ^ 63 - 1 then - 2 ^ 63 else tail + 1)%Z in ((n <? 0) || (slots_max <? n))%Z.

(** The number of a query parameter, if it is positive. *)
Definition positive (v : string) (other : Z) : Z :=
  match Atoi v with Some n => if (0 <? n)%Z then n else other | None => other end.

Section Handlers.
Context {D C : Type} `{DD : DockerDaemon D} `{CC : CaddyClient C} `{Fl : Floats} `{Nt : Nat} `{Uc : Unicode}.
Context (svc : Apps.Service) (files : string → option string).

Record Site := mkSite { ds_world : World D C; ds_jobs : list Job }.
Definition put_world (w : World D C) (s : Site) : Site := mkSite w (ds_jobs s).
Definition site_db (s : Site) : Db := w_db (ds_world s).
Definition put_site_db (d : Db) (s : Site) : Site := put_world (set_wdb d (ds_world s)) s.

Local Abbreviation hM := (M Site Empty_set).
Definition engine {A} (m : wM (D := D) (C := C) A) : hM (DeployErr + A) := calling ds_world put_world m.
Definition start (j : Job) : hM unit := modify (λ s, mkSite (ds_world s) (ds_jobs s ++ [j])).

(** [a, err := h.apps.Get(id)]; no permission is asked. *)
Definition with_called (id : string) (k : App → hM (Reply Body)) : hM (Reply Body) :=
  r ← calling site_db put_site_db (Apps.Get svc id);
  match r with inl e => mret (appError e) | inr x => k x.1 end.

(** [newID]: the deployment id that is drawn. *)
Definition Deploy (newID id : string) (body : payload deployReq) : hM (Reply Body) :=
  with_called id (λ a,
    match body with
    | Malformed _ => mret (Refuse 400 "invalid_json")
    | _ =>
      let q := match body with Decoded q => q | _ => mkDeployReq "" "" "" end in
      _ ← start (JDeploy (a_id a) (mkDeployOptions (dq_Branch q) (dq_CommitSHA q) (dq_Tag q) newID));
      mret (Answer 202 (BAccepted newID (a_id a) "deploy started"))
    end).

(** The error of the decoder is dropped. *)
Definition Rollback (newID id : string) (body : payload string) : hM (Reply Body) :=
  with_called id (λ a,
    let target := match body with Empty => "" | Malformed t | Decoded t => t end in
    _ ← start (JRollback (a_id a) target (mkDeployOptions "" "" "" newID));
    mret (Answer 202 (BAccepted newID (a_id a) "rollback started"))).

Definition Restart (v : RunEnv D) (id : string) : hM (Reply Body) :=
  with_called id (λ a,
    r ← engine (Deploy.Restart v (a_id a));
    mret match r with inl _ => Refuse 500 "restart_failed" | inr _ => Bare 204 end).

Definition Stop (v : RunEnv D) (id : string) : hM (Reply Body) :=
  with_called id (λ a,
    r ← engine (Deploy.Stop v (a_id a));
    mret match r with inl _ => Refuse 500 "stop_failed" | inr _ => Bare 204 end).

Definition ListByApp (id limit : string) : hM (Reply Body) :=
  with_called id (λ a,
    r ← engine (listByApp (a_id a) (if limit =s "" then 50 else positive limit 50));
    mret match r with inl _ => Refuse 500 "db_error" | inr l => Answer 200 (BDeployments l) end).

Definition with_deployment (id : string) (k : Deployment → Reply Body) : hM (Reply Body) :=
  r ← engine (get_deployment id);
  mret match r with inl ErrDeployNotFound => Refuse 404 "not_found" | inl _ => Refuse 500 "db_error" | inr d => k d end.

Definition Get (id : string) : hM (Reply Body) := with_deployment id (λ d, Answer 200 (BDeployment d)).

(** The text of the last [tail] lines, or the whole file.  A panic is answered
    by the recoverer of the router. *)
Definition tail_text (tail : Z) (content : string) : Reply Body :=
  if (tail <=? 0)%Z then Answer 200 (BText content)
  else if make_panics tail then Bare 500
  else Answer 200 (BText (String.concat "" ((λ l, l ^^ newline) <$> ring (Z.to_nat tail) (scan (raw_lines content))))).

Definition Logs (id tail : string) : hM (Reply Body) :=
  with_deployment id (λ d,
    match dp_log_path d with
    | None => Refuse 404 "no_log"
    | Some path =>
      match files path with
      | None => Refuse 404 "log_missing"
      | Some content => tail_text (if tail =s "" then 0 else positive tail 0) content
      end
    end).

(** What a goroutine does, when it gets to run: its error is only logged. *)
Definition run_job (e : Engine) (v : RunEnv D) (g : Gate) (j : Job) : wM (D := D) (C := C) (Deployment * option DeployErr) :=
  match j with
  | JDeploy app opts => Deploy.Deploy e v g app opts
  | JRollback app target opts => Deploy.Rollback e v g app target opts
  end.

Inductive request :=
  | RDeploy (newID id : string) (body : payload deployReq) | RRollback (newID id : string) (body : payload string)
  | RRestart (id : string) | RStop (id : string) | RListByApp (id limit : string) | RGet (id : string) | RLogs (id tail : string).

Definition serve (v : RunEnv D) (r : request) : hM (Reply Body) :=
  match r with
  | RDeploy new id body => Deploy new id body
  | RRollback new id body => Rollback new id body
  | RRestart id => Restart v id
  | RStop id => Stop v id
  | RListByApp id limit => ListByApp id limit
  | RGet id => Get id
  | RLogs id tail => Logs id tail
  end.
End Handlers.

(** ** The ring *)

Definition last_n {A} (n : nat) (l : list A) : list A := drop (length l - n) l.

Lemma ring_last n l : ring n l = last_n n l.
Proof.
  unfold ring, last_n. induction l as [|x l IH] using rev_ind; [done|]. rewrite foldl_app, IH. cbn [foldl]. unfold ring_push. cbv zeta.
  rewrite <- (drop_app_le l [x]) by lia. rewrite length_drop, length_app. simpl length. destruct (n <? _)%nat eqn:E.
  - apply Nat.ltb_lt in E. change (tail ?l) with (drop 1 l). rewrite drop_drop. f_equal. lia.
  - apply Nat.ltb_ge in E. f_equal. lia.
Qed.

(** ** Deployments get the id that was answered *)

Section Jobs.
Context {D C : Type} `{DD : DockerDaemon D} `{CC : CaddyClient C} `{Fl : Floats} `{Nt : Nat} `{Uc : Unicode}.

Definition made (id app : string) (x : Deployment * option DeployErr) : Prop := dp_id x.1 = id ∧ dp_app_id x.1 = app.

Lemma fail_keeps v a d cause : returns (λ x, dp_id x = dp_id d ∧ dp_app_id x = dp_app_id d) (failDeploy (D := D) (C := C) v a d cause).
Proof. unfold failDeploy. do 4 (apply returns_bind; intros ?). by apply returns_ret. Qed.

Lemma failed_made v a d cause : returns (made (dp_id d) (dp_app_id d)) (failed (D := D) (C := C) v a d cause).
Proof. eapply returns_bind_with; [apply fail_keeps|]. intros x [H1 H2]. by apply returns_ret. Qed.

Lemma succeed_same_ids v a d f : (∀ x, dp_id (f x) = dp_id x ∧ dp_app_id (f x) = dp_app_id x) →
  returns (λ x, dp_id x = dp_id d ∧ dp_app_id x = dp_app_id d) (succeed (C := C) (D := D) v a d f).
Proof. intros Hf. unfold succeed. do 3 (apply returns_bind; intros ?). apply returns_ret. simpl. destruct (Hf (set_dp_status "success" d)) as [H1 H2]. by split. Qed.

Lemma build_made e v a opts d : returns (made (dp_id d) (dp_app_id d)) (build_and_swap (C := C) e v a opts d).
Proof.
  unfold build_and_swap. cbv zeta. do 3 (apply returns_bind; intros ?). apply returns_bind. intros [err|[res|]]; try apply failed_made.
  apply returns_bind. intros _. set (d1 := if negb _ then _ else d).
  assert (Hd : dp_id d1 = dp_id d ∧ dp_app_id d1 = dp_app_id d) by by (unfold d1; destruct (negb _)).
  rewrite <- (proj1 Hd), <- (proj2 Hd). apply returns_bind. intros [err|[]]; [apply failed_made|].
  eapply returns_bind_with; [by apply succeed_same_ids|]. intros x [H1 H2]. do 2 (apply returns_bind; intros ?). by apply returns_ret.
Qed.

Definition opts_id (opts : DeployOptions) (id : string) : Prop := TrimSpace (do_DeploymentID opts) = id ∧ id ≠ "".

Lemma run_made e v a opts rb id : opts_id opts id → returns (made id (a_id a)) (runDeploy (C := C) e v a opts rb).
Proof.
  intros [Hid Hne]. apply String.eqb_neq in Hne. unfold runDeploy. destruct (a_server_id a) as [server|]; [|apply returns_throw]. apply returns_bind. intros srv.
  destruct (negb _); [apply returns_throw|]. cbv zeta. set (d := new_row _ _ _ _ _).
  assert (Hd : dp_id d = id ∧ dp_app_id d = a_id a) by (split; [|done]; unfold d, new_row; simpl; by rewrite Hid, Hne).
  clearbody d. destruct Hd as [<- <-]. apply returns_bind. intros _. destruct (negb _); [apply returns_bind; intros _; apply returns_throw|].
  do 2 (apply returns_bind; intros ?). destruct a1; [apply failed_made|]. apply returns_bind. intros [err|[]]; [apply failed_made|apply build_made].
Qed.

Lemma image_made e v a image rb pre id : TrimSpace pre = id → id ≠ "" → returns (made id (a_id a)) (runFromImage (C := C) e v a image rb pre).
Proof.
  intros Hid Hne. apply String.eqb_neq in Hne. unfold runFromImage. cbv zeta. rewrite Hid, Hne. set (d := mkDeployment _ _ _ _ _ _ _ _ _ _ _ _ _). apply returns_bind. intros _.
  destruct (negb _); [apply returns_bind; intros _; apply returns_throw|]. apply returns_bind. intros _.
  apply returns_bind. intros [err|[]]; [apply (failed_made v a d)|].
  eapply returns_bind_with; [by apply succeed_same_ids|]. intros x [H1 H2]. by apply returns_ret.
Qed.

(** The app of a goroutine, found by its id in whatever world it runs. *)
Lemma get_by_id id : MatchString uuidRegex id = true → returns (λ a, a_id a = id) (Apps_Get (D := D) (C := C) id).
Proof.
  intros Hu w. unfold Apps_Get. cbv zeta. rewrite uuid_trim by done. destruct (_ =s ""); [by apply wp_throw|]. rewrite Hu.
  apply wp_bind, wp_query; [done|]. destruct (sel _ _) as [a|] eqn:E; [apply wp_ret|by apply wp_throw].
  apply sel_Some in E as [_ E%String.eqb_eq]. by intros x [= <-].
Qed.

Lemma rollback_made e v a target opts id : opts_id opts id → returns (made id (a_id a)) (rollback_body (C := C) e v a target opts).
Proof.
  intros [Hid Hne]. unfold rollback_body. apply returns_bind. intros t. destruct (_ =s ""); [apply returns_throw|].
  apply returns_bind. intros _. apply returns_bind. intros r. destruct (match r with inr DOk => false | _ => true end); [apply returns_throw|].
  by apply image_made.
Qed.

Definition job_app (j : Job) : string := match j with JDeploy app _ | JRollback app _ _ => app end.
Definition job_opts (j : Job) : DeployOptions := match j with JDeploy _ opts | JRollback _ _ opts => opts end.

Lemma job_made e v g j id : MatchString uuidRegex (job_app j) = true → opts_id (job_opts j) id →
  returns (made id (job_app j)) (run_job (C := C) e v g j).
Proof.
  intros Hu Ho. destruct j as [app opts|app target opts]; simpl in *; (eapply returns_bind_with; [by apply get_by_id|]);
    intros a <-; (destruct (enter _ _ _).2; [apply returns_throw|]); [by apply run_made|by apply rollback_made].
Qed.
End Jobs.

(** ** What a request does *)

Section Outcome.
Context {D C : Type} `{DD : DockerDaemon D} `{CC : CaddyClient C} `{Fl : Floats} `{Nt : Nat} `{Uc : Unicode}.
Context (svc : Apps.Service) (files : string → option string).
Local Abbreviation Site := (Site (D := D) (C := C)).
Local Abbreviation hM := (M Site Empty_set).

Definition unchanged (s s' : Site) (r : Empty_set + Reply Body) : Prop := s' = s ∧ ∃ st code, r = inr (Refuse st code).

(** The goroutine [j] makes, whenever it runs, only the deployment [id] of
    [app]. *)
Definition makes_only (id app : string) (j : Job) : Prop :=
  ∀ e (v : RunEnv D) g, returns (made id app) (run_job (C := C) e v g j).

(** One goroutine more, and the id of its deployment in the answer. *)
Definition started (newID : string) (a : App) (j : Job) (message : string) (s s' : Site) (reply : Reply Body) : Prop :=
  s' = mkSite (ds_world s) (ds_jobs s ++ [j]) ∧ makes_only newID (a_id a) j ∧ reply = Answer 202 (BAccepted newID (a_id a) message).

(** The database and the routes stay, or the app is marked stopped. *)
Definition halted (a : App) (mark : bool) (s s' : Site) : Prop :=
  ds_jobs s' = ds_jobs s ∧ w_caddy (ds_world s') = w_caddy (ds_world s) ∧
  (site_db s' = site_db s ∨ mark = true ∧ site_db s' = on_apps (upd (is_app (a_id a)) (set_app_status "stopped")) (site_db s)).

(** The positive number [n] is what a query parameter asks for. *)
Definition asks (v : string) (n : Z) : Prop := Atoi v = Some n ∧ (0 < n)%Z.

(** Without a positive number the whole file; with one that is below 2^44 that
    many of the last lines a scanner reads of it, and from there on the panic
    of [make]. *)
Definition log_text (tail content : string) (reply : Reply Body) : Prop :=
  ((∀ n, ¬ asks tail n) → reply = Answer 200 (BText content)) ∧
  ∀ n, asks tail n →
    ((n < 2 ^ 44)%Z → reply = Answer 200 (BText (String.concat "" ((λ l, l ^^ newline) <$> last_n (Z.to_nat n) (scan (raw_lines content)))))) ∧
    ((2 ^ 44 <= n)%Z → reply = Bare 500).

(** A history shows the number of rows that is asked for, 50 without one and
    beyond 500. *)
Definition history_size (limit : string) (k : nat) : Prop :=
  (∀ n, asks limit n → (n <= 500)%Z → Z.of_nat k = n) ∧ ((∀ n, asks limit n → (500 < n)%Z) → k = 50).

Definition performs (r : request) (s s' : Site) (reply : Reply Body) : Prop :=
  let d := site_db s in
  match r with
  | RDeploy new id body => ∃ a, called d id a ∧ (∀ q, body ≠ Malformed q) ∧
      let q := match body with Decoded q => q | _ => mkDeployReq "" "" "" end in
      started new a (JDeploy (a_id a) (mkDeployOptions (dq_Branch q) (dq_CommitSHA q) (dq_Tag q) new)) "deploy started" s s' reply
  | RRollback new id body => ∃ a, called d id a ∧
      started new a (JRollback (a_id a) (match body with Empty => "" | Malformed t | Decoded t => t end) (mkDeployOptions "" "" "" new)) "rollback started" s s' reply
  | RRestart id => ∃ a, called d id a ∧ halted a false s s'
  | RStop id => ∃ a, called d id a ∧ halted a true s s'
  | RListByApp id limit => s' = s ∧ ∃ a n, called d id a ∧ history_size limit n ∧
      reply = Answer 200 (BDeployments (take n (by_newest (List.filter (λ x, dp_app_id x =s a_id a) (deployments d)))))
  | RGet id => s' = s ∧ ∃ x, x ∈ deployments d ∧ dp_id x = id ∧ reply = Answer 200 (BDeployment x)
  | RLogs id tail => s' = s ∧ ∃ x path content, x ∈ deployments d ∧ dp_id x = id ∧ dp_log_path x = Some path ∧ files path = Some content ∧ log_text tail content reply
  end.

Definition outcome (r : request) (s s' : Site) (out : Empty_set + Reply Body) : Prop :=
  unchanged s s' out ∨ ∃ reply, out = inr reply ∧ performs r s s' reply.

Lemma unchanged_ok r s st code : outcome r s s (inr (Refuse st code)).
Proof. left. split; [done|by repeat eexists]. Qed.
#[local] Hint Resolve unchanged_ok : core.

Lemma put_site (s : Site) : put_site_db (site_db s) s = s.
Proof. by destruct s as [[] ?]. Qed.
Lemma put_world_same (s : Site) : put_world (ds_world s) s = s.
Proof. by destruct s. Qed.

Lemma with_called_wp r id (k : App → hM (Reply Body)) s :
  (∀ a, called (site_db s) id a → wp (k a) (outcome r s) s) → wp (with_called svc id k) (outcome r s) s.
Proof.
  intros Hk. unfold with_called. apply wp_bind, wp_calling. eapply wp_mono; [apply get_called|]. intros d [e|x] [-> Hx]; rewrite put_site.
  - destruct (app_error_refuses (B := Body) e) as (st & code & ->). by apply wp_ret.
  - by apply Hk.
Qed.

Lemma engine_wp {A} (m : wM (D := D) (C := C) A) (k : DeployErr + A → hM (Reply Body)) (P : World D C → DeployErr + A → Prop) Q s :
  wp m P (ds_world s) → (∀ w r, P w r → wp (k r) Q (put_world w s)) → wp (r ← engine m; k r) Q s.
Proof. intros Hm Hk. apply wp_bind, wp_calling. eapply wp_mono; [exact Hm|]. intros w r. apply Hk. Qed.

Lemma with_deployment_wp r id (k : Deployment → Reply Body) s :
  (∀ x, x ∈ deployments (site_db s) → dp_id x = id → outcome r s s (inr (k x))) → wp (with_deployment id k) (outcome r s) s.
Proof.
  intros Hk. eapply (engine_wp _ _ (λ w' r, w' = ds_world s ∧ match r with inr x => x ∈ deployments (site_db s) ∧ dp_id x = id | inl _ => True end)).
  - apply wp_bind, wp_query; [done|]. destruct (sel _ _) as [x|] eqn:E; [apply wp_ret|by apply wp_throw]. by apply sel_Some in E as [Hx E%String.eqb_eq].
  - intros w [e|x] [-> Hx]; rewrite put_world_same; apply wp_ret; [by destruct e|]. apply Hk; tauto.
Qed.

Lemma asked_or v other : (∃ n, asks v n ∧ (if v =s "" then other else positive v other) = n) ∨ (∀ n, ¬ asks v n) ∧ (if v =s "" then other else positive v other) = other.
Proof.
  unfold asks, positive. destruct (v =s "") eqn:E; bool_simp; [right; split; [intros n [Ha _]; by rewrite E in Ha|done]|].
  destruct (Atoi v) as [n|]; [|right; split; [by intros n [? _]|done]]. destruct (Z.ltb_spec 0 n); [left; eauto|].
  right. split; [|done]. intros n' [[= <-] ?]. lia.
Qed.

Lemma asks_same v n n' : asks v n → asks v n' → n = n'.
Proof. intros [E _] [E' _]. congruence. Qed.

Lemma make_panics_from n : (0 < n < 2 ^ 63)%Z → make_panics n = (2 ^ 44 <=? n)%Z.
Proof. unfold make_panics, slots_max. intros H. destruct (Z.eqb_spec n (2 ^ 63 - 1)); lia. Qed.

Lemma tail_text_ok tail content : log_text tail content (tail_text (if tail =s "" then 0 else positive tail 0) content).
Proof.
  destruct (asked_or tail 0) as [(n & Ha & ->) | [Hn ->]]; unfold tail_text; [|split; [done|]; by intros n ?%Hn].
  split; [intros Hn; by apply Hn in Ha|]. intros n' Ha'. rewrite (asks_same _ _ _ Ha' Ha). destruct Ha as [Ha Hp]. apply Atoi_below in Ha.
  rewrite (proj2 (Z.leb_gt n 0)), make_panics_from, ring_last by lia. split; intros H; [by rewrite (proj2 (Z.leb_gt _ _))|by rewrite (proj2 (Z.leb_le _ _))].
Qed.

Lemma history_size_ok limit : let n := (if limit =s "" then 50 else positive limit 50)%Z in
  history_size limit (Z.to_nat (if (n <=? 0) || (500 <? n) then 50 else n)%Z).
Proof.
  cbv zeta. destruct (asked_or limit 50) as [(n & Ha & ->) | [Hn ->]]; (split; [intros n' Ha' Hle|intros Hbig]); try done; try (by apply Hn in Ha').
  - rewrite (asks_same _ _ _ Ha' Ha) in *. destruct Ha as [_ Hp]. destruct (Z.leb_spec n 0), (Z.ltb_spec 500 n); simpl; lia.
  - apply Hbig in Ha as Hb. destruct (Z.leb_spec n 0), (Z.ltb_spec 500 n); simpl; lia.
Qed.

(** A call of the engine that leaves the database and the proxy alone. *)
Definition quiet (w w' : World D C) : Prop := w_db w' = w_db w ∧ w_caddy w' = w_caddy w.

Lemma docker_quiet {A} (m : dockM (D := D) A) w : preserves (quiet w) (docker (C := C) m).
Proof. intros w' Hw fs. unfold docker. by destruct (m (w_docker w', []) fs) as [[? ?] ?]. Qed.
Lemma provider_quiet reach id w : preserves (quiet w) (Provider (D := D) (C := C) reach id).
Proof.
  apply preserves_bind.
  - apply preserves_bind; [apply preserves_query|]. intros [x|]; [apply preserves_ret|apply preserves_throw].
  - intros _. destruct (reach id); [apply preserves_ret|apply preserves_throw].
Qed.
Lemma get_quiet id w : preserves (quiet w) (Apps_Get (D := D) (C := C) id).
Proof.
  unfold Apps_Get. cbv zeta. destruct (_ =s ""); [apply preserves_throw|]. apply preserves_bind; [apply preserves_query|].
  intros [x|]; [apply preserves_ret|apply preserves_throw].
Qed.

Lemma restart_quiet v id w : preserves (quiet w) (Deploy.Restart (C := C) v id).
Proof.
  apply preserves_bind; [apply get_quiet|]. intros a. destruct (a_container_name a); [|apply preserves_throw].
  apply preserves_bind; [apply provider_quiet|]. intros _. apply preserves_bind; [apply docker_quiet|].
  intros [e|[]]; (apply preserves_ret || apply preserves_throw).
Qed.

Lemma engine_stop_wp v id w : MatchString uuidRegex id = true → wp (Deploy.Stop (C := C) v id) (λ w' _, w_caddy w' = w_caddy w ∧
  (w_db w' = w_db w ∨ w_db w' = on_apps (upd (is_app id) (set_app_status "stopped")) (w_db w))) w.
Proof.
  intros Hu. unfold Deploy.Stop. apply wp_bind. eapply wp_mono; [apply wp_and; [by apply (get_quiet id w w)|by apply get_by_id]|].
  intros w1 [e|a] [[Hd Hc] Ha]; [by split; [|left]|]. specialize (Ha a eq_refl). apply (wp_keep (quiet w)).
  - destruct (a_container_name a) as [c|]; [|apply preserves_ret]. apply preserves_bind; [apply preserves_attempt, provider_quiet|].
    intros [e|?]; [apply preserves_ret|]. apply preserves_bind; [apply docker_quiet|]. intros _. apply preserves_ret.
  - done.
  - intros w2 e [H1 H2]. by split; [|left].
  - intros w2 _ [H1 H2]. rewrite Ha. unfold SetStatus. apply wp_bind, wp_query; [by split; [|left]|].
    destruct (sel _ _); [|apply wp_throw; by split; [|left]]. destruct (_ && _); [apply wp_ret; by split; [|left]|].
    apply wp_exec; [by split; [|left]|]. simpl. rewrite H1. by split; [|right].
Qed.

Lemma halt_wp r id a (mark : bool) (m : wM (D := D) (C := C) unit) (k : DeployErr + unit → Reply Body) s :
  called (site_db s) id a →
  (∀ s' reply, halted a mark s s' → performs r s s' reply) →
  wp m (λ w' _, w_caddy w' = w_caddy (ds_world s) ∧ (w_db w' = w_db (ds_world s) ∨
    mark = true ∧ w_db w' = on_apps (upd (is_app (a_id a)) (set_app_status "stopped")) (w_db (ds_world s)))) (ds_world s) →
  wp (x ← engine m; mret (k x)) (outcome r s) s.
Proof.
  intros Hc Hp Hm. eapply engine_wp; [exact Hm|]. intros w x [H1 H2]. apply wp_ret. right. eexists. split; [done|]. apply Hp. by split_and!.
Qed.

Lemma job_started new a j message s : MatchString uuidRegex new = true → MatchString uuidRegex (a_id a) = true →
  job_app j = a_id a → do_DeploymentID (job_opts j) = new →
  started new a j message s (mkSite (ds_world s) (ds_jobs s ++ [j])) (Answer 202 (BAccepted new (a_id a) message)).
Proof.
  intros Hn Ha Hj Ho. split_and!; try done. rewrite <- Hj. intros e v g. apply job_made; [by rewrite Hj|].
  split; [rewrite Ho; by apply uuid_trim|by intros ->].
Qed.

Definition fresh_uuid (r : request) : Prop :=
  match r with RDeploy new _ _ | RRollback new _ _ => MatchString uuidRegex new = true | _ => True end.

(** C25: Whatever fails, a request on deployments is refused and changes
    nothing, or does exactly this.  An accepted deployment or rollback starts
    one goroutine, for the app that is called, and answers the id of the
    deployment: whenever the goroutine runs, under any faults, a deployment it
    returns has that id and that app.  A restart changes neither the database
    nor a route, a stop at most the status of the app.  A history is the newest
    deployments of the app, as many as the limit asks for, 50 without a positive
    limit and beyond 500.  A log is the file of the deployment; with a positive
    tail [n] below 2^44 it is exactly the last [n] of the lines a scanner reads,
    up to a line of four megabytes, and from 2^44 on the reply is the 500 of a
    panic.  (A capacity below 2^44 that memory does not hold ends the process;
    memory is not modelled.) *)
Theorem deployments_as_answered v r s : ids_uuid (site_db s) → fresh_uuid r → wp (serve svc files v r) (outcome r s) s.
Proof.
  intros Hu Hf. destruct r as [new id body|new id body|id|id|id limit|id|id tail]; simpl in Hf |- *.
  - apply with_called_wp. intros a Ha. destruct body as [| |q]; [|by apply wp_ret|]; apply wp_bind, wp_modify, wp_ret; right; eexists; (split; [done|]);
      exists a; (split_and!; [done|done|]).
    + apply job_started; try done. apply Hu, Ha.
    + apply job_started; try done. apply Hu, Ha.
  - apply with_called_wp. intros a Ha. apply wp_bind, wp_modify, wp_ret. right. eexists. split; [done|]. exists a. split; [done|].
    apply job_started; try done. apply Hu, Ha.
  - apply with_called_wp. intros a Ha. apply (halt_wp _ id a false _ (λ x, match x with inl _ => _ | inr _ => _ end)); [done|by exists a|].
    eapply wp_mono; [by apply (restart_quiet v (a_id a) (ds_world s) (ds_world s))|]. intros w r [H1 H2]. by split; [|left].
  - apply with_called_wp. intros a Ha. apply (halt_wp _ id a true _ (λ x, match x with inl _ => _ | inr _ => _ end)); [done|by exists a|].
    eapply wp_mono; [apply engine_stop_wp, Hu, Ha|]. intros w r [H1 [H2|H2]]; (split; [done|]); [by left|by right].
  - apply with_called_wp. intros a Ha. set (n := if limit =s "" then _ else _). eapply (engine_wp _ _ (λ w' r, w' = ds_world s ∧
      match r with inr l => ∃ k, history_size limit k ∧ l = take k (by_newest (List.filter (λ x, dp_app_id x =s a_id a) (deployments (site_db s)))) | inl _ => True end)).
    + apply wp_query; [done|]. split; [done|]. eexists. split; [|done]. apply history_size_ok.
    + intros w [e|l] [-> Hl]; rewrite put_world_same; apply wp_ret; [done|]. destruct Hl as (k & Hk & ->). right. eexists. split; [done|]. split; [done|]. by exists a, k.
  - apply with_deployment_wp. intros x Hx Hi. right. eexists. split; [done|]. split; [done|]. by exists x.
  - apply with_deployment_wp. intros x Hx Hi. destruct (dp_log_path x) as [path|] eqn:Ep; [|done]. destruct (files path) as [content|] eqn:Ec; [|done].
    right. eexists. split; [done|]. split; [done|]. exists x, path, content. split_and!; try done. apply tail_text_ok.
Qed.
End Outcome.

(** ** Examples *)

Module Examples.
#[local] Existing Instance ascii_only.
#[local] Existing Instance z_floats.
#[local] Existing Instance any_port.

Definition dep : string := "22222222-2222-3333-4444-555555555555".
Definition host : World (list Docker.Container) (gmap string Route) :=
  mkWorld (AppsApi.Examples.office) [Docker.mkContainer "1" "web" (wd_config "web" "prexel-web-aaa:1") true] {["example.com" := mkRoute "web" 8080 true]} [] [].
Local Abbreviation Hosted := (Site (D := list Docker.Container) (C := gmap string Route)).
Definition site : Hosted := mkSite host [].
Definition ask (r : request) (s : Hosted) : Hosted * (Empty_set + Reply Body) := run (serve ex_svc (λ _, None) wd_run r) s.
Definition push : deployReq := mkDeployReq "main" "" "".

Lemma deployments_as_answered_witness :
  let j := JDeploy AppsApi.Examples.app1 (mkDeployOptions "main" "" "" dep) in
  ask (RDeploy dep "web" (Decoded push)) site =
    (mkSite host [j], inr (Answer 202 (BAccepted dep AppsApi.Examples.app1 "deploy started"))) ∧
  match (run (run_job wd_engine wd_run idle j) host).2 with inr (d, None) => dp_id d = dep ∧ dp_status d = "success" | _ => False end ∧
  wp (serve ex_svc (λ _, None) wd_run (RDeploy dep "web" (Decoded push)))
    (outcome (DD := _) (CC := _) (λ _, None) (RDeploy dep "web" (Decoded push)) site) site.
Proof.
  split; [by vm_compute|]. split; [by vm_compute|]. apply deployments_as_answered; [exact AppsApi.Examples.office_uuid|by vm_compute].
Defined.

(** A rollback whose body is not JSON is a rollback to the default target. *)
Lemma malformed_rolls_back : ask (RRollback dep "web" (Malformed "")) site =
  (mkSite host [JRollback AppsApi.Examples.app1 "" (mkDeployOptions "" "" "" dep)], inr (Answer 202 (BAccepted dep AppsApi.Examples.app1 "rollback started"))).
Proof. by vm_compute. Qed.

(** The stop that is routed asks for no permission: the viewer of [AppsApi] who
    may not stop the app there stops it here. *)
Lemma anyone_stops :
  AppsApi.Examples.ask (Some "guest") (AppsApi.RStop "web") AppsApi.Examples.start = (AppsApi.Examples.start, inr (Refuse 403 "forbidden")) ∧
  (ask (RStop "web") site).2 = inr (Bare 204) ∧ a_status <$> apps (site_db (ask (RStop "web") site).1) = ["stopped"].
Proof. by vm_compute. Qed.

(** A tail of the largest integer panics. *)
Lemma huge_tail : tail_text (2 ^ 63 - 1) "log" = Bare 500 ∧ positive "9223372036854775807" 0 = (2 ^ 63 - 1)%Z.
Proof. by vm_compute. Qed.

Lemma tail_two : tail_text 2 ("a" ^^ newline ^^ "b" ^^ newline ^^ "c") = Answer 200 (BText ("b" ^^ newline ^^ "c" ^^ newline)).
Proof. by vm_compute. Qed.
End Examples.
