(* ===== verification/OrgApi.v ===== *)
(** * Endpoints of the organisation (internal/api/handler/rbac.go)

    Roles, members, teams and avatars: the handlers over the services of
    [Rbac] and [RbacTeams], with the permission each of them asks for.  Requests
    are decoded ([None]: invalid JSON); ids, salts and the clock are arguments;
    the directory of the avatars is a map from names to contents. *)

From S2P Require Import Prelude Effects GoStrings Paths Schema CryptoLib Refresh TwoFactor Http Rbac RbacTeams.
From stdpp Require Import gmap.

Inductive Body :=
  | BPermissions (l : list PermissionDefinition) | BRoles (l : list Role) | BRole (r : Role)
  | BMembers (l : list Member) | BMember (m : Member) | BTeams (l : list Team) | BTeam (t : Team) | BTeamMembers (t : Team) (l : list Member)
  | BUser (u : UserCtx) | BFile (name : string).

Record updateRoleReq := mkUpdateRoleReq {
  xr_Name : option string; xr_Description : option string; xr_Scope : option string; xr_Permissions : option (list string);
}.
Record updateMemberReq := mkUpdateMemberReq {
  xm_Name : option string; xm_RoleID : option string; xm_Status : option string;
  xm_TeamIDs : option (list string); xm_Teams : option (list TeamMemberInput);
}.
Record membersReq := mkMembersReq { xs_MemberIDs : list string; xs_Members : list TeamMemberInput }.

(** A field that is absent or null is [None], a nil slice of the code. *)
Definition role_input (q : updateRoleReq) : UpdateRoleInput :=
  mkUpdateRoleInput (xr_Name q) (xr_Description q) (xr_Scope q) (default [] (xr_Permissions q)) (is_some (xr_Permissions q)).
Definition member_input (q : updateMemberReq) : UpdateMemberInput :=
  mkUpdateMemberInput (xm_Name q) (xm_RoleID q) (xm_Status q) (default [] (xm_TeamIDs q)) (default [] (xm_Teams q))
    (is_some (xm_TeamIDs q) || is_some (xm_Teams q)).
Definition members_input (q : membersReq) : list TeamMemberInput :=
  if is_nil (xs_Members q) && negb (is_nil (xs_MemberIDs q)) then (λ id, mkTMI "" id "") <$> xs_MemberIDs q else xs_Members q.

(** ** Names of files *)

(** [filepath.Base]. *)
Definition Base (p : string) : string := match last (segments p) with Some s => s | None => if p =s "" then "." else "/" end.

(** [filepath.Ext]: from the last dot of the last element. *)
Fixpoint ext_of (acc rev : list ascii) : list ascii :=
  match rev with
  | [] => []
  | c :: rev => if Ascii.eqb c "." then c :: acc else if Ascii.eqb c "/" then [] else ext_of (c :: acc) rev
  end.
Definition Ext (p : string) : string := String.string_of_list_ascii (ext_of [] (List.rev (String.list_ascii_of_string p))).

Definition avatar_max : Z := 2 ^ 21.
Definition avatar_exts : list string := [".png"; ".jpg"; ".jpeg"; ".webp"].

(** ** The avatars on disk *)

Abbreviation Files := (gmap string string).
Local Abbreviation fM := (M Files unit).
Definition touch (name : string) : fM unit := exec tt (<[name := ""]>).
(** [io.Copy] from a reader of at most [avatar_max] bytes; [part] bytes are on
    disk when a write fails. *)
Definition copy (part : nat) (name content : string) : fM unit :=
  r ← attempt (exec tt (λ f, f));
  match r with
  | inl _ => _ ← modify (<[name := take_s part content]>); throw tt
  | inr _ =>
    if (len content <=? avatar_max)%Z then modify (<[name := content]>)
    else _ ← modify (<[name := take_s (Z.to_nat avatar_max) content]>); throw tt
  end.
Definition remove (name : string) : fM unit := exec tt (delete name).

Section Handlers.
Context `{Unicode} `{CryptoLib} (user : option string).

Record Org := mkOrg { og_db : Db; og_files : Files }.
Definition put_db (d : Db) (s : Org) : Org := mkOrg d (og_files s).
Definition put_files (f : Files) (s : Org) : Org := mkOrg (og_db s) f.

Local Abbreviation hM := (M Org Empty_set).
Definition db {A} (m : M Db RbacErr A) : hM (RbacErr + A) := calling og_db put_db m.
Definition disk {A} (m : fM A) : hM (unit + A) := calling og_files put_files m.

Definition rbacError (e : RbacErr) : Reply Body :=
  match e with
  | ErrForbidden => Refuse 403 "forbidden"
  | ErrNotFound => Refuse 404 "not_found"
  | ErrInvalidInput => Refuse 400 "bad_request"
  | ErrSystemRole => Refuse 400 "system_role"
  | ErrRoleInUse => Refuse 409 "role_in_use"
  | ErrTeamHasApps => Refuse 409 "team_has_apps"
  | ErrSelfDelete => Refuse 400 "cannot_delete_self"
  | ErrBcryptFailed | ErrDb _ => Refuse 500 "internal_error"
  end.

Definition authorize (perm : string) (k : string → hM (Reply Body)) : hM (Reply Body) :=
  match user with
  | None => mret (Refuse 401 "unauthorized")
  | Some uid => r ← db (Require uid perm); match r with inl e => mret (rbacError e) | inr _ => k uid end
  end.

Definition authorizeTeam (teamID perm : string) (k : hM (Reply Body)) : hM (Reply Body) :=
  match user with
  | None => mret (Refuse 401 "unauthorized")
  | Some uid =>
    r ← db (CanAccessTeam uid (Some teamID) perm);
    match r with inl e => mret (rbacError e) | inr true => k | inr false => mret (Refuse 403 "forbidden") end
  end.

(** [decodeJSON]. *)
Definition decoded {A} (req : option A) (k : A → hM (Reply Body)) : hM (Reply Body) :=
  match req with None => mret (Refuse 400 "invalid_json") | Some q => k q end.

(** A call of the service, and its answer. *)
Definition answer {A} (m : M Db RbacErr A) (k : A → Reply Body) : hM (Reply Body) :=
  r ← db m; mret match r with inl e => rbacError e | inr x => k x end.
Definition list_of {A} (m : M Db RbacErr A) (k : A → Body) : hM (Reply Body) :=
  r ← db m; mret match r with inl _ => Refuse 500 "db_error" | inr x => Answer 200 (k x) end.

Definition Permissions : hM (Reply Body) := mret (Answer 200 (BPermissions PermissionDefinitions)).

Definition ListRoles : hM (Reply Body) := authorize PermRolesView (λ _, list_of Rbac.ListRoles BRoles).
Definition CreateRole (uuid newID : string) (req : option CreateRoleInput) : hM (Reply Body) :=
  authorize PermRolesManage (λ _, decoded req (λ q, answer (Rbac.CreateRole uuid newID q) (λ r, Answer 201 (BRole r)))).
Definition UpdateRole (id : string) (req : option updateRoleReq) : hM (Reply Body) :=
  authorize PermRolesManage (λ _, decoded req (λ q, answer (Rbac.UpdateRole id (role_input q)) (λ r, Answer 200 (BRole r)))).
Definition DeleteRole (id : string) : hM (Reply Body) :=
  authorize PermRolesManage (λ _, answer (Rbac.DeleteRole id) (λ _, Bare 204)).

Definition ListMembers : hM (Reply Body) := authorize PermMembersView (λ _, list_of RbacTeams.ListMembers BMembers).
Definition CreateMember (newID salt : string) (now : Z) (req : option CreateMemberInput) : hM (Reply Body) :=
  authorize PermMembersInvite (λ _, decoded req (λ q, answer (RbacTeams.CreateMember newID salt now q) (λ m, Answer 201 (BMember m)))).
Definition UpdateMember (id : string) (req : option updateMemberReq) : hM (Reply Body) :=
  authorize PermMembersManage (λ _, decoded req (λ q, answer (RbacTeams.UpdateMember id (member_input q)) (λ m, Answer 200 (BMember m)))).
Definition DeleteMember (id : string) : hM (Reply Body) :=
  authorize PermMembersManage (λ uid, answer (RbacTeams.DeleteMember id uid) (λ _, Bare 204)).

Definition ListTeams : hM (Reply Body) := authorize PermTeamsView (λ _, list_of RbacTeams.ListTeams BTeams).
Definition CreateTeam (newID : string) (req : option CreateTeamInput) : hM (Reply Body) :=
  authorize PermTeamsManage (λ _, decoded req (λ q, answer (RbacTeams.CreateTeam newID q) (λ t, Answer 201 (BTeam t)))).
Definition GetTeam (id : string) : hM (Reply Body) :=
  authorizeTeam id PermTeamsView (
    r ← db (RbacTeams.GetTeam id);
    match r with
    | inl e => mret (rbacError e)
    | inr t => list_of (MembersForTeam (t_ID t)) (BTeamMembers t)
    end).
Definition UpdateTeam (id : string) (req : option UpdateTeamInput) : hM (Reply Body) :=
  authorizeTeam id PermTeamsManage (decoded req (λ q, answer (RbacTeams.UpdateTeam id q) (λ t, Answer 200 (BTeam t)))).
Definition DeleteTeam (id : string) : hM (Reply Body) :=
  authorize PermTeamsManage (λ _, answer (RbacTeams.DeleteTeam id) (λ _, Bare 204)).
Definition SetTeamMembers (id : string) (req : option membersReq) : hM (Reply Body) :=
  authorizeTeam id PermTeamsMembersManage (decoded req (λ q, answer (RbacTeams.SetTeamMembers id (members_input q)) (λ t, Answer 200 (BTeam t)))).

(** The form: not multipart, without the file, or its name and content. *)
Inductive form := NoForm | NoFile | File (filename content : string).

Definition avatar_name (uid newID ext : string) : string := uid ^^ "-" ^^ newID ^^ ext.

Definition UploadAvatar (newID : string) (part : nat) (f : form) : hM (Reply Body) :=
  match user, f with
  | None, _ => mret (Refuse 401 "unauthorized")
  | _, NoForm => mret (Refuse 400 "invalid_upload")
  | _, NoFile => mret (Refuse 400 "missing_avatar")
  | Some uid, File filename content =>
    let ext := ToLower (Ext filename) in
    if negb (List.existsb (String.eqb ext) avatar_exts) then mret (Refuse 400 "unsupported_avatar_type")
    else
      let name := avatar_name uid newID ext in
      r ← disk (exec tt (λ f, f));
      match r with
      | inl _ => mret (Refuse 500 "upload_error")
      | inr _ =>
        r ← disk (touch name);
        match r with
        | inl _ => mret (Refuse 500 "upload_error")
        | inr _ =>
          r ← disk (copy part name content);
          match r with
          | inl _ => mret (Refuse 400 "avatar_too_large")
          | inr _ =>
            r ← disk (exec tt (λ f, f));
            match r with
            | inl _ => mret (Refuse 500 "upload_error")
            | inr _ =>
              r ← db (SetUserAvatar uid name);
              match r with inl e => mret (rbacError e) | inr _ => answer (UserContext uid) (λ u, Answer 200 (BUser u)) end
            end
          end
        end
      end
  end.

Definition DeleteAvatar : hM (Reply Body) :=
  match user with
  | None => mret (Refuse 401 "unauthorized")
  | Some uid =>
    r ← db (AvatarPath uid);
    let path := match r with inr p => p | inl _ => "" end in
    _ ← (if path =s "" then mret (inr tt) else disk (remove (Base path)));
    answer (SetUserAvatar uid "") (λ _, Bare 204)
  end.

(** The file of the directory that is served. *)
Definition ServeAvatar (param : string) : hM (Reply Body) :=
  let name := Base param in
  if (name =s ".") || (name =s "/") || (name =s "") then mret (Refuse 404 "not_found")
  else mret (Answer 200 (BFile name)).

Inductive request :=
  | RPermissions | RListRoles | RCreateRole (uuid newID : string) (req : option CreateRoleInput) | RUpdateRole (id : string) (req : option updateRoleReq) | RDeleteRole (id : string)
  | RListMembers | RCreateMember (newID salt : string) (now : Z) (req : option CreateMemberInput) | RUpdateMember (id : string) (req : option updateMemberReq) | RDeleteMember (id : string)
  | RListTeams | RCreateTeam (newID : string) (req : option CreateTeamInput) | RGetTeam (id : string) | RUpdateTeam (id : string) (req : option UpdateTeamInput)
  | RDeleteTeam (id : string) | RSetTeamMembers (id : string) (req : option membersReq)
  | RUploadAvatar (newID : string) (part : nat) (f : form) | RDeleteAvatar | RServeAvatar (param : string).

Definition serve (r : request) : hM (Reply Body) :=
  match r with
  | RPermissions => Permissions
  | RListRoles => ListRoles
  | RCreateRole uuid id req => CreateRole uuid id req
  | RUpdateRole id req => UpdateRole id req
  | RDeleteRole id => DeleteRole id
  | RListMembers => ListMembers
  | RCreateMember id salt now req => CreateMember id salt now req
  | RUpdateMember id req => UpdateMember id req
  | RDeleteMember id => DeleteMember id
  | RListTeams => ListTeams
  | RCreateTeam id req => CreateTeam id req
  | RGetTeam id => GetTeam id
  | RUpdateTeam id req => UpdateTeam id req
  | RDeleteTeam id => DeleteTeam id
  | RSetTeamMembers id req => SetTeamMembers id req
  | RUploadAvatar id part f => UploadAvatar id part f
  | RDeleteAvatar => DeleteAvatar
  | RServeAvatar p => ServeAvatar p
  end.
End Handlers.

(** ** What a request does *)

Section Outcome.
Context `{Unicode} `{CryptoLib} (user : option string).
Local Abbreviation hM := (M Org Empty_set).

Definition unchanged (s s' : Org) (r : Empty_set + Reply Body) : Prop := s' = s ∧ ∃ st code, r = inr (Refuse st code).

(** Only one role has changed; only one user with the memberships of that user;
    only one team with its memberships. *)
Definition only_role (id : string) (d d' : Db) : Prop :=
  d' = on_roles (λ _, roles d') d ∧ ∀ x, ro_id x ≠ id → x ∈ roles d' ↔ x ∈ roles d.
Definition only_member (id : string) (d d' : Db) : Prop :=
  d' = on_users (λ _, users d') (on_team_members (λ _, team_members d') d) ∧
  (∀ u, u_id u ≠ id → u ∈ users d' ↔ u ∈ users d) ∧
  (∀ m, mb_user_id m ≠ id → m ∈ team_members d' ↔ m ∈ team_members d).
Definition only_team (id : string) (d d' : Db) : Prop :=
  d' = on_teams (λ _, teams d') (on_team_members (λ _, team_members d') d) ∧
  (∀ t, tm_id t ≠ id → t ∈ teams d' ↔ t ∈ teams d) ∧
  (∀ m, mb_team_id m ≠ id → m ∈ team_members d' ↔ m ∈ team_members d).

Definition performs (r : request) (s s' : Org) (reply : Reply Body) : Prop :=
  let d := og_db s in let d' := og_db s' in
  let globally p (P : string → Prop) := ∃ u, user = Some u ∧ may d u p = true ∧ og_files s' = og_files s ∧ P u in
  let team id p (P : Prop) := ∃ u, user = Some u ∧ may_access d u (Some id) p = true ∧ og_files s' = og_files s ∧ P in
  match r with
  | RPermissions | RServeAvatar _ => s' = s
  | RListRoles => globally PermRolesView (λ _, d' = d)
  | RCreateRole _ id _ | RUpdateRole id _ | RDeleteRole id => globally PermRolesManage (λ _, only_role id d d')
  | RListMembers => globally PermMembersView (λ _, d' = d)
  | RCreateMember new _ _ _ => globally PermMembersInvite (λ _, only_member new d d')
  | RUpdateMember id _ => globally PermMembersManage (λ _, only_member id d d')
  | RDeleteMember id => globally PermMembersManage (λ u, d' = d ∨ id ≠ u ∧ d' = delete_user id d)
  | RListTeams => globally PermTeamsView (λ _, d' = d)
  | RCreateTeam new _ => globally PermTeamsManage (λ _, only_team new d d')
  | RGetTeam id => team id PermTeamsView (d' = d)
  | RUpdateTeam id _ => team id PermTeamsManage (only_team id d d' ∧ team_members d' = team_members d)
  | RDeleteTeam id => globally PermTeamsManage (λ _, d' = d ∨ cnt (app_of_team id) (apps d) = 0 ∧ d' = delete_team id d)
  | RSetTeamMembers id _ => team id PermTeamsMembersManage (only_team id d d' ∧ teams d' = teams d)
  | RUploadAvatar new _ _ => ∃ u ext, user = Some u ∧ ext ∈ avatar_exts ∧ let name := avatar_name u new ext in
      (∀ k, k ≠ name → og_files s' !! k = og_files s !! k) ∧
      (d' = d ∨ d' = on_users (upd (is_user u) (set_avatar name)) d ∧ ∃ content, og_files s' !! name = Some content ∧ (len content <= avatar_max)%Z)
  | RDeleteAvatar => ∃ u, user = Some u ∧ (d' = d ∨ d' = on_users (upd (is_user u) (set_avatar "")) d) ∧
      (og_files s' = og_files s ∨ ∃ x, sel (is_user u) (users d) = Some x ∧ og_files s' = delete (Base (str (u_avatar_path x))) (og_files s))
  end.

Definition outcome (r : request) (s s' : Org) (out : Empty_set + Reply Body) : Prop :=
  unchanged s s' out ∨ ∃ reply, out = inr reply ∧ performs r s s' reply.

Lemma org_refused r s st code : outcome r s s (inr (Refuse st code)).
Proof. left. split; [done|by repeat eexists]. Qed.
#[local] Hint Resolve org_refused : core.

Lemma rbac_error_ok r s e : outcome r s s (inr (rbacError e)).
Proof. destruct e; apply org_refused. Qed.

Lemma put_db_same s : put_db (og_db s) s = s.
Proof. by destruct s. Qed.

Lemma db_wp {A} (m : M Db RbacErr A) (k : RbacErr + A → hM (Reply Body)) (P : Db → RbacErr + A → Prop) Q s :
  wp m P (og_db s) → (∀ d r, P d r → wp (k r) Q (put_db d s)) → wp (r ← db m; k r) Q s.
Proof. intros Hm Hk. apply wp_bind, wp_calling. eapply wp_mono; [exact Hm|]. intros d r. apply Hk. Qed.

Lemma require_wp u p d : wp (Require u p) (λ d' r, d' = d ∧ (r = inr tt → may d u p = true)) d.
Proof.
  unfold Require. apply wp_bind. eapply wp_mono; [apply has_permission_wp|]. intros d' [e|b] [-> Hb]; [done|].
  specialize (Hb b eq_refl). destruct b; simpl; [by apply wp_ret|by apply wp_throw].
Qed.

Lemma permitted_wp r perm (k : string → hM (Reply Body)) s :
  (∀ u, user = Some u → may (og_db s) u perm = true → wp (k u) (outcome r s) s) → wp (authorize user perm k) (outcome r s) s.
Proof.
  intros Hk. unfold authorize. destruct user as [u|]; [|by apply wp_ret]. eapply db_wp; [apply require_wp|].
  intros d [e|[]] [-> Hm]; rewrite put_db_same; [apply wp_ret, rbac_error_ok|]. apply Hk; [done|by apply Hm].
Qed.

Lemma authorize_team_wp r id perm (k : hM (Reply Body)) s :
  (∀ u, user = Some u → may_access (og_db s) u (Some id) perm = true → wp k (outcome r s) s) → wp (authorizeTeam user id perm k) (outcome r s) s.
Proof.
  intros Hk. unfold authorizeTeam. destruct user as [u|]; [|by apply wp_ret]. eapply db_wp; [apply can_access_team_wp|].
  intros d [e|b] [-> Hb]; rewrite put_db_same; [apply wp_ret, rbac_error_ok|]. specialize (Hb b eq_refl).
  destruct b; [by apply (Hk u)|by apply wp_ret].
Qed.

Lemma decoded_wp {A} r (req : option A) (k : A → hM (Reply Body)) s : (∀ q, wp (k q) (outcome r s) s) → wp (decoded req k) (outcome r s) s.
Proof. intros Hk. destruct req as [q|]; [apply Hk|by apply wp_ret]. Qed.

(** A call of a service that changes the database as [R] says. *)
Lemma answer_wp {A} r (m : M Db RbacErr A) (k : A → Reply Body) (R : Db → Prop) s :
  wp m (λ d' _, R d') (og_db s) → (∀ d' reply, R d' → performs r s (put_db d' s) reply) → wp (answer m k) (outcome r s) s.
Proof. intros Hm Hp. eapply db_wp; [exact Hm|]. intros d x HR. apply wp_ret. right. eexists. split; [done|]. by apply Hp. Qed.

Lemma list_wp {A} r (m : M Db RbacErr A) (k : A → Body) s :
  read_only m → (∀ reply, performs r s s reply) → wp (list_of m k) (outcome r s) s.
Proof.
  intros Hm Hp. eapply db_wp; [apply Hm|]. intros d [e|x] ->; rewrite put_db_same; apply wp_ret; [done|]. right. eexists. by split.
Qed.

(** *** The services, by what they leave alone *)

Lemma list_roles_ro : read_only Rbac.ListRoles.
Proof. unfold Rbac.ListRoles. ro. Qed.
Lemma fill_teams_ro l : read_only (fill_teams l).
Proof. induction l; simpl; ro. Qed.
Lemma list_members_ro : read_only RbacTeams.ListMembers.
Proof. unfold RbacTeams.ListMembers. pose proof fill_teams_ro. ro. Qed.
Lemma list_teams_ro : read_only RbacTeams.ListTeams.
Proof. apply read_only_query. Qed.
Lemma team_role_ro t u : read_only (teamRoleForMember t u).
Proof. unfold teamRoleForMember. ro. Qed.
Lemma fill_team_members_ro t l : read_only (fill_team_members t l).
Proof. pose proof team_role_ro. induction l; simpl; ro. Qed.
Lemma members_for_team_ro t : read_only (MembersForTeam t).
Proof. unfold MembersForTeam. pose proof fill_team_members_ro. ro. Qed.

(** Rows of one user, with the memberships. *)
Lemma member_users id d d' f : only_member id d d' → (∀ u, u_id u ≠ id → u ∈ f (users d') ↔ u ∈ users d') → only_member id d (on_users f d').
Proof. intros (E & U & M) Hf. split_and!; [rewrite E at 1; by destruct d| |done]. intros u Hu. simpl. by rewrite Hf, U. Qed.
Lemma member_rows id d d' f : only_member id d d' → (∀ m, mb_user_id m ≠ id → m ∈ f (team_members d') ↔ m ∈ team_members d') → only_member id d (on_team_members f d').
Proof. intros (E & U & M) Hf. split_and!; [rewrite E at 1; by destruct d|done|]. intros u Hu. simpl. by rewrite Hf, M. Qed.
Lemma team_rows id d d' f : only_team id d d' → (∀ t, tm_id t ≠ id → t ∈ f (teams d') ↔ t ∈ teams d') → only_team id d (on_teams f d').
Proof. intros (E & U & M) Hf. split_and!; [rewrite E at 1; by destruct d| |done]. intros u Hu. simpl. by rewrite Hf, U. Qed.
Lemma team_member_rows id d d' f : only_team id d d' → (∀ m, mb_team_id m ≠ id → m ∈ f (team_members d') ↔ m ∈ team_members d') → only_team id d (on_team_members f d').
Proof. intros (E & U & M) Hf. split_and!; [rewrite E at 1; by destruct d|done|]. intros u Hu. simpl. by rewrite Hf, M. Qed.

(** Rows of the other roles. *)
Lemma role_rows id d d' f : only_role id d d' → (∀ x, ro_id x ≠ id → x ∈ f (roles d') ↔ x ∈ roles d') → only_role id d (on_roles f d').
Proof. intros (E & U) Hf. split; [rewrite E at 1; by destruct d|]. intros x Hx. simpl. by rewrite Hf, U. Qed.

Lemma create_role_only uuid id inp d : preserves (only_role id d) (Rbac.CreateRole uuid id inp).
Proof.
  unfold Rbac.CreateRole. destruct (negb _); [pres|]. destruct (normalisePermissions _); [pres|].
  apply preserves_bind; [apply read_only_preserves; intros x; apply uniqueSlug_wp|]. intros slug.
  apply preserves_bind; [|pres]. apply preserves_checked. intros d' Hd. destruct (List.existsb _ (roles d')); [done|].
  apply role_rows; [done|]. intros x Hx. apply (append_other ro_id). by intros E; apply Hx.
Qed.
Lemma update_role_only id inp d : preserves (only_role id d) (Rbac.UpdateRole id inp).
Proof.
  unfold Rbac.UpdateRole. apply preserves_bind; [pres|]. intros role. destruct (r_IsSystem role); [pres|].
  destruct (role_sets inp) as [e|fs] eqn:E; [pres|]. destruct (is_nil fs); [pres|]. apply preserves_bind; [|pres].
  apply preserves_exec. intros d' Hd. apply role_rows; [done|]. intros x Hx. apply (upd_key ro_id); [done|]. apply role_sets_custom, apply_sets_custom in E. intros y. apply E.
Qed.
Lemma delete_role_only id d : preserves (only_role id d) (Rbac.DeleteRole id).
Proof.
  unfold Rbac.DeleteRole. pres. apply preserves_checked. intros d' Hd. destruct (_ && _); [done|]. apply role_rows; [done|].
  intros x. apply (del_key ro_id).
Qed.

Lemma insert_member_of id m d : mb_user_id m = id → preserves (only_member id d) (insert_member m).
Proof.
  intros Hm. apply preserves_checked. intros d' Hd. destruct (_ || _); [done|]. apply member_rows; [done|]. intros x Hx.
  apply (append_other mb_user_id). congruence.
Qed.
Lemma insert_member_in id m d : mb_team_id m = id → preserves (only_team id d) (insert_member m).
Proof.
  intros Hm. apply preserves_checked. intros d' Hd. destruct (_ || _); [done|]. apply team_member_rows; [done|]. intros x Hx.
  apply (append_other mb_team_id). congruence.
Qed.

Lemma replace_teams_only id l d : preserves (only_member id d) (replaceMemberTeams id l).
Proof.
  apply preserves_tx, preserves_bind; [|intros _; apply each_preserves; intros m; by apply insert_member_of].
  apply preserves_exec. intros d' Hd. apply member_rows; [done|]. intros m. apply (del_key mb_user_id).
Qed.
Lemma replace_members_only id l d : preserves (only_team id d) (replaceTeamMembers id l).
Proof.
  apply preserves_tx, preserves_bind; [|intros _; apply each_preserves; intros m; by apply insert_member_in].
  apply preserves_exec. intros d' Hd. apply team_member_rows; [done|]. intros m. apply (del_key mb_team_id).
Qed.
#[local] Hint Resolve replace_teams_only replace_members_only : prexel.

Lemma insert_user_only u d : preserves (only_member (u_id u) d) (insert_user u).
Proof.
  apply preserves_checked. intros d' Hd. destruct (_ || _); [done|]. apply member_users; [done|]. intros x Hx.
  apply (append_other u_id). congruence.
Qed.
Lemma create_member_only id salt now inp d : preserves (only_member id d) (RbacTeams.CreateMember id salt now inp).
Proof.
  unfold RbacTeams.CreateMember. cbv zeta. do 2 (destruct (negb _); [pres|]). apply preserves_bind; [pres|]. intros g.
  apply preserves_bind; [pres|]. intros t. apply preserves_bind; [pres|]. intros _. destruct (HashPassword _ _); [pres|].
  apply preserves_bind; [|pres]. apply (insert_user_only (mkUser id _ _ _ _ _ _ _ _ _ _ _ _ _)).
Qed.

Lemma update_member_only id inp d : preserves (only_member id d) (RbacTeams.UpdateMember id inp).
Proof.
  intros d0 Hd0. unfold RbacTeams.UpdateMember. apply (wp_keep (only_member id d)); [pres|done|done|]. intros d1 _ Hd1.
  apply wp_bind. eapply wp_mono; [apply member_sets_ok|]. intros d2 [e|fs] [-> Hfs]; [done|]. specialize (Hfs fs eq_refl).
  apply (wp_keep (only_member id d)); [|done|done|].
  - apply preserves_when, preserves_checked. intros d3 H3. destruct (List.forallb _ _); [|done]. apply member_users; [done|].
    intros u Hu. apply (upd_key u_id); [done|]. intros x. by apply apply_sets_user.
  - intros d3 _ Hd3. match goal with |- wp ?m _ _ => assert (Hp : preserves (only_member id d) m) by pres; by apply Hp end.
Qed.

Lemma create_team_only id inp d : preserves (only_team id d) (RbacTeams.CreateTeam id inp).
Proof.
  unfold RbacTeams.CreateTeam. cbv zeta. do 3 (destruct (negb _); [pres|]). do 3 (apply preserves_bind; [pres|]; intros ?).
  apply preserves_bind; [|pres]. apply preserves_checked. intros d' Hd. destruct (List.existsb _ _); [done|].
  apply team_rows; [done|]. intros t Ht. apply (append_other tm_id). by intros E; apply Ht.
Qed.

(** The memberships of every team stay; so do the teams. *)
Definition same_memberships (d d' : Db) : Prop := team_members d' = team_members d.
Definition same_teams (d d' : Db) : Prop := teams d' = teams d.

Lemma update_team_only id inp d : preserves (λ d', only_team id d d' ∧ same_memberships d d') (RbacTeams.UpdateTeam id inp).
Proof.
  unfold RbacTeams.UpdateTeam. apply preserves_bind; [pres|]. intros _. destruct (team_sets inp) as [e|fs] eqn:Es; [pres|].
  apply team_sets_ok, apply_sets_team in Es. destruct (is_nil fs); [pres|]. apply preserves_bind; [|pres].
  apply preserves_checked. intros d' [Hd Hm]. cbv zeta. case_decide; [|done]. split; [|done].
  apply (team_rows id d d' (λ _, upd (is_team id) (apply_sets fs) (teams d'))); [done|]. intros t Ht. apply (upd_key tm_id); [done|]. intros x. apply Es.
Qed.

Lemma set_members_only id l d : preserves (λ d', only_team id d d' ∧ same_teams d d') (RbacTeams.SetTeamMembers id l).
Proof.
  apply preserves_and; unfold RbacTeams.SetTeamMembers; [pres|].
  apply preserves_bind; [pres|]. intros t. apply preserves_bind; [pres|]. intros ms. apply preserves_bind; [pres|]. intros _.
  apply preserves_bind; [|pres]. intros d' Hd. eapply wp_mono; [apply replace_team_wp|]. by intros d2 [e|[]] ->.
Qed.

Lemma delete_member_wp id u d : wp (RbacTeams.DeleteMember id u) (λ d' _, d' = d ∨ id ≠ u ∧ d' = delete_user id d) d.
Proof.
  unfold RbacTeams.DeleteMember. apply wp_if; intros Hi; [apply wp_throw; by left|]. apply String.eqb_neq in Hi. apply wp_bind, wp_fallible; [by left|].
  destruct (_ =? 0)%nat; [apply wp_throw|apply wp_ret]; by right.
Qed.

Lemma delete_team_wp id d : wp (RbacTeams.DeleteTeam id) (λ d' _, d' = d ∨ cnt (app_of_team id) (apps d) = 0 ∧ d' = delete_team id d) d.
Proof.
  unfold RbacTeams.DeleteTeam. apply wp_bind, wp_query; [by left|]. apply wp_if; intros Hc; [apply wp_throw; by left|]. apply Nat.ltb_ge in Hc.
  apply wp_bind, wp_fallible; [by left|]. destruct (_ =? 0)%nat; [apply wp_throw|apply wp_ret]; right; (split; [lia|done]).
Qed.

Lemma set_avatar_wp u p d : wp (SetUserAvatar u p) (λ d' _, d' = d ∨ d' = on_users (upd (is_user u) (set_avatar p)) d) d.
Proof.
  unfold SetUserAvatar. apply wp_bind, wp_fallible; [by left|]. destruct (_ =? 0)%nat; [apply wp_throw|apply wp_ret]; by right.
Qed.

Lemma avatar_path_wp u d : wp (AvatarPath u) (λ d' r, d' = d ∧ ∀ p, r = inr p → ∃ x, sel (is_user u) (users d) = Some x ∧ p = str (u_avatar_path x)) d.
Proof.
  apply wp_bind, wp_query; [done|]. destruct (sel _ _) as [x|] eqn:E; [apply wp_ret|by apply wp_throw]. split; [done|].
  intros p [= <-]. by exists x.
Qed.

(** *** Avatars *)

Lemma disk_wp {A} (m : M Files unit A) (k : unit + A → hM (Reply Body)) (P : Files → unit + A → Prop) Q s :
  wp m P (og_files s) → (∀ f r, P f r → wp (k r) Q (put_files f s)) → wp (r ← disk m; k r) Q s.
Proof. intros Hm Hk. apply wp_bind, wp_calling. eapply wp_mono; [exact Hm|]. intros d r. apply Hk. Qed.

Definition only_file (name : string) (f f' : Files) : Prop := ∀ k, k ≠ name → f' !! k = f !! k.

Lemma file_step name c f f' : only_file name f f' → only_file name f (<[name := c]> f').
Proof. intros Hf k Hk. rewrite lookup_insert_ne by done. by apply Hf. Qed.

Lemma copy_wp part name content f0 f : only_file name f0 f → wp (copy part name content)
  (λ f' r, only_file name f0 f' ∧ (r = inr tt → f' !! name = Some content ∧ (len content <= avatar_max)%Z)) f.
Proof.
  intros Hf. unfold copy. apply wp_bind, wp_attempt, wp_exec.
  - apply wp_bind, wp_modify, wp_throw. split; [by apply file_step|done].
  - destruct (len content <=? avatar_max)%Z eqn:E.
    + apply wp_modify. split; [by apply file_step|]. intros _. apply Z.leb_le in E. by rewrite lookup_insert_eq.
    + apply wp_bind, wp_modify, wp_throw. split; [by apply file_step|done].
Qed.

Lemma upload_ok new part f s : wp (UploadAvatar user new part f) (outcome (RUploadAvatar new part f) s) s.
Proof.
  unfold UploadAvatar. destruct user as [u|] eqn:Eu; [|by apply wp_ret]. destruct f as [| |filename content]; try by apply wp_ret.
  set (ext := ToLower (Ext filename)). destruct (List.existsb _ _) eqn:Ex; [|by apply wp_ret].
  apply existsb_witness in Ex as (x & Hx & ->%String.eqb_eq). cbn [negb]. set (name := avatar_name u new x).
  assert (Hdone : ∀ f' reply, only_file name (og_files s) f' → outcome (RUploadAvatar new part (File filename content)) s (put_files f' s) (inr reply)).
  { intros f' reply Hf. right. exists reply. split; [done|]. exists u, x. do 3 (split; [done|]). by left. }
  eapply (disk_wp _ _ (λ f' _, f' = og_files s)); [by apply wp_exec|]. intros f1 [e|[]] ->; [by apply wp_ret, Hdone|].
  eapply (disk_wp _ _ (λ f' _, only_file name (og_files s) f')); [apply wp_exec; [done|by apply file_step]|].
  intros f2 [e|[]] H2; [by apply wp_ret, Hdone|]. eapply disk_wp; [apply (copy_wp part name content (og_files s)), H2|].
  intros f3 [e|[]] [H3 Hc]; [by apply wp_ret, Hdone|]. specialize (Hc eq_refl).
  eapply (disk_wp _ _ (λ f' _, f' = f3)); [by apply wp_exec|]. intros f4 [e|[]] ->; [by apply wp_ret, Hdone|].
  assert (Hend : ∀ d' reply, d' = og_db s ∨ d' = on_users (upd (is_user u) (set_avatar name)) (og_db s) →
    outcome (RUploadAvatar new part (File filename content)) s (put_db d' (put_files f3 s)) (inr reply)).
  { intros d' reply Hd. right. exists reply. split; [done|]. exists u, x. do 3 (split; [done|]).
    destruct Hd as [Hd|Hd]; [by left|right]. split; [done|]. by exists content. }
  eapply db_wp; [apply set_avatar_wp|]. intros d1 [e|[]] H1; [by apply wp_ret, Hend|].
  eapply (db_wp _ _ (λ d' _, d' = d1)); [eapply wp_mono; [apply user_context_wp|]; by intros d2 r [-> _]|].
  intros d2 r ->. by apply wp_ret, Hend.
Qed.

Lemma delete_avatar_ok s : wp (DeleteAvatar user) (outcome RDeleteAvatar s) s.
Proof.
  unfold DeleteAvatar. destruct user as [u|] eqn:Eu; [|by apply wp_ret]. eapply db_wp; [apply avatar_path_wp|]. intros d p [-> Hp]. rewrite put_db_same.
  set (path := match p with inr p => p | inl _ => "" end). apply wp_bind.
  assert (Hset : ∀ f', (f' = og_files s ∨ ∃ x, sel (is_user u) (users (og_db s)) = Some x ∧ f' = delete (Base (str (u_avatar_path x))) (og_files s)) →
    wp (answer (SetUserAvatar u "") (λ _, Bare 204)) (outcome RDeleteAvatar s) (put_files f' s)).
  { intros f' Hf. eapply db_wp; [apply set_avatar_wp|]. intros d' r Hd. apply wp_ret. right. eexists. split; [done|]. exists u. by split_and!. }
  destruct (path =s "") eqn:Epath; [apply wp_ret; destruct s; apply Hset; by left|]. apply wp_calling, wp_exec; [apply Hset; by left|].
  apply Hset. right. unfold path in *. destruct p as [e|p]; [done|]. destruct (Hp p eq_refl) as (x & Hx & ->). by exists x.
Qed.

(** *** The theorem *)

Lemma only_role_refl id d : only_role id d d.
Proof. by destruct d. Qed.
Lemma only_member_refl id d : only_member id d d.
Proof. by destruct d. Qed.
Lemma only_team_refl id d : only_team id d d.
Proof. by destruct d. Qed.
#[local] Hint Resolve only_role_refl only_member_refl only_team_refl : core.

(** C26: Whatever fails, a request on the organisation is refused and changes
    nothing, or ends as follows.  For roles, members and teams the user is active
    and has the permission of the request, and nothing changes but: the row of
    the role that is created or called; the row of the member and the memberships
    of that user; the row of the team and its memberships, of which an update
    leaves the memberships and a new list of members leaves the row; the
    permission is asked for that team where it is shown, updated or filled.
    Nobody deletes themselves or a team that has apps.  Avatars ask no
    permission and no active status: any authenticated user stores or removes
    one.  The file that is stored is named after the user with an allowed
    extension, complete when the row of the user names it; the file that is
    removed is the one the row names.  The list of permissions and the files of
    avatars ask no permission either and change nothing. *)
Theorem org_authorized r s : wp (serve user r) (outcome r s) s.
Proof.
  assert (Hglob : ∀ u perm d (P : string → Prop), user = Some u → may (og_db s) u perm = true → P u →
    ∃ u, user = Some u ∧ may (og_db s) u perm = true ∧ og_files (put_db d s) = og_files s ∧ P u) by (intros u; by exists u).
  assert (Hteam : ∀ u id perm d (P : Prop), user = Some u → may_access (og_db s) u (Some id) perm = true → P →
    ∃ u, user = Some u ∧ may_access (og_db s) u (Some id) perm = true ∧ og_files (put_db d s) = og_files s ∧ P) by (intros u; by exists u).
  destruct r; simpl;
    try (apply permitted_wp; intros u Hu Hm; try (apply list_wp; [auto using list_roles_ro, list_members_ro, list_teams_ro|by intros; exists u]));
    try (apply authorize_team_wp; intros u Hu Hm); try (apply decoded_wp; intros q).
  - apply wp_ret. right. eexists. by split.
  - by apply (answer_wp _ _ _ (only_role newID (og_db s))); [apply create_role_only|intros d' reply HR; apply (Hglob u)].
  - by apply (answer_wp _ _ _ (only_role id (og_db s))); [apply update_role_only|intros d' reply HR; apply (Hglob u)].
  - by apply (answer_wp _ _ _ (only_role id (og_db s))); [apply delete_role_only|intros d' reply HR; apply (Hglob u)].
  - by apply (answer_wp _ _ _ (only_member newID (og_db s))); [apply create_member_only|intros d' reply HR; apply (Hglob u)].
  - by apply (answer_wp _ _ _ (only_member id (og_db s))); [apply update_member_only|intros d' reply HR; apply (Hglob u)].
  - eapply answer_wp; [apply delete_member_wp|]. intros d' reply HR. by apply (Hglob u _ d' (λ u, d' = og_db s ∨ id ≠ u ∧ d' = delete_user id (og_db s))).
  - by apply (answer_wp _ _ _ (only_team newID (og_db s))); [apply create_team_only|intros d' reply HR; apply (Hglob u)].
  - eapply db_wp; [apply GetTeam_ro|]. intros d [e|t] ->; rewrite put_db_same; [apply wp_ret, rbac_error_ok|].
    apply list_wp; [apply members_for_team_ro|]. intros reply. by exists u.
  - by apply (answer_wp _ _ _ (λ d', only_team id (og_db s) d' ∧ same_memberships (og_db s) d')); [apply update_team_only|intros d' reply HR; apply (Hteam u)].
  - eapply answer_wp; [apply delete_team_wp|]. intros d' reply HR. by apply (Hglob u).
  - by apply (answer_wp _ _ _ (λ d', only_team id (og_db s) d' ∧ same_teams (og_db s) d')); [apply set_members_only|intros d' reply HR; apply (Hteam u)].
  - apply upload_ok.
  - apply delete_avatar_ok.
  - unfold ServeAvatar. cbv zeta. destruct (_ || _); apply wp_ret; [done|]. right. eexists. by split.
Qed.
End Outcome.

(** ** Examples *)

Module Examples.
#[local] Existing Instance ascii_only.
#[local] Existing Instance toy_lib.

Definition clerk_role : RoleRow := mkRole "r1" "clerk" "Clerk" "" RoleScopeGlobal false false (JStrings [PermRolesManage; PermMembersManage]).
Definition person (id role : string) (rid : option string) : User :=
  mkUser id (id ^^ "@acme.test") "hash" role None None "active" rid false None None None None 0.
Definition company : Db := on_roles (λ _, [clerk_role]) (on_users (λ _, [person "root" "admin" None; person "clerk" "member" (Some "r1")]) empty_db).
Definition start : Org := mkOrg company ∅.
Definition ask (user : string) (r : request) (s : Org) : Org * (Empty_set + Reply Body) := run (serve (Some user) r) s.

Lemma clerk_refused : ask "clerk" RListTeams start = (start, inr (Refuse 403 "forbidden")).
Proof. by vm_compute. Qed.

(** Managing roles and members is enough to become an administrator: the role
    that is created may be one, and may be given to oneself. *)
Definition promotion : Org :=
  (ask "clerk" (RUpdateMember "clerk" (Some (mkUpdateMemberReq None (Some "r2") None None None)))
    (ask "clerk" (RCreateRole "u" "r2" (Some (mkCreateRoleInput "Boss" "" RoleScopeGlobal [] true))) start).1).1.
Lemma clerk_becomes_admin : may company "clerk" PermTeamsManage = false ∧ may (og_db promotion) "clerk" PermTeamsManage = true.
Proof. by vm_compute. Qed.

(** The only administrator can be removed, by somebody who is none. *)
Lemma last_admin_removed : (ask "clerk" (RDeleteMember "root") start).2 = inr (Bare 204) ∧
  List.forallb (λ u, negb (is_admin company u)) (users (og_db (ask "clerk" (RDeleteMember "root") start).1)) = true.
Proof. by vm_compute. Qed.

(** The file of a replaced avatar stays on disk. *)
Definition twice : Org := (ask "root" (RUploadAvatar "2" 0 (File "b.png" "b")) (ask "root" (RUploadAvatar "1" 0 (File "a.PNG" "a")) start).1).1.
Lemma old_avatar_stays : og_files twice = <["root-2.png" := "b"]> {["root-1.png" := "a"]} ∧
  og_files (ask "root" RDeleteAvatar twice).1 = {["root-1.png" := "a"]}.
Proof. by vm_compute. Qed.
End Examples.
