(* ===== verification/AdminApi.v ===== *)
(** * Endpoints of the instance (internal/api/handler: dnszone.go, instance.go,
    backup.go, apitoken.go, domain.go, server.go)

    The handlers over the services of [Zones], [Instance], [Backup],
    [ApiTokens], [Domains] and [Servers], with the permissions that are asked.
    Requests are decoded ([None]: invalid JSON); ids, random bytes, clocks, the
    resolver, the network and the public address are arguments. *)

From S2P Require Import Prelude Effects GoStrings Schema CryptoLib Cipher Rbac Routing Apps ApiTokens Domains Zones Instance Servers Backup Http.
From stdpp Require Import gmap.

Local Abbreviation Fs := (gmap string File).

Inductive Body :=
  | BZones (l : list ZoneView) | BZone (z : ZoneView) | BVerification (v : VerificationResult)
  | BSettings (s : Settings) | BVersion (v : VersionInfo)
  | BBackups (l : list Entry) | BBackup (e : Entry) | BFile (name path : string)
  | BToken (t : Token) (raw : string) | BTokens (l : list Token)
  | BDomains (l : list Domain) | BDomain (d : Domain)
  | BServers (l : list Server) | BServer (s : Server) (public_key : string) | BReport (r : TestReport).

(** *** Errors *)

Definition zoneError (e : ZoneErr) : Reply Body :=
  match e with
  | ErrZoneNotFound => Refuse 404 "not_found"
  | ErrInvalidApex => Refuse 400 "invalid_apex"
  | ErrInternalName => Refuse 400 "internal_name"
  | ErrZoneDb _ => Refuse 500 "db_error"
  end.

Definition instanceError (e : InstErr) : Reply Body :=
  match e with
  | ErrLetsEncryptNeedsURL => Refuse 400 "letsencrypt_needs_url"
  | ErrZoneNotRegistered => Refuse 400 "zone_not_registered"
  | ErrInvalidInput _ => Refuse 400 "invalid_input"
  | ErrAlreadyCompleted | ErrInst _ => Refuse 500 "db_error"
  end.

Definition backupError (e : BkErr) : Reply Body :=
  match e with
  | ErrWeakPassphrase => Refuse 400 "weak_passphrase"
  | ErrInvalidID => Refuse 400 "invalid_id"
  | ErrBkNotFound => Refuse 404 "not_found"
  | _ => Refuse 500 "backup_failed"
  end.

Definition apiTokenError (e : TokenErr) : Reply Body :=
  match e with
  | ErrBadName => Refuse 400 "invalid_name"
  | ErrBadExpiry => Refuse 400 "invalid_expires_at"
  | ErrTokenNotFound => Refuse 404 "not_found"
  | _ => Refuse 500 "db_error"
  end.

Definition domainError (e : DomErr) : Reply Body :=
  match e with
  | Domains.ErrNotFound => Refuse 404 "not_found"
  | ErrDuplicate => Refuse 409 "duplicate"
  | ErrAppNotFound => Refuse 400 "app_not_found"
  | ErrInUseByApp => Refuse 409 "in_use_by_app"
  | ErrInUseByInstance => Refuse 409 "in_use_by_instance"
  | ErrInvalidDomain => Refuse 400 "invalid_domain"
  | _ => Refuse 500 "internal_error"
  end.

(** [too_old]: the error wraps that of the version floor.  The errors of Docker
    and of the cipher come from a creation, their messages have the prefixes that
    are told apart. *)
Definition serverError (too_old : bool) (e : SrvErr) : Reply Body :=
  match e with
  | ErrSrvNotFound => Refuse 404 "not_found"
  | ErrLocalAlreadyExists => Refuse 409 "local_already_exists"
  | ErrHasApps _ => Refuse 409 "has_apps"
  | ErrSrvInvalid _ | ErrSrvCipher _ => Refuse 400 "bad_request"
  | ErrSrvDocker _ => if too_old then Refuse 400 "docker_too_old" else Refuse 400 "bad_request"
  | ErrSrvName | ErrSrvDb _ => Refuse 500 "internal_error"
  end.

(** ** The state *)

(** Settings and database; the cache of the release check, if it is wired; the
    files; proxy, events and failure counters of the domains. *)
Record Admin (C : Type) := mkAdmin {
  ad_inst : Inst; ad_checker : option Checker; ad_fs : Fs;
  ad_caddy : C; ad_events : list (string * string); ad_failures : gmap string (Z * Z);
}.
Arguments mkAdmin {C}. Arguments ad_inst {C}. Arguments ad_checker {C}. Arguments ad_fs {C}.
Arguments ad_caddy {C}. Arguments ad_events {C}. Arguments ad_failures {C}.

Section Handlers.
Context {C : Type} `{CC : CaddyClient C} `{Uc : Unicode} `{Cl : CryptoLib} `{Ps : PublicSuffix} `{Bl : BackupLib} `{AL : AeadLib} `{SL : SshLib}.
Local Abbreviation Admin := (Admin C).
Local Abbreviation hM := (M Admin Empty_set).
Context (user : option string).

Definition ad_db (s : Admin) : Db := i_db (ad_inst s).
Definition put_inst (i : Inst) (s : Admin) : Admin := mkAdmin i (ad_checker s) (ad_fs s) (ad_caddy s) (ad_events s) (ad_failures s).
Definition put_db (d : Db) (s : Admin) : Admin := put_inst (set_idb d (ad_inst s)) s.
Definition put_checker (c : option Checker) (s : Admin) : Admin := mkAdmin (ad_inst s) c (ad_fs s) (ad_caddy s) (ad_events s) (ad_failures s).
Definition put_fs (f : Fs) (s : Admin) : Admin := mkAdmin (ad_inst s) (ad_checker s) f (ad_caddy s) (ad_events s) (ad_failures s).
Definition dom_state (s : Admin) : DomState C := mkDomState (ad_db s) (ad_caddy s) (ad_events s) (ad_failures s).
Definition put_dom (x : DomState C) (s : Admin) : Admin :=
  mkAdmin (set_idb (ds_db x) (ad_inst s)) (ad_checker s) (ad_fs s) (ds_caddy x) (ds_events x) (ds_failures x).

Definition db {E A} (m : M Db E A) : hM (E + A) := calling ad_db put_db m.
Definition inst {A} (m : M Inst InstErr A) : hM (InstErr + A) := calling ad_inst put_inst m.
Definition disk {A} (m : M Fs BkErr A) : hM (BkErr + A) := calling ad_fs put_fs m.
Definition domain {A} (m : M (DomState C) DomErr A) : hM (DomErr + A) := calling dom_state put_dom m.

(** The result of a call, answered. *)
Definition reply {E A} (err : E → Reply Body) (m : hM (E + A)) (k : A → Reply Body) : hM (Reply Body) :=
  r ← m; mret match r with inl e => err e | inr x => k x end.
Definition db_error {E} (e : E) : Reply Body := Refuse 500 "db_error".

Definition decoded {A} (req : option A) (k : A → hM (Reply Body)) : hM (Reply Body) :=
  match req with None => mret (Refuse 400 "invalid_json") | Some q => k q end.

Definition authorize (perm : string) (k : hM (Reply Body)) : hM (Reply Body) :=
  match user with
  | None => mret (Refuse 401 "unauthorized")
  | Some uid =>
    r ← db (HasPermission uid perm);
    match r with inl _ => mret (Refuse 500 "db_error") | inr true => k | inr false => mret (Refuse 403 "forbidden") end
  end.
Definition with_user (k : string → hM (Reply Body)) : hM (Reply Body) :=
  match user with None => mret (Refuse 401 "unauthorized") | Some uid => k uid end.

(** ** DNS zones *)

Definition with_zone_notes (notes : string) (z : ZoneView) : ZoneView :=
  mkZoneView (zv_ID z) (zv_Apex z) (zv_TargetIP z) (zv_ApexVerified z) (zv_ApexVerifiedAt z) (zv_ApexLastCheck z)
    (zv_WildcardVerified z) (zv_WildcardVerifiedAt z) (zv_WildcardLastCheck z) notes (zv_CreatedAt z) (zv_SubdomainCount z).

Definition ZoneList : hM (Reply Body) := authorize PermDomainsView (reply db_error (db Zones.List_) (λ l, Answer 200 (BZones l))).
Definition ZoneGet (id : string) : hM (Reply Body) := authorize PermDomainsView (reply zoneError (db (Zones.Get id)) (λ z, Answer 200 (BZone z))).

Definition ZoneCreate (newID : string) (now : Z) (req : option (string * string)) : hM (Reply Body) :=
  authorize PermSettingsInstanceManage (decoded req (λ '(apex, notes),
    let apex := TrimSpace apex in
    if apex =s "" then mret (Refuse 400 "apex_required")
    else
      r ← db (Zones.Create newID now apex);
      match r with
      | inl e => mret (zoneError e)
      | inr z =>
        if notes =s "" then mret (Answer 201 (BZone z))
        else
          r ← db (UpdateNotes (zv_ID z) notes);
          mret (Answer 201 (BZone match r with inl _ => z | inr _ => with_zone_notes notes z end))
      end)).

Definition ZonePatch (id : string) (req : option (option string)) : hM (Reply Body) :=
  authorize PermSettingsInstanceManage (decoded req (λ notes,
    r ← (match notes with None => mret (inr tt) | Some n => db (UpdateNotes id n) end);
    match r with
    | inl e => mret (zoneError e)
    | inr _ => reply zoneError (db (Zones.Get id)) (λ z, Answer 200 (BZone z))
    end)).

Definition ZoneDelete (id : string) : hM (Reply Body) :=
  authorize PermSettingsInstanceManage (reply zoneError (db (Zones.Delete id)) (λ _, Bare 204)).

(** [ip]: the reader of the public address, if wired, and its answer. *)
Definition ZoneVerify (ip : option (option string)) (lookup : string → Zones.Answer) (rand : string) (now : Z) (id hostname : string) : hM (Reply Body) :=
  authorize PermSettingsInstanceManage (
    let expectedIP := match ip with Some (Some a) => a | _ => "" end in
    reply zoneError (db (Zones.Verify lookup rand now id expectedIP (TrimSpace hostname))) (λ v, Answer 200 (BVerification v))).

(** ** Settings of the instance *)

Definition InstanceGet : hM (Reply Body) := reply db_error (inst Instance.Get) (λ s, Answer 200 (BSettings s)).
Definition InstancePatch (zones : option ZoneRegistry) (now : Z) (req : option Instance.UpdateInput) : hM (Reply Body) :=
  authorize PermSettingsInstanceManage (decoded req (λ q, reply instanceError (inst (Instance.Update zones now q)) (λ s, Answer 200 (BSettings s)))).

Definition LatestVersion (now now' : Z) (release : option (string * string * Z * bool * bool)) : hM (Reply Body) :=
  c ← gets ad_checker;
  match c with
  | None => mret (Answer 200 (BVersion (mkVersionInfo "" "" 0)))
  | Some c =>
    let '(c', v, _) := Checker_Get now now' release c in
    _ ← modify (put_checker (Some c'));
    mret (Answer 200 (BVersion v))
  end.

(** ** Backups, in the directory [dir] *)

Section Backups.
Context (dir : string) (snap : Snapshotter).

Definition BackupList : hM (Reply Body) :=
  authorize PermSettingsInstanceManage (reply (λ _, Refuse 500 "list_failed") (disk (Backup.List_ dir)) (λ l, Answer 200 (BBackups l))).

Definition BackupCreate (now : Z) (part stamp tmp : string) (salt nonce : option string) (req : option string) : hM (Reply Body) :=
  authorize PermSettingsInstanceManage (decoded req (λ passphrase,
    reply backupError (disk (Backup.Create dir snap now part stamp tmp salt nonce passphrase)) (λ e, Answer 201 (BBackup e)))).

Definition BackupDownload (id : string) : hM (Reply Body) :=
  authorize PermSettingsInstanceManage (reply backupError (disk (Path dir id)) (λ path, Answer 200 (BFile (id ^^ FileExtension) path))).

Definition BackupDelete (id : string) : hM (Reply Body) :=
  authorize PermSettingsInstanceManage (reply backupError (disk (Backup.Delete dir id)) (λ _, Bare 204)).
End Backups.

(** ** API tokens; times are nanoseconds *)

Definition APITokenDefaultTTL : Z := 90 * 24 * 3600 * second.
Definition APITokenMaxTTL : Z := 365 * 24 * 3600 * second.

(** The expiry that is asked for: the text, parsed by [time.Parse]. *)
Definition token_expiry (parse_rfc3339 : string → option Z) (now : Z) (expires_at : option string) : Reply Body + Z :=
  match expires_at with
  | Some v =>
    if TrimSpace v =s "" then inr (now + APITokenDefaultTTL)%Z
    else match parse_rfc3339 v with
    | None => inl (Refuse 400 "invalid_expires_at")
    | Some t => if (now + APITokenMaxTTL <? t)%Z then inl (Refuse 400 "expires_at_too_far") else inr t
    end
  | None => inr (now + APITokenDefaultTTL)%Z
  end.

(** [now], [now']: the clock in the handler and in the service. *)
Definition TokenCreate (parse_rfc3339 : string → option Z) (now now' : Z) (rand hexID : string) (req : option (string * option string)) : hM (Reply Body) :=
  with_user (λ uid, decoded req (λ '(name, expires_at),
    match token_expiry parse_rfc3339 now expires_at with
    | inl r => mret r
    | inr e => reply apiTokenError (db (ApiTokens.Create uid name (Some e) rand hexID now')) (λ x, Answer 201 (BToken x.1 x.2))
    end)).

Definition TokenList : hM (Reply Body) := with_user (λ uid, reply db_error (db (ApiTokens.List_ uid)) (λ l, Answer 200 (BTokens l))).

Definition TokenRevoke (now : Z) (id : string) : hM (Reply Body) :=
  with_user (λ uid, if id =s "" then mret (Refuse 400 "missing_id") else reply apiTokenError (db (ApiTokens.Revoke uid id now)) (λ _, Bare 204)).

(** ** Domains; no permission is asked *)

Section DomainHandlers.
Context (svc : Domains.Service).

Definition domain_answer {A} (m : M (DomState C) DomErr A) (k : A → Reply Body) : hM (Reply Body) := reply domainError (domain m) k.

(** An empty app id is none. *)
Definition DomainCreate (parse_ip : string → bool) (zone : string → option (option Domains.Zone)) (newID : string) (now : Z) (req : option Domains.CreateInput) : hM (Reply Body) :=
  decoded req (λ q,
    let app := match ci_AppID q with Some a => if TrimSpace a =s "" then None else Some a | None => None end in
    domain_answer (Domains.Create svc parse_ip zone newID now (Domains.mkCreateInput (ci_Name q) app (ci_IsPrimary q) (ci_ForceHTTPS q)))
      (λ x, match x.2 with Some e => domainError e | None => Answer 201 (BDomain x.1) end)).

Definition DomainList (app_id : string) : hM (Reply Body) :=
  reply db_error (domain (Domains.List_ (if app_id =s "" then None else Some app_id))) (λ l, Answer 200 (BDomains l)).
Definition DomainListByApp (app : string) : hM (Reply Body) :=
  reply db_error (domain (Domains.List_ (Some app))) (λ l, Answer 200 (BDomains l)).
Definition DomainGet (id : string) : hM (Reply Body) := domain_answer (Domains.Get id) (λ d, Answer 200 (BDomain d)).
Definition DomainDelete (cur id : string) : hM (Reply Body) := domain_answer (Domains.Delete svc cur id) (λ _, Bare 204).

(** Service and port come together. *)
Definition DomainPatch (id : string) (req : option Domains.UpdateInput) : hM (Reply Body) :=
  decoded req (λ q,
    if negb (Bool.eqb (is_some (ui_Service q)) (is_some (ui_Port q))) then mret (Refuse 400 "service_port_pair_required")
    else domain_answer (Domains.Update svc id q) (λ d, Answer 200 (BDomain d))).

Definition then_get (id : string) (m : M (DomState C) DomErr unit) : hM (Reply Body) :=
  r ← domain m;
  match r with inl e => mret (domainError e) | inr _ => DomainGet id end.
Definition DomainRetry (id : string) : hM (Reply Body) := then_get id (Domains.Retry id).
Definition DomainVerify zone lookup (ip : option string) (now : Z) (id : string) : hM (Reply Body) :=
  then_get id (Domains.Verify svc zone lookup ip now id).
End DomainHandlers.

(** ** Servers; no permission is asked *)

Section ServerHandlers.
Context (cipher : Cipher) (net : Net).

Definition version_too_old (name : string) : bool :=
  let '(v, ok) := Version (nt_Version net (NewLocalProvider (TrimSpace name))) in negb ok && negb (v =s "").

Definition ServerCreate (gen : option (string * string)) (nonce : option string) (newID : string) (now : Z) (req : option Servers.CreateInput) : hM (Reply Body) :=
  decoded req (λ q,
    reply (serverError (version_too_old (si_Name q))) (db (Servers.Create cipher net gen nonce newID now q)) (λ x, Answer 201 (BServer x.1 x.2))).
Definition ServerList : hM (Reply Body) := reply db_error (db Servers.List_) (λ l, Answer 200 (BServers l)).
Definition ServerGet (id : string) : hM (Reply Body) := reply (serverError false) (db (Servers.Get id)) (λ s, Answer 200 (BServer s "")).
Definition ServerPatch (id : string) (req : option Servers.Patch) : hM (Reply Body) :=
  decoded req (λ p, reply (serverError false) (db (Servers.Update id p)) (λ s, Answer 200 (BServer s ""))).
Definition ServerDelete (id : string) : hM (Reply Body) := reply (serverError false) (db (Servers.Delete id)) (λ _, Bare 204).
Definition ServerTest (now : Z) (id : string) : hM (Reply Body) :=
  reply (serverError false) (db (TestConnection cipher net now id)) (λ r, Answer 200 (BReport r)).
End ServerHandlers.

(** ** Requests *)

Context (dir : string) (snap : Snapshotter) (svc : Domains.Service) (cipher : Cipher).

Inductive request :=
  | RZoneList | RZoneGet (id : string) | RZoneCreate (newID : string) (now : Z) (req : option (string * string))
  | RZonePatch (id : string) (req : option (option string)) | RZoneDelete (id : string)
  | RZoneVerify (ip : option (option string)) (lookup : string → Zones.Answer) (rand : string) (now : Z) (id hostname : string)
  | RInstanceGet | RInstancePatch (wired : bool) (now : Z) (req : option Instance.UpdateInput)
  | RLatestVersion (now now' : Z) (release : option (string * string * Z * bool * bool))
  | RBackupList | RBackupCreate (now : Z) (part stamp tmp : string) (salt nonce : option string) (req : option string)
  | RBackupDownload (id : string) | RBackupDelete (id : string)
  | RTokenCreate (parse_rfc3339 : string → option Z) (now now' : Z) (rand hexID : string) (req : option (string * option string))
  | RTokenList | RTokenRevoke (now : Z) (id : string)
  | RDomainCreate (parse_ip : string → bool) (zone : string → option (option Domains.Zone)) (newID : string) (now : Z) (req : option Domains.CreateInput)
  | RDomainList (app_id : string) | RDomainListByApp (app : string) | RDomainGet (id : string) | RDomainDelete (cur id : string)
  | RDomainPatch (id : string) (req : option Domains.UpdateInput) | RDomainRetry (id : string)
  | RDomainVerify (zone : string → option Domains.Zone) (lookup : string → option (list string)) (ip : option string) (now : Z) (id : string)
  | RServerCreate (net : Net) (gen : option (string * string)) (nonce : option string) (newID : string) (now : Z) (req : option Servers.CreateInput)
  | RServerList | RServerGet (id : string) | RServerPatch (id : string) (req : option Servers.Patch) | RServerDelete (id : string)
  | RServerTest (net : Net) (now : Z) (id : string).

(** The registry of a wired instance service is that of the zones. *)
Definition serve (r : request) : hM (Reply Body) :=
  match r with
  | RZoneList => ZoneList
  | RZoneGet id => ZoneGet id
  | RZoneCreate id now req => ZoneCreate id now req
  | RZonePatch id req => ZonePatch id req
  | RZoneDelete id => ZoneDelete id
  | RZoneVerify ip lookup rand now id host => ZoneVerify ip lookup rand now id host
  | RInstanceGet => InstanceGet
  | RInstancePatch wired now req => InstancePatch (if wired then Some zone_registry else None) now req
  | RLatestVersion now now' release => LatestVersion now now' release
  | RBackupList => BackupList dir
  | RBackupCreate now part stamp tmp salt nonce req => BackupCreate dir snap now part stamp tmp salt nonce req
  | RBackupDownload id => BackupDownload dir id
  | RBackupDelete id => BackupDelete dir id
  | RTokenCreate parse now now' rand hexID req => TokenCreate parse now now' rand hexID req
  | RTokenList => TokenList
  | RTokenRevoke now id => TokenRevoke now id
  | RDomainCreate parse zone id now req => DomainCreate svc parse zone id now req
  | RDomainList app => DomainList app
  | RDomainListByApp app => DomainListByApp app
  | RDomainGet id => DomainGet id
  | RDomainDelete cur id => DomainDelete svc cur id
  | RDomainPatch id req => DomainPatch svc id req
  | RDomainRetry id => DomainRetry id
  | RDomainVerify zone lookup ip now id => DomainVerify svc zone lookup ip now id
  | RServerCreate net gen nonce id now req => ServerCreate cipher net gen nonce id now req
  | RServerList => ServerList
  | RServerGet id => ServerGet id
  | RServerPatch id req => ServerPatch id req
  | RServerDelete id => ServerDelete id
  | RServerTest net now id => ServerTest cipher net now id
  end.
End Handlers.

(** ** What a request does *)

Section Outcome.
Context {C : Type} `{CC : CaddyClient C} `{Uc : Unicode} `{Cl : CryptoLib} `{Ps : PublicSuffix} `{Bl : BackupLib} `{AL : AeadLib} `{SL : SshLib}.
Context (user : option string) (dir : string) (snap : Snapshotter) (svc : Domains.Service) (cipher : Cipher).
Local Abbreviation Admin := (Admin C).
Local Abbreviation hM := (M Admin Empty_set).
Local Abbreviation serve := (serve (C := C) user dir snap svc cipher).
Implicit Types s : Admin.

Definition unchanged s s' (r : Empty_set + Reply Body) : Prop := s' = s ∧ ∃ st code, r = inr (Refuse st code).

(** Only the row of one zone, or of one server, has changed. *)
Definition only_zone (id : string) (d d' : Db) : Prop :=
  d' = on_dns_zones (λ _, dns_zones d') d ∧ same_but dz_id id (dns_zones d) (dns_zones d').
Definition only_server (id : string) (d d' : Db) : Prop :=
  d' = on_servers (λ _, servers d') d ∧ same_but sv_id id (servers d) (servers d').

(** A zone that is created, or the notes of the one that has the apex already. *)
Definition zone_created (newID apex notes : string) (d d' : Db) : Prop :=
  only_zone newID d d' ∨
  ∃ z c, z ∈ dns_zones d ∧ (ApexOf (TrimSpace apex) = inr c ∨ ApexOf ("x." ^^ TrimSpace apex) = inr c) ∧ dz_apex z = ToLower c ∧
    d' = on_dns_zones (upd (zone_is (dz_id z)) (set_notes notes)) d.

(** Another domain is as it was, or is no longer the primary one of an app in
    [A]. *)
Definition demoted (x : Domain) : Domain := with_binding (d_app_id x) false x.
Definition spared (A : string → Prop) (x y : Domain) : Prop := y = x ∨ y = demoted x ∧ ∃ a, d_app_id x = Some a ∧ A a.

(** Only the row of one domain has changed, the demotions apart. *)
Definition touched (id : string) (A : string → Prop) (l l' : list Domain) : Prop :=
  (∀ x, d_id x ≠ id → x ∈ l → ∃ y, y ∈ l' ∧ spared A x y) ∧ (∀ y, d_id y ≠ id → y ∈ l' → ∃ x, x ∈ l ∧ spared A x y).
Definition only_domain (id : string) (A : string → Prop) (d d' : Db) : Prop :=
  d' = on_domains (λ _, domains d') d ∧ touched id A (domains d) (domains d').

(** The app a change of the binding of a domain names, or the one it has. *)
Definition bound_app (id : string) (q : Domains.UpdateInput) (d : Db) (a : string) : Prop :=
  (∃ v, Domains.ui_AppID q = Some v ∧ TrimSpace v = a) ∨ ∃ x, sel (is_dom id) (domains d) = Some x ∧ d_app_id x = Some a.

(** A token of the user, good for a year at most. *)
Definition fresh_token (u : string) (now now' : Z) (d d' : Db) : Prop :=
  ∃ t e, d' = on_api_tokens (λ l, l ++ [t]) d ∧ at_user_id t = u ∧ at_revoked_at t = None ∧
    at_expires_at t = Some (Unix e) ∧ (now' < e <= now + APITokenMaxTTL)%Z.

Definition performs (r : request) s s' (reply : Reply Body) : Prop :=
  let d := ad_db s in let d' := ad_db s' in
  let allowed perm P := ∃ u, user = Some u ∧ may d u perm = true ∧ P in
  let database P := s' = put_db d' s ∧ P in
  let files P := s' = put_fs (ad_fs s') s ∧ P in
  match r with
  | RZoneList | RZoneGet _ => allowed PermDomainsView (s' = s)
  | RZoneCreate new _ req => allowed PermSettingsInstanceManage (database (∃ apex notes, req = Some (apex, notes) ∧ zone_created new apex notes d d'))
  | RZonePatch id _ | RZoneVerify _ _ _ _ id _ => allowed PermSettingsInstanceManage (database (only_zone id d d'))
  | RZoneDelete id => allowed PermSettingsInstanceManage (database (d' = d ∨ d' = on_domains (upd (in_zone id) clear_zone) (on_dns_zones (del (zone_is id)) d)))
  | RInstanceGet => s' = s ∨ s' = put_inst (set_icache (of_row (i_row (ad_inst s))) (ad_inst s)) s
  | RInstancePatch _ _ _ => allowed PermSettingsInstanceManage (s' = put_inst (ad_inst s') s ∧ d' = d ∧ i_completed (ad_inst s') = i_completed (ad_inst s) ∧
      (i_row (ad_inst s') = i_row (ad_inst s) ∨ row_checks (i_row (ad_inst s')) = true))
  | RLatestVersion _ _ _ => s' = put_checker (ad_checker s') s
  | RBackupList => allowed PermSettingsInstanceManage (s' = s)
  | RBackupDownload id => allowed PermSettingsInstanceManage (s' = s ∧ ∃ name, validateID id = inr name ∧ is_Some (ad_fs s !! in_dir dir name) ∧
      reply = Answer 200 (BFile (id ^^ FileExtension) (in_dir dir name)))
  | RBackupDelete id => allowed PermSettingsInstanceManage (files (ad_fs s' = ad_fs s ∨ ∃ name, validateID id = inr name ∧ ad_fs s' = delete (in_dir dir name) (ad_fs s)))
  | RBackupCreate _ _ stamp tmp _ _ _ => allowed PermSettingsInstanceManage (files (∀ p, p ≠ in_dir dir ("prexel-" ^^ stamp ^^ FileExtension) → p ≠ in_dir dir tmp →
      ad_fs s' !! p = ad_fs s !! p))
  | RTokenCreate _ now now' _ _ _ => ∃ u, user = Some u ∧ database (d' = d ∨ fresh_token u now now' d d')
  | RTokenList => ∃ u l, user = Some u ∧ s' = s ∧ reply = Answer 200 (BTokens l) ∧ ∀ t, t ∈ l → tk_UserID t = u
  | RTokenRevoke now id => ∃ u, user = Some u ∧ database (d' = d ∨ d' = on_api_tokens (upd (revocable u id) (set_token_revoked (Unix now))) d)
  | RDomainCreate _ _ new _ req => (∃ q, req = Some q ∧ only_domain new (λ a, Domains.ci_AppID q = Some a) d d') ∧ ∃ x, s' = put_dom x s
  | RDomainPatch id req => (∃ q, req = Some q ∧ only_domain id (bound_app id q d) d d') ∧ ∃ x, s' = put_dom x s
  | RDomainDelete _ id | RDomainRetry id | RDomainVerify _ _ _ _ id => only_domain id (λ _, False) d d' ∧ ∃ x, s' = put_dom x s
  | RDomainList _ | RDomainListByApp _ | RDomainGet _ => s' = s
  | RServerCreate _ _ _ id _ _ | RServerPatch id _ | RServerDelete id | RServerTest _ _ id => database (only_server id d d')
  | RServerList | RServerGet _ => s' = s
  end.

Definition outcome (r : request) s s' (out : Empty_set + Reply Body) : Prop :=
  unchanged s s' out ∨ ∃ reply, out = inr reply ∧ performs r s s' reply.

Lemma refusal_case r s st code : outcome r s s (inr (Refuse st code)).
Proof. left. split; [done|by repeat eexists]. Qed.
#[local] Hint Resolve refusal_case : core.
Lemma zone_error_case r s e : outcome r s s (inr (zoneError e)).
Proof. destruct e; apply refusal_case. Qed.
Lemma backup_error_case r s e : outcome r s s (inr (backupError e)).
Proof. destruct e; apply refusal_case. Qed.
Lemma domain_error_case r s e : outcome r s s (inr (domainError e)).
Proof. destruct e; apply refusal_case. Qed.
Lemma server_error_case r s e : outcome r s s (inr (serverError false e)).
Proof. destruct e; apply refusal_case. Qed.
#[local] Hint Resolve zone_error_case backup_error_case domain_error_case server_error_case : core.

Lemma put_db_id s : put_db (ad_db s) s = s.
Proof. by destruct s as [[] ? ? ? ? ?]. Qed.
Lemma put_inst_id s : put_inst (ad_inst s) s = s.
Proof. by destruct s. Qed.
Lemma put_fs_id s : put_fs (ad_fs s) s = s.
Proof. by destruct s. Qed.
Lemma put_dom_id s : put_dom (dom_state s) s = s.
Proof. by destruct s as [[] ? ? ? ? ?]. Qed.

(** A call on one component, its answer, and what its end allows. *)
Lemma on_part_wp {T E A} (get : Admin → T) (put : T → Admin → Admin) (m : M T E A) (k : E + A → hM (Reply Body)) (P : T → E + A → Prop) Q s :
  wp m P (get s) → (∀ t r, P t r → wp (k r) Q (put t s)) → wp (r ← calling get put m; k r) Q s.
Proof. intros Hm Hk. apply wp_bind, wp_calling. eapply wp_mono; [exact Hm|]. intros d r. apply Hk. Qed.

Lemma reply_wp {T E A} (get : Admin → T) (put : T → Admin → Admin) r (err : E → Reply Body) (m : M T E A) (k : A → Reply Body) (P : T → E + A → Prop) s :
  wp m P (get s) →
  (∀ t x, P t x → outcome r s (put t s) (inr match x with inl e => err e | inr a => k a end)) → wp (reply err (calling get put m) k) (outcome r s) s.
Proof. intros Hm Hk. eapply on_part_wp; [exact Hm|]. intros t x Hx. apply wp_ret. by apply Hk. Qed.

Lemma decoded_case {A} r (req : option A) (k : A → hM (Reply Body)) s : (∀ q, req = Some q → wp (k q) (outcome r s) s) → wp (decoded req k) (outcome r s) s.
Proof. intros Hk. destruct req as [q|]; [by apply Hk|by apply wp_ret]. Qed.

Lemma authorize_case r perm (k : hM (Reply Body)) s :
  (∀ u, user = Some u → may (ad_db s) u perm = true → wp k (outcome r s) s) → wp (authorize user perm k) (outcome r s) s.
Proof.
  intros Hk. unfold authorize. destruct user as [u|]; [|by apply wp_ret]. eapply on_part_wp; [apply has_permission_wp|].
  intros d [e|b] [-> Hb]; rewrite put_db_id; [by apply wp_ret|]. specialize (Hb b eq_refl). destruct b; [by apply (Hk u)|by apply wp_ret].
Qed.

Lemma with_user_case r (k : string → hM (Reply Body)) s : (∀ u, user = Some u → wp (k u) (outcome r s) s) → wp (with_user user k) (outcome r s) s.
Proof. intros Hk. unfold with_user. destruct user as [u|]; [by apply Hk|by apply wp_ret]. Qed.

(** *** Zones *)

Lemma zone_refl id d : only_zone id d d.
Proof. by destruct d. Qed.
Lemma zone_step id d d' f : only_zone id d d' → (∀ l, same_but dz_id id l (dns_zones d') → same_but dz_id id l (f (dns_zones d'))) →
  only_zone id d (on_dns_zones f d').
Proof. intros [E Hl] Hf. split; [rewrite E at 1; by destruct d|]. by apply Hf. Qed.

Lemma zone_reads {A} (I : Db → Prop) (m : M Db ZoneErr A) : (∀ d, wp m (λ d' _, d' = d) d) → preserves I m.
Proof. intros Hm d Hd. eapply wp_mono; [apply Hm|]. by intros d' r ->. Qed.
Lemma scan_one_reads w d : wp (scanOne w) (λ d' _, d' = d) d.
Proof. apply wp_bind, wp_query; [done|]. destruct (_ <$> _); [by apply wp_ret|by apply wp_throw]. Qed.
Lemma get_zone_reads id d : wp (Zones.Get id) (λ d' _, d' = d) d.
Proof. apply scan_one_reads. Qed.
Lemma scan_one_row w d : wp (scanOne w) (λ d' r, d' = d ∧ ∀ z, r = inr z → ∃ x, x ∈ dns_zones d ∧ w x = true ∧ z = view d x) d.
Proof.
  apply wp_bind, wp_query; [done|]. destruct (sel w _) as [x|] eqn:E; [apply wp_ret|by apply wp_throw]. split; [done|].
  intros z [= <-]. apply sel_Some in E as []. by exists x.
Qed.

Lemma zone_insert_only id now apex d : wp (Zones.create id now apex) (λ d' r, only_zone id d d' ∧ ∀ z, r = inr z → zv_ID z = id) d.
Proof.
  apply wp_bind, wp_checked; [split; [apply zone_refl|done]|]. destruct (List.existsb _ _) eqn:E; [split; [apply zone_refl|done]|].
  eapply wp_mono; [apply scan_one_row|]. intros d' r [-> Hr]. split.
  - apply zone_step; [apply zone_refl|]. intros l. by apply same_but_append.
  - intros z Hz. destruct (Hr z Hz) as (x & _ & Hx & ->). unfold zone_is in Hx. by bool_simp.
Qed.

(** The zone is a new one, or is there and nothing has changed. *)
Lemma zone_create_wp id now apex d : wp (Zones.Create id now apex) (λ d' r,
  (only_zone id d d' ∧ ∀ z, r = inr z → zv_ID z = id) ∨
  d' = d ∧ ∀ z, r = inr z → ∃ x c, x ∈ dns_zones d ∧ dz_id x = zv_ID z ∧ (ApexOf apex = inr c ∨ ApexOf ("x." ^^ apex) = inr c) ∧ dz_apex x = ToLower c) d.
Proof.
  apply wp_bind, wp_of_result. match goal with |- match ?m with inl _ => _ | inr _ => _ end => destruct m as [e|c] eqn:Ec end; [by right|].
  assert (Hc : ApexOf apex = inr c ∨ ApexOf ("x." ^^ apex) = inr c).
  { destruct (ApexOf apex) as [e|c']; [right|by left]. by destruct (ApexOf ("x." ^^ apex)). }
  unfold find_or_create. apply wp_bind, wp_attempt. eapply wp_mono; [apply scan_one_row|]. intros d' [[]|z] [-> Hz]; try (apply wp_throw; by right).
  - eapply wp_mono; [apply zone_insert_only|]. intros d' r Hr. by left.
  - apply wp_ret. right. split; [done|]. intros z' [= <-]. destruct (Hz z eq_refl) as (x & Hx & Ha & ->). exists x, c. unfold apex_is in Ha. by bool_simp.
Qed.

Lemma zone_notes_wp id notes d : wp (UpdateNotes id notes) (λ d' _, d' = d ∨ d' = on_dns_zones (upd (zone_is id) (set_notes notes)) d) d.
Proof. apply wp_bind, wp_fallible; [by left|]. simpl. destruct (_ =? 0)%nat; [apply wp_throw|apply wp_ret]; by right. Qed.
Lemma notes_only id notes d0 d d' : only_zone id d0 d → d' = d ∨ d' = on_dns_zones (upd (zone_is id) (set_notes notes)) d → only_zone id d0 d'.
Proof. intros Hd [-> | ->]; [done|]. apply zone_step; [done|]. intros l. by apply same_but_upd. Qed.

Lemma zone_verify_only lookup rand now id ip host d : preserves (only_zone id d) (Zones.Verify lookup rand now id ip host).
Proof.
  apply preserves_bind; [apply zone_reads, get_zone_reads|]. intros z. cbv zeta. apply preserves_bind; [|intros _; apply preserves_ret].
  apply preserves_exec. intros d' Hd. apply zone_step; [done|]. intros l. by apply same_but_upd.
Qed.
Lemma zone_delete_wp id d : wp (Zones.Delete id) (λ d' _, d' = d ∨ d' = on_domains (upd (in_zone id) clear_zone) (on_dns_zones (del (zone_is id)) d)) d.
Proof.
  apply wp_bind, wp_fallible; [by left|]. match goal with |- wp _ _ ?x => assert (Hx : x = d ∨ x = on_domains (upd (in_zone id) clear_zone) (on_dns_zones (del (zone_is id)) d)) end.
  { simpl. destruct (List.existsb _ _); [by right|by left]. }
  destruct (_ =? 0)%nat; [by apply wp_throw|by apply wp_ret].
Qed.

Definition zone_request (r : request) : Prop :=
  match r with RZoneList | RZoneGet _ | RZoneCreate _ _ _ | RZonePatch _ _ | RZoneDelete _ | RZoneVerify _ _ _ _ _ _ => True | _ => False end.

Lemma zones_case r s : zone_request r → wp (serve r) (outcome r s) s.
Proof.
  intros Hr. assert (Hz : ∀ u d' rep, user = Some u → may (ad_db s) u PermSettingsInstanceManage = true →
    match r with RZonePatch id _ | RZoneVerify _ _ _ _ id _ => only_zone id (ad_db s) d' → outcome r s (put_db d' s) (inr rep) | _ => True end).
  { intros u d' rep Hu Hm. destruct r; try done; intros Hd; right; exists rep; (split; [done|]); exists u; by split_and!. }
  destruct r; try done; simpl; (apply authorize_case; intros u Hu Hm).
  - eapply reply_wp; [by apply (wp_query _ _ (λ d' _, d' = ad_db s))|]. intros d [e|l] ->; rewrite put_db_id; [apply refusal_case|]. right. eexists. split; [done|]. by exists u.
  - eapply reply_wp; [apply get_zone_reads|]. intros d [e|l] ->; rewrite put_db_id; [apply zone_error_case|]. right. eexists. split; [done|]. by exists u.
  - apply decoded_case. intros [apex notes] ->. cbv zeta. apply wp_if; intros _; [by apply wp_ret|].
    assert (Hdone : ∀ d' rep, zone_created newID apex notes (ad_db s) d' → outcome (RZoneCreate newID now (Some (apex, notes))) s (put_db d' s) (inr rep)).
    { intros d' rep Hd. right. exists rep. split; [done|]. exists u. split_and!; [done..|]. by exists apex, notes. }
    eapply on_part_wp; [apply zone_create_wp|]. intros d x Hx.
    assert (Hsame : zone_created newID apex notes (ad_db s) d) by (left; destruct Hx as [[? _]|[-> _]]; [done|apply zone_refl]).
    destruct x as [e|z]; [by apply wp_ret, Hdone|]. destruct (notes =s ""); [by apply wp_ret, Hdone|].
    eapply on_part_wp; [apply zone_notes_wp|]. intros d2 x Hd2. apply wp_ret, Hdone. destruct Hx as [[Hd Hi]|[-> Hi]].
    + left. rewrite (Hi z eq_refl) in Hd2. by eapply notes_only.
    + destruct (Hi z eq_refl) as (y & c & Hy & Ey & Hc & Ha). destruct Hd2 as [-> | ->]; [left; apply zone_refl|right].
      exists y, c. by rewrite Ey.
  - apply decoded_case. intros notes ->. apply wp_bind. destruct notes as [n|].
    + apply wp_calling. eapply wp_mono; [apply zone_notes_wp|]. intros d x Hd. apply (notes_only id n (ad_db s)) in Hd; [|apply zone_refl].
      destruct x as [e|[]]; [by apply wp_ret, (Hz u)|]. eapply on_part_wp; [by apply (zone_reads (only_zone id (ad_db s))), Hd; apply get_zone_reads|].
      intros d2 x Hd2. by apply wp_ret, (Hz u).
    + apply wp_ret. eapply reply_wp; [apply get_zone_reads|]. intros d x ->. apply (Hz u); [done..|apply zone_refl].
  - eapply reply_wp; [apply zone_delete_wp|]. intros d x Hd. right. eexists. split; [done|]. exists u. by split_and!.
  - eapply reply_wp; [apply (zone_verify_only _ _ _ _ _ _ (ad_db s)), zone_refl|]. intros d x Hd. by apply (Hz u).
Qed.

(** *** Settings *)

(** Only the row and its cache may differ, and a new row keeps the CHECKs. *)
Definition settings_only (i0 i : Inst) : Prop :=
  i_db i = i_db i0 ∧ i_completed i = i_completed i0 ∧ (i_row i = i_row i0 ∨ row_checks (i_row i) = true).

Lemma reload_only i0 : preserves (settings_only i0) Instance.Get.
Proof. apply preserves_bind; [apply preserves_query|]. intros out. apply preserves_bind; [by apply preserves_modify|]. intros _. apply preserves_ret. Qed.
Lemma registry_laws (wired : bool) z : (if wired then Some zone_registry else None) = Some z → RegistryLaws in_table z.
Proof. destruct wired; [|done]. intros [= <-]. apply zone_registry_laws. Qed.
Lemma instance_update_only wired now q i0 : preserves (settings_only i0) (Instance.Update (if wired : bool then Some zone_registry else None) now q).
Proof.
  apply preserves_bind; [apply reload_only|]. intros cur. apply preserves_bind; [|intros next; apply preserves_bind; [|intros _; apply reload_only]].
  - apply preserves_bind; [|intros url; apply preserves_of_result]. destruct (ui_InstanceURL q) as [raw|]; [|apply preserves_ret].
    apply preserves_bind; [|intros _; apply preserves_ret]. intros i Hi.
    eapply wp_mono; [apply (gate_wp in_table), registry_laws|]. by intros i' x [-> _].
  - apply preserves_checked. intros i (Hd & Hc & _). destruct (row_checks (to_row now next)) eqn:E; [|done]. split_and!; [done..|by right].
Qed.
Lemma instance_get_wp i : wp Instance.Get (λ i' _, i' = i ∨ i' = set_icache (of_row (i_row i)) i) i.
Proof. apply wp_bind, wp_query; [by left|]. apply wp_bind, wp_modify, wp_ret. by right. Qed.

Definition instance_request (r : request) : Prop :=
  match r with RInstanceGet | RInstancePatch _ _ _ | RLatestVersion _ _ _ => True | _ => False end.

Lemma instance_case r s : instance_request r → wp (serve r) (outcome r s) s.
Proof.
  intros Hr. destruct r; try done; simpl.
  - eapply reply_wp; [apply instance_get_wp|]. intros i x Hi. right. eexists. split; [done|].
    destruct Hi as [-> | ->]; [left; apply put_inst_id|by right].
  - apply authorize_case. intros u Hu Hm. apply decoded_case. intros q ->. eapply reply_wp.
    + by apply (instance_update_only _ _ _ (ad_inst s)); split_and!; [..|left].
    + intros i x (Hd & Hc & Hrow). right. eexists. split; [done|]. exists u. by split_and!.
  - unfold LatestVersion. apply wp_bind. apply (wp_mono _ (λ s' c, s' = s ∧ c = inr (ad_checker s))); [by intros fs|].
    intros s' c [-> ->]. destruct (ad_checker s) as [c|] eqn:Ec.
    + destruct (Checker_Get now now' release c) as [[c' v] b]. apply wp_bind, wp_modify, wp_ret. right. by eexists.
    + apply wp_ret. right. eexists. split; [done|]. destruct s. simpl in *. by rewrite Ec.
Qed.

(** *** Backups *)

(** Nothing has changed but the two paths a backup writes. *)
Definition only_paths (out tmp : string) (f0 f : Fs) : Prop := ∀ p, p ≠ out → p ≠ tmp → f !! p = f0 !! p.

Lemma put_paths now part w p data out tmp f0 : p = out ∨ p = tmp → preserves (only_paths out tmp f0) (put now part w p data).
Proof.
  assert (Hi : p = out ∨ p = tmp → ∀ f x, only_paths out tmp f0 f → only_paths out tmp f0 (<[p := x]> f)).
  { intros Hp f x Hf q H1 H2. rewrite lookup_insert_ne by (destruct Hp; congruence). by apply Hf. }
  intros Hp f Hf fs. unfold put. destruct fs as [|[] fs]; by apply Hi.
Qed.

Lemma write_paths now part inp out tmp salt nonce f0 : preserves (only_paths out tmp f0) (Write now part inp out tmp salt nonce).
Proof.
  assert (Ha : ∀ w data, preserves (only_paths out tmp f0) (append now part w tmp data)) by (intros; apply put_paths; by right).
  assert (Hd : ∀ f, only_paths out tmp f0 f → only_paths out tmp f0 (base.delete tmp f)).
  { intros f Hf q H1 H2. rewrite lookup_delete_ne by congruence. by apply Hf. }
  unfold Write, buildArchive. destruct (_ <? _)%Z; [apply preserves_throw|].
  apply preserves_bind; [apply preserves_bind; [|intros; apply preserves_ret]; apply preserves_checked; intros f Hf; by destruct (f !! _)|].
  intros plain. repeat (apply preserves_bind; [apply preserves_of_result|intros ?]). cbv zeta.
  apply preserves_bind; [apply preserves_exec; intros f Hf q H1 H2; rewrite lookup_insert_ne by congruence; by apply Hf|]. intros _.
  apply preserves_bind; [apply preserves_attempt|intros x; apply preserves_bind; [|intros _; apply preserves_of_result]].
  - do 4 (apply preserves_bind; [apply Ha|intros _]). do 2 (apply preserves_bind; [by apply preserves_exec|intros _]).
    apply preserves_bind; [|intros _; apply preserves_bind; [apply preserves_query|intros [?|]; [apply preserves_ret|apply preserves_throw]]].
    apply preserves_checked. intros f Hf. destruct (f !! tmp); [|done]. intros q H1 H2. rewrite lookup_insert_ne by congruence. by apply Hd.
  - apply preserves_ignore. intros f Hf. apply wp_fallible; [done|]. by apply Hd.
Qed.

Lemma backup_create_paths now part stamp tmp salt nonce passphrase f :
  wp (Backup.Create dir snap now part stamp tmp salt nonce passphrase)
    (λ f' _, only_paths (in_dir dir ("prexel-" ^^ stamp ^^ FileExtension)) (in_dir dir tmp) f f') f.
Proof.
  unfold Backup.Create. destruct (_ <? _)%Z; [by apply wp_throw|]. apply wp_bind, wp_of_result. destruct (sn_InstanceID snap) as [iid|]; [|done].
  cbv zeta. apply wp_bind. eapply wp_mono; [by apply (write_paths _ _ _ _ _ _ _ f)|]. intros f' [e|n] Hf; [done|by apply wp_ret].
Qed.

Lemma backup_path_wp id f : wp (Path dir id) (λ f' x, f' = f ∧ ∀ p, x = inr p → ∃ name, validateID id = inr name ∧ p = in_dir dir name ∧ is_Some (f !! p)) f.
Proof.
  apply wp_bind, wp_of_result. destruct (validateID id) as [e|name]; [done|]. apply wp_bind, wp_query; [done|].
  destruct (f !! in_dir dir name) as [x|] eqn:E; [|by apply wp_throw]. apply wp_ret. split; [done|]. intros p [= <-]. exists name. rewrite E. by split_and!.
Qed.
Lemma backup_delete_wp id f : wp (Backup.Delete dir id) (λ f' _, f' = f ∨ ∃ name, validateID id = inr name ∧ f' = base.delete (in_dir dir name) f) f.
Proof.
  apply wp_bind, wp_of_result. destruct (validateID id) as [e|name]; [by left|]. apply wp_bind, wp_fallible; [by left|].
  destruct (match _ with Some _ => _ | None => _ end); [apply wp_ret|apply wp_throw]; right; by exists name.
Qed.

Definition backup_request (r : request) : Prop :=
  match r with RBackupList | RBackupCreate _ _ _ _ _ _ _ | RBackupDownload _ | RBackupDelete _ => True | _ => False end.

Lemma backups_case r s : backup_request r → wp (serve r) (outcome r s) s.
Proof.
  intros Hr. destruct r; try done; simpl; apply authorize_case; intros u Hu Hm.
  - eapply reply_wp; [by apply (wp_query _ _ (λ f _, f = ad_fs s))|]. intros f x ->. rewrite put_fs_id. right. eexists. split; [done|]. by exists u.
  - apply decoded_case. intros passphrase ->. eapply reply_wp; [apply backup_create_paths|]. intros f x Hf. right. eexists. split; [done|].
    exists u. by split_and!.
  - eapply reply_wp; [apply backup_path_wp|]. intros f [e|p] [-> Hp]; rewrite put_fs_id; [apply backup_error_case|].
    destruct (Hp p eq_refl) as (name & Hn & -> & Hf). right. eexists. split; [done|]. exists u. split_and!; [done..|]. by exists name.
  - eapply reply_wp; [apply backup_delete_wp|]. intros f x Hf. right. eexists. split; [done|]. exists u. by split_and!.
Qed.

(** *** Tokens *)

Lemma token_create_wp u name e rand hexID now' lim d : (e <= lim)%Z →
  wp (ApiTokens.Create u name (Some e) rand hexID now') (λ d' _, d' = d ∨ ∃ t e, d' = on_api_tokens (λ l, l ++ [t]) d ∧ at_user_id t = u ∧
    at_revoked_at t = None ∧ at_expires_at t = Some (Unix e) ∧ (now' < e <= lim)%Z) d.
Proof.
  intros He. unfold ApiTokens.Create. apply wp_if; intros _; [apply wp_throw; by left|]. apply wp_if; intros Hn; [apply wp_throw; by left|].
  cbv zeta. apply wp_bind, wp_checked; [by left|]. destruct (_ || _); [by left|]. apply wp_ret. right. do 2 eexists. split_and!; try done.
  bool_simp. lia.
Qed.

Lemma token_expiry_max parse now exp e : token_expiry parse now exp = inr e → (e <= now + APITokenMaxTTL)%Z.
Proof.
  assert (H : (now + APITokenDefaultTTL <= now + APITokenMaxTTL)%Z) by (unfold APITokenDefaultTTL, APITokenMaxTTL, second; lia).
  unfold token_expiry. destruct exp as [v|]; [|by intros [= <-]]. destruct (_ =s ""); [by intros [= <-]|]. destruct (parse v) as [t|]; [|done].
  destruct (Z.ltb_spec (now + APITokenMaxTTL) t); [done|]. intros [= <-]. lia.
Qed.
Lemma token_expiry_refuses parse now exp x : token_expiry parse now exp = inl x → ∃ st code, x = Refuse st code.
Proof.
  unfold token_expiry. destruct exp as [v|]; [|done]. destruct (_ =s ""); [done|]. destruct (parse v) as [t|]; [|intros [= <-]; by repeat eexists].
  destruct (_ <? _)%Z; [|done]. intros [= <-]. by repeat eexists.
Qed.

Lemma list_own u d : wp (ApiTokens.List_ u) (λ d' r, d' = d ∧ ∀ l, r = inr l → ∀ t, t ∈ l → tk_UserID t = u) d.
Proof.
  apply wp_query; [done|]. split; [done|]. intros l [= <-] t (x & -> & Hx)%list_elem_of_fmap. rewrite sort_by_elem, elem_of_filter_b in Hx.
  destruct Hx as [_ Hx]. simpl. by bool_simp.
Qed.

Definition token_request (r : request) : Prop :=
  match r with RTokenCreate _ _ _ _ _ _ | RTokenList | RTokenRevoke _ _ => True | _ => False end.

Lemma tokens_case r s : token_request r → wp (serve r) (outcome r s) s.
Proof.
  intros Hr. destruct r; try done; simpl; apply with_user_case; intros u Hu.
  - apply decoded_case. intros [name exp] ->. destruct (token_expiry parse_rfc3339 now exp) as [x|e] eqn:Ee.
    { apply wp_ret. destruct (token_expiry_refuses _ _ _ _ Ee) as (st & code & ->). apply refusal_case. }
    eapply reply_wp; [apply token_create_wp; by apply token_expiry_max in Ee|]. intros d x Hd. right. eexists. split; [done|].
    exists u. split_and!; [done..|]. unfold fresh_token. done.
  - eapply reply_wp; [apply list_own|].
    intros d [e|l] [-> Hl]; rewrite put_db_id; [apply refusal_case|]. right. eexists. split; [done|]. exists u, l. split_and!; [done..|]. by apply Hl.
  - apply wp_if; intros _; [apply wp_ret, refusal_case|].
    eapply reply_wp with (P := λ d' _, d' = ad_db s ∨ d' = on_api_tokens (upd (revocable u id) (set_token_revoked (Unix now))) (ad_db s)).
    + apply wp_bind, wp_fallible; [by left|]. simpl. destruct (_ =? 0)%nat; [apply wp_throw|apply wp_ret]; by right.
    + intros d x Hd. right. eexists. split; [done|]. exists u. by split_and!.
Qed.

(** *** Domains *)

Lemma domain_get_row id st : wp (Domains.get (C := C) id) (λ st' r, st' = st ∧ ∀ x, r = inr x → sel (is_dom id) (domains (ds_db st)) = Some x) st.
Proof.
  apply wp_bind, wp_query; [done|]. destruct (sel _ _) as [x|] eqn:E; [apply wp_ret|by apply wp_throw]. split; [done|]. by intros y [= <-].
Qed.

Lemma spared_trans A x y z : spared A x y → spared A y z → spared A x z.
Proof. intros [-> | [-> ?]]; [done|]. intros [-> | [-> ?]]; right; (split; [done|done]). Qed.
Lemma spared_id A x y : spared A x y → d_id y = d_id x.
Proof. by intros [-> | [-> _]]. Qed.

Lemma touched_refl id A l : touched id A l l.
Proof. split; intros x Hx Hi; exists x; (split; [done|by left]). Qed.
Lemma touched_trans id A l1 l2 l3 : touched id A l1 l2 → touched id A l2 l3 → touched id A l1 l3.
Proof.
  intros [F1 B1] [F2 B2]. split; intros x Hx Hi.
  - destruct (F1 x Hx Hi) as (y & Hy & Sy). destruct (F2 y) as (z & Hz & Sz); [by rewrite (spared_id _ _ _ Sy)|done|].
    exists z. split; [done|]. by eapply spared_trans.
  - destruct (B2 x Hx Hi) as (y & Hy & Sy). destruct (B1 y) as (z & Hz & Sz); [by rewrite <- (spared_id _ _ _ Sy)|done|].
    exists z. split; [done|]. by eapply spared_trans.
Qed.
Lemma touched_same id A l l' : same_but d_id id l l' → touched id A l l'.
Proof. intros H. split; intros x Hx Hi; exists x; (split; [by apply H|by left]). Qed.
Lemma touched_demote id (A : string → Prop) a l : A a → touched id A l (upd (primary_of a) demoted l).
Proof.
  intros Ha. assert (Hs : ∀ x, spared A x (if primary_of a x then demoted x else x)).
  { intros x. destruct (primary_of a x) eqn:E; [right|by left]. split; [done|]. unfold primary_of, of_app in E.
    apply andb_true_iff in E as [E _]. destruct (d_app_id x) as [b|]; [|done]. apply String.eqb_eq in E as ->. by exists a. }
  split; intros x Hx Hi.
  - exists (if primary_of a x then demoted x else x). split; [|done]. apply elem_of_upd. by exists x.
  - apply elem_of_upd in Hi as (y & Hy & ->). by exists y.
Qed.

Lemma domain_refl id A d : only_domain id A d d.
Proof. split; [by destruct d|apply touched_refl]. Qed.
Lemma domain_step id A d d' f : only_domain id A d d' → touched id A (domains d') (f (domains d')) → only_domain id A d (on_domains f d').
Proof. intros [E Hl] Hf. split; [rewrite E at 1; by destruct d|]. by eapply touched_trans. Qed.

Section OnlyDomain.
Context (id : string) (A : string → Prop) (d0 : Db).
Local Abbreviation Only := (λ st : DomState C, only_domain id A d0 (ds_db st)).

Lemma dupdate_only w f : (∀ x, d_id (f x) = d_id x) → preserves Only (dupdate w id f).
Proof. intros Hf. apply preserves_exec. intros st Hd. apply domain_step; [done|]. by apply touched_same, same_but_upd. Qed.

Lemma check_only zone lookup now x ip : d_id x = id → preserves Only (runDNSCheckOnce svc zone lookup now x ip).
Proof. intros Hx. unfold runDNSCheckOnce, refreshWildcardCoverage. rewrite Hx. cbv zeta. preserve; by apply dupdate_only. Qed.

(** The writes of the table. *)
Lemma demote_only a : A a → preserves Only (demotePrimaryTx a).
Proof. intros Ha. apply preserves_exec. intros st Hd. apply domain_step; [done|]. by apply touched_demote. Qed.
Lemma insert_only x : d_id x = id → preserves Only (insertTx x).
Proof.
  intros Hx. apply preserves_checked. intros st Hd. destruct (List.existsb _ _); [done|]. destruct (negb _); [done|].
  apply domain_step; [done|]. by apply touched_same, same_but_append.
Qed.
Lemma binding_only app primary : preserves Only (updateAppPrimaryTx id app primary).
Proof.
  apply preserves_checked. intros st Hd. destruct (_ && _); [done|]. apply domain_step; [done|]. by apply touched_same, same_but_upd.
Qed.
Lemma delete_only : preserves Only (Domains.delete id).
Proof.
  apply preserves_bind; [|intros n; preserve]. intros st Hd. apply wp_fallible; [done|]. apply domain_step; [done|]. by apply touched_same, same_but_del.
Qed.

Local Ltac domain_writes := preserve; first [apply (resolve_preserves (only_domain _ _ _)) | by apply demote_only | by apply insert_only
  | apply binding_only | apply delete_only | by apply dupdate_only | idtac].

Lemma domain_create_only parse_ip zone now q : (∀ a, Domains.ci_AppID q = Some a → A a) → preserves Only (Domains.Create svc parse_ip zone id now q).
Proof. intros Ha. unfold Domains.Create, resolveUpstream, create_tx, appExistsTx. cbv zeta. domain_writes. by apply demote_only, Ha. Qed.

Lemma update_tx_only x q : (∀ a, (∃ v, Domains.ui_AppID q = Some v ∧ TrimSpace v = a) ∨ d_app_id x = Some a → A a) → preserves Only (update_tx id x q).
Proof.
  intros Ha. unfold update_tx. cbv zeta. match goal with |- preserves _ (mbind ?k ?m) => assert (Hm : returns (λ o, ∀ a, o = Some a → A a) m) end.
  { destruct (Domains.ui_ClearAppID q); [by apply returns_ret|]. destruct (Domains.ui_AppID q) as [v|]; [|apply returns_ret; eauto].
    destruct (TrimSpace v =s ""); [by apply returns_ret|]. apply returns_bind. intros ok. destruct (negb ok); [apply returns_throw|].
    apply returns_ret. intros a [= <-]. eauto. }
  intros st Hd. apply wp_bind. eapply wp_mono; [apply wp_and; [|apply Hm]|].
  - match goal with |- wp ?m _ _ => assert (Hp : preserves Only m) by (unfold appExistsTx; domain_writes); by apply Hp end.
  - intros st' [e|app] [Hd' Hr]; [done|]. specialize (Hr app eq_refl). cbv beta. match goal with |- wp ?m _ _ => assert (Hp : preserves Only m); [|by apply Hp] end.
    domain_writes. apply demote_only. by apply Hr.
Qed.
Lemma domain_delete_only cur : preserves Only (Domains.Delete svc cur id).
Proof. unfold Domains.Delete. domain_writes. Qed.
Lemma domain_retry_only : preserves Only (Domains.Retry id).
Proof. unfold Domains.Retry, resetForRetry. domain_writes. Qed.
Lemma domain_verify_only zone lookup ip now : preserves Only (Domains.Verify svc zone lookup ip now id).
Proof.
  intros st Hd. unfold Domains.Verify. apply wp_bind. eapply wp_mono; [apply domain_get_row|]. intros st' [e|x] [-> Hx]; [done|].
  pose proof (Hx x eq_refl) as [_ E]%sel_Some. unfold is_dom in E. apply String.eqb_eq in E. match goal with |- wp ?m _ _ => assert (Hp : preserves Only m); [|by apply Hp] end.
  preserve. by apply check_only.
Qed.
End OnlyDomain.

Lemma domain_update_only id q st : wp (Domains.Update (C := C) svc id q) (λ st' _, only_domain id (bound_app id q (ds_db st)) (ds_db st) (ds_db st')) st.
Proof.
  unfold Domains.Update. apply wp_bind. eapply wp_mono; [apply domain_get_row|]. intros st' [e|x] [-> Hx]; [apply domain_refl|].
  match goal with |- wp ?m _ _ => assert (Hp : preserves (λ st' : DomState C, only_domain id (bound_app id q (ds_db st)) (ds_db st) (ds_db st')) m) end.
  - preserve; first [apply (resolve_preserves (only_domain _ _ _))|idtac]. apply update_tx_only. intros a [Ha|Ha]; [by left|right]. exists x. by rewrite (Hx x eq_refl).
  - apply Hp, domain_refl.
Qed.

Definition domain_request (r : request) : Prop :=
  match r with
  | RDomainCreate _ _ _ _ _ | RDomainList _ | RDomainListByApp _ | RDomainGet _ | RDomainDelete _ _ | RDomainPatch _ _ | RDomainRetry _
  | RDomainVerify _ _ _ _ _ => True
  | _ => False
  end.
Definition writes_domains (r : request) : Prop :=
  match r with RDomainList _ | RDomainListByApp _ | RDomainGet _ => False | _ => domain_request r end.

Lemma domain_get_reads id st : wp (Domains.Get (C := C) id) (λ st' _, st' = st) st.
Proof. apply wp_bind, wp_query; [done|]. destruct (sel _ _); [by apply wp_ret|by apply wp_throw]. Qed.

(** What a request on domains may change in the table. *)
Definition domain_change (r : request) (d d' : Db) : Prop :=
  match r with
  | RDomainCreate _ _ new _ req => ∃ q, req = Some q ∧ only_domain new (λ a, Domains.ci_AppID q = Some a) d d'
  | RDomainPatch id req => ∃ q, req = Some q ∧ only_domain id (bound_app id q d) d d'
  | RDomainDelete _ id | RDomainRetry id | RDomainVerify _ _ _ _ id => only_domain id (λ _, False) d d'
  | _ => True
  end.

Lemma wrote_domains r s d out : writes_domains r → domain_change r (ad_db s) (ds_db d) → outcome r s (put_dom d s) (inr out).
Proof. intros Hr Hd. right. exists out. split; [done|]. destruct r; try done; (split; [done|by exists d]). Qed.

(** A method that keeps to its rows, answered. *)
Lemma domain_call_case {A} r s (m : M (DomState C) DomErr A) k : writes_domains r →
  wp m (λ st' _, domain_change r (ad_db s) (ds_db st')) (dom_state s) → wp (reply domainError (domain m) k) (outcome r s) s.
Proof. intros Hr Hm. eapply reply_wp; [exact Hm|]. intros d x Hd. by apply wrote_domains. Qed.
Lemma then_get_case r s id m : writes_domains r →
  wp m (λ st' _, domain_change r (ad_db s) (ds_db st')) (dom_state s) → wp (then_get id m) (outcome r s) s.
Proof.
  intros Hr Hm. eapply on_part_wp; [exact Hm|]. intros d [e|[]] Hd; [by apply wp_ret, wrote_domains|].
  eapply on_part_wp; [apply domain_get_reads|]. intros d' x ->. apply wp_ret, (wrote_domains r s (dom_state (put_dom d s))); [done|]. by destruct d.
Qed.
Lemma domain_list_case r s app : match r with RDomainList _ | RDomainListByApp _ => True | _ => False end →
  wp (reply db_error (domain (Domains.List_ app)) (λ l, Answer 200 (BDomains l))) (outcome r s) s.
Proof.
  intros Hr. eapply reply_wp; [by apply (wp_query _ _ (λ d _, d = dom_state s))|]. intros d x ->. rewrite put_dom_id.
  right. eexists. split; [done|]. by destruct r.
Qed.

Lemma domains_case r s : domain_request r → wp (serve r) (outcome r s) s.
Proof.
  intros Hr. destruct r; try done; simpl.
  - apply decoded_case. intros q ->. apply domain_call_case; [done|].
    eapply wp_mono; [apply (domain_create_only newID (λ a, Domains.ci_AppID q = Some a) (ad_db s)); [|apply domain_refl]|].
    { intros a. simpl. destruct (Domains.ci_AppID q) as [b|]; [|done]. by destruct (TrimSpace b =s ""). }
    intros d x Hd. by exists q.
  - by apply domain_list_case.
  - by apply domain_list_case.
  - eapply reply_wp; [apply domain_get_reads|]. intros d x ->. rewrite put_dom_id. right. eexists. by split.
  - apply domain_call_case; [done|]. apply domain_delete_only, domain_refl.
  - apply decoded_case. intros q ->. apply wp_if; intros _; [apply wp_ret, refusal_case|]. apply domain_call_case; [done|].
    eapply wp_mono; [apply domain_update_only|]. intros d x Hd. by exists q.
  - apply then_get_case; [done|]. apply domain_retry_only, domain_refl.
  - apply then_get_case; [done|]. apply domain_verify_only, domain_refl.
Qed.

(** *** Servers *)

Lemma server_refl id d : only_server id d d.
Proof. by destruct d. Qed.
Lemma server_step id d d' f : only_server id d d' → (∀ l, same_but sv_id id l (servers d') → same_but sv_id id l (f (servers d'))) →
  only_server id d (on_servers f d').
Proof. intros [E Hl] Hf. split; [rewrite E at 1; by destruct d|]. by apply Hf. Qed.

Lemma server_get_row id d : wp (Servers.get id) (λ _ r, ∀ x, r = inr x → sv_id x = id) d.
Proof.
  apply wp_bind, wp_query; [done|]. destruct (sel _ _) as [x|] eqn:E; [apply wp_ret|by apply wp_throw]. intros y [= <-].
  apply sel_Some in E as [_ E]. unfold srv_is in E. by bool_simp.
Qed.

Section OnlyServer.
Context (id : string) (d0 : Db).
Local Abbreviation Only := (only_server id d0).
Lemma server_get_only i : preserves Only (Servers.get i).
Proof. apply preserves_bind; [apply preserves_query|]. intros [x|]; [apply preserves_ret|apply preserves_throw]. Qed.
Lemma server_insert_only x : sv_id x = id → preserves Only (Servers.insert x).
Proof.
  intros Hx. apply preserves_checked. intros d Hd. destruct (List.existsb _ _); [done|]. destruct (_ || _); [|done].
  apply server_step; [done|]. intros l. by apply same_but_append.
Qed.
Lemma server_patch_only p : preserves Only (updatePatch id p).
Proof.
  unfold updatePatch. destruct (no_patch p); [apply server_get_only|]. apply preserves_bind; [|intros n; destruct (n =? 0)%nat; [apply preserves_throw|apply server_get_only]].
  apply preserves_checked. intros d Hd. destruct (List.existsb _ _); [done|]. apply server_step; [done|]. intros l. by apply same_but_upd.
Qed.
Lemma server_status_only now st v : preserves Only (updateStatus now id st v).
Proof. apply preserves_exec. intros d Hd. apply server_step; [done|]. intros l. by apply same_but_upd. Qed.
Lemma server_key_only fp : preserves Only (updateHostKey id fp).
Proof. apply preserves_exec. intros d Hd. apply server_step; [done|]. intros l. by apply same_but_upd. Qed.
Lemma server_query_only {A} e (f : Db → A) : preserves (E := SrvErr) Only (query e f).
Proof. apply preserves_query. Qed.
Lemma server_result_only {A} (x : SrvErr + A) : preserves Only (of_result x).
Proof. apply preserves_of_result. Qed.
#[local] Hint Resolve server_get_only server_patch_only server_status_only server_key_only server_query_only server_result_only : domains.

Lemma server_create_only net gen nonce now q : preserves Only (Servers.Create cipher net gen nonce id now q).
Proof. unfold Servers.Create, createLocal, createRemote, countLocal. cbv zeta. preserve; by apply server_insert_only. Qed.
Lemma server_update_only p : preserves Only (Servers.Update id p).
Proof. unfold Servers.Update. cbv zeta. preserve. Qed.
Lemma server_delete_only : preserves Only (Servers.Delete id).
Proof.
  unfold Servers.Delete, Servers.delete. preserve. apply preserves_checked. intros d Hd. destruct (List.existsb _ _); [done|].
  apply server_step; [done|]. intros l. by apply same_but_del.
Qed.
Lemma server_test_only net now : preserves Only (TestConnection cipher net now id).
Proof.
  intros d Hd. unfold TestConnection. apply wp_bind. eapply wp_mono; [apply wp_and; [by apply server_get_only|apply server_get_row]|].
  intros d' [e|x] [Hd' Hx]; [done|]. specialize (Hx x eq_refl). match goal with |- wp ?m _ _ => assert (Hp : preserves Only m); [|by apply Hp] end.
  unfold testLocal, testRemote, testRemoteDocker, getPrivateKey, Connect, Callback. rewrite Hx. cbv zeta. preserve.
Qed.
End OnlyServer.

Definition server_request (r : request) : Prop :=
  match r with
  | RServerCreate _ _ _ _ _ _ | RServerList | RServerGet _ | RServerPatch _ _ | RServerDelete _ | RServerTest _ _ _ => True
  | _ => False
  end.

Lemma server_call_case {E A} r s id (err : E → Reply Body) (m : M Db E A) k :
  match r with RServerCreate _ _ _ i _ _ | RServerPatch i _ | RServerDelete i | RServerTest _ _ i => i = id | _ => False end →
  preserves (only_server id (ad_db s)) m → wp (reply err (db m) k) (outcome r s) s.
Proof.
  intros Hr Hm. eapply reply_wp; [apply Hm, server_refl|]. intros d x Hd. right. eexists. split; [done|].
  destruct r; try done; subst; by split.
Qed.
Lemma server_read_case {E A} r s (err : E → Reply Body) (m : M Db E A) k : match r with RServerList | RServerGet _ => True | _ => False end →
  (∀ d, wp m (λ d' _, d' = d) d) → wp (reply err (db m) k) (outcome r s) s.
Proof.
  intros Hr Hm. eapply reply_wp; [apply Hm|]. intros d x ->. rewrite put_db_id. right. eexists. split; [done|]. by destruct r.
Qed.

Lemma servers_case r s : server_request r → wp (serve r) (outcome r s) s.
Proof.
  intros Hr. destruct r; try done; simpl.
  - apply decoded_case. intros q ->. by eapply server_call_case, server_create_only.
  - apply server_read_case; [done|]. intros d. by apply wp_query.
  - apply server_read_case; [done|]. intros d. apply wp_bind, wp_query; [done|]. destruct (sel _ _); [by apply wp_ret|by apply wp_throw].
  - apply decoded_case. intros q ->. by eapply server_call_case, server_update_only.
  - by eapply server_call_case, server_delete_only.
  - by eapply server_call_case, server_test_only.
Qed.

Lemma request_parts r : zone_request r ∨ instance_request r ∨ backup_request r ∨ token_request r ∨ domain_request r ∨ server_request r.
Proof. destruct r; simpl; tauto. Qed.

(** C27: Whatever fails, a request is refused and leaves everything as it was,
    or it keeps to the part of the state [performs] gives it.  Who may ask: the
    zones are listed with domains.view and changed with
    settings.instance.manage, as are the settings, and the backups reached; tokens
    belong to their user; reading the settings, the latest version, and every
    request on domains and servers ask no permission at all, against
    docs/security.md ([Examples.domains_unguarded],
    [Examples.servers_unguarded]).  What may change: the row of the zone that is
    created or called, or, when the apex is there, the notes of its row; a zone
    leaves with the links of its domains; the row of the settings, under its
    CHECKs, or their cache; a backup writes its own two files, a deletion takes
    the one file of a valid name in the directory, where a download reads it too;
    a token of the caller that ends within a year is appended, or one of the
    caller is revoked; the row of the domain that is created or called, where a
    creation and an update may also end the primacy of another domain of the app
    that is named or bound; the row of the server that is created or called.
    Every other row, table and file stays.  What the requests on domains ask of
    the proxy is not bounded here. *)
Theorem admin_guarded r s : wp (serve r) (outcome r s) s.
Proof.
  destruct (request_parts r) as [H|[H|[H|[H|[H|H]]]]].
  - by apply zones_case.
  - by apply instance_case.
  - by apply backups_case.
  - by apply tokens_case.
  - by apply domains_case.
  - by apply servers_case.
Qed.
End Outcome.

(** ** Examples *)

Module Examples.
#[local] Existing Instance ascii_only.
#[local] Existing Instance toy_lib.
#[local] Existing Instance two_names.
#[local] Existing Instance toy_backup.
#[local] Existing Instance toy_aead.
#[local] Existing Instance no_ssh.

(** An administrator, a guest with no role; one app with its server. *)
Definition guest (id role : string) : User := mkUser id (id ^^ "@acme.test") "hash" role None None "active" None false None None None None 0.
Definition host : Db := on_domains (λ _, [w_dom "d0" "www.example.com" "issuing" true]) (on_users (λ _, [guest "root" "admin"; guest "ann" "member"]) ex_db).
Definition start : Admin (gmap string Route) :=
  mkAdmin (mkInst host first_row None true) None {["/b/old.prexel-backup" := mkFile "x" 1]} ∅ [] ∅.
Definition ask (user : string) (r : request) (s : Admin (gmap string Route)) : Admin (gmap string Route) * (Empty_set + Reply Body) :=
  run (serve (Some user) "/b" (mkSnapshotter "/d/prexel.db" "k" (Some "inst") "1") (Domains.mkService true false false false) "k" r) s.

Lemma guest_reads_no_backup : ask "ann" RBackupList start = (start, inr (Refuse 403 "forbidden")).
Proof. by vm_compute. Qed.
Lemma backup_removed : ad_fs (ask "root" (RBackupDelete "old") start).1 = ∅ ∧
  (ask "root" (RBackupDelete "../old") start).2 = inr (Refuse 400 "invalid_id").
Proof. by vm_compute. Qed.

(** A user with no permission removes the domains and the servers, and adds
    their own: nothing is asked. *)
Definition intruder : CreateInput := mkSrvInput "remote" "mine" "evil.test" 22 "root" false "key".
Lemma domains_unguarded : may host "ann" PermDomainsManage = false ∧ domains host ≠ [] ∧
  let s := (ask "ann" (RDomainPatch "d0" (Some (Domains.mkUpdateInput None true None None None false None))) start).1 in
  domains (ad_db (ask "ann" (RDomainDelete "" "d0") s).1) = [].
Proof. by vm_compute. Qed.
Lemma servers_unguarded : may host "ann" PermServersManage = false ∧
  List.map sv_name (servers (ad_db (ask "ann" (RServerCreate live_net None (Some "0123456789ab") "s9" 7 (Some intruder)) start).1)) = ["local"; "mine"].
Proof. by vm_compute. Qed.

(** A taken name is answered as an internal error. *)
Lemma taken_server_name_500 :
  (ask "root" (RServerCreate live_net None (Some "0123456789ab") "s9" 7 (Some (mkSrvInput "remote" "local" "h.test" 22 "root" false "key"))) start).2 =
  inr (Refuse 500 "internal_error").
Proof. by vm_compute. Qed.

(** A token with no expiry asked for ends after ninety days. *)
Lemma no_expiry_is_ninety_days parse now : token_expiry parse now None = inr (now + 90 * 24 * 3600 * second)%Z.
Proof. done. Qed.

(** The domains of an app are found by its id and not by its name. *)
Lemma domains_by_name_empty : List.existsb (named "web") (apps host) = true ∧
  (∃ d, (ask "root" (RDomainListByApp "a") start).2 = inr (Answer 200 (BDomains [d]))) ∧
  (ask "root" (RDomainListByApp "web") start).2 = inr (Answer 200 (BDomains [])).
Proof. split; [by vm_compute|]. split; [eexists|]; by vm_compute. Qed.
End Examples.
