(* ===== verification/Startup.v ===== *)
(** * Configuration and public address (internal/config, domains/publicip.go)

    The server's configuration from the environment with its checks, and the
    provider of the public address with its cache.  The conversion of a port
    (viper) and [net.ParseIP] are arguments. *)

From S2P Require Import Prelude Effects GoStrings Decimal ApiTokens.

(** ** Configuration (config.go) *)

Record Config := mkConfig {
  cg_Env : string; cg_Port : Z; cg_DataDir : string; cg_SecretKey : string; cg_JWTSecret : string; cg_InstanceURL : string;
  cg_TLSCert : string; cg_TLSKey : string; cg_GitHubAppID : string; cg_GitHubAppPrivateKey : string; cg_GitHubAppSlug : string;
  cg_TwoFactorIssuer : string; cg_TrustedProxies : list string;
}.

Inductive ConfErr :=
  | ErrUnmarshal | ErrTooShort (name : string) | ErrPortRange (port : Z) | ErrDataDir | ErrExample (name : string).

Definition ExampleSecretPrefixes : list string := ["replace-me"; "dev-secret-key"; "dev-"; "change-me"].
Definition IsDevelopment (c : Config) : bool := (cg_Env c =s "development") || (cg_Env c =s "dev").
Definition truncate (s : string) (n : nat) : string := if (len s <=? Z.of_nat n)%Z then s else take_s n s.

Section Config.
Context `{Uc : Unicode}.

Definition hasExamplePrefix (v : string) : bool := List.existsb (λ p, HasPrefix (ToLower v) (ToLower p)) ExampleSecretPrefixes.

(** The warnings that are logged: the variable and the start of its value. *)
Fixpoint check_secrets (prod : bool) (l : list (string * string)) : ConfErr + list (string * string) :=
  match l with
  | [] => inr []
  | (name, value) :: l =>
    if negb (hasExamplePrefix value) then check_secrets prod l
    else if prod then inl (ErrExample name)
    else rest ← check_secrets prod l; inr ((name, truncate value 12) :: rest)
  end.
Definition validateSecretsNotExample (c : Config) : ConfErr + list (string * string) :=
  let prod := negb (IsDevelopment c) && negb (cg_Env c =s "") in
  check_secrets prod [("PREXEL_SECRET_KEY", cg_SecretKey c); ("PREXEL_JWT_SECRET", cg_JWTSecret c)].

Definition validate (c : Config) : ConfErr + list (string * string) :=
  if (len (cg_SecretKey c) <? 32)%Z then inl (ErrTooShort "PREXEL_SECRET_KEY")
  else if (len (cg_JWTSecret c) <? 32)%Z then inl (ErrTooShort "PREXEL_JWT_SECRET")
  else if (cg_Port c <=? 0)%Z || (65535 <? cg_Port c)%Z then inl (ErrPortRange (cg_Port c))
  else if cg_DataDir c =s "" then inl ErrDataDir
  else validateSecretsNotExample c.

(** [getenv]: "" for a variable that is not set; viper takes an empty one for
    unset.  [parse_int]: the port from its text. *)
Context (getenv : string → string) (parse_int : string → option Z).

Definition env (key default : string) : string := let v := getenv key in if v =s "" then default else v.
Definition split_proxies (raw : string) : list string := List.filter (λ t, negb (t =s "")) (TrimSpace <$> Split raw ",").

Definition Unmarshal : option Config :=
  port ← (if getenv "PREXEL_PORT" =s "" then Some 3000%Z else parse_int (getenv "PREXEL_PORT"));
  let raw := env "PREXEL_TRUSTED_PROXIES" "" in
  Some (mkConfig (env "PREXEL_ENV" "production") port (env "PREXEL_DATA_DIR" "/var/lib/prexel") (env "PREXEL_SECRET_KEY" "")
    (env "PREXEL_JWT_SECRET" "") (env "PREXEL_INSTANCE_URL" "") (env "PREXEL_TLS_CERT" "") (env "PREXEL_TLS_KEY" "")
    (env "PREXEL_GITHUB_APP_ID" "") (env "PREXEL_GITHUB_APP_PRIVATE_KEY" "") (env "PREXEL_GITHUB_APP_SLUG" "")
    (env "PREXEL_2FA_ISSUER" "Prexel") (if raw =s "" then [] else split_proxies raw)).

(** The configuration and the warnings. *)
Definition Load : ConfErr + Config * list (string * string) :=
  match Unmarshal with
  | None => inl ErrUnmarshal
  | Some c => warnings ← validate c; inr (c, warnings)
  end.

(** *** What is accepted *)

Record config_ok (c : Config) : Prop := {
  co_secret : (32 <= len (cg_SecretKey c))%Z;
  co_jwt : (32 <= len (cg_JWTSecret c))%Z;
  co_port : (1 <= cg_Port c <= 65535)%Z;
  co_dir : cg_DataDir c ≠ "";
  co_example : IsDevelopment c = false → cg_Env c ≠ "" → hasExamplePrefix (cg_SecretKey c) = false ∧ hasExamplePrefix (cg_JWTSecret c) = false;
}.

Lemma check_secrets_spec prod l : (∃ w, check_secrets prod l = inr w) ↔ (prod = true → Forall (λ x, hasExamplePrefix x.2 = false) l).
Proof.
  induction l as [|[name v] l IH]; simpl; [split; [by constructor|by eexists]|]. destruct (hasExamplePrefix v) eqn:E; simpl.
  - destruct prod.
    + split; [by intros [w ?]|]. intros H. specialize (H eq_refl). inversion H; simpl in *; congruence.
    + split; [done|]. intros _. destruct (proj2 IH) as [w Hw]; [done|]. rewrite Hw. by eexists.
  - rewrite IH. split; intros H Hp; specialize (H Hp); [by constructor|by inversion H].
Qed.

Lemma validate_spec c : (∃ w, validate c = inr w) ↔ config_ok c.
Proof.
  unfold validate. destruct (Z.ltb_spec (len (cg_SecretKey c)) 32); [split; [by intros [w ?]|intros []; lia]|].
  destruct (Z.ltb_spec (len (cg_JWTSecret c)) 32); [split; [by intros [w ?]|intros []; lia]|].
  destruct (_ || _) eqn:Ep; [split; [by intros [w ?]|intros []; bool_simp]; apply orb_true_iff in Ep as [?|?]; lia|].
  destruct (String.eqb_spec (cg_DataDir c) ""); [split; [by intros [w ?]|by intros []]|]. apply orb_false_iff in Ep as [??].
  unfold validateSecretsNotExample. cbv zeta. rewrite check_secrets_spec. split.
  - intros Hx. split; try done; [bool_simp; lia|]. intros Hd He. apply String.eqb_neq in He. rewrite Hd, He in Hx. specialize (Hx eq_refl).
    inversion Hx as [|? ? Hs Hy]. by inversion Hy.
  - intros [_ _ _ _ Hx] [Hd%negb_true_iff He%negb_true_iff%String.eqb_neq]%andb_true_iff. destruct (Hx Hd He). by repeat constructor.
Qed.

Lemma unmarshal_proxies c : Unmarshal = Some c → ∀ p, p ∈ cg_TrustedProxies c → p ≠ "" ∧ ∃ q, p = TrimSpace q.
Proof.
  unfold Unmarshal. intros Hc. destruct (if getenv "PREXEL_PORT" =s "" then _ else _); [|done]. injection Hc as <-. simpl. intros p.
  destruct (_ =s ""); [by intros ?%elem_of_nil|]. unfold split_proxies. rewrite elem_of_filter_b, list_elem_of_fmap.
  intros [(q & -> & _) Hp]. apply negb_true_iff, String.eqb_neq in Hp. split; [done|by exists q].
Qed.

(** The server starts exactly with a configuration that is valid: long
    secrets, none a published example in production, a port, a directory; the
    proxies it trusts are trimmed and not empty. *)
Theorem config_valid c : ((∃ w, Load = inr (c, w)) ↔ Unmarshal = Some c ∧ config_ok c) ∧
  (Unmarshal = Some c → ∀ p, p ∈ cg_TrustedProxies c → p ≠ "" ∧ ∃ q, p = TrimSpace q).
Proof.
  split; [|apply unmarshal_proxies]. unfold Load. destruct Unmarshal as [c'|]; [|split; [by intros [w ?]|by intros [??]]].
  rewrite <- (validate_spec c). split.
  - intros [w H]. destruct (validate c') as [e|w'] eqn:E; [done|]. injection H as -> ->. split; [done|]. by exists w.
  - intros [[= ->] [w Hw]]. exists w. by rewrite Hw.
Qed.

(** With no PREXEL_ENV the server is in production. *)
Lemma unset_env_is_production c : getenv "PREXEL_ENV" = "" → Unmarshal = Some c → IsDevelopment c = false ∧ cg_Env c = "production".
Proof.
  intros He. unfold Unmarshal, env. rewrite He. destruct (if getenv "PREXEL_PORT" =s "" then _ else _); [|done]. by intros [= <-].
Qed.
End Config.

(** ** The public address (publicip.go) *)

Record IP4 := mkIP4 { ip_a : Z; ip_b : Z; ip_c : Z; ip_d : Z }.
Definition IsLoopback (i : IP4) : bool := (ip_a i =? 127)%Z.
Definition IsLinkLocalUnicast (i : IP4) : bool := (ip_a i =? 169)%Z && (ip_b i =? 254)%Z.
Definition IsPrivate (i : IP4) : bool :=
  (ip_a i =? 10)%Z || ((ip_a i =? 172)%Z && (Z.land (ip_b i) 0xf0 =? 16)%Z) || ((ip_a i =? 192)%Z && (ip_b i =? 168)%Z).
Definition ip_string (i : IP4) : string := Itoa (ip_a i) ^^ "." ^^ Itoa (ip_b i) ^^ "." ^^ Itoa (ip_c i) ^^ "." ^^ Itoa (ip_d i).

(** An interface; its addresses, if they can be read, as IPv4 where they are. *)
Record Iface := mkIface { if_Up : bool; if_Loopback : bool; if_Addrs : option (list (option IP4)) }.

Definition usable (i : IP4) : bool := negb (IsLoopback i || IsLinkLocalUnicast i || IsPrivate i).
Definition iface_addrs (i : Iface) : list IP4 :=
  if negb (if_Up i) || if_Loopback i then [] else match if_Addrs i with None => [] | Some l => omap id l end.
Definition lookupInterfaces (ifaces : option (list Iface)) : option string :=
  l ← ifaces; ip_string <$> head (List.filter usable (concat (iface_addrs <$> l))).

(** The provider's cache; [ttl] is in nanoseconds. *)
Record publicIPProvider := mkProvider { pi_cached : string; pi_expiresAt : Z }.
Definition ttl : Z := 3600 * second.

Section PublicIP.
Context (parse_ip : string → option string).

(** [resp]: the status and the body, if each can be had. *)
Definition lookupHTTP (resp : option (Z * option string)) : option string :=
  r ← resp;
  if negb (Z.quot r.1 100 =? 2)%Z then None
  else body ← r.2; parse_ip (TrimSpace (take_s 64 body)).

(** [now], [now']: the clock before and after the lookup; the boolean says
    whether there was one. *)
Definition Get (now now' : Z) (resp : option (Z * option string)) (ifaces : option (list Iface)) (p : publicIPProvider) : publicIPProvider * option string * bool :=
  if negb (pi_cached p =s "") && (now <? pi_expiresAt p)%Z then (p, Some (pi_cached p), false)
  else
    match match lookupHTTP resp with Some ip => Some ip | None => lookupInterfaces ifaces end with
    | None => (p, None, true)
    | Some ip => (mkProvider ip (now' + ttl), Some ip, true)
    end.

(** The address of an interface is one that is up, and none of the reserved
    ones; the first in order. *)
Lemma interface_public ifaces ip : lookupInterfaces ifaces = Some ip →
  ∃ l i f, ifaces = Some l ∧ f ∈ l ∧ if_Up f = true ∧ if_Loopback f = false ∧ i ∈ iface_addrs f ∧ usable i = true ∧ ip = ip_string i.
Proof.
  unfold lookupInterfaces. destruct ifaces as [l|]; [|done]. simpl. destruct (List.filter usable _) as [|i k] eqn:E; [done|]. intros [= <-].
  assert (Hi : i ∈ List.filter usable (concat (iface_addrs <$> l))) by (rewrite E; left). rewrite elem_of_filter_b in Hi. destruct Hi as [Hi Hu].
  apply list_elem_of_In, in_concat in Hi as (a & Ha & Hia). apply list_elem_of_In, list_elem_of_fmap in Ha as (f & -> & Hf). apply list_elem_of_In in Hia.
  exists l, i, f. assert (Hia' := Hia). unfold iface_addrs in Hia'. destruct (if_Up f), (if_Loopback f); simpl in Hia'; try by apply elem_of_nil in Hia'.
  by split_and!.
Qed.

(** An answer is kept for an hour: until then it is given again, with no
    lookup. *)
Lemma public_ip_cached now now' resp ifaces p p' ip looked : Get now now' resp ifaces p = (p', Some ip, looked) → ip ≠ "" →
  (looked = true → pi_expiresAt p' = now' + ttl)%Z ∧
  ∀ t t' resp' ifaces', (t < pi_expiresAt p')%Z → Get t t' resp' ifaces' p' = (p', Some ip, false).
Proof.
  unfold Get. intros Hg Hne. destruct (negb (pi_cached p =s "") && (now <? pi_expiresAt p)%Z) eqn:E.
  - injection Hg as <- <- <-. split; [done|]. intros t t' resp' ifaces' Ht. apply String.eqb_neq in Hne as ->. by apply Z.ltb_lt in Ht as ->.
  - destruct (match lookupHTTP resp with Some _ => _ | None => _ end) as [ip'|]; [|done]. injection Hg as <- <- <-. split; [done|].
    intros t t' resp' ifaces' Ht. simpl in *. apply String.eqb_neq in Hne as ->. by apply Z.ltb_lt in Ht as ->.
Qed.
End PublicIP.

Module Examples.
#[local] Existing Instance ascii_only.

Definition long : string := "0123456789abcdef0123456789abcdef".
Definition vars (secret : string) (k : string) : string :=
  if k =s "PREXEL_SECRET_KEY" then secret else if k =s "PREXEL_JWT_SECRET" then long else if k =s "PREXEL_TRUSTED_PROXIES" then " 10.0.0.0/8 , ,::1" else "".

Lemma starts : cg_TrustedProxies <$> (fst <$> match Load (vars long) (λ _, None) with inr x => Some x | inl _ => None end) = Some ["10.0.0.0/8"; "::1"].
Proof. by vm_compute. Qed.
Lemma example_refused : Load (vars ("DEV-" ^^ long)) (λ _, None) = inl (ErrExample "PREXEL_SECRET_KEY").
Proof. by vm_compute. Qed.

Lemma falls_back :
  let ifaces := Some [mkIface true true (Some [Some (mkIP4 8 8 8 8)]); mkIface true false (Some [None; Some (mkIP4 172 17 0 2); Some (mkIP4 203 0 113 9)])] in
  (Get Some 0 5 (Some (500%Z, Some "1.2.3.4")) ifaces (mkProvider "" 0)).1.2 = Some "203.0.113.9".
Proof. by vm_compute. Qed.
End Examples.
