(* ===== verification/Router.v ===== *)
(** * The routes and their middleware (internal/api/router.go, apimiddleware)

    The table of routes with the middleware of each, the middleware every
    request passes first, and what reaches a handler.  The matching of a path
    (chi) is an argument, and so are the answers of the limiters ([RateLimit])
    and of the bearer middleware ([AuthApi]) for the request at hand; the gates
    are those of [Instance]. *)

From S2P Require Import Prelude GoStrings Instance.

(** ** Middleware *)

(** cors.go: the headers, and whether the request ends here. *)
Definition CORS (instanceURL method origin : string) : list (string * string) * bool :=
  (if negb (origin =s "") && negb (instanceURL =s "") && (origin =s instanceURL) then
     [("Access-Control-Allow-Origin", origin); ("Access-Control-Allow-Credentials", "true");
      ("Access-Control-Allow-Methods", "GET, POST, PUT, PATCH, DELETE, OPTIONS");
      ("Access-Control-Allow-Headers", "Authorization, Content-Type, X-Requested-With"); ("Vary", "Origin")]
   else [], method =s "OPTIONS").

(** security.go *)
Definition SecurityHeaders : list (string * string) :=
  [("Strict-Transport-Security", "max-age=31536000; includeSubDomains"); ("X-Content-Type-Options", "nosniff");
   ("X-Frame-Options", "DENY"); ("Referrer-Policy", "strict-origin-when-cross-origin");
   ("Content-Security-Policy", "default-src 'self'; script-src 'self'; style-src 'self' 'unsafe-inline'; img-src 'self' data:; connect-src 'self'")].

(** size.go: readers nest, the smallest limit holds. *)
Definition RequestSize (maxBytes : Z) (limit : option Z) : option Z :=
  Some (match limit with None => maxBytes | Some n => Z.min n maxBytes end).

Definition body_cap : Z := Z.shiftl 5 20.

(** ** Routes *)

Inductive Guard := Timeout | LoginRateLimit | RefreshRateLimit | Auth | Size (maxBytes : Z).
Record Route := mkRoute { rt_Method : string; rt_Pattern : string; rt_Guards : list Guard; rt_Handler : string }.

(** What is wired. *)
Record Deps := mkDeps {
  dp_Instance : bool; dp_APITokens : bool; dp_Backups : bool; dp_DNSZones : bool; dp_TwoFactor : bool; dp_RBAC : bool; dp_Deploy : bool; dp_WebDist : bool;
}.

Definition guarded_by (gs : list Guard) (l : list (string * string * string)) : list Route :=
  (λ x : string * string * string, mkRoute x.1.1 x.1.2 gs x.2) <$> l.
Definition wired (b : bool) (l : list Route) : list Route := if b then l else [].

Definition setup_routes : list (string * string * string) := [
  ("GET", "/api/v1/setup/status", "setupHandler.Status"); ("POST", "/api/v1/setup/admin", "setupHandler.CreateAdmin");
  ("POST", "/api/v1/setup/instance", "setupHandler.SaveInstance"); ("POST", "/api/v1/setup/server", "setupHandler.CreateServer");
  ("POST", "/api/v1/setup/complete", "setupHandler.Complete")].
Definition stream_routes : list (string * string * string) := [
  ("GET", "/api/v1/events", "eventHandler.Global"); ("GET", "/api/v1/apps/{id}/events", "eventHandler.AppEvents");
  ("GET", "/api/v1/apps/{id}/logs", "eventHandler.Logs"); ("GET", "/api/v1/apps/{id}/containers/{name}/logs", "containerLogsHandler.Stream")].
Definition account_routes : list (string * string * string) := [
  ("POST", "/api/v1/auth/logout", "authHandler.Logout"); ("GET", "/api/v1/auth/me", "authHandler.Me");
  ("PATCH", "/api/v1/auth/profile", "authHandler.UpdateProfile"); ("POST", "/api/v1/auth/email", "authHandler.ChangeEmail");
  ("POST", "/api/v1/auth/password", "authHandler.ChangePassword")].
Definition rbac_routes : list (string * string * string) := [
  ("POST", "/api/v1/auth/avatar", "rbacHandler.UploadAvatar"); ("DELETE", "/api/v1/auth/avatar", "rbacHandler.DeleteAvatar");
  ("GET", "/api/v1/permissions", "rbacHandler.Permissions"); ("GET", "/api/v1/roles", "rbacHandler.ListRoles");
  ("POST", "/api/v1/roles", "rbacHandler.CreateRole"); ("PATCH", "/api/v1/roles/{id}", "rbacHandler.UpdateRole");
  ("DELETE", "/api/v1/roles/{id}", "rbacHandler.DeleteRole"); ("GET", "/api/v1/members", "rbacHandler.ListMembers");
  ("POST", "/api/v1/members", "rbacHandler.CreateMember"); ("PATCH", "/api/v1/members/{id}", "rbacHandler.UpdateMember");
  ("DELETE", "/api/v1/members/{id}", "rbacHandler.DeleteMember"); ("GET", "/api/v1/teams", "rbacHandler.ListTeams");
  ("POST", "/api/v1/teams", "rbacHandler.CreateTeam"); ("GET", "/api/v1/teams/{id}", "rbacHandler.GetTeam");
  ("PATCH", "/api/v1/teams/{id}", "rbacHandler.UpdateTeam"); ("DELETE", "/api/v1/teams/{id}", "rbacHandler.DeleteTeam");
  ("PUT", "/api/v1/teams/{id}/members", "rbacHandler.SetTeamMembers")].
Definition instance_routes : list (string * string * string) := [
  ("GET", "/api/v1/instance/settings", "instanceHandler.Get"); ("PATCH", "/api/v1/instance/settings", "instanceHandler.Patch");
  ("GET", "/api/v1/instance/latest-version", "instanceHandler.LatestVersion")].
Definition token_routes : list (string * string * string) := [
  ("GET", "/api/v1/me/tokens", "apiTokenHandler.List"); ("POST", "/api/v1/me/tokens", "apiTokenHandler.Create");
  ("DELETE", "/api/v1/me/tokens/{id}", "apiTokenHandler.Revoke")].
Definition backup_routes : list (string * string * string) := [
  ("GET", "/api/v1/backups", "backupHandler.List"); ("POST", "/api/v1/backups", "backupHandler.Create");
  ("DELETE", "/api/v1/backups/{id}", "backupHandler.Delete")].
Definition zone_routes : list (string * string * string) := [
  ("GET", "/api/v1/dns-zones", "dnsZoneHandler.List"); ("POST", "/api/v1/dns-zones", "dnsZoneHandler.Create");
  ("GET", "/api/v1/dns-zones/{id}", "dnsZoneHandler.Get"); ("PATCH", "/api/v1/dns-zones/{id}", "dnsZoneHandler.Patch");
  ("DELETE", "/api/v1/dns-zones/{id}", "dnsZoneHandler.Delete"); ("POST", "/api/v1/dns-zones/{id}/verify", "dnsZoneHandler.Verify")].
Definition twofactor_routes : list (string * string * string) := [
  ("POST", "/api/v1/auth/2fa/setup-initiate", "twoFactorHandler.InitiateSetup");
  ("POST", "/api/v1/auth/2fa/setup-confirm", "twoFactorHandler.ConfirmSetup"); ("POST", "/api/v1/auth/2fa/disable", "twoFactorHandler.Disable");
  ("POST", "/api/v1/auth/2fa/recovery-codes", "twoFactorHandler.RegenerateRecoveryCodes");
  ("GET", "/api/v1/auth/2fa/status", "twoFactorHandler.Status")].
Definition app_routes : list (string * string * string) := [
  ("GET", "/api/v1/apps", "appHandler.List"); ("POST", "/api/v1/apps", "appHandler.Create"); ("GET", "/api/v1/apps/{id}", "appHandler.Get");
  ("PATCH", "/api/v1/apps/{id}", "appHandler.Patch"); ("DELETE", "/api/v1/apps/{id}", "appHandler.Delete");
  ("POST", "/api/v1/apps/{id}/stop", "deploymentHandler.Stop"); ("POST", "/api/v1/apps/{id}/deploy", "deploymentHandler.Deploy");
  ("POST", "/api/v1/apps/{id}/rollback", "deploymentHandler.Rollback"); ("POST", "/api/v1/apps/{id}/restart", "deploymentHandler.Restart");
  ("GET", "/api/v1/apps/{id}/deployments", "deploymentHandler.ListByApp"); ("GET", "/api/v1/apps/{id}/stats", "appHandler.Stats");
  ("GET", "/api/v1/apps/{id}/containers", "appHandler.Containers"); ("GET", "/api/v1/apps/{id}/containers/{name}", "appHandler.ContainerDetail");
  ("GET", "/api/v1/apps/{id}/containers/{name}/stats", "appHandler.ContainerStats"); ("GET", "/api/v1/deployments/{id}", "deploymentHandler.Get");
  ("GET", "/api/v1/deployments/{id}/logs", "deploymentHandler.Logs")].
Definition app_part_routes : list (string * string * string) := [
  ("GET", "/api/v1/apps/{id}/secrets", "secretHandler.List"); ("PUT", "/api/v1/apps/{id}/secrets", "secretHandler.Upsert");
  ("DELETE", "/api/v1/apps/{id}/secrets/{key}", "secretHandler.Delete"); ("PUT", "/api/v1/apps/{id}/env-vars", "appHandler.SetEnvVars");
  ("GET", "/api/v1/apps/{id}/volumes", "appVolumeHandler.List"); ("POST", "/api/v1/apps/{id}/volumes", "appVolumeHandler.Create");
  ("GET", "/api/v1/apps/{id}/volumes/{volID}", "appVolumeHandler.Get"); ("PATCH", "/api/v1/apps/{id}/volumes/{volID}", "appVolumeHandler.Patch");
  ("DELETE", "/api/v1/apps/{id}/volumes/{volID}", "appVolumeHandler.Delete"); ("GET", "/api/v1/tags", "tagHandler.List");
  ("POST", "/api/v1/tags", "tagHandler.Create"); ("DELETE", "/api/v1/tags/{id}", "tagHandler.Delete");
  ("GET", "/api/v1/apps/{id}/tags", "tagHandler.ListForApp"); ("PUT", "/api/v1/apps/{id}/tags", "tagHandler.SetAppTags")].
Definition domain_routes : list (string * string * string) := [
  ("GET", "/api/v1/domains", "domainHandler.List"); ("POST", "/api/v1/domains", "domainHandler.Create");
  ("GET", "/api/v1/domains/{id}", "domainHandler.Get"); ("PATCH", "/api/v1/domains/{id}", "domainHandler.Patch");
  ("DELETE", "/api/v1/domains/{id}", "domainHandler.Delete"); ("POST", "/api/v1/domains/{id}/retry", "domainHandler.Retry");
  ("POST", "/api/v1/domains/{id}/verify", "domainHandler.Verify"); ("GET", "/api/v1/apps/{app}/domains", "domainHandler.ListByApp")].
Definition server_routes : list (string * string * string) := [
  ("GET", "/api/v1/servers", "serverHandler.List"); ("GET", "/api/v1/servers/{id}", "serverHandler.Get");
  ("DELETE", "/api/v1/servers/{id}", "serverHandler.Delete"); ("POST", "/api/v1/servers/{id}/test", "serverHandler.Test")].
Definition callback_routes : list (string * string * string) := [
  ("GET", "/api/v1/git-sources/github/callback", "gitSourceHandler.GitHubCallback");
  ("GET", "/api/v1/git-sources/github/manifest-start", "gitSourceHandler.ManifestStart");
  ("GET", "/api/v1/git-sources/github/manifest-callback", "gitSourceHandler.ManifestCallback")].
Definition key_routes : list (string * string * string) := [
  ("POST", "/api/v1/servers", "serverHandler.Create"); ("PATCH", "/api/v1/servers/{id}", "serverHandler.Patch")].
Definition source_routes : list (string * string * string) := [
  ("GET", "/api/v1/git-sources", "gitSourceHandler.List"); ("POST", "/api/v1/git-sources", "gitSourceHandler.Create");
  ("POST", "/api/v1/git-sources/github/manifest-url", "gitSourceHandler.ManifestURL");
  ("POST", "/api/v1/git-sources/github/import", "gitSourceHandler.Import"); ("GET", "/api/v1/git-sources/{id}", "gitSourceHandler.Get");
  ("DELETE", "/api/v1/git-sources/{id}", "gitSourceHandler.Delete"); ("POST", "/api/v1/git-sources/{id}/test", "gitSourceHandler.Test");
  ("GET", "/api/v1/git-sources/{id}/install-url", "gitSourceHandler.InstallURL");
  ("POST", "/api/v1/git-sources/{id}/finalize", "gitSourceHandler.Finalize");
  ("POST", "/api/v1/git-sources/{id}/regenerate-webhook", "gitSourceHandler.RegenerateWebhook");
  ("GET", "/api/v1/git-sources/{id}/repositories", "gitSourceHandler.Repositories");
  ("POST", "/api/v1/git-sources/{id}/repositories/inspect", "gitSourceHandler.InspectRepository");
  ("GET", "/api/v1/git-sources/{id}/repositories/{owner}/{repo}/branches", "gitSourceHandler.Branches")].

Definition session : list Guard := [Timeout; Auth].

(** [NewRouter]; the static files answer every method. *)
Definition routes (d : Deps) : list Route :=
  guarded_by [Timeout] [("GET", "/api/v1/healthz", "healthz")] ++ guarded_by [Timeout] setup_routes ++
  guarded_by [Timeout; LoginRateLimit] [("POST", "/api/v1/auth/login", "authHandler.Login")] ++
  guarded_by [Timeout; RefreshRateLimit] [("POST", "/api/v1/auth/refresh", "authHandler.Refresh")] ++
  wired (dp_TwoFactor d) (guarded_by [Timeout] [("POST", "/api/v1/auth/2fa/challenge", "twoFactorHandler.Challenge")]) ++
  wired (dp_RBAC d) (guarded_by [Timeout] [("GET", "/api/v1/avatars/{name}", "rbacHandler.ServeAvatar")]) ++
  wired (dp_Backups d) (guarded_by [Auth] [("GET", "/api/v1/backups/{id}/download", "backupHandler.Download")]) ++
  guarded_by [Auth] stream_routes ++
  guarded_by session account_routes ++ wired (dp_RBAC d) (guarded_by session rbac_routes) ++ wired (dp_Instance d) (guarded_by session instance_routes) ++
  wired (dp_APITokens d) (guarded_by session token_routes) ++ wired (dp_Backups d) (guarded_by session backup_routes) ++
  wired (dp_DNSZones d) (guarded_by session zone_routes) ++ wired (dp_TwoFactor d) (guarded_by session twofactor_routes) ++
  guarded_by session app_routes ++ guarded_by session app_part_routes ++ guarded_by session domain_routes ++ guarded_by session server_routes ++
  guarded_by [] callback_routes ++
  guarded_by [Timeout; Auth; Size body_cap] (key_routes ++ source_routes) ++
  guarded_by [] [("GET", "/api/v1/apps/{id}/containers/{name}/exec", "containerExecHandler.Exec")] ++
  guarded_by [Timeout] [("GET", "/healthz", "healthz")] ++
  wired (dp_Deploy d) (guarded_by [Timeout] [("POST", "/webhooks/github/{source_id}", "webhookHandler.Handle")]) ++
  wired (dp_WebDist d) (guarded_by [] [("*", "/*", "spaHandler")]).

(** ** A request *)

Record Req := mkReq { rq_Method : string; rq_Path : string; rq_Origin : string }.
(** The state of the gates; what the limiters and the bearer middleware say of
    this request. *)
Record Env := mkEnv { ev_InstanceURL : string; ev_Completed : bool; ev_Settings : Settings; ev_login : bool; ev_refresh : bool; ev_user : option string }.

Inductive Handling :=
  | Preflight | Gated (g : GateAnswer) | NotRouted | TooMany | Unauthorized
  | Runs (r : Route) (user : option string) (limit : option Z).

Fixpoint run_guards (e : Env) (gs : list Guard) (r : Route) (user : option string) (limit : option Z) : Handling :=
  match gs with
  | [] => Runs r user limit
  | Timeout :: gs => run_guards e gs r user limit
  | LoginRateLimit :: gs => if ev_login e then run_guards e gs r user limit else TooMany
  | RefreshRateLimit :: gs => if ev_refresh e then run_guards e gs r user limit else TooMany
  | Auth :: gs => match ev_user e with None => Unauthorized | Some u => run_guards e gs r (Some u) limit end
  | Size n :: gs => run_guards e gs r user (RequestSize n limit)
  end.

(** [find]: the route chi finds for a method and a path. *)
Definition serve (d : Deps) (find : list Route → string → string → option Route) (e : Env) (q : Req) : Handling :=
  if (CORS (ev_InstanceURL e) (rq_Method q) (rq_Origin q)).2 then Preflight
  else
    let limit := RequestSize body_cap None in
    match SetupGate (ev_Completed e) (rq_Path q) with
    | Pass =>
      match (if dp_Instance d then Maintenance (ev_Settings e) (rq_Path q) else Pass) with
      | Pass => match find (routes d) (rq_Method q) (rq_Path q) with None => NotRouted | Some r => run_guards e (rt_Guards r) r None limit end
      | g => Gated g
      end
    | g => Gated g
    end.

(** ** Static files, redirection *)

(** [exists_]: the embedded files; the path that is served. *)
Definition spaHandler (exists_ : string → bool) (path : string) : string :=
  let p := TrimPrefix path "/" in
  let p := if p =s "" then "index.html" else p in
  if exists_ p then path else "/".

Definition HTTPRedirect (host uri : string) : string :=
  let host := match Index host ":" with Some i => take_s i host | None => host end in
  "https://" ^^ host ^^ uri.

(** ** Who reaches a handler *)

(** The handlers that need no session. *)
Definition public : list string :=
  ["healthz"; "setupHandler.Status"; "setupHandler.CreateAdmin"; "setupHandler.SaveInstance"; "setupHandler.CreateServer"; "setupHandler.Complete";
   "authHandler.Login"; "authHandler.Refresh"; "twoFactorHandler.Challenge"; "rbacHandler.ServeAvatar"; "gitSourceHandler.GitHubCallback";
   "gitSourceHandler.ManifestStart"; "gitSourceHandler.ManifestCallback"; "containerExecHandler.Exec"; "webhookHandler.Handle"; "spaHandler"].

Definition same_guard (g h : Guard) : bool :=
  match g, h with Auth, Auth | LoginRateLimit, LoginRateLimit | RefreshRateLimit, RefreshRateLimit => true | _, _ => false end.
Definition has (g : Guard) (gs : list Guard) : bool := List.existsb (same_guard g) gs.
Definition has_guard (g : Guard) (r : Route) : bool := has g (rt_Guards r).
Definition guarded_route (r : Route) : bool :=
  (has_guard Auth r || List.existsb (String.eqb (rt_Handler r)) public)
  && (negb (rt_Handler r =s "authHandler.Login") || has_guard LoginRateLimit r)
  && (negb (rt_Handler r =s "authHandler.Refresh") || has_guard RefreshRateLimit r).

Definition all_wired : Deps := mkDeps true true true true true true true true.

Lemma wired_sublist b l : wired b l `sublist_of` l.
Proof. destruct b; [done|apply sublist_nil_l]. Qed.
(** What is not wired is only missing. *)
Lemma routes_sublist d : routes d `sublist_of` routes all_wired.
Proof. unfold routes. repeat apply sublist_app; (reflexivity || apply wired_sublist). Qed.

Lemma all_guarded : List.forallb guarded_route (routes all_wired) = true.
Proof. by vm_compute. Qed.
Lemma route_guarded d r : r ∈ routes d → guarded_route r = true.
Proof.
  intros Hr. apply (proj1 (List.forallb_forall guarded_route (routes all_wired)) all_guarded), list_elem_of_In.
  by apply (sublist_subseteq _ _ (routes_sublist d)).
Qed.

Lemma sublist_map {A B} (f : A → B) l k : l `sublist_of` k → (f <$> l) `sublist_of` (f <$> k).
Proof. induction 1; simpl; by constructor. Qed.
(** No route hides another one. *)
Lemma routes_distinct d : NoDup ((λ r, (rt_Method r, rt_Pattern r)) <$> routes d).
Proof.
  apply (sublist_NoDup _ ((λ r, (rt_Method r, rt_Pattern r)) <$> routes all_wired)).
  - apply (bool_decide_unpack _). by vm_compute.
  - apply sublist_map, routes_sublist.
Qed.

Lemma run_guards_spec e gs r0 user limit r u lim : run_guards e gs r0 user limit = Runs r u lim →
  r = r0 ∧ (∀ n, limit = Some n → ∃ m, lim = Some m ∧ (m <= n)%Z) ∧
  (if has Auth gs then ev_user e = u ∧ u ≠ None else u = user) ∧
  (has LoginRateLimit gs = true → ev_login e = true) ∧ (has RefreshRateLimit gs = true → ev_refresh e = true).
Proof.
  revert user limit. induction gs as [|g gs IH]; intros user limit H; simpl in H.
  - injection H as <- <- <-. split_and!; try done. intros n ->. by exists n.
  - destruct g as [| | | |n0]; simpl.
    + by apply (IH user limit).
    + destruct (ev_login e) eqn:E; [|done]. destruct (IH user limit H) as (-> & Hl & Ha & H1 & H2). by split_and!.
    + destruct (ev_refresh e) eqn:E; [|done]. destruct (IH user limit H) as (-> & Hl & Ha & H1 & H2). by split_and!.
    + destruct (ev_user e) as [v|] eqn:E; [|done]. destruct (IH (Some v) limit H) as (-> & Hl & Ha & H1 & H2).
      split_and!; try done; (destruct (has Auth gs); [destruct Ha|]; congruence).
    + destruct (IH user _ H) as (-> & Hl & Ha & H1 & H2). split_and!; try done. intros n ->.
      destruct (Hl _ eq_refl) as (m & -> & Hm). exists m. split; [done|]. lia.
Qed.

(** Whatever is wired, a handler runs only after both gates let the path
    through, never for a preflight request, with a body of at most five MB, and
    for the user of a valid token, the public handlers excepted, which get no
    user; a login and a refresh passed their limiter. *)
Theorem routes_guarded d find e q r u lim :
  (∀ l m p x, find l m p = Some x → x ∈ l) → serve d find e q = Runs r u lim →
  rq_Method q ≠ "OPTIONS" ∧ SetupGate (ev_Completed e) (rq_Path q) = Pass ∧
  (dp_Instance d = true → Maintenance (ev_Settings e) (rq_Path q) = Pass) ∧
  (∃ n, lim = Some n ∧ (n <= body_cap)%Z) ∧
  (ev_user e = u ∧ u ≠ None ∨ u = None ∧ rt_Handler r ∈ public) ∧
  (rt_Handler r = "authHandler.Login" → ev_login e = true) ∧ (rt_Handler r = "authHandler.Refresh" → ev_refresh e = true).
Proof.
  intros Hf. unfold serve. simpl (CORS _ _ _).2. destruct (String.eqb_spec (rq_Method q) "OPTIONS") as [|Hm]; [done|]. cbv zeta.
  destruct (SetupGate _ _) eqn:Es; try done. destruct (if dp_Instance d then _ else _) eqn:Em; try done.
  destruct (find _ _ _) as [r'|] eqn:Er; [|done]. apply Hf, route_guarded in Er. intros H.
  apply run_guards_spec in H as (-> & Hl & Ha & H1 & H2). unfold guarded_route, has_guard in Er.
  apply andb_true_iff in Er as [[E1 E2]%andb_true_iff E3]. split_and!; try done.
  - intros Hi. by rewrite Hi in Em.
  - by apply Hl.
  - destruct (has Auth (rt_Guards r')); [by left|right]. split; [done|].
    apply List.existsb_exists in E1 as (h & Hh & ->%String.eqb_eq). by apply list_elem_of_In.
  - intros El. apply H1. by rewrite El in E2.
  - intros El. apply H2. by rewrite El in E3.
Qed.

(** Headers for another origin are never sent. *)
Lemma cors_same_origin instanceURL method origin v : ("Access-Control-Allow-Origin", v) ∈ (CORS instanceURL method origin).1 → v = instanceURL ∧ v ≠ "".
Proof.
  unfold CORS. simpl. destruct (_ && _) eqn:E; [|by intros ?%elem_of_nil]. bool_simp. intros Hv. rewrite !elem_of_cons in Hv.
  destruct Hv as [[= ->]|[?|[?|[?|[?|?%elem_of_nil]]]]]; try done; by simplify_eq.
Qed.

(** ** Examples *)

Module Examples.
(** Segments in braces match one segment; the first route found is taken. *)
Definition seg_match (p s : string) : bool := if HasPrefix p "{" then negb (s =s "") else p =s s.
Fixpoint segs_match (p s : list string) : bool :=
  match p, s with
  | [], [] => true
  | "*" :: _, _ => true
  | x :: p, y :: s => seg_match x y && segs_match p s
  | _, _ => false
  end.
Definition first (l : list Route) (m p : string) : option Route :=
  List.find (λ r, ((rt_Method r =s m) || (rt_Method r =s "*")) && segs_match (Split (rt_Pattern r) "/") (Split p "/")) l.
Lemma first_elem l m p x : first l m p = Some x → x ∈ l.
Proof. intros H. apply List.find_some in H as [H _]. by apply list_elem_of_In. Qed.

Definition calm : Settings := mkSettings "" TLSModeSelfSigned "" "" false "" 80 5 3 false "" 0.
Definition ann : Env := mkEnv "https://panel.test" true calm true true (Some "ann").
Definition nobody : Env := mkEnv "https://panel.test" true calm true true None.

Lemma list_needs_session : serve all_wired first nobody (mkReq "GET" "/api/v1/apps" "") = Unauthorized ∧
  serve all_wired first ann (mkReq "GET" "/api/v1/apps/web" "") =
    Runs (mkRoute "GET" "/api/v1/apps/{id}" [Timeout; Auth] "appHandler.Get") (Some "ann") (Some body_cap).
Proof. by vm_compute. Qed.
Lemma sealed_wizard : serve all_wired first nobody (mkReq "POST" "/api/v1/setup/admin" "") = Gated (Refused 404 "not_found").
Proof. by vm_compute. Qed.

Lemma routes_guarded_witness : (∀ l m p x, first l m p = Some x → x ∈ l) ∧
  ∃ r, serve all_wired first nobody (mkReq "POST" "/api/v1/auth/login" "") = Runs r None (Some body_cap) ∧ rt_Handler r = "authHandler.Login" ∧
    (rt_Handler r = "authHandler.Login" → ev_login nobody = true).
Proof.
  split; [exact first_elem|]. eexists. split; [by vm_compute|]. split; [done|].
  eapply (routes_guarded all_wired first nobody (mkReq "POST" "/api/v1/auth/login" "")); [exact first_elem|by vm_compute].
Defined.

(** The limit of the routes for SSH keys is that of every route. *)
Lemma key_routes_no_larger : ∃ r, serve all_wired first ann (mkReq "POST" "/api/v1/servers" "") = Runs r (Some "ann") (Some body_cap) ∧ Size body_cap ∈ rt_Guards r.
Proof. eexists. split; [by vm_compute|]. apply list_elem_of_In. simpl. auto. Qed.

(** A host that is an IPv6 address is cut at its first colon. *)
Lemma redirect_breaks_ipv6 : HTTPRedirect "[2001:db8::1]:80" "/x" = "https://[2001/x" ∧ HTTPRedirect "panel.test:80" "/x" = "https://panel.test/x".
Proof. by vm_compute. Qed.
End Examples.
