(* ===== verification/Providers.v ===== *)
(** * Providers of Docker clients (internal/dockersvc: local.go, remote.go)

    A provider makes one client on demand, keeps it, and closes it.  That of a
    remote host also owns a temporary file with the private key.  The calls are
    under one mutex, so a history is a sequence.  [Servers] has what a provider
    reaches. *)

From S2P Require Import Prelude Effects GoStrings Decimal.
From stdpp Require Import gmap.

(** Temporary files by path; the clients that are open, and how many were made. *)
Record Host := mkHost { h_files : gmap string string; h_open : list nat; h_made : nat }.
Definition set_files (f : gmap string string) (h : Host) : Host := mkHost f (h_open h) (h_made h).
Definition drop_client (n : nat) (h : Host) : Host := mkHost (h_files h) (List.filter (λ m, negb (m =? n)) (h_open h)) (h_made h).

Inductive PrErr := ErrEmpty (field : string) | ErrClosed | ErrProvider (where_ : string).

(** A provider: its key file ("" for none), its client and whether it is closed. *)
Record Provider := mkProvider {
  pr_name : string; pr_remote : bool; pr_host : string; pr_port : Z; pr_user : string;
  pr_keyPath : string; pr_cli : option nat; pr_closed : bool;
}.
Definition set_cli (c : option nat) (p : Provider) : Provider :=
  mkProvider (pr_name p) (pr_remote p) (pr_host p) (pr_port p) (pr_user p) (pr_keyPath p) c (pr_closed p).
Definition shut (p : Provider) : Provider :=
  mkProvider (pr_name p) (pr_remote p) (pr_host p) (pr_port p) (pr_user p) "" None true.

Local Abbreviation hM := (M Host PrErr).

(** ** Construction *)

Definition NewLocalProvider (name : string) : Provider :=
  mkProvider (if name =s "" then "local" else name) false "" 0 "" "" None false.

(** [os.Remove] of a file; a missing one is an error too. *)
Definition remove (w path : string) : hM unit :=
  checked (ErrProvider w) (λ h, match h_files h !! path with
    | None => inl (ErrProvider w)
    | Some _ => inr (set_files (delete path (h_files h)) h, tt)
    end).

(** [keyPath]: the name the temporary file gets; [part]: what a failing write
    leaves in it. *)
Definition NewRemoteProvider (keyPath part name host : string) (port : Z) (user pem : string) : hM Provider :=
  if name =s "" then throw (ErrEmpty "name")
  else if host =s "" then throw (ErrEmpty "host")
  else if user =s "" then throw (ErrEmpty "user")
  else
    let port := (if port <=? 0 then 22 else port)%Z in
    if pem =s "" then throw (ErrEmpty "private key")
    else
      _ ← exec (ErrProvider "temp key file") (λ h, set_files (<[keyPath := ""]> (h_files h)) h);
      let step (w : string) (f : Host → Host) : hM unit :=
        r ← attempt (exec (ErrProvider w) f);
        match r with
        | inl e => _ ← ignore (remove w keyPath); throw e
        | inr _ => mret tt
        end in
      _ ← step "chmod key file" (λ h, h);
      _ ← modify (λ h, set_files (<[keyPath := part]> (h_files h)) h);
      _ ← step "write key file" (λ h, set_files (<[keyPath := pem]> (h_files h)) h);
      _ ← step "close key file" (λ h, h);
      mret (mkProvider name true host port user keyPath None false).

Definition Type_ (p : Provider) : string := if pr_remote p then "remote" else "local".
Definition Name (p : Provider) : string := pr_name p.
Definition daemonURL (p : Provider) : string := "ssh://" ^^ pr_user p ^^ "@" ^^ pr_host p ^^ ":" ^^ Itoa (pr_port p).
Definition sshFlags (p : Provider) : list string :=
  ["-i"; pr_keyPath p; "-o"; "IdentitiesOnly=yes"; "-o"; "StrictHostKeyChecking=accept-new"; "-o"; "BatchMode=yes"; "-o"; "ServerAliveInterval=30"].

(** ** The client *)

Definition new_client (w : string) : hM nat :=
  fallible (ErrProvider w) (λ h, (mkHost (h_files h) (h_open h ++ [h_made h]) (S (h_made h)), h_made h)).
(** Closing a client can report an error; it is closed. *)
Definition close_client (n : nat) : hM unit := λ h fs,
  (drop_client n h, tail fs, match fs with true :: _ => inl (ErrProvider "close") | _ => inr tt end).

(** The client, and the provider with it. *)
Definition Client (p : Provider) : hM (Provider * nat) :=
  if pr_closed p then throw ErrClosed
  else match pr_cli p with
  | Some n => mret (p, n)
  | None =>
    if pr_remote p then
      _ ← exec (ErrProvider "connection helper") (λ h, h);
      n ← new_client "new remote client";
      r ← attempt (exec (ErrProvider "ping") (λ h, h));
      match r with
      | inl e => _ ← ignore (close_client n); throw e
      | inr _ => mret (set_cli (Some n) p, n)
      end
    else n ← new_client "new local client"; mret (set_cli (Some n) p, n)
  end.

Definition join_err (e1 e2 : PrErr + unit) : PrErr + unit := match e1 with inl _ => e1 | inr _ => e2 end.

(** The provider after [Close], and its error. *)
Definition Close (p : Provider) : hM (Provider * (PrErr + unit)) :=
  if pr_closed p then mret (p, inr tt)
  else
    r1 ← match pr_cli p with None => mret (inr tt) | Some n => attempt (close_client n) end;
    r2 ← (if pr_remote p && negb (pr_keyPath p =s "") then
            (** [os.IsNotExist] is no error. *)
            attempt (exec (ErrProvider "remove key") (λ h, set_files (delete (pr_keyPath p) (h_files h)) h))
          else mret (inr tt));
    mret (shut p, join_err r1 r2).

(** ** The life of a provider *)

Inductive use := UClient | UClose.
(** The calls of one owner: the provider in the end, and whether a [Close] has
    reported an error. *)
Fixpoint uses (l : list use) (p : Provider) (failed : bool) : hM (Provider * bool) :=
  match l with
  | [] => mret (p, failed)
  | UClient :: l => r ← attempt (Client p); uses l match r with inl _ => p | inr x => x.1 end failed
  | UClose :: l => x ← Close p; uses l x.1 (failed || match x.2 with inl _ => true | inr _ => false end)
  end.

Lemma filter_out n l : n ∉ l → List.filter (λ m, negb (m =? n)) l = l.
Proof.
  induction l as [|m l IH]; [done|]. rewrite not_elem_of_cons. intros [Hne Hl]. simpl. rewrite (proj2 (Nat.eqb_neq m n)) by done. simpl.
  by rewrite IH.
Qed.
Lemma drop_last o n made f : n ∉ o → drop_client n (mkHost f (o ++ [n]) made) = mkHost f o made.
Proof.
  intros Hn. unfold drop_client. cbn [h_open h_files h_made]. rewrite List.filter_app, filter_out by done. cbn [List.filter]. rewrite Nat.eqb_refl. simpl.
  by rewrite app_nil_r.
Qed.

Section Life.
(** The clients and the files of others, and the key. *)
Context (o : list nat) (f0 : gmap string string) (keyPath pem : string).
Context (Hkey : f0 !! keyPath = None) (Hpath : keyPath ≠ "").

Record kept (p : Provider) (failed : bool) (h : Host) : Prop := {
  k_open : h_open h = o ++ match pr_cli p with Some n => [n] | None => [] end;
  k_apart : ∀ n, pr_cli p = Some n → n ∉ o;
  k_fresh : ∀ n, n ∈ o → n < h_made h;
  k_remote : pr_remote p = true;
  k_closed : pr_closed p = true → pr_cli p = None;
  k_key : pr_closed p = false → pr_keyPath p = keyPath ∧ h_files h = <[keyPath := pem]> f0;
  k_gone : pr_closed p = true → failed = false → h_files h = f0;
  k_files : h_files h = f0 ∨ h_files h = <[keyPath := pem]> f0;
}.

Lemma key_removed h : h_files h = <[keyPath := pem]> f0 → delete keyPath (h_files h) = f0.
Proof. intros ->. rewrite delete_insert_eq. by apply delete_id. Qed.

Lemma client_kept p failed h : kept p failed h → wp (Client p) (λ h' r, kept match r with inl _ => p | inr x => x.1 end failed h' ∧
  match r with inr (p', n) => pr_cli p' = Some n ∧ n ∈ h_open h' | inl _ => True end) h.
Proof.
  intros Hk. assert (Hk' := Hk). destruct Hk as [H1 H2 H3 H4 H5 H6 H7 H8]. unfold Client. destruct (pr_closed p) eqn:Ec; [by apply wp_throw|].
  destruct (pr_cli p) as [n|] eqn:En.
  { apply wp_ret. split; [done|]. split; [done|]. rewrite H1. set_solver. }
  rewrite H4. apply wp_bind, wp_exec; [done|]. apply wp_bind, wp_fallible; [done|]. cbn [fst snd].
  assert (Hn : h_made h ∉ o) by (intros Hin; apply H3 in Hin; lia). rewrite app_nil_r in H1.
  apply wp_bind, wp_attempt, wp_exec; cbn beta iota.
  - apply wp_bind, wp_ignore. intros fs. unfold close_client. cbn [fst snd]. rewrite H1, drop_last by done.
    apply wp_throw. split; [|done]. split; simpl; rewrite ?En, ?Ec; try done; [by rewrite app_nil_r|]. intros n Hin. apply H3 in Hin. lia.
  - apply wp_ret. split; [|split; [done|simpl; set_solver]]. split; simpl; try done; rewrite ?Ec; try done.
    + by rewrite H1.
    + by intros n [= <-].
    + intros n Hin. apply H3 in Hin. lia.
Qed.

Lemma close_kept p failed h : kept p failed h →
  wp (Close p) (λ h' r, ∃ p' e, r = inr (p', e) ∧ kept p' (failed || match e with inl _ => true | inr _ => false end) h' ∧ pr_closed p' = true ∧ h_open h' = o) h.
Proof.
  intros Hk. assert (Hk' := Hk). destruct Hk as [H1 H2 H3 H4 H5 H6 H7 H8]. unfold Close. destruct (pr_closed p) eqn:Ec.
  { apply wp_ret. exists p, (inr tt). rewrite orb_false_r. split_and!; try done. by rewrite H1, H5, app_nil_r. }
  destruct (H6 eq_refl) as [Hp Hf]. apply wp_bind.
  eapply (wp_mono _ (λ h' r, h_open h' = o ∧ h_files h' = h_files h ∧ h_made h' = h_made h ∧ ∃ x, r = inr x)).
  { destruct (pr_cli p) as [n|] eqn:En; [|apply wp_ret; rewrite H1, app_nil_r; split_and!; try done; by eexists].
    apply wp_attempt. intros fs. unfold close_client. cbn [fst snd]. destruct h as [f op mk]. simpl in H1. subst op. rewrite drop_last by by apply H2.
    split_and!; try done. by eexists. }
  intros h1 r (E1 & E2 & E3 & x & ->). rewrite H4, Hp. rewrite (proj2 (String.eqb_neq _ _) Hpath). cbn [andb negb].
  apply wp_bind, wp_attempt, wp_exec; apply wp_ret; do 2 eexists; (split; [done|]); (split; [|by split]).
  - assert (Ej : match join_err x (inl (ErrProvider "remove key")) with inl _ => true | inr _ => false end = true) by by destruct x.
    rewrite Ej, orb_true_r. split; simpl; try done; rewrite ?E1, ?E2, ?E3, ?app_nil_r; done || by right.
  - split; simpl; try done; rewrite ?E1, ?E2, ?E3, ?app_nil_r; try done.
    + intros _ _. by apply key_removed.
    + left. by apply key_removed.
Qed.

Lemma uses_kept l : ∀ p failed h, kept p failed h → wp (uses l p failed) (λ h' r, ∃ p' failed', r = inr (p', failed') ∧ kept p' failed' h') h.
Proof.
  induction l as [|[] l IH]; intros p failed h Hk; simpl.
  - apply wp_ret. by exists p, failed.
  - apply wp_bind, wp_attempt. eapply wp_mono; [by apply client_kept|]. intros h' r [Hk' _]. by apply IH.
  - apply wp_bind. eapply wp_mono; [by apply (close_kept p failed)|]. intros h' r (p' & e & -> & Hk' & _). by apply IH.
Qed.

Lemma new_kept part name host port user h : h_files h = f0 → h_open h = o → (∀ n, n ∈ o → n < h_made h) →
  wp (NewRemoteProvider keyPath part name host port user pem) (λ h' r, match r with inl _ => h_open h' = o | inr p => kept p false h' end) h.
Proof.
  intros Hf Ho Hfresh. set (own := λ h' : Host, h_open h' = o ∧ h_made h' = h_made h ∧ ∃ d, h_files h' = <[keyPath := d]> f0).
  assert (Hstep : ∀ w f h', own h' → own (f h') → wp (r ← attempt (exec (ErrProvider w) f);
    match r with inl e => _ ← ignore (remove w keyPath); throw e | inr _ => mret tt end) (λ h2 r, match r with inl _ => h_open h2 = o | inr _ => h2 = f h' end) h').
  { intros w f h' H1 H2. apply wp_bind, wp_attempt, wp_exec; [|by apply wp_ret]. apply wp_bind, wp_ignore, wp_checked; [by apply wp_throw, H1|].
    destruct (h_files h' !! keyPath); apply wp_throw; apply H1. }
  unfold NewRemoteProvider. cbv zeta. repeat (apply wp_if; intros _; [by apply wp_throw|]).
  assert (Hput : ∀ d h', own h' → own (set_files (<[keyPath := d]> (h_files h')) h')).
  { intros d h' (? & ? & d' & Hd). split_and!; try done. exists d. simpl. by rewrite Hd, insert_insert_eq. }
  apply wp_bind, wp_exec; [done|]. set (h1 := set_files _ h). assert (Ho1 : own h1) by (split_and!; try done; exists ""; simpl; by rewrite Hf).
  apply wp_bind. eapply wp_mono; [by apply (Hstep "chmod key file" (λ h, h))|]. intros h2 [e|[]] H2; [done|]. subst h2.
  apply wp_bind, wp_modify. set (h2 := set_files _ h1). assert (Ho2 : own h2) by by apply Hput.
  apply wp_bind. eapply wp_mono; [apply (Hstep "write key file" (λ h, set_files (<[keyPath := pem]> (h_files h)) h)); [done|by apply Hput]|].
  intros h3 [e|[]] H3; [done|]. assert (Ho3 : own h3) by (subst h3; by apply Hput).
  apply wp_bind. eapply wp_mono; [by apply (Hstep "close key file" (λ h, h))|]. intros h4 [e|[]] H4; [done|]. subst h4.
  apply wp_ret. assert (Hf3 : h_files h3 = <[keyPath := pem]> f0) by (subst h3; simpl; by rewrite !insert_insert_eq, Hf).
  destruct Ho3 as (E1 & E2 & _). split; simpl; try done; [by rewrite E1, app_nil_r|by rewrite E2|by right].
Qed.

(** Whatever fails, a remote provider has at most one client open and no file
    but its key; while it is not closed the key is there, and once it is closed
    its client is too, and the key is gone unless a [Close] reported an error. *)
Theorem provider_life part name host port user l h : h_files h = f0 → h_open h = o → (∀ n, n ∈ o → n < h_made h) →
  wp (p ← NewRemoteProvider keyPath part name host port user pem; uses l p false) (λ h' r, match r with
    | inl _ => h_open h' = o
    | inr (p, failed) => kept p failed h'
    end) h.
Proof.
  intros Hf Ho Hn. apply wp_bind. eapply wp_mono; [by apply new_kept|]. intros h' [e|p] Hp; [done|].
  eapply wp_mono; [by apply uses_kept|]. by intros h2 r (p' & failed' & -> & Hk).
Qed.
End Life.

Module Examples.
Definition host0 : Host := mkHost ∅ [7] 8.
Definition remote : Provider := mkProvider "prod" true "h.test" 22 "root" "/tmp/k" None false.

Lemma provider_life_witness :
  wp (p ← NewRemoteProvider "/tmp/k" "" "prod" "h.test" 0 "root" "PEM"; uses [UClient; UClient; UClose; UClient] p false) (λ h' r, match r with
    | inl _ => h_open h' = [7]
    | inr (p, failed) => kept [7] ∅ "/tmp/k" "PEM" p failed h'
    end) host0.
Proof. apply provider_life; try done. intros n. rewrite list_elem_of_singleton. simpl. lia. Defined.

Lemma one_client : h_made (run (uses [UClient; UClient] remote false) host0).1 = 9.
Proof. by vm_compute. Qed.

(** A key that could not be removed stays: closing again does nothing. *)
Lemma key_left_behind : let r := uses [UClose; UClose] remote false (mkHost {["/tmp/k" := "PEM"]} [] 0) [true] in
  h_files r.1.1 !! "/tmp/k" = Some "PEM" ∧ ∃ p, r.2 = inr (p, true) ∧ pr_closed p = true.
Proof. split; [by vm_compute|]. eexists. by vm_compute. Qed.
End Examples.
