(* ===== verification/Client.v ===== *)
(** * The client of the command line (internal/cli/client, internal/cli/config)

    The file of settings with its pinned hosts, the verification of a peer's
    certificate, the refresh of an access token, requests and their errors,
    and the reader of server-sent events, next to the writer of api/handler/event.go.
    Redirects are followed as net/http follows them: at most ten requests, the
    method and body by status, the token and cookie on the initial host and its
    subdomains only.  Certificates, URLs, YAML and JSON are operations of a
    class; what the network does is an argument of each call.  The commands
    healthcheck and setup talk to the loopback address with clients of their own
    (cli/command), which verify nothing and are not modelled. *)

From S2P Require Import Prelude Effects GoStrings Decimal CryptoLib Cipher ApiTokens Backup.
From stdpp Require Import gmap.

Local Abbreviation Fs := (gmap string File).

(** ** The settings (config.go) *)

Record KnownHost := mkKnownHost { kh_Host : string; kh_Fingerprint : string }.

(** Nanoseconds; [None] is the zero time. *)
Record Config := mkConfig {
  cf_InstanceURL : string; cf_AccessToken : string; cf_RefreshToken : string; cf_TokenExpiresAt : option Z; cf_KnownHosts : list KnownHost;
}.
Definition no_config : Config := mkConfig "" "" "" None [].

Fixpoint upsert_host (host fp : string) (l : list KnownHost) : list KnownHost :=
  match l with
  | [] => [mkKnownHost host fp]
  | h :: l => if kh_Host h =s host then mkKnownHost (kh_Host h) fp :: l else h :: upsert_host host fp l
  end.
Definition AddKnownHost (host fp : string) (c : Config) : Config :=
  mkConfig (cf_InstanceURL c) (cf_AccessToken c) (cf_RefreshToken c) (cf_TokenExpiresAt c) (upsert_host host fp (cf_KnownHosts c)).
Definition FindKnownHost (host : string) (c : Config) : option string :=
  kh_Fingerprint <$> sel (λ h, kh_Host h =s host) (cf_KnownHosts c).
Definition ClearTokens (c : Config) : Config := mkConfig (cf_InstanceURL c) "" "" None (cf_KnownHosts c).
Definition HasAuth (c : Config) : bool := negb (cf_AccessToken c =s "").

Definition set_tokens (access : string) (expires : option Z) (c : Config) : Config :=
  mkConfig (cf_InstanceURL c) access (cf_RefreshToken c) expires (cf_KnownHosts c).
Definition set_refresh (v : string) (c : Config) : Config :=
  mkConfig (cf_InstanceURL c) (cf_AccessToken c) v (cf_TokenExpiresAt c) (cf_KnownHosts c).
Definition set_instance (v : string) (c : Config) : Config :=
  mkConfig v (cf_AccessToken c) (cf_RefreshToken c) (cf_TokenExpiresAt c) (cf_KnownHosts c).

(** ** Libraries *)

Class ClientLib := {
  (** crypto/x509: a certificate of DER bytes; whether the system's roots can be
      read; whether a leaf verifies with them: intermediates, host, time. *)
  Certificate : Type;
  ParseCertificate : string → option Certificate;
  SystemCertPool : bool;
  VerifyCertificate : Certificate → list Certificate → string → Z → bool;
  sha256_sum : string → string;
  (** [url.Parse]: scheme and host name, in ASCII; the URL of a reference found
      at a URL; scheme, host and port, the key of the idle connections. *)
  ParseURL : string → option (string * string);
  ResolveURL : string → string → option string;
  url_origin : string → string;
  (** yaml.v3 on the settings. *)
  MarshalConfig : Config → string;
  UnmarshalConfig : string → option Config;
  (** encoding/json: the token of an answer, as a stream's first value and as a
      whole document; the texts [error] and [message] of an object. *)
  token_stream : string → option (string * Z);
  token_json : string → option (string * Z);
  error_json : string → option (option string * option string);
  login_json : string → string → string;
}.

(** ** Errors *)

Inductive CliErr :=
  | ErrNoURL | ErrBadURL
  | ErrTLS (why : string)
  | ErrTransport
  | HTTPError (status : Z) (code body : string)
  | ErrMarshal | ErrDecode
  | ErrCliIO (e : BkErr).

Definition StatusUnauthorized : Z := 401.
Definition IsAuthError (e : CliErr) : bool := match e with HTTPError st _ _ => (st =? StatusUnauthorized)%Z | _ => false end.
(** [HTTPError.Error]. *)
Definition error_text (status : Z) (code body : string) : string :=
  if negb (code =s "") then "http " ^^ Itoa status ^^ ": " ^^ code
  else if negb (body =s "") && (len body <? 200)%Z then "http " ^^ Itoa status ^^ ": " ^^ TrimSpace body
  else "http " ^^ Itoa status.

(** ** The client *)

(** [path]: the settings' file, if its directory can be made. *)
Record Client := mkClient { c_baseURL : string; c_scheme : string; c_host : string; c_prompt : bool; c_path : option string }.

Record HttpRequest := mkHttpRequest { rq_Method : string; rq_URL : string; rq_Body : option string; rq_Bearer : string; rq_Refresh : string; rq_LastEventID : string }.
Record HttpResponse := mkHttpResponse { rs_Status : Z; rs_Cookies : list (string * string); rs_Location : string; rs_Body : string }.

(** What the network does for one request: the certificates of the peer a new
    connection meets ([None]: an idle connection serves); the operator's answer,
    if asked; what comes back, if anything.  An exchange is the hops of a request
    and its redirects, the clock, and what a failing write leaves in a file. *)
Record Hop := mkHop { hp_dial : option (list string); hp_yes : bool; hp_answer : option HttpResponse }.
Record Exchange := mkExchange { ex_hops : list Hop; ex_now : Z; ex_part : string }.

(** A request that left, with the certificates of who got it, [None] without
    TLS, and what came back. *)
Record Sent := mkSent { sn_peer : option (list string); sn_req : HttpRequest; sn_answer : option HttpResponse }.

(** Settings in memory, files, the certificates of the open TLS connections by
    origin, the requests sent, the questions asked. *)
Record Cli := mkCli {
  ct_cfg : Config; ct_fs : Fs; ct_conn : gmap string (list string);
  ct_sent : list Sent; ct_asked : list (string * string * bool);
}.
Definition set_cfg (c : Config) (s : Cli) : Cli := mkCli c (ct_fs s) (ct_conn s) (ct_sent s) (ct_asked s).
Definition set_cfs (f : Fs) (s : Cli) : Cli := mkCli (ct_cfg s) f (ct_conn s) (ct_sent s) (ct_asked s).
Definition set_conn (o : string) (p : list string) (s : Cli) : Cli := mkCli (ct_cfg s) (ct_fs s) (<[o := p]> (ct_conn s)) (ct_sent s) (ct_asked s).
Definition log_sent (e : Sent) (s : Cli) : Cli := mkCli (ct_cfg s) (ct_fs s) (ct_conn s) (ct_sent s ++ [e]) (ct_asked s).
Definition log_asked (e : string * string * bool) (s : Cli) : Cli := mkCli (ct_cfg s) (ct_fs s) (ct_conn s) (ct_sent s) (ct_asked s ++ [e]).
Definition on_cfg (f : Config → Config) (s : Cli) : Cli := set_cfg (f (ct_cfg s)) s.

Local Abbreviation cM := (M Cli CliErr).

Section Client.
Context `{Lb : ClientLib}.

(** *** Load and Save *)

Definition Load (path : option string) : M Fs BkErr Config :=
  match path with
  | None => throw (ErrIO "dir")
  | Some path =>
    f ← Stat "read config" path;
    match f with
    | None => mret no_config
    | Some f => match UnmarshalConfig (fl_data f) with None => throw (ErrIO "parse config") | Some c => mret c end
    end
  end.

(** Modes are left out. *)
Definition Save (path : option string) (now : Z) (part : string) (c : Config) : M Fs BkErr unit :=
  match path with
  | None => throw (ErrIO "dir")
  | Some path =>
    let tmp := path ^^ ".tmp" in
    _ ← WriteFile now part "write config tmp" tmp (MarshalConfig c);
    r ← attempt (Rename "rename config" tmp path);
    match r with
    | inl e => _ ← ignore (Remove "rename config" tmp); throw e
    | inr _ => mret tt
    end
  end.

Definition save (c : Client) (x : Exchange) : cM unit :=
  cfg ← gets ct_cfg;
  zoom ct_fs set_cfs ErrCliIO (Save (c_path c) (ex_now x) (ex_part x) cfg).

(** *** New *)

Definition New (cfg : Config) (baseURL : string) (prompt : bool) (path : option string) : CliErr + Client :=
  let baseURL := if baseURL =s "" then cf_InstanceURL cfg else baseURL in
  if baseURL =s "" then inl ErrNoURL
  else
    let baseURL := if Contains baseURL "://" then baseURL else "https://" ^^ baseURL in
    match ParseURL baseURL with
    | None => inl ErrBadURL
    | Some (scheme, host) => inr (mkClient (TrimRight baseURL "/") scheme host prompt path)
    end.

(** *** Verification of a peer (tls.go) *)

Definition verifyAgainstSystem (now : Z) (host : string) (leaf : Certificate) (intermediatesDER : list string) : bool :=
  SystemCertPool && VerifyCertificate leaf (omap ParseCertificate intermediatesDER) host now.

(** [base64.RawStdEncoding] of the digest. *)
Definition fingerprintSHA256 (der : string) : string :=
  "sha256-" ^^ String.string_of_list_ascii (List.filter not_pad (b64_encode (String.list_ascii_of_string (sha256_sum der)))).

(** [yes]: the answer of the operator. *)
Definition verifyPeerRaw (c : Client) (x : Exchange) (yes : bool) (rawCerts : list string) : cM unit :=
  match rawCerts with
  | [] => throw (ErrTLS "no peer cert")
  | der :: rest =>
    match ParseCertificate der with
    | None => throw (ErrTLS "parse cert")
    | Some leaf =>
      if verifyAgainstSystem (ex_now x) (c_host c) leaf rest then mret tt
      else
        let fp := fingerprintSHA256 der in
        cfg ← gets ct_cfg;
        match FindKnownHost (c_host c) cfg with
        | Some existing => if existing =s fp then mret tt else throw (ErrTLS "cert fingerprint changed")
        | None =>
          if negb (c_prompt c) then throw (ErrTLS "not pinned")
          else
            _ ← modify (log_asked (c_host c, fp, yes));
            if negb yes then throw (ErrTLS "user declined")
            else _ ← modify (on_cfg (AddKnownHost (c_host c) fp)); save c x
        end
    end
  end.

(** *** One exchange *)

(** The connection a request uses: the open one, or a new one, verified when
    the URL asks for TLS, always for the host of the client. *)
Definition connect (c : Client) (x : Exchange) (h : Hop) (url : string) : cM (option (list string)) :=
  match ParseURL url with
  | None => throw ErrBadURL
  | Some (scheme, _) =>
    if scheme =s "https" then
      match hp_dial h with
      | None =>
        conns ← gets ct_conn;
        match conns !! url_origin url with None => throw ErrTransport | Some certs => mret (Some certs) end
      | Some certs =>
        _ ← verifyPeerRaw c x (hp_yes h) certs;
        _ ← modify (set_conn (url_origin url) certs);
        mret (Some certs)
      end
    else if scheme =s "http" then mret None
    else throw ErrTransport
  end.

(** net/http: the method, the body and the place of the request an answer
    redirects to; whether the token and the cookie go there. *)
Definition redirected (q : HttpRequest) (r : HttpResponse) : option (string * option string * string) :=
  if rs_Location r =s "" then None
  else if bool_decide (rs_Status r ∈ [301; 302; 303]%Z) then
    Some (if (rq_Method q =s "GET") || (rq_Method q =s "HEAD") then rq_Method q else "GET", None, rs_Location r)
  else if bool_decide (rs_Status r ∈ [307; 308]%Z) then Some (rq_Method q, rq_Body q, rs_Location r)
  else None.

Definition isDomainOrSubdomain (host parent : string) : bool :=
  (host =s parent) || (negb (Contains host ":" || Contains host "%") && HasSuffix host ("." ^^ parent)).
Definition on_host (initial url : string) : bool :=
  match ParseURL initial, ParseURL url with Some (_, i), Some (_, h) => isDomainOrSubdomain h i | _, _ => false end.

Definition max_requests : nat := 10.

(** The loop of [http.Client.Do]: [initial] is the URL of the first request,
    [n] counts those that left with this one, [strip] says that a host was left. *)
Fixpoint follow (c : Client) (x : Exchange) (initial : string) (strip : bool) (n : nat) (q : HttpRequest) (hops : list Hop) : cM HttpResponse :=
  match hops with
  | [] => throw ErrTransport
  | h :: hops =>
    peer ← connect c x h (rq_URL q);
    _ ← modify (log_sent (mkSent peer q (hp_answer h)));
    match hp_answer h with
    | None => throw ErrTransport
    | Some r =>
      match redirected q r with
      | None => mret r
      | Some (method, body, loc) =>
        match ResolveURL (rq_URL q) loc with
        | None => throw ErrTransport
        | Some url =>
          if max_requests <=? n then throw ErrTransport
          else
            let strip := strip || negb (on_host initial url) in
            follow c x initial strip (S n)
              (mkHttpRequest method url body (if strip then "" else rq_Bearer q) (if strip then "" else rq_Refresh q) (rq_LastEventID q)) hops
        end
      end
    end
  end.

(** [c.http.Do]. *)
Definition send (c : Client) (x : Exchange) (q : HttpRequest) : cM HttpResponse := follow c x (rq_URL q) false 1 q (ex_hops x).

(** [http.NewRequestWithContext] on the joined URL, with the tokens kept. *)
Definition new_request (c : Client) (method path : string) (body : option string) : cM HttpRequest :=
  match ParseURL (c_baseURL c ^^ path) with
  | None => throw ErrBadURL
  | Some _ => cfg ← gets ct_cfg; mret (mkHttpRequest method (c_baseURL c ^^ path) body (cf_AccessToken cfg) (cf_RefreshToken cfg) "")
  end.

Definition is_refresh (ck : string * string) : bool := (ck.1 =s "refresh_token") && negb (ck.2 =s "").
Definition keep_cookies (r : HttpResponse) (c : Config) : Config :=
  foldl (λ c ck, if is_refresh ck then set_refresh ck.2 c else c) c (rs_Cookies r).

(** [time.Duration(n) * time.Second], an int64. *)
Definition seconds (n : Z) : Z := ((n * second + 2 ^ 63) mod 2 ^ 64 - 2 ^ 63)%Z.

Definition ensureToken (c : Client) (x : Exchange) : cM unit :=
  cfg ← gets ct_cfg;
  if cf_AccessToken cfg =s "" then mret tt
  else if match cf_TokenExpiresAt cfg with Some t => (60 * second <? t - ex_now x)%Z | None => false end then mret tt
  else if cf_RefreshToken cfg =s "" then mret tt
  else
    q ← new_request c "POST" "/api/v1/auth/refresh" None;
    r ← send c x (mkHttpRequest (rq_Method q) (rq_URL q) None "" (rq_Refresh q) "");
    if negb (rs_Status r =? 200)%Z then mret tt
    else match token_stream (rs_Body r) with
    | None => mret tt
    | Some (access, expires_in) =>
      _ ← modify (on_cfg (λ c, keep_cookies r (set_tokens access (Some (ex_now x + seconds expires_in)%Z) c)));
      ignore (save c x)
    end.

(** The error of an answer; the code and the message of the API when it has
    them. *)
Definition api_error (r : HttpResponse) : CliErr :=
  match error_json (rs_Body r) with
  | None => HTTPError (rs_Status r) "" (rs_Body r)
  | Some (code, message) =>
    HTTPError (rs_Status r) (default "" code) (match message with Some m => if m =s "" then rs_Body r else m | None => rs_Body r end)
  end.

(** [body]: none, or what the encoder makes of it; [out]: the decoder of the
    answer, if one is wanted.  [x1] is the exchange of a refresh. *)
Definition Do {A} (c : Client) (x1 x2 : Exchange) (method path : string) (body : option (option string)) (out : option (string → option A)) : cM (option A) :=
  _ ← ensureToken c x1;
  body ← of_result (match body with None => inr None | Some None => inl ErrMarshal | Some (Some b) => inr (Some b) end);
  q ← new_request c method path body;
  r ← send c x2 q;
  _ ← each (λ ck, when (is_refresh ck) (_ ← modify (on_cfg (set_refresh ck.2)); ignore (save c x2))) (rs_Cookies r);
  if (400 <=? rs_Status r)%Z then throw (api_error r)
  else match out with
  | None => mret None
  | Some dec =>
    if rs_Body r =s "" then mret None
    else match dec (rs_Body r) with None => throw ErrDecode | Some a => mret (Some a) end
  end.

Definition Get {A} c x1 x2 path (out : option (string → option A)) : cM (option A) := Do c x1 x2 "GET" path None out.
Definition Post {A} c x1 x2 path body (out : option (string → option A)) : cM (option A) := Do c x1 x2 "POST" path body out.
Definition Put {A} c x1 x2 path body (out : option (string → option A)) : cM (option A) := Do c x1 x2 "PUT" path body out.
Definition Patch {A} c x1 x2 path body (out : option (string → option A)) : cM (option A) := Do c x1 x2 "PATCH" path body out.
Definition Delete (c : Client) (x1 x2 : Exchange) (path : string) : cM unit := _ ← Do (A := unit) c x1 x2 "DELETE" path None None; mret tt.

Definition GetRaw (c : Client) (x1 x2 : Exchange) (path : string) : cM string :=
  _ ← ensureToken c x1;
  q ← new_request c "GET" path None;
  r ← send c x2 q;
  if (400 <=? rs_Status r)%Z then throw (api_error r) else mret (rs_Body r).

(** *** Login, Logout *)

Definition Login (c : Client) (x : Exchange) (email password : string) : cM (string * Z) :=
  q ← new_request c "POST" "/api/v1/auth/login" (Some (login_json email password));
  r ← send c x (mkHttpRequest (rq_Method q) (rq_URL q) (rq_Body q) "" "" "");
  if negb (rs_Status r =? 200)%Z then
    throw (HTTPError (rs_Status r) (match error_json (rs_Body r) with Some (Some code, _) => code | _ => "" end) (rs_Body r))
  else match token_json (rs_Body r) with
  | None => throw ErrDecode
  | Some (access, expires_in) =>
    _ ← modify (on_cfg (λ cfg, set_instance (c_baseURL c) (keep_cookies r (set_tokens access (Some (ex_now x + seconds expires_in)%Z) cfg))));
    _ ← save c x;
    mret (access, expires_in)
  end.

Definition Logout (c : Client) (x1 x2 : Exchange) : cM unit :=
  _ ← ignore (Do (A := unit) c x1 x2 "POST" "/api/v1/auth/logout" None None);
  _ ← modify (on_cfg ClearTokens);
  save c x2.

(** ** Server-sent events *)

(** The opening of a stream: the bytes that will come. *)
Definition SSE (c : Client) (x1 x2 : Exchange) (path lastEventID : string) : cM string :=
  _ ← ensureToken c x1;
  q ← new_request c "GET" path None;
  r ← send c x2 (mkHttpRequest (rq_Method q) (rq_URL q) None (rq_Bearer q) "" lastEventID);
  if negb (rs_Status r =? 200)%Z then throw (HTTPError (rs_Status r) "" (rs_Body r)) else mret (rs_Body r).
End Client.

Record SSEEvent := mkSSE { ev_ID : string; ev_Event : string; ev_Data : string }.
Definition no_event : SSEEvent := mkSSE "" "" "".

Definition nl : ascii := "010"%char.
Definition crlf : string := String "013" (String "010" "").

(** The lines that [ReadString] returns, without their ends; bytes after the
    last newline are lost. *)
Fixpoint read_lines (cur s : string) : list string :=
  match s with
  | "" => []
  | String a s => if Ascii.eqb a nl then TrimRight (cur ^^ String a "") crlf :: read_lines "" s else read_lines (cur ^^ String a "") s
  end.

Definition sse_field (field value : string) (ev : SSEEvent) : SSEEvent :=
  if field =s "id" then mkSSE value (ev_Event ev) (ev_Data ev)
  else if field =s "event" then mkSSE (ev_ID ev) value (ev_Data ev)
  else if field =s "data" then
    mkSSE (ev_ID ev) (ev_Event ev) ((if ev_Data ev =s "" then "" else ev_Data ev ^^ String nl "") ^^ value)
  else ev.

(** The event under way and the events delivered. *)
Definition sse_line (st : SSEEvent * list SSEEvent) (line : string) : SSEEvent * list SSEEvent :=
  let '(ev, out) := st in
  if line =s "" then (no_event, if negb (ev_Data ev =s "") || negb (ev_Event ev =s "") then out ++ [ev] else out)
  else if HasPrefix line ":" then st
  else match Index line ":" with
  | Some (S i) => (sse_field (take_s (S i) line) (TrimPrefix (drop_s (S (S i)) line) " ") ev, out)
  | _ => st
  end.

Definition sse_events (stream : string) : list SSEEvent := (foldl sse_line (no_event, []) (read_lines "" stream)).2.

(** *** The writer (api/handler/event.go) *)

(** An event of the bus, a line of a log, a keep-alive; [data] is JSON. *)
Inductive Frame := BusFrame (id typ data : string) | LogFrame (typ data : string) | KeepAlive (unix : Z).

Definition frame (f : Frame) : string :=
  let line s := s ^^ String nl "" in
  match f with
  | BusFrame id typ data => line ("id: " ^^ id) ^^ line ("event: " ^^ typ) ^^ line ("data: " ^^ data) ^^ line ""
  | LogFrame typ data => line ("event: " ^^ typ) ^^ line ("data: " ^^ data) ^^ line ""
  | KeepAlive unix => line (": keepalive " ^^ Itoa unix) ^^ line ""
  end.
Definition frames (l : list Frame) : string := String.concat "" (frame <$> l).

(** ** Pinning *)

Lemma find_upsert host fp h l :
  kh_Fingerprint <$> sel (λ x, kh_Host x =s h) (upsert_host host fp l) =
  (if host =s h then Some fp else kh_Fingerprint <$> sel (λ x, kh_Host x =s h) l).
Proof.
  induction l as [|x l IH]; simpl.
  - unfold sel. simpl. by destruct (host =s h).
  - destruct (String.eqb_spec (kh_Host x) host) as [<-|Hne]; unfold sel in *; simpl.
    + by destruct (kh_Host x =s h).
    + destruct (String.eqb_spec (kh_Host x) h) as [<-|Hh]; [|exact IH]. simpl. destruct (String.eqb_spec host (kh_Host x)); [congruence|done].
Qed.
Lemma find_add host fp h c : FindKnownHost h (AddKnownHost host fp c) = (if host =s h then Some fp else FindKnownHost h c).
Proof. apply find_upsert. Qed.

Section Trust.
Context `{Lb : ClientLib} (c : Client) (s0 : Cli).

(** The certificates of a peer are good: they verify with the system's roots,
    or the leaf is the one pinned for the host. *)
Definition good_peer (cfg : Config) (certs : list string) : Prop :=
  ∃ der rest leaf, certs = der :: rest ∧ ParseCertificate der = Some leaf ∧
    ((∃ now, verifyAgainstSystem now (c_host c) leaf rest = true) ∨ FindKnownHost (c_host c) cfg = Some (fingerprintSHA256 der)).

(** [e] is the request that the answer to [p] redirects to. *)
Definition redirects (p : Sent) (q : HttpRequest) : Prop :=
  ∃ r loc, sn_answer p = Some r ∧ redirected (sn_req p) r = Some (rq_Method q, rq_Body q, loc) ∧ ResolveURL (rq_URL (sn_req p)) loc = Some (rq_URL q).

(** Tokens go to the host of the client or a subdomain. *)
Definition own_tokens (q : HttpRequest) : Prop :=
  rq_Bearer q = "" ∧ rq_Refresh q = "" ∨ ∃ scheme host, ParseURL (rq_URL q) = Some (scheme, host) ∧ isDomainOrSubdomain host (c_host c) = true.

(** The request at place [i] of the log. *)
Record sent_ok (cfg : Config) (l : list Sent) (i : nat) (e : Sent) : Prop := {
  so_good : ∀ certs, sn_peer e = Some certs → good_peer cfg certs;
  so_plain : sn_peer e = None → ∃ j p, i = S j ∧ l !! j = Some p ∧ redirects p (sn_req e);
  so_tokens : own_tokens (sn_req e);
}.

(** Pins stay as they are and new ones were confirmed, once; the open
    connections, and whoever got a request over TLS, are good; a request without
    TLS is the redirect of the one before. *)
Record trusted (s : Cli) : Prop := {
  tr_kept : ∀ h fp, FindKnownHost h (ct_cfg s0) = Some fp → FindKnownHost h (ct_cfg s) = Some fp;
  tr_asked : ∀ h fp, FindKnownHost h (ct_cfg s) = Some fp → FindKnownHost h (ct_cfg s0) = Some fp ∨ (h, fp, true) ∈ ct_asked s;
  tr_once : ∀ h fp, (h, fp, true) ∈ ct_asked s → FindKnownHost h (ct_cfg s) = Some fp;
  tr_conn : ∀ o certs, ct_conn s !! o = Some certs → good_peer (ct_cfg s) certs;
  tr_sent : ∀ i e, ct_sent s !! i = Some e → sent_ok (ct_cfg s) (ct_sent s) i e;
}.

Lemma sent_ok_cfg cfg cfg' l i e : (∀ certs, good_peer cfg certs → good_peer cfg' certs) → sent_ok cfg l i e → sent_ok cfg' l i e.
Proof. intros H [H1 H2 H3]. split; [intros; by apply H, H1|done..]. Qed.

(** Tokens and files do not matter for trust. *)
Lemma trusted_ext s s' : trusted s → cf_KnownHosts (ct_cfg s') = cf_KnownHosts (ct_cfg s) → ct_conn s' = ct_conn s →
  ct_sent s' = ct_sent s → ct_asked s' = ct_asked s → trusted s'.
Proof.
  intros [H1 H2 H3 H4 H5] E1 E2 E3 E4. assert (Hf : ∀ h, FindKnownHost h (ct_cfg s') = FindKnownHost h (ct_cfg s)) by (intros h; unfold FindKnownHost; by rewrite E1).
  assert (Hg : ∀ certs, good_peer (ct_cfg s) certs → good_peer (ct_cfg s') certs) by (intros certs (d & r & l & ? & ? & ?); exists d, r, l; by rewrite Hf).
  split; rewrite ?E2, ?E3, ?E4.
  - intros h fp. rewrite Hf. apply H1.
  - intros h fp. rewrite Hf. apply H2.
  - intros h fp. rewrite Hf. apply H3.
  - intros o certs Hc. by eapply Hg, H4.
  - intros i e He. eapply sent_ok_cfg; [exact Hg|by apply H5].
Qed.
Lemma keep_cookies_hosts r cfg : cf_KnownHosts (keep_cookies r cfg) = cf_KnownHosts cfg.
Proof.
  unfold keep_cookies. revert cfg. induction (rs_Cookies r) as [|ck l IH]; [done|]. intros cfg. cbn [foldl]. rewrite IH. by destruct (is_refresh ck).
Qed.
Lemma on_cfg_trusted f : (∀ cfg, cf_KnownHosts (f cfg) = cf_KnownHosts cfg) → preserves (E := CliErr) trusted (modify (on_cfg f)).
Proof. intros Hf. apply preserves_modify. intros s Hs. by eapply trusted_ext; [exact Hs|apply Hf|..]. Qed.
Lemma save_wp x s (Q : Cli → CliErr + unit → Prop) : (∀ f r, Q (set_cfs f s) r) → wp (save c x) Q s.
Proof.
  intros H. apply wp_bind, wp_gets, wp_zoom. intros fs. destruct (Save _ _ _ _ _ _) as [[f fs'] [e|[]]]; apply H.
Qed.
Lemma save_trusted x : preserves trusted (save c x).
Proof. intros s Hs. apply save_wp. intros f r. by eapply trusted_ext. Qed.

Lemma good_peer_add cfg h fp certs : FindKnownHost h cfg = None → good_peer cfg certs → good_peer (AddKnownHost h fp cfg) certs.
Proof.
  intros Hn (d & r & l & ? & ? & Hg). exists d, r, l. split_and!; [done..|]. destruct Hg as [?|Hg]; [by left|]. right. rewrite find_add.
  destruct (String.eqb_spec h (c_host c)) as [->|]; [congruence|done].
Qed.

(** A new pin: nothing was pinned, and the answer was yes. *)
Lemma pin_trusted s fp : trusted s → FindKnownHost (c_host c) (ct_cfg s) = None →
  trusted (on_cfg (AddKnownHost (c_host c) fp) (log_asked (c_host c, fp, true) s)).
Proof.
  intros [H1 H2 H3 H4 H5] Hn. split; simpl.
  - intros h f Hf. rewrite find_add. destruct (String.eqb_spec (c_host c) h) as [<-|]; [|by apply H1]. by apply H1 in Hf; congruence.
  - intros h f. rewrite find_add. rewrite elem_of_app, list_elem_of_singleton. destruct (String.eqb_spec (c_host c) h) as [<-|]; [intros [= ->]; auto|].
    intros [?|?]%H2; auto.
  - intros h f. rewrite find_add, elem_of_app, list_elem_of_singleton. intros [Hin|[= -> ->]]; [|by rewrite String.eqb_refl].
    destruct (String.eqb_spec (c_host c) h) as [<-|]; [|by apply H3]. apply H3 in Hin. congruence.
  - intros o certs Hc. apply good_peer_add; [done|by eapply H4].
  - intros i e He. eapply sent_ok_cfg; [intros certs; by apply good_peer_add|by apply H5].
Qed.

Lemma verify_peer_wp x yes certs s : trusted s → wp (verifyPeerRaw c x yes certs) (λ s' r, trusted s' ∧ (r = inr tt → good_peer (ct_cfg s') certs)) s.
Proof.
  intros Hs. unfold verifyPeerRaw. destruct certs as [|der rest]; [by apply wp_throw|]. destruct (ParseCertificate der) as [leaf|] eqn:Ep; [|by apply wp_throw].
  destruct (verifyAgainstSystem (ex_now x) (c_host c) leaf rest) eqn:Ev.
  { apply wp_ret. split; [done|]. intros _. exists der, rest, leaf. split_and!; [done..|]. left. by eexists. }
  cbv zeta. apply wp_bind, wp_gets. destruct (FindKnownHost (c_host c) (ct_cfg s)) as [existing|] eqn:Ek.
  - destruct (String.eqb_spec existing (fingerprintSHA256 der)) as [->|]; [|by apply wp_throw]. apply wp_ret. split; [done|]. intros _.
    exists der, rest, leaf. split_and!; [done..|]. by right.
  - destruct (c_prompt c); [|by apply wp_throw]. simpl negb. apply wp_bind, wp_modify. destruct yes; simpl negb.
    + apply wp_bind, wp_modify, save_wp. intros f r.
      assert (Ht := pin_trusted s (fingerprintSHA256 der) Hs Ek). split; [by eapply trusted_ext|]. intros _.
      exists der, rest, leaf. split_and!; [done..|]. right. simpl. by rewrite find_add, String.eqb_refl.
    + apply wp_throw. split; [|done]. destruct Hs as [H1 H2 H3 H4 H5]. split; simpl; try done.
      * intros h fp Hf. apply H2 in Hf as [?|?]; [by left|right]. rewrite elem_of_app. by left.
      * intros h fp. rewrite elem_of_app, list_elem_of_singleton. intros [?|?]; [by apply H3|done].
Qed.

Lemma verify_peer_sent x yes certs s : wp (verifyPeerRaw c x yes certs) (λ s' _, ct_sent s' = ct_sent s) s.
Proof.
  unfold verifyPeerRaw. destruct certs as [|der rest]; [by apply wp_throw|]. destruct (ParseCertificate der) as [leaf|]; [|by apply wp_throw].
  destruct (verifyAgainstSystem _ _ _ _); [by apply wp_ret|]. cbv zeta. apply wp_bind, wp_gets. destruct (FindKnownHost _ _) as [existing|].
  - destruct (existing =s _); [by apply wp_ret|by apply wp_throw].
  - destruct (negb _); [by apply wp_throw|]. apply wp_bind, wp_modify. destruct (negb _); [by apply wp_throw|]. apply wp_bind, wp_modify.
    by apply save_wp.
Qed.

Lemma connect_wp x h url s : trusted s → wp (connect c x h url) (λ s' r, trusted s' ∧ ct_sent s' = ct_sent s ∧ ∀ peer, r = inr peer →
  (∀ certs, peer = Some certs → good_peer (ct_cfg s') certs) ∧ (peer = None → ∃ host, ParseURL url = Some ("http", host))) s.
Proof.
  intros Hs. unfold connect. destruct (ParseURL url) as [[scheme host]|] eqn:Eu; [|by apply wp_throw]. destruct (scheme =s "https").
  - destruct (hp_dial h) as [certs|].
    + apply wp_bind. eapply wp_mono; [apply wp_and; [by apply verify_peer_wp|by apply verify_peer_sent]|].
      intros s' [e|[]] [[Ht Hg] Hl]; [done|]. specialize (Hg eq_refl). apply wp_bind, wp_modify, wp_ret. split_and!; [|done|].
      * destruct Ht as [H1 H2 H3 H4 H5]. split; simpl; try done. intros o certs'. rewrite lookup_insert_Some. intros [[_ <-]|[_ ?]]; [done|by eapply H4].
      * intros peer [= <-]. split; [by intros ? [= <-]|done].
    + apply wp_bind, wp_gets. destruct (ct_conn s !! _) as [certs|] eqn:Ec; [|by apply wp_throw]. apply wp_ret. split_and!; [done..|].
      intros peer [= <-]. split; [intros ? [= <-]; by eapply tr_conn|done].
  - destruct (scheme =s "http") eqn:E; [|by apply wp_throw]. apply String.eqb_eq in E as ->. apply wp_ret. split_and!; [done..|]. intros peer [= <-].
    split; [done|]. intros _. by exists host.
Qed.

(** One more request leaves. *)
Lemma sent_trusted s peer q a : trusted s →
  (∀ certs, peer = Some certs → good_peer (ct_cfg s) certs) → (peer = None → ∃ p, last (ct_sent s) = Some p ∧ redirects p q) → own_tokens q →
  trusted (log_sent (mkSent peer q a) s).
Proof.
  intros [H1 H2 H3 H4 H5] Hg Hp Ht. split; simpl; try done. intros i e He. apply lookup_app_Some in He as [He|[Hi He]].
  - destruct (H5 i e He) as [G1 G2 G3]. split; [done| |done]. intros Hn. destruct (G2 Hn) as (j & p & -> & Hj & Hr). exists j, p.
    split_and!; [done| |done]. by apply lookup_app_l_Some.
  - assert (i = length (ct_sent s) ∧ e = mkSent peer q a) as [-> ->].
    { destruct (i - length (ct_sent s)) as [|k] eqn:E; [|by destruct k]. injection He as <-. split; [lia|done]. }
    split; [done| |done]. intros Hn. destruct (Hp Hn) as (p & Hl & Hr). rewrite last_lookup in Hl.
    apply lookup_lt_Some in Hl as Hlt. exists (pred (length (ct_sent s))), p. split_and!; [lia| |done]. by apply lookup_app_l_Some.
Qed.

Lemma follow_trusted x initial hops : ∀ strip n q s, trusted s → ParseURL initial = Some ("https", c_host c) → own_tokens q →
  ((∃ host, ParseURL (rq_URL q) = Some ("https", host)) ∨ ∃ p, last (ct_sent s) = Some p ∧ redirects p q) →
  wp (follow c x initial strip n q hops) (λ s' _, trusted s') s.
Proof.
  induction hops as [|h hops IH]; intros strip n q s Hs Hi Ht Hq; [by apply wp_throw|]. cbn [follow].
  apply wp_bind. eapply wp_mono; [by apply connect_wp|]. intros s' [e|peer] (Hs' & Hl & Hp); [done|]. destruct (Hp peer eq_refl) as [Hg Hn].
  apply wp_bind, wp_modify. assert (Hlog : trusted (log_sent (mkSent peer q (hp_answer h)) s')).
  { apply sent_trusted; [done..| |done]. intros E. destruct (Hn E) as (host & Eu). destruct Hq as [(? & Eq)|Hq]; [congruence|by rewrite Hl]. }
  destruct (hp_answer h) as [r|] eqn:Ea; [|by apply wp_throw]. destruct (redirected q r) as [[[method body] loc]|] eqn:Er; [|by apply wp_ret].
  destruct (ResolveURL (rq_URL q) loc) as [url|] eqn:Eu; [|by apply wp_throw]. destruct (max_requests <=? n); [by apply wp_throw|]. cbv zeta.
  apply IH; [done|done| |].
  - unfold on_host. rewrite Hi. destruct strip; [by left|]. destruct (ParseURL url) as [[sch host]|] eqn:Ep; [|by left].
    destruct (isDomainOrSubdomain host (c_host c)) eqn:Ed; [right|by left]. by exists sch, host.
  - right. exists (mkSent peer q (Some r)). split; [apply last_snoc|]. by exists r, loc.
Qed.

(** What a path that begins with a slash is joined to. *)
Context (Hurl : ∀ path, HasPrefix path "/" = true → ∀ u, ParseURL (c_baseURL c ^^ path) = Some u → u = ("https", c_host c)).

(** A request for the host of the client, over TLS. *)
Definition direct (q : HttpRequest) : Prop := ParseURL (rq_URL q) = Some ("https", c_host c).

Lemma send_trusted x q : direct q → preserves trusted (send c x q).
Proof.
  intros Hd s Hs. apply follow_trusted; [done|exact Hd| |left; eauto]. right. exists "https", (c_host c). split; [done|].
  unfold isDomainOrSubdomain. by rewrite String.eqb_refl.
Qed.
Lemma new_request_wp method path body s : HasPrefix path "/" = true →
  wp (new_request c method path body) (λ s' r, s' = s ∧ ∀ q, r = inr q → direct q) s.
Proof.
  intros Hp. unfold new_request. destruct (ParseURL _) as [u|] eqn:E; [|by apply wp_throw]. apply wp_bind, wp_gets, wp_ret. split; [done|].
  intros q [= <-]. unfold direct. simpl. rewrite E. f_equal. by apply (Hurl path).
Qed.
(** A request that is made and sent; the token, the cookie and the body may be
    left out. *)
Lemma request_trusted {A} x method path body (g : HttpRequest → HttpRequest) (k : HttpResponse → cM A) :
  HasPrefix path "/" = true → (∀ q, rq_URL (g q) = rq_URL q) → (∀ r, preserves trusted (k r)) →
  preserves trusted (q ← new_request c method path body; r ← send c x (g q); k r).
Proof.
  intros Hp Hg Hk s Hs. apply wp_bind. eapply wp_mono; [by apply new_request_wp|]. intros s' [e|q] [-> Hd]; [done|].
  apply wp_bind. eapply wp_mono; [apply send_trusted; [|done]; unfold direct; rewrite Hg; by apply Hd|]. intros s' [e|r] Hs'; [done|]. by apply Hk.
Qed.
Lemma ensure_trusted x : preserves trusted (ensureToken c x).
Proof.
  apply preserves_bind; [by intros s Hs; apply wp_gets|]. intros cfg. destruct (_ =s ""); [apply preserves_ret|].
  destruct (match cf_TokenExpiresAt cfg with Some _ => _ | None => _ end); [apply preserves_ret|]. destruct (_ =s ""); [apply preserves_ret|].
  apply (request_trusted x "POST" _ None (λ q, mkHttpRequest (rq_Method q) (rq_URL q) None "" (rq_Refresh q) "")); [done..|]. intros r.
  destruct (negb _); [apply preserves_ret|]. destruct (token_stream _) as [[access n]|]; [|apply preserves_ret].
  apply preserves_bind; [apply on_cfg_trusted; intros; by rewrite keep_cookies_hosts|]. intros _. apply preserves_ignore, save_trusted.
Qed.
Lemma cookies_trusted x l : preserves trusted (each (λ ck, when (is_refresh ck) (_ ← modify (on_cfg (set_refresh ck.2)); ignore (save c x))) l).
Proof.
  induction l as [|ck l IH]; [apply preserves_ret|]. apply preserves_bind; [|by intros _]. apply preserves_when, preserves_bind; [by apply on_cfg_trusted|].
  intros _. apply preserves_ignore, save_trusted.
Qed.
Lemma do_trusted {A} x1 x2 method path body (out : option (string → option A)) : HasPrefix path "/" = true →
  preserves trusted (Do c x1 x2 method path body out).
Proof.
  intros Hp. apply preserves_bind; [apply ensure_trusted|]. intros _. apply preserves_bind; [apply preserves_of_result|]. intros b.
  apply (request_trusted x2 method path b id); [done..|]. intros r.
  apply preserves_bind; [apply cookies_trusted|]. intros _. destruct (_ <=? _)%Z; [apply preserves_throw|]. destruct out as [dec|]; [|apply preserves_ret].
  destruct (_ =s ""); [apply preserves_ret|]. destruct (dec _); [apply preserves_ret|apply preserves_throw].
Qed.

(** *** Sessions *)

Inductive call :=
  | CDo (x1 x2 : Exchange) (method path : string) (body : option (option string))
  | CGetRaw (x1 x2 : Exchange) (path : string)
  | CLogin (x : Exchange) (email password : string)
  | CLogout (x1 x2 : Exchange)
  | CSSE (x1 x2 : Exchange) (path lastEventID : string).
Definition perform (k : call) : cM unit :=
  match k with
  | CDo x1 x2 method path body => _ ← Do (A := string) c x1 x2 method path body (Some Some); mret tt
  | CGetRaw x1 x2 path => _ ← GetRaw c x1 x2 path; mret tt
  | CLogin x email password => _ ← Login c x email password; mret tt
  | CLogout x1 x2 => Logout c x1 x2
  | CSSE x1 x2 path last => _ ← SSE c x1 x2 path last; mret tt
  end.
Definition session (l : list call) : cM unit := each (λ k, ignore (perform k)) l.

(** The path of a call begins with a slash. *)
Definition rooted (k : call) : Prop :=
  match k with CDo _ _ _ path _ | CGetRaw _ _ path | CSSE _ _ path _ => HasPrefix path "/" = true | CLogin _ _ _ | CLogout _ _ => True end.

Lemma perform_trusted k : rooted k → preserves trusted (perform k).
Proof.
  intros Hk. destruct k as [x1 x2 method path body|x1 x2 path|x email password|x1 x2|x1 x2 path last]; simpl in Hk.
  - apply preserves_bind; [by apply do_trusted|]. intros. apply preserves_ret.
  - apply preserves_bind; [|intros; apply preserves_ret]. apply preserves_bind; [apply ensure_trusted|]. intros _.
    apply (request_trusted x2 "GET" path None id); [done..|]. intros r. destruct (_ <=? _)%Z; [apply preserves_throw|apply preserves_ret].
  - apply preserves_bind; [|intros; apply preserves_ret].
    apply (request_trusted x "POST" _ _ (λ q, mkHttpRequest (rq_Method q) (rq_URL q) (rq_Body q) "" "" "")); [done..|]. intros r.
    destruct (negb _); [apply preserves_throw|]. destruct (token_json _) as [[access n]|]; [|apply preserves_throw].
    apply preserves_bind; [apply on_cfg_trusted; intros; simpl; by rewrite keep_cookies_hosts|]. intros _.
    apply preserves_bind; [apply save_trusted|]. intros _. apply preserves_ret.
  - apply preserves_bind; [by apply preserves_ignore, do_trusted|]. intros _. apply preserves_bind; [by apply on_cfg_trusted|]. intros _. apply save_trusted.
  - apply preserves_bind; [|intros; apply preserves_ret]. apply preserves_bind; [apply ensure_trusted|]. intros _.
    apply (request_trusted x2 "GET" path None (λ q, mkHttpRequest (rq_Method q) (rq_URL q) None (rq_Bearer q) "" last)); [done..|]. intros r.
    destruct (negb _); [apply preserves_throw|apply preserves_ret].
Qed.
Lemma session_trusted l : Forall rooted l → preserves trusted (session l).
Proof.
  induction 1 as [|k l Hk _ IH]; [apply preserves_ret|]. apply preserves_bind; [|by intros _]. by apply preserves_ignore, perform_trusted.
Qed.

End Trust.

(** ** Events that are written are read *)

(** What the reader delivers for a frame. *)
Definition delivered (f : Frame) : list SSEEvent :=
  match f with BusFrame id typ data => [mkSSE id typ data] | LogFrame typ data => [mkSSE "" typ data] | KeepAlive _ => [] end.

Definition one_line (s : string) : bool := all_bytes (λ z, negb ((z =? 10) || (z =? 13))%Z) s.
Definition frame_ok (f : Frame) : Prop :=
  match f with
  | BusFrame id typ data => one_line id = true ∧ one_line typ = true ∧ one_line data = true ∧ data ≠ ""
  | LogFrame typ data => one_line typ = true ∧ one_line data = true ∧ data ≠ ""
  | KeepAlive unix => (0 <= unix < 10 ^ 18)%Z
  end.

Lemma trim_right_one p l x : List.forallb (λ a, negb (p a)) l = true → p x = true → trim_right_where p (l ++ [x]) = l.
Proof.
  intros Hl Hx. induction l as [|a l IH]; simpl in *; [by rewrite Hx|]. bool_simp. rewrite IH by done. destruct l; [|done].
  by destruct (p a).
Qed.
Lemma one_line_cutset s : one_line s = true → List.forallb (λ a, negb (in_cutset crlf a)) (String.list_ascii_of_string s) = true.
Proof.
  unfold one_line, all_bytes. rewrite !List.forallb_forall. intros H a Ha. specialize (H a Ha). apply negb_true_iff in H. apply negb_true_iff.
  apply orb_false_iff in H as [H1 H2]. unfold in_cutset, crlf. cbn [String.list_ascii_of_string List.existsb].
  rewrite orb_false_r. apply orb_false_iff. split; apply Ascii.eqb_neq; intros E; subst a; done.
Qed.
Lemma trim_line s : one_line s = true → TrimRight (s ^^ String nl "") crlf = s.
Proof.
  intros Hs. unfold TrimRight. rewrite list_of_app. change (String.list_ascii_of_string (String nl "")) with [nl].
  rewrite trim_right_one by (done || by apply one_line_cutset). apply String.string_of_list_ascii_of_string.
Qed.

Lemma one_line_app s t : one_line (s ^^ t) = one_line s && one_line t.
Proof. apply all_bytes_app. Qed.
Lemma read_until cur s t : one_line s = true → read_lines cur (s ^^ String nl "" ^^ t) = TrimRight (cur ^^ s ^^ String nl "") crlf :: read_lines "" t.
Proof.
  revert cur. induction s as [|a s IH]; intros cur Hs; [done|]. unfold one_line in Hs. rewrite all_bytes_cons in Hs. bool_simp.
  rewrite string_app_cons. cbn [read_lines]. destruct (Ascii.eqb_spec a nl) as [->|_]; [done|]. rewrite IH by done.
  by rewrite !string_app_assoc.
Qed.
(** A line that is written is read. *)
Lemma read_one s t : one_line s = true → read_lines "" (s ^^ String nl "" ^^ t) = s :: read_lines "" t.
Proof. intros Hs. rewrite read_until by done. by rewrite string_nil_app, trim_line. Qed.

Lemma drop_of_app a b : drop_s (String.length a) (a ^^ b) = b.
Proof.
  induction a as [|x a IH]; [|exact IH]. unfold drop_s. rewrite string_nil_app. simpl String.length. rewrite Nat.sub_0_r.
  induction b as [|x b IH]; [done|]. simpl. by rewrite IH.
Qed.
Lemma field_line f i ev out v : Index (f ^^ String ":" (String " " v)) ":" = Some (S i) → take_s (S i) (f ^^ String ":" (String " " v)) = f → String.length f = S i →
  HasPrefix (f ^^ String ":" (String " " v)) ":" = false → f ≠ "" → sse_line (ev, out) (f ^^ String ":" (String " " v)) = (sse_field f v ev, out).
Proof.
  intros Hi Ht Hl Hp Hf. unfold sse_line. destruct f as [|a f]; [done|]. rewrite string_app_cons at 1. cbn [String.eqb]. rewrite Hp, Hi, Ht.
  assert (Hd : drop_s (S (S i)) (String a f ^^ String ":" (String " " v)) = String " " v).
  { change (String ":" (String " " v)) with (":" ^^ String " " v). rewrite <- string_app_assoc.
    replace (S (S i)) with (String.length (String a f ^^ ":")) by (rewrite string_app_length, Hl; simpl; lia). apply drop_of_app. }
  rewrite Hd. f_equal. unfold TrimPrefix. assert (HasPrefix (String " " v) " " = true) as -> by by destruct v. f_equal. exact (drop_of_app " " v).
Qed.
Lemma id_line ev out v : sse_line (ev, out) ("id: " ^^ v) = (mkSSE v (ev_Event ev) (ev_Data ev), out).
Proof. apply (field_line "id" 1); by destruct v. Qed.
Lemma event_line ev out v : sse_line (ev, out) ("event: " ^^ v) = (mkSSE (ev_ID ev) v (ev_Data ev), out).
Proof. apply (field_line "event" 4); by destruct v. Qed.
Lemma data_line id typ out v : sse_line (mkSSE id typ "", out) ("data: " ^^ v) = (mkSSE id typ v, out).
Proof. apply (field_line "data" 3); by destruct v. Qed.

Lemma blank_line id typ data out : data ≠ "" → sse_line (mkSSE id typ data, out) "" = (no_event, out ++ [mkSSE id typ data]).
Proof. intros Hd. unfold sse_line. simpl. by apply String.eqb_neq in Hd as ->. Qed.

Lemma read_field a b t : one_line a = true → one_line b = true → read_lines "" (a ^^ b ^^ String nl "" ^^ t) = (a ^^ b) :: read_lines "" t.
Proof. intros Ha Hb. rewrite <- (string_app_assoc a b). apply read_one. rewrite one_line_app. by apply andb_true_iff. Qed.

(** The frames that follow are read from a clean state. *)
Lemma frame_read f t out : frame_ok f →
  foldl sse_line (no_event, out) (read_lines "" (frame f ^^ t)) = foldl sse_line (no_event, out ++ delivered f) (read_lines "" t).
Proof.
  destruct f as [id typ data|typ data|unix]; simpl frame_ok; unfold frame; cbv zeta; rewrite ?string_app_assoc.
  - intros (Hi & Ht & Hd & Hne). rewrite !read_field, (read_one "" t) by done. cbn [foldl]. by rewrite id_line, event_line, data_line, blank_line.
  - intros (Ht & Hd & Hne). rewrite !read_field, (read_one "" t) by done. cbn [foldl].
    by rewrite event_line, data_line, blank_line.
  - intros Hu. assert (Ho : one_line (Itoa unix) = true).
    { destruct (Itoa_spec unix) as [Hd _]; [lia|]. unfold one_line, all_bytes. apply List.forallb_forall. intros a Ha.
      rewrite list.Forall_forall in Hd. specialize (Hd a (proj2 (list_elem_of_In _ _) Ha)). unfold is_digit in Hd. apply in_range_spec in Hd.
      apply negb_true_iff, orb_false_iff. split; apply Z.eqb_neq; lia. }
    rewrite read_field, (read_one "" t) by done. cbn [foldl delivered]. by rewrite app_nil_r.
Qed.

Lemma frames_cons f l : frames (f :: l) = frame f ^^ frames l.
Proof. unfold frames. destruct l as [|g l]; simpl; [by rewrite string_app_nil|done]. Qed.
Lemma frames_read l out : Forall frame_ok l → (foldl sse_line (no_event, out) (read_lines "" (frames l))).2 = out ++ concat (delivered <$> l).
Proof.
  intros Hl. revert out. induction Hl as [|f l Hf _ IH]; intros out; [by rewrite app_nil_r|]. rewrite frames_cons, frame_read by done.
  rewrite IH. by rewrite fmap_cons, <- app_assoc.
Qed.

(** A stream that is cut gives the first events. *)
Lemma read_prefix p t : ∀ cur, read_lines cur p `prefix_of` read_lines cur (p ^^ t).
Proof.
  induction p as [|a p IH]; intros cur; [apply prefix_nil|]. rewrite string_app_cons. cbn [read_lines]. destruct (Ascii.eqb a nl); [|apply IH].
  by apply prefix_cons.
Qed.
Lemma lines_grow l : ∀ st, st.2 `prefix_of` (foldl sse_line st l).2.
Proof.
  induction l as [|x l IH]; intros st; [done|]. cbn [foldl]. etrans; [|apply IH]. destruct st as [ev out]. unfold sse_line.
  destruct (x =s ""); [destruct (_ || _); [by eexists|done]|]. destruct (HasPrefix x ":"); [done|]. by destruct (Index x ":") as [[|i]|].
Qed.
Lemma events_prefix p t : sse_events p `prefix_of` sse_events (p ^^ t).
Proof. unfold sse_events. destruct (read_prefix p t "") as [k ->]. rewrite foldl_app. apply lines_grow. Qed.

(** C29: what the event endpoints write, the client reads: every event of the bus
    with its id, type and data, every line of a log, in order, and nothing for a
    keep-alive; and a stream that breaks at any byte has delivered the first of
    these events, whole. *)
Theorem sse_roundtrip l : Forall frame_ok l →
  sse_events (frames l) = concat (delivered <$> l) ∧ ∀ p t, frames l = p ^^ t → sse_events p `prefix_of` concat (delivered <$> l).
Proof.
  intros Hl. assert (E : sse_events (frames l) = concat (delivered <$> l)) by by apply frames_read. split; [done|].
  intros p t Hp. rewrite <- E, Hp. apply events_prefix.
Qed.

(** ** The file of settings *)

Section Saved.
Context `{Lb : ClientLib} (Hyaml : ∀ cfg, UnmarshalConfig (MarshalConfig cfg) = Some cfg).

(** Whatever fails, the file holds the old settings or the new ones, whole;
    settings that were saved are loaded. *)
Lemma save_whole path now part cfg f :
  wp (Save (Some path) now part cfg) (λ f' r, match r with
    | inl _ => f' !! path = f !! path
    | inr _ => run (Load (Some path)) f' = (f', inr cfg)
    end) f.
Proof.
  set (tmp := path ^^ ".tmp"). assert (Hne : tmp ≠ path).
  { intros E. apply (f_equal String.length) in E. unfold tmp in E. rewrite string_app_length in E. simpl in E. lia. }
  unfold Save. fold tmp. apply wp_bind, wp_put; [by rewrite lookup_insert_ne|]. cbv beta. set (f1 := <[tmp := _]> f).
  assert (H1 : f1 !! path = f !! path) by by apply lookup_insert_ne.
  apply wp_bind, wp_attempt. apply (wp_mono _ (λ f' r, match r with inl _ => f' = f1 | inr _ => f' = <[path := mkFile (MarshalConfig cfg) now]> (delete tmp f1) end)).
  - assert (E : f1 !! tmp = Some (mkFile (MarshalConfig cfg) now)) by apply lookup_insert_eq. apply wp_checked; [done|]. by rewrite E.
  - intros f' [e|[]] ->.
    + apply wp_bind, wp_ignore, wp_fallible; apply wp_throw; [done|]. simpl. by rewrite lookup_delete_ne.
    + apply wp_ret. set (f2 := <[path := _]> _). assert (E : f2 !! path = Some (mkFile (MarshalConfig cfg) now)) by apply lookup_insert_eq.
      unfold run, Load, Stat, mbind, M_bind, bind, query, fallible. cbn [fst snd]. rewrite E. cbn [fl_data]. by rewrite Hyaml.
Qed.
End Saved.

(** ** Examples *)

Module Examples.
#[local] Instance toy_client : ClientLib := {|
  Certificate := string;
  ParseCertificate der := if der =s "" then None else Some der;
  SystemCertPool := true;
  VerifyCertificate leaf _ host _ := leaf =s "issued to " ^^ host;
  sha256_sum s := s;
  ParseURL s := match Index s "://" with
    | Some i => let rest := drop_s (i + 3) s in Some (take_s i s, match Index rest "/" with Some j => take_s j rest | None => rest end)
    | None => None
    end;
  ResolveURL _ loc := Some loc;
  url_origin s := s;
  MarshalConfig c := String.concat " " (cf_InstanceURL c :: cf_AccessToken c :: cf_RefreshToken c :: List.map kh_Fingerprint (cf_KnownHosts c));
  UnmarshalConfig _ := None;
  token_stream s := Some (s, 900%Z);
  token_json s := if HasPrefix s "challenge" then Some ("", 0%Z) else Some (s, 900%Z);
  error_json _ := None;
  login_json email password := email ^^ ":" ^^ password;
|}.

Definition cli : Client := mkClient "https://acme.test" "https" "acme.test" true (Some "/c").
Definition fresh_cli : Cli := mkCli no_config ∅ ∅ [] [].
Definition x (dial : option (list string)) (yes : bool) (answer : option HttpResponse) (now : Z) : Exchange := mkExchange [mkHop dial yes answer] now "".
Definition tokens : HttpResponse := mkHttpResponse 200 [("refresh_token", "r1")] "" "a1".

(** A first login pins the certificate; a peer with another one gets nothing,
    also when the operator would say yes; the pinned one is asked again. *)
Definition self : option (list string) := Some ["self-signed"].
Definition intruded : list call :=
  [CLogin (x self true (Some tokens) 0) "ann" "pw";
   CDo (x None true None 1) (x (Some ["other"]) true (Some tokens) 1) "GET" "/api/v1/apps" None;
   CGetRaw (x self false (Some (mkHttpResponse 200 [] "" "a2")) (900 * second)) (x self false None (900 * second)) "/log"].

Lemma toy_joined path : HasPrefix path "/" = true → ∀ u, ParseURL (c_baseURL cli ^^ path) = Some u → u = ("https", c_host cli).
Proof.
  destruct path as [|a path]; [done|]. intros H. assert (a = "/"%char) as ->.
  { unfold HasPrefix in H. cbn [String.prefix] in H. by destruct (ascii_dec "/" a). }
  intros u. cbv [ParseURL toy_client]. simpl Index. cbv beta iota zeta. intros [= <-].
  change ("https://acme.test" ^^ String "/" path) with ("https://" ^^ "acme.test/" ^^ path).
  destruct (take_drop_app "https://" ("acme.test/" ^^ path) 8 eq_refl) as [_ ->].
  assert (Index ("acme.test/" ^^ path) "/" = Some 9) as -> by by destruct path.
  destruct (take_drop_app "acme.test" ("/" ^^ path) 9 eq_refl) as [E _]. change ("acme.test/" ^^ path) with ("acme.test" ^^ "/" ^^ path).
  rewrite E. by destruct path.
Qed.


(** Redirects are followed.  One to the same host without TLS carries the token
    and the cookie in the clear, one to another host does not; but the password
    of a login follows a 307 there. *)
Definition found (status : Z) (loc : string) : option HttpResponse := Some (mkHttpResponse status [] loc "").
Definition logged_in : Cli := set_cfg (set_refresh "r1" (set_tokens "a1" (Some (3600 * second)%Z) no_config)) fresh_cli.
Definition genuine : option (list string) := Some ["issued to acme.test"].
Definition left_in (s : Cli) : list (bool * string * string * string * option string) :=
  List.map (λ e, (is_some (sn_peer e), rq_URL (sn_req e), rq_Bearer (sn_req e), rq_Refresh (sn_req e), rq_Body (sn_req e))) (ct_sent s).
Lemma downgraded :
  let go loc := left_in (run (GetRaw cli (x None false None 0) (mkExchange [mkHop genuine false (found 302 loc); mkHop None false None] 0 "") "/log") logged_in).1 in
  go "http://acme.test/log" = [(true, "https://acme.test/log", "a1", "r1", None); (false, "http://acme.test/log", "a1", "r1", None)] ∧
  go "http://evil.test/log" = [(true, "https://acme.test/log", "a1", "r1", None); (false, "http://evil.test/log", "", "", None)].
Proof. by vm_compute. Qed.
Lemma password_redirected :
  left_in (run (Login cli (mkExchange [mkHop genuine false (found 307 "http://evil.test/"); mkHop None false None] 0 "") "ann" "pw") fresh_cli).1 =
    [(true, "https://acme.test/api/v1/auth/login", "", "", Some "ann:pw"); (false, "http://evil.test/", "", "", Some "ann:pw")].
Proof. by vm_compute. Qed.

(** Ten requests leave, and not one more. *)
Lemma redirects_end : let hops := repeat (mkHop genuine false (found 302 "https://acme.test/log")) 12 in
  length (ct_sent (run (GetRaw cli (x None false None 0) (mkExchange hops 0 "") "/log") logged_in).1) = 10.
Proof. by vm_compute. Qed.

Definition stream : list Frame := [BusFrame "7" "deploy.log" "[1]"; KeepAlive 12; LogFrame "container.log" "{}"].
Lemma sse_roundtrip_witness : Forall frame_ok stream ∧
  sse_events (frames stream) = [mkSSE "7" "deploy.log" "[1]"; mkSSE "" "container.log" "{}"].
Proof.
  assert (H : Forall frame_ok stream) by (repeat constructor; done). split; [done|]. apply (proj1 (sse_roundtrip stream H)).
Defined.

(** A login that the server answers with a second-factor challenge succeeds
    with an empty token. *)
Lemma challenge_is_a_login :
  let r := run (Login cli (x (Some ["issued to acme.test"]) false (Some (mkHttpResponse 200 [] "" "challenge c1")) 0) "ann" "pw") fresh_cli in
  r.2 = inr ("", 0%Z) ∧ HasAuth (ct_cfg r.1) = false.
Proof. by vm_compute. Qed.

(** A certificate that verifies leaves the pin of its host. *)
Lemma stale_pin_stays : let s := set_cfg (AddKnownHost "acme.test" "old" no_config) fresh_cli in
  run (verifyPeerRaw cli (x None false None 0) false ["issued to acme.test"]) s = (s, inr tt).
Proof. by vm_compute. Qed.

(** Any status under 400 that is no redirect is a success. *)
Lemma redirect_is_a_success :
  (run (Get cli (x None false None 0) (x genuine false (Some (mkHttpResponse 304 [] "" "")) 0) "/api/v1/apps" (Some Some)) fresh_cli).2 = inr None.
Proof. by vm_compute. Qed.
End Examples.
