(* ===== verification/EventBus.v ===== *)
(** * The event bus (internal/eventbus/bus.go)

    Publishers and subscribers run concurrently; a step of the relation [step]
    is one atomic section of the code: the counter, a section under one of the
    two locks, or one send on a channel.  Subscriptions are pointers, here
    numbers into the store [b_chans].  Clocks are arguments: [ms] is
    time.Now().UnixMilli() in [nextID], [ts] the time stamp of the event, [now]
    the clock of [bufferAppend], in nanoseconds.  No section holds one lock and
    asks for the other, so a section once entered runs to its end.

    [bus_refines] compares every step with an abstract publish/subscribe
    service ([spec_step]), [bus_safe] bounds what is stored, [calls_finish] says
    that a call ends by its own sections, and [replay_resumes] what a client
    that reconnects is replayed. *)

From S2P Require Import Prelude Effects GoStrings Paths Decimal.
From stdpp Require Import gmap.
From Stdlib Require Import Sorted.

Section Bus.
Context {P : Type}.

Record Event := mkEvent {
  e_ID : string; e_Topic : string; e_Type : string; e_Payload : option P; e_Timestamp : Z;
}.

(** A subscription: its topic, and what its channel (of capacity 64) holds. *)
Record subscription := mkSub { s_topic : string; s_ch : list Event }.
Definition chan_cap : nat := 64.

Record Bus := mkBus {
  b_subs : gmap string (gset nat);
  b_wildcard : gset nat;
  b_chans : gmap nat subscription;
  b_buf : list Event;
  b_bufCap : Z;
  b_retention : Z;
  b_seq : Z;
}.

Definition set_chans (f : gmap nat subscription → gmap nat subscription) (b : Bus) : Bus :=
  mkBus (b_subs b) (b_wildcard b) (f (b_chans b)) (b_buf b) (b_bufCap b) (b_retention b) (b_seq b).
Definition set_buf (l : list Event) (b : Bus) : Bus :=
  mkBus (b_subs b) (b_wildcard b) (b_chans b) l (b_bufCap b) (b_retention b) (b_seq b).
Definition set_targets (subs : gmap string (gset nat)) (wildcard : gset nat) (b : Bus) : Bus :=
  mkBus subs wildcard (b_chans b) (b_buf b) (b_bufCap b) (b_retention b) (b_seq b).

Definition New (bufferCap retention : Z) : Bus :=
  mkBus ∅ ∅ ∅ [] (if (bufferCap <=? 0)%Z then 1000 else bufferCap)
    (if (retention <=? 0)%Z then 30 * 10 ^ 9 else retention) 0.

Definition event_id (ms seq : Z) : string := Itoa ms ^^ "-" ^^ Itoa seq.
Definition nextID (ms : Z) (b : Bus) : Bus * string :=
  let n := (b_seq b + 1)%Z in
  (mkBus (b_subs b) (b_wildcard b) (b_chans b) (b_buf b) (b_bufCap b) (b_retention b) n, event_id ms n).

(** Expired entries at the head, up to the first one that is not. *)
Fixpoint expire (cutoff : Z) (buf : list Event) : list Event :=
  match buf with
  | [] => []
  | ev :: rest => if (cutoff <? e_Timestamp ev)%Z then buf else expire cutoff rest
  end.

Definition bufferAppend (now : Z) (ev : Event) (b : Bus) : Bus :=
  let buf := expire (now - b_retention b) (b_buf b) ++ [ev] in
  let over := (Z.of_nat (length buf) - b_bufCap b)%Z in
  set_buf (if (0 <? over)%Z then skipn (Z.to_nat over) buf else buf) b.

Definition topicMatches (filter topic : string) : bool :=
  if (filter =s "") || (filter =s "*") then true
  else if HasSuffix filter ".*" then HasPrefix topic (TrimSuffix filter "*")
  else filter =s topic.

Definition replay (topic lastEventID : string) (b : Bus) : list Event :=
  List.filter (λ ev, negb (negb (lastEventID =s "") && String.leb (e_ID ev) lastEventID)
                     && topicMatches topic (e_Topic ev)) (b_buf b).

(** The subscriptions [Publish] copies under the lock. *)
Definition targets (topic : string) (b : Bus) : list nat :=
  elements (default ∅ (b_subs b !! topic)) ++ elements (b_wildcard b).

(** [select { case s.ch <- ev: default: }]. *)
Definition send (ev : Event) (sid : nat) (b : Bus) : Bus :=
  match b_chans b !! sid with
  | Some s => if (length (s_ch s) <? chan_cap)%nat
              then set_chans <[sid := mkSub (s_topic s) (s_ch s ++ [ev])]> b
              else b
  | None => b
  end.

Definition register (sid : nat) (topic : string) (b : Bus) : Bus :=
  if topic =s "*" then set_targets (b_subs b) ({[sid]} ∪ b_wildcard b) b
  else set_targets (<[topic := {[sid]} ∪ default ∅ (b_subs b !! topic)]> (b_subs b)) (b_wildcard b) b.

Definition unregister (sid : nat) (topic : string) (b : Bus) : Bus :=
  if topic =s "*" then set_targets (b_subs b) (b_wildcard b ∖ {[sid]}) b
  else match b_subs b !! topic with
       | Some set =>
         let set := set ∖ {[sid]} in
         set_targets (if bool_decide (set = ∅) then base.delete topic (b_subs b) else <[topic := set]> (b_subs b))
           (b_wildcard b) b
       | None => b
       end.

Definition norm_topic (topic : string) : string := if topic =s "" then "*" else topic.
Definition open_chan (sid : nat) (topic : string) (b : Bus) : Bus := set_chans <[sid := mkSub topic []]> b.

(** ** Calls that no other one interleaves

    [Subscribe] returns once the subscription is registered; the second
    component is what it leaves to the goroutine that pushes the replay. *)

Definition Publish (ms ts now : Z) (topic eventType : string) (payload : option P) (b : Bus) : Bus * Event :=
  let '(b, id) := nextID ms b in
  let ev := mkEvent id topic eventType payload ts in
  let b := bufferAppend now ev b in
  (foldl (λ b sid, send ev sid b) b (targets topic b), ev).

Definition Subscribe (sid : nat) (topic lastEventID : string) (b : Bus) : Bus * list Event :=
  let topic := norm_topic topic in
  let b := open_chan sid topic b in
  let evs := replay topic lastEventID b in
  (register sid topic b, evs).

(** ** Calls that interleave *)

(** Where a call stands. *)
Inductive thread :=
  | TPublish (topic eventType : string) (payload : option P)
  | TAppend (ev : Event)
  | TSnapshot (ev : Event)
  | TSend (ev : Event) (sids : list nat)
  | TSubscribe (topic lastEventID : string)
  | TRegister (sid : nat) (topic : string) (evs : list Event)
  | TPush (sid : nat) (evs : list Event)
  | TUnsubscribe (sid : nat).

Definition is_call (t : thread) : bool :=
  match t with TPublish _ _ _ | TSubscribe _ _ | TUnsubscribe _ => true | _ => false end.

(** One atomic section of a call: the state and what is left of the call.
    The last component collects the events that got an id. *)
Inductive section : Bus → thread → Bus → option thread → list Event → Prop :=
  | sec_id ms ts topic ty p b :
      let ev := mkEvent (nextID ms b).2 topic ty p ts in
      section b (TPublish topic ty p) (nextID ms b).1 (Some (TAppend ev)) [ev]
  | sec_append now ev b : section b (TAppend ev) (bufferAppend now ev b) (Some (TSnapshot ev)) []
  | sec_snapshot ev b sids : sids ≡ₚ targets (e_Topic ev) b →
      section b (TSnapshot ev) b (Some (TSend ev sids)) []
  | sec_send ev sid sids b : section b (TSend ev (sid :: sids)) (send ev sid b) (Some (TSend ev sids)) []
  | sec_sent ev b : section b (TSend ev []) b None []
  | sec_replay sid topic last b : b_chans b !! sid = None →
      section b (TSubscribe topic last) (open_chan sid (norm_topic topic) b)
        (Some (TRegister sid (norm_topic topic) (replay (norm_topic topic) last b))) []
  | sec_register sid topic evs b : section b (TRegister sid topic evs) (register sid topic b) (Some (TPush sid evs)) []
  | sec_push sid ev evs b : section b (TPush sid (ev :: evs)) (send ev sid b) (Some (TPush sid evs)) []
  | sec_pushed sid b : section b (TPush sid []) b None []
  | sec_unsubscribe sid s b : b_chans b !! sid = Some s →
      section b (TUnsubscribe sid) (unregister sid (s_topic s) b) None []
  | sec_unknown sid b : b_chans b !! sid = None → section b (TUnsubscribe sid) b None [].

(** The calls above are the sections of their threads, with no other one in
    between; what [Subscribe] leaves to its goroutine is the thread that pushes. *)
Definition alone (c c' : Bus * option thread) : Prop := ∃ t new, c.2 = Some t ∧ section c.1 t c'.1 c'.2 new.

Lemma alone_step b t b' (o : option thread) new c : section b t b' o new → rtc alone (b', o) c → rtc alone (b, Some t) c.
Proof. intros Hs Hr. eapply rtc_l; [|exact Hr]. by exists t, new. Qed.

Lemma publish_alone ms ts now topic ty p b :
  rtc alone (b, Some (TPublish topic ty p)) ((Publish ms ts now topic ty p b).1, None).
Proof.
  eapply alone_step; [apply (sec_id ms ts)|]. eapply alone_step; [apply (sec_append now)|].
  eapply alone_step; [by apply sec_snapshot|]. unfold Publish. simpl.
  set (b1 := bufferAppend _ _ _). set (ev := mkEvent _ _ _ _ _). change (e_Topic ev) with topic.
  generalize (targets topic b1) as sids. intros sids. clearbody b1. revert b1. induction sids as [|sid sids IH]; intros b1.
  - eapply alone_step; [constructor|]. apply rtc_refl.
  - eapply alone_step; [constructor|]. apply IH.
Qed.

Lemma subscribe_alone sid topic last b : b_chans b !! sid = None →
  let '(b', evs) := Subscribe sid topic last b in rtc alone (b, Some (TSubscribe topic last)) (b', Some (TPush sid evs)).
Proof.
  intros Hn. eapply alone_step; [by apply (sec_replay sid)|]. eapply alone_step; [constructor|]. apply rtc_refl.
Qed.

(** State, running calls, and all events published so far. *)
Record Config := mkConfig { g_bus : Bus; g_threads : list thread; g_history : list Event }.

Definition rest_of (t : option thread) : list thread := match t with Some t => [t] | None => [] end.

Inductive step : Config → Config → Prop :=
  | step_call t b ts h : is_call t = true → step (mkConfig b ts h) (mkConfig b (ts ++ [t]) h)
  | step_section b t b' t' new l1 l2 h : section b t b' t' new →
      step (mkConfig b (l1 ++ t :: l2) h) (mkConfig b' (l1 ++ rest_of t' ++ l2) (h ++ new))
  | step_receive sid s ev ch b ts h : b_chans b !! sid = Some s → s_ch s = ev :: ch →
      step (mkConfig b ts h) (mkConfig (set_chans <[sid := mkSub (s_topic s) ch]> b) ts h).

Inductive reachable (bufferCap retention : Z) : Config → Prop :=
  | reach_new : reachable bufferCap retention (mkConfig (New bufferCap retention) [] [])
  | reach_step c c' : reachable bufferCap retention c → step c c' → reachable bufferCap retention c'.

(** ** Invariant *)

Implicit Types (b : Bus) (ev : Event) (h evs : list Event) (t : thread) (sid : nat).

(** An event a subscription may receive: published, and of its topic. *)
Definition meant_for (topic : string) h ev : Prop := ev ∈ h ∧ topicMatches topic (e_Topic ev) = true.
Definition open_as b sid (topic : string) : Prop := ∃ s, b_chans b !! sid = Some s ∧ s_topic s = topic.

Record bus_ok b h : Prop := {
  bo_cap : (0 < b_bufCap b)%Z ∧ (Z.of_nat (length (b_buf b)) <= b_bufCap b)%Z;
  bo_chans : ∀ sid s, b_chans b !! sid = Some s →
    length (s_ch s) ≤ chan_cap ∧ ∀ ev, ev ∈ s_ch s → meant_for (s_topic s) h ev;
  bo_subs : ∀ topic set sid, b_subs b !! topic = Some set → sid ∈ set → topic ≠ "*" ∧ open_as b sid topic;
  bo_wild : ∀ sid, sid ∈ b_wildcard b → open_as b sid "*";
  bo_buf : ∀ ev, ev ∈ b_buf b → ev ∈ h;
  bo_seq : b_seq b = Z.of_nat (length h);
  bo_ids : ∀ i ev, h !! i = Some ev → ∃ ms, e_ID ev = event_id ms (Z.of_nat i + 1);
}.

Definition thread_ok b h t : Prop :=
  match t with
  | TAppend ev | TSnapshot ev => ev ∈ h
  | TSend ev sids => ev ∈ h ∧ ∀ sid, sid ∈ sids → ∃ topic, open_as b sid topic ∧ topicMatches topic (e_Topic ev) = true
  | TRegister sid topic evs => open_as b sid topic ∧ ∀ ev, ev ∈ evs → meant_for topic h ev
  | TPush sid evs => ∃ topic, open_as b sid topic ∧ ∀ ev, ev ∈ evs → meant_for topic h ev
  | _ => True
  end.

(** Subscriptions keep their topic. *)
Definition grows b b' : Prop := ∀ sid topic, open_as b sid topic → open_as b' sid topic.

Lemma grows_refl b : grows b b.
Proof. by intros sid topic. Qed.

Lemma thread_ok_mono b b' h new t : grows b b' → thread_ok b h t → thread_ok b' (h ++ new) t.
Proof.
  intros Hg. assert (Hm : ∀ topic ev, meant_for topic h ev → meant_for topic (h ++ new) ev).
  { intros topic ev [? ?]. split; [|done]. apply elem_of_app. by left. }
  destruct t; simpl; try done; rewrite ?elem_of_app; try tauto.
  - intros [? Hs]. split; [by left|]. intros sid (topic & ? & ?)%Hs. exists topic. auto.
  - intros [? ?]. auto.
  - intros (topic & ? & ?). exists topic. auto.
Qed.

Lemma prefix_take n s : HasPrefix s (take_s n s) = true.
Proof.
  unfold HasPrefix, take_s. revert n. induction s as [|c s IH]; intros [|n]; try done. simpl.
  destruct (ascii_dec c c) as [_|?]; [apply IH|done].
Qed.

Lemma take_all s : take_s (String.length s) s = s.
Proof. unfold take_s. induction s as [|c s IH]; [done|]. simpl. by rewrite IH. Qed.

Lemma self_match topic : topicMatches topic topic = true.
Proof.
  unfold topicMatches. destruct (_ || _); [done|]. destruct (HasSuffix topic ".*"); [|apply String.eqb_refl].
  unfold TrimSuffix. destruct (HasSuffix topic "*"); [apply prefix_take|].
  rewrite <- (take_all topic) at 2. apply prefix_take.
Qed.

Lemma send_grows ev sid b : grows b (send ev sid b).
Proof.
  intros sid' topic (s & Hs & Ht). unfold send. destruct (b_chans b !! sid) as [x|] eqn:Ex; [|by exists s].
  destruct (_ <? _)%nat; [|by exists s]. unfold open_as. simpl. destruct (decide (sid' = sid)) as [->|Hne].
  - rewrite lookup_insert_eq. eexists. split; [done|]. simpl. congruence.
  - rewrite lookup_insert_ne by done. by exists s.
Qed.

Lemma send_ok ev sid b h topic : bus_ok b h → open_as b sid topic → meant_for topic h ev → bus_ok (send ev sid b) h.
Proof.
  intros Hb (s & Hs & Ht) Hm. pose proof (send_grows ev sid b) as Hg. unfold send in *. rewrite Hs in *.
  destruct (length (s_ch s) <? chan_cap)%nat eqn:El; [|done]. apply Nat.ltb_lt in El. destruct Hb. split; try done.
  - intros sid' s' Hs'. simpl in Hs'. destruct (decide (sid' = sid)) as [->|Hne].
    + rewrite lookup_insert_eq in Hs'. injection Hs' as <-. simpl. rewrite length_app. simpl. split; [lia|].
      intros x [Hx|Hx]%elem_of_app; [by apply (bo_chans0 sid)|].
      apply list_elem_of_singleton in Hx as ->. by rewrite Ht.
    + rewrite lookup_insert_ne in Hs' by done. by apply (bo_chans0 sid').
  - intros tp set x Hset Hx. destruct (bo_subs0 tp set x Hset Hx). split; [done|]. by apply Hg.
  - intros x Hx. apply Hg. by apply bo_wild0.
Qed.

Lemma targets_ok topic b h sid : bus_ok b h → sid ∈ targets topic b →
  ∃ tp, open_as b sid tp ∧ topicMatches tp topic = true.
Proof.
  intros Hb [Hs|Hs]%elem_of_app; apply elem_of_elements in Hs.
  - destruct (b_subs b !! topic) as [set|] eqn:E; simpl in Hs; [|by apply not_elem_of_empty in Hs].
    destruct (bo_subs b h Hb _ _ _ E Hs). exists topic. split; [done|apply self_match].
  - exists "*". split; [by apply (bo_wild b h Hb)|done].
Qed.

Lemma replay_ok topic last b h ev : bus_ok b h → ev ∈ replay topic last b → meant_for topic h ev.
Proof. intros Hb [Hin Hm]%elem_of_filter_b. bool_simp. split; [by apply (bo_buf b h Hb)|done]. Qed.

Lemma expire_suffix cutoff buf : ∃ k, expire cutoff buf = drop k buf.
Proof.
  induction buf as [|ev buf [k IH]]; [by exists 0|]. simpl. destruct (_ <? _)%Z; [by exists 0|]. by exists (S k).
Qed.

(** [bufferAppend] keeps a suffix of the buffer and adds the event. *)
Lemma append_spec now ev b : (0 < b_bufCap b)%Z → ∃ k,
  bufferAppend now ev b = set_buf (drop k (b_buf b) ++ [ev]) b ∧
  (Z.of_nat (length (drop k (b_buf b) ++ [ev])) <= b_bufCap b)%Z.
Proof.
  intros Hcap. unfold bufferAppend. destruct (expire_suffix (now - b_retention b) (b_buf b)) as [k ->].
  set (n := (Z.of_nat (length (drop k (b_buf b) ++ [ev])) - b_bufCap b)%Z).
  destruct (0 <? n)%Z eqn:E.
  - apply Z.ltb_lt in E. exists (k + Z.to_nat n).
    assert (Hl : Z.to_nat n ≤ length (drop k (b_buf b))) by (unfold n in *; rewrite length_app in *; simpl in *; lia).
    rewrite <- drop_drop. split.
    + f_equal. change (skipn (Z.to_nat n)) with (@drop (Event) (Z.to_nat n)). by rewrite drop_app_le.
    + rewrite length_app, length_drop. unfold n in *. rewrite length_app in *. simpl in *. lia.
  - apply Z.ltb_ge in E. exists k. split; [done|]. lia.
Qed.

Lemma set_targets_grows subs wild b : grows b (set_targets subs wild b).
Proof. intros sid topic. done. Qed.

Lemma register_ok sid topic b h : bus_ok b h → open_as b sid topic → bus_ok (register sid topic b) h.
Proof.
  intros [] Ho. unfold register. destruct (String.eqb_spec topic "*") as [->|Hne]; split; try done.
  - intros x [->%elem_of_singleton|Hx]%elem_of_union; [done|]. by apply bo_wild0.
  - intros tp set x Hset Hx. simpl in Hset. destruct (decide (tp = topic)) as [->|Htp].
    + rewrite lookup_insert_eq in Hset. injection Hset as <-. split; [done|].
      apply elem_of_union in Hx as [->%elem_of_singleton|Hx]; [done|].
      destruct (b_subs b !! topic) as [set|] eqn:E; simpl in Hx; [|by apply not_elem_of_empty in Hx].
      by apply (bo_subs0 _ _ _ E).
    + rewrite lookup_insert_ne in Hset by done. by apply (bo_subs0 _ _ _ Hset).
Qed.

Lemma unregister_ok sid topic b h : bus_ok b h → bus_ok (unregister sid topic b) h.
Proof.
  intros []. unfold unregister. destruct (topic =s "*").
  { split; try done. intros x [Hx _]%elem_of_difference. by apply bo_wild0. }
  destruct (b_subs b !! topic) as [set|] eqn:E; [|by split]. split; try done.
  intros tp set' x Hset Hx. simpl in Hset.
  destruct (bool_decide_reflect (set ∖ {[sid]} = ∅)) as [Hem|Hem].
  - destruct (decide (tp = topic)) as [->|Htp]; [by rewrite lookup_delete_eq in Hset|].
    rewrite lookup_delete_ne in Hset by done. by apply (bo_subs0 _ _ _ Hset).
  - destruct (decide (tp = topic)) as [->|Htp].
    + rewrite lookup_insert_eq in Hset. injection Hset as <-. apply elem_of_difference in Hx as [Hx _].
      by apply (bo_subs0 _ _ _ E).
    + rewrite lookup_insert_ne in Hset by done. by apply (bo_subs0 _ _ _ Hset).
Qed.

Lemma unregister_grows sid topic b : grows b (unregister sid topic b).
Proof. intros x tp Ho. unfold unregister. destruct (_ =s _); [exact Ho|]. by destruct (b_subs b !! topic). Qed.

Lemma register_grows sid topic b : grows b (register sid topic b).
Proof. intros x tp Ho. unfold register. by destruct (_ =s _). Qed.

Lemma open_chan_grows sid topic b : b_chans b !! sid = None → grows b (open_chan sid topic b).
Proof.
  intros Hn x tp (s & Hs & Ht). exists s. split; [|done]. simpl. rewrite lookup_insert_ne; [done|]. congruence.
Qed.

Lemma open_chan_ok sid topic b h : b_chans b !! sid = None → bus_ok b h → bus_ok (open_chan sid topic b) h.
Proof.
  intros Hn Hb. pose proof (open_chan_grows sid topic b Hn) as Hg. destruct Hb. split; try done.
  - intros x s Hs. simpl in Hs. destruct (decide (x = sid)) as [->|Hne].
    + rewrite lookup_insert_eq in Hs. injection Hs as <-. simpl. split; [lia|]. by intros ? ?%not_elem_of_nil.
    + rewrite lookup_insert_ne in Hs by done. by apply (bo_chans0 x).
  - intros tp set x Hset Hx. destruct (bo_subs0 tp set x Hset Hx). auto.
  - intros x Hx. auto.
Qed.

(** One section of a call keeps the state in order and what is left of it. *)
Lemma section_ok b t b' (t' : option thread) new h : bus_ok b h → thread_ok b h t → section b t b' t' new →
  bus_ok b' (h ++ new) ∧ grows b b' ∧ Forall (thread_ok b' (h ++ new)) (rest_of t').
Proof.
  intros Hb Ht Hs. destruct Hs; simpl in Ht |- *; rewrite ?app_nil_r.
  - split; [|split; [exact (grows_refl b)|constructor; [|constructor]; simpl; apply elem_of_app; right; left]].
    destruct Hb. split; try done; simpl.
    + intros sid s Hs. destruct (bo_chans0 sid s Hs) as [? Hm]. split; [done|]. intros x Hx.
      destruct (Hm x Hx). split; [apply elem_of_app; by left|done].
    + intros x Hx. apply elem_of_app. left. auto.
    + rewrite length_app, bo_seq0. simpl. lia.
    + intros i x Hx. apply lookup_app_Some in Hx as [Hx|[Hi Hx]]; [by apply bo_ids0|].
      apply list_lookup_singleton_Some in Hx as [Hi0 <-]. exists ms. simpl. rewrite bo_seq0.
      replace i with (length h) by lia. done.
  - split; [|split; [|by repeat constructor]].
    + pose proof (bo_cap b h Hb) as [Hc _]. destruct (append_spec now ev b Hc) as (k & -> & Hl).
      destruct Hb. split; try done. intros x [Hx|Hx]%elem_of_app; [|by apply list_elem_of_singleton in Hx as ->].
      apply bo_buf0. eapply subseteq_drop; exact Hx.
    + exact (grows_refl b).
  - split; [done|]. split; [exact (grows_refl b)|]. constructor; [|constructor]. split; [done|]. intros sid Hsid.
    apply (targets_ok (e_Topic ev) b h); [done|]. by rewrite <- H.
  - destruct Ht as [Hin Hsids]. destruct (Hsids sid) as (tp & Ho & Hm); [left|].
    split; [by apply (send_ok ev sid b h tp)|]. split; [apply send_grows|]. constructor; [|constructor]. split; [done|].
    intros x Hx. destruct (Hsids x) as (tp' & Ho' & Hm'); [by right|]. exists tp'. split; [by apply send_grows|done].
  - split; [done|]. split; [exact (grows_refl b)|constructor].
  - split; [by apply open_chan_ok|]. split; [by apply open_chan_grows|]. constructor; [|constructor]. split.
    + eexists. split; [simpl; apply lookup_insert_eq|done].
    + intros ev Hev. by eapply replay_ok.
  - destruct Ht as [Ho He]. split; [by apply register_ok|]. split; [apply register_grows|].
    constructor; [|constructor]. exists topic. split; [by apply register_grows|done].
  - destruct Ht as (tp & Ho & He). split; [apply (send_ok ev sid b h tp); [done..|apply He; left]|].
    split; [apply send_grows|]. constructor; [|constructor]. exists tp. split; [by apply send_grows|].
    intros x Hx. apply He. by right.
  - split; [done|]. split; [exact (grows_refl b)|constructor].
  - split; [by apply unregister_ok|]. split; [apply unregister_grows|constructor].
  - split; [done|]. split; [exact (grows_refl b)|constructor].
Qed.

(** *** Events are buffered once *)

(** Events with an id that are not in the buffer yet. *)
Definition pending_of t : option Event := match t with TAppend ev => Some ev | _ => None end.
Definition pending (ts : list thread) : list Event := omap pending_of ts.

(** Fewer events than the counter has values. *)
Definition in_width h : Prop := (Z.of_nat (length h) < 2 ^ 63)%Z.
Definition once b (ts : list thread) : Prop := NoDup (e_ID <$> b_buf b ++ pending ts).

Record config_ok (c : Config) : Prop := {
  co_bus : bus_ok (g_bus c) (g_history c);
  co_threads : Forall (thread_ok (g_bus c) (g_history c)) (g_threads c);
  co_once : in_width (g_history c) → once (g_bus c) (g_threads c);
}.

Lemma event_id_inj ms n ms' n' : (0 <= n < 10 ^ 20)%Z → (0 <= n' < 10 ^ 20)%Z →
  event_id ms n = event_id ms' n' → n = n'.
Proof.
  intros Hn Hn' E. apply (f_equal String.list_ascii_of_string) in E. unfold event_id in E.
  rewrite !list_of_app in E. apply (last_sep "-"%char) in E as [_ E]; [by apply Itoa_inj, list_of_inj|..].
  all: by apply digits_no_char, Itoa_spec.
Qed.

(** A new id is none of the old ones. *)
Lemma new_id_fresh b h ms ev : bus_ok b h → in_width (h ++ [ev]) → e_ID ev = event_id ms (b_seq b + 1) →
  ∀ x, x ∈ h → e_ID x ≠ e_ID ev.
Proof.
  intros Hb Hw Hid x (i & Hi)%list_elem_of_lookup. destruct (bo_ids b h Hb i x Hi) as [ms' ->]. rewrite Hid.
  apply lookup_lt_Some in Hi. unfold in_width in Hw. rewrite length_app in Hw. simpl in Hw.
  rewrite (bo_seq b h Hb). intros E%event_id_inj; lia.
Qed.

Lemma pending_mid (l1 l2 : list thread) t : pending (l1 ++ t :: l2) = pending l1 ++ pending [t] ++ pending l2.
Proof. unfold pending. rewrite omap_app. f_equal. simpl. by destruct (pending_of t). Qed.

Lemma pending_rest (l1 l2 : list thread) (o : option thread) :
  pending (l1 ++ rest_of o ++ l2) = pending l1 ++ pending (rest_of o) ++ pending l2.
Proof. unfold pending. by rewrite !omap_app. Qed.

Lemma pending_in h b (ts : list thread) ev : Forall (thread_ok b h) ts → ev ∈ pending ts → ev ∈ h.
Proof.
  intros Hf (t & Ht & E)%list_elem_of_omap. rewrite list.Forall_forall in Hf. specialize (Hf t Ht).
  destruct t; simplify_eq/=. done.
Qed.

Lemma section_buf b t b' (t' : option thread) new : section b t b' t' new → pending [t] = [] → b_buf b' = b_buf b.
Proof.
  destruct 1; intros Ep; try done; unfold send, register, unregister; repeat case_match; done.
Qed.

(** A section buffers no event twice. *)
Lemma section_once b t b' (t' : option thread) new h l1 l2 :
  bus_ok b h → Forall (thread_ok b h) (l1 ++ t :: l2) → section b t b' t' new → in_width (h ++ new) →
  once b (l1 ++ t :: l2) → once b' (l1 ++ rest_of t' ++ l2).
Proof.
  intros Hb Hf Hs Hw. unfold once. rewrite pending_mid, pending_rest. destruct (pending [t]) as [|ev evs] eqn:Ep.
  - rewrite (section_buf _ _ _ _ _ Hs Ep). destruct Hs; simpl; try done. intros Hn.
    assert (Hperm : (e_ID <$> b_buf b ++ pending l1 ++ ev :: pending l2)
      ≡ₚ e_ID ev :: (e_ID <$> b_buf b ++ pending l1 ++ pending l2)).
    { rewrite <- fmap_cons. apply fmap_Permutation. rewrite !app_assoc. symmetry. apply Permutation_middle. }
    rewrite Hperm. apply list.NoDup_cons. split; [|done]. intros (x & Ex & Hx)%list_elem_of_fmap.
    apply (new_id_fresh b h ms ev Hb Hw eq_refl x); [|done].
    apply elem_of_app in Hx as [Hx|Hx]; [by apply (bo_buf b h Hb)|].
    apply Forall_app in Hf as [Hf1 Hf2]. apply Forall_cons in Hf2 as [_ Hf2].
    apply elem_of_app in Hx as [Hx|Hx]; [by apply (pending_in h b l1)|by apply (pending_in h b l2)].
  - destruct Hs; try discriminate Ep. simpl in Ep. simplify_eq.
    pose proof (bo_cap b h Hb) as [Hc _]. destruct (append_spec now ev b Hc) as (k & -> & _). simpl. intros Hn.
    apply (sublist_NoDup _ (e_ID <$> (b_buf b ++ [ev]) ++ pending l1 ++ pending l2)).
    + assert (Hp : (e_ID <$> (b_buf b ++ [ev]) ++ pending l1 ++ pending l2)
        ≡ₚ (e_ID <$> b_buf b ++ pending l1 ++ ev :: pending l2)); [|by rewrite Hp].
      apply fmap_Permutation. rewrite <- app_assoc. apply Permutation_app_head, (Permutation_middle (pending l1) (pending l2) ev).
    + rewrite !fmap_app, fmap_drop. apply sublist_app; [|done]. apply sublist_app; [apply sublist_drop|done].
Qed.

Lemma step_ok c c' : config_ok c → step c c' → config_ok c'.
Proof.
  intros [Hb Hf Ho] Hs. destruct Hs as [t b ts h Hcall|b t b' t' new l1 l2 h Hsec|sid s ev ch b ts h Hs Hch]; simpl in *.
  - split; simpl; [done| |].
    + apply Forall_app. split; [done|]. constructor; [by destruct t|constructor].
    + intros Hw. unfold once, pending. rewrite omap_app. simpl. destruct t; try discriminate Hcall; simpl;
        rewrite app_nil_r; by apply Ho.
  - pose proof Hf as [Hf1 [Ht Hf2]%Forall_cons]%Forall_app.
    destruct (section_ok _ _ _ _ _ _ Hb Ht Hsec) as (Hb' & Hg & Hr). split; simpl; [done| |].
    + apply Forall_app. split; [|apply Forall_app; split; [done|]].
      all: eapply Forall_impl; [eassumption|]; intros x; by apply thread_ok_mono.
    + intros Hw. apply (section_once b t b' t' new h l1 l2); [done..|]. apply Ho.
      unfold in_width in *. rewrite length_app in Hw. lia.
  - assert (Hg : grows b (set_chans <[sid:=mkSub (s_topic s) ch]> b)).
    { intros x topic (s' & Hs' & Ht). unfold open_as. simpl. destruct (decide (x = sid)) as [->|Hne].
      - rewrite lookup_insert_eq. eexists. split; [done|]. simpl. congruence.
      - rewrite lookup_insert_ne by done. by exists s'. }
    split; simpl; [|eapply Forall_impl; [exact Hf|]; intros x Hx; rewrite <- (app_nil_r h); by eapply thread_ok_mono|exact Ho].
    destruct Hb. split; try done; simpl.
    + intros x s' Hx. destruct (decide (x = sid)) as [->|Hne].
      * rewrite lookup_insert_eq in Hx. injection Hx as <-. simpl. destruct (bo_chans0 sid s Hs) as [Hl Hm].
        rewrite Hch in *. simpl in Hl. split; [lia|]. intros y Hy. apply Hm. by right.
      * rewrite lookup_insert_ne in Hx by done. by apply (bo_chans0 x).
    + intros tp set x Hset Hx. destruct (bo_subs0 tp set x Hset Hx). auto.
    + auto.
Qed.

Lemma new_ok cap ret : config_ok (mkConfig (New cap ret) [] []).
Proof.
  split; simpl; [|constructor|intros _; constructor]. split; simpl; try done.
  - destruct (cap <=? 0)%Z eqn:E; bool_simp; lia.
Qed.

Lemma reachable_ok cap ret c : reachable cap ret c → config_ok c.
Proof. induction 1; [apply new_ok|by eapply step_ok]. Qed.

Lemma history_ids b h : bus_ok b h → in_width h → NoDup (e_ID <$> h).
Proof.
  intros Hb Hw. apply NoDup_alt. intros i j id Hi Hj. apply list_lookup_fmap_Some in Hi as (x & -> & Hi).
  apply list_lookup_fmap_Some in Hj as (y & E & Hj).
  destruct (bo_ids b h Hb i x Hi) as [ms Ex], (bo_ids b h Hb j y Hj) as [ms' Ey]. rewrite Ex, Ey in E.
  apply lookup_lt_Some in Hi, Hj. unfold in_width in Hw. apply event_id_inj in E; lia.
Qed.

(** C13: However publishers, subscribers and readers interleave, the replay
    buffer never exceeds its capacity and holds no event twice, every event gets
    an id of its own (of the 2^63 the counter has), a channel never holds more
    than its 64 places, and holds only published events of its topic. *)
Theorem bus_safe cap ret b ts h : reachable cap ret (mkConfig b ts h) →
  (0 < b_bufCap b)%Z ∧ (Z.of_nat (length (b_buf b)) <= b_bufCap b)%Z ∧
  (in_width h → NoDup (e_ID <$> h) ∧ NoDup (e_ID <$> b_buf b)) ∧
  (∀ ev, ev ∈ b_buf b → ev ∈ h) ∧
  (∀ sid s, b_chans b !! sid = Some s → length (s_ch s) ≤ 64 ∧
     ∀ ev, ev ∈ s_ch s → ev ∈ h ∧ topicMatches (s_topic s) (e_Topic ev) = true).
Proof.
  intros [Hb _ Ho]%reachable_ok. simpl in *. split_and!; [apply (bo_cap b h Hb)..| |apply (bo_buf b h Hb)|apply (bo_chans b h Hb)].
  intros Hw. split; [by apply (history_ids b h)|]. specialize (Ho Hw). unfold once in Ho.
  rewrite fmap_app in Ho. by apply list.NoDup_app in Ho as [? _].
Qed.

(** *** No call blocks *)

(** The call ends by its own sections: in every state of the bus - whatever
    the channels hold and whatever the other calls did in between - it has a
    section to take, and after any section it takes it ends as well.  No step of
    a reader or of another call is part of it. *)
Inductive ends (t : thread) : Prop :=
  | ends_intro :
      (∀ b, ∃ b' (o : option thread) new, section b t b' o new) →
      (∀ b b' (o : option thread) new, section b t b' o new → ∀ t', o = Some t' → ends t') → ends t.

Lemma send_ends ev sids : ends (TSend ev sids).
Proof.
  induction sids as [|sid sids IH]; constructor; try (intros b; do 3 eexists; constructor).
  all: intros b b' o new Hs; inversion Hs; subst; intros t' E; by simplify_eq.
Qed.

Lemma push_ends sid evs : ends (TPush sid evs).
Proof.
  induction evs as [|ev evs IH]; constructor; try (intros b; do 3 eexists; constructor).
  all: intros b b' o new Hs; inversion Hs; subst; intros t' E; by simplify_eq.
Qed.

(** One section, then what is known to end. *)
Ltac end_by lem :=
  constructor; [intros b; do 3 eexists; by constructor
               |intros b b' o new Hs; inversion Hs; subst; intros t' E; simplify_eq; apply lem].

Lemma register_ends sid topic evs : ends (TRegister sid topic evs).
Proof. end_by push_ends. Qed.

Lemma snapshot_ends ev : ends (TSnapshot ev).
Proof. end_by send_ends. Qed.

Lemma append_ends ev : ends (TAppend ev).
Proof.
  constructor; [intros b; do 3 eexists; apply (sec_append 0)|].
  intros b b' o new Hs; inversion Hs; subst; intros t' E; simplify_eq. apply snapshot_ends.
Qed.

Lemma publish_ends topic ty p : ends (TPublish topic ty p).
Proof.
  constructor; [intros b; do 3 eexists; apply (sec_id 0 0)|].
  intros b b' o new Hs; inversion Hs; subst; intros t' E; simplify_eq. apply append_ends.
Qed.

Lemma subscribe_ends topic last : ends (TSubscribe topic last).
Proof.
  constructor.
  - intros b. do 3 eexists. apply (sec_replay (fresh (dom (b_chans b)))), not_elem_of_dom, is_fresh.
  - intros b b' o new Hs; inversion Hs; subst; intros t' E; simplify_eq. apply register_ends.
Qed.

Lemma unsubscribe_ends sid : ends (TUnsubscribe sid).
Proof.
  constructor.
  - intros b. destruct (b_chans b !! sid) eqn:E; do 3 eexists; by constructor.
  - intros b b' o new Hs; inversion Hs; by subst.
Qed.

(** C14: No call ever waits for another one or for a reader, full channels
    included: every call, wherever it stands, has its next critical section to
    take in every state of the bus, and it ends after finitely many sections of
    its own whatever the others do between them.  So [Publish] and the goroutine
    of [Subscribe] pass a full channel by instead of waiting for room.  (The two
    locks are held for one section each, so waiting for one is not a wait for
    another call to end.) *)
Theorem calls_finish : ∀ t : thread, ends t.
Proof.
  intros [topic ty p|ev|ev|ev sids|topic last|sid topic evs|sid evs|sid].
  - apply publish_ends.
  - apply append_ends.
  - apply snapshot_ends.
  - apply send_ends.
  - apply subscribe_ends.
  - apply register_ends.
  - apply push_ends.
  - apply unsubscribe_ends.
Qed.

(** ** What the bus promises

    Abstractly a bus is a log of what was published, the part of it that is
    held for replay, and a set of subscriptions.  A subscription has a topic, is
    live or not, and has a queue of bounded length; [sp_due] are the live events
    on their way to it, in no order, [sp_backlog] the replayed ones, in theirs. *)

Record SpecSub := mkSpecSub {
  sp_topic : string; sp_live : bool; sp_queue : list Event; sp_due : list Event; sp_backlog : list Event;
}.
Record Spec := mkSpec {
  sp_subs : gmap nat SpecSub; sp_held : list Event; sp_log : list Event; sp_cap : Z; sp_retention : Z;
}.

(** Topics a filter stands for. *)
Inductive covers : string → string → Prop :=
  | cov_none topic : covers "" topic
  | cov_all topic : covers "*" topic
  | cov_prefix p rest : covers (p ^^ ".*") (p ^^ "." ^^ rest)
  | cov_exact topic : covers topic topic.

(** The order of byte strings, and the events after an id. *)
Inductive str_lt : string → string → Prop :=
  | lt_end c s : str_lt "" (String c s)
  | lt_head c d s u : (N_of_ascii c < N_of_ascii d)%N → str_lt (String c s) (String d u)
  | lt_tail c s u : str_lt s u → str_lt (String c s) (String c u).
Definition after (last : string) ev : Prop := last = "" ∨ str_lt last (e_ID ev).

(** The elements of a list with a property, in their order. *)
Inductive selects (Q : Event → Prop) : list Event → list Event → Prop :=
  | sel_nil : selects Q [] []
  | sel_keep ev l l' : Q ev → selects Q l l' → selects Q (ev :: l) (ev :: l')
  | sel_skip ev l l' : ¬ Q ev → selects Q l l' → selects Q (ev :: l) l'.

(** An event that arrives at a queue: last in it, or lost when it holds 64. *)
Definition offered ev (q q' : list Event) : Prop :=
  (length q < 64 ∧ q' = q ++ [ev]) ∨ (64 ≤ length q ∧ q' = q).

(** Announcing an event: due to the live subscriptions to everything and to
    its topic, and to no other. *)
Definition announced ev (s s' : SpecSub) : Prop :=
  ∃ due, s' = mkSpecSub (sp_topic s) (sp_live s) (sp_queue s) due (sp_backlog s) ∧
    ((sp_live s = true ∧ (sp_topic s = "*" ∨ sp_topic s = e_Topic ev) ∧ due ≡ₚ ev :: sp_due s) ∨
     (¬ (sp_live s = true ∧ (sp_topic s = "*" ∨ sp_topic s = e_Topic ev)) ∧ due = sp_due s)).

(** What is held when an event is added: the expired events go from the front
    up to the first one that is not, then the oldest ones beyond the capacity. *)
Definition retained (a : Spec) (now : Z) ev (held : list Event) : Prop :=
  ∃ expired rest lost, sp_held a = expired ++ rest ∧ rest ++ [ev] = lost ++ held ∧
    Forall (λ x, (e_Timestamp x <= now - sp_retention a)%Z) expired ∧
    (∀ x, head rest = Some x → (now - sp_retention a < e_Timestamp x)%Z) ∧
    (Z.of_nat (length held) <= sp_cap a)%Z ∧ (lost = [] ∨ Z.of_nat (length held) = sp_cap a).

Definition with_sub (a : Spec) sid (s : SpecSub) : Spec :=
  mkSpec (<[sid := s]> (sp_subs a)) (sp_held a) (sp_log a) (sp_cap a) (sp_retention a).

Inductive spec_step (a : Spec) : Spec → Prop :=
  | st_publish ms ev : e_ID ev = Itoa ms ^^ "-" ^^ Itoa (Z.of_nat (length (sp_log a)) + 1) →
      spec_step a (mkSpec (sp_subs a) (sp_held a) (sp_log a ++ [ev]) (sp_cap a) (sp_retention a))
  | st_hold now ev held : ev ∈ sp_log a → retained a now ev held →
      spec_step a (mkSpec (sp_subs a) held (sp_log a) (sp_cap a) (sp_retention a))
  | st_announce ev subs : ev ∈ sp_log a →
      (∀ sid, option_Forall2 (announced ev) (sp_subs a !! sid) (subs !! sid)) →
      spec_step a (mkSpec subs (sp_held a) (sp_log a) (sp_cap a) (sp_retention a))
  | st_deliver sid s ev q due : sp_subs a !! sid = Some s → sp_due s ≡ₚ ev :: due → offered ev (sp_queue s) q →
      spec_step a (with_sub a sid (mkSpecSub (sp_topic s) (sp_live s) q due (sp_backlog s)))
  | st_subscribe sid topic last evs : sp_subs a !! sid = None →
      selects (λ ev, covers topic (e_Topic ev) ∧ after last ev) (sp_held a) evs →
      spec_step a (with_sub a sid (mkSpecSub (if topic =s "" then "*" else topic) false [] [] evs))
  | st_listen sid s : sp_subs a !! sid = Some s →
      spec_step a (with_sub a sid (mkSpecSub (sp_topic s) true (sp_queue s) (sp_due s) (sp_backlog s)))
  | st_replay sid s ev evs q : sp_subs a !! sid = Some s → sp_backlog s = ev :: evs → offered ev (sp_queue s) q →
      spec_step a (with_sub a sid (mkSpecSub (sp_topic s) (sp_live s) q (sp_due s) evs))
  | st_close sid s : sp_subs a !! sid = Some s →
      spec_step a (with_sub a sid (mkSpecSub (sp_topic s) false (sp_queue s) (sp_due s) (sp_backlog s)))
  | st_receive sid s ev q : sp_subs a !! sid = Some s → sp_queue s = ev :: q →
      spec_step a (with_sub a sid (mkSpecSub (sp_topic s) (sp_live s) q (sp_due s) (sp_backlog s))).

(** *** What of a configuration is seen from outside *)

Definition listens b sid (s : subscription) : bool :=
  if s_topic s =s "*" then bool_decide (sid ∈ b_wildcard b)
  else bool_decide (sid ∈ default ∅ (b_subs b !! s_topic s)).
Definition due_of sid t : list Event :=
  match t with TSend ev sids => if bool_decide (sid ∈ sids) then [ev] else [] | _ => [] end.
Definition backlog_of sid t : list Event :=
  match t with TRegister x _ evs | TPush x evs => if bool_decide (x = sid) then evs else [] | _ => [] end.
Definition due sid (ts : list thread) : list Event := ts ≫= due_of sid.
Definition backlog sid (ts : list thread) : list Event := ts ≫= backlog_of sid.
Definition abs_subs b (ts : list thread) : gmap nat SpecSub :=
  map_imap (λ sid s, Some (mkSpecSub (s_topic s) (listens b sid s) (s_ch s) (due sid ts) (backlog sid ts))) (b_chans b).
Definition abs (c : Config) : Spec :=
  mkSpec (abs_subs (g_bus c) (g_threads c)) (b_buf (g_bus c)) (g_history c) (b_bufCap (g_bus c)) (b_retention (g_bus c)).

Lemma listens_targets topic b h sid s : bus_ok b h → b_chans b !! sid = Some s →
  sid ∈ targets topic b ↔ listens b sid s && ((s_topic s =s "*") || (s_topic s =s topic)) = true.
Proof.
  intros Hb Hs. unfold targets, listens. rewrite elem_of_app, !elem_of_elements. split.
  - intros [Hin|Hin].
    + destruct (b_subs b !! topic) as [set|] eqn:E; simpl in Hin; [|by apply not_elem_of_empty in Hin].
      destruct (bo_subs b h Hb _ _ _ E Hin) as (Hne & s' & Hs' & <-). rewrite Hs in Hs'. injection Hs' as <-.
      rewrite (proj2 (String.eqb_neq _ _) Hne), E, String.eqb_refl. simpl. by rewrite bool_decide_eq_true_2.
    + destruct (bo_wild b h Hb _ Hin) as (s' & Hs' & Et). rewrite Hs in Hs'. injection Hs' as <-.
      rewrite Et. simpl. by rewrite bool_decide_eq_true_2.
  - intros [Hl Ht]%andb_true_iff. destruct (String.eqb_spec (s_topic s) "*") as [Et|Hne].
    + right. by apply bool_decide_eq_true in Hl.
    + simpl in Ht. bool_simp. left. apply bool_decide_eq_true in Hl. by rewrite <- Ht.
Qed.

Lemma targets_nodup topic b h : bus_ok b h → NoDup (targets topic b).
Proof.
  intros Hb. apply list.NoDup_app. split_and!; [apply NoDup_elements| |apply NoDup_elements].
  intros sid H1%elem_of_elements H2%elem_of_elements.
  destruct (b_subs b !! topic) as [set|] eqn:E; simpl in H1; [|by apply not_elem_of_empty in H1].
  destruct (bo_subs b h Hb _ _ _ E H1) as (Hne & s & Hs & Et), (bo_wild b h Hb _ H2) as (s' & Hs' & Et').
  congruence.
Qed.

(** Sending is offering to one channel. *)
Definition push ev (s : subscription) : subscription :=
  if (length (s_ch s) <? chan_cap)%nat then mkSub (s_topic s) (s_ch s ++ [ev]) else s.

Lemma send_chans ev sid b x : b_chans (send ev sid b) !! x =
  if bool_decide (x = sid) then push ev <$> b_chans b !! x else b_chans b !! x.
Proof.
  unfold send, push. case_bool_decide as E.
  - subst. destruct (b_chans b !! sid) as [s|] eqn:Es; [|done]. simpl.
    destruct (_ <? _)%nat; simpl; [by rewrite lookup_insert_eq|done].
  - destruct (b_chans b !! sid) as [s|]; [|done]. destruct (_ <? _)%nat; [|done]. simpl. by rewrite lookup_insert_ne.
Qed.

Lemma send_rest ev sid b : b_subs (send ev sid b) = b_subs b ∧ b_wildcard (send ev sid b) = b_wildcard b ∧
  b_buf (send ev sid b) = b_buf b ∧ b_seq (send ev sid b) = b_seq b ∧ b_bufCap (send ev sid b) = b_bufCap b ∧
  b_retention (send ev sid b) = b_retention b.
Proof. unfold send. repeat case_match; done. Qed.

Lemma push_topic ev s : s_topic (push ev s) = s_topic s.
Proof. unfold push. by destruct (_ <? _)%nat. Qed.

(** Registration concerns one subscription only. *)
Lemma listens_register b sid topic x s :
  listens (register sid topic b) x s = bool_decide (x = sid ∧ s_topic s = topic) || listens b x s.
Proof.
  apply eq_true_iff_eq. rewrite orb_true_iff. unfold register, listens.
  destruct (String.eqb_spec topic "*") as [->|Hne], (String.eqb_spec (s_topic s) "*") as [Et|Ht]; simpl;
    rewrite ?bool_decide_eq_true.
  - rewrite elem_of_union, elem_of_singleton. naive_solver.
  - naive_solver.
  - naive_solver.
  - destruct (decide (s_topic s = topic)) as [->|Hd].
    + rewrite lookup_insert_eq. simpl. rewrite elem_of_union, elem_of_singleton. naive_solver.
    + rewrite lookup_insert_ne by done. naive_solver.
Qed.

Lemma listens_unregister b sid topic x s :
  listens (unregister sid topic b) x s = listens b x s && negb (bool_decide (x = sid ∧ s_topic s = topic)).
Proof.
  apply eq_true_iff_eq. rewrite andb_true_iff, negb_true_iff, bool_decide_eq_false. unfold unregister, listens.
  destruct (String.eqb_spec topic "*") as [->|Hne], (String.eqb_spec (s_topic s) "*") as [Et|Ht]; simpl;
    rewrite ?bool_decide_eq_true.
  - rewrite elem_of_difference, elem_of_singleton. naive_solver.
  - naive_solver.
  - destruct (b_subs b !! topic); simpl; rewrite ?bool_decide_eq_true; naive_solver.
  - destruct (b_subs b !! topic) as [set|] eqn:E; simpl; rewrite ?bool_decide_eq_true.
    + destruct (decide (s_topic s = topic)) as [->|Hd].
      * rewrite E. simpl. case_bool_decide as Hem.
        -- rewrite lookup_delete_eq. simpl. set_solver.
        -- rewrite lookup_insert_eq. simpl. set_solver.
      * case_bool_decide; rewrite ?lookup_delete_ne, ?lookup_insert_ne by done; naive_solver.
    + destruct (decide (s_topic s = topic)) as [->|Hd]; [rewrite E; simpl; set_solver|naive_solver].
Qed.

(** *** The functions of the code against the promise *)

Lemma selects_filter (Q : Event → Prop) (f : Event → bool) l : (∀ ev, f ev = true ↔ Q ev) → selects Q l (List.filter f l).
Proof.
  intros Hf. induction l as [|ev l IH]; simpl; [constructor|]. destruct (f ev) eqn:E; constructor; [|done| |done].
  - by apply Hf.
  - intros HQ%Hf. congruence.
Qed.

Lemma str_lt_leb s u : String.leb s u = false ↔ str_lt u s.
Proof.
  unfold String.leb. revert u. induction s as [|c s IH]; intros [|d u]; simpl.
  - split; [done|]. by inversion 1.
  - split; [done|]. by inversion 1.
  - split; [intros _; constructor|done].
  - unfold Ascii.compare. destruct (N.compare_spec (N_of_ascii c) (N_of_ascii d)) as [E|E|E].
    + assert (c = d) as -> by (rewrite <- (ascii_N_embedding c), <- (ascii_N_embedding d); by f_equal).
      rewrite IH. split; [by constructor|]. inversion 1; subst; [lia|done].
    + split; [done|]. inversion 1; subst; lia.
    + split; [intros _; by constructor|done].
Qed.

Lemma suffix_app p u : HasSuffix (p ^^ u) u = true.
Proof.
  unfold HasSuffix. rewrite string_app_length. apply andb_true_iff. split; [apply Nat.leb_le; lia|].
  replace (String.length p + String.length u - String.length u) with (String.length p) by lia.
  destruct (take_drop_app p u _ eq_refl) as [_ E]. unfold drop_s in E. rewrite string_app_length in E.
  replace (String.length p + String.length u - String.length p) with (String.length u) in E by lia.
  rewrite E. apply String.eqb_refl.
Qed.

Lemma suffix_split s u : HasSuffix s u = true → ∃ p, s = p ^^ u.
Proof.
  intros [Hl E]%andb_true_iff. apply Nat.leb_le in Hl. apply String.eqb_eq in E.
  destruct (cut (String.length s - String.length u) s) as [Hs _]; [lia|]. exists (take_s (String.length s - String.length u) s).
  rewrite Hs at 1. f_equal. unfold drop_s. by replace (String.length s - (String.length s - String.length u)) with (String.length u) by lia.
Qed.

Lemma trim_star p : TrimSuffix (p ^^ ".*") "*" = p ^^ ".".
Proof.
  change (p ^^ ".*") with (p ^^ ("." ^^ "*")). rewrite <- string_app_assoc. unfold TrimSuffix. rewrite suffix_app.
  rewrite string_app_length. replace (_ + _ - _) with (String.length (p ^^ ".")) by (simpl; lia). by apply take_drop_app.
Qed.

Lemma covers_matches filter topic : topicMatches (norm_topic filter) topic = true ↔ covers filter topic.
Proof.
  unfold norm_topic. destruct (String.eqb_spec filter "") as [->|Hne]; [split; [constructor|done]|]. split.
  - unfold topicMatches. destruct (String.eqb_spec filter "") as [->|_]; [done|]. simpl.
    destruct (String.eqb_spec filter "*") as [->|_]; [constructor|]. simpl.
    destruct (HasSuffix filter ".*") eqn:E.
    + apply suffix_split in E as [p ->]. rewrite trim_star. intros [u ->]%has_prefix_app.
      rewrite string_app_assoc. constructor.
    + intros ->%String.eqb_eq. constructor.
  - inversion 1; subst; [done|done| |apply self_match]. unfold topicMatches.
    destruct (_ || _); [done|]. rewrite suffix_app, trim_star. apply has_prefix_app. exists rest. by rewrite string_app_assoc.
Qed.

Lemma replay_selects topic last b :
  selects (λ ev, covers topic (e_Topic ev) ∧ after last ev) (b_buf b) (replay (norm_topic topic) last b).
Proof.
  apply selects_filter. intros ev. rewrite andb_true_iff, covers_matches, negb_true_iff. unfold after.
  rewrite andb_false_iff, negb_false_iff, String.eqb_eq, str_lt_leb. tauto.
Qed.

Lemma expire_split cutoff buf : ∃ expired, buf = expired ++ expire cutoff buf ∧
  Forall (λ x, (e_Timestamp x <= cutoff)%Z) expired ∧ ∀ x, head (expire cutoff buf) = Some x → (cutoff < e_Timestamp x)%Z.
Proof.
  induction buf as [|ev buf (expired & E & Hf & Hh)]; [exists []; by repeat split|]. simpl.
  destruct (cutoff <? e_Timestamp ev)%Z eqn:Et; bool_simp.
  - exists []. split_and!; [done|constructor|]. intros x [= <-]. lia.
  - exists (ev :: expired). split_and!; [by rewrite E at 1|by constructor|done].
Qed.

Lemma append_retained ts h now ev b : (0 < b_bufCap b)%Z →
  retained (abs (mkConfig b ts h)) now ev (b_buf (bufferAppend now ev b)).
Proof.
  intros Hc. destruct (expire_split (now - b_retention b) (b_buf b)) as (expired & E & Hf & Hh).
  unfold bufferAppend. set (rest := expire _ _) in *. set (n := (_ - b_bufCap b)%Z). cbn [b_buf set_buf].
  destruct (0 <? n)%Z eqn:En; bool_simp.
  - exists expired, rest, (take (Z.to_nat n) (rest ++ [ev])). change (@skipn Event) with (@drop Event).
    assert (Hl : length (drop (Z.to_nat n) (rest ++ [ev])) = Z.to_nat (b_bufCap b)) by (rewrite length_drop; unfold n in *; lia).
    rewrite take_drop, Hl. simpl. split_and!; [done..|lia|right; lia].
  - exists expired, rest, []. simpl. split_and!; [done..|unfold n in *; lia|by left].
Qed.

(** *** The simulation *)

Definition pusher t : option nat := match t with TRegister sid _ _ | TPush sid _ => Some sid | _ => None end.
Definition sends_once t : Prop := match t with TSend _ sids => NoDup sids | _ => True end.
Record calls_ok (c : Config) : Prop := {
  ca_sends : Forall sends_once (g_threads c);
  ca_pushers : NoDup (omap pusher (g_threads c));
}.

Lemma abs_lookup b ts sid : abs_subs b ts !! sid =
  (λ s, mkSpecSub (s_topic s) (listens b sid s) (s_ch s) (due sid ts) (backlog sid ts)) <$> b_chans b !! sid.
Proof. unfold abs_subs. rewrite map_lookup_imap. by destruct (b_chans b !! sid). Qed.

Lemma due_app sid l l' : due sid (l ++ l') = due sid l ++ due sid l'.
Proof. apply bind_app. Qed.
Lemma backlog_app sid l l' : backlog sid (l ++ l') = backlog sid l ++ backlog sid l'.
Proof. apply bind_app. Qed.
Lemma due_cons sid t l : due sid (t :: l) = due_of sid t ++ due sid l.
Proof. done. Qed.
Lemma backlog_cons sid t l : backlog sid (t :: l) = backlog_of sid t ++ backlog sid l.
Proof. done. Qed.

(** Nothing is on its way to a subscription that does not exist. *)
Lemma nothing_due sid b h ts : Forall (thread_ok b h) ts → b_chans b !! sid = None → due sid ts = [] ∧ backlog sid ts = [].
Proof.
  intros Hf Hn. induction Hf as [|t ts Ht Hf [E1 E2]]; [done|]. rewrite due_cons, backlog_cons, E1, E2, !app_nil_r. simpl.
  assert (Hno : ∀ topic, ¬ open_as b sid topic) by (intros topic (s & Hs & _); congruence).
  destruct t; simpl in *; try done.
  - destruct Ht as [_ Ht]. case_bool_decide as E; [|done]. destruct (Ht sid E) as (topic & Ho & _). by destruct (Hno topic).
  - case_bool_decide; [|done]. subst. destruct Ht as [Ho _]. by destruct (Hno topic).
  - case_bool_decide; [|done]. subst. destruct Ht as (tp & Ho & _). by destruct (Hno tp).
Qed.

Lemma no_backlog sid ts : sid ∉ omap pusher ts → backlog sid ts = [].
Proof.
  induction ts as [|t ts IH]; [done|]. intros Hn. rewrite backlog_cons.
  destruct t as [| | | | |x topic evs|x evs|]; simpl in *; try (by apply IH).
  all: apply not_elem_of_cons in Hn as [Hx Hn]; rewrite bool_decide_eq_false_2 by congruence; by apply IH.
Qed.

Lemma abs_with b b' ts ts' h sid s : b_buf b' = b_buf b → b_bufCap b' = b_bufCap b → b_retention b' = b_retention b →
  abs_subs b' ts' !! sid = Some s → (∀ x, x ≠ sid → abs_subs b' ts' !! x = abs_subs b ts !! x) →
  abs (mkConfig b' ts' h) = with_sub (abs (mkConfig b ts h)) sid s.
Proof.
  intros E1 E2 E3 Hs Hx. unfold abs, with_sub. simpl. rewrite E1, E2, E3. f_equal. apply map_eq. intros x.
  destruct (decide (x = sid)) as [->|Hne]; [by rewrite lookup_insert_eq|]. rewrite lookup_insert_ne by done. by apply Hx.
Qed.

Lemma push_offered ev s : offered ev (s_ch s) (s_ch (push ev s)).
Proof. unfold push, offered, chan_cap. destruct (Nat.ltb_spec (length (s_ch s)) 64); [left|right]; by split. Qed.

Lemma send_listens ev sid b x s : listens (send ev sid b) x s = listens b x s.
Proof. unfold listens. destruct (send_rest ev sid b) as (-> & -> & _). done. Qed.

(** A send: the subscription's queue is offered the event. *)
Lemma send_abs ev sid b ts ts' h s : b_chans b !! sid = Some s →
  (∀ x, x ≠ sid → due x ts' = due x ts ∧ backlog x ts' = backlog x ts) →
  abs (mkConfig (send ev sid b) ts' h) = with_sub (abs (mkConfig b ts h)) sid
    (mkSpecSub (s_topic s) (listens b sid s) (s_ch (push ev s)) (due sid ts') (backlog sid ts')).
Proof.
  intros Hs Hx. destruct (send_rest ev sid b) as (_ & _ & ? & _ & ? & ?). apply abs_with; [done..| |].
  - rewrite abs_lookup, send_chans, bool_decide_eq_true_2, Hs by done. simpl.
    rewrite send_listens, push_topic. unfold listens. by rewrite push_topic.
  - intros x Hne. destruct (Hx x Hne) as [E1 E2]. rewrite !abs_lookup, send_chans, bool_decide_eq_false_2, E1, E2 by done.
    destruct (b_chans b !! x); [|done]. simpl. by rewrite send_listens.
Qed.

Lemma abs_subs_same b b' ts ts' : b_chans b' = b_chans b → b_subs b' = b_subs b → b_wildcard b' = b_wildcard b →
  (∀ x, due x ts' = due x ts ∧ backlog x ts' = backlog x ts) → abs_subs b' ts' = abs_subs b ts.
Proof.
  intros E1 E2 E3 Hx. apply map_eq. intros x. rewrite !abs_lookup, E1. destruct (Hx x) as [-> ->].
  unfold listens. by rewrite E2, E3.
Qed.

Lemma due_mid x l1 l2 t : due x (l1 ++ t :: l2) = due x l1 ++ due_of x t ++ due x l2.
Proof. by rewrite due_app, due_cons. Qed.
Lemma backlog_mid x l1 l2 t : backlog x (l1 ++ t :: l2) = backlog x l1 ++ backlog_of x t ++ backlog x l2.
Proof. by rewrite backlog_app, backlog_cons. Qed.

(** Two places of a call that owe the subscriptions the same. *)
Lemma same_calls l1 l2 t t' x : due_of x t' = due_of x t → backlog_of x t' = backlog_of x t →
  due x (l1 ++ t' :: l2) = due x (l1 ++ t :: l2) ∧ backlog x (l1 ++ t' :: l2) = backlog x (l1 ++ t :: l2).
Proof. intros E1 E2. by rewrite !due_mid, !backlog_mid, E1, E2. Qed.

Lemma call_over l1 l2 t x : due_of x t = [] → backlog_of x t = [] →
  due x (l1 ++ l2) = due x (l1 ++ t :: l2) ∧ backlog x (l1 ++ l2) = backlog x (l1 ++ t :: l2).
Proof. intros E1 E2. by rewrite due_mid, backlog_mid, due_app, backlog_app, E1, E2. Qed.

Lemma announce_sim ev sids b l1 l2 h : bus_ok b h → ev ∈ h → sids ≡ₚ targets (e_Topic ev) b →
  spec_step (abs (mkConfig b (l1 ++ TSnapshot ev :: l2) h)) (abs (mkConfig b (l1 ++ TSend ev sids :: l2) h)).
Proof.
  intros Hb Hin Hs. apply (st_announce (abs (mkConfig b (l1 ++ TSnapshot ev :: l2) h)) ev); [done|].
  intros sid. simpl. rewrite !abs_lookup. destruct (b_chans b !! sid) as [s|] eqn:E; constructor.
  pose proof (listens_targets (e_Topic ev) b h sid s Hb E) as Ht. rewrite <- Hs in Ht.
  rewrite andb_true_iff, orb_true_iff, !String.eqb_eq in Ht. rewrite !due_mid, !backlog_mid. simpl.
  eexists. split; [reflexivity|]. simpl. case_bool_decide as Ei.
  - left. destruct (proj1 Ht Ei) as [? ?]. split_and!; [done..|]. simpl. symmetry. apply Permutation_middle.
  - right. split; [|done]. intros H. by apply Ei, Ht.
Qed.

Lemma deliver_sim ev sid sids b l1 l2 h : (∃ topic, open_as b sid topic) → NoDup (sid :: sids) →
  spec_step (abs (mkConfig b (l1 ++ TSend ev (sid :: sids) :: l2) h))
    (abs (mkConfig (send ev sid b) (l1 ++ TSend ev sids :: l2) h)).
Proof.
  intros (topic & s & Hs & _) [Hni _]%list.NoDup_cons.
  rewrite (send_abs ev sid b (l1 ++ TSend ev (sid :: sids) :: l2) _ h s Hs).
  - assert (backlog sid (l1 ++ TSend ev sids :: l2) = backlog sid (l1 ++ TSend ev (sid :: sids) :: l2)) as ->
      by by rewrite !backlog_mid.
    apply (st_deliver (abs (mkConfig b (l1 ++ TSend ev (sid :: sids) :: l2) h)) sid (mkSpecSub (s_topic s)
      (listens b sid s) (s_ch s) (due sid (l1 ++ TSend ev (sid :: sids) :: l2))
      (backlog sid (l1 ++ TSend ev (sid :: sids) :: l2))) ev); [simpl; by rewrite abs_lookup, Hs| |apply push_offered].
    simpl. rewrite !due_mid. simpl. rewrite bool_decide_eq_true_2, bool_decide_eq_false_2 by (done || left).
    simpl. symmetry. apply Permutation_middle.
  - intros x Hne. apply same_calls; [|done]. simpl.
    rewrite (bool_decide_ext (x ∈ sids) (x ∈ sid :: sids)); [done|]. rewrite elem_of_cons. naive_solver.
Qed.

Lemma replay_sim ev evs sid b l1 l2 h : (∃ topic, open_as b sid topic) → sid ∉ omap pusher l1 → sid ∉ omap pusher l2 →
  spec_step (abs (mkConfig b (l1 ++ TPush sid (ev :: evs) :: l2) h))
    (abs (mkConfig (send ev sid b) (l1 ++ TPush sid evs :: l2) h)).
Proof.
  intros (topic & s & Hs & _) H1 H2.
  rewrite (send_abs ev sid b (l1 ++ TPush sid (ev :: evs) :: l2) _ h s Hs).
  - assert (Hb : ∀ l, backlog sid (l1 ++ TPush sid l :: l2) = l).
    { intros l. rewrite backlog_mid, !no_backlog by done. simpl. by rewrite bool_decide_eq_true_2, app_nil_r by done. }
    rewrite (Hb evs). rewrite !due_mid.
    apply (st_replay (abs (mkConfig b (l1 ++ TPush sid (ev :: evs) :: l2) h)) sid
      (mkSpecSub (s_topic s) (listens b sid s) (s_ch s) (due sid l1 ++ due sid l2) (ev :: evs)) ev);
      [|done|apply push_offered].
    simpl. by rewrite abs_lookup, Hs, (Hb (ev :: evs)), due_mid.
  - intros x Hne. apply same_calls; [done|]. simpl. by rewrite bool_decide_eq_false_2 by congruence.
Qed.

Lemma subscribe_sim sid topic last b l1 l2 h : bus_ok b h → Forall (thread_ok b h) (l1 ++ l2) → b_chans b !! sid = None →
  spec_step (abs (mkConfig b (l1 ++ TSubscribe topic last :: l2) h))
    (abs (mkConfig (open_chan sid (norm_topic topic) b)
       (l1 ++ TRegister sid (norm_topic topic) (replay (norm_topic topic) last b) :: l2) h)).
Proof.
  intros Hb Hf Hn. set (evs := replay _ _ _). set (a := abs _).
  assert (Hno : due sid (l1 ++ l2) = [] ∧ backlog sid (l1 ++ l2) = []) by by apply (nothing_due sid b h).
  rewrite due_app, backlog_app in Hno. destruct Hno as [[D1 D2]%app_eq_nil [B1 B2]%app_eq_nil].
  assert (Hl : ∀ topic, ¬ open_as b sid topic) by (intros ? (s & Hs & _); congruence).
  rewrite (abs_with b _ (l1 ++ TSubscribe topic last :: l2) _ h sid (mkSpecSub (norm_topic topic) false [] [] evs)); [|done..| |].
  - apply (st_subscribe a sid topic last); [simpl; by rewrite abs_lookup, Hn|apply replay_selects].
  - rewrite abs_lookup. simpl. rewrite lookup_insert_eq. simpl. rewrite due_mid, backlog_mid, D1, D2, B1, B2. simpl.
    rewrite bool_decide_eq_true_2, app_nil_r by done. do 2 f_equal. unfold listens. simpl.
    destruct (norm_topic topic =s "*"); apply bool_decide_eq_false_2; intros Hx.
    + by apply (Hl "*"), (bo_wild b h Hb).
    + destruct (b_subs b !! norm_topic topic) as [set|] eqn:E; simpl in Hx; [|by apply not_elem_of_empty in Hx].
      by apply (Hl (norm_topic topic)), (bo_subs b h Hb _ _ _ E).
  - intros x Hne. rewrite !abs_lookup. simpl. rewrite lookup_insert_ne by done.
    destruct (same_calls l1 l2 (TSubscribe topic last) (TRegister sid (norm_topic topic) evs) x) as [-> ->]; [done| |done].
    simpl. by rewrite bool_decide_eq_false_2 by congruence.
Qed.

Lemma listen_sim sid topic evs b l1 l2 h : open_as b sid topic →
  spec_step (abs (mkConfig b (l1 ++ TRegister sid topic evs :: l2) h))
    (abs (mkConfig (register sid topic b) (l1 ++ TPush sid evs :: l2) h)).
Proof.
  intros (s & Hs & Et). set (a := abs _). assert (Hc : b_chans (register sid topic b) = b_chans b).
  { unfold register. by destruct (_ =s _). }
  assert (Hx : ∀ x, due x (l1 ++ TPush sid evs :: l2) = due x (l1 ++ TRegister sid topic evs :: l2) ∧
    backlog x (l1 ++ TPush sid evs :: l2) = backlog x (l1 ++ TRegister sid topic evs :: l2)) by (intros x; by apply same_calls).
  rewrite (abs_with b _ (l1 ++ TRegister sid topic evs :: l2) _ h sid (mkSpecSub (s_topic s) true (s_ch s)
    (due sid (l1 ++ TRegister sid topic evs :: l2)) (backlog sid (l1 ++ TRegister sid topic evs :: l2)))).
  - apply (st_listen a sid (mkSpecSub (s_topic s) (listens b sid s) (s_ch s)
      (due sid (l1 ++ TRegister sid topic evs :: l2)) (backlog sid (l1 ++ TRegister sid topic evs :: l2)))).
    simpl. by rewrite abs_lookup, Hs.
  - unfold register. by destruct (_ =s _).
  - unfold register. by destruct (_ =s _).
  - unfold register. by destruct (_ =s _).
  - destruct (Hx sid) as [E1 E2]. rewrite abs_lookup, Hc, Hs, E1, E2. simpl.
    by rewrite listens_register, bool_decide_eq_true_2.
  - intros x Hne. destruct (Hx x) as [E1 E2]. rewrite !abs_lookup, Hc, E1, E2. destruct (b_chans b !! x); [|done]. simpl.
    by rewrite listens_register, bool_decide_eq_false_2 by by intros [? _].
Qed.

Lemma close_sim sid s b l1 l2 h : b_chans b !! sid = Some s →
  spec_step (abs (mkConfig b (l1 ++ TUnsubscribe sid :: l2) h)) (abs (mkConfig (unregister sid (s_topic s) b) (l1 ++ l2) h)).
Proof.
  intros Hs. set (a := abs _). assert (Hr : b_chans (unregister sid (s_topic s) b) = b_chans b ∧
    b_buf (unregister sid (s_topic s) b) = b_buf b ∧ b_bufCap (unregister sid (s_topic s) b) = b_bufCap b ∧
    b_retention (unregister sid (s_topic s) b) = b_retention b) by (unfold unregister; repeat case_match; done).
  destruct Hr as (Hc & ? & ? & ?).
  assert (Hx : ∀ x, due x (l1 ++ l2) = due x (l1 ++ TUnsubscribe sid :: l2) ∧
    backlog x (l1 ++ l2) = backlog x (l1 ++ TUnsubscribe sid :: l2)) by (intros x; by apply call_over).
  rewrite (abs_with b _ (l1 ++ TUnsubscribe sid :: l2) _ h sid (mkSpecSub (s_topic s) false (s_ch s)
    (due sid (l1 ++ TUnsubscribe sid :: l2)) (backlog sid (l1 ++ TUnsubscribe sid :: l2)))); [|done..| |].
  - apply (st_close a sid (mkSpecSub (s_topic s) (listens b sid s) (s_ch s)
      (due sid (l1 ++ TUnsubscribe sid :: l2)) (backlog sid (l1 ++ TUnsubscribe sid :: l2)))).
    simpl. by rewrite abs_lookup, Hs.
  - destruct (Hx sid) as [E1 E2]. rewrite abs_lookup, Hc, Hs, E1, E2. simpl.
    by rewrite listens_unregister, bool_decide_eq_true_2, andb_false_r.
  - intros x Hne. destruct (Hx x) as [E1 E2]. rewrite !abs_lookup, Hc, E1, E2. destruct (b_chans b !! x); [|done]. simpl.
    by rewrite listens_unregister, bool_decide_eq_false_2, andb_true_r by by intros [? _].
Qed.

(** One section of a call is one step of the promise, or none. *)
Lemma section_sim b t b' (o : option thread) new l1 l2 h : bus_ok b h → Forall (thread_ok b h) (l1 ++ t :: l2) →
  calls_ok (mkConfig b (l1 ++ t :: l2) h) → section b t b' o new →
  let a := abs (mkConfig b (l1 ++ t :: l2) h) in let a' := abs (mkConfig b' (l1 ++ rest_of o ++ l2) (h ++ new)) in
  a' = a ∨ spec_step a a'.
Proof.
  intros Hb Hf [Hsend Hpush] Hs. simpl in Hsend, Hpush. pose proof Hf as [Hf1 [Ht Hf2]%Forall_cons]%Forall_app.
  apply Forall_app in Hsend as [_ [Hsend _]%Forall_cons]. rewrite omap_app in Hpush.
  destruct Hs; cbn [rest_of app]; rewrite ?app_nil_r; simpl in Ht, Hsend.
  - right. eapply (eq_ind _ (spec_step _)); [apply (st_publish _ ms ev); simpl; by rewrite (bo_seq b h Hb)|].
    unfold abs. simpl. f_equal. symmetry. apply abs_subs_same; [done..|]. intros x. by apply same_calls.
  - right. destruct (append_spec now ev b (proj1 (bo_cap b h Hb))) as (k & E & _).
    eapply (eq_ind _ (spec_step _)); [apply (st_hold _ now ev); [exact Ht|apply append_retained, (bo_cap b h Hb)]|].
    unfold abs. rewrite E. simpl. f_equal. symmetry. apply abs_subs_same; [done..|]. intros x. by apply same_calls.
  - right. by apply announce_sim.
  - right. apply deliver_sim; [|done]. destruct Ht as [_ Ht]. destruct (Ht sid) as (tp & ? & _); [left|by exists tp].
  - left. unfold abs. simpl. f_equal. apply abs_subs_same; [done..|]. intros x. by apply call_over.
  - right. apply subscribe_sim; [done|by apply Forall_app|done].
  - right. apply listen_sim, (proj1 Ht).
  - right. simpl in Hpush. apply list.NoDup_app in Hpush as (_ & Hd & [H2 _]%list.NoDup_cons).
    apply replay_sim; [destruct Ht as (tp & ? & _); by exists tp| |done]. intros H1. apply (Hd sid H1). left.
  - left. unfold abs. simpl. f_equal. apply abs_subs_same; [done..|]. intros x. apply call_over; [done|].
    simpl. by case_bool_decide.
  - right. by apply close_sim.
  - left. unfold abs. simpl. f_equal. apply abs_subs_same; [done..|]. intros x. by apply call_over.
Qed.

Lemma receive_sim sid s ev ch b ts h : b_chans b !! sid = Some s → s_ch s = ev :: ch →
  spec_step (abs (mkConfig b ts h)) (abs (mkConfig (set_chans <[sid := mkSub (s_topic s) ch]> b) ts h)).
Proof.
  intros Hs Hch. rewrite (abs_with b (set_chans <[sid := mkSub (s_topic s) ch]> b) ts ts h sid (mkSpecSub (s_topic s) (listens b sid s) ch (due sid ts) (backlog sid ts))); [|done..| |].
  - apply (st_receive (abs (mkConfig b ts h)) sid (mkSpecSub (s_topic s) (listens b sid s) (s_ch s) (due sid ts) (backlog sid ts)) ev);
      [simpl; by rewrite abs_lookup, Hs|done].
  - rewrite abs_lookup. simpl. by rewrite lookup_insert_eq.
  - intros x Hne. rewrite !abs_lookup. simpl. by rewrite lookup_insert_ne.
Qed.

(** Pushers are the calls whose subscription was opened for them. *)
Lemma pushers_open b h ts sid : Forall (thread_ok b h) ts → sid ∈ omap pusher ts → b_chans b !! sid ≠ None.
Proof.
  intros Hf (t & Ht & E)%list_elem_of_omap. rewrite list.Forall_forall in Hf. specialize (Hf t Ht).
  destruct t; simplify_eq/=; [destruct Hf as [(s & -> & _) _]|destruct Hf as (tp & (s & -> & _) & _)]; done.
Qed.

Lemma section_calls b t b' (o : option thread) new h : bus_ok b h → sends_once t → section b t b' o new →
  Forall sends_once (rest_of o) ∧
  (omap pusher (rest_of o) ⊆ omap pusher [t] ∨ ∃ sid, omap pusher (rest_of o) = [sid] ∧ b_chans b !! sid = None).
Proof.
  intros Hb Ht Hs. destruct Hs; simpl in *; (split; [repeat constructor|]); try (left; set_solver).
  - simpl. rewrite H. by eapply targets_nodup.
  - by apply list.NoDup_cons in Ht as [_ ?].
  - right. by exists sid.
Qed.

Lemma nodup_swap {A} (l1 m m' l2 : list A) : NoDup (l1 ++ m ++ l2) → NoDup m' → (∀ x, x ∈ m' → x ∉ l1 ++ l2) → NoDup (l1 ++ m' ++ l2).
Proof.
  intros Hn Hm Hx. rewrite (Permutation_app_comm l1), <- app_assoc in Hn. apply list.NoDup_app in Hn as (_ & _ & Hn).
  rewrite (Permutation_app_comm l1), <- app_assoc. apply list.NoDup_app. split_and!; [done| |done].
  intros x Hin Hin'. apply (Hx x Hin). set_solver.
Qed.

Lemma step_calls c c' : config_ok c → calls_ok c → step c c' → calls_ok c'.
Proof.
  intros [Hb Hf _] [Hs Hp] Hst. destruct Hst as [t b ts h Hcall|b t b' o new l1 l2 h Hsec|sid s ev ch b ts h _ _]; simpl in *.
  - split; simpl.
    + apply Forall_app. split; [done|]. constructor; [by destruct t|constructor].
    + rewrite omap_app. destruct t; try discriminate Hcall; simpl; by rewrite app_nil_r.
  - apply Forall_app in Hs as [Hs1 [Ht Hs2]%Forall_cons].
    destruct (section_calls _ _ _ _ _ h Hb Ht Hsec) as [Hr Hpr]. split; simpl.
    + by apply Forall_app; split; [|apply Forall_app].
    + rewrite !omap_app. change (t :: l2) with ([t] ++ l2) in Hp. rewrite !omap_app in Hp.
      apply (nodup_swap _ (omap pusher [t])); [done| |].
      * destruct o as [[]|]; simpl; repeat constructor; set_solver.
      * rewrite (Permutation_app_comm (omap pusher l1)), <- app_assoc in Hp. apply list.NoDup_app in Hp as (_ & Hd & _).
        apply Forall_app in Hf as [Hf1 [_ Hf2]%Forall_cons]. intros x Hx Hin. destruct Hpr as [Hsub|(sid & E & Hnone)].
        -- apply (Hd x (Hsub x Hx)). set_solver.
        -- rewrite E in Hx. apply list_elem_of_singleton in Hx as ->.
           apply elem_of_app in Hin as [Hin|Hin]; by eapply pushers_open in Hin.
  - by split.
Qed.

Lemma reachable_calls cap ret c : reachable cap ret c → calls_ok c.
Proof.
  induction 1 as [|c c' Hr IH Hst]; [split; constructor|]. eapply step_calls; [|exact IH|exact Hst]. by eapply reachable_ok.
Qed.

Lemma step_sim c c' : config_ok c → calls_ok c → step c c' → abs c' = abs c ∨ spec_step (abs c) (abs c').
Proof.
  intros [Hb Hf _] Hc Hst. destruct Hst as [t b ts h Hcall|b t b' o new l1 l2 h Hsec|sid s ev ch b ts h Hs Hch]; simpl in *.
  - left. unfold abs. simpl. f_equal. apply abs_subs_same; [done..|]. intros x. rewrite due_app, backlog_app.
    destruct t; try discriminate Hcall; simpl; by rewrite !app_nil_r.
  - by eapply section_sim.
  - right. by eapply receive_sim.
Qed.

(** C12: The bus with its interleaved critical sections refines what it
    promises.  Whatever its configuration and the next step of any publisher,
    subscriber, replaying goroutine or reader, that step is seen from outside
    as one step of the promise or as none: an event is logged with the next id;
    it is held for replay, the expired and the excess ones going first; it
    falls due to the live subscriptions of its topic and of the wildcard and to
    no other; a due event arrives last in the queue, or is lost when 64 are
    waiting; a subscription starts with the held events its filter covers that
    come after the given id, as the backlog its goroutine offers one by one,
    before, after or between live ones; reads take the oldest event.  So what
    subscribers are seen to get is always something the promise allows. *)
Theorem bus_refines cap ret c : reachable cap ret c →
  rtc spec_step (abs (mkConfig (New cap ret) [] [])) (abs c) ∧
  ∀ c', step c c' → abs c' = abs c ∨ spec_step (abs c) (abs c').
Proof.
  intros Hr. split; [|intros c'; apply step_sim; [by eapply reachable_ok|by eapply reachable_calls]].
  induction Hr as [|c c' Hr IH Hst]; [done|].
  destruct (step_sim c c') as [->|H]; [by eapply reachable_ok|by eapply reachable_calls|done|done|].
  by eapply rtc_r.
Qed.

(** ** Resuming after a reconnection *)

(** Calls one after the other, with the clock of each publication; the
    goroutine that pushes a replay sends at any point in between. *)
Definition Unsubscribe sid b : Bus :=
  match b_chans b !! sid with Some s => unregister sid (s_topic s) b | None => b end.
Definition Receive sid b : Bus :=
  match b_chans b !! sid with
  | Some s => set_chans <[sid := mkSub (s_topic s) (tail (s_ch s))]> b
  | None => b
  end.

Inductive bus_call :=
  | CPublish (ms ts now : Z) (topic eventType : string) (payload : option P)
  | CSubscribe (topic lastEventID : string)
  | CPush (sid : nat) (ev : Event)
  | CUnsubscribe (sid : nat)
  | CReceive (sid : nat).

Definition do_call b (c : bus_call) : Bus :=
  match c with
  | CPublish ms ts now topic ty p => (Publish ms ts now topic ty p b).1
  | CSubscribe topic last => (Subscribe (fresh (dom (b_chans b))) topic last b).1
  | CPush sid ev => send ev sid b
  | CUnsubscribe sid => Unsubscribe sid b
  | CReceive sid => Receive sid b
  end.
Definition clock_of (c : bus_call) : option Z := match c with CPublish ms _ _ _ _ _ => Some ms | _ => None end.

(** Milliseconds of thirteen digits: from 2001 to 2286. *)
Definition ms_ok (ms : Z) : Prop := (0 <= ms < 10 ^ 20)%Z ∧ String.length (Itoa ms) = 13.

(** Keys of the buffered events, in the order of the buffer. *)
Definition earlier (k k' : Z * Z) : Prop := (k.1 <= k'.1)%Z ∧ (k.2 < k'.2)%Z.
Definition key_ok (ms seq : Z) (k : Z * Z) : Prop := ms_ok k.1 ∧ (k.1 <= ms)%Z ∧ (0 <= k.2 <= seq)%Z.
Definition keyed (ms : Z) b : Prop := ∃ ks : list (Z * Z),
  Forall2 (λ k ev, e_ID ev = event_id k.1 k.2) ks (b_buf b) ∧ StronglySorted earlier ks ∧ Forall (key_ok ms (b_seq b)) ks.

Lemma send_list_buf ev sids b : b_buf (foldl (λ b sid, send ev sid b) b sids) = b_buf b ∧
  b_seq (foldl (λ b sid, send ev sid b) b sids) = b_seq b.
Proof.
  revert b. induction sids as [|sid sids IH]; intros b; [done|]. simpl. destruct (IH (send ev sid b)) as [-> ->].
  by destruct (send_rest ev sid b) as (_ & _ & ? & ? & _).
Qed.

Lemma keyed_same ms b b' : b_buf b' = b_buf b → b_seq b' = b_seq b → keyed ms b → keyed ms b'.
Proof. intros E1 E2 (ks & H). exists ks. by rewrite E1, E2. Qed.

Lemma other_call_buf b c : clock_of c = None →
  b_buf (do_call b c) = b_buf b ∧ b_seq (do_call b c) = b_seq b ∧ b_bufCap (do_call b c) = b_bufCap b.
Proof.
  destruct c as [|topic last|sid ev|sid|sid]; intros Hc; [done| | | |]; simpl.
  - unfold Subscribe. cbn [fst]. unfold register. by destruct (_ =s _).
  - by destruct (send_rest ev sid b) as (_ & _ & ? & ? & ? & _).
  - unfold Unsubscribe, unregister. repeat case_match; done.
  - unfold Receive. by case_match.
Qed.

Lemma publish_buf ms ts now topic ty p b : (0 < b_bufCap b)%Z → ∃ k,
  b_buf (Publish ms ts now topic ty p b).1
    = drop k (b_buf b) ++ [mkEvent (event_id ms (b_seq b + 1)) topic ty p ts] ∧
  b_seq (Publish ms ts now topic ty p b).1 = (b_seq b + 1)%Z ∧ b_bufCap (Publish ms ts now topic ty p b).1 = b_bufCap b.
Proof.
  intros Hc. unfold Publish. simpl. set (ev := mkEvent _ _ _ _ _).
  destruct (append_spec now ev (nextID ms b).1 Hc) as (k & E & _). exists k. unfold nextID in E. simpl in E. rewrite E.
  set (b1 := set_buf _ _). destruct (send_list_buf ev (targets topic b1) b1) as [-> ->]. split; [done|]. split; [done|].
  clear E. assert (b_bufCap b = b_bufCap b1) as -> by done. generalize (targets topic b1) as sids. intros sids.
  clearbody b1. revert b1. induction sids as [|sid sids IH]; intros b1; [done|]. simpl. rewrite IH.
  by destruct (send_rest ev sid b1) as (_ & _ & _ & _ & ? & _).
Qed.

Lemma keyed_publish ms0 ms ts now topic ty p b : (0 < b_bufCap b)%Z → (0 <= b_seq b)%Z →
  ms_ok ms → (ms0 <= ms)%Z → keyed ms0 b → keyed ms (Publish ms ts now topic ty p b).1.
Proof.
  intros Hc Hs Hms Hle (ks & H2 & Hsort & Hk). destruct (publish_buf ms ts now topic ty p b Hc) as (k & Eb & Eq & _).
  exists (drop k ks ++ [(ms, (b_seq b + 1)%Z)]). rewrite Eb, Eq.
  assert (Hk' : Forall (key_ok ms0 (b_seq b)) (drop k ks)) by by apply Forall_drop.
  split; [|split].
  - apply Forall2_app; [by apply Forall2_drop|]. by constructor.
  - assert (Hd : StronglySorted earlier (drop k ks)).
    { clear -Hsort. revert k. induction Hsort as [|x l Hl IH Hx]; intros [|k]; try constructor; try done. apply IH. }
    clear -Hd Hk' Hle. induction Hd as [|x l Hl IH Hx]; [repeat constructor|]. simpl.
    apply Forall_cons in Hk' as [Hkx Hk']. constructor; [by apply IH|].
    apply Forall_app. split; [done|]. constructor; [|constructor]. unfold earlier. simpl.
    destruct Hkx as (_ & ? & ?). lia.
  - apply Forall_app. split; [|constructor; [|constructor]].
    + eapply Forall_impl; [exact Hk'|]. intros x (? & ? & ?). split; [done|]. lia.
    + split; [exact Hms|]. simpl. lia.
Qed.

(** The order of the keys is the order of the ids, for ids of one length. *)
Lemma id_order k k' : ms_ok k.1 → ms_ok k'.1 → (0 <= k.2)%Z → (k'.2 < 10 ^ 20)%Z → earlier k k' →
  String.length (event_id k.1 k.2) = String.length (event_id k'.1 k'.2) →
  String.compare (event_id k.1 k.2) (event_id k'.1 k'.2) = Lt.
Proof.
  intros [Hm Hl] [Hm' Hl'] H0 Hw [H1 H2] Hlen. unfold event_id.
  destruct (Z.eq_dec k.1 k'.1) as [->|Hne].
  - rewrite !compare_common. rewrite <- (string_app_nil (Itoa k.2)), <- (string_app_nil (Itoa k'.2)).
    destruct (Itoa_spec k.2) as [F1 N1]; [lia|]. destruct (Itoa_spec k'.2) as [F2 N2]; [lia|].
    apply digits_compare; [done|done| |lia]. unfold event_id in Hlen. rewrite !string_app_length in Hlen. lia.
  - destruct (Itoa_spec k.1 Hm) as [F1 N1], (Itoa_spec k'.1 Hm') as [F2 N2].
    apply digits_compare; [done|done|congruence|lia].
Qed.

(** Clocks that do not run backwards. *)
Fixpoint paced (ms : Z) (l : list Z) : Prop :=
  match l with [] => True | x :: l => (ms <= x)%Z ∧ ms_ok x ∧ paced x l end.

Lemma run_keyed l : ∀ ms b, (0 < b_bufCap b)%Z → (0 <= b_seq b)%Z → keyed ms b → paced ms (omap clock_of l) →
  (∃ ms', keyed ms' (foldl do_call b l)) ∧ (b_seq (foldl do_call b l) <= b_seq b + Z.of_nat (length l))%Z.
Proof.
  induction l as [|c l IH]; intros ms b Hc Hs Hk Hp; [split; [by exists ms|simpl; lia]|].
  simpl foldl. cbn [omap list_omap] in Hp. destruct (clock_of c) as [ms'|] eqn:E.
  - destruct c as [m ts now topic ty p| | | |]; try discriminate E. injection E as <-. destruct Hp as (Hle & Hok & Hp).
    destruct (publish_buf m ts now topic ty p b Hc) as (_ & _ & Eq & Ecap).
    pose proof (keyed_publish ms m ts now topic ty p b Hc Hs Hok Hle Hk) as Hk1. cbn [do_call].
    set (b1 := (Publish m ts now topic ty p b).1) in *. clearbody b1.
    destruct (IH m b1) as [Hk' Hs']; [lia|lia|done..|]. split; [done|]. simpl length. lia.
  - destruct (other_call_buf b c E) as (E1 & E2 & E3).
    destruct (IH ms (do_call b c)) as [Hk' Hs']; rewrite ?E2, ?E3; try done; [by apply (keyed_same ms b)|].
    split; [done|]. rewrite E2 in Hs'. simpl length. lia.
Qed.

Lemma sorted_split {A} (R : A → A → Prop) l1 x l2 : StronglySorted R (l1 ++ x :: l2) →
  (∀ y, y ∈ l1 → R y x) ∧ (∀ y, y ∈ l2 → R x y).
Proof.
  induction l1 as [|a l1 IH]; simpl; intros Hs; inversion Hs as [|? ? Hs' Hf]; subst; rewrite list.Forall_forall in Hf.
  - split; [by intros ? ?%not_elem_of_nil|done].
  - destruct (IH Hs') as [H1 H2]. split; [|done]. intros y [->|Hy]%elem_of_cons; [|auto].
    apply Hf, elem_of_app. right. left.
Qed.

Lemma Forall2_elem_r {A B} (R : A → B → Prop) l k y : Forall2 R l k → y ∈ k → ∃ x, x ∈ l ∧ R x y.
Proof. intros H [i Hi]%list_elem_of_lookup. destruct (Forall2_lookup_r _ _ _ _ _ H Hi) as (x & Hx & ?).
  exists x. split; [by eapply list_elem_of_lookup_2|done]. Qed.

(** A client that reconnects with the id of an event that is still
    buffered is replayed exactly the events after it, in order, that match its
    topic: after any history of calls on clocks that do not run backwards, as
    long as the ids in the buffer have one length. *)
Theorem replay_resumes cap ret (l : list bus_call) (topic : string) l1 ev l2 :
  let b := foldl do_call (New cap ret) l in
  paced 0 (omap clock_of l) → (Z.of_nat (length l) < 2 ^ 63)%Z →
  b_buf b = l1 ++ ev :: l2 → (∀ x, x ∈ b_buf b → String.length (e_ID x) = String.length (e_ID ev)) →
  replay topic (e_ID ev) b = List.filter (λ x, topicMatches topic (e_Topic x)) l2.
Proof.
  intros b Hp Hlen Hb Hw.
  destruct (run_keyed l 0 (New cap ret)) as [[ms (ks & H2 & Hsort & Hk)] Hseq].
  { simpl. destruct (cap <=? 0)%Z eqn:E; bool_simp; lia. }
  { done. }
  { exists []. split_and!; constructor. }
  { done. }
  fold b in H2, Hk, Hseq. simpl in Hseq. rewrite Hb in H2, Hw. apply Forall2_app_inv_r in H2 as (k1 & k2' & H1 & H2 & ->).
  apply Forall2_cons_inv_r in H2 as (k & k2 & Eid & H2 & ->).
  destruct (sorted_split _ _ _ _ Hsort) as [He1 He2]. rewrite list.Forall_forall in Hk.
  assert (Hkk : key_ok ms (b_seq b) k) by (apply Hk, elem_of_app; right; left).
  assert (Hne : (e_ID ev =s "") = false).
  { apply String.eqb_neq. rewrite Eid. intros E. apply (f_equal String.length) in E. unfold event_id in E.
    rewrite !string_app_length in E. simpl in E. lia. }
  unfold replay. rewrite Hb, Hne. simpl negb. rewrite List.filter_app. simpl List.filter.
  assert (String.leb (e_ID ev) (e_ID ev) = true) as ->.
  { unfold String.leb. by rewrite string_compare_refl. }
  simpl. transitivity ([] ++ List.filter (λ x, topicMatches topic (e_Topic x)) l2); [|done]. f_equal.
  - apply filter_nothing. intros x Hx. destruct (Forall2_elem_r _ _ _ _ H1 Hx) as (kx & Hkx & Ex).
    assert (Hkkx : key_ok ms (b_seq b) kx) by (apply Hk, elem_of_app; by left).
    destruct (leb_lt (e_ID x) (e_ID ev)) as [-> _]; [|done]. rewrite Ex, Eid.
    destruct Hkk as (? & ? & ?), Hkkx as (? & ? & ?). apply id_order; [done|done|lia|lia|by apply He1|].
    rewrite <- Ex, <- Eid. apply Hw, elem_of_app. by left.
  - apply filter_same. intros x Hx. destruct (Forall2_elem_r _ _ _ _ H2 Hx) as (kx & Hkx & Ex).
    assert (Hkkx : key_ok ms (b_seq b) kx) by (apply Hk, elem_of_app; right; by right).
    destruct (leb_lt (e_ID ev) (e_ID x)) as [_ ->]; [|done]. rewrite Ex, Eid.
    destruct Hkk as (? & ? & ?), Hkkx as (? & ? & ?). apply id_order; [done|done|lia|lia|by apply He2|].
    rewrite <- Ex, <- Eid. symmetry. apply Hw, elem_of_app. right. by right.
Qed.
End Bus.
Arguments Event : clear implicits. Arguments subscription : clear implicits. Arguments Bus : clear implicits.
Arguments thread : clear implicits. Arguments Config : clear implicits.

(** ** Examples *)

Definition ex_calls : list (bus_call (P := Z)) :=
  [CPublish 1700000000000 0 0 "deploy.1" "started" None; CSubscribe "deploy.1" "none"; CReceive 0;
   CPublish 1700000000000 1 1 "deploy.1" "log" (Some 7%Z); CPublish 1700000000001 2 2 "app.2" "status" None;
   CPublish 1700000000002 3 3 "deploy.1" "success" None].

Lemma ms_ok_dec ms : ((0 <=? ms)%Z && (ms <? 10 ^ 20)%Z && (String.length (Itoa ms) =? 13)%nat) = true → ms_ok ms.
Proof. rewrite !andb_true_iff, Z.leb_le, Z.ltb_lt, Nat.eqb_eq. intros [[? ?] ?]. by split. Qed.

Lemma ex_paced : paced 0 (omap clock_of ex_calls).
Proof. cbn [ex_calls omap list_omap clock_of paced]. split_and!; try lia; try exact I; apply ms_ok_dec; vm_compute; reflexivity. Qed.

Lemma replay_resumes_witness :
  let b := foldl do_call (New 3 0) ex_calls in
  (e_ID <$> b_buf b) = ["1700000000000-2"; "1700000000001-3"; "1700000000002-4"] ∧
  (e_Type <$> replay "deploy.*" "1700000000000-2" b) = ["success"].
Proof.
  intros b. split; [vm_compute; reflexivity|].
  pose (ev := mkEvent "1700000000000-2" "deploy.1" "log" (Some 7%Z) 1).
  pose (later := [mkEvent (P := Z) "1700000000001-3" "app.2" "status" None 2;
                  mkEvent "1700000000002-4" "deploy.1" "success" None 3]).
  assert (Hb : b_buf b = [] ++ ev :: later) by (vm_compute; reflexivity).
  assert (H : replay "deploy.*" (e_ID ev) b = List.filter (λ x, topicMatches "deploy.*" (e_Topic x)) later).
  { apply (replay_resumes 3 0 ex_calls "deploy.*" [] ev later).
    - exact ex_paced.
    - vm_compute. reflexivity.
    - exact Hb.
    - fold b. rewrite Hb. apply list.Forall_forall. clear. repeat constructor. }
  change "1700000000000-2" with (e_ID ev). rewrite H. reflexivity.
Defined.

(** A publisher between its id and its snapshot. *)
Definition ex_event : Event Z := mkEvent "1-1" "deploy.1" "started" None 0.
Definition ex_config : Config Z :=
  mkConfig (bufferAppend 0 ex_event (nextID 1 (New 3 0)).1) [TSnapshot ex_event] [ex_event].

Lemma ex_reachable : reachable 3 0 ex_config.
Proof.
  pose (t := TPublish (P := Z) "deploy.1" "started" None). pose (b1 := (nextID 1 (New (P := Z) 3 0)).1).
  assert (H1 : reachable 3 0 (mkConfig (New 3 0) [t] [])).
  { eapply reach_step; [apply reach_new|]. by apply (step_call t). }
  assert (H2 : reachable 3 0 (mkConfig b1 [TAppend ex_event] [ex_event])).
  { eapply reach_step; [exact H1|]. apply (step_section _ t b1 (Some (TAppend ex_event)) [ex_event] [] [] []).
    apply (sec_id 1 0). }
  eapply reach_step; [exact H2|].
  apply (step_section b1 (TAppend ex_event) _ (Some (TSnapshot ex_event)) [] [] [] [ex_event]). apply (sec_append 0).
Qed.

Lemma bus_safe_witness : reachable 3 0 ex_config ∧ length (b_buf (g_bus ex_config)) = 1 ∧ NoDup (e_ID <$> b_buf (g_bus ex_config)).
Proof.
  split; [exact ex_reachable|]. split; [reflexivity|].
  destruct (bus_safe 3 0 _ _ _ ex_reachable) as (_ & _ & H & _). apply H. reflexivity.
Defined.

(** The publisher takes its snapshot: nobody listens, so nothing is due. *)
Lemma bus_refines_witness :
  let c' := mkConfig (g_bus ex_config) [TSend ex_event []] [ex_event] in
  reachable 3 0 ex_config ∧ step ex_config c' ∧ sp_held (abs ex_config) = [ex_event] ∧
  rtc spec_step (mkSpec ∅ [] [] 3 (30 * 10 ^ 9)) (abs ex_config) ∧
  (abs c' = abs ex_config ∨ spec_step (abs ex_config) (abs c')).
Proof.
  intros c'. destruct (bus_refines 3 0 ex_config ex_reachable) as [Hr Hs].
  assert (Hst : step ex_config c').
  { apply (step_section _ (TSnapshot ex_event) _ (Some (TSend ex_event [])) [] [] [] [ex_event]).
    apply sec_snapshot. reflexivity. }
  split; [exact ex_reachable|]. split; [exact Hst|]. split; [reflexivity|]. split; [exact Hr|exact (Hs c' Hst)].
Defined.

(** ** Where the code and its comments differ *)

Definition ev_n (n : Z) : Event Z := mkEvent (event_id 1 n) "deploy.1" "log" None n.

(** An empty [lastEventID] replays the whole buffer. *)
Lemma empty_id_replays_all (b : Bus Z) : replay "*" "" b = b_buf b.
Proof. unfold replay. simpl. induction (b_buf b) as [|ev l IH]; simpl; [done|by rewrite IH]. Qed.

(** A filter with a prefix matches on replay and gets no live event. *)
Lemma prefix_topic_not_live :
  topicMatches "deploy.*" "deploy.1" = true ∧
  s_ch <$> (b_chans (Publish 1 0 0 "deploy.1" "log" None (Subscribe 0 "deploy.*" "none" (New (P := Z) 3 0)).1).1 !! 0) = Some [].
Proof. split; vm_compute; reflexivity. Qed.

(** The tenth event of a millisecond is before the ninth one as a string. *)
Lemma replay_skips_tenth :
  replay "*" (event_id 1 9) (bufferAppend 0 (ev_n 10) (bufferAppend 0 (ev_n 9) (New 1000 0))) = [].
Proof. vm_compute. reflexivity. Qed.

Lemma reach_section cap ret b t l1 l2 h b' t' new : reachable cap ret (mkConfig b (l1 ++ t :: l2) h) →
  section (P := Z) b t b' t' new → reachable cap ret (mkConfig b' (l1 ++ rest_of t' ++ l2) (h ++ new)).
Proof. intros Hr Hs. eapply reach_step; [exact Hr|by apply step_section]. Qed.

(** An event that is buffered when a subscriber reads the replay, and sent
    when it is registered, arrives twice. *)
Lemma event_arrives_twice :
  ∃ c : Config Z, reachable 3 0 c ∧ s_ch <$> (b_chans (g_bus c) !! 0) = Some [ex_event; ex_event].
Proof.
  pose proof ex_reachable as H. eapply reach_step in H; [|by apply (step_call (TSubscribe "deploy.1" ""))].
  unfold ex_config in H. set (b0 := bufferAppend _ _ _) in H.
  eapply reach_section with (l1 := [TSnapshot ex_event]) (l2 := []) in H; [|by apply (sec_replay 0)].
  eapply reach_section with (l1 := [TSnapshot ex_event]) (l2 := []) in H; [|apply sec_register].
  eapply reach_section with (l1 := [TSnapshot ex_event]) (l2 := []) in H; [|apply sec_push].
  eapply reach_section with (l1 := []) in H; [|by apply (sec_snapshot _ _ [0])].
  eapply reach_section with (l1 := []) in H; [|apply sec_send].
  eexists. split; [exact H|]. vm_compute. reflexivity.
Qed.
