(* ===== verification/Terminal.v ===== *)
(** * Terminals, container logs and event streams

    The long-lived requests: internal/api/handler/container_exec.go (a shell in
    a container over a WebSocket), container_logs.go and event.go (logs and
    events as server-sent events).  What opens a stream is a handler over the
    state of [AppsApi]; a running terminal is a step relation over its two pumps,
    the channel they report to and the handler that waits; the writer of log
    lines is a fold over the chunks it is given. *)

From S2P Require Import Prelude Effects GoStrings Decimal Regex Paths Schema Caddy CryptoLib Refresh Challenge Http Rbac Build Apps ApiTokens AppsApi EventBus.
From stdpp Require Import gmap.

Local Abbreviation hM := (M Api Empty_set).

(** ** Opening a terminal *)

(** The headers and the query of the upgrade request. *)
Record upgrade := mkUpgrade { ug_Authorization : string; ug_Protocols : list string; ug_token : string; ug_cmd : string }.

(** What the request turns into: a WebSocket with the shell to run, or a refusal
    in plain text. *)
Inductive Opening :=
  | Unauthorized
  | NotAccepted
  | Terminal (subprotocol : string) (container shell : string).

Section Exec.
Context `{Uc : Unicode} `{CL : CryptoLib}.
(** The secret of the tokens, whether personal tokens are wired, the clock in
    nanoseconds; the instance URL and the mode. *)
Context (jwtSecret : string) (tokens : bool) (now : Z) (devMode : bool) (instanceURL : string).
(** The host of a URL with its port ([url.Parse]); [websocket.Accept]. *)
Context (url_Host : string → option string) (accept : list string → string → bool).
Context (svc : Apps.Service) (servers : string → option (option Docker)).

Definition parseJWTSub (raw : string) : option string :=
  match ParseAccessToken jwtSecret raw (Z.quot now Second) with inl _ => None | inr sub => Some sub end.

(** The first entry [bearer.<token>] of the protocols, and its token. *)
Definition bearer_of (p : string) : option (string * string) :=
  let p := TrimSpace p in
  if HasPrefix p "bearer." && negb (TrimPrefix p "bearer." =s "") then Some (p, TrimPrefix p "bearer.") else None.
Definition subprotocol (values : list string) : option (string * string) :=
  head (omap bearer_of (concat ((λ v, Split v ",") <$> values))).

(** The user, and the protocol to echo. *)
Definition authenticate (u : upgrade) : hM (option (string * string)) :=
  if HasPrefix (ug_Authorization u) "Bearer " then
    let raw := TrimPrefix (ug_Authorization u) "Bearer " in
    if tokens && HasPrefix raw TokenPrefix then
      r ← db (Authenticate raw now);
      mret match r with inl _ => None | inr userID => Some (userID, "") end
    else mret ((λ sub, (sub, "")) <$> parseJWTSub raw)
  else match subprotocol (ug_Protocols u) with
       | Some (p, tok) => mret ((λ sub, (sub, p)) <$> parseJWTSub tok)
       | None => mret (if ug_token u =s "" then None else (λ sub, (sub, "")) <$> parseJWTSub (ug_token u))
       end.

Definition originPatterns : list string :=
  if devMode then ["localhost"; "localhost:*"; "127.0.0.1"; "127.0.0.1:*"; "[::1]"; "[::1]:*"]
  else if instanceURL =s "" then []
  else match url_Host instanceURL with
       | Some host => if host =s "" then [] else [host]
       | None => []
       end.

Definition execContainerBelongsToApp (cli : Docker) (appID name : string) : bool :=
  match dk_List cli ("prexel.app_id=" ^^ appID) with
  | None => false
  | Some l => List.existsb (λ c, List.existsb (λ n, TrimPrefix n "/" =s name) (ct_Names c)) l
  end.

(** The client of the server of an app, for the streams. *)
Definition stream_client {B} (a : App) : Reply B + Docker :=
  if blank_opt (a_server_id a) then inl (Refuse 400 "no_server")
  else match servers (default "" (a_server_id a)) with
       | Some (Some cli) => inr cli
       | _ => inl (Refuse 502 "provider_unavailable")
       end.

Definition Exec (u : upgrade) (id name : string) : hM (Reply Opening) :=
  who ← authenticate u;
  match who with
  | None => mret (Answer 401 Unauthorized)
  | Some (userID, matched) =>
    let containerName := TrimSpace name in
    if containerName =s "" then mret (Refuse 400 "missing_container_name")
    else with_app svc (Some userID) id PermAppsUpdate (λ a _, mret (
      match stream_client a with
      | inl r => r
      | inr cli =>
        if negb (execContainerBelongsToApp cli (a_id a) containerName) then Refuse 403 "container_not_found"
        else
          let shell := TrimSpace (ug_cmd u) in
          let shell := if shell =s "" then "/bin/sh" else shell in
          if accept originPatterns matched then Answer 101 (Terminal matched containerName shell) else Answer 403 NotAccepted
      end))
  end.
End Exec.

(** ** Logs and events *)

Inductive Opened := LogStream (container : string) (tail : Z) | EventStream (app : option string).

Section Streams.
Context `{Uc : Unicode}.
Context (svc : Apps.Service) (servers : string → option (option Docker)) (logs : Docker → string → bool) (user : option string).

Definition tail_of (v : string) : Z :=
  match Atoi v with Some n => if (0 <? n)%Z then n else 100%Z | None => 100%Z end.

Definition containerBelongsToApp (cli : Docker) (appID name : string) : bool := execContainerBelongsToApp cli appID name.

(** [id] is the path parameter: a name as well as an id. *)
Definition Stream (id name tail : string) : hM (Reply Opened) :=
  let containerName := TrimSpace name in
  if containerName =s "" then mret (Refuse 400 "missing_container_name")
  else with_app svc user id PermAppsView (λ a _, mret (
    match stream_client servers a with
    | inl r => r
    | inr cli =>
      if negb (containerBelongsToApp cli id containerName) then Refuse 403 "forbidden"
      else if logs cli containerName then Answer 200 (LogStream containerName (tail_of tail)) else Refuse 502 "logs_unavailable"
    end)).

(** [GET /apps/{id}/logs] and [/apps/{id}/events]: for every session. *)
Definition Logs (id tail : string) : hM (Reply Opened) :=
  r ← db (Apps.Get svc id);
  mret match r with
  | inl e => appError e
  | inr (a, _) =>
    match a_container_name a, a_server_id a with
    | Some name, Some server =>
      match servers server with
      | None => Refuse 502 "provider_unavailable"
      | Some None => Refuse 502 "logs_unavailable"
      | Some (Some cli) => if logs cli name then Answer 200 (LogStream name (tail_of tail)) else Refuse 502 "logs_unavailable"
      end
    | _, _ => Refuse 400 "no_container"
    end
  end.

Definition AppEvents (id : string) : hM (Reply Opened) :=
  r ← db (Apps.Get svc id);
  mret match r with inl e => appError e | inr (a, _) => Answer 200 (EventStream (Some (a_id a))) end.

Definition Global : hM (Reply Opened) := mret (Answer 200 (EventStream None)).

(** The events a stream passes on; [app_id] reads the field of a payload. *)
Definition matches {P} (app_id : P → option string) (app : option string) (ev : Event P) : bool :=
  match app with
  | None => true
  | Some id =>
    HasPrefix (e_Topic ev) ("app." ^^ id ^^ ".") ||
    (HasPrefix (e_Topic ev) "deploy." &&
     match e_Payload ev with Some p => match app_id p with Some v => v =s id | None => false end | None => false end)
  end.
Definition serveBusFiltered {P} (app_id : P → option string) (app : option string) (evs : list (Event P)) : list (Event P) :=
  List.filter (matches app_id app) evs.
End Streams.

(** *** Lines of a log *)

(** The writer of one stream: what it has buffered and the lines it has emitted. *)
Record sseStreamWriter := mkWriter { sw_buf : list ascii; sw_lines : list (list ascii) }.

Definition nl : ascii := "010"%char.
Definition cr : ascii := "013"%char.
Definition chomp (l : list ascii) : list ascii := trim_right_where (Ascii.eqb cr) l.

(** The complete lines at the start of [l], and the rest. *)
Fixpoint take_lines (cur l : list ascii) : list (list ascii) * list ascii :=
  match l with
  | [] => ([], rev cur)
  | c :: l => if Ascii.eqb c nl then let r := take_lines [] l in (chomp (rev cur) :: r.1, r.2) else take_lines (c :: cur) l
  end.

Definition Write (s : sseStreamWriter) (p : list ascii) : sseStreamWriter :=
  let r := take_lines [] (sw_buf s ++ p) in mkWriter r.2 (sw_lines s ++ r.1).

(** ** A running terminal *)

Inductive Frame := Binary (data : string) | Text (data : string).

(** The handler waits for a first report, gives the other pump a moment, and
    closes everything. *)
Inductive Wait := Waiting | Draining (err : option string) | Closed (err : option string).

(** The pumps that run; the channel of their reports; what was read from the
    container and sent to the client; the frames read from the client, what was
    written to the terminal, and the sizes (rows, columns) it was given. *)
Record Session := mkSession {
  ts_down : bool; ts_up : bool; ts_errs : list (option string); ts_main : Wait;
  ts_output : list string; ts_sent : list string;
  ts_frames : list Frame; ts_stdin : list string; ts_sizes : list (Z * Z);
}.
Definition opened : Session := mkSession true true [] Waiting [] [] [] [] [].
Definition errCh_cap : nat := 2.

(** The exec is created and attached, or the terminal closes with the error. *)
Definition runExec (created attached : option string) : string + Session :=
  match created, attached with Some e, _ => inl e | None, Some e => inl e | None, None => inr opened end.

Section Running.
(** [json.Unmarshal] into [resizeMsg]: type, columns and rows. *)
Context (decode : string → option (string * Z * Z)).

Definition resize_of (data : string) : list (Z * Z) :=
  match decode data with
  | Some (type, cols, rows) => if (type =s "resize") && (0 <? cols)%Z && (0 <? rows)%Z then [(rows, cols)] else []
  | None => []
  end.

(** Docker to client. *)
Definition pumped (s : Session) (b : string) (sent : list string) : Session :=
  mkSession (ts_down s) (ts_up s) (ts_errs s) (ts_main s) (ts_output s ++ [b]) (ts_sent s ++ sent) (ts_frames s) (ts_stdin s) (ts_sizes s).
Definition down_reports (s : Session) (r : option string) : Session :=
  mkSession false (ts_up s) (ts_errs s ++ [r]) (ts_main s) (ts_output s) (ts_sent s) (ts_frames s) (ts_stdin s) (ts_sizes s).
(** Client to Docker. *)
Definition taken (s : Session) (f : Frame) (stdin : list string) (sizes : list (Z * Z)) : Session :=
  mkSession (ts_down s) (ts_up s) (ts_errs s) (ts_main s) (ts_output s) (ts_sent s) (ts_frames s ++ [f]) (ts_stdin s ++ stdin) (ts_sizes s ++ sizes).
Definition up_reports (s : Session) (r : option string) : Session :=
  mkSession (ts_down s) false (ts_errs s ++ [r]) (ts_main s) (ts_output s) (ts_sent s) (ts_frames s) (ts_stdin s) (ts_sizes s).
Definition main_to (s : Session) (m : Wait) (errs : list (option string)) : Session :=
  mkSession (ts_down s) (ts_up s) errs m (ts_output s) (ts_sent s) (ts_frames s) (ts_stdin s) (ts_sizes s).

Definition free_slot (s : Session) : Prop := length (ts_errs s) < errCh_cap.

(** A write to the terminal that fails may have written a part. *)
Inductive pump : Session → Session → Prop :=
  | down_chunk s b : ts_down s = true → pump s (pumped s b [b])
  | down_write_fails s b e : ts_down s = true → free_slot s → pump s (down_reports (pumped s b []) (Some e))
  | down_ends s r : ts_down s = true → free_slot s → pump s (down_reports s r)
  | up_binary s d : ts_up s = true → pump s (taken s (Binary d) [d] [])
  | up_write_fails s d part e : ts_up s = true → free_slot s → HasPrefix d part = true → pump s (up_reports (taken s (Binary d) [part] []) (Some e))
  | up_text s t : ts_up s = true → pump s (taken s (Text t) [] (resize_of t))
  | up_ends s : ts_up s = true → free_slot s → pump s (up_reports s None).

Inductive wait : Session → Session → Prop :=
  | first_report s e l : ts_main s = Waiting → ts_errs s = e :: l → wait s (main_to s (Draining e) l)
  | second_report s e x l : ts_main s = Draining e → ts_errs s = x :: l → wait s (main_to s (Closed e) l)
  | timer_fires s e : ts_main s = Draining e → wait s (main_to s (Closed e) (ts_errs s)).

Definition step (s s' : Session) : Prop := pump s s' ∨ wait s s'.

(** *** What holds in every state *)

Definition typed (f : Frame) : list string := match f with Binary d => [d] | Text _ => [] end.
Definition sized (f : Frame) : list (Z * Z) := match f with Binary _ => [] | Text t => resize_of t end.
Definition joined (l : list string) : string := foldr String.append "" l.

Definition stopped (s : Session) : nat := (if ts_down s then 0 else 1) + (if ts_up s then 0 else 1).
Definition received (m : Wait) : nat := match m with Waiting => 0 | _ => 1 end.

Record faithful (s : Session) : Prop := {
  (** the client gets the bytes of the terminal, in order, but for a last chunk
      that could not be sent; *)
  fa_down : ts_sent s = ts_output s ∨ ts_down s = false ∧ ∃ b, ts_output s = ts_sent s ++ [b];
  (** the terminal gets the bytes the client typed, in order, and all of them
      while the pump runs; *)
  fa_up : ∃ rest, joined (ts_frames s ≫= typed) = joined (ts_stdin s) ^^ rest ∧ (ts_up s = true → rest = "");
  (** it is resized as the well-formed control frames say; *)
  fa_sizes : ts_sizes s = ts_frames s ≫= sized;
  (** each pump reports once, into a channel with room for it; *)
  fa_room : (ts_down s = true ∨ ts_up s = true) → free_slot s;
  fa_reports : length (ts_errs s) + received (ts_main s) ≤ stopped s ∧ (ts_main s = Waiting → length (ts_errs s) = stopped s);
  (** and nothing is closed while both pumps run. *)
  fa_open : ts_main s ≠ Waiting → stopped s ≠ 0;
}.

Lemma opened_faithful : faithful opened.
Proof. split; simpl; [by left|by exists ""|done|by intros _; unfold free_slot, errCh_cap; simpl; lia|by split|done]. Qed.

Lemma joined_app l1 l2 : joined (l1 ++ l2) = joined l1 ^^ joined l2.
Proof. induction l1 as [|x l1 IH]; [done|]. simpl. by rewrite IH, string_app_assoc. Qed.

Lemma frames_snoc {A} (f : Frame → list A) l x : (l ++ [x]) ≫= f = (l ≫= f) ++ f x.
Proof. rewrite bind_app. simpl. by rewrite app_nil_r. Qed.

(** Only the reports and the pumps count for the last three. *)
Definition counted (s : Session) : Prop :=
  (length (ts_errs s) + received (ts_main s) ≤ stopped s ∧ (ts_main s = Waiting → length (ts_errs s) = stopped s)) ∧ (ts_main s ≠ Waiting → stopped s ≠ 0).

Lemma counted_room s : counted s → (ts_down s = true ∨ ts_up s = true) → free_slot s.
Proof. unfold counted, free_slot, errCh_cap, stopped. intros [[H _] _] [E|E]; rewrite E in H; [destruct (ts_up s)|destruct (ts_down s)]; simpl in H; lia. Qed.

Lemma down_counted s r : ts_down s = true → counted s → counted (down_reports s r).
Proof.
  unfold counted, stopped. intros E [[H1 H2] H3]. rewrite E in *. simpl in *. rewrite length_app. simpl.
  split; [split|]; [lia|intros Hm; rewrite (H2 Hm); lia|lia].
Qed.
Lemma up_counted s r : ts_up s = true → counted s → counted (up_reports s r).
Proof.
  unfold counted, stopped. intros E [[H1 H2] H3]. rewrite E in *. simpl in *. rewrite length_app. simpl.
  split; [split|]; [lia|intros Hm; rewrite (H2 Hm); lia|lia].
Qed.

Lemma faithful_counted s : faithful s → counted s.
Proof. intros []. by split. Qed.

Lemma faithful_pump s s' : pump s s' → faithful s → faithful s'.
Proof.
  intros Hp F. pose proof (faithful_counted s F) as Hc. destruct F as [F1 (rest & F2 & F2') F3 F4 F5 F6].
  assert (HS : ∀ x, counted x → (ts_sent x = ts_output x ∨ ts_down x = false ∧ ∃ b, ts_output x = ts_sent x ++ [b]) →
    (∃ r, joined (ts_frames x ≫= typed) = joined (ts_stdin x) ^^ r ∧ (ts_up x = true → r = "")) → ts_sizes x = ts_frames x ≫= sized → faithful x).
  { intros x Hx ? ? ?. split; try done; [by apply counted_room|apply Hx|apply Hx]. }
  inversion Hp as [? b E|? b e E ?|? r E ?|? d E|? d part e E ? Hpre|? t E|? E ?]; subst; apply HS; simpl;
    try (by apply down_counted); try (by apply up_counted); try done; try (by exists rest).
  - left. destruct F1 as [->|[? _]]; [done|congruence].
  - right. split; [done|]. exists b. rewrite app_nil_r. destruct F1 as [->|[? _]]; [done|congruence].
  - destruct F1 as [->|[? _]]; [by left|congruence].
  - exists "". split; [|done]. rewrite frames_snoc, !joined_app, F2, (F2' E). simpl. by rewrite !string_app_nil.
  - rewrite frames_snoc. simpl. by rewrite !app_nil_r.
  - apply has_prefix_app in Hpre as [x ->]. exists (x ^^ ""). split; [|done]. rewrite frames_snoc, !joined_app, F2, (F2' E). simpl.
    by rewrite !string_app_nil, string_app_assoc.
  - rewrite frames_snoc. simpl. by rewrite !app_nil_r.
  - exists rest. split; [|done]. by rewrite frames_snoc, !app_nil_r.
  - by rewrite frames_snoc, F3.
Qed.

Lemma faithful_wait s s' : wait s s' → faithful s → faithful s'.
Proof.
  intros Hw F. pose proof (faithful_counted s F) as [[C1 C2] C3]. destruct F as [F1 F2 F3 F4 F5 F6].
  assert (HS : ∀ m errs, counted (main_to s m errs) → faithful (main_to s m errs)).
  { intros m errs Hx. split; try done; [by apply counted_room|apply Hx|apply Hx]. }
  inversion Hw as [? e l Em El|? e x l Em El|? e Em]; subst; apply HS; unfold counted, stopped in *; simpl in *;
    rewrite Em in *; try rewrite El in *; simpl in *; (split; [split|]); try done; lia.
Qed.

Lemma reach_faithful s : rtc step opened s → faithful s.
Proof.
  assert (HG : ∀ x y, rtc step x y → faithful x → faithful y); [|intros Hr; by apply (HG _ _ Hr), opened_faithful].
  induction 1 as [|x y z [Hp|Hw] _ IH]; [done| |]; intros Hx; apply IH; [by eapply faithful_pump|by eapply faithful_wait].
Qed.

(** Once a pump has stopped the handler returns by its own steps. *)
Lemma returns_alone s : faithful s → stopped s ≠ 0 → ∃ s' e, rtc wait s s' ∧ ts_main s' = Closed e.
Proof.
  intros F Hs. destruct F as [_ _ _ _ [_ F5] _]. destruct (ts_main s) as [|e|e] eqn:Em.
  - specialize (F5 eq_refl). destruct (ts_errs s) as [|e l] eqn:El; [simpl in F5; lia|].
    exists (main_to (main_to s (Draining e) l) (Closed e) l), e. split; [|done].
    eapply rtc_l; [by eapply first_report|]. apply rtc_once. by apply (timer_fires (main_to s (Draining e) l)).
  - exists (main_to s (Closed e) (ts_errs s)), e. split; [|done]. by apply rtc_once, timer_fires.
  - exists s, e. by split.
Qed.

(** The handler closes with what the first report says. *)
Definition truncateReason (s : string) : string := if (len s <=? 100)%Z then s else take_s 100 s.
Definition close_frame (r : option string) : Z * string :=
  match r with Some e => (1011%Z, truncateReason e) | None => (1000%Z, "") end.

Lemma truncate_fits s : (len (truncateReason s) <= 100)%Z.
Proof.
  unfold truncateReason. destruct (Z.leb_spec (len s) 100) as [H|H]; [done|].
  unfold len in *. rewrite take_length; lia.
Qed.

(** C31: A terminal passes bytes on as they are: over any interleaving of its two
    pumps, their failures and the handler that waits, the client has got what
    the container wrote, in order, but for a last chunk that could not be sent;
    the container has got what the client typed, in order and all of it while the
    pump runs; it was resized as the well-formed control frames say.  No pump
    blocks on its report, nothing is closed while both run, and once one has
    stopped the handler returns by steps of its own. *)
Theorem session_faithful s : rtc step opened s →
  faithful s ∧ (stopped s ≠ 0 → ∃ s' e, rtc wait s s' ∧ ts_main s' = Closed e).
Proof. intros H%reach_faithful. split; [done|by apply returns_alone]. Qed.
End Running.

(** ** Log lines do not depend on the chunks *)

Lemma take_lines_app cur a b :
  take_lines cur (a ++ b) = ((take_lines cur a).1 ++ (take_lines (rev (take_lines cur a).2) b).1, (take_lines (rev (take_lines cur a).2) b).2).
Proof.
  revert cur. induction a as [|c a IH]; intros cur; simpl.
  - rewrite rev_involutive. by destruct (take_lines cur b).
  - destruct (Ascii.eqb c nl); simpl; by rewrite IH.
Qed.

(** The rest holds no newline: reading it again changes nothing. *)
Lemma take_lines_rest cur l : Forall (λ c, Ascii.eqb c nl = false) cur → Forall (λ c, Ascii.eqb c nl = false) (take_lines cur l).2.
Proof.
  revert cur. induction l as [|c l IH]; intros cur Hc; simpl; [by apply Forall_rev|].
  destruct (Ascii.eqb c nl) eqn:E; simpl; apply IH; [constructor|by constructor].
Qed.
Lemma take_lines_again cur r b : Forall (λ c, Ascii.eqb c nl = false) r → take_lines cur (r ++ b) = take_lines (rev r ++ cur) b.
Proof.
  revert cur. induction r as [|c r IH]; intros cur Hr; [done|]. apply Forall_cons in Hr as [Ec Hr]. simpl. rewrite Ec, IH by done. by rewrite <- app_assoc.
Qed.

(** What a log stream emits does not depend on how Docker chunks the bytes:
    after any sequence of writes the lines are those of the bytes joined, and the
    buffer holds what follows the last newline. *)
Theorem lines_chunked ps : foldl Write (mkWriter [] []) ps = Write (mkWriter [] []) (concat ps).
Proof.
  assert (HG : ∀ ps done_, foldl Write (Write (mkWriter [] []) done_) ps = Write (mkWriter [] []) (done_ ++ concat ps)).
  { clear ps. induction ps as [|p ps IH]; intros l; simpl; [by rewrite app_nil_r|].
    assert (E : Write (Write (mkWriter [] []) l) p = Write (mkWriter [] []) (l ++ p)).
    { unfold Write. simpl. rewrite (take_lines_again [] (take_lines [] l).2 p) by (apply take_lines_rest; constructor). by rewrite (take_lines_app [] l p), app_nil_r. }
    rewrite E, IH. by rewrite <- app_assoc. }
  by apply (HG ps []).
Qed.

(** ** Who gets a shell or a log *)

Lemma trim_prefix_app s p : HasPrefix s p = true → s = p ^^ TrimPrefix s p.
Proof. intros H. unfold TrimPrefix. rewrite H. apply has_prefix_app in H as [t ->]. by destruct (take_drop_app p t (String.length p) eq_refl) as [_ ->]. Qed.

Section Guarded.
Context `{Uc : Unicode} `{CL : CryptoLib}.
Context (jwtSecret : string) (tokens : bool) (now : Z) (devMode : bool) (instanceURL : string) (url_Host : string → option string).
Context (accept : list string → string → bool) (svc : Apps.Service) (servers : string → option (option Docker)) (logs : Docker → string → bool).

(** What the daemon documents of a label filter. *)
Definition filters : Prop := ∀ id cli app_id l c, servers id = Some (Some cli) →
  dk_List cli ("prexel.app_id=" ^^ app_id) = Some l → c ∈ l → label (ct_Labels c) "prexel.app_id" = app_id.

(** A personal token that is neither revoked nor expired. *)
Definition live_pat (d : Db) (raw userID : string) : Prop :=
  ∃ t, t ∈ api_tokens d ∧ hash_is (hashRaw raw) t = true ∧ at_revoked_at t = None ∧ at_user_id t = userID ∧
    (∀ e, at_expires_at t = Some e → (now <= ApiTokens.second * e)%Z).

(** The user a request proves to be, by one of the three ways. *)
Definition authentic (d : Db) (u : upgrade) (userID matched : string) : Prop :=
  (∃ raw, ug_Authorization u = "Bearer " ^^ raw ∧ matched = "" ∧
    (parseJWTSub jwtSecret now raw = Some userID ∨ tokens = true ∧ HasPrefix raw TokenPrefix = true ∧ live_pat d raw userID)) ∨
  (∃ tok, parseJWTSub jwtSecret now tok = Some userID ∧ HasPrefix (ug_Authorization u) "Bearer " = false ∧
    ((matched = "bearer." ^^ tok ∧ ∃ v p, v ∈ ug_Protocols u ∧ p ∈ Split v "," ∧ TrimSpace p = matched) ∨ (matched = "" ∧ tok = ug_token u))).

Lemma pat_wp raw d : wp (Authenticate raw now) (λ d' r, d' = d ∧ ∀ x, r = inr x → live_pat d raw x) d.
Proof.
  unfold Authenticate. destruct (_ || _); [by apply wp_throw|]. apply wp_bind, wp_query; [done|].
  destruct (sel _ (api_tokens d)) as [t|] eqn:Et; [|by apply wp_throw]. apply sel_Some in Et as [Ht Eh].
  destruct (at_revoked_at t) eqn:Er; [by apply wp_throw|]. destruct (at_expires_at t) as [e|] eqn:Ee.
  - destruct (Z.ltb_spec (ApiTokens.second * e) now); [by apply wp_throw|]. apply wp_ret. split; [done|]. intros x [= <-]. exists t. split_and!; try done. intros e0 He. assert (e0 = e) as -> by congruence. lia.
  - apply wp_ret. split; [done|]. intros x [= <-]. exists t. split_and!; try done. intros e0 He. congruence.
Qed.

Lemma subprotocol_in values p tok : subprotocol values = Some (p, tok) → p = "bearer." ^^ tok ∧ ∃ v q, v ∈ values ∧ q ∈ Split v "," ∧ TrimSpace q = p.
Proof.
  unfold subprotocol. intros H. assert (Hin : (p, tok) ∈ omap bearer_of (concat ((λ v, Split v ",") <$> values))).
  { destruct (omap bearer_of _) as [|x l]; [done|]. injection H as ->. by left. }
  apply list_elem_of_omap in Hin as (q & Hq & Hb). unfold bearer_of in Hb. destruct (HasPrefix (TrimSpace q) "bearer.") eqn:Ep; [|done].
  destruct (negb _); [|done]. injection Hb as <- <-. split; [by apply trim_prefix_app|].
  apply list_elem_of_In, List.in_concat in Hq as (l & Hl & Hq). apply list_elem_of_In, list_elem_of_fmap in Hl as (v & -> & Hv).
  exists v, q. split_and!; [done|by apply list_elem_of_In|done].
Qed.

Lemma upgrade_wp u s :
  wp (authenticate jwtSecret tokens now u) (λ s' r, s' = s ∧ ∀ x m, r = inr (Some (x, m)) → authentic (aa_db s) u x m) s.
Proof.
  unfold authenticate. destruct (HasPrefix (ug_Authorization u) "Bearer ") eqn:Eb.
  - pose proof (trim_prefix_app _ _ Eb) as Ea. set (raw := TrimPrefix (ug_Authorization u) "Bearer ") in *. cbv zeta.
    destruct (tokens && HasPrefix raw TokenPrefix) eqn:Et; bool_simp.
    + apply wp_bind, wp_calling. eapply wp_mono; [apply pat_wp|]. intros d r [-> Hr]. rewrite put_same. apply wp_ret. split; [done|].
      intros x m [= E]. destruct r as [e|y]; [done|]. injection E as -> <-. left. exists raw. split_and!; try done. right. split_and!; try done. by apply Hr.
    + apply wp_ret. split; [done|]. intros x m [= E]. destruct (parseJWTSub _ _ raw) as [y|] eqn:Ey; [|done]. injection E as -> <-. left. exists raw. split_and!; try done. by left.
  - destruct (subprotocol (ug_Protocols u)) as [[p tok]|] eqn:Es; apply wp_ret; (split; [done|]); intros x m [= E].
    + destruct (parseJWTSub _ _ tok) as [y|] eqn:Ey; [|done]. injection E as -> ->. right. exists tok. split_and!; try done. left. by apply subprotocol_in.
    + destruct (ug_token u =s ""); [done|]. destruct (parseJWTSub _ _ (ug_token u)) as [y|] eqn:Ey; [|done]. injection E as -> <-.
      right. exists (ug_token u). split_and!; try done. by right.
Qed.

(** A container of the server of [a] under a name, with the label [id]. *)
Definition labelled_as (a : App) (id name : string) : Prop :=
  ∃ cli l c, servers (default "" (a_server_id a)) = Some (Some cli) ∧ dk_List cli ("prexel.app_id=" ^^ id) = Some l ∧ c ∈ l ∧
    label (ct_Labels c) "prexel.app_id" = id ∧ ∃ n, n ∈ ct_Names c ∧ TrimPrefix n "/" = name.

Lemma belongs_labelled a id name cli : filters → servers (default "" (a_server_id a)) = Some (Some cli) →
  execContainerBelongsToApp cli id name = true → labelled_as a id name.
Proof.
  intros HL Hs. unfold execContainerBelongsToApp. destruct (dk_List cli _) as [l|] eqn:El; [|done]. intros (c & Hc & Hn)%existsb_witness.
  apply existsb_witness in Hn as (n & Hn & En). apply String.eqb_eq in En. exists cli, l, c. split_and!; try done; [by eapply HL|by exists n].
Qed.

Lemma stream_client_ok {B} a : match stream_client (B := B) servers a with
  | inl r => ∃ st code, r = Refuse st code | inr cli => servers (default "" (a_server_id a)) = Some (Some cli) end.
Proof. unfold stream_client. destruct (blank_opt _); [by repeat eexists|]. destruct (servers _) as [[cli|]|]; [done|by repeat eexists..]. Qed.

Lemma tail_of_pos tail : (0 < tail_of tail)%Z.
Proof. unfold tail_of. destruct (Atoi tail) as [k|]; [|done]. destruct (Z.ltb_spec 0 k); lia. Qed.

Lemma container_logs_wp id tail s : wp (Logs svc servers logs id tail) (λ s' out, s' = s ∧
  ∀ c n, out = inr (Answer 200 (LogStream c n)) → ∃ a, called (aa_db s) id a ∧ a_container_name a = Some c ∧ (0 < n)%Z) s.
Proof.
  apply wp_bind, wp_calling. eapply wp_mono; [apply get_called|]. intros d [e|[a tags]] [-> Hx]; rewrite put_same; apply wp_ret; (split; [done|]); intros c n [= E].
  - destruct (app_error_refuses (B := Opened) e) as (st & code & E'). congruence.
  - destruct (a_container_name a) as [name|] eqn:En; [|done]. destruct (a_server_id a) as [server|]; [|done].
    destruct (servers server) as [[cli|]|]; try done. destruct (logs cli name); [|done]. injection E as <- <-.
    exists a. split_and!; [exact Hx|done|apply tail_of_pos].
Qed.
Lemma events_wp id s : wp (AppEvents svc id) (λ s' out, s' = s ∧
  ∀ o, out = inr (Answer 200 o) → ∃ a, called (aa_db s) id a ∧ o = EventStream (Some (a_id a))) s.
Proof.
  apply wp_bind, wp_calling. eapply wp_mono; [apply get_called|]. intros d [e|[a tags]] [-> Hx]; rewrite put_same; apply wp_ret; (split; [done|]); intros o [= E].
  - destruct (app_error_refuses (B := Opened) e) as (st & code & E'). congruence.
  - by exists a.
Qed.

(** C30: A shell is opened only for a user who proves to be one by a live token,
    whose role grants update on the team of the app, in a container that carries
    the label of that app, under the name that was asked.  The logs of a
    container that is named ([/apps/{id}/containers/{name}/logs]) are streamed
    only with the permission to view the app, from a container whose label is the
    path parameter as it came, where the comment of the handler says the id of
    the app.  The logs and the events of an app ([/apps/{id}/logs] and [/events])
    ask no permission: every session may follow them ([Examples.logs_unguarded]),
    and gets the container the row of the app names, or the events of that app,
    only.  Nothing is changed. *)
Theorem streams_guarded u user id name tail s : filters →
  wp (Exec jwtSecret tokens now devMode instanceURL url_Host accept svc servers u id name) (λ s' out, s' = s ∧
    ∀ m c shell, out = inr (Answer 101 (Terminal m c shell)) → ∃ x a, authentic (aa_db s) u x m ∧ called (aa_db s) id a ∧
      may_access (aa_db s) x (a_team_id a) PermAppsUpdate = true ∧ c = TrimSpace name ∧ labelled_as a (a_id a) c ∧
      accept (originPatterns devMode instanceURL url_Host) m = true) s ∧
  wp (Stream svc servers logs user id name tail) (λ s' out, s' = s ∧
    ∀ c n, out = inr (Answer 200 (LogStream c n)) → ∃ x a, user = Some x ∧ called (aa_db s) id a ∧
      may_access (aa_db s) x (a_team_id a) PermAppsView = true ∧ c = TrimSpace name ∧ labelled_as a id c ∧ (0 < n)%Z) s ∧
  wp (Logs svc servers logs id tail) (λ s' out, s' = s ∧
    ∀ c n, out = inr (Answer 200 (LogStream c n)) → ∃ a, called (aa_db s) id a ∧ a_container_name a = Some c ∧ (0 < n)%Z) s ∧
  wp (AppEvents svc id) (λ s' out, s' = s ∧ ∀ o, out = inr (Answer 200 o) → ∃ a, called (aa_db s) id a ∧ o = EventStream (Some (a_id a))) s.
Proof.
  intros HL. split_and!; [| |apply container_logs_wp|apply events_wp].
  - apply wp_bind. eapply wp_mono; [apply upgrade_wp|]. intros s' [[]|who] [-> Hw]. destruct who as [[x m]|]; [|by apply wp_ret].
    cbv zeta. destruct (TrimSpace name =s ""); [by apply wp_ret|]. apply with_app_wp; [by intros r [_ (st & code & ->)]|].
    intros u' a tags [= <-] Hc Hm. apply wp_ret. split; [done|]. intros m' c shell [= E]. pose proof (stream_client_ok (B := Opening) a) as Hs.
    destruct (stream_client servers a) as [r|cli]; [destruct Hs as (st & code & ->); done|]. destruct (execContainerBelongsToApp _ _ _) eqn:Eb; [|done].
    simpl in E. destruct (accept _ m) eqn:Ea; [|done]. injection E as <- <- <-. exists x, a. split_and!; try done; [by apply Hw|by eapply belongs_labelled].
  - unfold Stream. cbv zeta. destruct (TrimSpace name =s ""); [by apply wp_ret|]. apply with_app_wp; [by intros r [_ (st & code & ->)]|].
    intros x a tags Ex Hc Hm. apply wp_ret. split; [done|]. intros c n [= E]. pose proof (stream_client_ok (B := Opened) a) as Hs.
    destruct (stream_client servers a) as [r|cli]; [destruct Hs as (st & code & ->); done|]. destruct (containerBelongsToApp _ _ _) eqn:Eb; [|done].
    simpl in E. destruct (logs _ _); [|done]. injection E as <- <-. exists x, a. split_and!; try done; [by eapply belongs_labelled|].
    apply tail_of_pos.
Qed.
End Guarded.

(** ** Examples *)

Module Examples.
#[local] Existing Instance ascii_only.
#[local] Existing Instance toy_lib.
#[local] Existing Instance Build.Examples.toy_yaml.
Import AppsApi.Examples.

Definition decode_size (s : string) : option (string * Z * Z) := if s =s "{80x24}" then Some ("resize", 80%Z, 24%Z) else None.

Lemma session_faithful_witness : ∃ s, rtc (step decode_size) opened s ∧
  ts_sent s = ["$ "] ∧ ts_stdin s = ["ls"] ∧ ts_sizes s = [(24%Z, 80%Z)] ∧ ts_main s = Closed None ∧ ts_down s = true ∧
  faithful decode_size s ∧ (stopped s ≠ 0 → ∃ s' e, rtc wait s s' ∧ ts_main s' = Closed e).
Proof.
  eexists. assert (Hr : rtc (step decode_size) opened (mkSession true false [] (Closed None) ["$ "] ["$ "] [Binary "ls"; Text "{80x24}"; Text "junk"] ["ls"] [(24%Z, 80%Z)])).
  { eapply rtc_l; [left; by apply (down_chunk decode_size opened "$ ")|]. eapply rtc_l; [left; by apply up_binary|].
    eapply rtc_l; [left; by eapply (up_text _ _ "{80x24}")|]. eapply rtc_l; [left; by eapply (up_text _ _ "junk")|].
    eapply rtc_l; [left; apply up_ends; [done|unfold free_slot, errCh_cap; simpl; lia]|]. eapply rtc_l; [right; by eapply first_report|].
    eapply rtc_l; [right; by eapply timer_fires|]. apply rtc_refl. }
  split; [exact Hr|]. split_and!; try done; by apply (session_faithful decode_size _ Hr).
Defined.

Definition key : string := "0123456789abcdef0123456789abcdef".
Definition token_of (user : string) : string := match IssueAccessToken key user 0 with inr (raw, _) => raw | inl _ => "" end.
Definition docker (id : string) : option (option Docker) := if id =s "s" then Some (Some host) else None.
Definition browser (user : string) : upgrade := mkUpgrade "" ["chat, bearer." ^^ token_of user] "" "".
Definition shell (user name : string) : Empty_set + Reply Opening :=
  (run (Exec key true 0 false "" (λ _, None) (λ _ _, true) ex_svc docker (browser user) app1 name) start).2.
Definition logs_of (user : option string) (id name : string) : Empty_set + Reply Opened :=
  (run (Stream ex_svc docker (λ _ _, true) user id name "20") start).2.

Lemma docker_filters : filters docker.
Proof.
  intros i cli app l c E Hl Hc. eapply (hosts_filter (λ i, docker i)); [|exact E|exact Hl|exact Hc]. reflexivity.
Qed.

Lemma streams_guarded_witness :
  shell "root" "web-1" = inr (Answer 101 (Terminal ("bearer." ^^ token_of "root") "web-1" "/bin/sh")) ∧
  wp (Exec key true 0 false "" (λ _, None) (λ _ _, true) ex_svc docker (browser "root") app1 "web-1") (λ s' out, s' = start ∧
    ∀ m c sh, out = inr (Answer 101 (Terminal m c sh)) → ∃ x a, authentic key true 0 office (browser "root") x m ∧ called office app1 a ∧
      may_access office x (a_team_id a) PermAppsUpdate = true ∧ c = TrimSpace "web-1" ∧ labelled_as docker a (a_id a) c ∧ true = true) start.
Proof.
  split; [by vm_compute|]. apply (proj1 (streams_guarded key true 0 false "" (λ _, None) (λ _ _, true) ex_svc docker (λ _ _, true) (browser "root") (Some "root") app1 "web-1" "20" start docker_filters)).
Defined.

(** A viewer gets no shell, nobody gets one in a container without the label. *)
Lemma shell_refused : shell "guest" "web-1" = inr (Refuse 403 "forbidden") ∧ shell "root" "web" = inr (Refuse 403 "container_not_found").
Proof. split; by vm_compute. Qed.

(** The logs of a container are refused when the app is given by its name: the
    label is compared with the path and not with the id. *)
Lemma logs_by_name_refused :
  logs_of (Some "root") app1 "web-1" = inr (Answer 200 (LogStream "web-1" 20)) ∧ logs_of (Some "root") "web" "web-1" = inr (Refuse 403 "forbidden").
Proof. split; by vm_compute. Qed.

(** The logs and the events of any app are open to every session. *)
Lemma logs_unguarded :
  may_access office "guest" (a_team_id web) PermAppsView = false ∧
  (run (Logs ex_svc docker (λ _ _, true) app1 "") start).2 = inr (Answer 200 (LogStream "web" 100)) ∧
  (run (AppEvents ex_svc app1) start).2 = inr (Answer 200 (EventStream (Some app1))).
Proof. split_and!; by vm_compute. Qed.

(** What follows the last newline is never emitted. *)
Lemma last_line_lost : sw_lines (Write (mkWriter [] []) (String.list_ascii_of_string "panic")) = [].
Proof. reflexivity. Qed.
End Examples.
