(* ===== verification/Divergences.v ===== *)
(** * Where the code and its documentation part

    Behaviours of the modelled code that a comment or another part of the
    code contradicts, each shown on the definitions of the component: the
    address a new domain is routed to, the container a failed proxy call
    leaves behind, the route a failed PATCH leaves behind, the images pruning
    removes, the deployment a rollback without a target picks, the status of an
    app without a domain whose candidate failed, the capacity of the admission semaphore, the
    label that marks managed containers, the names of volumes and the
    unlimited swap. *)

From S2P Require Import Prelude Effects GoStrings Regex Schema Routing Docker Domains Apps Caddy Swap Compose Deploy.
From stdpp Require Import gmap.

(** A domain added to an app that is deployed is routed to ["prexel-<app>"]
    (domains/service.go: resolveUpstreamFor); a deployment leaves its
    container under ["<app>"], and none answers to the other name. *)
Lemma new_domain_upstream_unserved :
  let w' := (runDeploy (Fl := z_floats) (Nt := any_port) (Uc := ascii_only) wd_engine wd_run wd_app wd_opts "" wd_world []).1.1 in
  (resolveUpstreamFor (C := gmap string Route) (Some "a") None None (mkDomState (w_db w') (w_caddy w') [] ∅) []).2
    = inr ("prexel-web", 8080%Z) ∧
  served (w_docker w') "web" = true ∧ served (w_docker w') "prexel-web" = false.
Proof. vm_compute. done. Qed.

(** A proxy whose admin API refuses every change. *)
Definition refusing_proxy : CaddyClient (gmap string Route) := {|
  Routing.UpsertRoute h u p f c := (c, CFailed);
  Routing.RemoveRoute h c := (c, CFailed);
  Routing.EnableTLS h c := (c, CFailed);
  Routing.DisableTLS h c := (c, CFailed);
|}.

(** When the proxy refuses the new route the run fails, and the candidate
    stays behind, running (engine.go, step 7: stop+remove temp). *)
Lemma refused_route_leaves_candidate :
  let '(w', _, r) := swap (CC := refusing_proxy) (Fl := z_floats) (Nt := any_port) (Uc := ascii_only) wd_engine
                       (re_env wd_run) wd_app "prexel-web-bbb:2" "dep-1" wd_world [] in
  r = inl (ErrDeploy "caddy upsert example.com") ∧
  (λ c, (c_name c, c_running c)) <$> w_docker w' = [("web", true); ("web-deploying-bbb", true)].
Proof. vm_compute. done. Qed.

(** An admin API that answers the first request with an internal error. *)
Definition stumbling_api : AdminAPI (bool * Mem) := {|
  exchange method path body (s : bool * Mem) :=
    if s.1 then ((false, s.2), answer 500 "internal error")
    else let '(m, o) := exchange method path body s.2 in ((false, m), o)
|}.

(** It keeps the laws of the admin API. *)
#[local] Instance stumbling_laws : AdminLaws (H := stumbling_api) (bool * Mem).
Proof.
  assert (Hx : ∀ m p b (s s' : bool * Mem) o, exchange (AdminAPI := stumbling_api) m p b s = (s', o) →
    (s'.2 = s.2 ∧ o = answer 500 "internal error") ∨ exchange m p b s.2 = (s'.2, o)).
  { intros m p b [[] c] s' o E; [injection E as <- <-; by left|]. right. unfold exchange at 1, stumbling_api in E. cbn [fst snd] in E.
    cbn [snd]. destruct (exchange m p b c) as [c' o']. by injection E as <- <-. }
  refine {| rts s := mem_rts s.2 |}.
  - intros id r s s' o [[-> ->]|E]%Hx; [by left|]. by apply (patch_id (C := Mem)) in E.
  - intros id s s' o [[-> ->]|E]%Hx; [by left|]. by apply (Caddy.delete_id (C := Mem)) in E.
  - intros r s s' o [[-> ->]|E]%Hx; [by left|]. by apply (post_route (C := Mem)) in E.
  - intros r s s' o e [[-> ->]|E]%Hx He Ht; [by simplify_eq/=|].
    exact (@post_traversal Mem _ mem_laws _ _ _ _ _ E He Ht).
  - intros s s' o [[-> ->]|E]%Hx; [by left|]. by apply (load_base (C := Mem)) in E.
  - intros [[] m]; [done|]. simpl. by destruct (m_up m).
  - intros b [[] m]; [done|]. simpl. by destruct (m_up m).
Qed.

#[local] Existing Instance no_sha.

(** A PATCH of an existing route that fails for another reason than a 404 is
    followed by a POST (client.go: any other error bubbles up): the call
    succeeds, a second route with the same id is appended, and the host stays
    routed to the old upstream. *)
Lemma failed_patch_leaves_stale_route :
  let m := mkMem true (Some [makeRoute "shop.example.com" "old" 80]) [] in
  let res := Caddy.UpsertRoute (AA := stumbling_api) "shop.example.com" "new" 80 true (true, m) [] in
  let r := res.2 in let m' := res.1.1.2 in
  r = inr tt ∧ omap rid (mem_rts m') = ["prexel_route_shop_example_com"; "prexel_route_shop_example_com"] ∧
  entry (mem_rts m') "shop.example.com" = Some (mkRoute "old" 80 true).
Proof. vm_compute. done. Qed.

(** The prefix of an app's images is one of another app's as well: pruning
    ["web"] removes the image of ["web-api"]. *)
Lemma prune_reaches_other_app :
  pruned 5 "web" ((["prexel-web-api-0c1:1"], 1%Z) ::
    ((λ n, (["prexel-web-0c1:" ^^ Itoa n], n)) <$> [2; 3; 4; 5; 6]%Z)) = ["prexel-web-api-0c1:1"].
Proof. vm_compute. done. Qed.

(** Without a target, a rollback picks the newest success: the deployment
    that is serving. *)
Lemma rollback_default_is_current :
  let w := set_wdb (on_deployments (λ _, [wd_row "dep-0" "success"]) wd_db) wd_world in
  let w' := (runDeploy (Fl := z_floats) (Nt := any_port) (Uc := ascii_only) wd_engine wd_run wd_app wd_opts "" w []).1.1 in
  ∃ d, (lastSuccess "a" "" w' []).2 = inr d ∧ dp_id d = "dep-1" ∧
    (λ c, Some (cf_Image (c_config c))) <$> w_docker w' = [dp_image_tag d].
Proof. vm_compute. eexists. done. Qed.

(** Without a domain the running container goes before the candidate is
    checked.  When the candidate is unhealthy no container is left, and the app
    is shown as running because an earlier deployment succeeded (engine.go:866:
    keep running if we had a previous success). *)
Lemma domainless_failure_shows_running :
  let db := on_deployments (λ _, [wd_row "dep-0" "success"]) (on_domains (λ _, []) wd_db) in
  let v := mkRunEnv (mkEnv (λ _, Some ∅) [(10, Some 500); (90, Some 200)]%Z (λ _, true) 0 "dep-1" "abcdef0") true (λ _, true) true
    (λ _ _ d, (d, Some (mkBuildResult "prexel-web-bbb:2" "bbb" None))) (λ _, "failed") in
  let w' := (runDeploy (Fl := z_floats) (Nt := any_port) (Uc := ascii_only) wd_engine v wd_app wd_opts "" (set_wdb db wd_world) []).1.1 in
  w_docker w' = [] ∧ a_status <$> apps (w_db w') = ["running"] ∧ dp_status <$> deployments (w_db w') = ["success"; "failed"].
Proof. vm_compute. done. Qed.

(** Once the semaphore exists its capacity never changes, whatever the limiter
    answers. *)
Lemma capacity_read_once limit a g c :
  g_capacity g = Some c →
  g_capacity (enter limit a g).1 = Some c ∧ g_capacity (leave limit a g) = Some c.
Proof.
  intros Hc. split.
  - unfold enter, acquireLock, acquireGlobalSlot. repeat case_match; by simplify_eq/=.
  - unfold leave, releaseSlot, unlock. by destruct limit.
Qed.

(** A label of the operator with the key ["prexel.managed"] replaces
    the one RunContainer sets (engine.go: the prexel.* ones win). *)
Lemma managed_label_forged `{Floats, Unicode, Nat} a dep image temp env bindings mounts v cfg :
  a_docker_labels a !! "prexel.managed" = Some v →
  config_of (candidate_opts a dep image temp env bindings mounts) = inr cfg →
  cf_Labels cfg !! "prexel.managed" = Some v.
Proof.
  intros Hv Hc. unfold config_of in Hc. cbv zeta in Hc. unfold mbind, sum_bind in Hc. repeat case_match; simplify_eq/=;
    apply lookup_union_Some_l; unfold candidate_labels; by rewrite !lookup_insert_ne.
Qed.

(** Two volumes of one app, or of two apps, share a Docker volume: the name is
    made of two slugs joined by the character that replaces all others. *)
Lemma volume_names_meet :
  let name := namedVolumeName (H := ascii_only) in
  name "web" "/api/data" = name "web-api" "/data" ∧ name "web" "/a/b" = name "web" "/a-b" ∧ name "web" "/a/b" = name "web" "/A b".
Proof. vm_compute. done. Qed.

(** The helper reads ["-1"] as unlimited swap; the app service accepts no such value. *)
Lemma unlimited_swap_refused `{Floats} :
  parseMemorySwap (H0 := ascii_only) "-1" = inr (-1)%Z ∧ MatchString memRegex "-1" = false.
Proof. split; vm_compute; reflexivity. Qed.
